(* ===== verification/_CoqProject ===== *)
-Q . S2P
Prelude.v
Memory.v
Kstring.v
Spinlock.v
Mmu.v
Kalloc.v
Vm.v
VmInv.v
VmWalk.v
VmMap.v
VmFree.v
VmKern.v
VmUser.v
VmCopy.v
Cow.v
VmDemo.v
Proc.v
ProcSpec.v
SleepWake.v
Sched.v
Block.v
Ide.v
Bio.v
Log.v
LogSpec.v
LogCrash.v
LogOps.v
Tx.v
Fs.v
FsAlloc.v
FsData.v
FsRw.v
FsInode.v
FsWrite.v
FsIcache.v
FsTrunc.v
FsPath.v
FsDir.v
FsLink.v
Fsops.v
Ring.v
Cons.v
Umem.v
Kern.v
KernSpec.v
Pipe.v
PipeSpec.v
Filetab.v
Procs.v
ProcMem.v
ForkSpec.v
WaitSpec.v
ExitSpec.v
LifeDemo.v
Kbd.v
Console.v
ConsSpec.v
KbdSpec.v
Sysarg.v
Exec.v
Sysfile.v
Syscall.v
Trap.v
Boot.v
Protect.v
Apic.v
Mp.v
Grep.v
Ulib.v
Uprogs.v
Umalloc.v
UmallocSpec.v
Sh.v
ShSpec.v
ShPrint.v
ShRun.v
Mkfs.v
MkfsSpec.v
MkfsImage.v
MkfsBoot.v
