(* ===== verification/Prelude.v ===== *)
(** * xv6 with copy-on-write fork: a verification library

    The program is the teaching kernel xv6 (x86, C) under [src/xv6-public],
    extended with copy-on-write fork: reference counts on physical pages
    (kalloc.c), a [copyuvm] that shares pages read-only and a page-fault
    handler [CoW_handler] that copies them (vm.c), and calls that count pages
    (kalloc.c, proc.c).  The library translates the kernel into executable
    Gallina definitions, from the boot loader and the byte-level string
    routines up to the dispatch of traps, together with the user programs and
    their library and the builder of the disk image, and proves what these
    parts promise to each other.

    ** How C code is represented

    Machine integers are [Z] with their wrap-around written out ([u32],
    [i32], [u16], [u8]).  Code that has effects is a function of the
    outcome monad [M S A] of this file: it returns a value and a state
    ([Ok]), or panics, dereferences an invalid pointer ([Fault]), spins on a
    lock of another CPU, or sleeps.  [wp m Q s] says that [m] run in [s]
    returns with [Q] (total correctness); [zoom] runs code of a component
    inside a larger state.  The states nest:
      - [mach] (Spinlock): the CPUs and the locks;  [kst] (Kalloc): with
        [kmem] and memory, a map from kernel addresses to bytes (Memory);
        [vst] (Vm): with %cr3 and [kpgdir];  [pst] (Proc): with the process
        table;
      - [bst] (Block, Ide, Bio): disk, buffers, sleep locks;  [lst] (Log);
        [fsst] (Fs): with the inode cache;
      - [sys] (Kern): all of it, with files, pipes, clock and console.

    Kernel threads meet only at the points where the code releases a lock or
    switches.  A section under a lock is one definition; a call that sleeps
    ends at the switch and goes on at its [_resume] or [_exit] definition.
    Where the interleaving matters there is a step relation: [Spinlock.Smp]
    (the lock instruction), [SleepWake] (sleep against wakeup),
    [Kalloc.Race] (two CPUs in the allocator), [ShRun] (the processes of a
    command line).

    ** Files

    - Prelude, Memory, Mmu: integers, the monad, bytes in memory,
      constants and macros (types.h, mmu.h, memlayout.h, param.h, fcntl.h).
    - Kstring: string.c.  Spinlock: spinlock.c and [struct cpu].
    - Kalloc: kalloc.c, refining the abstract allocator [pool].
    - Vm: vm.c.  VmInv holds the invariant that ties reference counts to
      page-table entries; VmWalk, VmMap, VmKern, VmUser, VmFree, VmCopy and
      Cow prove the operations against it; VmDemo is a machine that has it.
    - Proc, ProcSpec, Sched, SleepWake: proc.c, first half (table,
      scheduler, sleep, wakeup, kill).
    - Block, Ide, Bio: buf.h, sleeplock.c, ide.c, memide.c, bio.c.  The class
      [DiskDriver] states what the cache needs of a disk; both drivers are
      instances.
    - Log, LogSpec, LogCrash, LogOps, Tx: log.c, crash safety, and the view
      of a transaction that the file system works with.
    - Fs, FsAlloc, FsData, FsRw, FsInode, FsWrite: fs.c, the content of
      files.  FsIcache, FsPath, FsDir: the inode cache, directories, paths.
      FsTrunc: the end of a file.  FsLink: new directory entries.
    - Mkfs, MkfsSpec, MkfsImage, MkfsBoot: mkfs.c, the image as a
      list of files, and a kernel that boots it.
    - Fsops, Sysarg, Sysfile, Exec: the transactions and calls of sysfile.c,
      syscall.c's argument fetching, exec.c.
    - Ring, Cons, Console, ConsSpec, Kbd, KbdSpec: console.c,
      kbd.c, kbd.h, and the output side of uart.c.
    - Kern, KernSpec, Umem: the kernel's whole state, sections
      under locks, access to user memory.
    - Pipe, PipeSpec: pipe.c.  Filetab: file.c.
    - Procs, ProcMem, ForkSpec, WaitSpec, ExitSpec, LifeDemo: proc.c, second
      half (userinit, growproc, fork, exit, wait).
    - Syscall, Trap: sysproc.c, syscall.c, trap.c.
    - Protect: the descriptors of mmu.h as the processor reads them, with
      [seginit], the task state of [switchuvm] and [tvinit].
    - Boot: bootmain.c and the first page table (main.c).  Mp: mp.c, mp.h.
      Apic: ioapic.c, lapic.c, picirq.c, date.h.
    - Grep: grep.c.  Ulib: ulib.c, printf.c.  Umalloc, UmallocSpec:
      umalloc.c.  Sh, ShSpec, ShPrint, ShRun: sh.c.  Uprogs: cat.c, wc.c,
      echo.c, ls.c, kill.c, ln.c, mkdir.c, rm.c, init.c, zombie.c and the
      prompt of sh.c, written against the class [unix] of system calls.

    ** What is proved

    - Memory.  [kalloc] and [kfree] implement an abstract allocator with
      reference counts, and boot frees every page once.  All operations on
      address spaces keep the invariant that a page's count is the number of
      references to it and that no page is shared writable; [copyuvm] shares
      the parent's bytes, [CoW_handler] gives the faulting process a page of
      its own without changing a byte anyone sees, a store of the kernel to
      user memory, through any number of such faults, is seen by no other
      process, and [freevm] leaks nothing.  [allocuvm] and [setupkvm] fail only
      if there are too few free pages for the pages and page tables they need.
    - Processes.  Slots and pids are handed out uniquely; yield, sleep and
      wakeup pass the CPU and the locks on correctly and no wakeup is lost;
      each pass of the scheduler runs every ready process.  fork, exit and
      wait are proved on the whole kernel, failures included.
    - Protection.  A user program enters the kernel only through the vectors,
      on its kernel stack, can raise only the system call by itself, and is
      denied every port; the arguments of a system call are the bytes at the
      user's stack pointer, and a pointer or string that is accepted lies in
      the memory of the process.
    - Storage.  The IDE queue is served in order, the buffer cache is
      transparent, a commit is atomic under a crash at any disk write, and a
      file is its bytes for [writei] and [readi].  [namei] resolves a path as
      the directories on disk say and leaks no reference to an inode;
      [dirlink] adds one entry and changes no other; the last [iput] of a
      file without links frees its blocks and no others.
      mkfs builds a well-formed file system, and a kernel booted on it reads
      every file back under its name.
    - Devices and pipes.  A pipe is a bounded queue of bytes whose counters
      may wrap around; the console refines an abstract line editor, echoes
      what it takes and lists the processes on demand; what is typed on the
      keyboard is what [consoleread] returns.
    - Start-up.  The boot loader puts every segment of the kernel in place;
      [mpinit] finds the processors of a table; interrupts go where they were
      enabled and nowhere else; the date that [cmostime] reads is the date of
      one moment, also when the clock is updated meanwhile.
    - User level.  The shell's parser is total, inverts printing, and
      [runcmd] wires descriptors as the command says, waits for what it
      starts, and never leaves a pipeline waiting for itself; malloc and free
      keep blocks disjoint and their bytes intact, lose none, and malloc
      fails only if no free block is large enough and the system refuses
      memory; grep's matcher decides its language; cat and wc print the
      contents and the counts of their files, however the reads cut them, and
      report what fails; printed integers read back.
    - Defects of the code that modelling showed are lemmas too: for example
      [kill_zero_poisons], [schedule_panics], [countfp_value],
      [CoW_handler_device_fault], [grep_loses_split_line], [malloc_wraps],
      [dirlink_self_deadlock], [mpinit_unknown_entry], [cd_loses_character].

    ** Bounds and fuel

    Loops that are not structural take fuel from their caller; running out is
    a [Fault] or a [Spin], which no theorem about [wp] allows (for the user
    programs, an outcome of its own).  The fuel is always an
    expression of the input that bounds the loop: pages or blocks in a range,
    bytes to copy, buffers in the cache, the length of the path or of the
    line (four levels of the shell's grammar per character), blocks of the
    heap.  Loops that wait for a device take it as an argument, and their
    theorems ask for as much as the device needs.  Witnesses run on small
    concrete states (five or 65 pages of memory, the disk layout [mkfs]
    computes for FSSIZE blocks).

    ** Not modelled

    - Assembly (bootasm.S, entry.S, entryother.S, trapasm.S, swtch.S,
      usys.S, initcode.S) beyond its effect on the states above, the
      instructions that load descriptor tables, and the order in which
      [main] (main.c) calls the initialisations; [startothers] waits for code
      that entryother.S runs.
    - The probing and polling loops of ide.c and uart.c, and the set-up of
      the serial port: device registers.
    - The messages of [panic] and [cprintf] in kernel paths (formatting
      itself is modelled in Cons), and [getcallerpcs].
    - The test programs (usertests.c, stressfs.c, forktest.c, test0.c to
      test3.c). *)

(** ** The prelude: machine integers, lists, and the outcome monad *)

From stdpp Require Export functions base numbers list gmap fin_maps strings.
From Stdlib Require Export ZArith Lia.
#[global] Open Scope Z_scope.

(** ** Machine integers (types.h) *)

(** [uint]: reduction modulo 2^32. *)
Definition u32 (x : Z) : Z := x mod 2 ^ 32.

(** [int]: the representative of [x] in the two's complement range. *)
Definition i32 (x : Z) : Z := (x + 2 ^ 31) mod 2 ^ 32 - 2 ^ 31.

(** [uchar]. *)
Definition u8 (x : Z) : Z := x mod 2 ^ 8.

(** [short]/[ushort]. *)
Definition u16 (x : Z) : Z := x mod 2 ^ 16.

Arguments u32 : simpl never.
Arguments i32 : simpl never.
Arguments u8 : simpl never.
Arguments u16 : simpl never.

Lemma u32_small x : 0 ≤ x < 2 ^ 32 → u32 x = x.
Proof. intros. unfold u32. by apply Z.mod_small. Qed.

Lemma u32_range x : 0 ≤ u32 x < 2 ^ 32.
Proof. unfold u32. apply Z.mod_pos_bound. lia. Qed.

Lemma u32_u32 x : u32 (u32 x) = u32 x.
Proof. apply u32_small, u32_range. Qed.

Lemma u32_add_l x y : u32 (u32 x + y) = u32 (x + y).
Proof. unfold u32. apply Zplus_mod_idemp_l. Qed.

Lemma u32_add_r x y : u32 (x + u32 y) = u32 (x + y).
Proof. unfold u32. apply Zplus_mod_idemp_r. Qed.

Lemma u32_sub_l x y : u32 (x - y) = u32 (u32 x - y).
Proof. unfold u32. by rewrite Zminus_mod_idemp_l. Qed.

Lemma i32_small x : - 2 ^ 31 ≤ x < 2 ^ 31 → i32 x = x.
Proof. intros. unfold i32. rewrite Z.mod_small by lia. lia. Qed.

Lemma i32_range x : - 2 ^ 31 ≤ i32 x < 2 ^ 31.
Proof. unfold i32. pose proof (Z.mod_pos_bound (x + 2 ^ 31) (2 ^ 32)). lia. Qed.

Lemma u32_i32 x : u32 (i32 x) = u32 x.
Proof.
  unfold u32, i32.
  rewrite Zminus_mod_idemp_l. f_equal. lia.
Qed.

Lemma i32_u32 x : i32 (u32 x) = i32 x.
Proof. unfold i32, u32. by rewrite Zplus_mod_idemp_l. Qed.

(** ** Wait channels

    [sleep] and [wakeup] take the address of a kernel object as the channel.
    Distinct objects have distinct addresses, so the channel is the object. *)
Inductive chan :=
| ChProc (i : nat)           (** [&ptable.proc[i]] *)
| ChLog                      (** [&log] *)
| ChTicks                    (** [&ticks] *)
| ChInput                    (** [&input.r] *)
| ChBuf (i : nat)            (** [&bcache.buf[i]] *)
| ChBufLock (i : nat)        (** [&bcache.buf[i].lock] *)
| ChInodeLock (i : nat)      (** [&icache.inode[i].lock] *)
| ChPipeRead (p : Z)         (** [&p->nread] *)
| ChPipeWrite (p : Z).       (** [&p->nwrite] *)

#[global] Instance chan_eq_dec : EqDecision chan.
Proof. solve_decision. Defined.

(** ** Outcomes of kernel code

    A call returns ([Ok]), stops the machine ([Panic]), does something the
    C language leaves undefined such as an out-of-bounds access or a null
    dereference ([Fault]), spins on a lock that another CPU holds ([Spin]),
    or puts the calling process to sleep ([Sleep]). *)
Inductive outcome (S A : Type) : Type :=
| Ok (a : A) (s : S)
| Panic (msg : string)
| Fault (msg : string)
| Spin (s : S)
| Sleep (c : chan) (s : S).
Arguments Ok {S A} a s.
Arguments Panic {S A} msg.
Arguments Fault {S A} msg.
Arguments Spin {S A} s.
Arguments Sleep {S A} c s.

(** Kernel code over a state [S]. *)
Definition M (S A : Type) : Type := S → outcome S A.

#[global] Instance M_ret {S} : MRet (M S) := λ A a s, Ok a s.

#[global] Instance M_bind {S} : MBind (M S) := λ A B k m s,
  match m s with
  | Ok a s' => k a s'
  | Panic msg => Panic msg
  | Fault msg => Fault msg
  | Spin s' => Spin s'
  | Sleep c s' => Sleep c s'
  end.

Definition get {S} : M S S := λ s, Ok s s.
Definition gets {S A} (f : S → A) : M S A := λ s, Ok (f s) s.
Definition put {S} (s' : S) : M S () := λ _, Ok tt s'.
Definition modify {S} (f : S → S) : M S () := λ s, Ok tt (f s).
Definition panic {S A} (msg : string) : M S A := λ _, Panic msg.
Definition fault {S A} (msg : string) : M S A := λ _, Fault msg.
Definition spin {S A} : M S A := λ s, Spin s.
Definition sleep_on {S A} (c : chan) : M S A := λ s, Sleep c s.
Definition when {S} (b : bool) (m : M S ()) : M S () := if b then m else mret tt.

(** Run code of a component inside a larger state. *)
Definition zoom {T S A} (view : T → S) (set : S → T → T) (m : M S A) : M T A := λ t,
  match m (view t) with
  | Ok a s => Ok a (set s t)
  | Panic msg => Panic msg
  | Fault msg => Fault msg
  | Spin s => Spin (set s t)
  | Sleep c s => Sleep c (set s t)
  end.

(** ** Total-correctness triples

    [wp m Q s]: run from [s], [m] returns a value and a state that satisfy
    [Q]; it neither panics, faults, spins nor sleeps. *)
Definition wp {S A} (m : M S A) (Q : A → S → Prop) (s : S) : Prop :=
  match m s with Ok a s' => Q a s' | _ => False end.

Section wp.
Context {S : Type}.

Lemma wp_ret {A} (a : A) (Q : A → S → Prop) s : Q a s → wp (mret a) Q s.
Proof. done. Qed.

Lemma wp_bind {A B} (m : M S A) (k : A → M S B) Q s :
  wp m (λ a, wp (k a) Q) s → wp (m ≫= k) Q s.
Proof. unfold wp, mbind, M_bind. by destruct (m s). Qed.

Lemma wp_bind_assoc {A B C} (m : M S A) (k : A → M S B) (h : B → M S C) Q s :
  wp ((m ≫= k) ≫= h) Q s → wp (m ≫= λ a, k a ≫= h) Q s.
Proof. unfold wp, mbind, M_bind. by destruct (m s). Qed.

Lemma wp_bind_inv {A B} (m : M S A) (k : A → M S B) Q s :
  wp (m ≫= k) Q s → wp m (λ a, wp (k a) Q) s.
Proof. unfold wp, mbind, M_bind. by destruct (m s). Qed.

Lemma wp_mono {A} (m : M S A) (P Q : A → S → Prop) s :
  wp m P s → (∀ a s', P a s' → Q a s') → wp m Q s.
Proof. unfold wp. destruct (m s); auto. Qed.

Lemma wp_Ok {A} (m : M S A) Q s : wp m Q s ↔ ∃ a s', m s = Ok a s' ∧ Q a s'.
Proof.
  unfold wp. destruct (m s) as [a s'| | | |]; split; try done.
  - intros HQ. by exists a, s'.
  - intros (a' & s'' & [= -> ->] & HQ). done.
  - by intros (? & ? & ? & _).
  - by intros (? & ? & ? & _).
  - by intros (? & ? & ? & _).
  - by intros (? & ? & ? & _).
Qed.

Lemma wp_run {A} (m : M S A) Q s a s' : m s = Ok a s' → Q a s' → wp m Q s.
Proof. unfold wp. by intros ->. Qed.

Lemma wp_get Q (s : S) : Q s s → wp get Q s.
Proof. done. Qed.

Lemma wp_gets {A} (f : S → A) Q s : Q (f s) s → wp (gets f) Q s.
Proof. done. Qed.

Lemma wp_put (s' : S) Q s : Q tt s' → wp (put s') Q s.
Proof. done. Qed.

Lemma wp_modify (f : S → S) Q s : Q tt (f s) → wp (modify f) Q s.
Proof. done. Qed.

Lemma wp_when (b : bool) (m : M S ()) Q s :
  (b = true → wp m Q s) → (b = false → Q tt s) → wp (when b m) Q s.
Proof. intros H1 H2. destruct b; [by apply H1|by apply H2]. Qed.

Lemma bind_run {A B} (m : M S A) (k : A → M S B) s a s' :
  m s = Ok a s' → (m ≫= k) s = k a s'.
Proof. unfold mbind, M_bind. by intros ->. Qed.

Lemma bind_ext {A B} (m : M S A) (k k' : A → M S B) s :
  (∀ a s', k a s' = k' a s') → (m ≫= k) s = (m ≫= k') s.
Proof. intros H. unfold mbind, M_bind. by destruct (m s). Qed.

Lemma bind_panic {A B} (m : M S A) (k : A → M S B) s msg :
  m s = Panic msg → (m ≫= k) s = Panic msg.
Proof. unfold mbind, M_bind. by intros ->. Qed.

Lemma bind_Ok {A B} (m : M S A) (k : A → M S B) s b s'' :
  (m ≫= k) s = Ok b s'' ↔ ∃ a s', m s = Ok a s' ∧ k a s' = Ok b s''.
Proof.
  unfold mbind, M_bind. split.
  - destruct (m s) as [a s'| | | |]; [by exists a, s'|done..].
  - by intros (a & s' & -> & ?).
Qed.
End wp.

Lemma wp_zoom {T S A} (view : T → S) set (m : M S A) Q (t : T) :
  wp m (λ a s, Q a (set s t)) (view t) → wp (zoom view set m) Q t.
Proof. unfold wp, zoom. by destruct (m (view t)). Qed.

Lemma zoom_Ok {T S A} (view : T → S) set (m : M S A) (t : T) a s :
  m (view t) = Ok a s → zoom view set m t = Ok a (set s t).
Proof. unfold zoom. by intros ->. Qed.

Arguments M_bind : simpl never.
Arguments M_ret : simpl never.
Arguments mbind : simpl never.
Arguments mret : simpl never.
Arguments when : simpl never.
Arguments wp : simpl never.
Arguments modify : simpl never.
Arguments gets : simpl never.

(** [wp_hook] is extended by each component with its own primitive steps. *)
Ltac wp_hook := fail.

(** [wp_auto] runs the structural steps of a triple. *)
Ltac wp_step :=
  lazymatch goal with
  | |- wp (mret _) _ _ => apply wp_ret
  | |- wp (_ ≫= _) _ _ => apply wp_bind
  | |- wp (when true _) _ _ => unfold when
  | |- wp (when false _) _ _ => unfold when
  | |- wp get _ _ => apply wp_get
  | |- wp (gets _) _ _ => apply wp_gets
  | |- wp (put _) _ _ => apply wp_put
  | |- wp (modify _) _ _ => apply wp_modify
  | |- _ => wp_hook
  end.
Ltac wp_auto := repeat (wp_step; cbn beta).

(** ** Lists: counting *)

(** Number of elements of [l] that satisfy [f]. *)
Fixpoint count {A} (f : A → bool) (l : list A) : Z :=
  match l with
  | [] => 0
  | x :: l' => (if f x then 1 else 0) + count f l'
  end.

Section count.
Context {A : Type}.
Implicit Types (f g : A → bool) (l : list A).

Lemma count_nonneg f l : 0 ≤ count f l.
Proof. induction l as [|x l IH]; simpl; [lia|]. destruct (f x); lia. Qed.

Lemma count_app f l1 l2 : count f (l1 ++ l2) = count f l1 + count f l2.
Proof. induction l1 as [|x l1 IH]; simpl; lia. Qed.

Lemma count_ext f g l : (∀ x, x ∈ l → f x = g x) → count f l = count g l.
Proof.
  induction l as [|x l IH]; intros H; simpl; [done|].
  rewrite H, IH; [done| |by left]. intros; apply H; by right.
Qed.

Lemma count_zero f l : (∀ x, x ∈ l → f x = false) → count f l = 0.
Proof.
  intros H. rewrite (count_ext f (λ _, false)) by done.
  clear. induction l; simpl; lia.
Qed.

Lemma count_pos f l x : x ∈ l → f x = true → 0 < count f l.
Proof.
  induction 1 as [x l|x y l Hin IH]; intros Hf; simpl.
  - rewrite Hf. pose proof (count_nonneg f l). lia.
  - specialize (IH Hf). destruct (f y); lia.
Qed.

(** Changing the predicate at one element of a duplicate-free list. *)
Lemma count_update f g l x :
  NoDup l → x ∈ l → (∀ y, y ∈ l → y ≠ x → f y = g y) →
  count f l + (if g x then 1 else 0) = count g l + (if f x then 1 else 0).
Proof.
  induction l as [|y l IH]; intros Hnd Hin Hext; [by apply elem_of_nil in Hin|].
  apply NoDup_cons in Hnd as [Hy Hnd]. simpl.
  apply elem_of_cons in Hin as [->|Hin].
  - rewrite (count_ext f g l); [lia|].
    intros z Hz. apply Hext; [by right|]. by intros ->.
  - rewrite (Hext y); [|by left|by intros ->].
    enough (count f l + (if g x then 1 else 0) =
            count g l + (if f x then 1 else 0)) by lia.
    apply IH; [done|done|]. intros z Hz. apply Hext. by right.
Qed.

Lemma count_two f l x y :
  x ∈ l → y ∈ l → x ≠ y → f x = true → f y = true → 2 ≤ count f l.
Proof.
  induction l as [|z l IH]; intros Hx Hy Hne Fx Fy; [by apply elem_of_nil in Hx|].
  simpl. apply elem_of_cons in Hx as [->|Hx], Hy as [->|Hy]; [done|..].
  - rewrite Fx. pose proof (count_pos f l y Hy Fy). lia.
  - rewrite Fy. pose proof (count_pos f l x Hx Fx). lia.
  - specialize (IH Hx Hy Hne Fx Fy). destruct (f z); lia.
Qed.

Lemma count_le f g l : (∀ x, x ∈ l → f x = true → g x = true) → count f l ≤ count g l.
Proof.
  induction l as [|x l IH]; intros H; simpl; [lia|].
  assert (count f l ≤ count g l) by (apply IH; intros y Hy; apply H; by right).
  specialize (H x ltac:(by left)).
  destruct (f x); [rewrite H by done; lia|destruct (g x); lia].
Qed.
End count.

(** ** Lists: products *)

Definition pairs {A B} (xs : list A) (ys : list B) : list (A * B) :=
  xs ≫= λ x, pair x <$> ys.

Section pairs.
Context {A B : Type}.
Implicit Types (xs : list A) (ys : list B).

Lemma elem_of_pairs xs ys x y : (x, y) ∈ pairs xs ys ↔ x ∈ xs ∧ y ∈ ys.
Proof.
  unfold pairs. rewrite list_elem_of_bind. split.
  - intros (x' & Hy & Hx). apply list_elem_of_fmap in Hy as (y' & [= -> ->] & Hy). done.
  - intros [Hx Hy]. exists x. split; [|done]. by apply list_elem_of_fmap_2.
Qed.

Lemma pairs_cons x xs ys : pairs (x :: xs) ys = (pair x <$> ys) ++ pairs xs ys.
Proof. done. Qed.

Lemma NoDup_pairs xs ys : NoDup xs → NoDup ys → NoDup (pairs xs ys).
Proof.
  intros Hx Hy. induction Hx as [|x xs Hnin _ IH]; [by apply NoDup_nil|].
  rewrite pairs_cons. apply NoDup_app. split_and!; [|intros [a b]|done].
  - apply NoDup_fmap; [|done]. by intros y1 y2 [=].
  - intros (y & [= -> ->] & _)%list_elem_of_fmap [? _]%elem_of_pairs. done.
Qed.

Lemma count_pair (f : A * B → bool) x ys :
  count f (pair x <$> ys) = count (λ y, f (x, y)) ys.
Proof. induction ys as [|y ys IH]; simpl; [done|]. by rewrite <- IH. Qed.
End pairs.

(** ** Lists: lookup after an update *)

Lemma lookup_alter_cases {A} (f : A → A) (l : list A) (i j : nat) x :
  alter f i l !! j = Some x →
  (i = j ∧ ∃ y, l !! i = Some y ∧ x = f y) ∨ (i ≠ j ∧ l !! j = Some x).
Proof.
  rewrite list_lookup_alter. case_decide as E; [|by right]. subst.
  destruct (l !! j) as [y|]; simpl; [|done]. intros [= <-]. left. eauto.
Qed.

Lemma lookup_insert_cases {A} (l : list A) (i j : nat) x y :
  <[i := x]> l !! j = Some y → (i = j ∧ y = x) ∨ (i ≠ j ∧ l !! j = Some y).
Proof.
  intros H. destruct (decide (i = j)) as [->|Hne].
  - left. split; [done|]. apply list_lookup_insert_Some in H. naive_solver.
  - right. split; [done|]. by rewrite list_lookup_insert_ne in H.
Qed.

Lemma alter_insert {A} (f : A → A) (l : list A) (i : nat) x :
  l !! i = Some x → alter f i l = <[i := f x]> l.
Proof.
  intros Hx. rewrite list_insert_alter. apply list_alter_ext; [|done]. intros y Hy. congruence.
Qed.

Lemma move_to_front {A} `{EqDecision A} (i : A) l :
  NoDup l → i ∈ l → i :: filter (λ j, j ≠ i) l ≡ₚ l.
Proof.
  intros Hnd Hi. apply NoDup_Permutation; [|done|].
  - apply NoDup_cons. split; [|by apply NoDup_filter]. rewrite list_elem_of_filter. tauto.
  - intros x. rewrite elem_of_cons, list_elem_of_filter. split; [by intros [->|[_ ?]]|].
    intros Hx. destruct (decide (x = i)); tauto.
Qed.

(** ** The flags of [open] (fcntl.h), shared by the kernel and the shell *)

Definition O_RDONLY : Z := 0x000.
Definition O_WRONLY : Z := 0x001.
Definition O_RDWR : Z := 0x002.
Definition O_CREATE : Z := 0x200.
