(* ===== verification/Memory.v ===== *)
(** Byte-addressed memory as the kernel sees it: loads and stores of bytes
    and of little-endian 32-bit words.  The kernel runs with all of physical
    memory mapped at [KERNBASE], so an address here is a kernel pointer and
    physical address [pa] is read and written at [P2V pa]. *)

From S2P Require Import Prelude.

Abbreviation memory := (gmap Z Z).

(** A load of one byte; memory that was never written holds 0. *)
Definition rd8 (m : memory) (a : Z) : Z := u8 (default 0 (m !! a)).

Definition wr8 (m : memory) (a v : Z) : memory := <[a := u8 v]> m.

Definition rd32 (m : memory) (a : Z) : Z :=
  rd8 m a + 2 ^ 8 * rd8 m (a + 1) + 2 ^ 16 * rd8 m (a + 2) + 2 ^ 24 * rd8 m (a + 3).

Definition wr32 (m : memory) (a v : Z) : memory :=
  wr8 (wr8 (wr8 (wr8 m a v) (a + 1) (v / 2 ^ 8)) (a + 2) (v / 2 ^ 16)) (a + 3) (v / 2 ^ 24).

Arguments rd8 : simpl never.
Arguments wr8 : simpl never.
Arguments rd32 : simpl never.
Arguments wr32 : simpl never.

Lemma u8_range x : 0 ≤ u8 x < 256.
Proof. unfold u8. pose proof (Z.mod_pos_bound x (2 ^ 8)). lia. Qed.

Lemma rd8_range m a : 0 ≤ rd8 m a < 256.
Proof. apply u8_range. Qed.

Lemma rd32_range m a : 0 ≤ rd32 m a < 2 ^ 32.
Proof.
  unfold rd32.
  pose proof (rd8_range m a). pose proof (rd8_range m (a + 1)).
  pose proof (rd8_range m (a + 2)). pose proof (rd8_range m (a + 3)). lia.
Qed.

Lemma rd8_wr8 m a v b : rd8 (wr8 m a v) b = if decide (a = b) then u8 v else rd8 m b.
Proof.
  unfold rd8, wr8. rewrite lookup_insert. case_decide; [|done].
  simpl. unfold u8. apply Z.mod_mod. lia.
Qed.

Lemma rd8_wr8_eq m a v : rd8 (wr8 m a v) a = u8 v.
Proof. rewrite rd8_wr8. by case_decide. Qed.

Lemma rd8_wr8_ne m a v b : a ≠ b → rd8 (wr8 m a v) b = rd8 m b.
Proof. intros. rewrite rd8_wr8. by case_decide. Qed.

Lemma rd8_wr32_ne m a v b : b < a ∨ a + 4 ≤ b → rd8 (wr32 m a v) b = rd8 m b.
Proof. intros. unfold wr32. by rewrite !rd8_wr8_ne by lia. Qed.

Lemma rd8_wr32 m a v i : 0 ≤ i < 4 → rd8 (wr32 m a v) (a + i) = u8 (v / 2 ^ (8 * i)).
Proof.
  intros Hi. unfold wr32.
  assert (i = 0 ∨ i = 1 ∨ i = 2 ∨ i = 3) as [->|[->|[->| ->]]] by lia.
  - rewrite !rd8_wr8_ne by lia. rewrite Z.add_0_r, rd8_wr8_eq.
    by rewrite Z.mul_0_r, Z.pow_0_r, Z.div_1_r.
  - rewrite !rd8_wr8_ne by lia. by rewrite rd8_wr8_eq.
  - rewrite !rd8_wr8_ne by lia. by rewrite rd8_wr8_eq.
  - by rewrite rd8_wr8_eq.
Qed.

Lemma bytes_of_word v :
  u8 v + 2 ^ 8 * u8 (v / 2 ^ 8) + 2 ^ 16 * u8 (v / 2 ^ 16) + 2 ^ 24 * u8 (v / 2 ^ 24) = u32 v.
Proof. unfold u8, u32. Z.div_mod_to_equations. lia. Qed.

Lemma rd32_wr32_eq m a v : rd32 (wr32 m a v) a = u32 v.
Proof.
  unfold rd32. rewrite <- (Z.add_0_r a) at 2. rewrite !rd8_wr32 by lia.
  rewrite <- (bytes_of_word v). simpl. by rewrite Z.div_1_r.
Qed.

(** [m] and [m'] agree on the [n] bytes at [a]. *)
Definition agree_on (m m' : memory) (a n : Z) : Prop :=
  ∀ x, a ≤ x < a + n → rd8 m x = rd8 m' x.

Lemma rd32_agree m m' a : agree_on m m' a 4 → rd32 m a = rd32 m' a.
Proof. intros H. unfold rd32. by rewrite !H by lia. Qed.

Lemma rd32_wr32_ne m a v b : b + 4 ≤ a ∨ a + 4 ≤ b → rd32 (wr32 m a v) b = rd32 m b.
Proof. intros H. apply rd32_agree. intros x Hx. apply rd8_wr32_ne. lia. Qed.

(** Aligned words either coincide or do not overlap. *)
Lemma rd32_wr32_aligned m a v b :
  a mod 4 = 0 → b mod 4 = 0 →
  rd32 (wr32 m a v) b = if decide (a = b) then u32 v else rd32 m b.
Proof.
  intros Ha Hb. case_decide as E; [subst; apply rd32_wr32_eq|].
  apply rd32_wr32_ne. Z.div_mod_to_equations. lia.
Qed.

Lemma agree_on_refl m a n : agree_on m m a n.
Proof. done. Qed.

Lemma agree_on_trans m1 m2 m3 a n :
  agree_on m1 m2 a n → agree_on m2 m3 a n → agree_on m1 m3 a n.
Proof. intros H1 H2 x Hx. by rewrite H1, H2. Qed.

Lemma agree_on_sym m1 m2 a n : agree_on m1 m2 a n → agree_on m2 m1 a n.
Proof. intros H x Hx. by rewrite H. Qed.

Lemma agree_on_sub m1 m2 a n b k :
  agree_on m1 m2 a n → a ≤ b → b + k ≤ a + n → agree_on m1 m2 b k.
Proof. intros H ? ? x Hx. apply H. lia. Qed.

Lemma agree_on_wr32 m a v b n : b + n ≤ a ∨ a + 4 ≤ b → agree_on (wr32 m a v) m b n.
Proof. intros H x Hx. apply rd8_wr32_ne. lia. Qed.

(** A zero word is four zero bytes. *)
Lemma rd32_zero m a : (∀ x, a ≤ x < a + 4 → rd8 m x = 0) → rd32 m a = 0.
Proof. intros H. unfold rd32. by rewrite !H by lia. Qed.

Create HintDb xv6mem.
#[export] Hint Resolve rd8_range rd32_range u8_range u32_range agree_on_refl : xv6mem.
#[export] Hint Rewrite rd32_wr32_eq rd8_wr8_eq : xv6mem.
