(* ===== verification/Kstring.v ===== *)
(** string.c: the kernel's memory and string routines on byte memory. *)

From S2P Require Import Prelude Memory.

(** ** x86.h: [rep stosb] and [rep stosl] *)

Fixpoint stosb (m : memory) (addr data : Z) (cnt : nat) : memory :=
  match cnt with
  | O => m
  | S cnt' => stosb (wr8 m addr data) (addr + 1) data cnt'
  end.

Fixpoint stosl (m : memory) (addr data : Z) (cnt : nat) : memory :=
  match cnt with
  | O => m
  | S cnt' => stosl (wr32 m addr data) (addr + 4) data cnt'
  end.

(** ** string.c *)

Definition memset (m : memory) (dst c n : Z) : memory :=
  if (Z.rem (i32 dst) 4 =? 0) && (n mod 4 =? 0) then
    let c := Z.land c 0xFF in
    stosl m dst
      (Z.lor (Z.lor (Z.lor (Z.shiftl c 24) (Z.shiftl c 16)) (Z.shiftl c 8)) c)
      (Z.to_nat (n / 4))
  else stosb m dst c (Z.to_nat n).

Fixpoint memcmp_loop (m : memory) (s1 s2 : Z) (n : nat) : Z :=
  match n with
  | O => 0
  | S n' =>
      if rd8 m s1 =? rd8 m s2 then memcmp_loop m (s1 + 1) (s2 + 1) n'
      else rd8 m s1 - rd8 m s2
  end.

Definition memcmp (m : memory) (v1 v2 n : Z) : Z := memcmp_loop m v1 v2 (Z.to_nat n).

(** [while(n-- > 0) *--d = *--s;] *)
Fixpoint copy_backward (m : memory) (d s : Z) (n : nat) : memory :=
  match n with
  | O => m
  | S n' => copy_backward (wr8 m (d - 1) (rd8 m (s - 1))) (d - 1) (s - 1) n'
  end.

(** [while(n-- > 0) *d++ = *s++;] *)
Fixpoint copy_forward (m : memory) (d s : Z) (n : nat) : memory :=
  match n with
  | O => m
  | S n' => copy_forward (wr8 m d (rd8 m s)) (d + 1) (s + 1) n'
  end.

Definition memmove (m : memory) (dst src n : Z) : memory :=
  if (src <? dst) && (dst <? src + n)
  then copy_backward m (dst + n) (src + n) (Z.to_nat n)
  else copy_forward m dst src (Z.to_nat n).

Definition memcpy (m : memory) (dst src n : Z) : memory := memmove m dst src n.

Fixpoint strncmp_loop (m : memory) (p q : Z) (n : nat) : Z :=
  match n with
  | O => 0
  | S n' =>
      if negb (rd8 m p =? 0) && (rd8 m p =? rd8 m q)
      then strncmp_loop m (p + 1) (q + 1) n'
      else rd8 m p - rd8 m q
  end.

Definition strncmp (m : memory) (p q n : Z) : Z := strncmp_loop m p q (Z.to_nat n).

(** [while(n-- > 0) *s++ = 0;] *)
Fixpoint strncpy_pad (m : memory) (s : Z) (n : nat) : memory :=
  match n with
  | O => m
  | S n' => strncpy_pad (wr8 m s 0) (s + 1) n'
  end.

(** [while(n-- > 0 && ( *s++ = *t++ ) != 0);] followed by the padding loop. *)
Fixpoint strncpy_loop (m : memory) (s t : Z) (n : nat) : memory :=
  match n with
  | O => m
  | S n' =>
      let c := rd8 m t in
      let m := wr8 m s c in
      if c =? 0 then strncpy_pad m (s + 1) n' else strncpy_loop m (s + 1) (t + 1) n'
  end.

Definition strncpy (m : memory) (s t n : Z) : memory := strncpy_loop m s t (Z.to_nat n).

(** The loop [while(--n > 0 && ( *s++ = *t++ ) != 0);] with [n] the value
    after the decrement, and the final [*s = 0]. *)
Fixpoint safestrcpy_loop (m : memory) (s t : Z) (n : nat) : memory :=
  match n with
  | O => wr8 m s 0
  | S n' =>
      let c := rd8 m t in
      let m := wr8 m s c in
      if c =? 0 then wr8 m (s + 1) 0 else safestrcpy_loop m (s + 1) (t + 1) n'
  end.

Definition safestrcpy (m : memory) (s t n : Z) : memory :=
  if n <=? 0 then m else safestrcpy_loop m s t (Z.to_nat (n - 1)).

(** [for(n = 0; s[n]; n++)]; [None] when no NUL is met within the fuel. *)
Fixpoint strlen_loop (m : memory) (s n : Z) (fuel : nat) : option Z :=
  match fuel with
  | O => None
  | S fuel' => if rd8 m (s + n) =? 0 then Some n else strlen_loop m s (n + 1) fuel'
  end.

Definition strlen (m : memory) (s : Z) (fuel : nat) : option Z := strlen_loop m s 0 fuel.

Arguments memset : simpl never.
Arguments memmove : simpl never.

(** ** Effect of the fill and copy loops *)

Lemma stosb_rd8 m a c n x :
  rd8 (stosb m a c n) x = if decide (a ≤ x < a + Z.of_nat n) then u8 c else rd8 m x.
Proof.
  revert m a. induction n as [|n IH]; intros m a; simpl.
  { case_decide; [lia|done]. }
  rewrite IH, rd8_wr8. repeat case_decide; (done || lia).
Qed.

(** Every byte of the word that [memset] hands to [stosl]. *)
Lemma splat_byte c i :
  0 ≤ i < 4 →
  u8 (Z.lor (Z.lor (Z.lor (Z.shiftl (Z.land c 255) 24) (Z.shiftl (Z.land c 255) 16))
        (Z.shiftl (Z.land c 255) 8)) (Z.land c 255) / 2 ^ (8 * i)) = u8 c.
Proof.
  intros Hi. unfold u8. rewrite <- Z.shiftr_div_pow2 by lia.
  rewrite <- !Z.land_ones by lia.
  apply Z.bits_inj'. intros k Hk.
  rewrite !Z.land_spec, (Z.testbit_ones 8 k) by lia.
  destruct (Z.ltb_spec k 8); [|by rewrite !andb_false_r].
  rewrite Z.shiftr_spec, !Z.lor_spec, !Z.shiftl_spec by lia.
  change 255 with (Z.ones 8). rewrite !Z.land_spec.
  assert (∀ j, 0 ≤ j < 8 → Z.testbit (Z.ones 8) j = true) as Hin
    by (intros j Hj; by apply Z.ones_spec_low).
  assert (∀ j, j < 0 ∨ 8 ≤ j → Z.testbit (Z.ones 8) j = false) as Hout.
  { intros j [Hj|Hj]; [by apply Z.testbit_neg_r|by apply Z.ones_spec_high]. }
  assert (i = 0 ∨ i = 1 ∨ i = 2 ∨ i = 3) as [->|[->|[->| ->]]] by lia;
    repeat match goal with
      | |- context [Z.testbit (Z.ones 8) ?j] =>
          first [rewrite (Hin j) by lia | rewrite (Hout j) by lia]
      end;
    rewrite ?andb_false_r, ?orb_false_r, ?orb_false_l, ?andb_true_r;
    repeat f_equal; lia.
Qed.

Lemma stosl_rd8 m a w c n x :
  (∀ i, 0 ≤ i < 4 → u8 (w / 2 ^ (8 * i)) = u8 c) →
  rd8 (stosl m a w n) x = if decide (a ≤ x < a + 4 * Z.of_nat n) then u8 c else rd8 m x.
Proof.
  intros Hw. revert m a. induction n as [|n IH]; intros m a; simpl stosl.
  { case_decide; [lia|done]. }
  rewrite IH. case_decide.
  { case_decide; [done|lia]. }
  destruct (decide (a ≤ x < a + 4)).
  - replace x with (a + (x - a)) by lia. rewrite rd8_wr32 by lia.
    case_decide; [apply Hw|]; lia.
  - rewrite rd8_wr32_ne by lia. case_decide; [lia|done].
Qed.

(** [memset] fills exactly the bytes it is asked to, on both of its paths. *)
Lemma memset_rd8 m dst c n x :
  0 ≤ n →
  rd8 (memset m dst c n) x = if decide (dst ≤ x < dst + n) then u8 c else rd8 m x.
Proof.
  intros Hn. unfold memset.
  destruct (Z.rem (i32 dst) 4 =? 0); simpl; [destruct (Z.eqb_spec (n mod 4) 0)|].
  - rewrite stosl_rd8 with (c := c) by apply splat_byte.
    assert (4 * Z.of_nat (Z.to_nat (n / 4)) = n) as -> by (Z.div_mod_to_equations; lia).
    done.
  - rewrite stosb_rd8, Z2Nat.id by done. done.
  - rewrite stosb_rd8, Z2Nat.id by done. done.
Qed.

Lemma copy_backward_rd8 n : ∀ m d s x,
  s ≤ d →
  rd8 (copy_backward m d s n) x =
    if decide (d - Z.of_nat n ≤ x < d) then rd8 m (x - d + s) else rd8 m x.
Proof.
  induction n as [|n IH]; intros m d s x Hsd; simpl.
  { case_decide; [lia|done]. }
  rewrite IH by lia. rewrite !rd8_wr8.
  assert (∀ y, u8 (rd8 m y) = rd8 m y) as Hu.
  { intros y. unfold rd8, u8. apply Z.mod_mod. lia. }
  repeat case_decide; rewrite ?Hu; try lia; f_equal; lia.
Qed.

Lemma copy_forward_rd8 n : ∀ m d s x,
  d ≤ s ∨ s + Z.of_nat n ≤ d →
  rd8 (copy_forward m d s n) x =
    if decide (d ≤ x < d + Z.of_nat n) then rd8 m (x - d + s) else rd8 m x.
Proof.
  induction n as [|n IH]; intros m d s x Hsd; simpl.
  { case_decide; [lia|done]. }
  rewrite IH by lia. rewrite !rd8_wr8.
  assert (∀ y, u8 (rd8 m y) = rd8 m y) as Hu.
  { intros y. unfold rd8, u8. apply Z.mod_mod. lia. }
  repeat case_decide; rewrite ?Hu; try lia; f_equal; lia.
Qed.

(** [memmove] moves the source bytes as they were before the call, whether
    or not the two ranges overlap. *)
Lemma memmove_rd8 m dst src n x :
  0 ≤ n →
  rd8 (memmove m dst src n) x =
    if decide (dst ≤ x < dst + n) then rd8 m (x - dst + src) else rd8 m x.
Proof.
  intros Hn. unfold memmove.
  destruct (Z.ltb_spec src dst); simpl; [destruct (Z.ltb_spec dst (src + n))|].
  - rewrite copy_backward_rd8, Z2Nat.id by lia.
    repeat case_decide; try lia; f_equal; lia.
  - rewrite copy_forward_rd8; rewrite Z2Nat.id by lia; [done|lia].
  - rewrite copy_forward_rd8; rewrite Z2Nat.id by lia; [done|lia].
Qed.

(** ** NUL-terminated strings *)

(** The string at [p], read up to its NUL and at most [n] bytes. *)
Fixpoint cstr (m : memory) (p : Z) (n : nat) : list Z :=
  match n with
  | O => []
  | S n' => if rd8 m p =? 0 then [] else rd8 m p :: cstr m (p + 1) n'
  end.

Lemma cstr_agree m m' p n :
  agree_on m m' p (Z.of_nat n) → cstr m p n = cstr m' p n.
Proof.
  revert p. induction n as [|n IH]; intros p H; simpl; [done|].
  rewrite (H p) by lia. destruct (_ =? 0); [done|]. f_equal.
  apply IH. intros x Hx. apply H. lia.
Qed.

Lemma cstr_length m p n : (length (cstr m p n) ≤ n)%nat.
Proof.
  revert p. induction n as [|n IH]; intros p; simpl; [lia|].
  destruct (_ =? 0); simpl; [lia|]. specialize (IH (p + 1)). lia.
Qed.

(** A string shorter than its bound ends in a NUL inside the bound. *)
Lemma cstr_nul m p n :
  (length (cstr m p n) < n)%nat → rd8 m (p + Z.of_nat (length (cstr m p n))) = 0.
Proof.
  revert p. induction n as [|n IH]; intros p; simpl; [lia|].
  destruct (Z.eqb_spec (rd8 m p) 0); simpl; intros H; [by rewrite Z.add_0_r|].
  rewrite <- (IH (p + 1)) by lia. f_equal. lia.
Qed.

Lemma strncmp_loop_zero m p q n : strncmp_loop m p q n = 0 ↔ cstr m p n = cstr m q n.
Proof.
  revert p q. induction n as [|n IH]; intros p q; simpl; [done|].
  destruct (Z.eqb_spec (rd8 m p) 0) as [Hp|Hp]; simpl.
  - rewrite Hp. destruct (Z.eqb_spec (rd8 m q) 0) as [->|Hq]; [done|].
    split; [lia|done].
  - destruct (Z.eqb_spec (rd8 m p) (rd8 m q)) as [Hpq|Hpq].
    + rewrite IH, <- Hpq. destruct (Z.eqb_spec (rd8 m p) 0); [done|].
      split; [by intros ->|by intros [=]].
    + split; [lia|]. destruct (_ =? 0); intros [=]. done.
Qed.

Lemma memcmp_loop_zero m p q n :
  memcmp_loop m p q n = 0 ↔ ∀ i, 0 ≤ i < Z.of_nat n → rd8 m (p + i) = rd8 m (q + i).
Proof.
  revert p q. induction n as [|n IH]; intros p q; cbn [memcmp_loop]; [split; [lia|done]|].
  destruct (Z.eqb_spec (rd8 m p) (rd8 m q)) as [E|E].
  - rewrite IH. split; intros H i Hi.
    + destruct (decide (i = 0)) as [->|]; [by rewrite !Z.add_0_r|].
      replace (p + i) with (p + 1 + (i - 1)) by lia.
      replace (q + i) with (q + 1 + (i - 1)) by lia. apply H. lia.
    + rewrite <- !Z.add_assoc. apply H. lia.
  - split; [lia|]. intros H. specialize (H 0 ltac:(lia)). rewrite !Z.add_0_r in H. lia.
Qed.

Lemma strncpy_pad_rd8 m s n x :
  rd8 (strncpy_pad m s n) x = if decide (s ≤ x < s + Z.of_nat n) then 0 else rd8 m x.
Proof.
  revert m s. induction n as [|n IH]; intros m s; simpl.
  { case_decide; [lia|done]. }
  rewrite IH, rd8_wr8. repeat case_decide; (done || lia).
Qed.

(** [strncpy]: the string, then zeroes up to [n] bytes, and nothing else. *)
Lemma strncpy_loop_rd8 n : ∀ m s t,
  s + Z.of_nat n ≤ t ∨ t + Z.of_nat n ≤ s →
  ∀ x, rd8 (strncpy_loop m s t n) x =
    if decide (s ≤ x < s + Z.of_nat n)
    then default 0 (cstr m t n !! Z.to_nat (x - s)) else rd8 m x.
Proof.
  induction n as [|n IH]; intros m s t Hd x; cbn [strncpy_loop cstr].
  { case_decide; [lia|done]. }
  assert (u8 (rd8 m t) = rd8 m t) as Hu by (unfold rd8, u8; apply Z.mod_mod; lia).
  destruct (Z.eqb_spec (rd8 m t) 0) as [E|E].
  - rewrite strncpy_pad_rd8, rd8_wr8, Hu, E, lookup_nil. simpl.
    repeat case_decide; (done || lia).
  - rewrite IH by lia. rewrite rd8_wr8, Hu.
    rewrite (cstr_agree (wr8 m s (rd8 m t)) m).
    2: { intros y Hy. apply rd8_wr8_ne. lia. }
    destruct (decide (x = s)) as [->|Hx].
    + rewrite Z.sub_diag. simpl. repeat case_decide; (done || lia).
    + repeat case_decide; try lia; try done.
      replace (Z.to_nat (x - s)) with (S (Z.to_nat (x - (s + 1)))) by lia. done.
Qed.

(** [safestrcpy] leaves a terminated string that is the longest prefix of
    the source that fits. *)
Lemma safestrcpy_loop_cstr n : ∀ m s t,
  s + Z.of_nat n + 1 ≤ t ∨ t + Z.of_nat n ≤ s →
  cstr (safestrcpy_loop m s t n) s (S n) = cstr m t n ∧
  ∀ x, ¬ (s ≤ x < s + Z.of_nat n + 1) → rd8 (safestrcpy_loop m s t n) x = rd8 m x.
Proof.
  induction n as [|n IH]; intros m s t Hd.
  { simpl. rewrite rd8_wr8_eq. simpl. split; [done|].
    intros x Hx. apply rd8_wr8_ne. lia. }
  cbn [safestrcpy_loop].
  assert (u8 (rd8 m t) = rd8 m t) as Hu by (unfold rd8, u8; apply Z.mod_mod; lia).
  destruct (Z.eqb_spec (rd8 m t) 0) as [E|E].
  - split.
    + cbn [cstr]. rewrite rd8_wr8_ne, rd8_wr8_eq, Hu, E by lia. done.
    + intros x Hx. rewrite !rd8_wr8_ne by lia. done.
  - destruct (IH (wr8 m s (rd8 m t)) (s + 1) (t + 1)) as [IH1 IH2]; [lia|].
    split.
    + cbn [cstr] in *. rewrite (IH2 s) by lia. rewrite rd8_wr8_eq, Hu.
      destruct (Z.eqb_spec (rd8 m t) 0); [done|]. f_equal.
      rewrite IH1. apply cstr_agree. intros y Hy. apply rd8_wr8_ne. lia.
    + intros x Hx. rewrite IH2 by lia. apply rd8_wr8_ne. lia.
Qed.

Lemma strlen_loop_cstr m s n k fuel :
  (length (cstr m (s + k) n) < n)%nat → (n ≤ fuel)%nat →
  strlen_loop m s k fuel = Some (k + Z.of_nat (length (cstr m (s + k) n))).
Proof.
  revert n k. induction fuel as [|fuel IH]; intros n k Hlt Hf; [lia|].
  destruct n as [|n]; [lia|]. cbn [strlen_loop cstr] in *.
  destruct (Z.eqb_spec (rd8 m (s + k)) 0) as [E|E]; simpl in *; [f_equal; lia|].
  rewrite <- Z.add_assoc in Hlt |- *.
  rewrite (IH n) by lia. f_equal. lia.
Qed.

(** ** Correctness *)

(** [memset] writes the byte [c] to exactly the [n] bytes at [dst]; the
    word-at-a-time path it takes for aligned requests is equivalent to the
    byte loop. *)
Theorem memset_correct m dst c n :
  0 ≤ n →
  (∀ x, rd8 (memset m dst c n) x = if decide (dst ≤ x < dst + n) then u8 c else rd8 m x) ∧
  (∀ x, rd8 (memset m dst c n) x = rd8 (stosb m dst c (Z.to_nat n)) x).
Proof.
  intros Hn. split; intros x; rewrite memset_rd8 by done; [done|].
  by rewrite stosb_rd8, Z2Nat.id by done.
Qed.

Lemma memset_correct_witness :
  rd8 (memset ∅ 4096 0x101 8) 4103 = 1 ∧ rd8 (memset ∅ 4096 0x101 8) 4104 = 0.
Proof. destruct (memset_correct ∅ 4096 0x101 8 ltac:(lia)) as [H _]. by rewrite !H. Defined.

(** [memmove] delivers the source bytes as they were before the call,
    whether or not source and destination overlap, and writes nothing else. *)
Theorem memmove_overlap m dst src n :
  0 ≤ n →
  (∀ i, 0 ≤ i < n → rd8 (memmove m dst src n) (dst + i) = rd8 m (src + i)) ∧
  (∀ x, x < dst ∨ dst + n ≤ x → rd8 (memmove m dst src n) x = rd8 m x).
Proof.
  intros Hn. split.
  - intros i Hi. rewrite memmove_rd8, decide_True by lia. f_equal. lia.
  - intros x Hx. rewrite memmove_rd8, decide_False by lia. done.
Qed.

Lemma memmove_overlap_witness :
  let m := wr32 ∅ 100 0x04030201 in
  rd32 (memmove m 102 100 4) 102 = 0x04030201 ∧ rd8 (memmove m 102 100 4) 100 = 1.
Proof.
  intros m. destruct (memmove_overlap m 102 100 4 ltac:(lia)) as [H1 H2]. split.
  - unfold rd32. rewrite <- (Z.add_0_r 102) at 2. rewrite <- !Z.add_assoc, !H1 by lia. reflexivity.
  - rewrite H2 by lia. reflexivity.
Defined.

(** [safestrcpy] stores a NUL-terminated string within its [n] bytes, the
    longest prefix of the source that fits, and touches no other byte. *)
Theorem safestrcpy_correct m s t n :
  0 < n → s + n ≤ t ∨ t + n ≤ s + 1 →
  cstr (safestrcpy m s t n) s (Z.to_nat n) = cstr m t (Z.to_nat (n - 1)) ∧
  (∃ k, 0 ≤ k < n ∧ rd8 (safestrcpy m s t n) (s + k) = 0) ∧
  (∀ x, x < s ∨ s + n ≤ x → rd8 (safestrcpy m s t n) x = rd8 m x).
Proof.
  intros Hn Hd. unfold safestrcpy. destruct (Z.leb_spec n 0); [lia|].
  destruct (safestrcpy_loop_cstr (Z.to_nat (n - 1)) m s t) as [H1 H2]; [lia|].
  replace (S (Z.to_nat (n - 1))) with (Z.to_nat n) in H1 by lia. split_and!; [done| |].
  - set (m' := safestrcpy_loop _ _ _ _) in *.
    assert (length (cstr m' s (Z.to_nat n)) < Z.to_nat n)%nat as Hl.
    { rewrite H1. pose proof (cstr_length m t (Z.to_nat (n - 1))). lia. }
    exists (Z.of_nat (length (cstr m' s (Z.to_nat n)))). split; [lia|]. by apply cstr_nul.
  - intros x Hx. apply H2. lia.
Qed.

Lemma safestrcpy_correct_witness :
  let m := wr32 ∅ 100 0x64636261 in
  cstr (safestrcpy m 0 100 3) 0 3 = [0x61; 0x62].
Proof.
  intros m. etrans; [apply (safestrcpy_correct m 0 100 3); lia|]. reflexivity.
Defined.

(** [strncmp] returns 0 exactly when the two strings agree up to a NUL
    within [n] bytes. *)
Theorem strncmp_zero m p q n :
  strncmp m p q n = 0 ↔ cstr m p (Z.to_nat n) = cstr m q (Z.to_nat n).
Proof. apply strncmp_loop_zero. Qed.
