(* ===== verification/Spinlock.v ===== *)
(** spinlock.c and the per-CPU state of proc.h/proc.c it works on: nesting of
    interrupt disabling ([pushcli]/[popcli]) and spin locks, first as they
    run on one CPU, then ([Module Smp]) as CPUs interleave on one lock. *)

From S2P Require Import Prelude.

(** ** State *)

(** proc.h [struct cpu], less the descriptor tables and the saved context. *)
Record cpu := Cpu {
  apicid : Z;
  ncli : Z;
  intena : bool;
  cproc : option nat;   (** [cpu->proc], an index of [ptable.proc] *)
}.

(** spinlock.h [struct spinlock]; [pcs] is debugging output only. *)
Record spinlock := Lock {
  locked : bool;
  lcpu : option nat;    (** [lk->cpu], an index of [cpus] *)
}.

(** The kernel's spin locks.  The last two protect a sleep lock each. *)
Inductive lockid :=
| LkPtable | LkKmem | LkFtable | LkIcache | LkBcache | LkLog | LkIde | LkCons | LkTicks
| LkPipe (p : Z) | LkBufSl (i : nat) | LkInodeSl (i : nat).

#[global] Instance lockid_eq_dec : EqDecision lockid.
Proof. solve_decision. Defined.

Definition lockid_code (l : lockid) : nat * Z :=
  match l with
  | LkPtable => (0%nat, 0) | LkKmem => (1%nat, 0) | LkFtable => (2%nat, 0)
  | LkIcache => (3%nat, 0) | LkBcache => (4%nat, 0) | LkLog => (5%nat, 0)
  | LkIde => (6%nat, 0) | LkCons => (7%nat, 0) | LkTicks => (8%nat, 0)
  | LkPipe p => (9%nat, p) | LkBufSl i => (10%nat, Z.of_nat i)
  | LkInodeSl i => (11%nat, Z.of_nat i)
  end.

#[global] Instance lockid_code_inj : Inj (=) (=) lockid_code.
Proof. intros [] []; simpl; intros [=]; f_equal; lia. Qed.

#[global] Instance lockid_countable : Countable lockid.
Proof.
  apply (inj_countable lockid_code (λ c,
    match c with
    | (0%nat, _) => Some LkPtable | (1%nat, _) => Some LkKmem | (2%nat, _) => Some LkFtable
    | (3%nat, _) => Some LkIcache | (4%nat, _) => Some LkBcache | (5%nat, _) => Some LkLog
    | (6%nat, _) => Some LkIde | (7%nat, _) => Some LkCons | (8%nat, _) => Some LkTicks
    | (9%nat, p) => Some (LkPipe p) | (10%nat, i) => Some (LkBufSl (Z.to_nat i))
    | (11%nat, i) => Some (LkInodeSl (Z.to_nat i)) | _ => None
    end)).
  intros []; simpl; rewrite ?Nat2Z.id; done.
Defined.

(** The executing CPU's local APIC id and interrupt flag, the [cpus] table
    and the locks.  A lock that was never initialised is zeroed memory. *)
Record mach := Mach {
  hw_apicid : Z;
  hw_if : bool;
  cpus : list cpu;
  locks : gmap lockid spinlock;
}.

Definition set_if (b : bool) (s : mach) : mach :=
  Mach (hw_apicid s) b (cpus s) (locks s).
Definition set_cpus (c : list cpu) (s : mach) : mach :=
  Mach (hw_apicid s) (hw_if s) c (locks s).
Definition set_locks (l : gmap lockid spinlock) (s : mach) : mach :=
  Mach (hw_apicid s) (hw_if s) (cpus s) l.

Definition unlocked : spinlock := Lock false None.
Definition lock_of (s : mach) (lk : lockid) : spinlock := default unlocked (locks s !! lk).
Definition set_lock (lk : lockid) (l : spinlock) (s : mach) : mach :=
  set_locks (<[lk := l]> (locks s)) s.

(** ** proc.c: [mycpu] *)

Fixpoint mycpu_loop (id : Z) (cs : list cpu) (i : nat) : option nat :=
  match cs with
  | [] => None
  | c :: cs' => if apicid c =? id then Some i else mycpu_loop id cs' (S i)
  end.

Definition mycpu : M mach nat := λ s,
  if hw_if s then Panic "mycpu called with interrupts enabled"
  else match mycpu_loop (hw_apicid s) (cpus s) 0 with
       | Some i => Ok i s
       | None => Panic "unknown apicid"
       end.

(** Read and update a field of [*mycpu()]. *)
Definition mycpu_get {A} (f : cpu → A) : M mach A :=
  i ← mycpu;
  c ← gets (λ s, cpus s !! i);
  match c with Some c => mret (f c) | None => fault "cpus index" end.

Definition mycpu_set (f : cpu → cpu) : M mach () :=
  i ← mycpu;
  modify (λ s, set_cpus (alter f i (cpus s)) s).

Definition set_ncli (n : Z) (c : cpu) : cpu := Cpu (apicid c) n (intena c) (cproc c).
Definition set_intena (b : bool) (c : cpu) : cpu := Cpu (apicid c) (ncli c) b (cproc c).
Definition set_cproc (p : option nat) (c : cpu) : cpu := Cpu (apicid c) (ncli c) (intena c) p.

(** ** spinlock.c *)

(** [popcli] and [pushcli] use x86.h's [cli] and [sti]. *)
Definition cli : M mach () := modify (set_if false).
Definition sti : M mach () := modify (set_if true).
Definition readeflags_if : M mach bool := gets hw_if.

Definition pushcli : M mach () :=
  eflags ← readeflags_if;
  cli;;
  n ← mycpu_get ncli;
  when (n =? 0) (mycpu_set (set_intena eflags));;
  mycpu_set (λ c, set_ncli (ncli c + 1) c).

Definition popcli : M mach () :=
  b ← readeflags_if;
  if (b : bool) then panic "popcli - interruptible" else
  mycpu_set (λ c, set_ncli (ncli c - 1) c);;
  n ← mycpu_get ncli;
  if n <? 0 then panic "popcli" else
  e ← mycpu_get intena;
  when ((n =? 0) && e) sti.

Definition holding (lk : lockid) : M mach bool :=
  pushcli;;
  l ← gets (λ s, lock_of s lk);
  i ← mycpu;
  popcli;;
  mret (locked l && bool_decide (lcpu l = Some i)).

Definition initlock (lk : lockid) : M mach () := modify (set_lock lk unlocked).

(** One [xchg(&lk->locked, 1)]: returns the old value. *)
Definition xchg_locked (lk : lockid) : M mach bool := λ s,
  Ok (locked (lock_of s lk)) (set_lock lk (Lock true (lcpu (lock_of s lk))) s).

Definition acquire (lk : lockid) : M mach () :=
  pushcli;;
  h ← holding lk;
  if (h : bool) then panic "acquire" else
  busy ← xchg_locked lk;
  if (busy : bool) then spin else
  i ← mycpu;
  modify (λ s, set_lock lk (Lock (locked (lock_of s lk)) (Some i)) s).

Definition release (lk : lockid) : M mach () :=
  h ← holding lk;
  if negb h then panic "release" else
  modify (λ s, set_lock lk (Lock (locked (lock_of s lk)) None) s);;
  modify (λ s, set_lock lk (Lock false (lcpu (lock_of s lk))) s);;
  popcli.

(** ** Machine states up to dead data

    [intena] means something only while [ncli] is not zero, and an entry of
    [locks] that is absent is an unlocked lock; [≡] forgets both. *)
Definition cpu_equiv (c c' : cpu) : Prop :=
  apicid c = apicid c' ∧ ncli c = ncli c' ∧ cproc c = cproc c' ∧
  (ncli c ≠ 0 → intena c = intena c').

#[global] Instance mach_equiv : Equiv mach := λ s s',
  hw_apicid s = hw_apicid s' ∧ hw_if s = hw_if s' ∧
  (∀ lk, lock_of s lk = lock_of s' lk) ∧ Forall2 cpu_equiv (cpus s) (cpus s').

#[global] Instance cpu_equiv_equivalence : Equivalence cpu_equiv.
Proof.
  split.
  - by intros c.
  - intros c c' (? & En & ? & H). split_and!; try done.
    intros Hn. symmetry. apply H. by rewrite En.
  - intros c1 c2 c3 (? & E & ? & H) (? & ? & ? & H'). split_and!; try congruence.
    intros Hn. rewrite H by done. apply H'. by rewrite <- E.
Qed.

#[global] Instance mach_equivalence : Equivalence (≡@{mach}).
Proof.
  split.
  - intros s. by repeat split.
  - intros s s' (? & ? & ? & ?). by split_and!.
  - intros s1 s2 s3 (? & ? & H & ?) (? & ? & ? & ?).
    split_and!; [congruence|congruence|intros lk; by rewrite H|by etrans].
Qed.

(** CPU [i] is executing and its interrupt nesting is consistent. *)
Definition cpu_ok (s : mach) (i : nat) : Prop :=
  mycpu_loop (hw_apicid s) (cpus s) 0 = Some i ∧
  ∃ c, cpus s !! i = Some c ∧ 0 ≤ ncli c ∧ (ncli c ≠ 0 → hw_if s = false).

Definition lock_free (s : mach) (lk : lockid) : Prop := lock_of s lk = unlocked.

Lemma mycpu_loop_equiv id cs cs' k :
  Forall2 cpu_equiv cs cs' → mycpu_loop id cs k = mycpu_loop id cs' k.
Proof.
  intros H. revert k. induction H as [|c c' cs cs' (E & _) _ IH]; intros k; simpl; [done|].
  by rewrite E, IH.
Qed.

#[global] Instance cpu_ok_proper : Proper ((≡) ==> (=) ==> iff) cpu_ok.
Proof.
  assert (∀ s s' i, s ≡ s' → cpu_ok s i → cpu_ok s' i) as H.
  { intros s s' i (Ha & Hi & Hl & Hc) (Hm & c & Hci & Hn & Hif). split.
    - rewrite <- Ha, <- Hm. symmetry. by apply mycpu_loop_equiv.
    - destruct (Forall2_lookup_l _ _ _ _ _ Hc Hci) as (c' & Hc' & (_ & En & _)).
      exists c'. rewrite <- Hi, <- En. done. }
  intros s s' Hs i ? <-. split; apply H; by rewrite ?Hs.
Qed.

#[global] Instance lock_free_proper : Proper ((≡) ==> (=) ==> iff) lock_free.
Proof. intros s s' (_ & _ & H & _) lk ? <-. unfold lock_free. by rewrite H. Qed.

Lemma lock_of_set_lock lk l s lk' :
  lock_of (set_lock lk l s) lk' = if decide (lk = lk') then l else lock_of s lk'.
Proof. unfold lock_of, set_lock. simpl. rewrite lookup_insert. by case_decide. Qed.

#[global] Instance set_lock_proper lk l : Proper ((≡) ==> (≡)) (set_lock lk l).
Proof.
  intros s s' (? & ? & H & ?). split_and!; try done.
  intros lk'. rewrite !lock_of_set_lock. case_decide; auto.
Qed.

Lemma set_lock_id lk l s : lock_of s lk = l → set_lock lk l s ≡ s.
Proof.
  intros H. split_and!; try done. intros lk'.
  rewrite lock_of_set_lock. case_decide; by subst.
Qed.

Lemma set_lock_set_lock lk l l' s : set_lock lk l (set_lock lk l' s) = set_lock lk l s.
Proof. unfold set_lock. simpl. by rewrite insert_insert_eq. Qed.

(** ** One CPU: what each operation computes *)

Definition push_cpu (b : bool) (c : cpu) : cpu :=
  Cpu (apicid c) (ncli c + 1) (if ncli c =? 0 then b else intena c) (cproc c).

(** The state after [pushcli] on CPU [i]. *)
Definition pushed (i : nat) (s : mach) : mach :=
  set_cpus (alter (push_cpu (hw_if s)) i (cpus s)) (set_if false s).

(** The state after [acquire]. *)
Definition acquired (i : nat) (lk : lockid) (s : mach) : mach :=
  set_lock lk (Lock true (Some i)) (pushed i s).

Lemma mycpu_loop_alter id f cs i k :
  (∀ c, apicid (f c) = apicid c) →
  mycpu_loop id (alter f i cs) k = mycpu_loop id cs k.
Proof.
  intros Hf. revert i k.
  induction cs as [|c cs IH]; intros [|i] k; simpl; rewrite ?Hf; [done..|].
  destruct (_ =? _); [done|apply IH].
Qed.

Lemma mycpu_run s i :
  mycpu_loop (hw_apicid s) (cpus s) 0 = Some i → hw_if s = false → mycpu s = Ok i s.
Proof. intros Hm Hi. unfold mycpu. by rewrite Hi, Hm. Qed.

Lemma mycpu_get_run {A} (f : cpu → A) s i c :
  mycpu_loop (hw_apicid s) (cpus s) 0 = Some i → hw_if s = false →
  cpus s !! i = Some c → mycpu_get f s = Ok (f c) s.
Proof.
  intros Hm Hi Hc. unfold mycpu_get.
  rewrite (bind_run _ _ _ _ _ (mycpu_run s i Hm Hi)).
  unfold mbind, M_bind, gets. by rewrite Hc.
Qed.

Lemma mycpu_set_run f s i :
  mycpu_loop (hw_apicid s) (cpus s) 0 = Some i → hw_if s = false →
  mycpu_set f s = Ok tt (set_cpus (alter f i (cpus s)) s).
Proof.
  intros Hm Hi. unfold mycpu_set.
  by rewrite (bind_run _ _ _ _ _ (mycpu_run s i Hm Hi)).
Qed.

Lemma pushcli_run s i : cpu_ok s i → pushcli s = Ok tt (pushed i s).
Proof.
  intros (Hm & c & Hc & _). unfold pushcli.
  unfold readeflags_if, cli, modify, gets.
  unfold mbind at 1 2, M_bind at 1 2.
  rewrite (bind_run _ _ _ _ _ (mycpu_get_run ncli (set_if false s) i c Hm eq_refl Hc)).
  unfold when. destruct (ncli c =? 0) eqn:E.
  - rewrite (bind_run _ _ _ _ _ (mycpu_set_run _ (set_if false s) i Hm eq_refl)).
    rewrite (mycpu_set_run _ _ i).
    + unfold pushed, set_cpus, set_if.
      cbn [hw_apicid hw_if cpus locks]. do 2 f_equal.
      rewrite list_alter_alter_eq. apply list_alter_ext; [|done].
      intros c' Hc'. simplify_eq. unfold push_cpu, set_ncli, set_intena. simpl. by rewrite E.
    + simpl. by rewrite mycpu_loop_alter.
    + done.
  - unfold mbind, M_bind, mret, M_ret.
    rewrite (mycpu_set_run _ (set_if false s) i Hm eq_refl).
    unfold pushed, set_cpus, set_if.
      cbn [hw_apicid hw_if cpus locks]. do 2 f_equal.
    apply list_alter_ext; [|done].
    intros c' Hc'. simplify_eq. unfold push_cpu, set_ncli. by rewrite E.
Qed.

(** The state after [popcli]: the nesting drops by one and interrupts come
    back when it reaches zero and they were on at the outermost [pushcli]. *)
Definition popped (i : nat) (s : mach) : mach :=
  set_if (match cpus s !! i with Some c => (ncli c =? 1) && intena c | None => false end)
    (set_cpus (alter (λ c, set_ncli (ncli c - 1) c) i (cpus s)) s).

Lemma popcli_run s i c :
  mycpu_loop (hw_apicid s) (cpus s) 0 = Some i → hw_if s = false →
  cpus s !! i = Some c → 0 < ncli c → popcli s = Ok tt (popped i s).
Proof.
  intros Hm Hif Hc Hn. unfold popcli, readeflags_if.
  unfold mbind at 1, M_bind at 1, gets. rewrite Hif.
  rewrite (bind_run _ _ _ _ _ (mycpu_set_run _ s i Hm Hif)).
  set (s1 := set_cpus _ s).
  assert (mycpu_loop (hw_apicid s1) (cpus s1) 0 = Some i) as Hm1
    by (simpl; by rewrite mycpu_loop_alter).
  assert (cpus s1 !! i = Some (set_ncli (ncli c - 1) c)) as Hc1
    by (simpl; by rewrite list_lookup_alter_eq, Hc).
  rewrite (bind_run _ _ _ _ _ (mycpu_get_run ncli s1 i _ Hm1 Hif Hc1)). simpl.
  destruct (Z.ltb_spec (ncli c - 1) 0); [lia|].
  rewrite (bind_run _ _ _ _ _ (mycpu_get_run intena s1 i _ Hm1 Hif Hc1)). simpl.
  unfold popped. rewrite Hc.
  replace (ncli c - 1 =? 0) with (ncli c =? 1) by (destruct (Z.eqb_spec (ncli c) 1), (Z.eqb_spec (ncli c - 1) 0); lia).
  destruct ((ncli c =? 1) && intena c); [done|].
  unfold when, mret, M_ret. f_equal. unfold s1, set_if, set_cpus. simpl. by rewrite Hif.
Qed.

Lemma cpu_ok_pushed s i : cpu_ok s i → cpu_ok (pushed i s) i.
Proof.
  intros (Hm & c & Hc & Hn & Hif). split.
  - simpl. by rewrite mycpu_loop_alter.
  - simpl. rewrite list_lookup_alter_eq, Hc. eexists. split; [done|]. simpl. lia.
Qed.

#[global] Instance pushed_proper i : Proper ((≡) ==> (≡)) (pushed i).
Proof.
  intros s s' (Ha & Hif & Hl & Hc). split_and!; try done. simpl. rewrite Hif.
  apply Forall2_alter; [done|]. intros c c' _ _ (? & En & ? & Hi).
  unfold push_cpu. split_and!; simpl; try congruence.
  intros _. rewrite En in *. destruct (Z.eqb_spec (ncli c') 0); [done|by apply Hi].
Qed.

Lemma popped_pushed s s1 i : cpu_ok s i → s1 ≡ pushed i s → popped i s1 ≡ s.
Proof.
  intros (Hm & c & Hc & Hn & Hif) (Ha & Hif1 & Hl & Hcs). simpl in *.
  destruct (Forall2_lookup_r _ _ _ i (push_cpu (hw_if s) c) Hcs) as (c1 & Hc1 & E1 & E2 & E3 & E4).
  { simpl. by rewrite list_lookup_alter_eq, Hc. }
  simpl in *. split_and!; simpl; [done| |done|].
  - rewrite Hc1. rewrite E4, E2 by lia.
    destruct (Z.eqb_spec (ncli c + 1) 1), (Z.eqb_spec (ncli c) 0); simpl; try lia; [done|].
    symmetry. by apply Hif.
  - apply Forall2_same_length_lookup_2.
    { rewrite length_alter, (Forall2_length _ _ _ Hcs). apply length_alter. }
    intros j d d' Hd Hd'. rewrite list_lookup_alter in Hd. case_decide as Eij.
    + subst j. rewrite Hc1 in Hd. injection Hd as <-.
      assert (d' = c) as -> by congruence.
      split_and!; simpl; try done; try lia. intros Hne. rewrite E4 by lia.
      destruct (Z.eqb_spec (ncli c) 0); [lia|done].
    + destruct (Forall2_lookup_l _ _ _ _ _ Hcs Hd) as (d'' & Hd'' & ?).
      rewrite list_lookup_alter_ne in Hd'' by done. by simplify_eq.
Qed.

(** A [popcli] undoes a [pushcli], wherever between them the rest of the
    machine is left as it was. *)
Lemma popcli_pushed s s1 i :
  cpu_ok s i → s1 ≡ pushed i s → wp popcli (λ _ s2, s2 ≡ s) s1.
Proof.
  intros Hok Hs1.
  assert (cpu_ok s1 i) as (Hm & c & Hc & Hn & Hif) by (rewrite Hs1; by apply cpu_ok_pushed).
  pose proof Hs1 as (_ & Hif1 & _ & Hcs). simpl in Hif1, Hcs.
  destruct Hok as (Hms & cs & Hc0 & Hn0 & Hif0).
  destruct (Forall2_lookup_r _ _ _ i (push_cpu (hw_if s) cs) Hcs) as (c1 & Hc1 & _ & E2 & _).
  { by rewrite list_lookup_alter_eq, Hc0. }
  assert (c1 = c) as -> by congruence. simpl in E2.
  eapply wp_run; [apply popcli_run with (c := c); (done || lia)|].
  apply popped_pushed; [|done]. split; [done|]. by exists cs.
Qed.

Lemma mycpu_ok s i : cpu_ok s i → hw_if s = false → mycpu s = Ok i s.
Proof. intros (Hm & _) Hif. by apply mycpu_run. Qed.

Lemma holding_wp s i lk :
  cpu_ok s i →
  wp (holding lk) (λ b s', s' ≡ s ∧
    b = locked (lock_of s lk) && bool_decide (lcpu (lock_of s lk) = Some i)) s.
Proof.
  intros Hok. unfold holding. apply wp_bind.
  eapply wp_run; [by apply pushcli_run|].
  wp_auto. eapply wp_run; [apply mycpu_ok; [by apply cpu_ok_pushed|done]|].
  wp_auto. eapply wp_mono; [by eapply popcli_pushed|]. intros ? s' Hs'.
  by wp_auto.
Qed.

(** ** One CPU: locks *)

Lemma acquire_wp s i lk :
  cpu_ok s i → lock_free s lk →
  wp (acquire lk) (λ _ s', s' ≡ acquired i lk s) s.
Proof.
  intros Hok Hfree. unfold acquire. apply wp_bind.
  eapply wp_run; [by apply pushcli_run|]. apply wp_bind.
  eapply wp_mono; [apply holding_wp; by apply cpu_ok_pushed|].
  intros b s2 (Hs2 & ->).
  change (lock_of (pushed i s) lk) with (lock_of s lk). rewrite Hfree. simpl.
  assert (lock_of s2 lk = unlocked) as Hl2.
  { destruct Hs2 as (_ & _ & -> & _). by change (lock_of s lk = unlocked). }
  apply wp_bind. eapply wp_run; [done|]. rewrite Hl2. simpl.
  set (s3 := set_lock _ _ s2).
  assert (cpu_ok s2 i) as Hok2 by (rewrite Hs2; by apply cpu_ok_pushed).
  apply wp_bind. eapply wp_run.
  { apply (mycpu_ok s3 i); [done|]. destruct Hs2 as (_ & Hif & _). apply Hif. }
  wp_auto. unfold s3. rewrite set_lock_set_lock. unfold acquired.
  rewrite lock_of_set_lock. case_decide; [|done]. simpl. by rewrite Hs2.
Qed.

Lemma acquire_again s i lk :
  cpu_ok s i → lock_of s lk = Lock true (Some i) → acquire lk s = Panic "acquire".
Proof.
  intros Hok Hl. unfold acquire.
  rewrite (bind_run _ _ _ _ _ (pushcli_run s i Hok)).
  pose proof (holding_wp (pushed i s) i lk (cpu_ok_pushed s i Hok)) as H.
  apply wp_Ok in H as (b & s' & Hrun & _ & ->).
  rewrite (bind_run _ _ _ _ _ Hrun).
  change (lock_of (pushed i s) lk) with (lock_of s lk). rewrite Hl. simpl.
  by rewrite bool_decide_true.
Qed.

Lemma release_not_held s i lk :
  cpu_ok s i → lock_of s lk ≠ Lock true (Some i) → release lk s = Panic "release".
Proof.
  intros Hok Hl. unfold release.
  pose proof (holding_wp s i lk Hok) as H.
  apply wp_Ok in H as (b & s' & Hrun & _ & ->).
  rewrite (bind_run _ _ _ _ _ Hrun).
  destruct (lock_of s lk) as [[] o]; simpl; [|done].
  rewrite bool_decide_false; [done|]. intros ->. by apply Hl.
Qed.

Lemma release_wp s s2 i lk :
  cpu_ok s i → lock_free s lk → s2 ≡ acquired i lk s →
  wp (release lk) (λ _ s', s' ≡ s) s2.
Proof.
  intros Hok Hfree Hs2. unfold release. apply wp_bind.
  assert (cpu_ok s2 i) as Hok2.
  { rewrite Hs2. destruct (cpu_ok_pushed s i Hok) as (? & ? & ?). by split; eauto. }
  assert (lock_of s2 lk = Lock true (Some i)) as Hl2.
  { destruct Hs2 as (_ & _ & -> & _). unfold acquired.
    rewrite lock_of_set_lock. by case_decide. }
  eapply wp_mono; [by apply holding_wp|]. intros b s3 (Hs3 & ->).
  rewrite Hl2. simpl. rewrite bool_decide_true by done. simpl.
  wp_auto. rewrite !set_lock_set_lock, lock_of_set_lock. case_decide; [|done]. simpl.
  apply popcli_pushed with (i := i); [done|].
  rewrite Hs3, Hs2. unfold acquired. rewrite set_lock_set_lock.
  apply set_lock_id. apply Hfree.
Qed.

(** [n] calls of the same operation. *)
Fixpoint times (n : nat) (m : M mach ()) : M mach () :=
  match n with
  | O => mret tt
  | S n' => m;; times n' m
  end.

Fixpoint pushed_n (n : nat) (i : nat) (s : mach) : mach :=
  match n with
  | O => s
  | S n' => pushed_n n' i (pushed i s)
  end.

Lemma pushed_n_S n i s : pushed_n (S n) i s = pushed i (pushed_n n i s).
Proof. revert s. induction n as [|n IH]; intros s; [done|]. simpl in *. by rewrite IH. Qed.

Lemma cpu_ok_pushed_n n i s : cpu_ok s i → cpu_ok (pushed_n n i s) i.
Proof. revert s. induction n; intros s H; simpl; auto using cpu_ok_pushed. Qed.

Lemma times_pushcli n s i : cpu_ok s i → times n pushcli s = Ok tt (pushed_n n i s).
Proof.
  revert s. induction n as [|n IH]; intros s H; simpl; [done|].
  rewrite (bind_run _ _ _ _ _ (pushcli_run s i H)). apply IH. by apply cpu_ok_pushed.
Qed.

(** [k] calls of [popcli] undo the last [k] of [k + n] calls of [pushcli]. *)
Lemma times_popcli k n s s1 i :
  cpu_ok s i → s1 ≡ pushed_n (k + n) i s →
  wp (times k popcli) (λ _ s', s' ≡ pushed_n n i s) s1.
Proof.
  revert s1. induction k as [|k IH]; intros s1 Hok Hs1; simpl times; [by wp_auto|].
  change (S k + n)%nat with (S (k + n)) in Hs1. rewrite pushed_n_S in Hs1.
  apply wp_bind. eapply wp_mono.
  - eapply popcli_pushed; [by apply cpu_ok_pushed_n|done].
  - intros ? s2 Hs2. by apply IH.
Qed.

(** ** Several CPUs on one lock

    The instructions of [acquire] and [release] that touch the lock, one
    step each; a CPU's own interrupt state is private to it. *)
Module Smp.
(** Where a CPU is in [acquire]/[release]. *)
Inductive pc :=
| Idle        (** outside [acquire] .. [release] *)
| AcqHold1    (** [acquire]: about to read [locked] in [holding] *)
| AcqHold2    (** [acquire]: about to read [cpu] in [holding] *)
| Spinning    (** about to run [xchg] *)
| Got         (** [xchg] returned 0, about to set [lk->cpu] *)
| Crit        (** [acquire] has returned *)
| RelHold1    (** [release]: about to read [locked] in [holding] *)
| RelHold2    (** [release]: about to read [cpu] in [holding] *)
| RelCpu      (** about to clear [lk->cpu] *)
| RelStore    (** about to store 0 in [lk->locked] *)
| Panicked.

#[global] Instance pc_eq_dec : EqDecision pc.
Proof. solve_decision. Defined.

Record st := St { lk : spinlock; pcs : list pc }.

(** The step CPU [i] takes at program counter [p]: the lock and the next
    program counter. *)
Definition cpu_step (i : nat) (p : pc) (l : spinlock) : option (pc * spinlock) :=
  match p with
  | Idle => Some (AcqHold1, l)
  | AcqHold1 => Some (if locked l then AcqHold2 else Spinning, l)
  | AcqHold2 => Some (if bool_decide (lcpu l = Some i) then Panicked else Spinning, l)
  | Spinning => Some (if locked l then Spinning else Got, Lock true (lcpu l))
  | Got => Some (Crit, Lock (locked l) (Some i))
  | Crit => Some (RelHold1, l)
  | RelHold1 => Some (if locked l then RelHold2 else Panicked, l)
  | RelHold2 => Some (if bool_decide (lcpu l = Some i) then RelCpu else Panicked, l)
  | RelCpu => Some (RelStore, Lock (locked l) None)
  | RelStore => Some (Idle, Lock false (lcpu l))
  | Panicked => None
  end.

Inductive step : st → st → Prop :=
| step_cpu s i p p' l' :
    pcs s !! i = Some p → cpu_step i p (lk s) = Some (p', l') →
    step s (St l' (<[i := p']> (pcs s))).

(** [n] CPUs outside the lock, the lock as [initlock] leaves it. *)
Definition init (n : nat) : st := St unlocked (replicate n Idle).

(** From the successful [xchg] to the store that frees the lock. *)
Definition owns (p : pc) : bool :=
  match p with Got | Crit | RelHold1 | RelHold2 | RelCpu | RelStore => true | _ => false end.

(** While [lk->cpu] names the owner. *)
Definition named (p : pc) : bool :=
  match p with Crit | RelHold1 | RelHold2 | RelCpu => true | _ => false end.

Record inv (s : st) : Prop := {
  inv_panic : ∀ i, pcs s !! i ≠ Some Panicked;
  inv_unique : ∀ i j p q, pcs s !! i = Some p → pcs s !! j = Some q →
    owns p = true → owns q = true → i = j;
  inv_locked : ∀ i p, pcs s !! i = Some p → owns p = true → locked (lk s) = true;
  inv_named : ∀ i p, pcs s !! i = Some p → named p = true → lcpu (lk s) = Some i;
  inv_cpu : ∀ i, lcpu (lk s) = Some i → ∃ p, pcs s !! i = Some p ∧ named p = true;
}.

Lemma named_owns p : named p = true → owns p = true.
Proof. by destruct p. Qed.

Lemma inv_init n : inv (init n).
Proof.
  split; simpl.
  - intros i H. by apply lookup_replicate in H as [H _].
  - intros i j p q Hp. apply lookup_replicate in Hp as [-> _]. done.
  - intros i p Hp. by apply lookup_replicate in Hp as [-> _].
  - intros i p Hp. by apply lookup_replicate in Hp as [-> _].
  - done.
Qed.

(** A step that neither enters nor leaves the owned section. *)
Lemma inv_local s i p p' l' :
  inv s → pcs s !! i = Some p → l' = lk s → p' ≠ Panicked →
  owns p' = owns p → named p' = named p → inv (St l' (<[i := p']> (pcs s))).
Proof.
  intros I Hp -> Hpan Ho Hn.
  assert (∀ j q, <[i := p']> (pcs s) !! j = Some q →
    ∃ q', pcs s !! j = Some q' ∧ owns q' = owns q ∧ named q' = named q ∧ (q = Panicked → q' = Panicked)) as Hlk.
  { intros j q Hq. rewrite list_lookup_insert in Hq. case_decide as Ej.
    - destruct Ej as [-> ?]. simplify_eq. by exists p.
    - by exists q. }
  split; simpl.
  - intros j Hj. destruct (Hlk _ _ Hj) as (q' & Hq' & _ & _ & Hq).
    rewrite (Hq eq_refl) in Hq'. by apply (inv_panic s I j).
  - intros j k q r Hq Hr Oq Or.
    destruct (Hlk _ _ Hq) as (q' & ? & E & _). destruct (Hlk _ _ Hr) as (r' & ? & E' & _).
    eapply (inv_unique s I); try done; congruence.
  - intros j q Hq Oq. destruct (Hlk _ _ Hq) as (q' & ? & E & _).
    eapply (inv_locked s I); [done|congruence].
  - intros j q Hq Nq. destruct (Hlk _ _ Hq) as (q' & ? & _ & E & _).
    eapply (inv_named s I); [done|congruence].
  - intros j Hj. destruct (inv_cpu s I j Hj) as (q & Hq & Nq).
    destruct (decide (j = i)) as [->|Hne].
    + exists p'. rewrite list_lookup_insert_eq by (by eapply lookup_lt_Some).
      split; [done|congruence].
    + exists q. by rewrite list_lookup_insert_ne.
Qed.

(** A step at the edge of the owned section: CPU [i] is the only CPU that
    may own the lock before and after it. *)
Lemma inv_edge s i p p' l' :
  inv s → pcs s !! i = Some p → p' ≠ Panicked →
  (∀ j q, j ≠ i → pcs s !! j = Some q → owns q = false) →
  (owns p' = true → locked l' = true) →
  (lcpu l' = if named p' then Some i else None) →
  inv (St l' (<[i := p']> (pcs s))).
Proof.
  intros I Hp Hpan Hother Hlock Hcpu.
  assert (<[i := p']> (pcs s) !! i = Some p') as Hi
    by (apply list_lookup_insert_eq; by eapply lookup_lt_Some).
  assert (∀ j q, j ≠ i → <[i := p']> (pcs s) !! j = Some q → pcs s !! j = Some q) as Hj.
  { intros j q Hne Hq. by rewrite list_lookup_insert_ne in Hq. }
  assert (∀ j q, <[i := p']> (pcs s) !! j = Some q → owns q = true → j = i ∧ q = p') as Ho.
  { intros j q Hq Oq. destruct (decide (j = i)) as [->|Hne]; [split; congruence|].
    specialize (Hother j q Hne (Hj j q Hne Hq)). congruence. }
  split; simpl.
  - intros j Hjp. destruct (decide (j = i)) as [->|Hne]; [congruence|].
    by apply (inv_panic s I j), Hj.
  - intros j k q r Hq Hr Oq Or. destruct (Ho _ _ Hq Oq), (Ho _ _ Hr Or). congruence.
  - intros j q Hq Oq. destruct (Ho _ _ Hq Oq) as [-> ->]. auto.
  - intros j q Hq Nq. destruct (Ho _ _ Hq (named_owns _ Nq)) as [-> ->]. by rewrite Hcpu, Nq.
  - intros j. rewrite Hcpu. destruct (named p') eqn:E; [|done]. intros [= <-]. eauto.
Qed.

Lemma inv_step s s' : inv s → step s s' → inv s'.
Proof.
  intros I Hs. destruct Hs as [s i p p' l' Hp Hstep].
  assert (owns p = true → ∀ j q, j ≠ i → pcs s !! j = Some q → owns q = false) as Hown.
  { intros Op j q Hne Hq. destruct (owns q) eqn:E; [|done].
    destruct Hne. by eapply (inv_unique s I). }
  assert (lcpu (lk s) = Some i → named p = true) as Hcpu.
  { intros H. destruct (inv_cpu s I i H) as (q & Hq & ?). congruence. }
  destruct p; simpl in Hstep; simplify_eq/=.
  - by eapply inv_local.
  - eapply inv_local; try done; by destruct (locked _).
  - rewrite bool_decide_false by (by intros ?%Hcpu). by eapply inv_local.
  - destruct (locked (lk s)) eqn:El.
    + eapply inv_local; try done. destruct (lk s); simpl in *; congruence.
    + eapply inv_edge; try done.
      * intros j q _ Hq. destruct (owns q) eqn:E; [|done].
        pose proof (inv_locked s I j q Hq E). congruence.
      * simpl. destruct (lcpu (lk s)) as [j|] eqn:Ej; [|done].
        destruct (inv_cpu s I j Ej) as (q & Hq & Nq).
        pose proof (inv_locked s I j q Hq (named_owns _ Nq)). congruence.
  - eapply inv_edge; try done; [by apply Hown|]. intros _. by eapply (inv_locked s I).
  - by eapply inv_local.
  - rewrite (inv_locked s I i _ Hp) by done. by eapply inv_local.
  - rewrite bool_decide_true by (by eapply (inv_named s I)). by eapply inv_local.
  - eapply inv_edge; try done; [by apply Hown|]. intros _. by eapply (inv_locked s I).
  - eapply inv_edge; try done; [by apply Hown|]. simpl.
    destruct (lcpu (lk s)) as [j|] eqn:Ej; [|done].
    destruct (inv_cpu s I j Ej) as (q & Hq & Nq).
    assert (j = i) as ->
      by (apply (inv_unique s I j i q RelStore); [done|done|by apply named_owns|done]).
    assert (q = RelStore) as -> by congruence. done.
Qed.


Lemma inv_reach s s' : rtc step s s' → inv s → inv s'.
Proof. induction 1; eauto using inv_step. Qed.
End Smp.

(** ** Correctness *)

(** Interrupt disabling nests: after [n + k] calls of [pushcli] and [k]
    calls of [popcli] interrupts are off as long as [n > 0], and [n + k]
    calls of each restore the machine, interrupt flag included. *)
Theorem pushcli_popcli_nest n k s i :
  cpu_ok s i →
  wp (times (k + n) pushcli;; times k popcli)
    (λ _ s', (n ≠ 0%nat → hw_if s' = false) ∧ (n = 0%nat → s' ≡ s)) s.
Proof.
  intros Hok. apply wp_bind. eapply wp_run; [by apply times_pushcli|].
  eapply wp_mono; [by apply (times_popcli k n s)|]. intros [] s' He. split.
  - intros Hn. destruct He as (_ & -> & _). destruct n as [|n]; [done|]. by rewrite pushed_n_S.
  - by intros ->.
Qed.

Definition boot_mach : mach := Mach 0 true [Cpu 0 0 false None; Cpu 1 0 false None] ∅.

Lemma pushcli_popcli_nest_witness :
  cpu_ok boot_mach 0 ∧
  wp (times 3 pushcli;; times 3 popcli) (λ _ s', s' ≡ boot_mach) boot_mach.
Proof.
  assert (cpu_ok boot_mach 0) as Hok.
  { split; [done|]. eexists. by split_and!. }
  split; [done|]. eapply wp_mono; [apply (pushcli_popcli_nest 0 3 boot_mach 0 Hok)|].
  intros [] s' [_ H]. by apply H.
Defined.

(** On one CPU, [acquire] of a free lock succeeds and leaves the lock held
    with interrupts off; acquiring it again or releasing a lock that is not
    held panics; [release] then restores the machine exactly. *)
Theorem acquire_release s i lk :
  cpu_ok s i → lock_free s lk →
  wp (acquire lk) (λ _ s1,
    lock_of s1 lk = Lock true (Some i) ∧ hw_if s1 = false ∧
    acquire lk s1 = Panic "acquire" ∧ wp (release lk) (λ _ s2, s2 ≡ s) s1) s ∧
  release lk s = Panic "release".
Proof.
  intros Hok Hfree. split.
  - eapply wp_mono; [by apply (acquire_wp s i)|]. intros [] s1 He.
    assert (lock_of s1 lk = Lock true (Some i)) as Hl.
    { destruct He as (_ & _ & -> & _). unfold acquired. rewrite lock_of_set_lock. by case_decide. }
    assert (cpu_ok s1 i) as Hok1.
    { rewrite He. destruct (cpu_ok_pushed s i Hok) as [H1 H2]. by split. }
    split_and!; [done|by destruct He as (_ & -> & _)|by eapply acquire_again|].
    by eapply release_wp.
  - eapply release_not_held; [done|]. by rewrite Hfree.
Qed.

Lemma acquire_release_witness :
  wp (acquire LkKmem) (λ _ s1, wp (release LkKmem) (λ _ s2, s2 ≡ boot_mach) s1) boot_mach.
Proof.
  destruct (acquire_release boot_mach 0 LkKmem) as [H _].
  - split; [done|]. eexists. by split_and!.
  - done.
  - eapply wp_mono; [exact H|]. intros [] s1 (_ & _ & _ & H'). exact H'.
Defined.

(** C15. Mutual exclusion: in every interleaving of any number of CPUs calling
    [acquire] and [release] on one lock, at most one CPU is between the two,
    [lk->cpu] names it, and none of the consistency checks ever panics. *)
Theorem spinlock_mutual_exclusion n s :
  rtc Smp.step (Smp.init n) s →
  (∀ i j, Smp.pcs s !! i = Some Smp.Crit → Smp.pcs s !! j = Some Smp.Crit → i = j) ∧
  (∀ i, Smp.pcs s !! i = Some Smp.Crit → Smp.lk s = Lock true (Some i)) ∧
  (∀ i, Smp.pcs s !! i ≠ Some Smp.Panicked).
Proof.
  intros Hr. pose proof (Smp.inv_reach _ _ Hr (Smp.inv_init n)) as I. split_and!.
  - intros i j Hi Hj. by eapply (Smp.inv_unique _ I).
  - intros i Hi. pose proof (Smp.inv_locked _ I i _ Hi eq_refl) as H1.
    pose proof (Smp.inv_named _ I i _ Hi eq_refl) as H2.
    destruct (Smp.lk s) as [l c]. simpl in *. by subst.
  - apply (Smp.inv_panic _ I).
Qed.

Lemma spinlock_mutual_exclusion_witness :
  let s := Smp.St (Lock true (Some 1%nat)) [Smp.Idle; Smp.Crit] in
  rtc Smp.step (Smp.init 2) s ∧ ∀ i, Smp.pcs s !! i ≠ Some Smp.Panicked.
Proof.
  intros s. assert (rtc Smp.step (Smp.init 2) s) as Hr.
  { eapply rtc_l; [apply (Smp.step_cpu (Smp.init 2) 1 Smp.Idle); reflexivity|].
    eapply rtc_l; [apply (Smp.step_cpu _ 1 Smp.AcqHold1); reflexivity|].
    eapply rtc_l; [apply (Smp.step_cpu _ 1 Smp.Spinning); reflexivity|].
    eapply rtc_l; [apply (Smp.step_cpu _ 1 Smp.Got); reflexivity|]. apply rtc_refl. }
  split; [exact Hr|]. exact (proj2 (proj2 (spinlock_mutual_exclusion 2 s Hr))).
Defined.
