(* ===== verification/Mmu.v ===== *)
(** The constants and address macros of memlayout.h, mmu.h and param.h. *)

From S2P Require Import Prelude.

(** ** memlayout.h *)
Definition EXTMEM : Z := 0x100000.
Definition PHYSTOP : Z := 0xE000000.
Definition DEVSPACE : Z := 0xFE000000.
Definition KERNBASE : Z := 0x80000000.
Definition KERNLINK : Z := KERNBASE + EXTMEM.

Definition V2P (a : Z) : Z := u32 (a - KERNBASE).
Definition P2V (a : Z) : Z := u32 (a + KERNBASE).

(** ** param.h *)
Definition NPROC : nat := 64.
Definition KSTACKSIZE : Z := 4096.
Definition NOFILE : nat := 16.
Definition NFILE : nat := 100.
Definition NINODE : nat := 50.
Definition NDEV : Z := 10.
Definition ROOTDEV : Z := 1.
Definition MAXARG : nat := 32.
Definition MAXOPBLOCKS : Z := 10.
Definition LOGSIZE : Z := MAXOPBLOCKS * 3.
Definition NBUF : nat := 30.
Definition FSSIZE : Z := 1000.

(** ** mmu.h *)
Definition NPDENTRIES : Z := 1024.
Definition NPTENTRIES : Z := 1024.
Definition PGSIZE : Z := 4096.
Definition PGSHIFT : Z := 12.
Definition PTXSHIFT : Z := 12.
Definition PDXSHIFT : Z := 22.

Definition PDX (va : Z) : Z := Z.land (Z.shiftr va PDXSHIFT) 0x3FF.
Definition PTX (va : Z) : Z := Z.land (Z.shiftr va PTXSHIFT) 0x3FF.
Definition PGADDR (d t o : Z) : Z :=
  u32 (Z.lor (Z.lor (Z.shiftl d PDXSHIFT) (Z.shiftl t PTXSHIFT)) o).

Definition PGROUNDUP (sz : Z) : Z := Z.land (u32 (sz + PGSIZE - 1)) (Z.lnot (PGSIZE - 1)).
Definition PGROUNDDOWN (a : Z) : Z := Z.land a (Z.lnot (PGSIZE - 1)).

Definition PTE_P : Z := 0x001.
Definition PTE_W : Z := 0x002.
Definition PTE_U : Z := 0x004.
Definition PTE_PS : Z := 0x080.

Definition PTE_ADDR (pte : Z) : Z := Z.land pte (Z.lnot 0xFFF).
Definition PTE_FLAGS (pte : Z) : Z := Z.land pte 0xFFF.

(** The test [pte & flag] of a one-bit flag. *)
Definition flag_set (pte flag : Z) : bool := negb (Z.land pte flag =? 0).

Arguments V2P : simpl never.
Arguments P2V : simpl never.
Arguments PDX : simpl never.
Arguments PTX : simpl never.
Arguments PGADDR : simpl never.
Arguments PGROUNDUP : simpl never.
Arguments PGROUNDDOWN : simpl never.
Arguments PTE_ADDR : simpl never.
Arguments PTE_FLAGS : simpl never.
Arguments flag_set : simpl never.

(** ** Arithmetic of the macros *)

Lemma land_page_mask a : Z.land a (Z.lnot 4095) = a - a mod 4096.
Proof.
  change 4095 with (Z.ones 12).
  rewrite <- Z.ldiff_land, Z.ldiff_ones_r, Z.shiftl_mul_pow2, Z.shiftr_div_pow2 by lia.
  change (2 ^ 12) with 4096. Z.div_mod_to_equations. lia.
Qed.

Lemma PGROUNDDOWN_eq a : PGROUNDDOWN a = a - a mod PGSIZE.
Proof. apply land_page_mask. Qed.

Lemma PGROUNDUP_eq a :
  0 ≤ a → a + PGSIZE - 1 < 2 ^ 32 → PGROUNDUP a = (a + PGSIZE - 1) - (a + PGSIZE - 1) mod PGSIZE.
Proof.
  intros. unfold PGROUNDUP. rewrite u32_small by (unfold PGSIZE in *; lia).
  apply land_page_mask.
Qed.

Lemma PTE_ADDR_eq pte : PTE_ADDR pte = pte - pte mod 4096.
Proof. apply land_page_mask. Qed.

Lemma PTE_ADDR_aligned pte : PTE_ADDR pte mod PGSIZE = 0.
Proof. rewrite PTE_ADDR_eq. unfold PGSIZE. Z.div_mod_to_equations. lia. Qed.

Lemma PTE_ADDR_range pte : 0 ≤ pte < 2 ^ 32 → 0 ≤ PTE_ADDR pte ≤ 2 ^ 32 - 4096.
Proof. intros. rewrite PTE_ADDR_eq. Z.div_mod_to_equations. lia. Qed.

Lemma PTE_FLAGS_eq pte : PTE_FLAGS pte = pte mod 4096.
Proof. unfold PTE_FLAGS. change 0xFFF with (Z.ones 12). by rewrite Z.land_ones. Qed.

Lemma PTE_split pte : pte = PTE_ADDR pte + PTE_FLAGS pte.
Proof. rewrite PTE_ADDR_eq, PTE_FLAGS_eq. lia. Qed.

(** Low bits or-ed onto a number whose low bits are clear. *)
Lemma lor_high n a f : 0 ≤ n → a mod 2 ^ n = 0 → 0 ≤ f < 2 ^ n → Z.lor a f = a + f.
Proof.
  intros Hn Ha Hf. symmetry. apply Z.add_nocarry_lor.
  apply Z.bits_inj'. intros k Hk. rewrite Z.land_spec, Z.bits_0.
  destruct (Z.lt_ge_cases k n).
  - rewrite (Z.div_mod a (2 ^ n)), Ha, Z.add_0_r, Z.mul_comm by lia. by rewrite Z.mul_pow2_bits_low.
  - rewrite <- (Z.mod_small f (2 ^ n)) by lia. rewrite Z.mod_pow2_bits_high by lia.
    by rewrite andb_false_r.
Qed.

(** Flags or-ed onto a page-aligned address. *)
Lemma lor_page a f : a mod 4096 = 0 → 0 ≤ f < 4096 → Z.lor a f = a + f.
Proof. by apply (lor_high 12). Qed.

Lemma PTE_ADDR_lor a f : a mod 4096 = 0 → 0 ≤ f < 4096 → PTE_ADDR (Z.lor a f) = a.
Proof. intros. rewrite lor_page by done. rewrite PTE_ADDR_eq. Z.div_mod_to_equations. lia. Qed.

Lemma PTE_FLAGS_lor a f : a mod 4096 = 0 → 0 ≤ f < 4096 → PTE_FLAGS (Z.lor a f) = f.
Proof. intros. rewrite lor_page by done. rewrite PTE_FLAGS_eq. Z.div_mod_to_equations. lia. Qed.

Lemma lor_flags f g : 0 ≤ f < 4096 → 0 ≤ g < 4096 → 0 ≤ Z.lor f g < 4096.
Proof.
  intros. assert (Z.lor f g = Z.lor f g mod 2 ^ 12) as ->.
  { rewrite <- Z.land_ones, Z.land_lor_distr_l, !Z.land_ones by lia.
    by rewrite !Z.mod_small by lia. }
  apply Z.mod_pos_bound. lia.
Qed.

Lemma PDX_eq va : 0 ≤ va < 2 ^ 32 → PDX va = va / 2 ^ 22.
Proof.
  intros. unfold PDX, PDXSHIFT. change 0x3FF with (Z.ones 10).
  rewrite Z.land_ones, Z.shiftr_div_pow2 by lia. apply Z.mod_small. Z.div_mod_to_equations. lia.
Qed.

Lemma PTX_eq va : PTX va = va / 4096 mod 1024.
Proof.
  unfold PTX, PTXSHIFT. change 0x3FF with (Z.ones 10).
  by rewrite Z.land_ones, Z.shiftr_div_pow2 by lia.
Qed.

Lemma PDX_range va : 0 ≤ PDX va < 1024.
Proof.
  unfold PDX. change 0x3FF with (Z.ones 10). rewrite Z.land_ones by lia.
  apply Z.mod_pos_bound. lia.
Qed.

Lemma PTX_range va : 0 ≤ PTX va < 1024.
Proof. rewrite PTX_eq. apply Z.mod_pos_bound. lia. Qed.

(** The two indices determine the page. *)
Lemma PDX_PTX_inj va vb :
  0 ≤ va < 2 ^ 32 → 0 ≤ vb < 2 ^ 32 → PDX va = PDX vb → PTX va = PTX vb →
  va / 4096 = vb / 4096.
Proof.
  intros ? ?. rewrite !PDX_eq, !PTX_eq by done.
  assert (∀ x, x / 2 ^ 22 = x / 4096 / 1024) as E.
  { intros x. rewrite Z.div_div by lia. done. }
  rewrite !E. intros. Z.div_mod_to_equations. lia.
Qed.

Lemma flag_set_lor a b f : flag_set (Z.lor a b) f = flag_set a f || flag_set b f.
Proof.
  unfold flag_set. rewrite Z.land_lor_distr_l.
  destruct (Z.eqb_spec (Z.land a f) 0) as [->|Ha]; simpl; [done|].
  destruct (Z.eqb_spec (Z.lor (Z.land a f) (Z.land b f)) 0) as [E|]; [|done].
  apply Z.lor_eq_0_iff in E. tauto.
Qed.

(** A one-bit flag is a bit. *)
Lemma flag_set_bit x k : 0 ≤ k → flag_set x (2 ^ k) = Z.testbit x k.
Proof.
  intros Hk. unfold flag_set.
  assert (Z.land x (2 ^ k) = if Z.testbit x k then 2 ^ k else 0) as ->.
  { apply Z.bits_inj'. intros j Hj. rewrite Z.land_spec, Z.pow2_bits_eqb by lia.
    destruct (Z.eqb_spec k j) as [->|].
    - destruct (Z.testbit x j) eqn:E; [|by rewrite Z.bits_0].
      by rewrite Z.pow2_bits_eqb, Z.eqb_refl by lia.
    - rewrite andb_false_r. destruct (Z.testbit x k); [|by rewrite Z.bits_0].
      rewrite Z.pow2_bits_eqb by lia. by destruct (Z.eqb_spec k j). }
  destruct (Z.testbit x k); [|done].
  destruct (Z.eqb_spec (2 ^ k) 0) as [E|]; [|done].
  pose proof (Z.pow_pos_nonneg 2 k). lia.
Qed.

Lemma flag_P x : flag_set x PTE_P = Z.testbit x 0.
Proof. apply (flag_set_bit x 0). lia. Qed.
Lemma flag_W x : flag_set x PTE_W = Z.testbit x 1.
Proof. apply (flag_set_bit x 1). lia. Qed.
Lemma flag_U x : flag_set x PTE_U = Z.testbit x 2.
Proof. apply (flag_set_bit x 2). lia. Qed.

(** Low bits of an entry come from its flags. *)
Lemma flag_page a f k : a mod 4096 = 0 → 0 ≤ k < 12 → Z.testbit (Z.lor a f) k = Z.testbit f k.
Proof.
  intros Ha Hk. rewrite Z.lor_spec.
  replace a with (a / 4096 * 2 ^ 12) by (Z.div_mod_to_equations; lia).
  by rewrite Z.mul_pow2_bits_low by lia.
Qed.

(** Kernel pointers to physical memory. *)
Lemma P2V_V2P a : 0 ≤ a < 2 ^ 32 → P2V (V2P a) = a.
Proof.
  intros. unfold P2V, V2P. rewrite u32_add_l. rewrite Z.sub_add. by apply u32_small.
Qed.

Lemma V2P_P2V a : 0 ≤ a < 2 ^ 32 → V2P (P2V a) = a.
Proof.
  intros. unfold P2V, V2P. unfold Z.sub. rewrite u32_add_l.
  replace (a + KERNBASE + - KERNBASE) with a by lia. by apply u32_small.
Qed.
