(* ===== verification/Kalloc.v ===== *)
(** kalloc.c: the physical page allocator, with the per-page reference counts
    that copy-on-write fork adds.  The free list is threaded through the free
    pages themselves, in memory; [pool] is the abstract allocator it
    implements and the lemmas below are the refinement.  [Module Race] models
    the interleaving of two CPUs in the allocator. *)

From S2P Require Import Prelude Memory Kstring Spinlock Mmu.

(** ** State *)

(** [struct kmem], less its lock, which is [LkKmem] of the machine. *)
Record kmem := Kmem {
  use_lock : bool;
  freelist : Z;
  freecnt : Z;
  refc_cnt : gmap Z Z;   (** int[PHYSTOP >> PGSHIFT], zeroed at boot *)
}.

Record kst := Kst {
  k_mach : mach;
  k_mem : memory;
  k_km : kmem;
}.

Definition set_mach (m : mach) (k : kst) : kst := Kst m (k_mem k) (k_km k).
Definition set_mem (m : memory) (k : kst) : kst := Kst (k_mach k) m (k_km k).
Definition set_km (x : kmem) (k : kst) : kst := Kst (k_mach k) (k_mem k) x.

Definition set_use_lock (b : bool) (x : kmem) : kmem :=
  Kmem b (freelist x) (freecnt x) (refc_cnt x).
Definition set_freelist (p : Z) (x : kmem) : kmem :=
  Kmem (use_lock x) p (freecnt x) (refc_cnt x).
Definition set_freecnt (n : Z) (x : kmem) : kmem :=
  Kmem (use_lock x) (freelist x) n (refc_cnt x).
Definition set_refc (r : gmap Z Z) (x : kmem) : kmem :=
  Kmem (use_lock x) (freelist x) (freecnt x) r.

Definition in_mach {A} (m : M mach A) : M kst A := zoom k_mach set_mach m.
Definition mod_mem (f : memory → memory) : M kst () := modify (λ k, set_mem (f (k_mem k)) k).
Definition mod_km (f : kmem → kmem) : M kst () := modify (λ k, set_km (f (k_km k)) k).

Lemma wp_mod_mem f Q k : Q tt (set_mem (f (k_mem k)) k) → wp (mod_mem f) Q k.
Proof. done. Qed.
Lemma wp_mod_km f Q k : Q tt (set_km (f (k_km k)) k) → wp (mod_km f) Q k.
Proof. done. Qed.
Arguments mod_mem : simpl never.
Arguments mod_km : simpl never.

Ltac wp_hook ::=
  lazymatch goal with
  | |- wp (mod_mem _) _ _ => apply wp_mod_mem
  | |- wp (mod_km _) _ _ => apply wp_mod_km
  end.

(** ** Operations *)

Section kalloc.
(** [end], the first address after the kernel image (kernel.ld). *)
Context (kend : Z).

(** [if(kmem.use_lock) acquire(&kmem.lock);] *)
Definition klock : M kst () :=
  b ← gets (λ k, use_lock (k_km k));
  when b (in_mach (acquire LkKmem)).

(** [if(kmem.use_lock) release(&kmem.lock);] *)
Definition kunlock : M kst () :=
  b ← gets (λ k, use_lock (k_km k));
  when b (in_mach (release LkKmem)).

(** The index [pa >> PGSHIFT] of [refc_cnt]; out of the array's bounds is
    undefined behaviour. *)
Definition pfn (pa : Z) : Z := Z.shiftr pa PGSHIFT.
Definition NREFC : Z := Z.shiftr PHYSTOP PGSHIFT.

Definition refc_get (pa : Z) : M kst Z := λ k,
  if (0 <=? pfn pa) && (pfn pa <? NREFC)
  then Ok (default 0 (refc_cnt (k_km k) !! pfn pa)) k
  else Fault "refc_cnt index".

Definition refc_set (pa v : Z) : M kst () := λ k,
  if (0 <=? pfn pa) && (pfn pa <? NREFC)
  then Ok tt (set_km (set_refc (<[pfn pa := v]> (refc_cnt (k_km k))) (k_km k)) k)
  else Fault "refc_cnt index".

Definition incr_refc (pa : Z) : M kst () :=
  klock;;
  r ← refc_get pa;
  refc_set pa (i32 (r + 1));;
  kunlock.

Definition decr_refc (pa : Z) : M kst () :=
  klock;;
  r ← refc_get pa;
  refc_set pa (i32 (r - 1));;
  kunlock.

Definition get_refc (pa : Z) : M kst Z :=
  klock;;
  ret ← refc_get pa;
  kunlock;;
  mret ret.

Definition countfp : M kst Z :=
  klock;;
  ret ← gets (λ k, i32 (freecnt (k_km k)));
  kunlock;;
  mret ret.

Definition kfree (v : Z) : M kst () :=
  if negb (v mod PGSIZE =? 0) || (v <? kend) || (PHYSTOP <=? V2P v) then panic "kfree" else
  klock;;
  islock ← gets (λ k, use_lock (k_km k));
  mod_km (set_use_lock false);;
  r ← get_refc (V2P v);
  when (0 <? r) (decr_refc (V2P v));;
  r ← get_refc (V2P v);
  when (r =? 0) (
    mod_mem (λ m, memset m v 1 PGSIZE);;
    next ← gets (λ k, freelist (k_km k));
    mod_mem (λ m, wr32 m v next);;
    mod_km (set_freelist v);;
    mod_km (λ x, set_freecnt (u32 (freecnt x + 1)) x));;
  mod_km (set_use_lock islock);;
  kunlock.

Definition kalloc : M kst Z :=
  klock;;
  r ← gets (λ k, freelist (k_km k));
  when (negb (r =? 0)) (
    next ← gets (λ k, rd32 (k_mem k) r);
    mod_km (set_freelist next);;
    refc_set (V2P r) 1);;
  mod_km (λ x, set_freecnt (u32 (freecnt x - 1)) x);;
  kunlock;;
  mret r.

(** [for(; p + PGSIZE <= vend; p += PGSIZE)] *)
Fixpoint freerange_loop (p vend : Z) (fuel : nat) : M kst () :=
  if negb (p + PGSIZE <=? vend) then mret tt else
  match fuel with
  | O => fault "freerange fuel"
  | S fuel' =>
      refc_set (V2P p) 0;;
      kfree p;;
      freerange_loop (p + PGSIZE) vend fuel'
  end.

Definition freerange (vstart vend : Z) : M kst () :=
  let p := PGROUNDUP vstart in
  freerange_loop p vend (Z.to_nat ((vend - p) / PGSIZE)).

Definition kinit1 (vstart vend : Z) : M kst () :=
  in_mach (initlock LkKmem);;
  mod_km (set_use_lock false);;
  mod_km (set_freecnt 0);;
  freerange vstart vend.

Definition kinit2 (vstart vend : Z) : M kst () :=
  freerange vstart vend;;
  mod_km (set_use_lock true).
End kalloc.

(** ** Abstract allocator *)

(** Free pages in allocation order, a reference count per page frame, and
    how many allocations have found the pool empty. *)
Record pool := Pool {
  free : list Z;
  rc : gmap Z Z;
  failed : Z;
}.

Definition frame (v : Z) : Z := pfn (V2P v).
Definition refs (p : pool) (v : Z) : Z := default 0 (rc p !! frame v).

Arguments frame : simpl never.
Arguments pfn : simpl never.

Definition pool_alloc (p : pool) : Z * pool :=
  match free p with
  | [] => (0, Pool [] (rc p) (failed p + 1))
  | v :: l => (v, Pool l (<[frame v := 1]> (rc p)) (failed p))
  end.

(** Drop one reference; the page goes back to the pool with the last one. *)
Definition pool_free (v : Z) (p : pool) : pool :=
  if 1 <? refs p v then Pool (free p) (<[frame v := refs p v - 1]> (rc p)) (failed p)
  else Pool (v :: free p) (<[frame v := 0]> (rc p)) (failed p).

Definition pool_incr (v : Z) (p : pool) : pool :=
  Pool (free p) (<[frame v := refs p v + 1]> (rc p)) (failed p).

(** ** The allocator lock *)

(** The machine inside the allocator's critical section. *)
Definition kheld (b : bool) (i : nat) (mc : mach) : mach :=
  if b then acquired i LkKmem mc else mc.

(** CPU [i] can enter the allocator: if the lock is in use, nobody holds it.
    (Early in boot it is not in use, and [mycpu] does not work yet.) *)
Definition kready (k : kst) (i : nat) : Prop :=
  use_lock (k_km k) = true → cpu_ok (k_mach k) i ∧ lock_free (k_mach k) LkKmem.

Lemma kready_equiv k k' i :
  k_mach k' ≡ k_mach k → use_lock (k_km k') = use_lock (k_km k) → kready k i → kready k' i.
Proof. intros E Eu H Hu. rewrite Eu in Hu. destruct (H Hu). split; by rewrite E. Qed.

Lemma klock_wp k i Q :
  kready k i →
  (∀ mc, mc ≡ kheld (use_lock (k_km k)) i (k_mach k) → Q tt (set_mach mc k)) →
  wp klock Q k.
Proof.
  intros Hr HQ. unfold klock. wp_auto. apply wp_when; intros Eb; rewrite Eb in HQ.
  - destruct (Hr Eb). apply wp_zoom. eapply wp_mono; [by apply acquire_wp|].
    intros [] mc Hmc. by apply HQ.
  - destruct k as [mc0 m x]. by apply (HQ mc0).
Qed.

Lemma kunlock_wp k mc0 i Q :
  (use_lock (k_km k) = true → cpu_ok mc0 i ∧ lock_free mc0 LkKmem) →
  k_mach k ≡ kheld (use_lock (k_km k)) i mc0 →
  (∀ mc, mc ≡ mc0 → Q tt (set_mach mc k)) →
  wp kunlock Q k.
Proof.
  intros Hr Hk HQ. unfold kunlock. wp_auto. apply wp_when; intros Eb; rewrite Eb in Hk.
  - destruct (Hr Eb). apply wp_zoom. eapply wp_mono; [by eapply release_wp|].
    intros [] mc Hmc. by apply HQ.
  - destruct k as [mc1 m x]. by apply (HQ mc1).
Qed.

(** ** Invariant: the memory-threaded list represents the pool *)

Section kalloc_spec.
Context (kend : Z) (Hkend : KERNLINK ≤ kend).

(** An address [kfree] accepts. *)
Definition page_ok (v : Z) : Prop :=
  v mod PGSIZE = 0 ∧ kend ≤ v < KERNBASE + PHYSTOP.

#[export] Instance page_ok_dec v : Decision (page_ok v).
Proof. unfold page_ok. apply _. Defined.

Fixpoint chain (m : memory) (p : Z) (l : list Z) : Prop :=
  match l with
  | [] => p = 0
  | v :: l' => p = v ∧ chain m (rd32 m v) l'
  end.

Record kabs (k : kst) (p : pool) : Prop := {
  ka_chain : chain (k_mem k) (freelist (k_km k)) (free p);
  ka_pages : Forall page_ok (free p);
  ka_nodup : NoDup (free p);
  ka_zero : ∀ v, v ∈ free p → refs p v = 0;
  ka_rc : ∀ i, default 0 (refc_cnt (k_km k) !! i) = default 0 (rc p !! i);
  ka_range : ∀ i, 0 ≤ default 0 (rc p !! i) < 2 ^ 31;
  ka_cnt : freecnt (k_km k) = u32 (Z.of_nat (length (free p)) - failed p);
}.

Lemma page_ok_pos v : page_ok v → KERNLINK ≤ v < 2 ^ 32 ∧ v ≠ 0.
Proof. unfold page_ok, PHYSTOP, KERNBASE, KERNLINK in *. unfold KERNBASE, EXTMEM in *. lia. Qed.

Lemma V2P_page v : page_ok v → V2P v = v - KERNBASE.
Proof.
  intros [_ Hv]. unfold V2P. apply u32_small.
  unfold PHYSTOP, KERNBASE, KERNLINK, EXTMEM in *. unfold KERNBASE in *. lia.
Qed.

Lemma frame_eq v : page_ok v → frame v = (v - KERNBASE) / PGSIZE.
Proof.
  intros Hv. unfold frame, pfn, PGSHIFT. rewrite V2P_page by done.
  by rewrite Z.shiftr_div_pow2.
Qed.

Lemma frame_range v : page_ok v → 0 ≤ frame v < NREFC.
Proof.
  intros Hv. rewrite frame_eq by done. destruct Hv as [Ha Hv].
  change NREFC with 57344. unfold PGSIZE, PHYSTOP, KERNBASE, KERNLINK, EXTMEM in *.
  unfold KERNBASE in *. Z.div_mod_to_equations. lia.
Qed.

Lemma frame_inj v w : page_ok v → page_ok w → frame v = frame w → v = w.
Proof.
  intros Hv Hw. rewrite !frame_eq by done. destruct Hv as [Hv _], Hw as [Hw _].
  unfold PGSIZE, KERNBASE in *. Z.div_mod_to_equations. lia.
Qed.

(** Distinct pages do not overlap. *)
Lemma page_disjoint v w : v mod PGSIZE = 0 → w mod PGSIZE = 0 → v ≠ w →
  v + PGSIZE ≤ w ∨ w + PGSIZE ≤ v.
Proof. unfold PGSIZE. intros. Z.div_mod_to_equations. lia. Qed.

Lemma chain_agree m m' p l :
  (∀ v, v ∈ l → rd32 m v = rd32 m' v) → chain m p l → chain m' p l.
Proof.
  revert p. induction l as [|v l IH]; intros p H; simpl; [done|].
  intros [-> Hc]. split; [done|]. rewrite <- (H v) by by left.
  apply IH; [|done]. intros w Hw. apply H. by right.
Qed.

Lemma refc_get_page v k : page_ok v →
  refc_get (V2P v) k = Ok (default 0 (refc_cnt (k_km k) !! frame v)) k.
Proof.
  intros Hv. unfold refc_get. pose proof (frame_range v Hv).
  unfold frame in *. destruct (Z.leb_spec 0 (pfn (V2P v))), (Z.ltb_spec (pfn (V2P v)) NREFC); done || lia.
Qed.

Lemma refc_set_page v x k : page_ok v →
  refc_set (V2P v) x k =
    Ok tt (set_km (set_refc (<[frame v := x]> (refc_cnt (k_km k))) (k_km k)) k).
Proof.
  intros Hv. unfold refc_set. pose proof (frame_range v Hv).
  unfold frame in *. destruct (Z.leb_spec 0 (pfn (V2P v))), (Z.ltb_spec (pfn (V2P v)) NREFC); done || lia.
Qed.

Lemma lookup_insert_default (r : gmap Z Z) i j x :
  default 0 (<[i := x]> r !! j) = if decide (i = j) then x else default 0 (r !! j).
Proof. rewrite lookup_insert. by case_decide. Qed.

(** ** [kalloc] *)

Lemma kabs_alloc mc k p :
  kabs k p →
  match free p with
  | [] => kabs (set_mach mc (set_km (set_freecnt (u32 (freecnt (k_km k) - 1)) (k_km k)) k))
            (pool_alloc p).2
  | v :: l =>
      kabs (set_mach mc (set_km (Kmem (use_lock (k_km k)) (rd32 (k_mem k) v)
             (u32 (freecnt (k_km k) - 1)) (<[frame v := 1]> (refc_cnt (k_km k)))) k))
        (pool_alloc p).2
  end.
Proof.
  intros H. unfold pool_alloc. destruct (free p) as [|v l] eqn:El.
  - split; simpl; try apply H; try done.
    + pose proof (ka_chain k p H) as Hc. by rewrite El in Hc.
    + by apply NoDup_nil.
    + intros v Hv. by apply elem_of_nil in Hv.
    + rewrite (ka_cnt k p H), El. simpl. unfold Z.sub at 1. rewrite u32_add_l. f_equal. lia.
  - pose proof (ka_chain k p H) as Hc. rewrite El in Hc. simpl in Hc. destruct Hc as [_ Hc].
    pose proof (ka_pages k p H) as Hp. rewrite El in Hp. apply Forall_cons in Hp as [Hv Hl].
    pose proof (ka_nodup k p H) as Hn. rewrite El in Hn. apply NoDup_cons in Hn as [Hvl Hn].
    split; simpl; try done.
    + intros w Hw. unfold refs. simpl. rewrite lookup_insert_default.
      case_decide as E.
      * apply frame_inj in E; [by subst|done|]. rewrite Forall_forall in Hl. auto.
      * apply (ka_zero k p H). rewrite El. by right.
    + intros i. rewrite !lookup_insert_default. case_decide; [done|apply H].
    + intros i. rewrite lookup_insert_default. case_decide; [lia|apply H].
    + rewrite (ka_cnt k p H), El. simpl. unfold Z.sub at 1. rewrite u32_add_l. f_equal. lia.
Qed.

(** [kalloc] computes [pool_alloc], touches no memory and leaves the lock
    as it found it. *)
Lemma kalloc_wp k i p Q :
  kready k i → kabs k p →
  (∀ k', k_mach k' ≡ k_mach k → k_mem k' = k_mem k →
     use_lock (k_km k') = use_lock (k_km k) → kabs k' (pool_alloc p).2 →
     Q (pool_alloc p).1 k') →
  wp kalloc Q k.
Proof.
  intros Hr Ha HQ. unfold kalloc. apply wp_bind.
  apply (klock_wp k i); [done|]. intros mc Hmc. wp_auto.
  pose proof (kabs_alloc mc k p Ha) as Hnew.
  pose proof (ka_chain k p Ha) as Hc. pose proof (ka_pages k p Ha) as Hp.
  change (freelist (k_km (set_mach mc k))) with (freelist (k_km k)).
  unfold pool_alloc in *. destruct (free p) as [|v l] eqn:El; simpl in Hc, Hnew, HQ.
  - rewrite Hc. simpl. wp_auto. eapply kunlock_wp; [exact Hr|done|].
    intros mc' Hmc'. apply wp_ret. apply HQ; try done.
    destruct Hnew as [? ? ? ? ? ? ?]. by split.
  - destruct Hc as [Hf Hc]. apply Forall_cons in Hp as [Hv _]. rewrite Hf.
    destruct (Z.eqb_spec v 0); [apply page_ok_pos in Hv; lia|]. simpl.
    wp_auto. eapply wp_run; [by apply refc_set_page|]. wp_auto.
    eapply kunlock_wp; [exact Hr|done|].
    intros mc' Hmc'. apply wp_ret. apply HQ; try done.
    destruct Hnew as [? ? ? ? ? ? ?]. by split.
Qed.

(** ** Reference counts *)

Lemma get_refc_wp k i v Q :
  kready k i → page_ok v →
  (∀ k', k_mach k' ≡ k_mach k → k_mem k' = k_mem k → k_km k' = k_km k →
     Q (default 0 (refc_cnt (k_km k) !! frame v)) k') →
  wp (get_refc (V2P v)) Q k.
Proof.
  intros Hr Hv HQ. unfold get_refc. apply wp_bind.
  apply (klock_wp k i); [done|]. intros mc Hmc. apply wp_bind.
  eapply wp_run; [by apply refc_get_page|]. apply wp_bind.
  eapply kunlock_wp; [exact Hr|done|]. intros mc' Hmc'. apply wp_ret. by apply HQ.
Qed.

(** The common shape of [incr_refc] and [decr_refc]. *)
Lemma refc_update_wp (f : Z → Z) k i v Q :
  kready k i → page_ok v →
  (∀ k', k_mach k' ≡ k_mach k → k_mem k' = k_mem k →
     k_km k' = set_refc (<[frame v := f (default 0 (refc_cnt (k_km k) !! frame v))]>
                           (refc_cnt (k_km k))) (k_km k) → Q tt k') →
  wp (klock;; r ← refc_get (V2P v); refc_set (V2P v) (f r);; kunlock) Q k.
Proof.
  intros Hr Hv HQ. apply wp_bind.
  apply (klock_wp k i); [done|]. intros mc Hmc. apply wp_bind.
  eapply wp_run; [by apply refc_get_page|]. apply wp_bind.
  eapply wp_run; [by apply refc_set_page|].
  eapply kunlock_wp; [exact Hr|done|]. intros mc' Hmc'. by apply HQ.
Qed.

Lemma kabs_refc k k' p v x :
  kabs k p → page_ok v → v ∉ free p → 0 ≤ x < 2 ^ 31 →
  k_mem k' = k_mem k → freelist (k_km k') = freelist (k_km k) →
  freecnt (k_km k') = freecnt (k_km k) →
  refc_cnt (k_km k') = <[frame v := x]> (refc_cnt (k_km k)) →
  kabs k' (Pool (free p) (<[frame v := x]> (rc p)) (failed p)).
Proof.
  intros H Hv Hvl Hx Em El Ec Er. split; simpl; try apply H.
  - rewrite Em, El. apply H.
  - intros w Hw. unfold refs. simpl. rewrite lookup_insert_default.
    case_decide as E; [|by apply (ka_zero k p H)].
    apply frame_inj in E; [by subst|done|].
    pose proof (ka_pages k p H) as Hp. rewrite Forall_forall in Hp. auto.
  - intros j. rewrite Er, !lookup_insert_default. case_decide; [done|apply H].
  - intros j. rewrite lookup_insert_default. case_decide; [done|apply H].
  - rewrite Ec. apply H.
Qed.

Lemma incr_refc_wp k i p v Q :
  kready k i → kabs k p → page_ok v → v ∉ free p → refs p v < 2 ^ 31 - 1 →
  (∀ k', k_mach k' ≡ k_mach k → k_mem k' = k_mem k →
     use_lock (k_km k') = use_lock (k_km k) → kabs k' (pool_incr v p) → Q tt k') →
  wp (incr_refc (V2P v)) Q k.
Proof.
  intros Hr Ha Hv Hvl Hmax HQ. unfold incr_refc.
  apply (refc_update_wp (λ r, i32 (r + 1)) k i v); [done|done|].
  intros k' Hmc Em Ek. apply HQ; [done|done|by rewrite Ek|].
  unfold refs in Hmax. pose proof (ka_range k p Ha (frame v)).
  unfold pool_incr, refs. apply (kabs_refc k); try done; [lia|by rewrite Ek..|].
  rewrite Ek. simpl. by rewrite (ka_rc k p Ha), i32_small by lia.
Qed.

(** ** [kfree] *)

Lemma kfree_guard v : page_ok v →
  negb (v mod PGSIZE =? 0) || (v <? kend) || (PHYSTOP <=? V2P v) = false.
Proof.
  intros Hv. rewrite V2P_page by done. destruct Hv as [Ha Hv].
  rewrite Ha. simpl. destruct (Z.ltb_spec v kend); [lia|]. simpl.
  destruct (Z.leb_spec PHYSTOP (v - KERNBASE)); [lia|done].
Qed.

(** A page pushed on the list: filled, then linked. *)
Lemma rd32_pushed m v nxt w :
  page_ok w → page_ok v → v ≠ w → rd32 (wr32 (memset m v 1 PGSIZE) v nxt) w = rd32 m w.
Proof.
  intros [Hw _] [Hv _] Hne. apply rd32_agree. intros x Hx.
  destruct (page_disjoint v w Hv Hw Hne); unfold PGSIZE in *;
    rewrite rd8_wr32_ne, memset_rd8 by lia; case_decide; (done || lia).
Qed.

Lemma kabs_push k k' p v :
  kabs k p → page_ok v → v ∉ free p → refs p v ≤ 1 →
  k_mem k' = wr32 (memset (k_mem k) v 1 PGSIZE) v (freelist (k_km k)) →
  freelist (k_km k') = v →
  freecnt (k_km k') = u32 (freecnt (k_km k) + 1) →
  (∀ j, default 0 (refc_cnt (k_km k') !! j) =
          if decide (frame v = j) then 0 else default 0 (refc_cnt (k_km k) !! j)) →
  kabs k' (Pool (v :: free p) (<[frame v := 0]> (rc p)) (failed p)).
Proof.
  intros H Hv Hvl Hrc Em El Ec Er.
  pose proof (ka_pages k p H) as Hp. rewrite Forall_forall in Hp.
  split; simpl.
  - rewrite Em, El. split; [done|]. rewrite rd32_wr32_eq.
    rewrite u32_small.
    + eapply chain_agree; [|apply H]. intros w Hw. symmetry. apply rd32_pushed; auto.
      by intros ->.
    + pose proof (ka_chain k p H) as Hc. destruct (free p) as [|w l]; simpl in Hc; [lia|].
      destruct Hc as [-> _]. specialize (Hp w ltac:(by left)).
      apply page_ok_pos in Hp. unfold KERNLINK, KERNBASE, EXTMEM in *. lia.
  - constructor; [done|apply H].
  - constructor; [done|apply H].
  - intros w Hw. unfold refs. simpl. rewrite lookup_insert_default. case_decide as E; [done|].
    apply elem_of_cons in Hw as [->|Hw]; [done|]. by apply (ka_zero k p H).
  - intros j. rewrite Er, lookup_insert_default. case_decide; [done|apply H].
  - intros j. rewrite lookup_insert_default. case_decide; [lia|apply H].
  - rewrite Ec, (ka_cnt k p H), u32_add_l. f_equal. lia.
Qed.

(** With [use_lock] off the helpers run without touching the lock, which
    is how [kfree] calls them while it holds the lock. *)
Lemma get_refc_off k v : use_lock (k_km k) = false → page_ok v →
  get_refc (V2P v) k = Ok (default 0 (refc_cnt (k_km k) !! frame v)) k.
Proof.
  intros Hu Hv. unfold get_refc, klock, kunlock, mbind, M_bind, gets.
  rewrite Hu. simpl. rewrite refc_get_page by done. rewrite Hu. done.
Qed.

Lemma decr_refc_off k v : use_lock (k_km k) = false → page_ok v →
  decr_refc (V2P v) k =
    Ok tt (set_km (set_refc (<[frame v := i32 (default 0 (refc_cnt (k_km k) !! frame v) - 1)]>
                               (refc_cnt (k_km k))) (k_km k)) k).
Proof.
  intros Hu Hv. unfold decr_refc, klock, kunlock, mbind, M_bind, gets.
  rewrite Hu. simpl. rewrite refc_get_page, refc_set_page by done. simpl. by rewrite Hu.
Qed.

(** The counts after [if(get_refc(pa) > 0) decr_refc(pa);]. *)
Definition dropped (r : gmap Z Z) (v : Z) : gmap Z Z :=
  if 0 <? default 0 (r !! frame v)
  then <[frame v := i32 (default 0 (r !! frame v) - 1)]> r else r.

(** [kfree] computes [pool_free]: it drops a reference, and only with the
    last one does the page join the free list and lose its contents. *)
Lemma kfree_wp k i p v Q :
  kready k i → kabs k p → page_ok v → v ∉ free p →
  (∀ k', k_mach k' ≡ k_mach k → use_lock (k_km k') = use_lock (k_km k) →
     kabs k' (pool_free v p) →
     (1 < refs p v → k_mem k' = k_mem k) →
     (∀ x, ¬ (v ≤ x < v + PGSIZE) → rd8 (k_mem k') x = rd8 (k_mem k) x) →
     (refs p v ≤ 1 → ∀ x, v + 4 ≤ x < v + PGSIZE → rd8 (k_mem k') x = 1) →
     Q tt k') →
  wp (kfree kend v) Q k.
Proof.
  intros Hr Ha Hv Hvl HQ.
  unfold kfree. rewrite kfree_guard by done. apply wp_bind.
  apply (klock_wp k i); [done|]. intros mc Hmc. wp_auto.
  eapply wp_run; [by apply get_refc_off|]. apply wp_bind.
  eapply (wp_run _ _ _ tt (set_km (set_refc (dropped (refc_cnt (k_km k)) v)
            (set_use_lock false (k_km k))) (set_mach mc k))).
  { unfold dropped, when. simpl. destruct (0 <? _); [by rewrite decr_refc_off|].
    by destruct k as [? ? []]. }
  apply wp_bind. eapply wp_run; [by apply get_refc_off|].
  pose proof (ka_range k p Ha (frame v)) as Hrange.
  pose proof (ka_rc k p Ha (frame v)) as Hrc.
  unfold pool_free in HQ. simpl. unfold dropped. apply wp_bind, wp_when; intros Ez.
  - wp_auto. simpl. eapply kunlock_wp; [exact Hr|done|]. intros mc' Hmc'.
    assert (refs p v ≤ 1) as Hle.
    { unfold refs. rewrite <- Hrc in *. destruct (Z.ltb_spec 0 (default 0 (refc_cnt (k_km k) !! frame v))).
      - rewrite lookup_insert_default in Ez. case_decide; [|done].
        rewrite i32_small in Ez by lia. lia.
      - lia. }
    destruct (Z.ltb_spec 1 (refs p v)); [lia|].
    apply HQ; [done|done| |lia| |].
    + eapply kabs_push; try done. intros j. simpl. unfold refs in Hle. rewrite <- Hrc in *.
      destruct (Z.ltb_spec 0 (default 0 (refc_cnt (k_km k) !! frame v))).
      * rewrite lookup_insert_default. case_decide; [|done]. rewrite i32_small; lia.
      * case_decide; [subst; lia|done].
    + intros x Hx. simpl. rewrite rd8_wr32_ne, memset_rd8 by (unfold PGSIZE in *; lia).
      case_decide; [lia|done].
    + intros _ x Hx. simpl. rewrite rd8_wr32_ne, memset_rd8 by (unfold PGSIZE in *; lia). by rewrite decide_True by lia.
  - wp_auto. simpl. eapply kunlock_wp; [exact Hr|done|]. intros mc' Hmc'.
    assert (1 < refs p v) as Hlt.
    { unfold refs. rewrite <- Hrc in *. destruct (Z.ltb_spec 0 (default 0 (refc_cnt (k_km k) !! frame v))).
      - rewrite lookup_insert_default in Ez. case_decide; [|done].
        rewrite i32_small in Ez by lia. lia.
      - lia. }
    destruct (Z.ltb_spec 1 (refs p v)); [|lia].
    apply HQ; [done|done| |done|done|lia]. unfold refs in *.
    apply (kabs_refc k); try done; [lia|]. simpl. rewrite Hrc.
    destruct (Z.ltb_spec 0 (default 0 (rc p !! frame v))); [|lia].
    by rewrite i32_small by lia.
Qed.

(** ** Initialisation *)

(** The pages [freerange] hands to [kfree], in order. *)
Fixpoint range_pages (p : Z) (n : nat) : list Z :=
  match n with
  | O => []
  | S n' => p :: range_pages (p + PGSIZE) n'
  end.

Definition pool_push (p : pool) (v : Z) : pool :=
  Pool (v :: free p) (<[frame v := 0]> (rc p)) (failed p).

Lemma elem_of_range_pages v p n :
  v ∈ range_pages p n ↔ ∃ j, 0 ≤ j < Z.of_nat n ∧ v = p + j * PGSIZE.
Proof.
  revert p. induction n as [|n IH]; intros p; simpl.
  - rewrite elem_of_nil. split; [done|]. intros (j & ? & _). lia.
  - rewrite elem_of_cons, IH. split.
    + intros [->|(j & ? & ->)]; [exists 0|exists (j + 1)]; unfold PGSIZE; lia.
    + intros (j & ? & ->). destruct (decide (j = 0)) as [->|]; [left; lia|].
      right. exists (j - 1). unfold PGSIZE. lia.
Qed.

Lemma pool_fill_free l p : free (foldl pool_push p l) = rev l ++ free p.
Proof.
  revert p. induction l as [|v l IH]; intros p; simpl; [done|].
  rewrite IH. simpl. by rewrite <- (app_assoc (rev l)).
Qed.

Lemma freerange_loop_wp n : ∀ k i pl p vend Q,
  kready k i → kabs k pl →
  p mod PGSIZE = 0 → kend ≤ p → vend ≤ KERNBASE + PHYSTOP →
  p + Z.of_nat n * PGSIZE ≤ vend < p + (Z.of_nat n + 1) * PGSIZE →
  (∀ v, v ∈ range_pages p n → v ∉ free pl) →
  (∀ k', k_mach k' ≡ k_mach k → use_lock (k_km k') = use_lock (k_km k) →
     kabs k' (foldl pool_push pl (range_pages p n)) → Q tt k') →
  wp (freerange_loop kend p vend n) Q k.
Proof.
  induction n as [|n IH]; intros k i pl p vend Q Hr Ha Hal Hp Hv Hn Hnin HQ.
  - unfold freerange_loop. destruct (Z.leb_spec (p + PGSIZE) vend); simpl; [lia|].
    apply wp_ret. by apply HQ.
  - cbn [freerange_loop]. destruct (Z.leb_spec (p + PGSIZE) vend); simpl;
      [|unfold PGSIZE in *; lia].
    assert (page_ok p) as Hpg by (split; [done|unfold PGSIZE in *; lia]).
    assert (p ∉ free pl) as Hpn by (apply Hnin; simpl; by left).
    apply wp_bind. eapply wp_run; [by apply refc_set_page|].
    set (k1 := set_km _ k).
    assert (kabs k1 (Pool (free pl) (<[frame p := 0]> (rc pl)) (failed pl))) as Ha1
      by (apply (kabs_refc k); done || lia).
    apply wp_bind. eapply (kfree_wp k1 i); [done|done|done|done|].
    intros k2 Hm2 Hu2 Ha2 _ _ _.
    assert (kabs k2 (pool_push pl p)) as Ha2'.
    { unfold pool_free, refs in Ha2. simpl in Ha2. rewrite lookup_insert_default in Ha2.
      case_decide; [|done]. simpl in Ha2. by rewrite insert_insert_eq in Ha2. }
    eapply (IH k2 i (pool_push pl p)); try done.
    + by apply (kready_equiv k).
    + unfold PGSIZE in *. Z.div_mod_to_equations. lia.
    + unfold PGSIZE in *. lia.
    + unfold PGSIZE in *. lia.
    + intros v Hin. simpl. rewrite not_elem_of_cons. split.
      * apply elem_of_range_pages in Hin as (j & ? & ->). unfold PGSIZE. lia.
      * apply Hnin. simpl. by right.
    + intros k3 Hm3 Hu3 Ha3. apply HQ; [by rewrite Hm3, Hm2|by rewrite Hu3, Hu2|done].
Qed.

Definition range_count (p vend : Z) : nat := Z.to_nat ((vend - p) / PGSIZE).

Lemma freerange_wp k i pl vstart vend Q :
  kready k i → kabs k pl →
  kend ≤ vstart → vstart ≤ vend ≤ KERNBASE + PHYSTOP → PGROUNDUP vstart ≤ vend →
  (∀ v, v ∈ range_pages (PGROUNDUP vstart) (range_count (PGROUNDUP vstart) vend) → v ∉ free pl) →
  (∀ k', k_mach k' ≡ k_mach k → use_lock (k_km k') = use_lock (k_km k) →
     kabs k' (foldl pool_push pl
       (range_pages (PGROUNDUP vstart) (range_count (PGROUNDUP vstart) vend))) → Q tt k') →
  wp (freerange kend vstart vend) Q k.
Proof.
  intros Hr Ha Hs Hv Hup Hnin HQ. unfold freerange.
  assert (PGROUNDUP vstart = (vstart + PGSIZE - 1) - (vstart + PGSIZE - 1) mod PGSIZE) as E.
  { apply PGROUNDUP_eq; unfold PGSIZE, KERNLINK, KERNBASE, EXTMEM, PHYSTOP in *; lia. }
  apply (freerange_loop_wp _ k i pl); try done.
  - rewrite E. unfold PGSIZE. Z.div_mod_to_equations. lia.
  - rewrite E. unfold PGSIZE. Z.div_mod_to_equations. lia.
  - lia.
  - rewrite Z2Nat.id by (apply Z.div_pos; unfold PGSIZE; lia).
    unfold PGSIZE in *. Z.div_mod_to_equations. lia.
Qed.

(** [kmem] before boot: zeroed memory. *)
Definition boot_km (k : kst) : Prop :=
  freelist (k_km k) = 0 ∧ ∀ j, default 0 (refc_cnt (k_km k) !! j) = 0.

Lemma kinit1_wp k vstart vend Q :
  boot_km k → kend ≤ vstart → vstart ≤ vend ≤ KERNBASE + PHYSTOP → PGROUNDUP vstart ≤ vend →
  (∀ k', use_lock (k_km k') = false →
     kabs k' (foldl pool_push (Pool [] ∅ 0)
       (range_pages (PGROUNDUP vstart) (range_count (PGROUNDUP vstart) vend))) → Q tt k') →
  wp (kinit1 kend vstart vend) Q k.
Proof.
  intros [Hf Hz] Hs Hv Hup HQ. unfold kinit1. apply wp_bind, wp_zoom.
  unfold initlock. wp_auto. simpl.
  apply (freerange_wp _ 0%nat (Pool [] ∅ 0)); try done.
  - split; simpl; try done. by apply NoDup_nil.
  - intros v _ Hin. by apply elem_of_nil in Hin.
  - intros k' _ Hu Ha. by apply HQ.
Qed.

Lemma kinit2_wp k i pl vstart vend Q :
  kready k i → kabs k pl →
  kend ≤ vstart → vstart ≤ vend ≤ KERNBASE + PHYSTOP → PGROUNDUP vstart ≤ vend →
  (∀ v, v ∈ range_pages (PGROUNDUP vstart) (range_count (PGROUNDUP vstart) vend) → v ∉ free pl) →
  (∀ k', use_lock (k_km k') = true →
     kabs k' (foldl pool_push pl
       (range_pages (PGROUNDUP vstart) (range_count (PGROUNDUP vstart) vend))) → Q tt k') →
  wp (kinit2 kend vstart vend) Q k.
Proof.
  intros Hr Ha Hs Hv Hup Hnin HQ. unfold kinit2. apply wp_bind.
  apply (freerange_wp k i pl); try done. intros k' _ _ Ha'. wp_auto. apply HQ; [done|].
  destruct Ha'. by split.
Qed.
End kalloc_spec.

(** ** Two CPUs in the allocator

    [kfree] turns [use_lock] off while it holds the lock, so that the helpers
    it calls do not try to take it again.  [use_lock] is shared by all CPUs.
    The two functions are cut where the other CPU's code may run in between;
    [kfree_cut] and [kalloc_cut] show the pieces are the functions. *)
Module Race.
Section race.
Context (kend : Z) (Hkend : KERNLINK ≤ kend).

(** [kfree] up to and including [kmem.use_lock = 0]. *)
Definition kfree_enter (v : Z) : M kst bool :=
  if negb (v mod PGSIZE =? 0) || (v <? kend) || (PHYSTOP <=? V2P v) then panic "kfree" else
  klock;;
  islock ← gets (λ k, use_lock (k_km k));
  mod_km (set_use_lock false);;
  mret islock.

(** The rest of [kfree]. *)
Definition kfree_leave (v : Z) (islock : bool) : M kst () :=
  r ← get_refc (V2P v);
  when (0 <? r) (decr_refc (V2P v));;
  r ← get_refc (V2P v);
  when (r =? 0) (
    mod_mem (λ m, memset m v 1 PGSIZE);;
    next ← gets (λ k, freelist (k_km k));
    mod_mem (λ m, wr32 m v next);;
    mod_km (set_freelist v);;
    mod_km (λ x, set_freecnt (u32 (freecnt x + 1)) x));;
  mod_km (set_use_lock islock);;
  kunlock.

(** [kalloc] up to the second test of [kmem.use_lock]. *)
Definition kalloc_enter : M kst Z :=
  klock;;
  r ← gets (λ k, freelist (k_km k));
  when (negb (r =? 0)) (
    next ← gets (λ k, rd32 (k_mem k) r);
    mod_km (set_freelist next);;
    refc_set (V2P r) 1);;
  mod_km (λ x, set_freecnt (u32 (freecnt x - 1)) x);;
  mret r.

(** The rest of [kalloc]. *)
Definition kalloc_leave (r : Z) : M kst Z := kunlock;; mret r.

Lemma kfree_cut v k : kfree kend v k = (kfree_enter v ≫= kfree_leave v) k.
Proof.
  unfold kfree, kfree_enter. destruct (_ || _); [done|].
  unfold mbind, M_bind, gets, mod_km, modify. by destruct (klock k).
Qed.

Lemma kalloc_cut k : kalloc k = (kalloc_enter ≫= kalloc_leave) k.
Proof.
  unfold kalloc, kalloc_enter, kalloc_leave, mbind, M_bind, gets, mod_km, modify.
  destruct (klock k); try done. by destruct (when _ _ _).
Qed.

(** The view of the machine from the CPU with local APIC id [id] and
    interrupt flag [b]. *)
Definition as_cpu (id : Z) (b : bool) (k : kst) : kst :=
  set_mach (Mach id b (cpus (k_mach k)) (locks (k_mach k))) k.

(** CPU 0 frees [v]; CPU 1 allocates; CPU 1 enters after CPU 0 has turned
    [use_lock] off and leaves after CPU 0 is done. *)
Definition schedule (id0 id1 : Z) (if0 if1 : bool) (v : Z) : M kst Z :=
  modify (as_cpu id0 if0);;
  islock ← kfree_enter v;
  if0' ← gets (λ k, hw_if (k_mach k));
  modify (as_cpu id1 if1);;
  r ← kalloc_enter;
  if1' ← gets (λ k, hw_if (k_mach k));
  modify (as_cpu id0 if0');;
  kfree_leave v islock;;
  modify (as_cpu id1 if1');;
  kalloc_leave r.

Lemma kfree_leave_run v b k :
  use_lock (k_km k) = false → page_ok kend v →
  ∃ k', kfree_leave v b k = kunlock k' ∧ k_mach k' = k_mach k ∧ use_lock (k_km k') = b.
Proof using Hkend.
  intros Hu Hv. unfold kfree_leave.
  rewrite (bind_run _ _ _ _ _ (get_refc_off kend Hkend k v Hu Hv)).
  assert (∃ k1, when (0 <? default 0 (refc_cnt (k_km k) !! frame v)) (decr_refc (V2P v)) k
            = Ok tt k1 ∧ k_mach k1 = k_mach k ∧ use_lock (k_km k1) = false) as (k1 & E & Em & Hu1).
  { unfold when. destruct (0 <? _); [|by exists k].
    eexists. by rewrite (decr_refc_off kend Hkend k v Hu Hv). }
  rewrite (bind_run _ _ _ _ _ E).
  rewrite (bind_run _ _ _ _ _ (get_refc_off kend Hkend k1 v Hu1 Hv)).
  rewrite <- Em. unfold when. destruct (_ =? 0); by eexists.
Qed.

Lemma kalloc_enter_run k p :
  use_lock (k_km k) = false → kabs kend k p →
  ∃ r k', kalloc_enter k = Ok r k' ∧ k_mach k' = k_mach k ∧ use_lock (k_km k') = false.
Proof using Hkend.
  intros Hu Ha. apply wp_Ok. unfold kalloc_enter. apply wp_bind.
  apply (wp_run _ _ _ tt k).
  { unfold klock, mbind, M_bind, gets. by rewrite Hu. }
  pose proof (ka_chain _ _ _ Ha) as Hc. pose proof (ka_pages _ _ _ Ha) as Hp.
  wp_auto. apply wp_when; intros Er.
  - destruct (free p) as [|w l]; simpl in Hc; [by rewrite Hc in Er|].
    destruct Hc as [-> _]. apply Forall_cons in Hp as [Hw _].
    wp_auto. eapply wp_run; [by apply (refc_set_page kend)|]. by wp_auto.
  - by wp_auto.
Qed.

Lemma as_cpu_equiv mc mc' id b k k' :
  mc ≡ mc' → k_mach k = mc → k_mach k' = mc' →
  k_mach (as_cpu id b k) ≡ k_mach (as_cpu id b k').
Proof. intros (_ & _ & Hl & Hc) <- <-. by split_and!. Qed.

(** Two CPUs, one in [kfree] and one in [kalloc]: since [kfree] clears
    the shared flag [kmem.use_lock] while it runs, the other CPU enters
    the allocator without the lock, and when it leaves after [kfree] has
    restored the flag it releases a lock it does not hold and panics. *)
Theorem schedule_panics k p v i0 i1 id0 id1 if0 if1 :
  use_lock (k_km k) = true → kabs kend k p → page_ok kend v →
  cpu_ok (k_mach (as_cpu id0 if0 k)) i0 → cpu_ok (k_mach (as_cpu id1 if1 k)) i1 →
  lock_free (k_mach k) LkKmem →
  schedule id0 id1 if0 if1 v k = Panic "release".
Proof using Hkend.
  intros Hu Ha Hv Hok0 Hok1 Hfree. unfold schedule.
  rewrite (bind_run (modify (as_cpu id0 if0)) _ k tt (as_cpu id0 if0 k) eq_refl).
  set (k0 := as_cpu id0 if0 k) in *.
  (* CPU 0 takes the lock and turns use_lock off. *)
  assert (wp (kfree_enter v) (λ b k1, b = true ∧ ∃ mc,
            mc ≡ acquired i0 LkKmem (k_mach k0) ∧
            k1 = set_mach mc (set_km (set_use_lock false (k_km k)) k)) k0) as H1.
  { unfold kfree_enter. rewrite kfree_guard by done. apply wp_bind.
    apply (klock_wp k0 i0); [done|]. intros mc Hmc. wp_auto.
    change (use_lock (k_km k0)) with (use_lock (k_km k)) in Hmc. rewrite Hu in Hmc.
    split; [done|]. by exists mc. }
  apply wp_Ok in H1 as (b & k1 & E1 & -> & mc & Hmc & ->).
  rewrite (bind_run _ _ _ _ _ E1). clear E1.
  set (k1 := set_mach mc _).
  rewrite (bind_run (gets _) _ k1 (hw_if mc) k1 eq_refl).
  rewrite (bind_run (modify (as_cpu id1 if1)) _ k1 tt (as_cpu id1 if1 k1) eq_refl).
  (* CPU 1 allocates without the lock. *)
  destruct (kalloc_enter_run (as_cpu id1 if1 k1) p) as (r & k3 & E3 & Em3 & Hu3); [done| |].
  { destruct Ha. by split. }
  rewrite (bind_run _ _ _ _ _ E3). clear E3.
  rewrite (bind_run (gets _) _ k3 (hw_if (k_mach k3)) k3 eq_refl).
  rewrite (bind_run (modify (as_cpu id0 (hw_if mc))) _ k3 tt (as_cpu id0 (hw_if mc) k3) eq_refl).
  (* CPU 0 restores use_lock and releases. *)
  destruct (kfree_leave_run v true (as_cpu id0 (hw_if mc) k3)) as (k4 & E4 & Em4 & Hu4);
    [done|done|].
  assert (k_mach k4 = mc) as Ek4.
  { rewrite Em4. unfold as_cpu. simpl. rewrite Em3. unfold as_cpu. simpl.
    destruct Hmc as (Hid & _). destruct mc as [a0 b0 c0 l0]. simpl in *. by rewrite Hid. }
  assert (wp kunlock (λ _ k5, k_mach k5 ≡ k_mach k0 ∧ use_lock (k_km k5) = true) k4) as H5.
  { apply (kunlock_wp k4 (k_mach k0) i0); [done|by rewrite Ek4, Hu4|].
    intros mc5 Hmc5. by split. }
  apply wp_Ok in H5 as ([] & k5 & E5 & Em5 & Hu5).
  rewrite <- E4 in E5. rewrite (bind_run _ _ _ _ _ E5). clear E4 E5.
  rewrite (bind_run (modify (as_cpu id1 (hw_if (k_mach k3)))) _ k5 tt
             (as_cpu id1 (hw_if (k_mach k3)) k5) eq_refl).
  (* CPU 1 sees use_lock on and releases a lock it never took. *)
  rewrite Em3. change (hw_if (k_mach (as_cpu id1 if1 k1))) with if1.
  assert (k_mach (as_cpu id1 if1 k5) ≡ k_mach (as_cpu id1 if1 k)) as E6.
  { etrans; [by eapply (as_cpu_equiv _ _ _ _ k5 k0)|done]. }
  unfold kalloc_leave. apply bind_panic. unfold kunlock.
  rewrite (bind_run (gets _) _ _ true (as_cpu id1 if1 k5)) by (unfold gets; simpl; by rewrite Hu5).
  unfold when, in_mach, zoom.
  rewrite (release_not_held _ i1); [done|by rewrite E6|].
  destruct E6 as (_ & _ & El & _). rewrite El.
  change (lock_of _ LkKmem) with (lock_of (k_mach k) LkKmem). by rewrite Hfree.
Qed.
End race.
End Race.

(** ** Correctness *)

Section correct.
Context (kend : Z) (Hkend : KERNLINK ≤ kend).

(** C13. [kalloc] implements the abstract allocator: it returns the first
    free page and gives it the reference count 1, or returns 0 when no page
    is free; it writes no memory and leaves locks and interrupts as found. *)
Theorem kalloc_refines k i p :
  kready k i → kabs kend k p →
  wp kalloc (λ r k', r = (pool_alloc p).1 ∧ kabs kend k' (pool_alloc p).2 ∧
    k_mem k' = k_mem k ∧ k_mach k' ≡ k_mach k ∧ use_lock (k_km k') = use_lock (k_km k)) k.
Proof using Hkend. intros Hr Ha. eapply (kalloc_wp kend Hkend); [done..|]. intros. by split_and!. Qed.

(** C14. [kfree] implements the abstract allocator: it drops one reference;
    with the last one the page joins the free list and is filled with junk
    (bytes 1 after the link to the next free page) and no other memory
    changes, otherwise memory is untouched.  Any address that is not a page of the
    allocator's range panics. *)
Theorem kfree_refines k i p v :
  kready k i → kabs kend k p → v ∉ free p →
  (page_ok kend v →
   wp (kfree kend v) (λ _ k', kabs kend k' (pool_free v p) ∧
     (1 < refs p v → k_mem k' = k_mem k) ∧
     (refs p v ≤ 1 → ∀ x, v + 4 ≤ x < v + PGSIZE → rd8 (k_mem k') x = 1) ∧
     (∀ x, x < v ∨ v + PGSIZE ≤ x → rd8 (k_mem k') x = rd8 (k_mem k) x) ∧
     k_mach k' ≡ k_mach k ∧ use_lock (k_km k') = use_lock (k_km k)) k) ∧
  (0 ≤ v < 2 ^ 32 → ¬ page_ok kend v → kfree kend v k = Panic "kfree").
Proof using Hkend.
  intros Hr Ha Hnf. split.
  - intros Hv. eapply (kfree_wp kend Hkend); [done..|].
    intros k' Hm Hu Ha' Hs Ho Hj. split_and!; try done. intros x Hx. apply Ho. lia.
  - intros Hrg Hv. unfold kfree. destruct (negb (v mod PGSIZE =? 0) || _ || _) eqn:E; [done|].
    destruct Hv. apply orb_false_iff in E as [[E1 E2]%orb_false_iff E3].
    apply negb_false_iff, Z.eqb_eq in E1. apply Z.ltb_ge in E2. apply Z.leb_gt in E3.
    split; [done|]. split; [done|]. unfold V2P in E3.
    rewrite u32_small in E3 by (unfold KERNLINK, KERNBASE, EXTMEM in *; lia). lia.
Qed.

Lemma PGROUNDUP_page v : kend ≤ KERNBASE + PHYSTOP → v mod PGSIZE = 0 →
  PGROUNDUP kend ≤ v ↔ kend ≤ v.
Proof using Hkend.
  intros Hk Hv. rewrite PGROUNDUP_eq by (unfold KERNLINK, KERNBASE, EXTMEM, PHYSTOP, PGSIZE in *; lia).
  unfold PGSIZE in *. Z.div_mod_to_equations. lia.
Qed.

Lemma range_pages_full lo hi v : lo mod PGSIZE = 0 → hi mod PGSIZE = 0 → lo ≤ hi →
  v ∈ range_pages lo (range_count lo hi) ↔ v mod PGSIZE = 0 ∧ lo ≤ v < hi.
Proof.
  intros Hlo Hhi Hle. rewrite elem_of_range_pages. unfold range_count, PGSIZE in *.
  rewrite Z2Nat.id by (Z.div_mod_to_equations; lia). split.
  - intros (j & Hj & ->). Z.div_mod_to_equations. lia.
  - intros [Hv Hr]. exists ((v - lo) / 4096). Z.div_mod_to_equations. lia.
Qed.

Lemma length_range_pages p n : length (range_pages p n) = n.
Proof. revert p. induction n as [|n IH]; intros p; simpl; [done|]. by rewrite IH. Qed.

Lemma elem_of_rev (v : Z) l : v ∈ rev l ↔ v ∈ l.
Proof. by rewrite !list_elem_of_In, <- in_rev. Qed.

Lemma pool_fill_failed l p : failed (foldl pool_push p l) = failed p.
Proof. revert p. induction l as [|v l IH]; intros p; simpl; [done|]. by rewrite IH. Qed.

(** Boot: [kinit1(end, P2V(4MB))] followed by
    [kinit2(P2V(4MB), P2V(PHYSTOP))], as main.c calls them, puts every page
    between the kernel image and PHYSTOP on the free list exactly once, with
    reference count 0, and [freecnt] is their number. *)
Theorem boot_frees_all k :
  let mid := KERNBASE + 4 * 1024 * 1024 in
  boot_km k → kend ≤ mid →
  wp (kinit1 kend kend mid;; kinit2 kend mid (KERNBASE + PHYSTOP)) (λ _ k', ∃ p,
    kabs kend k' p ∧ NoDup (free p) ∧ (∀ v, v ∈ free p ↔ page_ok kend v) ∧
    (∀ v, page_ok kend v → refs p v = 0) ∧
    freecnt (k_km k') = (KERNBASE + PHYSTOP - PGROUNDUP kend) / PGSIZE ∧
    use_lock (k_km k') = true) k.
Proof using Hkend.
  intros mid Hb Hmid.
  assert (PGROUNDUP mid = mid) as Em by reflexivity.
  assert (mid mod PGSIZE = 0) as Hma by reflexivity.
  assert (PGROUNDUP kend ≤ mid) as Hle by (apply PGROUNDUP_page; unfold mid, PHYSTOP in *; lia || done).
  assert (PGROUNDUP kend mod PGSIZE = 0 ∧ kend ≤ PGROUNDUP kend) as [Hka Hkr].
  { rewrite PGROUNDUP_eq by (unfold mid, KERNLINK, KERNBASE, EXTMEM, PGSIZE in *; lia).
    unfold PGSIZE. Z.div_mod_to_equations. lia. }
  set (r1 := range_pages (PGROUNDUP kend) (range_count (PGROUNDUP kend) mid)).
  set (r2 := range_pages mid (range_count mid (KERNBASE + PHYSTOP))).
  assert (∀ v, v ∈ r1 ↔ v mod PGSIZE = 0 ∧ PGROUNDUP kend ≤ v < mid) as H1.
  { intros v. by apply range_pages_full. }
  assert (∀ v, v ∈ r2 ↔ v mod PGSIZE = 0 ∧ mid ≤ v < KERNBASE + PHYSTOP) as H2.
  { intros v. by apply range_pages_full. }
  wp_auto. eapply (kinit1_wp kend Hkend); [done|done|unfold mid, PHYSTOP; lia|done|].
  intros k1 Hu1 Ha1. fold r1 in Ha1.
  eapply (kinit2_wp kend Hkend k1 0); [intros E; congruence|exact Ha1|done|
    unfold mid, PHYSTOP; lia|rewrite Em; unfold mid, PHYSTOP; lia|..]; rewrite Em; fold r2.
  - intros v Hv Hin. apply H2 in Hv. rewrite pool_fill_free, app_nil_r, elem_of_rev, H1 in Hin. lia.
  - intros k2 Hu2. set (p := foldl pool_push (foldl pool_push (Pool [] ∅ 0) r1) r2). intros Ha2.
    assert (∀ v, v ∈ free p ↔ page_ok kend v) as Hin.
    { intros v. unfold p. rewrite !pool_fill_free, app_nil_r, elem_of_app, !elem_of_rev, H1, H2.
      unfold page_ok. pose proof (PGROUNDUP_page v ltac:(unfold mid, PHYSTOP in *; lia)) as Hp.
      unfold mid, PHYSTOP in *. destruct (decide (v mod PGSIZE = 0)) as [Hv|]; [|tauto].
      specialize (Hp Hv). lia. }
    assert (Z.of_nat (length (free p)) - failed p = (KERNBASE + PHYSTOP - PGROUNDUP kend) / PGSIZE) as Hn.
    { unfold p. rewrite !pool_fill_free, !pool_fill_failed, app_nil_r, length_app, !length_rev.
      unfold r1, r2. rewrite !length_range_pages. unfold range_count. cbn [failed].
      unfold mid, KERNLINK, EXTMEM, KERNBASE, PHYSTOP, PGSIZE in *.
      rewrite Nat2Z.inj_add, !Z2Nat.id by (Z.div_mod_to_equations; lia). Z.div_mod_to_equations; lia. }
    clearbody p r1 r2. exists p. split; [exact Ha2|]. split; [apply Ha2|]. split; [exact Hin|].
    split; [intros v Hv; apply (ka_zero _ _ _ Ha2); by apply Hin|]. split; [|done].
    rewrite (ka_cnt _ _ _ Ha2), Hn. apply u32_small.
    unfold mid, KERNLINK, EXTMEM, KERNBASE, PHYSTOP, PGSIZE in *. Z.div_mod_to_equations; lia.
Qed.

(** [countfp] reports the number of free pages as long as no allocation
    has failed; each failed allocation makes it one too small, because
    [kalloc] decrements [freecnt] even when the list is empty: with no page
    free, one failed [kalloc] makes it report -1. *)
Theorem countfp_value k i p :
  kready k i → kabs kend k p → Z.of_nat (length (free p)) < 2 ^ 31 → 0 ≤ failed p < 2 ^ 31 →
  wp countfp (λ n k', n = Z.of_nat (length (free p)) - failed p ∧ kabs kend k' p) k ∧
  (free p = [] → failed p = 0 → wp (kalloc;; countfp) (λ n _, n = -1) k).
Proof using Hkend.
  assert (∀ k i p, kready k i → kabs kend k p → Z.of_nat (length (free p)) < 2 ^ 31 →
    0 ≤ failed p < 2 ^ 31 →
    wp countfp (λ n k', n = Z.of_nat (length (free p)) - failed p ∧ kabs kend k' p) k) as Hc.
  { clear k i p. intros k i p Hr Ha Hlen Hf. unfold countfp. wp_auto.
    eapply (klock_wp k i); [done|]. intros mc Hmc. wp_auto.
    eapply (kunlock_wp _ (k_mach k) i); [exact Hr|exact Hmc|]. intros mc' Hmc'. wp_auto. split.
    - cbn [k_km set_mach]. rewrite (ka_cnt _ _ _ Ha), i32_u32. by rewrite i32_small by lia.
    - destruct Ha. by split. }
  intros Hr Ha Hlen Hf. split; [by eapply Hc|]. intros He Hf0. apply wp_bind.
  eapply (kalloc_wp kend Hkend); [done..|]. intros k' Hm Hmem Hu Ha'.
  unfold pool_alloc in Ha'. rewrite He, Hf0 in Ha'.
  assert (kready k' i) as Hr' by by apply (kready_equiv k).
  eapply wp_mono; [apply (Hc k' i _ Hr' Ha'); simpl; lia|].
  by intros n k'' [-> _].
Qed.
End correct.

(** A small concrete machine: two CPUs, one free page and one page with two
    references. *)
Definition demo_page1 : Z := 0x80200000.
Definition demo_page2 : Z := 0x80201000.
Definition demo_pool : pool := Pool [demo_page1] {[ frame demo_page2 := 2 ]} 0.
Definition demo_kst : kst :=
  Kst boot_mach ∅ (Kmem true demo_page1 1 {[ frame demo_page2 := 2 ]}).

Lemma demo_ready : kready demo_kst 0.
Proof. intros _. split; [|done]. split; [done|]. eexists. by split_and!. Qed.

Lemma demo_kabs : kabs KERNLINK demo_kst demo_pool.
Proof.
  split.
  - split; reflexivity.
  - apply Forall_singleton. by vm_compute.
  - apply NoDup_singleton.
  - intros v ->%list_elem_of_singleton. reflexivity.
  - done.
  - intros i. simpl. destruct (decide (i = frame demo_page2)) as [->|].
    + rewrite lookup_singleton_eq. simpl. lia.
    + rewrite lookup_singleton_ne by done. simpl. lia.
  - reflexivity.
Qed.

Lemma kalloc_refines_witness : wp kalloc (λ r _, r = demo_page1) demo_kst.
Proof.
  eapply wp_mono; [apply (kalloc_refines KERNLINK ltac:(done) demo_kst 0 demo_pool demo_ready demo_kabs)|].
  by intros r k' [-> _].
Defined.

Lemma kfree_refines_witness :
  wp (kfree KERNLINK demo_page2) (λ _ k', kabs KERNLINK k' (pool_free demo_page2 demo_pool)) demo_kst ∧
  kfree KERNLINK 12 demo_kst = Panic "kfree".
Proof.
  split.
  - eapply wp_mono.
    + apply (kfree_refines KERNLINK ltac:(done) demo_kst 0 demo_pool demo_page2 demo_ready demo_kabs).
      * intros Hin%list_elem_of_singleton. discriminate Hin.
      * by vm_compute.
    + by intros [] k' [H _].
  - apply (kfree_refines KERNLINK ltac:(done) demo_kst 0 demo_pool 12 demo_ready demo_kabs).
    + intros Hin%list_elem_of_singleton. discriminate Hin.
    + lia.
    + intros [H _]. by vm_compute in H.
Defined.

Lemma boot_frees_all_witness :
  let k := Kst boot_mach ∅ (Kmem false 0 0 ∅) in
  boot_km k ∧
  wp (kinit1 KERNLINK KERNLINK (KERNBASE + 4 * 1024 * 1024);;
      kinit2 KERNLINK (KERNBASE + 4 * 1024 * 1024) (KERNBASE + PHYSTOP))
    (λ _ k', freecnt (k_km k') = 57088) k.
Proof.
  intros k. assert (boot_km k) as Hb by (split; [done|intros j; unfold k; cbn; by rewrite (lookup_empty j)]).
  split; [exact Hb|]. eapply wp_mono; [apply (boot_frees_all KERNLINK ltac:(done) k Hb ltac:(done))|].
  intros [] k' (p & _ & _ & _ & _ & -> & _). reflexivity.
Defined.

Lemma countfp_value_witness : wp countfp (λ n _, n = 1) demo_kst.
Proof.
  destruct (countfp_value KERNLINK ltac:(done) demo_kst 0 demo_pool demo_ready demo_kabs) as [H _].
  - done.
  - done.
  - eapply wp_mono; [exact H|]. by intros n k' [-> _].
Defined.

Lemma schedule_panics_witness :
  Race.schedule KERNLINK 0 1 true true demo_page2 demo_kst = Panic "release".
Proof.
  apply (Race.schedule_panics KERNLINK ltac:(done) demo_kst demo_pool demo_page2 0 1 0 1 true true).
  - done.
  - exact demo_kabs.
  - by vm_compute.
  - split; [done|]. eexists. by split_and!.
  - split; [done|]. eexists. by split_and!.
  - done.
Defined.
