(* ===== verification/Vm.v ===== *)
(** vm.c: two-level page tables in memory, the kernel part of every address
    space, growing and shrinking user memory, copy-on-write [copyuvm] and the
    page-fault handler [CoW_handler], and the page counters of proc.c.

    A pointer to a page directory or a page table is its kernel address and
    is dereferenced in [k_mem].  Console messages are not modelled. *)

From S2P Require Import Prelude Memory Kstring Spinlock Mmu Kalloc.

(** The allocator and memory, the %cr3 register and [kpgdir]. *)
Record vst := Vst {
  v_k : kst;
  v_cr3 : Z;
  v_kpgdir : Z;
}.

Definition set_k (k : kst) (v : vst) : vst := Vst k (v_cr3 v) (v_kpgdir v).
Definition in_k {A} (m : M kst A) : M vst A := zoom v_k set_k m.

(** x86.h [lcr3]. *)
Definition lcr3 (val : Z) : M vst () := modify (λ v, Vst (v_k v) val (v_kpgdir v)).

Section vm.
(** [end] and [data] of kernel.ld. *)
Context (kend data : Z).

Definition load32 (a : Z) : M kst Z := gets (λ k, rd32 (k_mem k) a).
Definition store32 (a v : Z) : M kst () := mod_mem (λ m, wr32 m a v).

(** The address of the PTE for [va], 0 when there is none. *)
Definition walkpgdir (pgdir va : Z) (alloc : bool) : M kst Z :=
  let pde := pgdir + 4 * PDX va in
  e ← load32 pde;
  if flag_set e PTE_P then mret (P2V (PTE_ADDR e) + 4 * PTX va)
  else if negb alloc then mret 0 else
    pgtab ← kalloc;
    if pgtab =? 0 then mret 0 else
    mod_mem (λ m, memset m pgtab 0 PGSIZE);;
    store32 pde (Z.lor (Z.lor (Z.lor (V2P pgtab) PTE_P) PTE_W) PTE_U);;
    mret (pgtab + 4 * PTX va).

(** The loop of [mappages], one page per iteration. *)
Fixpoint mappages_loop (pgdir a last pa perm : Z) (fuel : nat) : M kst Z :=
  match fuel with
  | O => fault "mappages fuel"
  | S fuel' =>
      pte ← walkpgdir pgdir a true;
      if pte =? 0 then mret (-1) else
      e ← load32 pte;
      if flag_set e PTE_P then panic "remap" else
      store32 pte (Z.lor (Z.lor pa perm) PTE_P);;
      if a =? last then mret 0
      else mappages_loop pgdir (u32 (a + PGSIZE)) last (u32 (pa + PGSIZE)) perm fuel'
  end.

Definition mappages (pgdir va size pa perm : Z) : M kst Z :=
  let a := PGROUNDDOWN va in
  let last := PGROUNDDOWN (u32 (va + size - 1)) in
  mappages_loop pgdir a last pa perm (S (Z.to_nat (u32 (last - a) / PGSIZE))).

Record kmap_entry := Kmap { virt : Z; phys_start : Z; phys_end : Z; perm : Z }.

Definition kmap : list kmap_entry :=
  [ Kmap KERNBASE 0 EXTMEM PTE_W;
    Kmap KERNLINK (V2P KERNLINK) (V2P data) 0;
    Kmap data (V2P data) PHYSTOP PTE_W;
    Kmap DEVSPACE DEVSPACE 0 PTE_W ].

(** [for(; a < oldsz; a += PGSIZE)] of [deallocuvm]. *)
Fixpoint deallocuvm_loop (pgdir a oldsz : Z) (fuel : nat) : M kst () :=
  if negb (a <? oldsz) then mret tt else
  match fuel with
  | O => fault "deallocuvm fuel"
  | S fuel' =>
      pte ← walkpgdir pgdir a false;
      if pte =? 0 then
        deallocuvm_loop pgdir (u32 (u32 (PGADDR (PDX a + 1) 0 0 - PGSIZE) + PGSIZE)) oldsz fuel'
      else
        e ← load32 pte;
        (if flag_set e PTE_P then
           let pa := PTE_ADDR e in
           if pa =? 0 then panic "kfree" else
           kfree kend (P2V pa);;
           store32 pte 0
         else mret tt);;
        deallocuvm_loop pgdir (u32 (a + PGSIZE)) oldsz fuel'
  end.

Definition deallocuvm (pgdir oldsz newsz : Z) : M kst Z :=
  if oldsz <=? newsz then mret oldsz else
  let a := PGROUNDUP newsz in
  deallocuvm_loop pgdir a oldsz (Z.to_nat ((oldsz - a) / PGSIZE + 1));;
  mret newsz.

(** [for(i = 0; i < NPDENTRIES; i++)] of [freevm], from [i]. *)
Fixpoint freevm_loop (pgdir i : Z) (n : nat) : M kst () :=
  match n with
  | O => mret tt
  | S n' =>
      e ← load32 (pgdir + 4 * i);
      when (flag_set e PTE_P) (kfree kend (P2V (PTE_ADDR e)));;
      freevm_loop pgdir (i + 1) n'
  end.

Definition freevm (pgdir : Z) : M kst () :=
  if pgdir =? 0 then panic "freevm: no pgdir" else
  deallocuvm pgdir KERNBASE 0;;
  freevm_loop pgdir 0 (Z.to_nat NPDENTRIES);;
  kfree kend pgdir.

Fixpoint setupkvm_loop (pgdir : Z) (ks : list kmap_entry) : M kst Z :=
  match ks with
  | [] => mret pgdir
  | k :: ks' =>
      r ← mappages pgdir (virt k) (u32 (phys_end k - phys_start k)) (phys_start k) (perm k);
      if r <? 0 then freevm pgdir;; mret 0 else setupkvm_loop pgdir ks'
  end.

Definition setupkvm : M kst Z :=
  pgdir ← kalloc;
  if pgdir =? 0 then mret 0 else
  mod_mem (λ m, memset m pgdir 0 PGSIZE);;
  if DEVSPACE <? P2V PHYSTOP then panic "PHYSTOP too high" else
  setupkvm_loop pgdir kmap.

Definition switchkvm : M vst () :=
  d ← gets v_kpgdir;
  lcr3 (V2P d).

Definition kvmalloc : M vst () :=
  d ← in_k setupkvm;
  modify (λ v, Vst (v_k v) (v_cr3 v) d);;
  switchkvm.

(** [init] is the kernel address of the boot program's bytes. *)
Definition inituvm (pgdir init sz : Z) : M kst () :=
  if PGSIZE <=? sz then panic "inituvm: more than a page" else
  mem ← kalloc;
  mod_mem (λ m, memset m mem 0 PGSIZE);;
  _ ← mappages pgdir 0 PGSIZE (V2P mem) (Z.lor PTE_W PTE_U);
  mod_mem (λ m, memmove m mem init sz).

(** [for(; a < newsz; a += PGSIZE)] of [allocuvm]. *)
Fixpoint allocuvm_loop (pgdir a oldsz newsz : Z) (fuel : nat) : M kst Z :=
  if negb (a <? newsz) then mret newsz else
  match fuel with
  | O => fault "allocuvm fuel"
  | S fuel' =>
      mem ← kalloc;
      if mem =? 0 then
        deallocuvm pgdir newsz oldsz;;
        mret 0
      else
      mod_mem (λ m, memset m mem 0 PGSIZE);;
      r ← mappages pgdir a PGSIZE (V2P mem) (Z.lor PTE_W PTE_U);
      if r <? 0 then
        deallocuvm pgdir newsz oldsz;;
        kfree kend mem;;
        mret 0
      else allocuvm_loop pgdir (u32 (a + PGSIZE)) oldsz newsz fuel'
  end.

Definition allocuvm (pgdir oldsz newsz : Z) : M kst Z :=
  if KERNBASE <=? newsz then mret 0 else
  if newsz <? oldsz then mret oldsz else
  let a := PGROUNDUP oldsz in
  allocuvm_loop pgdir a oldsz newsz (Z.to_nat ((newsz - a) / PGSIZE + 1)).

Definition clearpteu (pgdir uva : Z) : M kst () :=
  pte ← walkpgdir pgdir uva false;
  if pte =? 0 then panic "clearpteu" else
  e ← load32 pte;
  store32 pte (Z.land e (Z.lnot PTE_U)).

(** [for(i = 0; i < sz; i += PGSIZE)] of [copyuvm]; [false] is [goto bad]. *)
Fixpoint copyuvm_loop (pgdir d i sz : Z) (fuel : nat) : M kst bool :=
  if negb (i <? sz) then mret true else
  match fuel with
  | O => fault "copyuvm fuel"
  | S fuel' =>
      pte ← walkpgdir pgdir i false;
      if pte =? 0 then panic "copyuvm: pte should exist" else
      e ← load32 pte;
      if negb (flag_set e PTE_P) then panic "copyuvm: page not present" else
      store32 pte (Z.land e (Z.lnot PTE_W));;
      e ← load32 pte;
      let pa := PTE_ADDR e in
      let flags := PTE_FLAGS e in
      r ← mappages d i PGSIZE pa flags;
      if r <? 0 then mret false else
      incr_refc pa;;
      copyuvm_loop pgdir d (u32 (i + PGSIZE)) sz fuel'
  end.

Definition copyuvm (pgdir sz : Z) : M vst Z :=
  d ← in_k setupkvm;
  if d =? 0 then mret 0 else
  ok ← in_k (copyuvm_loop pgdir d 0 sz (Z.to_nat (sz / PGSIZE + 1)));
  if (ok : bool) then lcr3 (V2P pgdir);; mret d
  else in_k (freevm d);; mret 0.

(** The kernel address of a user page; a missing page table is a null
    dereference. *)
Definition uva2ka (pgdir uva : Z) : M kst Z :=
  pte ← walkpgdir pgdir uva false;
  if pte =? 0 then fault "uva2ka: null pte" else
  e ← load32 pte;
  if negb (flag_set e PTE_P) then mret 0 else
  if negb (flag_set e PTE_U) then mret 0 else
  mret (P2V (PTE_ADDR e)).

(** What became of the faulting process. *)
Inductive cow_result := CowDone | CowExit.

(** [va] is %cr2 and [pgdir] is [myproc()->pgdir]. *)
Definition CoW_handler (pgdir va : Z) : M vst cow_result :=
  pte ← in_k (walkpgdir pgdir va false);
  e ← (if pte =? 0 then mret 0 else in_k (load32 pte));
  if (pte =? 0) || negb (flag_set e PTE_P) then mret CowExit else
  let pa := PTE_ADDR e in
  r ← in_k (get_refc pa);
  (if 1 <? r then
     mem ← in_k kalloc;
     if mem =? 0 then panic "pagefault: kalloc failed" else
     in_k (mod_mem (λ m, memmove m mem (P2V pa) PGSIZE));;
     in_k (store32 pte (Z.lor (Z.lor (Z.lor (V2P mem) PTE_P) PTE_W) PTE_U));;
     in_k (decr_refc pa)
   else in_k (store32 pte (Z.lor e PTE_W)));;
  lcr3 (V2P pgdir);;
  mret CowDone.

(** ** proc.c: page counts of the current process *)

Definition countvp (sz : Z) : Z := Z.shiftr sz PGSHIFT.

(** The inner loop of [countpp] over one page table: the running count,
    and whether [va >= sz] returned early. *)
Fixpoint countpp_tab (m : memory) (tab sz i j ret : Z) (n : nat) : bool * Z :=
  match n with
  | O => (false, ret)
  | S n' =>
      let va := u32 ((i * NPDENTRIES + j) * PGSIZE) in
      if sz <=? va then (true, ret)
      else countpp_tab m tab sz i (j + 1)
             (if flag_set (rd32 m (tab + 4 * j)) PTE_P then ret + 1 else ret) n'
  end.

Fixpoint countpp_loop (m : memory) (pgdir sz i ret : Z) (n : nat) : Z :=
  match n with
  | O => ret
  | S n' =>
      let e := rd32 m (pgdir + 4 * i) in
      if flag_set e PTE_P then
        match countpp_tab m (P2V (PTE_ADDR e)) sz i 0 ret (Z.to_nat NPTENTRIES) with
        | (true, ret) => ret
        | (false, ret) => countpp_loop m pgdir sz (i + 1) ret n'
        end
      else countpp_loop m pgdir sz (i + 1) ret n'
  end.

Definition countpp (pgdir sz : Z) : M kst Z :=
  if pgdir =? 0 then mret 0 else
  gets (λ k, countpp_loop (k_mem k) pgdir sz 0 0 (Z.to_nat NPDENTRIES)).

Fixpoint countptp_loop (m : memory) (pgdir i ret : Z) (n : nat) : Z :=
  match n with
  | O => ret
  | S n' =>
      countptp_loop m pgdir (i + 1)
        (if flag_set (rd32 m (pgdir + 4 * i)) PTE_P then ret + 1 else ret) n'
  end.

Definition countptp (pgdir : Z) : M kst Z :=
  if pgdir =? 0 then mret 0 else
  gets (λ k, countptp_loop (k_mem k) pgdir 0 1 (Z.to_nat NPDENTRIES)).
End vm.
