(* ===== verification/VmInv.v ===== *)
(** The invariant of the memory system.  Every reference count that kalloc.c
    keeps is the number of references that exist: one for each page-table
    page, one for each user mapping in any address space, and those that
    kernel code holds.  No page is shared writable. *)

From S2P Require Import Prelude Memory Kstring Spinlock Mmu Kalloc Vm.

(** ** Reading a page table *)

(** The page table that entry [i] of directory [d] points to. *)
Definition pgtab (m : memory) (d i : Z) : option Z :=
  let e := rd32 m (d + 4 * i) in
  if flag_set e PTE_P then Some (P2V (PTE_ADDR e)) else None.

(** The entry for [va], 0 where there is no page table. *)
Definition pte (m : memory) (d va : Z) : Z :=
  match pgtab m d (PDX va) with
  | Some t => rd32 m (t + 4 * PTX va)
  | None => 0
  end.

(** The kernel address of the page an entry maps. *)
Definition upage (e : Z) : Z := P2V (PTE_ADDR e).

(** The pages a directory consists of: itself and its page tables. *)
Definition tabat (m : memory) (d : Z) (s : option Z) : option Z :=
  match s with None => Some d | Some i => pgtab m d i end.

Definition slots : list (option Z) := None :: (Some <$> seqZ 0 1024).

(** The user pages of an address space, by number. *)
Definition upages : list Z := seqZ 0 (KERNBASE / PGSIZE).

Definition entry_maps (e v : Z) : bool := flag_set e PTE_P && (upage e =? v).

(** How often page [v] is a page-table page, and a user page, of [ds]. *)
Definition tabs (m : memory) (ds : list Z) (v : Z) : Z :=
  count (λ x, bool_decide (tabat m x.1 x.2 = Some v)) (pairs ds slots).
Definition users (m : memory) (ds : list Z) (v : Z) : Z :=
  count (λ x, entry_maps (pte m x.1 (x.2 * PGSIZE)) v) (pairs ds upages).

Arguments tabs : simpl never.
Arguments users : simpl never.
Arguments pgtab : simpl never.
Arguments pte : simpl never.
Arguments upage : simpl never.
Arguments entry_maps : simpl never.

Lemma elem_of_slots s : s ∈ slots ↔ match s with None => True | Some i => 0 ≤ i < 1024 end.
Proof.
  unfold slots. rewrite elem_of_cons. destruct s as [i|].
  - rewrite list_elem_of_fmap. split.
    + intros [E|(j & E & Hj)]; [congruence|]. injection E as ->. apply elem_of_seqZ in Hj. lia.
    + intros Hi. right. exists i. rewrite elem_of_seqZ. split; [reflexivity|lia].
  - tauto.
Qed.

Lemma elem_of_upages n : n ∈ upages ↔ 0 ≤ n * PGSIZE < KERNBASE.
Proof.
  unfold upages. rewrite elem_of_seqZ.
  change (0 + KERNBASE / PGSIZE) with 524288. unfold PGSIZE, KERNBASE. lia.
Qed.

Lemma NoDup_slots : NoDup slots.
Proof.
  unfold slots. apply NoDup_cons. split.
  - intros (? & ? & _)%list_elem_of_fmap. congruence.
  - apply NoDup_fmap; [apply _|]. apply NoDup_seqZ.
Qed.

Lemma NoDup_upages : NoDup upages.
Proof. apply NoDup_seqZ. Qed.

Lemma length_upages : Z.of_nat (length upages) = KERNBASE / PGSIZE.
Proof.
  unfold upages. generalize (KERNBASE / PGSIZE) as n, (eq_refl : 0 <=? KERNBASE / PGSIZE = true).
  intros n Hn%Z.leb_le. rewrite length_seqZ. by apply Z2Nat.id.
Qed.

#[global] Opaque slots upages.

Lemma tabs_nonneg m ds v : 0 ≤ tabs m ds v.
Proof. apply count_nonneg. Qed.
Lemma users_nonneg m ds v : 0 ≤ users m ds v.
Proof. apply count_nonneg. Qed.

Lemma pte_range m d va : 0 ≤ pte m d va < 2 ^ 32.
Proof. unfold pte. destruct (pgtab _ _ _); [apply rd32_range|lia]. Qed.

(** An entry depends on its page only. *)
Lemma pte_page m d va : 0 ≤ va < 2 ^ 32 → pte m d va = pte m d (va / PGSIZE * PGSIZE).
Proof.
  intros Hva. unfold PGSIZE.
  assert (PDX va = PDX (va / 4096 * 4096)) as E1.
  { rewrite !PDX_eq by (Z.div_mod_to_equations; lia). Z.div_mod_to_equations. lia. }
  assert (PTX va = PTX (va / 4096 * 4096)) as E2.
  { rewrite !PTX_eq. by rewrite Z.div_mul. }
  unfold pte. by rewrite E1, E2.
Qed.

(** The memory that makes up the tables of [ds] is the same in [m] and [m']. *)
Definition tables_agree (m m' : memory) (ds : list Z) : Prop :=
  ∀ d s t, d ∈ ds → s ∈ slots → tabat m d s = Some t → agree_on m' m t PGSIZE.

Section tables_agree.
Context (m m' : memory) (ds : list Z) (Hag : tables_agree m m' ds).

Lemma pgtab_agree d i : d ∈ ds → 0 ≤ i < 1024 → pgtab m' d i = pgtab m d i.
Proof using Hag.
  intros Hd Hi. unfold pgtab. rewrite (rd32_agree m' m); [done|].
  eapply agree_on_sub; [apply (Hag d None d Hd); [by apply elem_of_slots|done]|..];
    unfold PGSIZE; lia.
Qed.

Lemma tabat_agree d s : d ∈ ds → s ∈ slots → tabat m' d s = tabat m d s.
Proof using Hag.
  intros Hd Hs. destruct s as [i|]; [|done]. apply pgtab_agree; [done|].
  by apply elem_of_slots in Hs.
Qed.

Lemma pte_agree d va : d ∈ ds → pte m' d va = pte m d va.
Proof using Hag.
  intros Hd. unfold pte. rewrite pgtab_agree by (done || apply PDX_range).
  destruct (pgtab m d (PDX va)) as [t|] eqn:E; [|done]. apply rd32_agree.
  eapply agree_on_sub; [apply (Hag d (Some (PDX va)) t Hd); [|done]|..].
  - apply elem_of_slots, PDX_range.
  - pose proof (PTX_range va). lia.
  - pose proof (PTX_range va). unfold PGSIZE. lia.
Qed.

Lemma tabs_agree v : tabs m' ds v = tabs m ds v.
Proof using Hag.
  apply count_ext. intros [d s] [Hd Hs]%elem_of_pairs. simpl. by rewrite tabat_agree.
Qed.

Lemma users_agree v : users m' ds v = users m ds v.
Proof using Hag.
  apply count_ext. intros [d n] [Hd Hn]%elem_of_pairs. simpl. by rewrite pte_agree.
Qed.
End tables_agree.

(** ** The invariant *)

(** CPU and lock state is as before. *)
Definition kframe (k k' : kst) : Prop :=
  k_mach k' ≡ k_mach k ∧ use_lock (k_km k') = use_lock (k_km k).

#[global] Instance kframe_refl : Reflexive kframe.
Proof. by split. Qed.
#[global] Instance kframe_trans : Transitive kframe.
Proof. intros k1 k2 k3 [H1 E1] [H2 E2]. split; [by rewrite H2|congruence]. Qed.

Lemma kready_frame k k' i : kframe k k' → kready k i → kready k' i.
Proof. intros [H1 H2]. by apply kready_equiv. Qed.

Section inv.
Context (kend : Z) (Hkend : KERNLINK ≤ kend).
Implicit Types (k : kst) (p : pool) (ds : list Z) (kref : Z → Z).

(** [ds] are the page directories in use; [kref v] is the number of
    references to [v] that kernel code holds. *)
Record vinv k p ds kref : Prop := {
  vi_abs : kabs kend k p;
  vi_nodup : NoDup ds;
  vi_tab : ∀ d s t, d ∈ ds → s ∈ slots → tabat (k_mem k) d s = Some t → page_ok kend t;
  vi_user : ∀ d va, d ∈ ds → 0 ≤ va < KERNBASE →
    flag_set (pte (k_mem k) d va) PTE_P = true → page_ok kend (upage (pte (k_mem k) d va));
  vi_rc : ∀ v, page_ok kend v → refs p v = kref v + tabs (k_mem k) ds v + users (k_mem k) ds v;
  vi_uniq : ∀ v, page_ok kend v → 0 < tabs (k_mem k) ds v →
    refs p v = 1 ∧ tabs (k_mem k) ds v = 1 ∧ users (k_mem k) ds v = 0;
  vi_excl : ∀ d va, d ∈ ds → 0 ≤ va < KERNBASE →
    flag_set (pte (k_mem k) d va) PTE_P = true → flag_set (pte (k_mem k) d va) PTE_W = true →
    refs p (upage (pte (k_mem k) d va)) ≤ 1;
  vi_full : ∀ v, page_ok kend v → refs p v = 0 → v ∈ free p;
}.

(** Page [v] is in use for data, by a process or by the kernel. *)
Definition live m ds kref v : Prop := 0 < kref v + users m ds v.

(** No count of the kernel's references is negative.  ([copyuvm] maps a
    page before it takes the reference, so this is not part of [vinv].) *)
Definition kpos kref : Prop := ∀ v, 0 ≤ kref v.

(** One more, or one fewer, reference in the kernel's hands. *)
Definition hold (v : Z) kref : Z → Z := λ w, kref w + (if v =? w then 1 else 0).
Definition drop (v : Z) kref : Z → Z := λ w, kref w - (if v =? w then 1 else 0).

(** A step that changes neither an entry nor the contents of a live page. *)
Record vstep ds kref k k' : Prop := {
  vs_frame : kframe k k';
  vs_pte : ∀ d va, d ∈ ds → 0 ≤ va < 2 ^ 32 → pte (k_mem k') d va = pte (k_mem k) d va;
  vs_data : ∀ v, page_ok kend v → live (k_mem k) ds kref v →
    agree_on (k_mem k') (k_mem k) v PGSIZE;
}.

Lemma kpos_hold v kref : kpos kref → kpos (hold v kref).
Proof. intros H w. specialize (H w). unfold hold. destruct (v =? w); lia. Qed.

Lemma tabs_pos m ds d s t : d ∈ ds → s ∈ slots → tabat m d s = Some t → 0 < tabs m ds t.
Proof.
  intros Hd Hs Ht. apply (count_pos _ _ (d, s)); [by apply elem_of_pairs|].
  simpl. by apply bool_decide_eq_true.
Qed.

Lemma users_pos m ds d va v :
  d ∈ ds → 0 ≤ va < KERNBASE → entry_maps (pte m d va) v = true → 0 < users m ds v.
Proof.
  intros Hd Hva Hm. apply (count_pos _ _ (d, va / PGSIZE)).
  - apply elem_of_pairs. split; [done|]. apply elem_of_upages.
    unfold PGSIZE, KERNBASE in *. Z.div_mod_to_equations. lia.
  - cbn [fst snd]. rewrite <- pte_page by (unfold KERNBASE in *; lia). done.
Qed.

Lemma users_two m ds d va d' vb v :
  d ∈ ds → 0 ≤ va < KERNBASE → entry_maps (pte m d va) v = true →
  d' ∈ ds → 0 ≤ vb < KERNBASE → entry_maps (pte m d' vb) v = true →
  ¬ (d' = d ∧ vb / PGSIZE = va / PGSIZE) → 2 ≤ users m ds v.
Proof.
  intros Hd Hva Hm Hd' Hvb Hm' Hne.
  assert (∀ x, 0 ≤ x < KERNBASE → x / PGSIZE ∈ upages) as Hin.
  { intros x Hx. apply elem_of_upages. unfold PGSIZE, KERNBASE in *. Z.div_mod_to_equations. lia. }
  apply (count_two _ _ (d, va / PGSIZE) (d', vb / PGSIZE)); cbn [fst snd].
  - apply elem_of_pairs; auto.
  - apply elem_of_pairs; auto.
  - intros [= -> E]. by apply Hne.
  - by rewrite <- pte_page by (unfold KERNBASE in *; lia).
  - by rewrite <- pte_page by (unfold KERNBASE in *; lia).
Qed.

Lemma users_same m m' ds v :
  (∀ d va, d ∈ ds → 0 ≤ va < KERNBASE → pte m' d va = pte m d va) →
  users m' ds v = users m ds v.
Proof.
  intros H. apply count_ext. intros [d n] [Hd Hn]%elem_of_pairs. cbn [fst snd].
  apply elem_of_upages in Hn. by rewrite H.
Qed.

Lemma vstep_users ds kref k k' v :
  vstep ds kref k k' → users (k_mem k') ds v = users (k_mem k) ds v.
Proof.
  intros S. apply users_same. intros. apply (vs_pte _ _ _ _ S); [done|unfold KERNBASE in *; lia].
Qed.

#[global] Instance vstep_refl ds kref : Reflexive (vstep ds kref).
Proof. intros k. split; [done|done|]. intros. apply agree_on_refl. Qed.

#[global] Instance vstep_trans ds kref : Transitive (vstep ds kref).
Proof.
  intros k1 k2 k3 S1 S2. split.
  - etrans; [apply S1|apply S2].
  - intros. rewrite (vs_pte _ _ _ _ S2) by done. by apply (vs_pte _ _ _ _ S1).
  - intros v Hv Hl. eapply agree_on_trans; [|by apply S1].
    apply S2; [done|]. unfold live in *. by rewrite (vstep_users _ _ _ _ _ S1).
Qed.

Lemma entry_maps_upage e : flag_set e PTE_P = true → entry_maps e (upage e) = true.
Proof. intros H. unfold entry_maps. by rewrite H, Z.eqb_refl. Qed.

Section facts.
Context k p ds kref (I : vinv k p ds kref).

(** A table page is the table of exactly one slot, and nothing else. *)
Lemma tab_page_unique d s d' s' t :
  d ∈ ds → s ∈ slots → tabat (k_mem k) d s = Some t →
  d' ∈ ds → s' ∈ slots → tabat (k_mem k) d' s' = Some t → d = d' ∧ s = s'.
Proof using I.
  intros Hd Hs Ht Hd' Hs' Ht'.
  destruct (decide ((d, s) = (d', s'))) as [[=]|Hne]; [done|].
  pose proof (vi_tab _ _ _ _ I d s t Hd Hs Ht) as Hok.
  destruct (vi_uniq _ _ _ _ I t Hok (tabs_pos _ _ _ _ _ Hd Hs Ht)) as (_ & H1 & _).
  assert (2 ≤ tabs (k_mem k) ds t); [|lia].
  apply (count_two _ _ (d, s) (d', s')); try done; try (by apply elem_of_pairs);
    by apply bool_decide_eq_true.
Qed.

Lemma live_not_tab v : page_ok kend v → live (k_mem k) ds kref v →
  tabs (k_mem k) ds v = 0 ∧ 0 < refs p v.
Proof using I.
  intros Hok Hl. unfold live in Hl. pose proof (vi_rc _ _ _ _ I v Hok).
  pose proof (vi_uniq _ _ _ _ I v Hok). pose proof (tabs_nonneg (k_mem k) ds v). lia.
Qed.

Lemma users_not_tab v : page_ok kend v → 0 < users (k_mem k) ds v → tabs (k_mem k) ds v = 0.
Proof using I.
  intros Hok Hl. pose proof (vi_uniq _ _ _ _ I v Hok).
  pose proof (tabs_nonneg (k_mem k) ds v). lia.
Qed.

Lemma refs_not_free v : 0 < refs p v → v ∉ free p.
Proof using I.
  intros H Hin. pose proof (ka_zero _ _ _ (vi_abs _ _ _ _ I) v Hin). lia.
Qed.

Lemma tab_not_free d s t : d ∈ ds → s ∈ slots → tabat (k_mem k) d s = Some t → t ∉ free p.
Proof using I.
  intros Hd Hs Ht. apply refs_not_free.
  pose proof (vi_uniq _ _ _ _ I t (vi_tab _ _ _ _ I d s t Hd Hs Ht)
                (tabs_pos _ _ _ _ _ Hd Hs Ht)). lia.
Qed.

Lemma free_ok v : v ∈ free p → page_ok kend v.
Proof using I.
  pose proof (ka_pages _ _ _ (vi_abs _ _ _ _ I)) as H. rewrite Forall_forall in H. auto.
Qed.

(** Free pages are not referenced. *)
Lemma free_unref v : kpos kref → v ∈ free p →
  kref v = 0 ∧ tabs (k_mem k) ds v = 0 ∧ users (k_mem k) ds v = 0.
Proof using I.
  intros Hpos Hv. pose proof (free_ok v Hv) as Hok.
  pose proof (ka_zero _ _ _ (vi_abs _ _ _ _ I) v Hv) as H0.
  pose proof (vi_rc _ _ _ _ I v Hok). pose proof (Hpos v).
  pose proof (users_nonneg (k_mem k) ds v). pose proof (tabs_nonneg (k_mem k) ds v). lia.
Qed.

(** A change of memory inside one page that is not a table. *)
Lemma tables_agree_off m' v :
  page_ok kend v → tabs (k_mem k) ds v = 0 →
  (∀ x, ¬ (v ≤ x < v + PGSIZE) → rd8 m' x = rd8 (k_mem k) x) →
  tables_agree (k_mem k) m' ds.
Proof using I.
  intros Hv H0 Hm d s t Hd Hs Ht x Hx. apply Hm.
  assert (v ≠ t).
  { intros ->. pose proof (tabs_pos _ _ _ _ _ Hd Hs Ht). lia. }
  pose proof (vi_tab _ _ _ _ I d s t Hd Hs Ht) as [Hal _].
  destruct (page_disjoint v t); try done; [apply Hv|lia|lia].
Qed.
End facts.

(** ** Changes that leave the tables alone *)

Lemma vinv_change k p ds kref k' p' kref' :
  vinv k p ds kref → kabs kend k' p' →
  tables_agree (k_mem k) (k_mem k') ds →
  (∀ v, page_ok kend v → refs p' v - refs p v = kref' v - kref v) →
  (∀ v, page_ok kend v → 0 < tabs (k_mem k) ds v → refs p' v = refs p v) →
  (∀ d va, d ∈ ds → 0 ≤ va < KERNBASE →
     let e := pte (k_mem k) d va in
     flag_set e PTE_P = true → flag_set e PTE_W = true → refs p (upage e) ≤ 1 →
     refs p' (upage e) ≤ 1) →
  (∀ v, page_ok kend v → refs p' v = 0 → v ∈ free p') →
  vinv k' p' ds kref'.
Proof.
  intros I Ha Hag Hrc Htab Hex Hfull. split; try done.
  - apply I.
  - intros d s t Hd Hs. rewrite (tabat_agree _ _ _ Hag) by done. by apply (vi_tab _ _ _ _ I).
  - intros d va Hd Hva. rewrite (pte_agree _ _ _ Hag) by done. by apply (vi_user _ _ _ _ I).
  - intros v Hv. rewrite (tabs_agree _ _ _ Hag), (users_agree _ _ _ Hag).
    pose proof (vi_rc _ _ _ _ I v Hv). specialize (Hrc v Hv). lia.
  - intros v Hv. rewrite (tabs_agree _ _ _ Hag), (users_agree _ _ _ Hag).
    intros Ht. rewrite Htab by done. by apply (vi_uniq _ _ _ _ I).
  - intros d va Hd Hva. rewrite (pte_agree _ _ _ Hag) by done. intros HP HW.
    apply Hex; try done. by apply (vi_excl _ _ _ _ I).
Qed.

(** The free list survives writes outside the free pages. *)
Lemma kabs_mem k p m' :
  kabs kend k p → (∀ v, v ∈ free p → agree_on m' (k_mem k) v PGSIZE) →
  kabs kend (set_mem m' k) p.
Proof.
  intros H Hm. destruct H. split; try done. simpl.
  eapply chain_agree; [|done]. intros v Hv. symmetry. apply rd32_agree.
  eapply agree_on_sub; [by apply Hm|lia|unfold PGSIZE; lia].
Qed.

(** Writing a page of data that the kernel holds. *)
Lemma vinv_write k p ds kref m' v :
  vinv k p ds kref → page_ok kend v → tabs (k_mem k) ds v = 0 → v ∉ free p →
  (∀ x, ¬ (v ≤ x < v + PGSIZE) → rd8 m' x = rd8 (k_mem k) x) →
  vinv (set_mem m' k) p ds kref.
Proof.
  intros I Hv Ht Hnf Hm. eapply vinv_change; [done|..]; simpl; try done; try lia; [..|apply I].
  - apply kabs_mem; [apply I|]. intros w Hw x Hx. apply Hm.
    pose proof (free_ok _ _ _ _ I w Hw) as [Hal _].
    destruct (page_disjoint v w); [apply Hv|done|by intros ->|lia|lia].
  - by eapply tables_agree_off.
Qed.

(** ** The allocator under the invariant *)

Lemma refs_insert v w l r n x : page_ok kend v → page_ok kend w →
  refs (Pool l (<[frame v := x]> r) n) w = if decide (v = w) then x else default 0 (r !! frame w).
Proof.
  intros Hv Hw. unfold refs. simpl. rewrite lookup_insert_default.
  case_decide as E; [by rewrite decide_True by (by eapply frame_inj)|].
  rewrite decide_False; [done|]. by intros ->.
Qed.

Lemma mem_eq_step ds kref k k' : kframe k k' → k_mem k' = k_mem k → vstep ds kref k k'.
Proof. intros Hf Hm. split; [done|..]; rewrite Hm; [done|]. intros. apply agree_on_refl. Qed.

Lemma live_mono m ds kref kref' v : kref v ≤ kref' v → live m ds kref v → live m ds kref' v.
Proof. unfold live. lia. Qed.

Lemma kalloc_vinv k i p ds kref Q :
  vinv k p ds kref → kpos kref → kready k i →
  (∀ k' p', kframe k k' → k_mem k' = k_mem k → free p = [] → vinv k' p' ds kref → Q 0 k') →
  (∀ k' p' v, kframe k k' → k_mem k' = k_mem k → page_ok kend v → v ∉ free p' →
     kref v = 0 → tabs (k_mem k) ds v = 0 → users (k_mem k) ds v = 0 → refs p' v = 1 →
     free p = v :: free p' → vinv k' p' ds (hold v kref) → Q v k') →
  wp kalloc Q k.
Proof.
  intros I Hpos Hr Q0 Q1. apply (kalloc_wp kend Hkend k i p); [done|apply I|].
  intros k' Hmc Hmem Hul Ha. unfold pool_alloc in *.
  destruct (free p) as [|v l] eqn:Efree; simpl in *.
  - eapply Q0; [by split|done|done|]. eapply vinv_change; [done|done|..];
      try rewrite Hmem; try done; [unfold refs; simpl; lia|].
    intros v Hv H0. rewrite <- Efree. by apply (vi_full _ _ _ _ I).
  - assert (v ∈ free p) as Hv by (rewrite Efree; by left).
    pose proof (free_ok _ _ _ _ I v Hv) as Hok.
    destruct (free_unref _ _ _ _ I v Hpos Hv) as (K0 & T0 & U0).
    pose proof (ka_zero _ _ _ (vi_abs _ _ _ _ I) v Hv) as R0.
    assert (∀ w, page_ok kend w → refs (Pool l (<[frame v := 1]> (rc p)) (failed p)) w =
               if decide (v = w) then 1 else refs p w) as Hrefs.
    { intros w Hw. by apply refs_insert. }
    eapply (Q1 k' (Pool l (<[frame v := 1]> (rc p)) (failed p))); [by split|done|done| |done|done|done| |done|eapply vinv_change; [done|done|..]].
    + simpl. pose proof (ka_nodup _ _ _ (vi_abs _ _ _ _ I)) as Hnd. rewrite Efree in Hnd.
      by apply NoDup_cons in Hnd as [? _].
    + rewrite Hrefs by done. by rewrite decide_True.
    + by rewrite Hmem.
    + intros w Hw. rewrite Hrefs by done. unfold hold. case_decide as E.
      * subst w. rewrite Z.eqb_refl. lia.
      * rewrite (proj2 (Z.eqb_neq _ _)) by done. lia.
    + intros w Hw Ht. rewrite Hrefs by done. case_decide; [subst; lia|done].
    + intros d va Hd Hva. simpl. intros HP HW.
      pose proof (vi_user _ _ _ _ I d va Hd Hva HP) as Hu.
      rewrite Hrefs by done. case_decide; lia.
    + intros w Hw. rewrite Hrefs by done. case_decide as E; [done|]. intros H0.
      pose proof (vi_full _ _ _ _ I w Hw H0) as Hin. rewrite Efree in Hin.
      by apply elem_of_cons in Hin as [->|].
Qed.

(** Dropping one reference to a data page. *)
Lemma pool_free_refs p v w : page_ok kend v → page_ok kend w → 0 < refs p v →
  refs (pool_free v p) w = refs p w - (if v =? w then 1 else 0).
Proof.
  intros Hv Hw Hpos. unfold pool_free. fold (refs p v).
  destruct (Z.ltb_spec 1 (refs p v)); rewrite refs_insert by done; fold (refs p w);
    case_decide; subst; rewrite ?Z.eqb_refl, ?(proj2 (Z.eqb_neq v w)) by done; lia.
Qed.

Lemma vinv_drop k p ds kref k' p' v :
  vinv k p ds kref → page_ok kend v → tabs (k_mem k) ds v = 0 → kabs kend k' p' →
  tables_agree (k_mem k) (k_mem k') ds →
  (∀ w, page_ok kend w → refs p' w = refs p w - (if v =? w then 1 else 0)) →
  (∀ w, page_ok kend w → refs p' w = 0 → w ∈ free p') →
  vinv k' p' ds (drop v kref).
Proof.
  intros I Hv Ht Ha Hag Hrefs Hfull. eapply vinv_change; [done|done|done|..|done].
  - intros w Hw. rewrite Hrefs by done. unfold drop. lia.
  - intros w Hw Htw. rewrite Hrefs by done. destruct (Z.eqb_spec v w); [subst; lia|lia].
  - intros d va Hd Hva e HP HW Hle. subst e. rewrite Hrefs by (by eapply vi_user).
    destruct (_ =? _); lia.
Qed.

Lemma kfree_vinv k i p ds kref v Q :
  vinv k p ds kref → kready k i → page_ok kend v → 0 < refs p v → tabs (k_mem k) ds v = 0 →
  (∀ k' p', kframe k k' → vinv k' p' ds (drop v kref) → vstep ds (drop v kref) k k' →
     tables_agree (k_mem k) (k_mem k') ds →
     (∀ x, ¬ (v ≤ x < v + PGSIZE) → rd8 (k_mem k') x = rd8 (k_mem k) x) → Q tt k') →
  wp (kfree kend v) Q k.
Proof.
  intros I Hr Hv Hpos Ht HQ.
  apply (kfree_wp kend Hkend k i p); [done|apply I|done|by eapply refs_not_free|].
  intros k' Hmc Hul Ha Hsame Hoff _.
  pose proof (tables_agree_off _ _ _ _ I (k_mem k') v Hv Ht Hoff) as Hag.
  apply (HQ k' (pool_free v p)); [by split| | |done|done].
  - eapply vinv_drop; try done; [intros; by apply pool_free_refs|].
    intros w Hw. rewrite pool_free_refs by done. unfold pool_free. intros H0.
    pose proof (vi_full _ _ _ _ I w Hw) as Hin.
    destruct (Z.ltb_spec 1 (refs p v)), (Z.eqb_spec v w) as [E|]; simpl.
    + subst. lia.
    + apply Hin. lia.
    + subst. by left.
    + right. apply Hin. lia.
  - split; [by split|intros; by rewrite (pte_agree _ _ _ Hag)|].
    intros w Hw Hl. destruct (decide (1 < refs p v)) as [E|E].
    { rewrite Hsame by done. apply agree_on_refl. }
    assert (v ≠ w).
    { intros ->. pose proof (vi_rc _ _ _ _ I w Hw). unfold live, drop in Hl.
      rewrite Z.eqb_refl in Hl. lia. }
    intros x Hx. apply Hoff. destruct (page_disjoint v w); [apply Hv|apply Hw|done|lia|lia].
Qed.

(** One more reference to a data page that nobody maps writable. *)
Lemma incr_refc_vinv k i p ds kref v Q :
  vinv k p ds kref → kready k i → page_ok kend v →
  0 < refs p v < 2 ^ 31 - 1 → tabs (k_mem k) ds v = 0 →
  (∀ d va, d ∈ ds → 0 ≤ va < KERNBASE → entry_maps (pte (k_mem k) d va) v = true →
     flag_set (pte (k_mem k) d va) PTE_W = false) →
  (∀ k' p', kframe k k' → k_mem k' = k_mem k → vinv k' p' ds (hold v kref) → Q tt k') →
  wp (incr_refc (V2P v)) Q k.
Proof.
  intros I Hr Hv [Hpos Hmax] Ht HW HQ.
  apply (incr_refc_wp kend Hkend k i p); [done|apply I|done|by eapply refs_not_free|done|].
  intros k' Hmc Hmem Hul Ha. apply (HQ k' (pool_incr v p)); [by split|done|].
  assert (∀ w, page_ok kend w → refs (pool_incr v p) w = refs p w + if v =? w then 1 else 0)
    as Hrefs.
  { intros w Hw. unfold pool_incr. rewrite refs_insert by done. fold (refs p w).
    case_decide; subst; rewrite ?Z.eqb_refl, ?(proj2 (Z.eqb_neq v w)) by done; lia. }
  eapply vinv_change; [done|done|by rewrite Hmem|..].
  - intros w Hw. rewrite Hrefs by done. unfold hold. lia.
  - intros w Hw Htw. rewrite Hrefs by done. destruct (Z.eqb_spec v w); [subst; lia|lia].
  - intros d va Hd Hva e HP HWe Hle. subst e.
    pose proof (vi_user _ _ _ _ I d va Hd Hva HP) as Hu. rewrite Hrefs by done.
    destruct (Z.eqb_spec v (upage (pte (k_mem k) d va))) as [E|]; [|lia].
    rewrite (HW d va Hd Hva) in HWe; [done|]. rewrite E. by apply entry_maps_upage.
  - intros w Hw. rewrite Hrefs by done. intros H0. simpl. apply (vi_full _ _ _ _ I); [done|].
    pose proof (ka_range _ _ _ (vi_abs _ _ _ _ I) (frame w)) as Hrg. fold (refs p w) in Hrg.
    destruct (v =? w); lia.
Qed.

Lemma get_refc_vinv k i p ds kref v Q :
  vinv k p ds kref → kready k i → page_ok kend v →
  (∀ k', kframe k k' → k_mem k' = k_mem k → vinv k' p ds kref → Q (refs p v) k') →
  wp (get_refc (V2P v)) Q k.
Proof.
  intros I Hr Hv HQ. apply (get_refc_wp kend Hkend k i); [done|done|].
  intros k' Hmc Hmem Hkm. rewrite (ka_rc _ _ _ (vi_abs _ _ _ _ I)).
  apply HQ; [split; [done|by rewrite Hkm]|done|].
  eapply vinv_change; [done|..]; try done; try lia; [|by rewrite Hmem|apply I].
  destruct (vi_abs _ _ _ _ I). split; rewrite ?Hkm, ?Hmem; done.
Qed.

Lemma decr_refc_vinv k i p ds kref v Q :
  vinv k p ds kref → kready k i → page_ok kend v →
  1 < refs p v → tabs (k_mem k) ds v = 0 →
  (∀ k' p', kframe k k' → k_mem k' = k_mem k → free p' = free p → vinv k' p' ds (drop v kref) → Q tt k') →
  wp (decr_refc (V2P v)) Q k.
Proof.
  intros I Hr Hv Hpos Ht HQ. pose proof (vi_abs _ _ _ _ I) as Ha.
  unfold decr_refc. apply (refc_update_wp kend Hkend (λ r, i32 (r - 1)) k i); [done|done|].
  intros k' Hmc Hmem Hkm. rewrite (ka_rc _ _ _ Ha) in Hkm.
  pose proof (ka_range _ _ _ Ha (frame v)) as Hrg. fold (refs p v) in Hrg, Hkm.
  eapply (HQ k'); [split; [done|by rewrite Hkm]|done| |eapply (vinv_drop _ p _ _ _
    (Pool (free p) (<[frame v := refs p v - 1]> (rc p)) (failed p)))]; try done; [|by rewrite Hmem|..].
  - eapply (kabs_refc kend Hkend k); rewrite ?Hkm; try done; [eapply refs_not_free; [done|lia]|lia|].
    simpl. by rewrite i32_small by lia.
  - intros w Hw. rewrite refs_insert by done. fold (refs p w).
    case_decide; subst; rewrite ?Z.eqb_refl, ?(proj2 (Z.eqb_neq v w)) by done; lia.
  - intros w Hw. rewrite refs_insert by done. case_decide; [lia|]. apply (vi_full _ _ _ _ I w Hw).
Qed.
End inv.
