(* ===== verification/VmWalk.v ===== *)
(** [walkpgdir] and stores to page-table entries under the invariant. *)

From S2P Require Import Prelude Memory Kstring Spinlock Mmu Kalloc Vm VmInv.

Lemma same_page_index va vb : 0 ≤ va < 2 ^ 32 → 0 ≤ vb < 2 ^ 32 →
  va / PGSIZE = vb / PGSIZE ↔ PDX va = PDX vb ∧ PTX va = PTX vb.
Proof.
  intros Ha Hb. split; [|intros []; by apply PDX_PTX_inj].
  intros E. unfold PGSIZE in E. rewrite !PDX_eq, !PTX_eq by done. rewrite E. split; [|done].
  assert (∀ x, x / 2 ^ 22 = x / 4096 / 1024) as E' by (intros; by rewrite Z.div_div by lia).
  by rewrite !E', E.
Qed.

Lemma PDX_slot va : Some (PDX va) ∈ slots.
Proof. apply elem_of_slots, PDX_range. Qed.
#[export] Hint Resolve PDX_slot : core.

Section walk.
Context (kend : Z) (Hkend : KERNLINK ≤ kend).
Implicit Types (k : kst) (p : pool) (ds : list Z) (kref : Z → Z).

(** A store inside page [t] leaves the other pages alone. *)
Lemma wr32_off (m : memory) t j e x : 0 ≤ j < 1024 → ¬ (t ≤ x < t + PGSIZE) →
  rd8 (wr32 m (t + 4 * j) e) x = rd8 m x.
Proof. unfold PGSIZE. intros. apply rd8_wr32_ne. lia. Qed.

Lemma agree_off_page (m m' : memory) t v :
  (∀ x, ¬ (t ≤ x < t + PGSIZE) → rd8 m' x = rd8 m x) →
  t mod PGSIZE = 0 → v mod PGSIZE = 0 → t ≠ v → agree_on m' m v PGSIZE.
Proof.
  intros Hoff Ht Hv Hne x Hx. apply Hoff. destruct (page_disjoint t v); [done|done|done|lia|lia].
Qed.

(** *** Storing an entry of a page table *)

Section set_pte.
Context k p ds kref (I : vinv kend k p ds kref).
Context (d va t e : Z) (Hd : d ∈ ds) (Hva : 0 ≤ va < 2 ^ 32) (He : 0 ≤ e < 2 ^ 32).
Context (Ht : pgtab (k_mem k) d (PDX va) = Some t).
Let m := k_mem k.
Let m' := wr32 m (t + 4 * PTX va) e.

Lemma set_pte_page : page_ok kend t.
Proof using I Hd Ht. apply (vi_tab _ _ _ _ _ I d (Some (PDX va)) t); auto using PDX_slot. Qed.

Lemma set_pte_off x : ¬ (t ≤ x < t + PGSIZE) → rd8 m' x = rd8 m x.
Proof using. apply wr32_off, PTX_range. Qed.

(** Every other table page is untouched. *)
Lemma set_pte_other d' s' t' : d' ∈ ds → s' ∈ slots → tabat m d' s' = Some t' →
  (d', s') ≠ (d, Some (PDX va)) → agree_on m' m t' PGSIZE.
Proof using All.
  intros Hd' Hs' Ht' Hne.
  apply (agree_off_page _ _ t); [apply set_pte_off|apply set_pte_page|..].
  - by apply (vi_tab _ _ _ _ _ I d' s' t').
  - intros ->. apply Hne.
    destruct (tab_page_unique _ _ _ _ _ I d' s' d (Some (PDX va)) t') as [-> ->]; done.
Qed.

Lemma set_pte_tabat d' s' : d' ∈ ds → s' ∈ slots → tabat m' d' s' = tabat m d' s'.
Proof using All.
  intros Hd' Hs'. destruct s' as [i|]; [|done]. apply elem_of_slots in Hs'. simpl.
  unfold pgtab. rewrite (rd32_agree m' m); [done|].
  eapply agree_on_sub; [apply (set_pte_other d' None d')|..]; try done.
  - by apply elem_of_slots.
  - lia.
  - unfold PGSIZE. lia.
Qed.

Lemma set_pte_tabs v : tabs m' ds v = tabs m ds v.
Proof using All.
  apply count_ext. intros [d' s'] [Hd' Hs']%elem_of_pairs. cbn [fst snd]. by rewrite set_pte_tabat.
Qed.

Lemma set_pte_pte d' vb : d' ∈ ds → 0 ≤ vb < 2 ^ 32 →
  pte m' d' vb = if decide (d' = d ∧ vb / PGSIZE = va / PGSIZE) then e else pte m d' vb.
Proof using All.
  intros Hd' Hvb. unfold pte.
  assert (Some (PDX vb) ∈ slots) as Hs' by apply elem_of_slots, PDX_range.
  pose proof (set_pte_tabat d' (Some (PDX vb)) Hd' Hs') as Etab. simpl in Etab. rewrite Etab.
  pose proof (PTX_range vb) as Hj. pose proof (PTX_range va) as Hj'.
  case_decide as E.
  - destruct E as [-> E]. apply same_page_index in E as [-> ->]; [|done|done].
    fold m in Ht. rewrite Ht. subst m'. rewrite rd32_wr32_eq. by apply u32_small.
  - destruct (pgtab m d' (PDX vb)) as [t'|] eqn:Et'; [|done].
    destruct (decide ((d', Some (PDX vb)) = (d, Some (PDX va)))) as [E2|E2].
    + injection E2 as -> E2. rewrite E2 in Et'. fold m in Ht.
      assert (t' = t) as -> by congruence. apply rd32_wr32_ne.
      assert (PTX vb ≠ PTX va); [|lia]. intros E3. apply E. split; [done|].
      by apply same_page_index.
    + apply rd32_agree. eapply agree_on_sub; [by apply (set_pte_other d' (Some (PDX vb)) t')|lia|].
      unfold PGSIZE. lia.
Qed.

(** The change in the number of user mappings of [v]. *)
Definition umaps (e v : Z) : Z := if (va <? KERNBASE) && entry_maps e v then 1 else 0.

Lemma set_pte_users v : users m' ds v + umaps (pte m d va) v = users m ds v + umaps e v.
Proof using All.
  unfold umaps. destruct (Z.ltb_spec va KERNBASE) as [Hu|Hu]; simpl.
  - pose proof (count_update (λ x, entry_maps (pte m' x.1 (x.2 * PGSIZE)) v)
      (λ x, entry_maps (pte m x.1 (x.2 * PGSIZE)) v) (pairs ds upages) (d, va / PGSIZE)) as H.
    cbn [fst snd] in H. rewrite <- !pte_page in H by done.
    rewrite (set_pte_pte d va), decide_True in H by done. apply H.
    + apply NoDup_pairs; [apply I|apply NoDup_upages].
    + apply elem_of_pairs. split; [done|]. apply elem_of_upages.
      unfold PGSIZE, KERNBASE in *. Z.div_mod_to_equations. lia.
    + intros [d' n] [Hd' Hn]%elem_of_pairs Hne. cbn [fst snd].
      apply elem_of_upages in Hn. rewrite set_pte_pte; [|done|unfold KERNBASE in *; lia].
      rewrite decide_False; [done|]. intros [-> E]. apply Hne.
      by rewrite Z.div_mul in E by done; subst.
  - enough (users m' ds v = users m ds v) by lia.
    apply count_ext. intros [d' n] [Hd' Hn]%elem_of_pairs. cbn [fst snd].
    apply elem_of_upages in Hn. rewrite set_pte_pte; [|done|unfold KERNBASE in *; lia].
    rewrite decide_False; [done|]. intros [_ E]. rewrite Z.div_mul in E by done.
    unfold PGSIZE, KERNBASE in *. Z.div_mod_to_equations. lia.
Qed.

Lemma set_pte_kabs : kabs kend (set_mem m' k) p.
Proof using All.
  apply kabs_mem; [apply I|]. intros v Hv.
  apply (agree_off_page _ _ t); [apply set_pte_off|apply set_pte_page|..].
  - apply (free_ok _ _ _ _ _ I v Hv).
  - intros ->. by apply (tab_not_free _ _ _ _ _ I d (Some (PDX va)) v).
Qed.

Definition kref_set : Z → Z := λ v, kref v + umaps (pte m d va) v - umaps e v.

Lemma set_pte_vinv :
  (va < KERNBASE → flag_set e PTE_P = true →
     page_ok kend (upage e) ∧ tabs m ds (upage e) = 0 ∧
     (flag_set e PTE_W = true → refs p (upage e) ≤ 1)) →
  vinv kend (set_mem m' k) p ds kref_set.
Proof using All.
  intros Hnew. split; simpl.
  - apply set_pte_kabs.
  - apply I.
  - intros d' s t' Hd' Hs. fold m m'. rewrite set_pte_tabat by done. by apply (vi_tab _ _ _ _ _ I).
  - intros d' vb Hd' Hvb. fold m m'. rewrite set_pte_pte by (unfold KERNBASE in *; lia || done).
    case_decide as E; [|by apply (vi_user _ _ _ _ _ I)]. intros HP. apply Hnew; [|done].
    destruct E as [_ E]. unfold PGSIZE, KERNBASE in *. Z.div_mod_to_equations. lia.
  - intros v Hv. fold m m'. rewrite set_pte_tabs. unfold kref_set.
    pose proof (set_pte_users v). pose proof (vi_rc _ _ _ _ _ I v Hv) as Hrc. fold m in Hrc. lia.
  - intros v Hv. fold m m'. rewrite set_pte_tabs. intros Htv.
    destruct (vi_uniq _ _ _ _ _ I v Hv Htv) as (H1 & H2 & H3). split_and!; [done|done|].
    pose proof (set_pte_users v) as Hu. fold m in H3, H2. rewrite H3 in Hu.
    assert (umaps e v = 0).
    { unfold umaps, entry_maps. destruct (Z.ltb_spec va KERNBASE); [|done].
      destruct (flag_set e PTE_P) eqn:EP; [|done]. simpl.
      destruct (Z.eqb_spec (upage e) v) as [E|]; [|done]. destruct Hnew as (_ & H0 & _); try done.
      rewrite E in H0. lia. }
    pose proof (users_nonneg m' ds v). unfold umaps in *.
    destruct ((va <? KERNBASE) && entry_maps (pte m d va) v); lia.
  - intros d' vb Hd' Hvb. fold m m'. rewrite set_pte_pte by (unfold KERNBASE in *; lia || done).
    case_decide as E; [|by apply (vi_excl _ _ _ _ _ I)]. intros HP HW.
    apply Hnew; [|done|done]. destruct E as [_ E]. unfold PGSIZE, KERNBASE in *.
    Z.div_mod_to_equations. lia.
  - apply I.
Qed.
End set_pte.

(** *** Installing a page table *)

Definition pde_of (v : Z) : Z := Z.lor (Z.lor (Z.lor (V2P v) PTE_P) PTE_W) PTE_U.

Lemma page_phys v : page_ok kend v → V2P v mod 4096 = 0 ∧ 0 ≤ V2P v < PHYSTOP.
Proof using Hkend.
  intros Hv. rewrite (V2P_page kend Hkend) by done. destruct Hv as [Hal Hr].
  unfold PGSIZE, KERNLINK, KERNBASE, EXTMEM, PHYSTOP in *. Z.div_mod_to_equations. lia.
Qed.

(** An entry made of a page's address and flags. *)
Lemma entry_page v f : page_ok kend v → 0 ≤ f < 4096 →
  0 ≤ Z.lor (V2P v) f < 2 ^ 32 ∧ upage (Z.lor (V2P v) f) = v ∧
  ∀ b, 0 ≤ b < 12 → Z.testbit (Z.lor (V2P v) f) b = Z.testbit f b.
Proof using Hkend.
  intros Hv Hf. destruct (page_phys v Hv) as [Hal Hr]. split; [|split].
  - rewrite lor_page by done. unfold PHYSTOP in *. lia.
  - unfold upage. rewrite PTE_ADDR_lor by done. apply P2V_V2P.
    pose proof (page_ok_pos kend Hkend v Hv). unfold KERNLINK, KERNBASE, EXTMEM in *. lia.
  - intros b Hb. by apply flag_page.
Qed.

Lemma pde_of_eq v : pde_of v = Z.lor (V2P v) 7.
Proof. unfold pde_of. by rewrite <- !Z.lor_assoc. Qed.

Section set_pde.
Context (v d i : Z) k p ds kref (I : vinv kend k p ds (hold v kref)).
Context (Hd : d ∈ ds) (Hi : 0 ≤ i < 1024) (Hnone : pgtab (k_mem k) d i = None).
Context (Hv : page_ok kend v) (Hk0 : kref v = 0) (Ht0 : tabs (k_mem k) ds v = 0)
  (Hu0 : users (k_mem k) ds v = 0) (Hzero : ∀ x, v ≤ x < v + PGSIZE → rd8 (k_mem k) x = 0).
Let m := k_mem k.
Let m' := wr32 m (d + 4 * i) (pde_of v).

Lemma set_pde_dir : page_ok kend d.
Proof using All. apply (vi_tab _ _ _ _ _ I d None d); [done|by apply elem_of_slots|done]. Qed.

Lemma set_pde_off x : ¬ (d ≤ x < d + PGSIZE) → rd8 m' x = rd8 m x.
Proof using Hi. by apply wr32_off. Qed.

Lemma set_pde_other d' s' t' : d' ∈ ds → s' ∈ slots → tabat m d' s' = Some t' →
  (d', s') ≠ (d, None) → agree_on m' m t' PGSIZE.
Proof using All.
  intros Hd' Hs' Ht' Hne.
  apply (agree_off_page _ _ d); [apply set_pde_off|apply set_pde_dir|..].
  - by apply (vi_tab _ _ _ _ _ I d' s' t').
  - intros ->. apply Hne.
    destruct (tab_page_unique _ _ _ _ _ I d' s' t' None t') as [-> ->]; try done.
    by apply elem_of_slots.
Qed.

Lemma set_pde_new : agree_on m' m v PGSIZE.
Proof using All.
  apply (agree_off_page _ _ d); [apply set_pde_off|apply set_pde_dir|apply Hv|].
  intros E. pose proof (tabs_pos m ds d None d Hd ltac:(by apply elem_of_slots) eq_refl) as H.
  rewrite E in H. fold m in Ht0. lia.
Qed.

Lemma set_pde_pgtab d' j : d' ∈ ds → 0 ≤ j < 1024 →
  pgtab m' d' j = if decide (d' = d ∧ j = i) then Some v else pgtab m d' j.
Proof using All.
  intros Hd' Hj. unfold pgtab.
  destruct (entry_page v 7 Hv) as (Hr & Ha & Hb); [lia|].
  case_decide as E; [destruct E as [-> ->]|].
  - subst m'. rewrite rd32_wr32_eq, pde_of_eq, u32_small by done.
    rewrite flag_P, Hb by lia. simpl. by f_equal.
  - destruct (decide (d' = d)) as [->|Hne].
    + subst m'. rewrite rd32_wr32_ne; [done|]. assert (i ≠ j) by naive_solver. lia.
    + rewrite (rd32_agree m' m); [done|].
      eapply agree_on_sub; [apply (set_pde_other d' None d')|..]; try done.
      * by apply elem_of_slots.
      * naive_solver.
      * lia.
      * unfold PGSIZE. lia.
Qed.

(** The new table is empty, so no entry changes. *)
Lemma set_pde_pte d' va : d' ∈ ds → pte m' d' va = pte m d' va.
Proof using All.
  intros Hd'. unfold pte. rewrite set_pde_pgtab by (done || apply PDX_range).
  pose proof (PTX_range va) as Hj. case_decide as E.
  - destruct E as [-> ->]. fold m in Hnone. rewrite Hnone. apply rd32_zero. intros x Hx.
    rewrite set_pde_new; [apply Hzero|]; unfold PGSIZE; lia.
  - destruct (pgtab m d' (PDX va)) as [t|] eqn:Et; [|done]. apply rd32_agree.
    eapply agree_on_sub; [by apply (set_pde_other d' (Some (PDX va)) t)|lia|unfold PGSIZE; lia].
Qed.

Lemma set_pde_tabs w : tabs m' ds w = tabs m ds w + (if v =? w then 1 else 0).
Proof using All.
  pose proof (count_update (λ x, bool_decide (tabat m' x.1 x.2 = Some w))
    (λ x, bool_decide (tabat m x.1 x.2 = Some w)) (pairs ds slots) (d, Some i)) as H.
  cbn [fst snd tabat] in H. fold m in Hnone.
  rewrite Hnone, set_pde_pgtab, decide_True, bool_decide_false in H by done.
  assert (bool_decide (Some v = Some w) = (v =? w)) as E.
  { apply eq_true_iff_eq. rewrite bool_decide_eq_true, Z.eqb_eq. split; congruence. }
  rewrite E in H. unfold tabs. rewrite <- Z.add_0_r at 1. apply H.
  - apply NoDup_pairs; [apply I|apply NoDup_slots].
  - apply elem_of_pairs. split; [done|]. by apply elem_of_slots.
  - intros [d' [j|]] [Hd' Hs']%elem_of_pairs Hne; [|done]. cbn [fst snd tabat].
    apply elem_of_slots in Hs'. rewrite set_pde_pgtab, decide_False by naive_solver. done.
Qed.

Lemma set_pde_vinv : vinv kend (set_mem m' k) p ds kref.
Proof using All.
  assert (v ∉ free p) as Hnf.
  { eapply refs_not_free; [done|]. rewrite (vi_rc _ _ _ _ _ I) by done. unfold hold.
    rewrite Z.eqb_refl. lia. }
  assert (∀ w, users m' ds w = users m ds w) as Hus.
  { intros w. apply users_same. intros. by apply set_pde_pte. }
  split; simpl; fold m m'.
  - apply kabs_mem; [apply I|]. intros w Hw.
    apply (agree_off_page _ _ d); [apply set_pde_off|apply set_pde_dir|..].
    + apply (free_ok _ _ _ _ _ I w Hw).
    + intros ->. eapply (tab_not_free _ _ _ _ _ I w None w); try done. by apply elem_of_slots.
  - apply I.
  - intros d' s t' Hd' Hs. destruct s as [j|]; simpl.
    + rewrite set_pde_pgtab by (done || by apply elem_of_slots in Hs).
      case_decide; [by intros [= <-]|]. by apply (vi_tab _ _ _ _ _ I d' (Some j)).
    + by apply (vi_tab _ _ _ _ _ I d' None).
  - intros d' va Hd'. rewrite set_pde_pte by done. by apply (vi_user _ _ _ _ _ I).
  - intros w Hw. rewrite set_pde_tabs, Hus, (vi_rc _ _ _ _ _ I) by done. unfold hold. fold m. lia.
  - intros w Hw. rewrite set_pde_tabs, Hus. destruct (Z.eqb_spec v w) as [<-|].
    + intros _. rewrite (vi_rc _ _ _ _ _ I) by done. unfold hold. rewrite Z.eqb_refl.
      fold m in Ht0, Hu0 |- *. lia.
    + rewrite Z.add_0_r. by apply (vi_uniq _ _ _ _ _ I).
  - intros d' va Hd'. rewrite set_pde_pte by done. by apply (vi_excl _ _ _ _ _ I).
  - apply I.
Qed.
End set_pde.

(** *** [walkpgdir] *)

Lemma walk_present k d va t alloc :
  pgtab (k_mem k) d (PDX va) = Some t → walkpgdir d va alloc k = Ok (t + 4 * PTX va) k.
Proof.
  unfold pgtab, walkpgdir, load32. intros H. erewrite bind_run by reflexivity.
  destruct (flag_set _ _); [|done]. by injection H as <-.
Qed.

Lemma walk_absent k d va :
  pgtab (k_mem k) d (PDX va) = None → walkpgdir d va false k = Ok 0 k.
Proof.
  unfold pgtab, walkpgdir, load32. intros H. erewrite bind_run by reflexivity.
  by destruct (flag_set _ _).
Qed.

(** A page of zeroes. *)
Lemma zero_page k p ds kref v :
  vinv kend k p ds kref → page_ok kend v → tabs (k_mem k) ds v = 0 → v ∉ free p →
  let k' := set_mem (memset (k_mem k) v 0 PGSIZE) k in
  vinv kend k' p ds kref ∧ (∀ x, v ≤ x < v + PGSIZE → rd8 (k_mem k') x = 0) ∧
  (∀ x, ¬ (v ≤ x < v + PGSIZE) → rd8 (k_mem k') x = rd8 (k_mem k) x) ∧
  tables_agree (k_mem k) (k_mem k') ds.
Proof using Hkend.
  intros I Hv Ht Hnf k'.
  assert (∀ x, ¬ (v ≤ x < v + PGSIZE) → rd8 (k_mem k') x = rd8 (k_mem k) x) as Hoff.
  { intros x Hx. simpl. rewrite memset_rd8 by done. by case_decide. }
  split_and!; [by eapply vinv_write| |done|by eapply tables_agree_off].
  intros x Hx. simpl. rewrite memset_rd8 by done. by case_decide.
Qed.

(** *** The memory that page tables take *)

Definition absent (m : memory) (d j : Z) : bool :=
  match pgtab m d j with Some _ => false | None => true end.

(** How many of the page tables [want] the directory [d] does not have. *)
Definition missing (want : Z → bool) (m : memory) (d : Z) : Z :=
  count (λ j, want j && absent m d j) (seqZ 0 1024).

(** The free pages that are left when those tables are made. *)
Definition slack (want : Z → bool) (d : Z) (k : kst) (p : pool) : Z :=
  Z.of_nat (length (free p)) - missing want (k_mem k) d.

(** A step that takes no page but for table [j]; no memory for table [j]. *)
Definition same_slack (d j : Z) (k : kst) (p : pool) (k' : kst) (p' : pool) : Prop :=
  ∀ want, want j = true → slack want d k' p' = slack want d k p.
Definition short (d j : Z) (k : kst) (p : pool) : Prop :=
  ∀ want, want j = true → slack want d k p < 0.

Lemma missing_same want m m' d : (∀ j, 0 ≤ j < 1024 → pgtab m' d j = pgtab m d j) →
  missing want m' d = missing want m d.
Proof.
  intros H. apply count_ext. intros j Hj%elem_of_seqZ. unfold absent. by rewrite H by lia.
Qed.

Lemma short_intro d j k p : 0 ≤ j < 1024 → free p = [] → pgtab (k_mem k) d j = None → short d j k p.
Proof.
  intros Hj E Hn want Hw. unfold slack. rewrite E. simpl.
  enough (0 < missing want (k_mem k) d) by lia.
  apply (count_pos _ _ j); [apply elem_of_seqZ; lia|]. unfold absent. by rewrite Hn, Hw.
Qed.

Lemma slack_table d j k p k' p' v t : 0 ≤ j < 1024 → free p = v :: free p' →
  pgtab (k_mem k) d j = None →
  (∀ i, 0 ≤ i < 1024 → pgtab (k_mem k') d i = if decide (i = j) then Some t else pgtab (k_mem k) d i) →
  same_slack d j k p k' p'.
Proof.
  intros Hj E Hn H want Hw. unfold slack, missing. rewrite E. cbn [length].
  pose proof (count_update (λ i, want i && absent (k_mem k') d i)
    (λ i, want i && absent (k_mem k) d i) (seqZ 0 1024) j) as C.
  assert (absent (k_mem k') d j = false) as Hp by (unfold absent; by rewrite H, decide_True).
  assert (absent (k_mem k) d j = true) as Ha by (unfold absent; by rewrite Hn).
  cbn beta in C. rewrite Hp, Ha, Hw in C. cbn [andb] in C.
  assert (∀ i, i ∈ seqZ 0 1024 → i ≠ j →
    want i && absent (k_mem k') d i = want i && absent (k_mem k) d i) as Hs.
  { intros i Hi%elem_of_seqZ Hne. unfold absent. by rewrite H, decide_False by (done || lia). }
  specialize (C (NoDup_seqZ _ _) ltac:(apply elem_of_seqZ; lia) Hs). lia.
Qed.

Lemma walk_alloc_wp k i p ds kref d va Q :
  vinv kend k p ds kref → kpos kref → kready k i → d ∈ ds →
  (∀ k' p', vstep kend ds kref k k' → vinv kend k' p' ds kref → short d (PDX va) k p → Q 0 k') →
  (∀ k' p' t, vstep kend ds kref k k' → vinv kend k' p' ds kref →
     pgtab (k_mem k') d (PDX va) = Some t → same_slack d (PDX va) k p k' p' →
     Q (t + 4 * PTX va) k') →
  wp (walkpgdir d va true) Q k.
Proof using Hkend.
  intros I Hpos Hr Hd Q0 Q1. destruct (pgtab (k_mem k) d (PDX va)) as [t|] eqn:Et.
  { eapply wp_run; [by apply walk_present|]. by eapply Q1. }
  pose proof (PDX_range va) as Hi. pose proof Et as Et0.
  unfold walkpgdir, load32. wp_auto.
  assert (flag_set (rd32 (k_mem k) (d + 4 * PDX va)) PTE_P = false) as ->.
  { unfold pgtab in Et. by destruct (flag_set _ _). }
  simpl. wp_auto. eapply (kalloc_vinv kend Hkend); try done.
  { intros k1 p1 Hf Hm Hfree I1. wp_auto. eapply Q0; [by apply mem_eq_step|done|].
    by apply short_intro. }
  intros k1 p1 v Hf Hm Hv Hnf K0 T0 U0 R1 Efree I1. rewrite <- Hm in T0, U0, Et.
  destruct (page_ok_pos kend Hkend v Hv) as [_ Hnz].
  destruct (Z.eqb_spec v 0) as [|_]; [done|].
  unfold store32. wp_auto.
  destruct (zero_page _ _ _ _ v I1 Hv T0 Hnf) as (I2 & Hz & Hoff & Hag).
  set (k2 := set_mem (memset (k_mem k1) v 0 PGSIZE) k1) in *.
  assert (pgtab (k_mem k2) d (PDX va) = None) as Et2 by by rewrite (pgtab_agree _ _ _ Hag).
  rewrite <- (tabs_agree _ _ _ Hag) in T0. rewrite <- (users_agree _ _ _ Hag) in U0.
  pose proof (set_pde_vinv v d (PDX va) _ _ _ _ I2 Hd Hi Et2 Hv K0 T0 U0 Hz) as I3.
  apply (Q1 _ p1); [|exact I3|..].
  - split; [exact Hf|..]; cbn [k_mem set_mem]; rewrite <- ?Hm.
    + intros d' vb Hd' _. rewrite <- (pte_agree _ _ _ Hag) by done. by eapply set_pde_pte.
    + intros w Hw Hl x Hx. change (memset (k_mem k1) v 0 PGSIZE) with (k_mem k2).
      rewrite (set_pde_off v d (PDX va) k2 Hi).
      * apply Hoff. unfold live in Hl.
        assert (v ≠ w). { intros ->. rewrite (users_agree _ _ _ Hag) in U0. lia. }
        destruct (page_disjoint v w); [apply Hv|apply Hw|done|lia|lia].
      * rewrite Hm in Hl. destruct (live_not_tab _ _ _ _ _ I w Hw Hl) as [H0 _].
        assert (d ≠ w).
        { intros ->. pose proof (tabs_pos (k_mem k) ds w None w Hd
            ltac:(by apply elem_of_slots) eq_refl). lia. }
        pose proof (vi_tab _ _ _ _ _ I d None d Hd ltac:(by apply elem_of_slots) eq_refl) as [? _].
        destruct (page_disjoint d w); [done|apply Hw|done|lia|lia].
  - cbn [k_mem set_mem]. change (memset (k_mem k1) v 0 PGSIZE) with (k_mem k2).
    fold (pde_of v). erewrite set_pde_pgtab by done. by rewrite decide_True.
  - apply (slack_table _ _ _ _ _ _ v v); try done. intros j Hj. cbn [k_mem set_mem].
    change (memset (k_mem k1) v 0 PGSIZE) with (k_mem k2). fold (pde_of v).
    erewrite set_pde_pgtab by done. rewrite (pgtab_agree _ _ _ Hag), Hm by done.
    repeat case_decide; tauto.
Qed.
End walk.
