(* ===== verification/VmMap.v ===== *)
(** [mappages] and [setupkvm]: installing translations. *)

From S2P Require Import Prelude Memory Kstring Spinlock Mmu Kalloc Vm VmInv VmWalk.

Section map.
Context (kend : Z) (Hkend : KERNLINK ≤ kend).
Implicit Types (k : kst) (p : pool) (ds : list Z) (kref : Z → Z).

Lemma vinv_ext k p ds kref kref' :
  (∀ v, kref v = kref' v) → vinv kend k p ds kref → vinv kend k p ds kref'.
Proof.
  intros E I. eapply vinv_change; [done|apply I|..]; try done; [|apply I].
  intros v _. rewrite E. lia.
Qed.

(** A step that sets the entry for [a] in [d] to [e] and changes no other
    entry and no live page. *)
Record vset ds kref (d a e : Z) k k' : Prop := {
  vt_frame : kframe k k';
  vt_pte : ∀ d' vb, d' ∈ ds → 0 ≤ vb < 2 ^ 32 →
    pte (k_mem k') d' vb =
      if decide (d' = d ∧ vb / PGSIZE = a / PGSIZE) then e else pte (k_mem k) d' vb;
  vt_data : ∀ v, page_ok kend v → live (k_mem k) ds kref v →
    agree_on (k_mem k') (k_mem k) v PGSIZE;
}.

(** References that move from the kernel to the entry [e] at [a]. *)
Definition give (a e : Z) kref : Z → Z := λ v, kref v - umaps a e v.

Lemma umaps_not_present a e v : flag_set e PTE_P = false → umaps a e v = 0.
Proof. intros H. unfold umaps, entry_maps. rewrite H. by rewrite andb_false_r. Qed.

Lemma give_kernel a e kref v : KERNBASE ≤ a → give a e kref v = kref v.
Proof. intros. unfold give, umaps. destruct (Z.ltb_spec a KERNBASE); [lia|]. simpl. lia. Qed.

Lemma give_user a e kref v : a < KERNBASE → flag_set e PTE_P = true →
  give a e kref v = drop (upage e) kref v.
Proof.
  intros Ha HP. unfold give, umaps, drop, entry_maps. rewrite HP.
  destruct (Z.ltb_spec a KERNBASE); [|lia]. done.
Qed.

Lemma store_vset k p ds kref d a t e :
  vinv kend k p ds kref → d ∈ ds → 0 ≤ a < 2 ^ 32 → 0 ≤ e < 2 ^ 32 →
  pgtab (k_mem k) d (PDX a) = Some t →
  vset ds kref d a e k (set_mem (wr32 (k_mem k) (t + 4 * PTX a) e) k).
Proof using Hkend.
  intros I Hd Ha He Ht. split; [done|..].
  - intros d' vb Hd' Hvb. by eapply set_pte_pte.
  - intros v Hv Hl. destruct (live_not_tab _ _ _ _ _ I _ Hv Hl) as [Ht0 _].
    apply (agree_off_page _ _ t); [intros x Hx; by eapply set_pte_off|..|apply Hv|].
    + by apply (vi_tab _ _ _ _ _ I d (Some (PDX a)) t).
    + intros ->. pose proof (tabs_pos (k_mem k) ds d (Some (PDX a)) v Hd (PDX_slot _) Ht). lia.
Qed.

(** Storing entry [e] at [a], where the walk has found the table. *)
Lemma set_entry k p ds kref d a t e :
  vinv kend k p ds kref → d ∈ ds → 0 ≤ a < 2 ^ 32 → 0 ≤ e < 2 ^ 32 →
  pgtab (k_mem k) d (PDX a) = Some t → flag_set (pte (k_mem k) d a) PTE_P = false →
  (a < KERNBASE → flag_set e PTE_P = true →
     page_ok kend (upage e) ∧ live (k_mem k) ds kref (upage e) ∧
     (flag_set e PTE_W = true → kref (upage e) + users (k_mem k) ds (upage e) ≤ 1)) →
  let k' := set_mem (wr32 (k_mem k) (t + 4 * PTX a) e) k in
  vinv kend k' p ds (give a e kref) ∧ vset ds kref d a e k k'.
Proof using Hkend.
  intros I Hd Ha He Ht HP Hnew k'. split.
  - eapply vinv_ext; [|eapply (set_pte_vinv kend Hkend k p ds kref I d a t e)]; try done.
    + intros v. unfold kref_set, give. rewrite (umaps_not_present a (pte _ _ _)) by done. lia.
    + intros Hu HPe. destruct (Hnew Hu HPe) as (Hok & Hl & HW).
      destruct (live_not_tab _ _ _ _ _ I _ Hok Hl) as [Ht0 _]. split_and!; [done|done|].
      intros HWe. rewrite (vi_rc _ _ _ _ _ I) by done. specialize (HW HWe). lia.
  - by eapply store_vset.
Qed.

Lemma tab_addr_nz k p ds kref d a t : vinv kend k p ds kref → d ∈ ds →
  pgtab (k_mem k) d (PDX a) = Some t → t + 4 * PTX a =? 0 = false.
Proof using Hkend.
  intros I Hd Ht. pose proof (vi_tab _ _ _ _ _ I d (Some (PDX a)) t Hd (PDX_slot _) Ht) as Hok.
  pose proof (page_ok_pos kend Hkend t Hok). pose proof (PTX_range a).
  apply Z.eqb_neq. unfold KERNLINK, KERNBASE, EXTMEM in *. lia.
Qed.

Lemma pte_tab k d a t : pgtab (k_mem k) d (PDX a) = Some t →
  rd32 (k_mem k) (t + 4 * PTX a) = pte (k_mem k) d a.
Proof. unfold pte. by intros ->. Qed.

Lemma live_step ds kref k k' v :
  vstep kend ds kref k k' → live (k_mem k') ds kref v ↔ live (k_mem k) ds kref v.
Proof. intros Hs. unfold live. by rewrite (vstep_users _ _ _ _ _ _ Hs). Qed.

Lemma vstep_set ds kref d a e k k1 k2 :
  vstep kend ds kref k k1 → vset ds kref d a e k1 k2 → vset ds kref d a e k k2.
Proof.
  intros S T. split.
  - etrans; [apply S|apply T].
  - intros d' vb Hd' Hvb. rewrite (vt_pte _ _ _ _ _ _ _ T) by done.
    by rewrite (vs_pte _ _ _ _ _ S).
  - intros v Hv Hl. eapply agree_on_trans; [|by apply S].
    apply (vt_data _ _ _ _ _ _ _ T); [done|]. by apply (live_step _ _ _ _ _ S).
Qed.

(** One iteration of the loop of [mappages]: the entry for [a] becomes [e],
    or there is no memory for a page table. *)
Lemma map_body_wp {A} k i p ds kref d a e (m0 m1 : M kst A) Q :
  vinv kend k p ds kref → kpos kref → kready k i → d ∈ ds →
  0 ≤ a < 2 ^ 32 → 0 ≤ e < 2 ^ 32 → flag_set (pte (k_mem k) d a) PTE_P = false →
  (a < KERNBASE → flag_set e PTE_P = true →
     page_ok kend (upage e) ∧ live (k_mem k) ds kref (upage e) ∧
     (flag_set e PTE_W = true → kref (upage e) + users (k_mem k) ds (upage e) ≤ 1)) →
  (∀ k' p', vstep kend ds kref k k' → vinv kend k' p' ds kref → short d (PDX a) k p →
     wp m0 Q k') →
  (∀ k' p', vset ds kref d a e k k' → vinv kend k' p' ds (give a e kref) →
     same_slack d (PDX a) k p k' p' → wp m1 Q k') →
  wp (pte ← walkpgdir d a true;
      if pte =? 0 then m0 else
      e0 ← load32 pte;
      if flag_set e0 PTE_P then panic "remap" else store32 pte e;; m1) Q k.
Proof using Hkend.
  intros I Hpos Hr Hd Ha He HP Hnew Q0 Q1. wp_auto.
  eapply (walk_alloc_wp kend Hkend); try done.
  intros k1 p1 t S1 I1 Ht Hsl. rewrite (tab_addr_nz _ _ _ _ _ _ _ I1) by done.
  unfold load32, store32. wp_auto. rewrite (pte_tab _ d) by done.
  rewrite (vs_pte _ _ _ _ _ S1) by done. rewrite HP. wp_auto.
  destruct (set_entry k1 p1 ds kref d a t e) as [I2 T2]; try done.
  - by rewrite (vs_pte _ _ _ _ _ S1).
  - intros Hu HPe. rewrite (vstep_users _ _ _ _ _ _ S1).
    rewrite (live_step _ _ _ _ _ S1). auto.
  - eapply Q1; [by eapply vstep_set|done|]. intros want Hw. rewrite <- (Hsl want Hw).
    unfold slack. f_equal. apply missing_same. intros j Hj.
    by apply (set_pte_tabat kend Hkend _ _ _ _ I1 d a t e Hd Ha He Ht d (Some j) Hd), elem_of_slots.
Qed.

(** ** One user page *)

Lemma mappages_one d a pa perm : a mod PGSIZE = 0 → 0 ≤ a < KERNBASE →
  mappages d a PGSIZE pa perm = mappages_loop d a a pa perm 1.
Proof.
  intros Hal Ha. unfold mappages.
  assert (PGROUNDDOWN a = a) as -> by (rewrite PGROUNDDOWN_eq; lia).
  assert (PGROUNDDOWN (u32 (a + PGSIZE - 1)) = a) as ->.
  { rewrite u32_small by (unfold PGSIZE, KERNBASE in *; lia).
    rewrite PGROUNDDOWN_eq. unfold PGSIZE in *. Z.div_mod_to_equations. lia. }
  by rewrite Z.sub_diag.
Qed.

Lemma map_user_wp k i p ds kref d a v f Q :
  vinv kend k p ds kref → kpos kref → kready k i → d ∈ ds →
  a mod PGSIZE = 0 → 0 ≤ a < KERNBASE → 0 ≤ f < 4096 → page_ok kend v →
  flag_set (pte (k_mem k) d a) PTE_P = false → live (k_mem k) ds kref v →
  (flag_set f PTE_W = true → kref v + users (k_mem k) ds v ≤ 1) →
  (∀ k' p', vstep kend ds kref k k' → vinv kend k' p' ds kref → short d (PDX a) k p →
     Q (-1) k') →
  (∀ k' p', vset ds kref d a (Z.lor (Z.lor (V2P v) f) PTE_P) k k' →
     vinv kend k' p' ds (drop v kref) → same_slack d (PDX a) k p k' p' → Q 0 k') →
  wp (mappages d a PGSIZE (V2P v) f) Q k.
Proof using Hkend.
  intros I Hpos Hr Hd Hal Ha Hf Hv HP Hl HW Q0 Q1. rewrite mappages_one by done. simpl.
  destruct (entry_page kend Hkend v (Z.lor f 1) Hv) as (He & Hup & Hbit).
  { apply lor_flags; lia. }
  rewrite Z.lor_assoc in He, Hup, Hbit.
  assert (flag_set (Z.lor (Z.lor (V2P v) f) PTE_P) PTE_P = true) as HPe.
  { rewrite flag_set_lor. by rewrite orb_true_r. }
  eapply (map_body_wp _ _ _ _ _ _ _ (Z.lor (Z.lor (V2P v) f) PTE_P)); try done.
  - unfold KERNBASE in *. lia.
  - intros _ _. unfold PTE_P. rewrite Hup. split_and!; [done|done|].
    rewrite flag_W, Hbit by lia. rewrite Z.lor_spec, orb_false_r, <- flag_W. done.
  - intros k' p' T' I' Hsl. rewrite Z.eqb_refl. wp_auto. eapply Q1; [done| |done].
    eapply vinv_ext; [|done]. intros w. rewrite give_user by (unfold KERNBASE in *; lia || done).
    unfold PTE_P. by rewrite Hup.
Qed.
End map.
