(* ===== verification/VmFree.v ===== *)
(** [deallocuvm] and [freevm]: giving memory back. *)

From S2P Require Import Prelude Memory Kstring Spinlock Mmu Kalloc Vm VmInv VmWalk VmMap.

Definition unmapped (e : Z) : Z := if flag_set e PTE_P then 0 else e.

(** The entry for [vb] in [d'] after unmapping the pages of [d] from [lo] up
    to [hi]. *)
Definition unmap_pte (d lo hi d' vb e : Z) : Z :=
  if decide (d' = d ∧ lo ≤ vb ∧ vb / PGSIZE * PGSIZE < hi) then unmapped e else e.

Lemma unmapped_idem e : unmapped (unmapped e) = unmapped e.
Proof. unfold unmapped. destruct (flag_set e PTE_P) eqn:E; [done|by rewrite E]. Qed.

Lemma unmap_pte_cons d lo hi d' vb e :
  lo mod PGSIZE = 0 → lo < hi →
  unmap_pte d (lo + PGSIZE) hi d' vb
    (if decide (d' = d ∧ vb / PGSIZE = lo / PGSIZE) then unmapped e else e) =
  unmap_pte d lo hi d' vb e.
Proof.
  intros Hal Hlt. unfold unmap_pte, PGSIZE in *.
  destruct (decide (d' = d ∧ vb / 4096 = lo / 4096)) as [[-> E]|E].
  - rewrite (decide_True (P := d = d ∧ lo ≤ vb ∧ _))
      by (split_and!; [done|Z.div_mod_to_equations; lia..]).
    case_decide; [apply unmapped_idem|done].
  - destruct (decide (d' = d ∧ lo + 4096 ≤ vb ∧ _)) as [E1|E1], (decide (d' = d ∧ lo ≤ vb ∧ _))
      as [E2|E2]; try done.
    + destruct E2. destruct_and!. split_and!; [done|lia|done].
    + destruct E1. destruct E2 as (-> & ? & ?). split_and!; [done| |done].
      assert (vb / 4096 ≠ lo / 4096) by tauto. Z.div_mod_to_equations. lia.
Qed.

Section free.
Context (kend : Z) (Hkend : KERNLINK ≤ kend).
Implicit Types (k : kst) (p : pool) (ds : list Z) (kref : Z → Z).

(** A step that only unmaps, and keeps every page that is still live. *)
Record vunmap ds kref (d lo hi : Z) k k' : Prop := {
  vu_frame : kframe k k';
  vu_pte : ∀ d' vb, d' ∈ ds → 0 ≤ vb < 2 ^ 32 →
    pte (k_mem k') d' vb = unmap_pte d lo hi d' vb (pte (k_mem k) d' vb);
  vu_data : ∀ v, page_ok kend v → live (k_mem k') ds kref v →
    agree_on (k_mem k') (k_mem k) v PGSIZE;
}.

Lemma unmap_maps d lo hi d' vb e v :
  entry_maps (unmap_pte d lo hi d' vb e) v = true → entry_maps e v = true.
Proof.
  unfold unmap_pte, unmapped. case_decide; [|done].
  destruct (flag_set e PTE_P) eqn:E; [|done]. by intros.
Qed.

Lemma vunmap_live ds kref d lo hi k k' v :
  vunmap ds kref d lo hi k k' → live (k_mem k') ds kref v → live (k_mem k) ds kref v.
Proof.
  intros U. unfold live. enough (users (k_mem k') ds v ≤ users (k_mem k) ds v) by lia.
  apply count_le. intros [d' n] [Hd' Hn]%elem_of_pairs. cbn [fst snd]. apply elem_of_upages in Hn.
  rewrite (vu_pte _ _ _ _ _ _ _ U) by (done || unfold KERNBASE in *; lia). apply unmap_maps.
Qed.

(** Freeing the page an entry maps and clearing the entry. *)
Lemma unmap_one_wp k i p ds kref d a t Q :
  vinv kend k p ds kref → kpos kref → kready k i → d ∈ ds → 0 ≤ a < KERNBASE →
  pgtab (k_mem k) d (PDX a) = Some t → flag_set (pte (k_mem k) d a) PTE_P = true →
  (∀ k' p', kframe k k' → vinv kend k' p' ds kref →
     (∀ d' vb, d' ∈ ds → 0 ≤ vb < 2 ^ 32 → pte (k_mem k') d' vb =
        if decide (d' = d ∧ vb / PGSIZE = a / PGSIZE) then 0 else pte (k_mem k) d' vb) →
     (∀ v, page_ok kend v → live (k_mem k') ds kref v → agree_on (k_mem k') (k_mem k) v PGSIZE) →
     Q tt k') →
  wp (kfree kend (upage (pte (k_mem k) d a));; store32 (t + 4 * PTX a) 0) Q k.
Proof using Hkend.
  intros I Hpos Hr Hd Ha Ht HP HQ. assert (0 ≤ a < 2 ^ 32) as Ha' by (unfold KERNBASE in *; lia).
  pose proof (vi_user _ _ _ _ _ I d a Hd Ha HP) as Hv.
  set (v := upage (pte (k_mem k) d a)) in *.
  assert (0 < users (k_mem k) ds v) as Hu.
  { eapply users_pos; [done|done|by apply entry_maps_upage]. }
  pose proof (users_not_tab _ _ _ _ _ I v Hv Hu) as T0.
  wp_auto. eapply (kfree_vinv kend Hkend); try done.
  { rewrite (vi_rc _ _ _ _ _ I v Hv). specialize (Hpos v). lia. }
  intros k1 p1 F1 I1 S1 Hag _. unfold store32. wp_auto.
  assert (pgtab (k_mem k1) d (PDX a) = Some t) as Ht1.
  { rewrite (pgtab_agree _ _ _ Hag); [done|done|apply PDX_range]. }
  pose proof (set_pte_pte kend Hkend _ _ _ _ I1 d a t 0 Hd Ha' ltac:(lia) Ht1) as Hpte.
  pose proof (set_pte_users kend Hkend _ _ _ _ I1 d a t 0 Hd Ha' ltac:(lia) Ht1) as Hus.
  cbn beta zeta in Hpte, Hus.
  assert (∀ w, umaps a (pte (k_mem k1) d a) w = if v =? w then 1 else 0) as Hum.
  { intros w. rewrite (pte_agree _ _ _ Hag) by done. unfold umaps, entry_maps. rewrite HP.
    destruct (Z.ltb_spec a KERNBASE); [done|lia]. }
  assert (∀ w, umaps a 0 w = 0) as Hum0 by (intros; by apply umaps_not_present).
  eapply HQ; cbn [k_mem set_mem].
  - by etrans; [apply F1|].
  - eapply vinv_ext; [|eapply (set_pte_vinv kend Hkend _ _ _ _ I1 d a t 0)]; try done; try lia.
    intros w. unfold kref_set. rewrite Hum, Hum0. unfold drop. lia.
  - intros d' vb Hd' Hvb. rewrite Hpte by done. by rewrite (pte_agree _ _ _ Hag).
  - intros w Hw Hl. unfold live in Hl. specialize (Hus w). rewrite Hum, Hum0 in Hus.
    rewrite (users_agree _ _ _ Hag) in Hus.
    assert (live (k_mem k) ds (drop v kref) w) as Hl' by (unfold live, drop; lia).
    eapply agree_on_trans; [|by apply S1].
    apply (agree_off_page _ _ t); [intros x Hx; by eapply set_pte_off|..|apply Hw|].
    + by apply (vi_tab _ _ _ _ _ I d (Some (PDX a)) t).
    + intros ->. pose proof (tabs_pos (k_mem k) ds d (Some (PDX a)) w Hd (PDX_slot _) Ht).
      destruct (live_not_tab _ _ _ _ _ I1 w Hw); [|rewrite (tabs_agree _ _ _ Hag) in *; lia].
      unfold live. by rewrite (users_agree _ _ _ Hag).
Qed.

(** The next directory entry's address, as [deallocuvm] computes it. *)
Lemma next_pde a : 0 ≤ a < KERNBASE →
  u32 (u32 (PGADDR (PDX a + 1) 0 0 - PGSIZE) + PGSIZE) = (a / 2 ^ 22 + 1) * 2 ^ 22.
Proof.
  intros Ha. rewrite u32_add_l, Z.sub_add. unfold PGADDR. rewrite Z.shiftl_0_l, !Z.lor_0_r.
  rewrite u32_u32, PDX_eq, Z.shiftl_mul_pow2 by (unfold KERNBASE, PDXSHIFT in *; lia).
  unfold PDXSHIFT, KERNBASE in *. apply u32_small. Z.div_mod_to_equations. lia.
Qed.

Lemma no_table_pte m d a vb :
  0 ≤ a < 2 ^ 32 → pgtab m d (PDX a) = None → a / 2 ^ 22 * 2 ^ 22 ≤ vb < (a / 2 ^ 22 + 1) * 2 ^ 22 →
  pte m d vb = 0.
Proof.
  intros Ha Hn Hvb. unfold pte. assert (PDX vb = PDX a) as ->; [|by rewrite Hn].
  rewrite !PDX_eq by (Z.div_mod_to_equations; lia). Z.div_mod_to_equations. lia.
Qed.

Lemma vunmap_skip ds kref d lo mid hi k k' :
  lo ≤ mid → mid mod PGSIZE = 0 → (∀ vb, lo ≤ vb < mid → flag_set (pte (k_mem k) d vb) PTE_P = false) →
  vunmap ds kref d mid hi k k' → vunmap ds kref d lo hi k k'.
Proof.
  intros Hle Hal Hz [F P D]. split; [done| |done]. intros d' vb Hd' Hvb. rewrite P by done.
  unfold unmap_pte. destruct (decide (d' = d ∧ mid ≤ vb ∧ _)) as [E|E].
  - rewrite decide_True; [done|]. destruct_and!. split_and!; [done|lia|done].
  - case_decide as E2; [|done]. destruct E2 as (-> & ? & ?).
    unfold unmapped. rewrite Hz; [done|]. split; [done|].
    destruct (decide (mid ≤ vb)); [|lia]. destruct E. by split_and!.
Qed.

Lemma upage_not_0 e : page_ok kend (upage e) → PTE_ADDR e ≠ 0.
Proof using Hkend.
  intros Hv E. unfold upage in Hv. rewrite E in Hv.
  destruct (page_ok_pos kend Hkend _ Hv) as [[Hlo _] _]. vm_compute in Hlo. by destruct Hlo.
Qed.

Lemma dealloc_loop_wp fuel : ∀ k i p ds kref d a hi Q,
  vinv kend k p ds kref → kpos kref → kready k i → d ∈ ds →
  a mod PGSIZE = 0 → 0 ≤ a → hi ≤ KERNBASE → hi - a ≤ Z.of_nat fuel * PGSIZE →
  (∀ k' p', vinv kend k' p' ds kref → vunmap ds kref d a hi k k' → Q tt k') →
  wp (deallocuvm_loop kend d a hi fuel) Q k.
Proof using Hkend.
  induction fuel as [|fuel IH]; intros k i p ds kref d a hi Q I Hpos Hr Hd Hal Ha Hhi Hfuel HQ;
    cbn [deallocuvm_loop]; destruct (Z.ltb_spec a hi) as [Hlt|Hge]; cbn [negb];
    try (unfold PGSIZE in Hfuel; lia); wp_auto.
  1,3: eapply HQ; [done|]; split; [done| |intros; apply agree_on_refl];
    intros d' vb Hd' Hvb; unfold unmap_pte; rewrite decide_False; [done|];
    intros (_ & ? & ?); unfold PGSIZE in *; Z.div_mod_to_equations; lia.
  assert (0 ≤ a < 2 ^ 32) as Ha' by (unfold KERNBASE in *; lia).
  destruct (pgtab (k_mem k) d (PDX a)) as [t|] eqn:Et.
  - eapply wp_run; [by apply walk_present|].
    rewrite (tab_addr_nz kend Hkend _ _ _ _ _ _ _ I) by done.
    unfold load32. wp_auto. rewrite (pte_tab _ d) by done.
    rewrite u32_small by (unfold KERNBASE, PGSIZE in *; lia).
    assert (∀ k', kframe k k' → kready k' i) as Hr' by (intros; by eapply kready_frame).
    destruct (flag_set (pte (k_mem k) d a) PTE_P) eqn:HP.
    + pose proof (vi_user _ _ _ _ _ I d a Hd ltac:(lia) HP) as Hv.
      rewrite (proj2 (Z.eqb_neq _ _)).
      2: { by eapply upage_not_0. }
      eapply (unmap_one_wp _ i); try done; [lia|].
      intros k1 p1 F1 I1 Hpte1 Hdata1.
      eapply (IH k1 i); try done; [by apply Hr'|unfold PGSIZE in *; Z.div_mod_to_equations; lia|
        unfold PGSIZE; lia|lia|].
      intros k' p' I' U'. eapply HQ; [done|]. split.
      * etrans; [exact F1|apply U'].
      * intros d' vb Hd' Hvb. rewrite (vu_pte _ _ _ _ _ _ _ U'), Hpte1 by done.
        rewrite <- (unmap_pte_cons d a hi) by done. f_equal. case_decide as E; [|done].
        destruct E as [-> E]. unfold unmapped.
        rewrite (pte_page _ _ vb), E, <- pte_page by done. by rewrite HP.
      * intros v Hv' Hl. eapply agree_on_trans; [by apply U'|].
        apply Hdata1; [done|]. by eapply vunmap_live.
    + wp_auto. eapply (IH k i); try done; [unfold PGSIZE in *; Z.div_mod_to_equations; lia|
        unfold PGSIZE; lia|lia|].
      intros k' p' I' U'. eapply HQ; [done|]. eapply vunmap_skip; [..|done].
      * unfold PGSIZE; lia.
      * unfold PGSIZE in *. Z.div_mod_to_equations. lia.
      * intros vb Hvb. rewrite pte_page by (unfold KERNBASE, PGSIZE in *; lia).
        replace (vb / PGSIZE * PGSIZE) with a; [done|]. unfold PGSIZE in *.
        Z.div_mod_to_equations. lia.
  - eapply wp_run; [by apply walk_absent|]. cbn [Z.eqb]. rewrite next_pde by lia.
    eapply (IH k i); try done; [unfold PGSIZE in *; Z.div_mod_to_equations; lia|
      Z.div_mod_to_equations; lia|unfold PGSIZE in *; Z.div_mod_to_equations; lia|].
    intros k' p' I' U'. eapply HQ; [done|]. eapply vunmap_skip; [..|done].
    + Z.div_mod_to_equations. lia.
    + unfold PGSIZE in *. Z.div_mod_to_equations. lia.
    + intros vb Hvb. rewrite (no_table_pte _ _ a); [done|done|done|]. Z.div_mod_to_equations. lia.
Qed.

Lemma deallocuvm_wp k i p ds kref d oldsz newsz Q :
  vinv kend k p ds kref → kpos kref → kready k i → d ∈ ds → 0 ≤ newsz < oldsz → oldsz ≤ KERNBASE →
  (∀ k' p', vinv kend k' p' ds kref → vunmap ds kref d (PGROUNDUP newsz) oldsz k k' → Q newsz k') →
  wp (deallocuvm kend d oldsz newsz) Q k.
Proof using Hkend.
  intros I Hpos Hr Hd Hsz Hmax HQ. unfold deallocuvm.
  rewrite (proj2 (Z.leb_gt _ _)) by lia.
  assert (PGROUNDUP newsz mod PGSIZE = 0 ∧ 0 ≤ PGROUNDUP newsz) as [Hal Ha].
  { rewrite PGROUNDUP_eq by (unfold PGSIZE, KERNBASE in *; lia).
    unfold PGSIZE. Z.div_mod_to_equations. lia. }
  wp_auto. eapply (dealloc_loop_wp _ _ i); try done.
  unfold PGSIZE in *. Z.div_mod_to_equations. lia.
Qed.

(** ** [freevm] *)

Lemma count_perm {A} (f : A → bool) l l' : l ≡ₚ l' → count f l = count f l'.
Proof. induction 1; simpl; lia. Qed.

Lemma pairs_perm {A B} (l l' : list A) (r : list B) : l ≡ₚ l' → pairs l r ≡ₚ pairs l' r.
Proof. intros E. unfold pairs. by rewrite E. Qed.

Lemma vinv_perm k p ds ds' kref : ds ≡ₚ ds' → vinv kend k p ds kref → vinv kend k p ds' kref.
Proof.
  intros E I.
  assert (∀ v, tabs (k_mem k) ds' v = tabs (k_mem k) ds v) as Et
    by (intros; apply count_perm, pairs_perm; by symmetry).
  assert (∀ v, users (k_mem k) ds' v = users (k_mem k) ds v) as Eu
    by (intros; apply count_perm, pairs_perm; by symmetry).
  destruct I. split; try done; try (setoid_rewrite Et; by setoid_rewrite Eu);
    try (setoid_rewrite <- E; done).
Qed.

Lemma tabs_cons m d ds v : tabs m (d :: ds) v = tabs m [d] v + tabs m ds v.
Proof. unfold tabs. rewrite !pairs_cons, !count_app. simpl. lia. Qed.
Lemma users_cons m d ds v : users m (d :: ds) v = users m [d] v + users m ds v.
Proof. unfold users. rewrite !pairs_cons, !count_app. simpl. lia. Qed.

Lemma tabs_one m d v : tabs m [d] v =
  (if d =? v then 1 else 0) + count (λ j, bool_decide (pgtab m d j = Some v)) (seqZ 0 1024).
Proof.
  unfold tabs. rewrite pairs_cons. unfold pairs at 1. rewrite app_nil_r, count_pair.
  with_strategy transparent [slots] unfold slots. generalize (seqZ 0 1024). intros l.
  cbn [count fst snd tabat]. apply (f_equal2 Z.add).
  - destruct (Z.eqb_spec d v); [by rewrite bool_decide_true by congruence|].
    by rewrite bool_decide_false by congruence.
  - induction l as [|j l IH]; [done|].
    cbn. by rewrite <- IH.
Qed.

(** An address space without user pages leaves the set of those in use;
    its tables become pages the kernel holds. *)
Lemma vinv_retire k p ds kref d :
  vinv kend k p (d :: ds) kref →
  (∀ va, 0 ≤ va < KERNBASE → flag_set (pte (k_mem k) d va) PTE_P = false) →
  (∀ v, users (k_mem k) [d] v = 0) ∧
  vinv kend k p ds (λ v, kref v + tabs (k_mem k) [d] v).
Proof.
  intros I Hno.
  assert (∀ v, users (k_mem k) [d] v = 0) as Hu0.
  { intros v. apply count_zero. intros [d' n] [Hd' Hn]%elem_of_pairs. cbn [fst snd].
    apply list_elem_of_singleton in Hd' as ->. apply elem_of_upages in Hn.
    unfold entry_maps. by rewrite Hno. }
  split; [done|]. destruct I as [Ha Hnd Htab Husr Hrc Hun Hex Hfull]. apply NoDup_cons in Hnd as [Hnin Hnd].
  assert (∀ v, 0 ≤ tabs (k_mem k) [d] v) as Hn by (intros; apply tabs_nonneg).
  split; try done.
  - intros d' s t Hd'. apply Htab. by right.
  - intros d' va Hd'. apply Husr. by right.
  - intros v Hv. rewrite (Hrc v Hv), tabs_cons, users_cons, Hu0. lia.
  - intros v Hv Ht. specialize (Hn v). specialize (Hun v Hv).
    rewrite tabs_cons, users_cons, Hu0 in Hun. destruct Hun as (H1 & H2 & H3); lia.
  - intros d' va Hd'. apply Hex. by right.
Qed.

(** The references that remain while [freevm] frees the tables of entries
    [i] to [i + n - 1] of the directory [d] of [m0]. *)
Definition tables_from (m0 : memory) (d i n : Z) kref : Z → Z := λ v,
  hold d kref v + count (λ j, bool_decide (pgtab m0 d j = Some v)) (seqZ i n).

Lemma vstep_mono ds kref kref' k k' : (∀ v, kref v ≤ kref' v) →
  vstep kend ds kref' k k' → vstep kend ds kref k k'.
Proof.
  intros Hle [F P D]. split; [done|done|]. intros v Hv Hl. apply D; [done|].
  eapply live_mono; [apply Hle|done].
Qed.

Lemma pgtab_maps m d i v :
  bool_decide (pgtab m d i = Some v) = entry_maps (rd32 m (d + 4 * i)) v.
Proof.
  unfold entry_maps, upage. apply eq_true_iff_eq. rewrite bool_decide_eq_true. unfold pgtab.
  destruct (flag_set _ _); simpl; [|done]. rewrite Z.eqb_eq. split; congruence.
Qed.

Lemma freevm_loop_wp m0 ds kref d n : ∀ k c p i Q,
  vinv kend k p ds (tables_from m0 d i (Z.of_nat n) kref) → kpos kref → kready k c →
  page_ok kend d → 0 ≤ i → i + Z.of_nat n ≤ 1024 →
  (∀ j t, 0 ≤ j < 1024 → pgtab m0 d j = Some t → page_ok kend t) →
  agree_on (k_mem k) m0 d PGSIZE →
  (∀ k' p', vinv kend k' p' ds (hold d kref) → vstep kend ds (hold d kref) k k' → Q tt k') →
  wp (freevm_loop kend d i n) Q k.
Proof using Hkend.
  induction n as [|n IH]; intros k c p i Q I Hpos Hr Hd Hi Hn Htab Hag HQ; cbn [freevm_loop]; wp_auto.
  { eapply HQ; [|done]. eapply vinv_ext; [|done]. intros v. unfold tables_from. simpl. lia. }
  unfold load32. wp_auto.
  assert (rd32 (k_mem k) (d + 4 * i) = rd32 m0 (d + 4 * i)) as ->.
  { apply rd32_agree. eapply agree_on_sub; [done|lia|unfold PGSIZE; lia]. }
  set (e := rd32 m0 (d + 4 * i)).
  assert (∀ v, tables_from m0 d i (Z.of_nat (S n)) kref v =
    tables_from m0 d (i + 1) (Z.of_nat n) kref v + if entry_maps e v then 1 else 0) as Hsplit.
  { intros v. unfold tables_from. rewrite seqZ_cons by lia. cbn [count].
    replace (Z.pred (Z.of_nat (S n))) with (Z.of_nat n) by lia.
    rewrite pgtab_maps. fold e. unfold Z.succ. lia. }
  apply wp_when; intros HP.
  - assert (pgtab m0 d i = Some (upage e)) as Ht by (unfold pgtab; fold e; by rewrite HP).
    pose proof (Htab i (upage e) ltac:(lia) Ht) as Hok.
    assert (0 < tables_from m0 d i (Z.of_nat (S n)) kref (upage e)) as Hkp.
    { rewrite Hsplit, entry_maps_upage by done. unfold tables_from.
      pose proof (kpos_hold d kref Hpos (upage e)).
      pose proof (count_nonneg (λ j, bool_decide (pgtab m0 d j = Some (upage e)))
                    (seqZ (i + 1) (Z.of_nat n))). lia. }
    pose proof (users_nonneg (k_mem k) ds (upage e)) as Hun.
    destruct (live_not_tab _ _ _ _ _ I _ Hok) as [T0 R0]; [unfold live; lia|].
    eapply (kfree_vinv kend Hkend); try done.
    intros k1 p1 F1 I1 S1 _ _.
    assert (∀ v, drop (upage e) (tables_from m0 d i (Z.of_nat (S n)) kref) v =
                 tables_from m0 d (i + 1) (Z.of_nat n) kref v) as Ek.
    { intros v. unfold drop. rewrite Hsplit. unfold entry_maps. rewrite HP. simpl. lia. }
    apply (vinv_ext _ _ _ _ _ _ Ek) in I1.
    assert (vstep kend ds (hold d kref) k k1) as S1'.
    { eapply vstep_mono; [|done]. intros v. rewrite Ek. unfold tables_from.
      pose proof (count_nonneg (λ j, bool_decide (pgtab m0 d j = Some v))
                    (seqZ (i + 1) (Z.of_nat n))). lia. }
    eapply (IH k1 c); try done; try lia.
    + by eapply kready_frame.
    + eapply agree_on_trans; [|done]. apply S1'; [done|]. unfold live, hold. rewrite Z.eqb_refl.
      specialize (Hpos d). pose proof (users_nonneg (k_mem k) ds d). lia.
    + intros k' p' I' S'. eapply HQ; [done|by etrans].
  - eapply (IH k c); try done; try lia.
    eapply vinv_ext; [|done]. intros v. rewrite Hsplit. unfold entry_maps. rewrite HP. simpl. lia.
Qed.

(** Unmapping all of [d], seen from the other address spaces. *)
Lemma vunmap_others ds kref d lo hi k k' :
  NoDup (d :: ds) → (∀ v, users (k_mem k') [d] v = 0) → vunmap (d :: ds) kref d lo hi k k' →
  vstep kend ds kref k k'.
Proof.
  intros [Hnin _]%NoDup_cons Hu0 U.
  assert (∀ d' va, d' ∈ ds → 0 ≤ va < 2 ^ 32 → pte (k_mem k') d' va = pte (k_mem k) d' va) as Hp.
  { intros d' va Hd' Hva. rewrite (vu_pte _ _ _ _ _ _ _ U) by (done || by right).
    unfold unmap_pte. rewrite decide_False; [done|]. by intros [-> _]. }
  split; [apply U|done|]. intros v Hv Hl. apply U; [done|]. unfold live in *.
  rewrite users_cons, Hu0. rewrite (users_same (k_mem k)); [lia|].
  intros. apply Hp; [done|unfold KERNBASE in *; lia].
Qed.

Lemma freevm_wp k c p ds kref d Q :
  vinv kend k p (d :: ds) kref → kpos kref → kready k c →
  (∀ k' p', vinv kend k' p' ds kref → vstep kend ds kref k k' → Q tt k') →
  wp (freevm kend d) Q k.
Proof using Hkend.
  intros I Hpos Hr HQ. assert (d ∈ d :: ds) as Hin by by left.
  pose proof (vi_tab _ _ _ _ _ I d None d Hin ltac:(by apply elem_of_slots) eq_refl) as Hd.
  unfold freevm. destruct (page_ok_pos kend Hkend d Hd) as [_ Hnz].
  rewrite (proj2 (Z.eqb_neq _ _)) by done. apply wp_bind.
  eapply (deallocuvm_wp _ c); try done; try (unfold KERNBASE; lia).
  intros k1 p1 I1 U1. change (PGROUNDUP 0) with 0 in U1.
  destruct (vinv_retire _ _ _ _ _ I1) as [Hu0 I1'].
  { intros va Hva. rewrite (vu_pte _ _ _ _ _ _ _ U1) by (done || unfold KERNBASE in *; lia).
    unfold unmap_pte. rewrite decide_True.
    - unfold unmapped. by destruct (flag_set (pte (k_mem k) d va) PTE_P) eqn:E.
    - unfold PGSIZE, KERNBASE in *. split_and!; [done|lia|Z.div_mod_to_equations; lia]. }
  assert (vstep kend ds kref k k1) as S1.
  { by eapply vunmap_others; [apply I| |]. }
  apply wp_bind. eapply (freevm_loop_wp (k_mem k1) ds kref d); try done.
  - eapply vinv_ext; [|exact I1']. intros v. unfold tables_from, hold.
    rewrite tabs_one. change (Z.of_nat (Z.to_nat NPDENTRIES)) with 1024. lia.
  - eapply kready_frame; [apply S1|done].
  - intros j t Hj Ht. apply (vi_tab _ _ _ _ _ I1 d (Some j) t); [done|by apply elem_of_slots|done].
  - intros k2 p2 I2 S2.
    assert (live (k_mem k2) ds (hold d kref) d) as Hl.
    { unfold live, hold. rewrite Z.eqb_refl. specialize (Hpos d).
      pose proof (users_nonneg (k_mem k2) ds d). lia. }
    destruct (live_not_tab _ _ _ _ _ I2 d Hd Hl) as [T0 R0].
    eapply (kfree_vinv kend Hkend); try done.
    { eapply kready_frame; [|done]. etrans; [apply S1|apply S2]. }
    intros k3 p3 F3 I3 S3 _ _.
    assert (∀ v, drop d (hold d kref) v = kref v) as Ek by (intros v; unfold drop, hold; lia).
    eapply HQ; [by eapply vinv_ext|]. etrans; [exact S1|].
    etrans; [eapply vstep_mono; [|exact S2]|eapply vstep_mono; [|exact S3]]; intros v.
    + unfold hold. destruct (_ =? _); lia.
    + rewrite Ek. lia.
Qed.

(** ** Correctness *)

(** C6. [deallocuvm] returns the new size, unmaps exactly the pages of [d]
    between the new size (rounded up) and the old one, drops one reference
    for each, and keeps the contents of every page that is still in use. *)
Theorem deallocuvm_correct k c p ds kref d oldsz newsz :
  vinv kend k p ds kref → kpos kref → kready k c → d ∈ ds → 0 ≤ newsz < oldsz → oldsz ≤ KERNBASE →
  wp (deallocuvm kend d oldsz newsz) (λ r k', r = newsz ∧ (∃ p', vinv kend k' p' ds kref) ∧
    vunmap ds kref d (PGROUNDUP newsz) oldsz k k') k.
Proof using Hkend.
  intros. eapply deallocuvm_wp; try done. intros. split_and!; [done|eauto|done].
Qed.

(** Every page that nothing refers to is on the free list. *)
Definition no_leak k p ds kref : Prop :=
  ∀ v, page_ok kend v → kref v = 0 → tabs (k_mem k) ds v = 0 → users (k_mem k) ds v = 0 →
    v ∈ free p.

(** C4. [freevm] destroys an address space without a leak: every page that
    neither the kernel nor another address space refers to is on the free
    list afterwards, and the other address spaces and their contents are
    unchanged. *)
Theorem freevm_correct k c p ds kref d :
  vinv kend k p (d :: ds) kref → kpos kref → kready k c →
  wp (freevm kend d) (λ _ k', vstep kend ds kref k k' ∧
    ∃ p', vinv kend k' p' ds kref ∧ no_leak k' p' ds kref) k.
Proof using Hkend.
  intros I Hpos Hr. eapply freevm_wp; try done. intros k' p' I' S'. split; [done|].
  exists p'. split; [done|]. intros v Hv K0 T0 U0. apply (vi_full _ _ _ _ _ I'); [done|].
  rewrite (vi_rc _ _ _ _ _ I') by done. lia.
Qed.
End free.
