(* ===== verification/VmKern.v ===== *)
(** [setupkvm]: the kernel half of an address space. *)

From S2P Require Import Prelude Memory Kstring Spinlock Mmu Kalloc Vm VmInv VmWalk VmMap VmFree.

Section kern.
Context (kend : Z) (Hkend : KERNLINK ≤ kend).
Implicit Types (k : kst) (p : pool) (ds : list Z) (kref : Z → Z).

(** A step that changes only kernel entries of [d], and no live page. *)
Record vkern ds kref (d : Z) k k' : Prop := {
  vk_frame : kframe k k';
  vk_pte : ∀ d' vb, d' ∈ ds → 0 ≤ vb < 2 ^ 32 → d' ≠ d ∨ vb < KERNBASE →
    pte (k_mem k') d' vb = pte (k_mem k) d' vb;
  vk_data : ∀ v, page_ok kend v → live (k_mem k) ds kref v →
    agree_on (k_mem k') (k_mem k) v PGSIZE;
}.

Lemma vkern_users ds kref d k k' v : vkern ds kref d k k' →
  users (k_mem k') ds v = users (k_mem k) ds v.
Proof.
  intros K. apply users_same. intros d' va Hd' Hva.
  apply (vk_pte _ _ _ _ _ K); [done|unfold KERNBASE in *; lia|lia].
Qed.

#[global] Instance vkern_refl ds kref d : Reflexive (vkern ds kref d).
Proof. intros k. split; [done|done|]. intros. apply agree_on_refl. Qed.

#[global] Instance vkern_trans ds kref d : Transitive (vkern ds kref d).
Proof.
  intros k1 k2 k3 K1 K2. split.
  - etrans; [apply K1|apply K2].
  - intros. rewrite (vk_pte _ _ _ _ _ K2) by done. by apply (vk_pte _ _ _ _ _ K1).
  - intros v Hv Hl. eapply agree_on_trans; [|by apply K1]. apply K2; [done|].
    unfold live in *. by rewrite (vkern_users _ _ _ _ _ _ K1).
Qed.

Lemma vstep_kern ds kref d k k' : vstep kend ds kref k k' → vkern ds kref d k k'.
Proof. intros [F P D]. split; auto. Qed.

Lemma vset_kern ds kref d a e k k' :
  KERNBASE ≤ a → vset kend ds kref d a e k k' → vkern ds kref d k k'.
Proof.
  intros Ha [F P D]. split; [done| |done]. intros d' vb Hd' Hvb Hor. rewrite P by done.
  rewrite decide_False; [done|]. intros [-> E]. destruct Hor as [|Hlt]; [done|].
  unfold PGSIZE, KERNBASE in *. Z.div_mod_to_equations. lia.
Qed.

(** What [mappages] writes for the page at [a + i * PGSIZE]. *)
Definition kentry (pa f : Z) : Z := Z.lor (Z.lor pa f) PTE_P.

Lemma kentry_range pa f : pa mod 4096 = 0 → 0 ≤ pa < 2 ^ 32 → 0 ≤ f < 4096 →
  0 ≤ kentry pa f < 2 ^ 32.
Proof.
  intros Hal Hpa Hf. unfold kentry. rewrite <- Z.lor_assoc.
  rewrite lor_page; [|done|apply lor_flags; unfold PTE_P; lia].
  pose proof (lor_flags f PTE_P Hf ltac:(unfold PTE_P; lia)). Z.div_mod_to_equations. lia.
Qed.

Lemma mappages_loop_S d a last pa f n :
  mappages_loop d a last pa f (S n) =
    (pte ← walkpgdir d a true;
     if pte =? 0 then mret (-1) else
     e ← load32 pte;
     if flag_set e PTE_P then panic "remap" else
     store32 pte (kentry pa f);;
     if a =? last then mret 0
     else mappages_loop d (u32 (a + PGSIZE)) last (u32 (pa + PGSIZE)) f n).
Proof. done. Qed.

(** What a range of [n + 1] kernel pages at [a], mapped to [pa], makes of
    an entry [e0]. *)
Definition kern_pte (a pa f n vb e0 : Z) : Z :=
  if decide (a ≤ vb < a + (n + 1) * PGSIZE)
  then kentry (pa + (vb / PGSIZE * PGSIZE - a)) f else e0.

Lemma kern_pte_cons a pa f n vb e0 : a mod PGSIZE = 0 → 0 ≤ n →
  kern_pte (a + PGSIZE) (pa + PGSIZE) f (n - 1) vb
    (if decide (vb / PGSIZE = a / PGSIZE) then kentry pa f else e0) =
  kern_pte a pa f n vb e0.
Proof.
  intros Hal Hn. unfold kern_pte, PGSIZE in *. destruct (decide (vb / 4096 = a / 4096)) as [E|E].
  - rewrite decide_False, decide_True by (Z.div_mod_to_equations; lia).
    f_equal. rewrite E. Z.div_mod_to_equations. lia.
  - destruct (decide (a + 4096 ≤ vb < _)) as [E2|E2].
    + rewrite decide_True by lia. f_equal. lia.
    + rewrite decide_False; [done|]. intros E3. apply E. Z.div_mod_to_equations. lia.
Qed.

Definition kern_pre d a pa f (n : nat) k : Prop :=
  a mod PGSIZE = 0 ∧ KERNBASE ≤ a ∧ a + (Z.of_nat n + 1) * PGSIZE ≤ 2 ^ 32 ∧
  pa mod PGSIZE = 0 ∧ 0 ≤ pa ∧ pa + (Z.of_nat n + 1) * PGSIZE ≤ 2 ^ 32 ∧ 0 ≤ f < 4096 ∧
  ∀ vb, a ≤ vb < a + (Z.of_nat n + 1) * PGSIZE → flag_set (pte (k_mem k) d vb) PTE_P = false.

Lemma map_kern_loop want n : ∀ k i p ds kref d a pa f Q,
  vinv kend k p ds kref → kpos kref → kready k i → d ∈ ds → kern_pre d a pa f n k →
  (∀ vb, a ≤ vb < a + (Z.of_nat n + 1) * PGSIZE → want (PDX vb) = true) →
  (∀ k' p', vkern ds kref d k k' → vinv kend k' p' ds kref → slack want d k p < 0 → Q (-1) k') →
  (∀ k' p', vkern ds kref d k k' → vinv kend k' p' ds kref →
     (∀ vb, 0 ≤ vb < 2 ^ 32 →
        pte (k_mem k') d vb = kern_pte a pa f (Z.of_nat n) vb (pte (k_mem k) d vb)) →
     slack want d k' p' = slack want d k p → Q 0 k') →
  wp (mappages_loop d a (a + Z.of_nat n * PGSIZE) pa f (S n)) Q k.
Proof using Hkend.
  induction n as [|n IH]; intros k i p ds kref d a pa f Q I Hpos Hr Hd
    (Hal & Ha & Hend & Hpal & Hpa & Hpend & Hf & HP) Hw Q0 Q1; rewrite mappages_loop_S;
    pose proof (Hw a ltac:(unfold PGSIZE; lia)) as Hwa;
    (eapply (map_body_wp kend Hkend _ _ _ _ _ _ _ (kentry pa f)); try done;
      [unfold KERNBASE, PGSIZE in *; lia|apply kentry_range; unfold PGSIZE in *; done || lia
      |apply HP; unfold PGSIZE; lia|lia
      |intros k' p' S' I' Hsh; eapply Q0; [by apply vstep_kern|done|by apply Hsh]|]);
    intros k1 p1 T1 I1 Hss; specialize (Hss want Hwa); pose proof (vset_kern _ _ _ _ _ _ _ Ha T1) as K1;
    (apply (vinv_ext _ _ _ _ _ kref) in I1; [|intros; by apply give_kernel]);
    assert (∀ vb, 0 ≤ vb < 2 ^ 32 → pte (k_mem k1) d vb =
      if decide (vb / PGSIZE = a / PGSIZE) then kentry pa f else pte (k_mem k) d vb) as Hpte1
      by (intros vb Hvb; rewrite (vt_pte _ _ _ _ _ _ _ _ T1) by done;
          repeat case_decide; tauto).
  - rewrite (proj2 (Z.eqb_eq _ _)) by lia. wp_auto. eapply Q1; [done..| |done].
    intros vb Hvb. rewrite Hpte1, <- kern_pte_cons by done.
    unfold kern_pte at 1. rewrite (decide_False (P := a + PGSIZE ≤ vb < _)); [done|lia].
  - rewrite (proj2 (Z.eqb_neq _ _)) by (unfold PGSIZE; lia).
    rewrite !u32_small by (unfold KERNBASE, PGSIZE in *; lia).
    replace (a + Z.of_nat (S n) * PGSIZE) with (a + PGSIZE + Z.of_nat n * PGSIZE) by lia.
    eapply (IH _ i); try done.
    + eapply kready_frame; [apply K1|done].
    + unfold kern_pre. split_and!; try lia; try (unfold PGSIZE in *; Z.div_mod_to_equations; lia).
      intros vb Hvb. rewrite Hpte1 by (unfold KERNBASE, PGSIZE in *; lia).
      rewrite decide_False; [apply HP; unfold PGSIZE in *; lia|].
      intros E. unfold PGSIZE in *. Z.div_mod_to_equations. lia.
    + intros vb Hvb. apply Hw. unfold PGSIZE in *. lia.
    + intros k' p' K' I' Hlow. eapply Q0; [by etrans|done|by rewrite <- Hss].
    + intros k' p' K' I' Hpte Hs'. eapply Q1; [by etrans|done| |by rewrite Hs'].
      intros vb Hvb. rewrite Hpte, Hpte1 by done.
      rewrite <- (kern_pte_cons a pa f (Z.of_nat (S n))) by lia. f_equal. lia.
Qed.

(** ** A new page directory *)

(** An empty page that the kernel holds becomes an address space in which
    nothing is mapped. *)
Lemma vinv_adopt k p ds kref d :
  vinv kend k p ds (hold d kref) → page_ok kend d →
  kref d = 0 → tabs (k_mem k) ds d = 0 → users (k_mem k) ds d = 0 →
  (∀ x, d ≤ x < d + PGSIZE → rd8 (k_mem k) x = 0) →
  (∀ va, pte (k_mem k) d va = 0) ∧ vinv kend k p (d :: ds) kref.
Proof.
  intros I Hd K0 T0 U0 Hz.
  assert (∀ j, 0 ≤ j < 1024 → pgtab (k_mem k) d j = None) as Hnone.
  { intros j Hj. unfold pgtab. rewrite rd32_zero; [done|].
    intros x Hx. apply Hz. unfold PGSIZE. lia. }
  assert (∀ va, pte (k_mem k) d va = 0) as Hpte.
  { intros va. unfold pte. rewrite Hnone; [done|]. apply PDX_range. }
  assert (∀ v, tabs (k_mem k) [d] v = if d =? v then 1 else 0) as Ht.
  { intros v. rewrite tabs_one, count_zero; [lia|]. intros j Hj%elem_of_seqZ.
    rewrite Hnone by lia. by apply bool_decide_eq_false. }
  assert (∀ v, users (k_mem k) [d] v = 0) as Hu.
  { intros v. apply count_zero. intros [d' n] [Hd' _]%elem_of_pairs.
    apply list_elem_of_singleton in Hd' as ->. cbn [fst snd]. by rewrite Hpte. }
  split; [done|]. destruct I as [Ha Hnd Htab Husr Hrc Hun Hex Hfull]. split; try done.
  - apply NoDup_cons. split; [|done]. intros Hin.
    pose proof (tabs_pos (k_mem k) ds d None d Hin ltac:(by apply elem_of_slots) eq_refl). lia.
  - intros d' [j|] t [->|Hd']%elem_of_cons Hs; simpl.
    + rewrite Hnone; [done|]. by apply elem_of_slots in Hs.
    + by apply (Htab d' (Some j)).
    + by intros [= <-].
    + by apply (Htab d' None).
  - intros d' va [->|Hd']%elem_of_cons; [by rewrite Hpte|by apply Husr].
  - intros v Hv. rewrite tabs_cons, users_cons, Ht, Hu, (Hrc v Hv). unfold hold. lia.
  - intros v Hv. rewrite tabs_cons, users_cons, Ht, Hu. destruct (Z.eqb_spec d v) as [<-|].
    + intros _. rewrite (Hrc d Hv). unfold hold. rewrite Z.eqb_refl. lia.
    + rewrite Z.add_0_l. by apply Hun.
  - intros d' va [->|Hd']%elem_of_cons; [by rewrite Hpte|by apply Hex].
Qed.

(** ** The kernel map *)

Definition ksize (e : kmap_entry) : Z := u32 (phys_end e - phys_start e).

(** The entry that the ranges [ks] give to [va]. *)
Fixpoint kmap_pte (ks : list kmap_entry) (va e0 : Z) : Z :=
  match ks with
  | [] => e0
  | e :: ks' =>
      if decide (virt e ≤ va < virt e + ksize e)
      then kentry (phys_start e + (va / PGSIZE * PGSIZE - virt e)) (perm e)
      else kmap_pte ks' va e0
  end.

Record kmap_wf (e : kmap_entry) : Prop := {
  kw_virt : virt e mod PGSIZE = 0 ∧ KERNBASE ≤ virt e ∧ virt e + ksize e ≤ 2 ^ 32;
  kw_phys : phys_start e mod PGSIZE = 0 ∧ 0 ≤ phys_start e ∧ phys_start e + ksize e ≤ 2 ^ 32;
  kw_size : ksize e mod PGSIZE = 0 ∧ 0 < ksize e;
  kw_perm : 0 ≤ perm e < 4096;
}.

Fixpoint kmap_disjoint (ks : list kmap_entry) : Prop :=
  match ks with
  | [] => True
  | e :: ks' =>
      Forall (λ e', virt e + ksize e ≤ virt e' ∨ virt e' + ksize e' ≤ virt e) ks' ∧
      kmap_disjoint ks'
  end.

Lemma mappages_range d e : kmap_wf e →
  mappages d (virt e) (ksize e) (phys_start e) (perm e) =
    mappages_loop d (virt e)
      (virt e + Z.of_nat (Z.to_nat (ksize e / PGSIZE - 1)) * PGSIZE) (phys_start e) (perm e)
      (S (Z.to_nat (ksize e / PGSIZE - 1))).
Proof.
  intros [[Hval [Hv1 Hv2]] _ [Hsal Hs] _]. unfold mappages.
  set (v := virt e) in *. set (s := ksize e) in *. unfold PGSIZE, KERNBASE in *.
  assert (PGROUNDDOWN v = v) as -> by (rewrite PGROUNDDOWN_eq; unfold PGSIZE; lia).
  assert (PGROUNDDOWN (u32 (v + s - 1)) = v + s - 4096) as ->.
  { rewrite u32_small by lia. rewrite PGROUNDDOWN_eq. unfold PGSIZE. Z.div_mod_to_equations. lia. }
  rewrite u32_small by (Z.div_mod_to_equations; lia).
  f_equal; [Z.div_mod_to_equations; lia|]. do 2 f_equal. Z.div_mod_to_equations. lia.
Qed.

Lemma kmap_pte_outside ks va e0 :
  Forall (λ e, ¬ (virt e ≤ va < virt e + ksize e)) ks → kmap_pte ks va e0 = e0.
Proof. induction 1; simpl; [done|]. by rewrite decide_False. Qed.

Lemma vkern_others ds kref d k k' :
  NoDup (d :: ds) → (∀ v, users (k_mem k) [d] v = 0) → vkern (d :: ds) kref d k k' →
  vstep kend ds kref k k'.
Proof.
  intros [Hnin _]%NoDup_cons Hu0 K. split; [apply K|..].
  - intros d' va Hd' Hva. apply K; [by right|done|]. left. by intros ->.
  - intros v Hv Hl. apply K; [done|]. unfold live in *. rewrite users_cons, Hu0. lia.
Qed.

Lemma users_nil m d : (∀ va, 0 ≤ va < KERNBASE → flag_set (pte m d va) PTE_P = false) →
  ∀ v, users m [d] v = 0.
Proof.
  intros Hno v. apply count_zero. intros [d' n] [Hd' Hn]%elem_of_pairs. cbn [fst snd].
  apply list_elem_of_singleton in Hd' as ->. apply elem_of_upages in Hn.
  unfold entry_maps. by rewrite Hno.
Qed.

(** The page tables of the ranges [ks]. *)
Definition kmap_tables (ks : list kmap_entry) (j : Z) : bool :=
  existsb (λ e, (PDX (virt e) <=? j) && (j <=? PDX (virt e + ksize e - 1))) ks.

Lemma kmap_tables_in ks e va : e ∈ ks → kmap_wf e → virt e ≤ va < virt e + ksize e →
  kmap_tables ks (PDX va) = true.
Proof.
  intros He [[_ [Hv1 Hv2]] _ _ _] Hva. apply existsb_exists. exists e.
  split; [by apply list_elem_of_In|]. unfold KERNBASE in *. rewrite !PDX_eq by lia.
  apply andb_true_iff. rewrite !Z.leb_le. split; apply Z.div_le_mono; lia.
Qed.

Lemma setupkvm_loop_wp ds kref d c want ks : ∀ k p Q,
  vinv kend k p (d :: ds) kref → kpos kref → kready k c →
  Forall kmap_wf ks → kmap_disjoint ks →
  (∀ va, 0 ≤ va < KERNBASE → flag_set (pte (k_mem k) d va) PTE_P = false) →
  Forall (λ e, ∀ va, virt e ≤ va < virt e + ksize e →
            flag_set (pte (k_mem k) d va) PTE_P = false) ks →
  Forall (λ e, ∀ va, virt e ≤ va < virt e + ksize e → want (PDX va) = true) ks →
  (∀ k' p', vinv kend k' p' ds kref → vstep kend ds kref k k' → slack want d k p < 0 → Q 0 k') →
  (∀ k' p', vinv kend k' p' (d :: ds) kref → vkern (d :: ds) kref d k k' →
     (∀ va, 0 ≤ va < 2 ^ 32 → pte (k_mem k') d va = kmap_pte ks va (pte (k_mem k) d va)) →
     Q d k') →
  wp (setupkvm_loop kend d ks) Q k.
Proof using Hkend.
  induction ks as [|e ks IH]; intros k p Q I Hpos Hr Hwf Hdis Hu Hno Hw Q0 Q1; simpl; wp_auto.
  { by eapply Q1. }
  apply Forall_cons in Hwf as [We Hwf]. apply Forall_cons in Hno as [Hne Hno].
  apply Forall_cons in Hw as [Hwe Hw].
  destruct Hdis as [Hd1 Hdis]. fold (ksize e). rewrite mappages_range by done.
  assert (d ∈ d :: ds) as Hin by by left.
  assert (Z.of_nat (Z.to_nat (ksize e / PGSIZE - 1)) + 1 = ksize e / PGSIZE ∧
          ksize e / PGSIZE * PGSIZE = ksize e) as [Es1 Es2].
  { destruct We as [_ _ [? ?] _]. unfold PGSIZE in *. Z.div_mod_to_equations. lia. }
  eapply (map_kern_loop want _ _ c); try done.
  { unfold kern_pre. rewrite Es1, Es2. destruct We; destruct_and!. split_and!; done. }
  { by rewrite Es1, Es2. }
  - intros k1 p1 K1 I1 Hlow. simpl. wp_auto.
    eapply (freevm_wp kend Hkend); try done; [eapply kready_frame; [apply K1|done]|].
    intros k2 p2 I2 S2. wp_auto. eapply Q0; [done| |done]. etrans; [|done].
    eapply vkern_others; [apply I|by apply users_nil|done].
  - intros k1 p1 K1 I1 Hpte1 Hss. simpl.
    assert (∀ va, 0 ≤ va < 2 ^ 32 → pte (k_mem k1) d va = kmap_pte [e] va (pte (k_mem k) d va))
      as Hp1.
    { intros va Hva. rewrite Hpte1 by done. unfold kern_pte. simpl. by rewrite Es1, Es2. }
    eapply (IH k1 p1); try done.
    + eapply kready_frame; [apply K1|done].
    + intros va Hva. rewrite (vk_pte _ _ _ _ _ K1); [by apply Hu|done|unfold KERNBASE in *; lia|lia].
    + rewrite Forall_forall in Hwf, Hno, Hd1 |- *. intros e' He' va Hva.
      rewrite Hp1 by (destruct (kw_virt _ (Hwf e' He')); unfold KERNBASE in *; lia).
      simpl. rewrite decide_False by (destruct (Hd1 e' He'); lia). by apply (Hno e').
    + intros k' p' I' S' Hlow. eapply Q0; [done| |by rewrite <- Hss]. etrans; [|done].
      eapply vkern_others; [apply I|by apply users_nil|done].
    + intros k' p' I' K' Hpte. eapply Q1; [done|by etrans|].
      intros va Hva. rewrite Hpte, Hp1 by done. simpl. case_decide as E; [|done].
      rewrite kmap_pte_outside; [done|]. eapply Forall_impl; [exact Hd1|]. intros ? [|]; lia.
Qed.

Lemma kmap_sizes data : KERNLINK < data < KERNBASE + PHYSTOP →
  V2P data = data - KERNBASE ∧
  ksize (Kmap KERNLINK (V2P KERNLINK) (V2P data) 0) = data - KERNLINK ∧
  ksize (Kmap data (V2P data) PHYSTOP PTE_W) = KERNBASE + PHYSTOP - data.
Proof.
  intros Hr. assert (V2P data = data - KERNBASE) as Ed.
  { unfold V2P. apply u32_small. unfold KERNLINK, EXTMEM, KERNBASE, PHYSTOP in *. lia. }
  unfold ksize. cbn [phys_start phys_end]. rewrite Ed. change (V2P KERNLINK) with EXTMEM.
  unfold KERNLINK, EXTMEM, KERNBASE, PHYSTOP in *. rewrite !u32_small by lia. lia.
Qed.

Section setup.
(** kernel.ld places [data] on a page boundary after the kernel text. *)
Context (data : Z) (Hdata : data mod PGSIZE = 0 ∧ KERNLINK < data < KERNBASE + PHYSTOP).

Lemma kmap_good : Forall kmap_wf (kmap data) ∧ kmap_disjoint (kmap data).
Proof using Hdata.
  destruct (kmap_sizes data) as (Ed & E2 & E3); [apply Hdata|].
  assert (ksize (Kmap DEVSPACE DEVSPACE 0 PTE_W) = 0x2000000) as E4 by done.
  assert (ksize (Kmap KERNBASE 0 EXTMEM PTE_W) = EXTMEM) as E1 by done.
  destruct Hdata as [Hal Hr]. split.
  - repeat apply Forall_cons_2; [..|by apply Forall_nil]; split;
      rewrite ?E1, ?E2, ?E3, ?E4; cbn [virt phys_start perm]; rewrite ?Ed;
      unfold V2P, KERNLINK, EXTMEM, KERNBASE, PHYSTOP, DEVSPACE, PGSIZE, PTE_W in *;
      rewrite ?u32_small by lia; try (split_and!); Z.div_mod_to_equations; lia.
  - simpl. rewrite ?E1, ?E2, ?E3, ?E4, ?Forall_cons. cbn [virt].
    unfold V2P, KERNLINK, EXTMEM, KERNBASE, PHYSTOP, DEVSPACE, PGSIZE in *.
    rewrite ?Forall_cons, ?Forall_nil, ?E1, ?E2, ?E3, ?E4. cbn [virt]. split_and!; try done; lia.
Qed.

(** The kernel map lies in 64 page tables. *)
Lemma kmap_tables_count : count (kmap_tables (kmap data)) (seqZ 0 1024) ≤ 64.
Proof using Hdata.
  rewrite <- (eq_refl : count (λ j, ((512 <=? j) && (j <=? 567)) || (1016 <=? j)) (seqZ 0 1024) = 64).
  destruct (kmap_sizes data) as (_ & E2 & E3); [apply Hdata|]. destruct Hdata as [_ Hr].
  apply count_le. intros j Hj%elem_of_seqZ. unfold kmap_tables, kmap. cbn [existsb virt].
  rewrite E2, E3. change (ksize (Kmap KERNBASE 0 EXTMEM PTE_W)) with EXTMEM.
  change (ksize (Kmap DEVSPACE DEVSPACE 0 PTE_W)) with 0x2000000.
  unfold KERNLINK, EXTMEM, KERNBASE, PHYSTOP, DEVSPACE in *. rewrite !PDX_eq by lia.
  rewrite !orb_true_iff, !andb_true_iff, !Z.leb_le.
  intros [|[|[|[|]]]]; try done; Z.div_mod_to_equations; lia.
Qed.

Lemma setupkvm_wp k c p ds kref Q :
  vinv kend k p ds kref → kpos kref → kready k c →
  (∀ k' p', vinv kend k' p' ds kref → vstep kend ds kref k k' →
     Z.of_nat (length (free p)) < 65 → Q 0 k') →
  (∀ k' p' d, d ∉ ds → vinv kend k' p' (d :: ds) kref → vstep kend ds kref k k' →
     (∀ va, 0 ≤ va < 2 ^ 32 → pte (k_mem k') d va = kmap_pte (kmap data) va 0) →
     Q d k') →
  wp (setupkvm kend data) Q k.
Proof using Hkend Hdata.
  intros I Hpos Hr Q0 Q1. unfold setupkvm. wp_auto.
  eapply (kalloc_vinv kend Hkend); try done.
  { intros k1 p1 Hf Hm E I1. wp_auto. eapply Q0; [done|by apply mem_eq_step|by rewrite E]. }
  intros k1 p1 d Hf Hm Hd Hnf K0 T0 U0 R1 Efree I1. rewrite <- Hm in T0, U0.
  destruct (page_ok_pos kend Hkend d Hd) as [_ Hnz].
  rewrite (proj2 (Z.eqb_neq _ _)) by done. wp_auto.
  destruct (zero_page kend Hkend _ _ _ _ d I1 Hd T0 Hnf) as (I2 & Hz & Hoff & Hag).
  set (k2 := set_mem (memset (k_mem k1) d 0 PGSIZE) k1) in *.
  rewrite <- (tabs_agree _ _ _ Hag) in T0. rewrite <- (users_agree _ _ _ Hag) in U0.
  destruct (vinv_adopt _ _ _ _ _ I2 Hd K0 T0 U0 Hz) as [Hpte I3].
  assert (vstep kend ds kref k k2) as S2.
  { split; [exact Hf|intros; rewrite (pte_agree _ _ _ Hag) by done; by rewrite Hm|].
    intros v Hv Hl x Hx. rewrite <- Hm, Hoff; [done|]. unfold live in Hl.
    rewrite <- Hm, <- (users_agree _ _ _ Hag) in Hl.
    assert (d ≠ v) by (intros ->; lia).
    destruct (page_disjoint d v); [apply Hd|apply Hv|done|lia|lia]. }
  destruct kmap_good as [Hwf Hdis]. change (DEVSPACE <? P2V PHYSTOP) with false. cbv iota.
  eapply (setupkvm_loop_wp ds kref d c (kmap_tables (kmap data))); try done.
  - by apply (kready_frame k).
  - intros va _. by rewrite Hpte.
  - apply Forall_true. intros e va _. by rewrite Hpte.
  - rewrite Forall_forall in Hwf |- *. intros e He va. by apply kmap_tables_in, Hwf.
  - intros k' p' I' S' Hlow. eapply Q0; [done|by etrans|]. rewrite Efree. cbn [length].
    assert (missing (kmap_tables (kmap data)) (k_mem k2) d ≤
      count (kmap_tables (kmap data)) (seqZ 0 1024)).
    { apply count_le. by intros j _ [? _]%andb_true_iff. }
    pose proof kmap_tables_count. unfold slack in Hlow. lia.
  - intros k' p' I' K' Hpte'. eapply Q1; try done.
    + pose proof (vi_nodup _ _ _ _ _ I3) as Hnd. by apply NoDup_cons in Hnd as [? _].
    + etrans; [done|]. eapply vkern_others; [apply I3| |done].
      apply users_nil. intros va _. by rewrite Hpte.
    + intros va Hva. by rewrite Hpte', Hpte.
Qed.
End setup.

(** ** Correctness *)

Lemma kentry_bits pa f b : pa mod 4096 = 0 → 0 ≤ f < 4096 → 0 ≤ b < 12 →
  Z.testbit (kentry pa f) b = Z.testbit f b || (b =? 0).
Proof.
  intros Hpa Hf Hb. unfold kentry. rewrite <- Z.lor_assoc, flag_page, Z.lor_spec by done. f_equal.
Qed.

Lemma kentry_ADDR pa f : pa mod 4096 = 0 → 0 ≤ f < 4096 → PTE_ADDR (kentry pa f) = pa.
Proof.
  intros Hpa Hf. unfold kentry. rewrite <- Z.lor_assoc. apply PTE_ADDR_lor; [done|].
  apply lor_flags; [done|]. unfold PTE_P. lia.
Qed.

(** The translation of [va] that every address space must have. *)
Definition kernel_map (data va e : Z) : Prop :=
  let mapped pa w := flag_set e PTE_P = true ∧ flag_set e PTE_U = false ∧
                     flag_set e PTE_W = w ∧ PTE_ADDR e = pa in
  (0 ≤ va < KERNBASE → e = 0) ∧
  (KERNBASE ≤ va < KERNBASE + PHYSTOP →
     mapped (va / PGSIZE * PGSIZE - KERNBASE) (negb ((KERNLINK <=? va) && (va <? data)))) ∧
  (KERNBASE + PHYSTOP ≤ va < DEVSPACE → e = 0) ∧
  (DEVSPACE ≤ va < 2 ^ 32 → mapped (va / PGSIZE * PGSIZE) true).

Lemma kmap_kernel_map data va : data mod PGSIZE = 0 ∧ KERNLINK < data < KERNBASE + PHYSTOP →
  0 ≤ va < 2 ^ 32 → kernel_map data va (kmap_pte (kmap data) va 0).
Proof.
  intros [Hdal Hdr] Hva.
  destruct (kmap_sizes data Hdr) as (Ed & E2 & E3).
  cbn [kmap_pte kmap]. rewrite E2, E3. cbn [virt phys_start perm]. rewrite Ed.
  change (ksize (Kmap KERNBASE 0 EXTMEM PTE_W)) with EXTMEM.
  change (ksize (Kmap DEVSPACE DEVSPACE 0 PTE_W)) with 0x2000000.
  change (V2P KERNLINK) with EXTMEM.
  assert (∀ pa f, pa mod 4096 = 0 → f = 0 ∨ f = PTE_W →
    flag_set (kentry pa f) PTE_P = true ∧ flag_set (kentry pa f) PTE_U = false ∧
    flag_set (kentry pa f) PTE_W = (f =? 2) ∧ PTE_ADDR (kentry pa f) = pa) as Hk.
  { intros pa f Hpa Hf. assert (0 ≤ f < 4096) by (destruct Hf as [->| ->]; unfold PTE_W; lia).
    rewrite flag_P, flag_U, flag_W, !kentry_bits, kentry_ADDR by (done || lia).
    by destruct Hf as [->| ->]. }
  unfold kernel_map. unfold KERNLINK, EXTMEM, KERNBASE, PHYSTOP, DEVSPACE, PGSIZE in *.
  repeat case_decide; split_and!; intros Hr; try lia;
    (match goal with |- context [kentry ?pa ?f] =>
       destruct (Hk pa f) as (-> & -> & -> & ->); [Z.div_mod_to_equations; lia|auto|] end);
    (split_and!; [done|done| |Z.div_mod_to_equations; lia]).
  all: try done; destruct (Z.leb_spec (2147483648 + 1048576) va), (Z.ltb_spec va data); try done; lia.
Qed.

(** C7. [setupkvm] either fails and gives everything it took back, or returns a new page directory whose user half is empty and
    whose kernel half is the kernel map: physical memory at KERNBASE with
    the kernel text read-only, devices identity-mapped, nothing accessible
    to user mode.  It fails only for lack of memory: when fewer than 65
    pages, one directory and 64 page tables, are free.  No other address
    space and no page in use changes. *)
Theorem setupkvm_correct k c p ds kref data :
  data mod PGSIZE = 0 ∧ KERNLINK < data < KERNBASE + PHYSTOP →
  vinv kend k p ds kref → kpos kref → kready k c →
  wp (setupkvm kend data) (λ d k', vstep kend ds kref k k' ∧
    ((d = 0 ∧ Z.of_nat (length (free p)) < 65 ∧ ∃ p', vinv kend k' p' ds kref) ∨
     (d ∉ ds ∧ (∃ p', vinv kend k' p' (d :: ds) kref) ∧
      ∀ va, 0 ≤ va < 2 ^ 32 → kernel_map data va (pte (k_mem k') d va)))) k.
Proof using Hkend.
  intros Hdata I Hpos Hr. eapply (setupkvm_wp data Hdata k c); try done.
  - intros k' p' I' S' Hlow. split; [done|]. left. eauto.
  - intros k' p' d Hd I' S' Hpte. split; [done|]. right. split_and!; [done|eauto|].
    intros va Hva. rewrite Hpte by done. by apply kmap_kernel_map.
Qed.
End kern.
