(* ===== verification/VmUser.v ===== *)
(** [allocuvm] and [copyuvm]: growing and copying user memory. *)

From S2P Require Import Prelude Memory Kstring Spinlock Mmu Kalloc Vm VmInv VmWalk VmMap VmFree VmKern.

(** The byte a process sees at [va], if the page is mapped. *)
Definition ubyte (m : memory) (d va : Z) : option Z :=
  let e := pte m d va in
  if flag_set e PTE_P then Some (rd8 m (upage e + va mod PGSIZE)) else None.

(** [vb] lies in a page that starts in [lo, hi). *)
Definition in_pages (lo hi vb : Z) : Prop := lo ≤ vb ∧ vb / PGSIZE * PGSIZE < hi.

#[global] Instance in_pages_dec lo hi vb : Decision (in_pages lo hi vb).
Proof. apply _. Defined.

Lemma in_pages_cons lo hi vb : lo mod PGSIZE = 0 → lo < hi →
  in_pages lo hi vb ↔ vb / PGSIZE = lo / PGSIZE ∨ in_pages (lo + PGSIZE) hi vb.
Proof.
  unfold in_pages, PGSIZE. intros Hal Hlt. split.
  - intros [H1 H2]. destruct (decide (vb / 4096 = lo / 4096)); [by left|right].
    split; [|done]. Z.div_mod_to_equations. lia.
  - intros [E|[H1 H2]]; [|lia]. Z.div_mod_to_equations. lia.
Qed.

Section user.
Context (kend : Z) (Hkend : KERNLINK ≤ kend).
Implicit Types (k : kst) (p : pool) (ds : list Z) (kref : Z → Z).

(** A present, writable user page of zeroes. *)
Definition fresh_entry (m : memory) (e : Z) : Prop :=
  flag_set e PTE_P = true ∧ flag_set e PTE_W = true ∧ flag_set e PTE_U = true ∧
  ∀ x, upage e ≤ x < upage e + PGSIZE → rd8 m x = 0.

(** The pages of [d] in [lo, hi) were mapped to pages of zeroes. *)
Record valloc ds kref (d lo hi : Z) k k' : Prop := {
  va_frame : kframe k k';
  va_pte : ∀ d' vb, d' ∈ ds → 0 ≤ vb < 2 ^ 32 → ¬ (d' = d ∧ in_pages lo hi vb) →
    pte (k_mem k') d' vb = pte (k_mem k) d' vb;
  va_new : ∀ vb, 0 ≤ vb < 2 ^ 32 → in_pages lo hi vb →
    fresh_entry (k_mem k') (pte (k_mem k') d vb);
  va_data : ∀ v, page_ok kend v → live (k_mem k) ds kref v →
    agree_on (k_mem k') (k_mem k) v PGSIZE;
}.

(** The pages of [d] in [lo, hi) are not mapped any more. *)
Record vclear ds kref (d lo hi : Z) k k' : Prop := {
  vc_frame : kframe k k';
  vc_pte : ∀ d' vb, d' ∈ ds → 0 ≤ vb < 2 ^ 32 → ¬ (d' = d ∧ in_pages lo hi vb) →
    pte (k_mem k') d' vb = pte (k_mem k) d' vb;
  vc_gone : ∀ vb, 0 ≤ vb < 2 ^ 32 → in_pages lo hi vb →
    flag_set (pte (k_mem k') d vb) PTE_P = false;
  vc_data : ∀ v, page_ok kend v → live (k_mem k') ds kref v → live (k_mem k) ds kref v →
    agree_on (k_mem k') (k_mem k) v PGSIZE;
}.

Lemma vunmap_clear ds kref d lo hi k k' : d ∈ ds →
  vunmap kend ds kref d lo hi k k' → vclear ds kref d lo hi k k'.
Proof.
  intros Hd [F P D]. split; [done|..|auto].
  - intros d' vb Hd' Hvb Hn. rewrite P by done. unfold unmap_pte. by rewrite decide_False.
  - intros vb Hvb Hin. rewrite P by done. unfold unmap_pte. rewrite decide_True by done.
    unfold unmapped. by destruct (flag_set (pte (k_mem k) d vb) PTE_P) eqn:E.
Qed.

Lemma vclear_mono ds kref kref' d lo hi k k' : (∀ v, kref v ≤ kref' v) →
  vclear ds kref' d lo hi k k' → vclear ds kref d lo hi k k'.
Proof.
  intros Hle [F P G D]. split; [done..|]. intros v Hv Hl Hl0.
  apply D; [done|eapply live_mono; [apply Hle|done]..].
Qed.

Lemma vset_mono ds kref kref' d a e k k' : (∀ v, kref v ≤ kref' v) →
  vset kend ds kref' d a e k k' → vset kend ds kref d a e k k'.
Proof.
  intros Hle [F P D]. split; [done|done|]. intros v Hv Hl. apply D; [done|].
  eapply live_mono; [apply Hle|done].
Qed.

Lemma hold_le v kref w : kref w ≤ hold v kref w.
Proof. unfold hold. destruct (v =? w); lia. Qed.
Lemma drop_hold v kref w : drop v (hold v kref) w = kref w.
Proof. unfold drop, hold. lia. Qed.

(** A new zeroed page in the kernel's hands, mapped at [a]. *)
Lemma map_zero_wp k i p ds kref d a v Q :
  vinv kend k p ds (hold v kref) → kpos kref → kready k i → d ∈ ds → page_ok kend v → v ∉ free p →
  kref v = 0 → tabs (k_mem k) ds v = 0 → users (k_mem k) ds v = 0 →
  a mod PGSIZE = 0 → 0 ≤ a < KERNBASE → flag_set (pte (k_mem k) d a) PTE_P = false →
  (∀ k' p', vinv kend k' p' ds (hold v kref) → vstep kend ds kref k k' → short d (PDX a) k p →
     Q (-1) k') →
  (∀ k' p' e, vinv kend k' p' ds kref → vset kend ds kref d a e k k' → upage e = v →
     fresh_entry (k_mem k') e → same_slack d (PDX a) k p k' p' → Q 0 k') →
  wp (mod_mem (λ m, memset m v 0 PGSIZE);;
      mappages d a PGSIZE (V2P v) (Z.lor PTE_W PTE_U)) Q k.
Proof using Hkend.
  intros I Hpos Hr Hd Hv Hnf K0 T0 U0 Hal Ha HP Q0 Q1. wp_auto.
  destruct (zero_page kend Hkend _ _ _ _ v I Hv T0 Hnf) as (I2 & Hz & Hoff & Hag).
  set (k2 := set_mem (memset (k_mem k) v 0 PGSIZE) k) in *.
  assert (vstep kend ds kref k k2) as S2.
  { split; [done|intros; by rewrite (pte_agree _ _ _ Hag)|].
    intros w Hw Hl. apply (agree_off_page _ _ v); [done|apply Hv|apply Hw|].
    intros ->. unfold live in Hl. lia. }
  assert (live (k_mem k2) ds (hold v kref) v) as Hlv.
  { unfold live, hold. rewrite Z.eqb_refl, K0. pose proof (users_nonneg (k_mem k2) ds v). lia. }
  assert (∀ want, slack want d k2 p = slack want d k p) as Hsl.
  { intros want. unfold slack. f_equal. apply missing_same. intros j Hj.
    by rewrite (pgtab_agree _ _ _ Hag). }
  eapply (map_user_wp kend Hkend k2 i); try done.
  - by apply kpos_hold.
  - by rewrite (pte_agree _ _ _ Hag).
  - intros _. rewrite (users_agree _ _ _ Hag), U0. unfold hold. rewrite Z.eqb_refl. lia.
  - intros k' p' S' I' Hsh. eapply Q0; [done| |intros want Hw; rewrite <- Hsl; by apply Hsh].
    etrans; [done|]. eapply vstep_mono; [|done]. apply hold_le.
  - intros k' p' T' I' Hss.
    set (e := Z.lor (Z.lor (V2P v) (Z.lor PTE_W PTE_U)) PTE_P) in *.
    assert (e = Z.lor (V2P v) 7) as Ee by (unfold e; by rewrite <- Z.lor_assoc).
    destruct (entry_page kend Hkend v 7 Hv ltac:(lia)) as (_ & Hup & Hbit).
    rewrite <- Ee in Hup, Hbit.
    apply (Q1 k' p' e); [| |done| |intros want Hw; rewrite <- Hsl; by apply Hss].
    + eapply vinv_ext; [|done]. apply drop_hold.
    + eapply vstep_set; [done|]. eapply vset_mono; [|done]. apply hold_le.
    + unfold fresh_entry. rewrite flag_P, flag_W, flag_U, !Hbit, Hup by lia.
      split_and!; [done..|]. intros x Hx. rewrite <- (Hz x Hx).
      by apply (vt_data _ _ _ _ _ _ _ _ T' v).
Qed.

(** ** Composition of the steps of [allocuvm] *)

Lemma vset_live ds kref d a e k k' v :
  d ∈ ds → 0 ≤ a < KERNBASE → flag_set (pte (k_mem k) d a) PTE_P = false →
  vset kend ds kref d a e k k' → live (k_mem k) ds kref v → live (k_mem k') ds kref v.
Proof.
  intros Hd Ha HP T. unfold live. enough (users (k_mem k) ds v ≤ users (k_mem k') ds v) by lia.
  apply count_le. intros [d' n] [Hd' Hn]%elem_of_pairs. cbn [fst snd]. apply elem_of_upages in Hn.
  rewrite (vt_pte _ _ _ _ _ _ _ _ T) by (done || unfold KERNBASE in *; lia).
  case_decide as E; [|done]. destruct E as [-> E]. rewrite pte_page, E, <- pte_page;
    try (unfold KERNBASE in *; lia). unfold entry_maps. by rewrite HP.
Qed.

Lemma valloc_cons ds kref d lo hi e k k1 k' :
  d ∈ ds → lo mod PGSIZE = 0 → 0 ≤ lo < hi → hi ≤ KERNBASE →
  flag_set (pte (k_mem k) d lo) PTE_P = false → page_ok kend (upage e) → kpos kref →
  vset kend ds kref d lo e k k1 → fresh_entry (k_mem k1) e →
  valloc ds kref d (lo + PGSIZE) hi k1 k' → valloc ds kref d lo hi k k'.
Proof.
  intros Hd Hal Hlo Hhi HP Hok Hpos T (Hf1 & Hf2 & Hf3 & Hz) A.
  assert (0 ≤ lo < KERNBASE) as Hlo' by lia.
  assert (pte (k_mem k1) d lo = e) as Elo.
  { rewrite (vt_pte _ _ _ _ _ _ _ _ T) by (done || unfold KERNBASE in *; lia).
    by rewrite decide_True. }
  split.
  - etrans; [apply T|apply A].
  - intros d' vb Hd' Hvb Hn. rewrite in_pages_cons in Hn by (done || lia).
    rewrite (va_pte _ _ _ _ _ _ _ A), (vt_pte _ _ _ _ _ _ _ _ T) by tauto.
    rewrite decide_False; [done|]. tauto.
  - intros vb Hvb [E|Hin]%in_pages_cons; [| |done|lia].
    2: by apply (va_new _ _ _ _ _ _ _ A).
    assert (pte (k_mem k') d vb = e) as ->.
    { rewrite (va_pte _ _ _ _ _ _ _ A), (vt_pte _ _ _ _ _ _ _ _ T) by
        (try done; intros [_ [H1 _]]; unfold PGSIZE in *; Z.div_mod_to_equations; lia).
      by rewrite decide_True. }
    split_and!; [done..|]. intros x Hx. rewrite <- (Hz x Hx).
    apply (va_data _ _ _ _ _ _ _ A (upage e)); [done| |done]. unfold live.
    enough (0 < users (k_mem k1) ds (upage e)) by (specialize (Hpos (upage e)); lia).
    eapply users_pos; [exact Hd|exact Hlo'|]. rewrite Elo. by apply entry_maps_upage.
  - intros v Hv Hl. eapply agree_on_trans; [|by apply T]. apply A; [done|].
    by eapply (vset_live _ _ _ _ _ k).
Qed.

Lemma vclear_cons ds kref d lo0 lo hi e k k1 k' :
  d ∈ ds → lo mod PGSIZE = 0 → 0 ≤ lo0 ≤ lo → lo < hi → hi ≤ KERNBASE →
  flag_set (pte (k_mem k) d lo) PTE_P = false →
  vset kend ds kref d lo e k k1 →
  vclear ds kref d lo0 hi k1 k' → vclear ds kref d lo0 hi k k'.
Proof.
  intros Hd Hal Hlo Hlt Hhi HP T C. split.
  - etrans; [apply T|apply C].
  - intros d' vb Hd' Hvb Hn.
    rewrite (vc_pte _ _ _ _ _ _ _ C), (vt_pte _ _ _ _ _ _ _ _ T) by tauto.
    rewrite decide_False; [done|]. intros [-> E]. apply Hn. split; [done|].
    unfold in_pages. rewrite E. unfold PGSIZE in *. Z.div_mod_to_equations. lia.
  - apply C.
  - intros v Hv Hl Hl0. assert (live (k_mem k1) ds kref v) as Hl1.
    { apply (vset_live ds kref d lo e k k1); try done. lia. }
    eapply agree_on_trans; [by apply C|]. by apply T.
Qed.

Lemma vclear_steps ds kref d lo hi k k1 k2 k' :
  d ∈ ds → vstep kend ds kref k k1 → vclear ds kref d lo hi k1 k2 → vstep kend ds kref k2 k' →
  vclear ds kref d lo hi k k'.
Proof.
  intros Hd S C S'. split.
  - etrans; [apply S|]. etrans; [apply C|apply S'].
  - intros d' vb Hd' Hvb Hn. rewrite (vs_pte _ _ _ _ _ S') by done.
    rewrite (vc_pte _ _ _ _ _ _ _ C) by done. by apply (vs_pte _ _ _ _ _ S).
  - intros vb Hvb Hin. rewrite (vs_pte _ _ _ _ _ S') by done. by apply (vc_gone _ _ _ _ _ _ _ C).
  - intros v Hv Hl' Hl. rewrite (live_step _ _ _ _ _ _ S') in Hl'.
    pose proof Hl as Hl1. rewrite <- (live_step _ _ _ _ _ _ S) in Hl1.
    eapply agree_on_trans; [by apply S'|]. eapply agree_on_trans; [by apply C|]. by apply S.
Qed.

(** The pages of the addresses from [lo] to [hi] and the page tables they lie in. *)
Definition pages (lo hi : Z) : Z := (hi - lo + PGSIZE - 1) / PGSIZE.
Definition tables (lo hi j : Z) : bool := (PDX lo <=? j) && (j <=? PDX (hi - 1)).

Lemma tables_in lo hi a : 0 ≤ lo ≤ a → a < hi → hi ≤ KERNBASE → tables lo hi (PDX a) = true.
Proof.
  intros Hlo Ha Hhi. unfold tables, KERNBASE in *. rewrite !PDX_eq by lia.
  apply andb_true_iff. rewrite !Z.leb_le. split; apply Z.div_le_mono; lia.
Qed.

Lemma pages_cons lo hi : pages lo hi = 1 + pages (lo + PGSIZE) hi.
Proof. unfold pages, PGSIZE. Z.div_mod_to_equations. lia. Qed.
Lemma pages_pos lo hi : lo < hi → 1 ≤ pages lo hi.
Proof. intros H. unfold pages, PGSIZE. Z.div_mod_to_equations. lia. Qed.

Lemma missing_nonneg want m d : 0 ≤ missing want m d.
Proof. apply count_nonneg. Qed.

Lemma allocuvm_loop_wp fuel : ∀ k c p ds kref d a oldsz newsz Q,
  vinv kend k p ds kref → kpos kref → kready k c → d ∈ ds →
  a mod PGSIZE = 0 → 0 ≤ oldsz → PGROUNDUP oldsz ≤ a → newsz < KERNBASE →
  oldsz < newsz ∨ newsz ≤ a → newsz - a ≤ Z.of_nat fuel * PGSIZE →
  (∀ vb, 0 ≤ vb < 2 ^ 32 → in_pages a newsz vb → flag_set (pte (k_mem k) d vb) PTE_P = false) →
  (∀ k' p', vinv kend k' p' ds kref → vclear ds kref d (PGROUNDUP oldsz) newsz k k' →
     slack (tables (PGROUNDUP oldsz) newsz) d k p < pages a newsz → Q 0 k') →
  (∀ k' p', vinv kend k' p' ds kref → valloc ds kref d a newsz k k' → Q newsz k') →
  wp (allocuvm_loop kend d a oldsz newsz fuel) Q k.
Proof using Hkend.
  induction fuel as [|fuel IH]; intros k c p ds kref d a oldsz newsz Q I Hpos Hr Hd Hal Hold Ha
    Hmax Hor Hfuel Hno Q0 Q1; cbn [allocuvm_loop]; destruct (Z.ltb_spec a newsz) as [Hlt|Hge];
    cbn [negb]; try (unfold PGSIZE in Hfuel; lia); wp_auto.
  1,3: eapply Q1; [done|]; split; [done|done| |intros; apply agree_on_refl];
    unfold in_pages, PGSIZE in *; intros vb ? ?; Z.div_mod_to_equations; lia.
  assert (oldsz < newsz) as Hon by lia.
  assert (0 ≤ PGROUNDUP oldsz) as Hlo0.
  { rewrite PGROUNDUP_eq by (unfold PGSIZE, KERNBASE in *; lia).
    unfold PGSIZE. Z.div_mod_to_equations. lia. }
  assert (flag_set (pte (k_mem k) d a) PTE_P = false) as HP.
  { apply Hno; [unfold KERNBASE in *; lia|]. apply in_pages_cons; auto. }
  eapply (kalloc_vinv kend Hkend); try done.
  { intros k1 p1 Hf Hm Hno1 I1. rewrite Z.eqb_refl. wp_auto.
    eapply (deallocuvm_wp kend Hkend k1 c); try done; [by eapply kready_frame|lia|].
    intros k2 p2 I2 U2. wp_auto. eapply Q0; [done|..].
    - eapply (vclear_steps _ _ _ _ _ k k1 k2 k2); [done|by apply mem_eq_step|by apply vunmap_clear|done].
    - pose proof (pages_pos a newsz Hlt). pose proof (missing_nonneg
        (tables (PGROUNDUP oldsz) newsz) (k_mem k) d). unfold slack. rewrite Hno1. simpl. lia. }
  intros k1 p1 v Hf Hm Hv Hnf K0 T0 U0 R1 Efree I1. rewrite <- Hm in T0, U0.
  assert (slack (tables (PGROUNDUP oldsz) newsz) d k p =
    1 + slack (tables (PGROUNDUP oldsz) newsz) d k1 p1) as Hsl.
  { unfold slack. rewrite Efree, Hm. cbn [length]. lia. }
  pose proof (tables_in (PGROUNDUP oldsz) newsz a ltac:(lia) Hlt ltac:(lia)) as Htab.
  destruct (page_ok_pos kend Hkend v Hv) as [_ Hnz]. rewrite (proj2 (Z.eqb_neq _ _)) by done.
  apply wp_bind_assoc. apply wp_bind.
  eapply (map_zero_wp k1 c p1); try done; [by eapply kready_frame|lia|by rewrite Hm|..].
  - intros k2 p2 I2 S2 Hsh. specialize (Hsh _ Htab). simpl. wp_auto.
    assert (vstep kend ds kref k k2) as S2' by (etrans; [by apply mem_eq_step|done]).
    eapply (deallocuvm_wp kend Hkend k2 c); try done;
      [by apply kpos_hold|eapply kready_frame; [apply S2'|done]|lia|].
    intros k3 p3 I3 U3. wp_auto.
    assert (live (k_mem k3) ds (hold v kref) v) as Hl.
    { unfold live, hold. rewrite Z.eqb_refl, K0. pose proof (users_nonneg (k_mem k3) ds v). lia. }
    destruct (live_not_tab _ _ _ _ _ I3 v Hv Hl) as [T3 R3].
    eapply (kfree_vinv kend Hkend k3 c); try done.
    { eapply kready_frame; [|done]. etrans; [apply S2'|apply U3]. }
    intros k4 p4 F4 I4 S4 _ _. wp_auto.
    eapply Q0; [eapply vinv_ext; [|done]; apply drop_hold| |pose proof (pages_pos a newsz Hlt); lia].
    eapply (vclear_steps _ _ _ _ _ k k2 k3 k4); [done|done|..].
    + eapply vclear_mono; [apply (hold_le v)|]. by apply vunmap_clear.
    + eapply vstep_mono; [|exact S4]. intros w. rewrite drop_hold. lia.
  - intros k2 p2 e I2 T2 Eu Hfr Hss. specialize (Hss _ Htab). simpl.
    assert (vset kend ds kref d a e k k2) as T2' by (eapply vstep_set; [by apply mem_eq_step|done]).
    rewrite u32_small by (unfold KERNBASE, PGSIZE in *; lia).
    eapply (IH k2 c); try done; try (unfold PGSIZE in *; lia).
    + eapply kready_frame; [apply T2'|done].
    + unfold PGSIZE in *. Z.div_mod_to_equations. lia.
    + intros vb Hvb Hin. rewrite (vt_pte _ _ _ _ _ _ _ _ T2') by done. rewrite decide_False.
      * apply Hno; [done|]. apply in_pages_cons; auto.
      * intros [_ E]. destruct Hin. unfold PGSIZE in *. Z.div_mod_to_equations. lia.
    + intros k' p' I' C' Hlow. eapply Q0; [done| |rewrite pages_cons; lia].
      apply (vclear_cons ds kref d _ a newsz e k k2); try done; lia.
    + intros k' p' I' A'. eapply Q1; [done|].
      apply (valloc_cons ds kref d a newsz e k k2); try done; try lia. by rewrite Eu.
Qed.

Lemma allocuvm_wp k c p ds kref d oldsz newsz Q :
  vinv kend k p ds kref → kpos kref → kready k c → d ∈ ds → 0 ≤ oldsz ≤ newsz → newsz < KERNBASE →
  (∀ vb, in_pages (PGROUNDUP oldsz) newsz vb → flag_set (pte (k_mem k) d vb) PTE_P = false) →
  (∀ k' p', vinv kend k' p' ds kref → vclear ds kref d (PGROUNDUP oldsz) newsz k k' →
     slack (tables (PGROUNDUP oldsz) newsz) d k p < pages (PGROUNDUP oldsz) newsz → Q 0 k') →
  (∀ k' p', vinv kend k' p' ds kref → valloc ds kref d (PGROUNDUP oldsz) newsz k k' → Q newsz k') →
  wp (allocuvm kend d oldsz newsz) Q k.
Proof using Hkend.
  intros I Hpos Hr Hd Hsz Hmax Hno Q0 Q1. unfold allocuvm.
  rewrite (proj2 (Z.leb_gt _ _)), (proj2 (Z.ltb_ge _ _)) by lia.
  pose proof (PGROUNDUP_eq oldsz ltac:(lia) ltac:(unfold PGSIZE, KERNBASE in *; lia)) as E.
  eapply (allocuvm_loop_wp _ k c); try done; try lia.
  - rewrite E. unfold PGSIZE. Z.div_mod_to_equations. lia.
  - rewrite E. unfold PGSIZE. Z.div_mod_to_equations. lia.
  - rewrite E. unfold PGSIZE. Z.div_mod_to_equations. lia.
  - intros vb _. apply Hno.
Qed.

(** ** Correctness *)

(** C5. [allocuvm] refuses sizes that reach the kernel and does nothing
    when the size does not grow.  Otherwise it either maps every new page to
    a zeroed, writable page of its own, or returns 0 and leaves none of the
    new pages mapped.  It returns 0 only for lack of memory: when there are
    fewer free pages than the new pages plus the page tables of that range
    which the directory does not have yet.  In both cases no other entry
    and no page in use changes. *)
Theorem allocuvm_correct k c p ds kref d oldsz newsz :
  vinv kend k p ds kref → kpos kref → kready k c → d ∈ ds → 0 ≤ oldsz →
  (∀ vb, in_pages (PGROUNDUP oldsz) newsz vb → flag_set (pte (k_mem k) d vb) PTE_P = false) →
  (KERNBASE ≤ newsz → allocuvm kend d oldsz newsz k = Ok 0 k) ∧
  (newsz < KERNBASE → newsz < oldsz → allocuvm kend d oldsz newsz k = Ok oldsz k) ∧
  (newsz < KERNBASE → oldsz ≤ newsz →
   wp (allocuvm kend d oldsz newsz) (λ r k', (∃ p', vinv kend k' p' ds kref) ∧
     ((r = newsz ∧ valloc ds kref d (PGROUNDUP oldsz) newsz k k') ∨
      (r = 0 ∧ vclear ds kref d (PGROUNDUP oldsz) newsz k k' ∧
       Z.of_nat (length (free p)) <
         pages (PGROUNDUP oldsz) newsz + missing (tables (PGROUNDUP oldsz) newsz) (k_mem k) d))) k).
Proof using Hkend.
  intros I Hpos Hr Hd Hold Hno. split_and!.
  - intros Hge. unfold allocuvm. by rewrite (proj2 (Z.leb_le _ _)).
  - intros Hlt Hs. unfold allocuvm. by rewrite (proj2 (Z.leb_gt _ _)), (proj2 (Z.ltb_lt _ _)) by lia.
  - intros Hlt Hle. eapply (allocuvm_wp k c); try done; eauto.
    intros k' p' I' C' Hlow. split; [by eauto|]. right. unfold slack in Hlow. split_and!; [done..|lia].
Qed.
End user.
