(* ===== verification/VmCopy.v ===== *)
(** [copyuvm]: the copy-on-write half of fork. *)

From S2P Require Import Prelude Memory Kstring Spinlock Mmu Kalloc Vm VmInv VmWalk VmMap VmFree VmKern VmUser.

(** An entry with write permission taken away. *)
Definition noW (e : Z) : Z := Z.land e (Z.lnot PTE_W).

Lemma noW_bits e b : 0 ≤ b → Z.testbit (noW e) b = Z.testbit e b && negb (b =? 1).
Proof.
  intros Hb. unfold noW. rewrite Z.land_spec, Z.lnot_spec by done. f_equal. f_equal.
  unfold PTE_W. rewrite <- (Z.pow_1_r 2), Z.pow2_bits_eqb by lia. apply Z.eqb_sym.
Qed.

Lemma noW_P e : flag_set (noW e) PTE_P = flag_set e PTE_P.
Proof. rewrite !flag_P, noW_bits by lia. by rewrite andb_true_r. Qed.
Lemma noW_U e : flag_set (noW e) PTE_U = flag_set e PTE_U.
Proof. rewrite !flag_U, noW_bits by lia. by rewrite andb_true_r. Qed.
Lemma noW_W e : flag_set (noW e) PTE_W = false.
Proof. rewrite flag_W, noW_bits by lia. by rewrite andb_false_r. Qed.

Lemma noW_ADDR e : PTE_ADDR (noW e) = PTE_ADDR e.
Proof.
  apply Z.bits_inj'. intros b Hb. unfold PTE_ADDR. rewrite !Z.land_spec, noW_bits by done.
  destruct (Z.eqb_spec b 1) as [->|]; [by rewrite !andb_false_r|]. by rewrite andb_true_r.
Qed.

Lemma noW_upage e : upage (noW e) = upage e.
Proof. unfold upage. by rewrite noW_ADDR. Qed.

Lemma noW_range e : 0 ≤ e < 2 ^ 32 → 0 ≤ noW e < 2 ^ 32.
Proof.
  intros He. assert (noW e + Z.land e PTE_W = e) as E.
  { rewrite Z.add_nocarry_lor.
    - unfold noW. rewrite <- Z.land_lor_distr_r, (Z.lor_comm (Z.lnot _)), Z.lor_lnot_diag.
      apply Z.land_m1_r.
    - unfold noW. rewrite <- Z.land_assoc, (Z.land_assoc (Z.lnot _)), (Z.land_comm (Z.lnot _) e).
      rewrite <- !Z.land_assoc, (Z.land_comm (Z.lnot _)), Z.land_lnot_diag. by rewrite !Z.land_0_r. }
  pose proof (proj2 (Z.land_nonneg e PTE_W) ltac:(unfold PTE_W; lia)).
  pose proof (proj2 (Z.land_nonneg e (Z.lnot PTE_W)) ltac:(lia)). unfold noW in *. lia.
Qed.

Lemma noW_maps e v : entry_maps (noW e) v = entry_maps e v.
Proof. unfold entry_maps. by rewrite noW_P, noW_upage. Qed.

(** An entry is rebuilt from its address and flags. *)
Lemma entry_rebuild e : 0 ≤ e < 2 ^ 32 → flag_set e PTE_P = true →
  Z.lor (Z.lor (V2P (upage e)) (PTE_FLAGS e)) PTE_P = e.
Proof.
  intros He HP. pose proof (PTE_ADDR_range e He) as Hr. pose proof (PTE_ADDR_aligned e) as Hal.
  unfold upage. rewrite V2P_P2V by lia.
  assert (Z.lor (PTE_ADDR e) (PTE_FLAGS e) = e) as ->.
  { rewrite lor_page; [by rewrite <- PTE_split|done|]. rewrite PTE_FLAGS_eq. apply Z.mod_pos_bound. lia. }
  apply Z.bits_inj'. intros b Hb. rewrite Z.lor_spec.
  rewrite flag_P in HP. unfold PTE_P. destruct (decide (b = 0)) as [->|].
  - rewrite HP. done.
  - assert (Z.testbit 1 b = false) as ->; [|by rewrite orb_false_r].
    change 1 with (2 ^ 0). rewrite Z.pow2_bits_eqb by lia. by apply Z.eqb_neq.
Qed.

Lemma PTE_FLAGS_bit e b : 0 ≤ b < 12 → Z.testbit (PTE_FLAGS e) b = Z.testbit e b.
Proof.
  intros. unfold PTE_FLAGS. change 0xFFF with (Z.ones 12). rewrite Z.land_spec.
  rewrite Z.ones_spec_low by lia. apply andb_true_r.
Qed.

Section copy.
Context (kend : Z) (Hkend : KERNLINK ≤ kend).
Implicit Types (k : kst) (p : pool) (ds : list Z) (kref : Z → Z).

(** Few enough references that no count overflows; xv6 has 64 processes. *)
Definition few ds kref : Prop := Z.of_nat (length ds) ≤ 1024 ∧ ∀ v, kref v ≤ 2 ^ 29.

Lemma count_length {A} (f : A → bool) l : count f l ≤ Z.of_nat (length l).
Proof. induction l as [|x l IH]; cbn [count length]; [lia|]. destruct (f x); lia. Qed.

Lemma length_pairs {A B} (l : list A) (r : list B) : length (pairs l r) = (length l * length r)%nat.
Proof.
  induction l as [|x l IH]; [done|]. rewrite pairs_cons, length_app, length_fmap, IH. done.
Qed.

Lemma users_bound m ds v : users m ds v ≤ Z.of_nat (length ds) * 524288.
Proof.
  etrans; [apply count_length|]. rewrite length_pairs, Nat2Z.inj_mul.
  rewrite length_upages. change (KERNBASE / PGSIZE) with 524288. lia.
Qed.

(** A page that two entries map is not writable through either. *)
Lemma shared_not_writable k p ds kref d va d' vb :
  vinv kend k p ds kref → kpos kref →
  d ∈ ds → 0 ≤ va < KERNBASE → flag_set (pte (k_mem k) d va) PTE_P = true →
  d' ∈ ds → 0 ≤ vb < KERNBASE → entry_maps (pte (k_mem k) d' vb) (upage (pte (k_mem k) d va)) = true →
  ¬ (d' = d ∧ vb / PGSIZE = va / PGSIZE) → flag_set (pte (k_mem k) d' vb) PTE_W = false.
Proof.
  intros I Hpos Hd Hva HP Hd' Hvb Hm Hne. apply not_true_iff_false. intros HW.
  pose proof (vi_user _ _ _ _ _ I d va Hd Hva HP) as Hok.
  unfold entry_maps in Hm. apply andb_true_iff in Hm as [HP' Hup%Z.eqb_eq].
  pose proof (vi_excl _ _ _ _ _ I d' vb Hd' Hvb HP' HW) as Hle. rewrite Hup in Hle.
  set (v := upage (pte (k_mem k) d va)) in *.
  pose proof (vi_rc _ _ _ _ _ I v Hok) as Hrc. pose proof (tabs_nonneg (k_mem k) ds v).
  specialize (Hpos v). enough (2 ≤ users (k_mem k) ds v) by lia.
  eapply (users_two _ _ d va d' vb); try done; [by apply entry_maps_upage|].
  unfold entry_maps. rewrite HP', Hup. by rewrite Z.eqb_refl.
Qed.

(** ** One page *)

(** Replacing an entry by one that maps the same page. *)
Lemma set_same k p ds kref d a t e :
  vinv kend k p ds kref → d ∈ ds → 0 ≤ a < KERNBASE → 0 ≤ e < 2 ^ 32 →
  pgtab (k_mem k) d (PDX a) = Some t →
  (∀ v, entry_maps e v = entry_maps (pte (k_mem k) d a) v) →
  (flag_set e PTE_P = true → flag_set e PTE_W = true → refs p (upage e) ≤ 1) →
  let k' := set_mem (wr32 (k_mem k) (t + 4 * PTX a) e) k in
  vinv kend k' p ds kref ∧ vset kend ds kref d a e k k'.
Proof using Hkend.
  intros I Hd Ha He Ht Hm HW k'. assert (0 ≤ a < 2 ^ 32) as Ha' by (unfold KERNBASE in *; lia).
  split; [|by eapply store_vset].
  eapply vinv_ext; [|eapply (set_pte_vinv kend Hkend k p ds kref I d a t e)]; try done.
  - intros v. unfold kref_set, umaps. rewrite Hm. lia.
  - intros _ HPe. pose proof (Hm (upage e)) as E. rewrite entry_maps_upage in E by done.
    assert (flag_set (pte (k_mem k) d a) PTE_P = true ∧ upage (pte (k_mem k) d a) = upage e)
      as [HP Eu].
    { symmetry in E. unfold entry_maps in E. apply andb_true_iff in E as [? ?%Z.eqb_eq]. done. }
    pose proof (vi_user _ _ _ _ _ I d a Hd Ha HP) as Hok. rewrite Eu in Hok.
    split_and!; [done| |auto]. eapply users_not_tab; [done|done|].
    eapply users_pos; [done|done|]. by rewrite <- E.
Qed.

(** The entries after the pages of [src] in [lo, hi) were shared with [d]. *)
Definition copy_pte (m : memory) (src d lo hi d' vb : Z) : Z :=
  if decide ((d' = src ∨ d' = d) ∧ in_pages lo hi vb) then noW (pte m src vb) else pte m d' vb.

Record vcopy ds kref (src d lo hi : Z) k k' : Prop := {
  vy_frame : kframe k k';
  vy_pte : ∀ d' vb, d' ∈ ds → 0 ≤ vb < 2 ^ 32 →
    pte (k_mem k') d' vb = copy_pte (k_mem k) src d lo hi d' vb;
  vy_data : ∀ v, page_ok kend v → live (k_mem k) ds kref v →
    agree_on (k_mem k') (k_mem k) v PGSIZE;
}.

(** An attempt that ran out of memory: some entries of [src] lost write
    permission and [d] has some entries. *)
Record vcopy_part ds kref (src d : Z) k k' : Prop := {
  vq_frame : kframe k k';
  vq_pte : ∀ d' vb, d' ∈ ds → 0 ≤ vb < 2 ^ 32 → d' ≠ d →
    pte (k_mem k') d' vb = pte (k_mem k) d' vb ∨ pte (k_mem k') d' vb = noW (pte (k_mem k) d' vb);
  vq_data : ∀ v, page_ok kend v → live (k_mem k) ds kref v →
    agree_on (k_mem k') (k_mem k) v PGSIZE;
}.

(** What an iteration has done to page [a]. *)
Record vshare ds kref (src d a : Z) k k' : Prop := {
  vh_frame : kframe k k';
  vh_pte : ∀ d' vb, d' ∈ ds → 0 ≤ vb < 2 ^ 32 →
    pte (k_mem k') d' vb =
      if decide ((d' = src ∨ d' = d) ∧ vb / PGSIZE = a / PGSIZE)
      then noW (pte (k_mem k) src a) else pte (k_mem k) d' vb;
  vh_data : ∀ v, page_ok kend v → live (k_mem k) ds kref v →
    agree_on (k_mem k') (k_mem k) v PGSIZE;
}.

Lemma same_page_pte m d va vb : 0 ≤ va < 2 ^ 32 → 0 ≤ vb < 2 ^ 32 →
  vb / PGSIZE = va / PGSIZE → pte m d vb = pte m d va.
Proof. intros Ha Hb E. rewrite (pte_page m d vb), E, <- pte_page by done. done. Qed.

(** Taking away write permission unmaps nothing. *)
Lemma noW_users ds kref d a k k' w : 0 ≤ a < 2 ^ 32 →
  vset kend ds kref d a (noW (pte (k_mem k) d a)) k k' →
  users (k_mem k') ds w = users (k_mem k) ds w.
Proof.
  intros Ha T. apply count_ext. intros [d' n] [Hd' Hn]%elem_of_pairs. cbn [fst snd].
  apply elem_of_upages in Hn. assert (0 ≤ n * PGSIZE < 2 ^ 32) by (unfold KERNBASE in *; lia).
  rewrite (vt_pte _ _ _ _ _ _ _ _ T) by done. case_decide as E; [|done]. destruct E as [-> E].
  by rewrite noW_maps, (same_page_pte _ _ a (n * PGSIZE)).
Qed.

Lemma noW_step ds kref d a k k1 k2 : 0 ≤ a < 2 ^ 32 →
  vset kend ds kref d a (noW (pte (k_mem k) d a)) k k1 → vstep kend ds kref k1 k2 →
  vset kend ds kref d a (noW (pte (k_mem k) d a)) k k2.
Proof.
  intros Ha T S. split.
  - etrans; [apply T|apply S].
  - intros d' vb Hd' Hvb. rewrite (vs_pte _ _ _ _ _ S) by done. by apply T.
  - intros v Hv Hl. eapply agree_on_trans; [|by apply T]. apply S; [done|].
    unfold live in *. by rewrite (noW_users _ _ _ _ _ _ _ Ha T).
Qed.

Section share.
Context k p ds kref (I : vinv kend k p ds kref) (Hpos : kpos kref) (Hfew : few ds kref).
Context (src d a : Z) (Hsrc : src ∈ ds) (Hd : d ∈ ds) (Hne : src ≠ d).
Context (Ha : 0 ≤ a < KERNBASE) (Hal : a mod PGSIZE = 0).
Context (HP : flag_set (pte (k_mem k) src a) PTE_P = true).
Context (Hnew : flag_set (pte (k_mem k) d a) PTE_P = false).
Let e := pte (k_mem k) src a.
Let v := upage e.

Lemma share_page : page_ok kend v.
Proof using All. by apply (vi_user _ _ _ _ _ I). Qed.

(** After both entries are in place the count is one short. *)
Lemma share_count k2 p2 :
  vinv kend k2 p2 ds (drop v kref) →
  (∀ d' vb, d' ∈ ds → 0 ≤ vb < 2 ^ 32 → pte (k_mem k2) d' vb =
    if decide ((d' = src ∨ d' = d) ∧ vb / PGSIZE = a / PGSIZE)
    then noW e else pte (k_mem k) d' vb) →
  0 < refs p2 v < 2 ^ 31 - 1 ∧ tabs (k_mem k2) ds v = 0 ∧
  ∀ d' vb, d' ∈ ds → 0 ≤ vb < KERNBASE → entry_maps (pte (k_mem k2) d' vb) v = true →
    flag_set (pte (k_mem k2) d' vb) PTE_W = false.
Proof using All.
  intros I2 Hpte. pose proof share_page as Hok.
  assert (∀ x, 0 ≤ x < KERNBASE → 0 ≤ x < 2 ^ 32) as Hrg by (unfold KERNBASE; lia).
  assert (2 ≤ users (k_mem k2) ds v) as Hu.
  { apply (users_two _ _ src a d a); try done.
    - rewrite Hpte, decide_True by auto. rewrite noW_maps. by apply entry_maps_upage.
    - rewrite Hpte, decide_True by auto. rewrite noW_maps. by apply entry_maps_upage.
    - by intros [-> _]. }
  assert (tabs (k_mem k2) ds v = 0) as T0 by (eapply users_not_tab; [done|done|lia]).
  pose proof (vi_rc _ _ _ _ _ I2 v Hok) as Hrc. unfold drop in Hrc. rewrite Z.eqb_refl in Hrc.
  pose proof (users_bound (k_mem k2) ds v). destruct Hfew as [Hl Hk]. specialize (Hk v).
  pose proof (Hpos v). split_and!; [lia|lia|done|].
  intros d' vb Hd' Hvb. rewrite Hpte by auto. case_decide as E; [by rewrite noW_W|].
  intros Hm. apply (shared_not_writable k p ds kref src a d' vb); try done. tauto.
Qed.
End share.

Lemma share_wp {A} k p ds kref src d a c t (m0 m1 : M kst A) Q :
  vinv kend k p ds kref → kpos kref → few ds kref → kready k c →
  src ∈ ds → d ∈ ds → src ≠ d → 0 ≤ a < KERNBASE → a mod PGSIZE = 0 →
  flag_set (pte (k_mem k) src a) PTE_P = true → flag_set (pte (k_mem k) d a) PTE_P = false →
  pgtab (k_mem k) src (PDX a) = Some t →
  (∀ k' p', vinv kend k' p' ds kref → vset kend ds kref src a (noW (pte (k_mem k) src a)) k k' →
     wp m0 Q k') →
  (∀ k' p', vinv kend k' p' ds kref → vshare ds kref src d a k k' → wp m1 Q k') →
  wp (store32 (t + 4 * PTX a) (noW (pte (k_mem k) src a));;
      e ← load32 (t + 4 * PTX a);
      r ← mappages d a PGSIZE (PTE_ADDR e) (PTE_FLAGS e);
      if r <? 0 then m0 else incr_refc (PTE_ADDR e);; m1) Q k.
Proof using Hkend.
  intros I Hpos Hfew Hr Hsrc Hd Hne Ha Hal HP Hnew Ht Q0 Q1.
  assert (0 ≤ a < 2 ^ 32) as Ha' by (unfold KERNBASE in *; lia).
  set (e := pte (k_mem k) src a) in *. unfold store32, load32. wp_auto. cbn [k_mem set_mem].
  pose proof (noW_range e (pte_range _ _ _)) as He.
  rewrite rd32_wr32_eq, u32_small by done.
  destruct (set_same k p ds kref src a t (noW e)) as [I1 T1]; try done.
  { intros v. by rewrite noW_maps. }
  { by rewrite noW_W. }
  set (k1 := set_mem (wr32 (k_mem k) (t + 4 * PTX a) (noW e)) k) in *.
  assert (page_ok kend (upage e)) as Hok by by apply (vi_user _ _ _ _ _ I).
  assert (PTE_ADDR (noW e) = V2P (upage e)) as Epa.
  { rewrite noW_ADDR. unfold upage. rewrite V2P_P2V; [done|].
    pose proof (PTE_ADDR_range e (pte_range _ _ _)). lia. }
  pose proof (entry_rebuild (noW e) He) as Ereb. rewrite noW_P, noW_upage in Ereb.
  specialize (Ereb HP). rewrite Epa.
  assert (pte (k_mem k1) src a = noW e) as E1.
  { rewrite (vt_pte _ _ _ _ _ _ _ _ T1) by done. by rewrite decide_True. }
  eapply (map_user_wp kend Hkend k1 c); try done.
  - rewrite PTE_FLAGS_eq. apply Z.mod_pos_bound. lia.
  - rewrite (vt_pte _ _ _ _ _ _ _ _ T1) by done. rewrite decide_False; [done|]. naive_solver.
  - unfold live. enough (0 < users (k_mem k1) ds (upage e)) by (specialize (Hpos (upage e)); lia).
    eapply users_pos; [exact Hsrc|exact Ha|]. rewrite E1, noW_maps. by apply entry_maps_upage.
  - rewrite flag_W, PTE_FLAGS_bit, <- flag_W by lia. by rewrite noW_W.
  - intros k' p' S' I' _. eapply Q0; [done|]. by eapply noW_step.
  - intros k2 p2 T2 I2 _. rewrite Ereb in T2.
    assert (∀ d' vb, d' ∈ ds → 0 ≤ vb < 2 ^ 32 → pte (k_mem k2) d' vb =
      if decide ((d' = src ∨ d' = d) ∧ vb / PGSIZE = a / PGSIZE)
      then noW e else pte (k_mem k) d' vb) as Hpte.
    { intros d' vb Hd' Hvb. rewrite (vt_pte _ _ _ _ _ _ _ _ T2), (vt_pte _ _ _ _ _ _ _ _ T1) by done.
      repeat case_decide; tauto. }
    destruct (share_count k p ds kref I Hpos Hfew src d a Hsrc Hd Hne Ha Hal HP Hnew k2 p2 I2 Hpte)
      as (Hrefs & T0 & HW).
    simpl. wp_auto. eapply (incr_refc_vinv kend Hkend k2 c); try done.
    { eapply kready_frame; [apply T2|done]. }
    intros k3 p3 F3 M3 I3. eapply Q1; [eapply vinv_ext; [|done]|split].
    + intros w. unfold hold, drop. lia.
    + etrans; [apply T1|]. etrans; [apply T2|done].
    + rewrite M3. done.
    + rewrite M3. intros w Hw Hl. eapply agree_on_trans; [|by apply T1].
      apply (vt_data _ _ _ _ _ _ _ _ T2); [done|]. unfold live in *.
      by rewrite (noW_users _ _ _ _ _ _ _ Ha' T1).
Qed.

(** ** The loop *)

Lemma vshare_users ds kref src d a k k' w : src ∈ ds → 0 ≤ a < 2 ^ 32 → src ≠ d →
  flag_set (pte (k_mem k) d a) PTE_P = false →
  vshare ds kref src d a k k' → users (k_mem k) ds w ≤ users (k_mem k') ds w.
Proof.
  intros Hsrc Ha Hne HP H. apply count_le. intros [d' n] [Hd' Hn]%elem_of_pairs. cbn [fst snd].
  apply elem_of_upages in Hn. assert (0 ≤ n * PGSIZE < 2 ^ 32) by (unfold KERNBASE in *; lia).
  rewrite (vh_pte _ _ _ _ _ _ _ H) by done. case_decide as E; [|done].
  destruct E as [[->| ->] E]; rewrite (same_page_pte _ _ a (n * PGSIZE)) by done.
  - by rewrite noW_maps.
  - unfold entry_maps. by rewrite HP.
Qed.

Lemma vshare_live ds kref src d a k k' w : src ∈ ds → 0 ≤ a < 2 ^ 32 → src ≠ d →
  flag_set (pte (k_mem k) d a) PTE_P = false → vshare ds kref src d a k k' →
  live (k_mem k) ds kref w → live (k_mem k') ds kref w.
Proof.
  intros Hsrc Ha Hne HP H. unfold live.
  pose proof (vshare_users _ _ _ _ _ _ _ w Hsrc Ha Hne HP H). lia.
Qed.

Lemma vcopy_cons ds kref src d lo hi k k1 k' :
  src ∈ ds → src ≠ d → lo mod PGSIZE = 0 → 0 ≤ lo < hi → hi ≤ KERNBASE →
  flag_set (pte (k_mem k) d lo) PTE_P = false → vshare ds kref src d lo k k1 →
  vcopy ds kref src d (lo + PGSIZE) hi k1 k' → vcopy ds kref src d lo hi k k'.
Proof.
  intros Hsrc Hne Hal Hlo Hhi HP H C.
  assert (0 ≤ lo < 2 ^ 32) as Hlo' by (unfold KERNBASE in *; lia). split.
  - etrans; [apply H|apply C].
  - intros d' vb Hd' Hvb. rewrite (vy_pte _ _ _ _ _ _ _ _ C) by done. unfold copy_pte.
    rewrite !(vh_pte _ _ _ _ _ _ _ H) by done.
    pose proof (in_pages_cons lo hi vb Hal ltac:(lia)) as Hin.
    destruct (decide (vb / PGSIZE = lo / PGSIZE)) as [E|E].
    + assert (¬ in_pages (lo + PGSIZE) hi vb) as Hn.
      { intros [? _]. unfold PGSIZE in *. Z.div_mod_to_equations. lia. }
      rewrite decide_False by tauto. rewrite (same_page_pte _ src lo vb) by done.
      repeat case_decide; tauto.
    + rewrite (decide_False (P := (src = src ∨ _) ∧ _)) by tauto.
      repeat case_decide; tauto.
  - intros v Hv Hl. eapply agree_on_trans; [|by apply H]. apply C; [done|].
    by apply (vshare_live _ _ src d lo k).
Qed.

Lemma vcopy_part_share ds kref src d a k k1 k' :
  src ∈ ds → src ≠ d → 0 ≤ a < 2 ^ 32 → flag_set (pte (k_mem k) d a) PTE_P = false →
  vshare ds kref src d a k k1 → vcopy_part ds kref src d k1 k' → vcopy_part ds kref src d k k'.
Proof.
  intros Hsrc Hne Ha HP H C. split.
  - etrans; [apply H|apply C].
  - intros d' vb Hd' Hvb Hn. pose proof (vq_pte _ _ _ _ _ _ C d' vb Hd' Hvb Hn) as E.
    rewrite !(vh_pte _ _ _ _ _ _ _ H) in E by done. case_decide as E'; [|done].
    destruct E' as [[->|] E']; [|done]. right. rewrite (same_page_pte (k_mem k) src a vb) by done.
    destruct E as [->| ->]; [done|]. unfold noW. by rewrite <- Z.land_assoc, Z.land_diag.
  - intros v Hv Hl. eapply agree_on_trans; [|by apply H]. apply C; [done|].
    by apply (vshare_live _ _ src d a k).
Qed.

Lemma copyuvm_loop_wp fuel : ∀ k c p ds kref src d a sz Q,
  vinv kend k p ds kref → kpos kref → few ds kref → kready k c →
  src ∈ ds → d ∈ ds → src ≠ d → a mod PGSIZE = 0 → 0 ≤ a → sz ≤ KERNBASE →
  sz - a ≤ Z.of_nat fuel * PGSIZE →
  (∀ vb, in_pages a sz vb → flag_set (pte (k_mem k) src vb) PTE_P = true) →
  (∀ vb, in_pages a sz vb → flag_set (pte (k_mem k) d vb) PTE_P = false) →
  (∀ k' p', vinv kend k' p' ds kref → vcopy_part ds kref src d k k' → Q false k') →
  (∀ k' p', vinv kend k' p' ds kref → vcopy ds kref src d a sz k k' → Q true k') →
  wp (copyuvm_loop src d a sz fuel) Q k.
Proof using Hkend.
  induction fuel as [|fuel IH]; intros k c p ds kref src d a sz Q I Hpos Hfew Hr Hsrc Hd Hne
    Hal Ha Hsz Hfuel Hold Hnew Q0 Q1; cbn [copyuvm_loop]; destruct (Z.ltb_spec a sz) as [Hlt|Hge];
    cbn [negb]; try (unfold PGSIZE in Hfuel; lia); wp_auto.
  1,3: eapply Q1; [done|]; split; [done| |intros; apply agree_on_refl];
    intros d' vb ? ?; unfold copy_pte; rewrite decide_False; [done|];
    intros [_ [? ?]]; unfold PGSIZE in *; Z.div_mod_to_equations; lia.
  assert (in_pages a sz a) as Hina by (apply in_pages_cons; auto).
  pose proof (Hold a Hina) as HP. pose proof (Hnew a Hina) as HPd.
  assert (0 ≤ a < 2 ^ 32) as Ha' by (unfold KERNBASE in *; lia).
  destruct (pgtab (k_mem k) src (PDX a)) as [t|] eqn:Et.
  2: { unfold pte in HP. by rewrite Et in HP. }
  eapply wp_run; [by apply walk_present|].
  rewrite (tab_addr_nz kend Hkend _ _ _ _ src _ _ I) by done.
  cbv iota. apply wp_bind, wp_gets. rewrite (pte_tab _ src) by done. rewrite HP. cbn [negb].
  eapply (share_wp k p ds kref src d a c t); try done; [lia|..].
  - intros k' p' I' T'. wp_auto. eapply Q0; [done|]. split; [apply T'| |apply T'].
    intros d' vb Hd' Hvb _. rewrite (vt_pte _ _ _ _ _ _ _ _ T') by done.
    case_decide as E; [|by left]. destruct E as [-> E]. right. by rewrite (same_page_pte (k_mem k) src a vb).
  - intros k1 p1 I1 H1. rewrite u32_small by (unfold KERNBASE, PGSIZE in *; lia).
    assert (∀ d' vb, d' = src ∨ d' = d → in_pages (a + PGSIZE) sz vb →
              pte (k_mem k1) d' vb = pte (k_mem k) d' vb) as Hsame.
    { intros d' vb Hd' [? ?]. assert (d' ∈ ds) by (by destruct Hd' as [->| ->]).
      rewrite (vh_pte _ _ _ _ _ _ _ H1); [|done|unfold KERNBASE, PGSIZE in *;
        Z.div_mod_to_equations; lia].
      rewrite decide_False; [done|]. intros [_ E]. unfold PGSIZE in *. Z.div_mod_to_equations. lia. }
    eapply (IH k1 c); try done; try (unfold PGSIZE in *; Z.div_mod_to_equations; lia).
    + eapply kready_frame; [apply H1|done].
    + intros vb Hin. rewrite Hsame by auto. apply Hold, in_pages_cons; auto.
    + intros vb Hin. rewrite Hsame by auto. apply Hnew, in_pages_cons; auto.
    + intros k' p' I' C'. eapply Q0; [done|]. by eapply (vcopy_part_share _ _ _ _ a).
    + intros k' p' I' C'. eapply Q1; [done|]. eapply vcopy_cons; try done.
Qed.

(** ** [copyuvm] *)

(** Every process sees the same memory; at most write permission is lost. *)
Record vsame ds kref k k' : Prop := {
  vm_frame : kframe k k';
  vm_pte : ∀ d va, d ∈ ds → 0 ≤ va < 2 ^ 32 →
    pte (k_mem k') d va = pte (k_mem k) d va ∨ pte (k_mem k') d va = noW (pte (k_mem k) d va);
  vm_data : ∀ v, page_ok kend v → live (k_mem k) ds kref v →
    agree_on (k_mem k') (k_mem k) v PGSIZE;
}.

Lemma vstep_same ds kref k k' : vstep kend ds kref k k' → vsame ds kref k k'.
Proof. intros [F P D]. split; [done| |done]. intros. left. auto. Qed.

Lemma vsame_users ds kref k k' v :
  vsame ds kref k k' → users (k_mem k') ds v = users (k_mem k) ds v.
Proof.
  intros S. apply count_ext. intros [d n] [Hd Hn]%elem_of_pairs. cbn [fst snd].
  apply elem_of_upages in Hn.
  destruct (vm_pte _ _ _ _ S d (n * PGSIZE)) as [->| ->]; try done; [unfold KERNBASE in *; lia|].
  apply noW_maps.
Qed.

#[global] Instance vsame_trans ds kref : Transitive (vsame ds kref).
Proof.
  intros k1 k2 k3 S1 S2. split.
  - etrans; [apply S1|apply S2].
  - intros d va Hd Hva. destruct (vm_pte _ _ _ _ S1 d va Hd Hva) as [E1|E1],
      (vm_pte _ _ _ _ S2 d va Hd Hva) as [E2|E2]; rewrite E2, E1; auto.
    right. unfold noW. by rewrite <- Z.land_assoc, Z.land_diag.
  - intros v Hv Hl. eapply agree_on_trans; [|by apply S1]. apply S2; [done|].
    unfold live in *. by rewrite (vsame_users _ _ _ _ _ S1).
Qed.

Lemma user_live k p ds0 ds kref0 kref d va : vinv kend k p ds0 kref0 → ds ⊆ ds0 → kpos kref → d ∈ ds →
  0 ≤ va < KERNBASE → flag_set (pte (k_mem k) d va) PTE_P = true →
  page_ok kend (upage (pte (k_mem k) d va)) ∧ live (k_mem k) ds kref (upage (pte (k_mem k) d va)).
Proof.
  intros I Hsub Hpos Hd Hva HP. split; [apply (vi_user _ _ _ _ _ I); auto|]. unfold live.
  specialize (Hpos (upage (pte (k_mem k) d va))).
  enough (0 < users (k_mem k) ds (upage (pte (k_mem k) d va))) by lia.
  eapply users_pos; [done|done|by apply entry_maps_upage].
Qed.

(** An entry for the same page and a page with the same contents. *)
Lemma ubyte_eq k p ds0 ds kref0 kref d d' va m' :
  vinv kend k p ds0 kref0 → ds ⊆ ds0 → kpos kref → d ∈ ds → 0 ≤ va < KERNBASE →
  (∀ v, page_ok kend v → live (k_mem k) ds kref v → agree_on m' (k_mem k) v PGSIZE) →
  pte m' d' va = pte (k_mem k) d va ∨ pte m' d' va = noW (pte (k_mem k) d va) →
  ubyte m' d' va = ubyte (k_mem k) d va.
Proof.
  intros I Hsub Hpos Hd Hva Hdata Hpte. unfold ubyte.
  assert (flag_set (pte m' d' va) PTE_P = flag_set (pte (k_mem k) d va) PTE_P ∧
          upage (pte m' d' va) = upage (pte (k_mem k) d va)) as [-> ->].
  { destruct Hpte as [->| ->]; [done|]. by rewrite noW_P, noW_upage. }
  destruct (flag_set (pte (k_mem k) d va) PTE_P) eqn:HP; [|done]. f_equal.
  destruct (user_live _ _ _ _ _ _ d va I Hsub Hpos Hd Hva HP) as [Hok Hl].
  apply (Hdata _ Hok Hl). pose proof (Z.mod_pos_bound va PGSIZE). unfold PGSIZE in *. lia.
Qed.

Context (data : Z) (Hdata : data mod PGSIZE = 0 ∧ KERNLINK < data < KERNBASE + PHYSTOP).

Lemma kmap_user va e0 : 0 ≤ va < KERNBASE → kmap_pte (kmap data) va e0 = e0.
Proof using Hdata.
  intros Hva. apply kmap_pte_outside. destruct (kmap_good data Hdata) as [Hwf _].
  eapply Forall_impl; [exact Hwf|]. intros e [[_ [H _]] _ _ _]. lia.
Qed.

(** The child [d] of [src] after a fork. *)
Record forked ds kref (src d sz : Z) k k' : Prop := {
  fk_same : vsame ds kref k k';
  fk_src : ∀ va, 0 ≤ va < 2 ^ 32 → in_pages 0 sz va →
    pte (k_mem k') src va = noW (pte (k_mem k) src va);
  fk_child : ∀ va, 0 ≤ va < 2 ^ 32 →
    pte (k_mem k') d va = if decide (in_pages 0 sz va) then noW (pte (k_mem k) src va)
                          else kmap_pte (kmap data) va 0;
}.

Lemma copyuvm_wp s p ds kref c src sz Q :
  let k := v_k s in
  vinv kend k p ds kref → kpos kref → few (0 :: ds) kref → kready k c → src ∈ ds →
  0 ≤ sz ≤ KERNBASE →
  (∀ va, in_pages 0 sz va → flag_set (pte (k_mem k) src va) PTE_P = true) →
  (∀ s' p', vinv kend (v_k s') p' ds kref → vsame ds kref k (v_k s') → Q 0 s') →
  (∀ s' p' d, d ∉ ds → vinv kend (v_k s') p' (d :: ds) kref → forked ds kref src d sz k (v_k s') →
     v_cr3 s' = V2P src → Q d s') →
  wp (copyuvm kend data src sz) Q s.
Proof using Hkend Hdata.
  intros k I Hpos Hfew Hr Hsrc Hsz Hpres Q0 Q1. unfold copyuvm, in_k. wp_auto. apply wp_zoom.
  eapply (setupkvm_wp kend Hkend data Hdata _ c); try done.
  { intros k1 p1 I1 S1 _. rewrite Z.eqb_refl. wp_auto. eapply Q0; [done|by apply vstep_same]. }
  intros k1 p1 d Hnin I1 S1 Hpte1.
  assert (d ∈ d :: ds) as Hd by by left. assert (src ∈ d :: ds) as Hsrc' by by right.
  pose proof (vi_tab _ _ _ _ _ I1 d None d Hd ltac:(by apply elem_of_slots) eq_refl) as Hok.
  destruct (page_ok_pos kend Hkend d Hok) as [_ Hnz]. rewrite (proj2 (Z.eqb_neq _ _)) by done.
  assert (∀ va, 0 ≤ va < KERNBASE → pte (k_mem k1) d va = 0) as Hd0.
  { intros va Hva. rewrite Hpte1 by (unfold KERNBASE in *; lia). by apply kmap_user. }
  assert (∀ v, live (k_mem k1) ds kref v → live (k_mem k1) (d :: ds) kref v) as Hlive.
  { intros v. unfold live. rewrite users_cons. pose proof (users_nonneg (k_mem k1) [d] v). lia. }
  assert (∀ va, in_pages 0 sz va → 0 ≤ va < KERNBASE) as Hin.
  { intros va [? ?]. unfold PGSIZE, KERNBASE in *. Z.div_mod_to_equations. lia. }
  assert (∀ va, 0 ≤ va < KERNBASE → 0 ≤ va < 2 ^ 32) as Hrg by (unfold KERNBASE; lia).
  wp_auto. apply wp_zoom. cbn [v_k set_k].
  eapply (copyuvm_loop_wp _ k1 c p1 (d :: ds)); try done; try lia.
  - eapply kready_frame; [apply S1|done].
  - intros ->. done.
  - unfold PGSIZE in *. Z.div_mod_to_equations. lia.
  - intros va Hva. rewrite (vs_pte _ _ _ _ _ S1) by auto. auto.
  - intros va Hva. by rewrite Hd0 by auto.
  - intros k2 p2 I2 C2. wp_auto. apply wp_zoom. cbn [v_k set_k].
    assert (vsame ds kref k1 k2) as Hs2.
    { split; [apply C2| |]; [|intros v Hv Hl; apply C2; auto].
      intros d' va Hd' Hva. apply (vq_pte _ _ _ _ _ _ C2); [by right|done|]. by intros ->. }
    eapply (freevm_wp kend Hkend k2 c); try done.
    { eapply kready_frame; [|done]. etrans; [apply S1|apply C2]. }
    intros k3 p3 I3 S3. wp_auto. eapply Q0; [done|].
    etrans; [by apply vstep_same|]. etrans; [done|by apply vstep_same].
  - intros k2 p2 I2 C2. unfold lcr3. wp_auto.
    apply (Q1 _ p2); [done|done| |done]. split.
    + etrans; [by apply vstep_same|]. split; [apply C2| |intros v Hv Hl; apply C2; auto].
      intros d' va Hd' Hva. cbn [v_k set_k]. rewrite (vy_pte _ _ _ _ _ _ _ _ C2) by (done || by right).
      unfold copy_pte. case_decide as E; [|by left]. destruct E as [[->| ->] _]; [by right|done].
    + intros va Hva Hi. cbn [v_k set_k]. rewrite (vy_pte _ _ _ _ _ _ _ _ C2) by done.
      unfold copy_pte. rewrite decide_True by auto. by rewrite (vs_pte _ _ _ _ _ S1).
    + intros va Hva. cbn [v_k set_k]. rewrite (vy_pte _ _ _ _ _ _ _ _ C2) by done.
      unfold copy_pte. destruct (decide (in_pages 0 sz va)) as [Hi|Hi].
      * rewrite decide_True by auto. by rewrite (vs_pte _ _ _ _ _ S1).
      * rewrite decide_False by tauto. by apply Hpte1.
Qed.

(** ** Correctness *)

Lemma vsame_bytes k k' p ds0 ds kref0 kref d va :
  vinv kend k p ds0 kref0 → ds ⊆ ds0 → kpos kref → vsame ds kref k k' → d ∈ ds → 0 ≤ va < KERNBASE →
  ubyte (k_mem k') d va = ubyte (k_mem k) d va.
Proof.
  intros I Hsub Hpos S Hd Hva. eapply ubyte_eq; try done; [apply S|].
  apply (vm_pte _ _ _ _ S); [done|unfold KERNBASE in *; lia].
Qed.

(** What the child sees, and that the shared pages are read-only. *)
Lemma forked_bytes k k' p ds kref src d sz :
  vinv kend k p ds kref → kpos kref → src ∈ ds → forked ds kref src d sz k k' →
  (∀ va, 0 ≤ va < KERNBASE → in_pages 0 sz va →
     ubyte (k_mem k') d va = ubyte (k_mem k) src va ∧
     flag_set (pte (k_mem k') d va) PTE_W = false ∧ flag_set (pte (k_mem k') src va) PTE_W = false) ∧
  (∀ va, 0 ≤ va < KERNBASE → ¬ in_pages 0 sz va → ubyte (k_mem k') d va = None).
Proof using Hdata.
  intros I Hpos Hsrc [S' Hs Hc].
  assert (∀ va, 0 ≤ va < KERNBASE → 0 ≤ va < 2 ^ 32) as Hrg by (unfold KERNBASE; lia). split; intros va Hva Hin.
  - rewrite Hs, noW_W by auto. rewrite Hc, decide_True, noW_W by auto.
    split_and!; [|done|done]. eapply ubyte_eq; try done; [apply S'|].
    right. by rewrite Hc, decide_True by auto.
  - unfold ubyte. rewrite Hc, decide_False by auto. by rewrite kmap_user.
Qed.

(** C2. [copyuvm], the memory half of fork: on success the child sees
    exactly the bytes the parent sees, both have only read access to every
    shared page, the reference counts match the number of mappings, and the
    hardware's page-table register was reloaded.  On failure it returns 0
    and gives the memory back.  Either way no process sees any of its bytes
    change. *)
Theorem copyuvm_correct s c p ds kref src sz :
  let k := v_k s in
  vinv kend k p ds kref → kpos kref → few (0 :: ds) kref → kready k c → src ∈ ds →
  0 ≤ sz ≤ KERNBASE →
  (∀ va, in_pages 0 sz va → flag_set (pte (k_mem k) src va) PTE_P = true) →
  wp (copyuvm kend data src sz) (λ d s',
    (∀ d' va, d' ∈ ds → 0 ≤ va < KERNBASE →
       ubyte (k_mem (v_k s')) d' va = ubyte (k_mem k) d' va) ∧
    ((d = 0 ∧ ∃ p', vinv kend (v_k s') p' ds kref) ∨
     (d ∉ ds ∧ (∃ p', vinv kend (v_k s') p' (d :: ds) kref) ∧ v_cr3 s' = V2P src ∧
      (∀ va, 0 ≤ va < KERNBASE → in_pages 0 sz va →
         ubyte (k_mem (v_k s')) d va = ubyte (k_mem k) src va ∧
         flag_set (pte (k_mem (v_k s')) d va) PTE_W = false ∧
         flag_set (pte (k_mem (v_k s')) src va) PTE_W = false) ∧
      (∀ va, 0 ≤ va < KERNBASE → ¬ in_pages 0 sz va → ubyte (k_mem (v_k s')) d va = None)))) s.
Proof using Hkend Hdata.
  intros k I Hpos Hfew Hr Hsrc Hsz Hpres. eapply (copyuvm_wp s p ds kref c); try done.
  - intros s' p' I' S'. split; [intros; by eapply vsame_bytes|]. left. eauto.
  - intros s' p' d Hd I' F Hcr3. split; [intros; eapply vsame_bytes; try done; apply F|]. right.
    split; [done|]. split; [by eauto|]. split; [done|]. by eapply forked_bytes.
Qed.
End copy.
