(* ===== verification/Cow.v ===== *)
(** [CoW_handler]: the page-fault half of copy-on-write fork. *)

From S2P Require Import Prelude Memory Kstring Spinlock Mmu Kalloc Vm VmInv VmWalk VmMap VmFree VmKern VmUser VmCopy.

Section cow.
Context (kend : Z) (Hkend : KERNLINK ≤ kend).
Implicit Types (k : kst) (p : pool) (ds : list Z) (kref : Z → Z).

(** What a successful fault on [va] in [d] establishes: the process owns a
    writable page there, nobody's entries changed otherwise, and every
    process sees the memory it saw before. *)
Record resolved ds (d va : Z) k k' : Prop := {
  rs_frame : kframe k k';
  rs_other : ∀ d' vb, d' ∈ ds → 0 ≤ vb < 2 ^ 32 → ¬ (d' = d ∧ vb / PGSIZE = va / PGSIZE) →
    pte (k_mem k') d' vb = pte (k_mem k) d' vb;
  rs_P : flag_set (pte (k_mem k') d va) PTE_P = true;
  rs_W : flag_set (pte (k_mem k') d va) PTE_W = true;
  rs_own : users (k_mem k') ds (upage (pte (k_mem k') d va)) = 1;
  rs_bytes : ∀ d' vb, d' ∈ ds → 0 ≤ vb < KERNBASE →
    ubyte (k_mem k') d' vb = ubyte (k_mem k) d' vb;
}.

Lemma entry_addr e : 0 ≤ e < 2 ^ 32 → PTE_ADDR e = V2P (upage e).
Proof. intros He. unfold upage. pose proof (PTE_ADDR_range e He). rewrite V2P_P2V by lia. done. Qed.

Lemma lor_W e : 0 ≤ e < 2 ^ 32 →
  0 ≤ Z.lor e PTE_W < 2 ^ 32 ∧ upage (Z.lor e PTE_W) = upage e ∧
  flag_set (Z.lor e PTE_W) PTE_P = flag_set e PTE_P ∧ flag_set (Z.lor e PTE_W) PTE_W = true.
Proof.
  intros He.
  assert (PTE_ADDR (Z.lor e PTE_W) = PTE_ADDR e) as Ea.
  { unfold PTE_ADDR. rewrite Z.land_lor_distr_l. change (Z.land PTE_W (Z.lnot 0xFFF)) with 0.
    apply Z.lor_0_r. }
  split_and!.
  - apply Z.lor_nonneg. unfold PTE_W. lia.
  - pose proof (PTE_split (Z.lor e PTE_W)) as Es. rewrite Ea in Es.
    pose proof (PTE_ADDR_range e He). rewrite PTE_FLAGS_eq in Es.
    pose proof (Z.mod_pos_bound (Z.lor e PTE_W) 4096). lia.
  - unfold upage. by rewrite Ea.
  - rewrite flag_set_lor. change (flag_set PTE_W PTE_P) with false. apply orb_false_r.
  - rewrite flag_set_lor. change (flag_set PTE_W PTE_W) with true. apply orb_true_r.
Qed.

(** The last owner gets write permission back. *)
Lemma resolve_last k p ds kref d va t :
  vinv kend k p ds kref → kpos kref → d ∈ ds → 0 ≤ va < KERNBASE →
  pgtab (k_mem k) d (PDX va) = Some t → flag_set (pte (k_mem k) d va) PTE_P = true →
  refs p (upage (pte (k_mem k) d va)) ≤ 1 →
  let k' := set_mem (wr32 (k_mem k) (t + 4 * PTX va) (Z.lor (pte (k_mem k) d va) PTE_W)) k in
  vinv kend k' p ds kref ∧ resolved ds d va k k'.
Proof using Hkend.
  intros I Hpos Hd Hva Ht HP Hr k'. set (e := pte (k_mem k) d va) in *.
  destruct (lor_W e (pte_range _ _ _)) as (He & Eu & EP & EW).
  assert (0 ≤ va < 2 ^ 32) as Hva' by (unfold KERNBASE in *; lia).
  assert (∀ v, entry_maps (Z.lor e PTE_W) v = entry_maps e v) as Hm.
  { intros v. unfold entry_maps. by rewrite EP, Eu. }
  destruct (set_same kend Hkend k p ds kref d va t (Z.lor e PTE_W)) as [I' T']; try done.
  { intros _ _. by rewrite Eu. }
  fold k' in I', T'. split; [done|].
  assert (pte (k_mem k') d va = Z.lor e PTE_W) as Epte.
  { rewrite (vt_pte _ _ _ _ _ _ _ _ T') by done. by rewrite decide_True. }
  destruct (user_live kend _ _ _ _ _ _ d va I (reflexivity _) Hpos Hd Hva HP) as [Hok Hl].
  split; rewrite ?Epte; try done.
  - intros d' vb Hd' Hvb Hn. rewrite (vt_pte _ _ _ _ _ _ _ _ T') by done. by rewrite decide_False.
  - by rewrite EP.
  - rewrite Eu. pose proof (vi_rc _ _ _ _ _ I' _ Hok) as Hrc. fold e in Hrc.
    pose proof (Hpos (upage e)). pose proof (tabs_nonneg (k_mem k') ds (upage e)).
    enough (0 < users (k_mem k') ds (upage e)) by lia.
    eapply users_pos; [exact Hd|exact Hva|]. rewrite Epte, Hm. by apply entry_maps_upage.
  - intros d' vb Hd' Hvb. assert (0 ≤ vb < 2 ^ 32) by (unfold KERNBASE in *; lia).
    destruct (decide (d' = d ∧ vb / PGSIZE = va / PGSIZE)) as [E|E].
    + destruct E as [-> E]. unfold ubyte.
      rewrite (same_page_pte (k_mem k') d va vb), (same_page_pte (k_mem k) d va vb) by done.
      rewrite Epte, EP, Eu. fold e. rewrite HP. f_equal.
      apply (vt_data _ _ _ _ _ _ _ _ T' _ Hok Hl).
      pose proof (Z.mod_pos_bound vb PGSIZE). unfold PGSIZE in *. fold e. lia.
    + eapply (ubyte_eq kend k p ds ds kref kref); try done; [apply T'|]. left.
      rewrite (vt_pte _ _ _ _ _ _ _ _ T') by done. by rewrite decide_False.
Qed.

(** Another owner remains: the process gets a copy of its own. *)
Section resolve_copy.
Context k p ds kref (mem d va t : Z).
Context (I : vinv kend k p ds (hold mem kref)) (Hpos : kpos kref) (Hd : d ∈ ds).
Context (Hva : 0 ≤ va < KERNBASE) (Ht : pgtab (k_mem k) d (PDX va) = Some t).
Context (HP : flag_set (pte (k_mem k) d va) PTE_P = true).
Context (Hmem : page_ok kend mem) (Hnf : mem ∉ free p) (K0 : kref mem = 0)
  (T0 : tabs (k_mem k) ds mem = 0) (U0 : users (k_mem k) ds mem = 0).
Let e := pte (k_mem k) d va.
Let k1 := set_mem (memmove (k_mem k) mem (upage e) PGSIZE) k.
Let k' := set_mem (wr32 (k_mem k1) (t + 4 * PTX va) (pde_of mem)) k1.

Lemma copy_old_page : page_ok kend (upage e) ∧ live (k_mem k) ds kref (upage e) ∧ upage e ≠ mem.
Proof using All.
  assert (0 < users (k_mem k) ds (upage e)) as Hu.
  { eapply users_pos; [done|done|by apply entry_maps_upage]. }
  split_and!; [by apply (vi_user _ _ _ _ _ I)| |].
  - unfold live. specialize (Hpos (upage e)). lia.
  - intros E. rewrite E in Hu. lia.
Qed.

Lemma copy_off x : ¬ (mem ≤ x < mem + PGSIZE) → rd8 (k_mem k1) x = rd8 (k_mem k) x.
Proof using. intros Hx. unfold k1. simpl. rewrite memmove_rd8 by done. by rewrite decide_False. Qed.

Lemma copy_tables : tables_agree (k_mem k) (k_mem k1) ds.
Proof using All. eapply tables_agree_off; [done|done|done|]. apply copy_off. Qed.

Lemma copy_vinv1 : vinv kend k1 p ds (hold mem kref).
Proof using All. eapply vinv_write; try done. apply copy_off. Qed.

Lemma copy_entry : 0 ≤ pde_of mem < 2 ^ 32 ∧ upage (pde_of mem) = mem ∧
  flag_set (pde_of mem) PTE_P = true ∧ flag_set (pde_of mem) PTE_W = true.
Proof using All.
  destruct (entry_page kend Hkend mem 7 Hmem ltac:(lia)) as (He & Hup & Hbit).
  rewrite pde_of_eq, flag_P, flag_W, !Hbit by lia. done.
Qed.

Lemma resolve_copy_vinv : vinv kend k' p ds (hold (upage e) kref).
Proof using All.
  pose proof copy_tables as Hag. destruct copy_entry as (He & Eu & EP & EW).
  assert (pgtab (k_mem k1) d (PDX va) = Some t) as Ht1.
  { rewrite (pgtab_agree _ _ _ Hag); [done|done|apply PDX_range]. }
  assert (0 ≤ va < 2 ^ 32) as Hva' by (unfold KERNBASE in *; lia).
  eapply vinv_ext;
    [|eapply (set_pte_vinv kend Hkend k1 p ds _ copy_vinv1 d va t (pde_of mem))]; try done.
  - intros w. unfold kref_set, hold, umaps, entry_maps.
    rewrite (pte_agree _ _ _ Hag) by done. fold e in HP |- *. rewrite HP, EP, Eu.
    destruct (Z.ltb_spec va KERNBASE); [|lia]. simpl. lia.
  - intros _ _. rewrite Eu, (tabs_agree _ _ _ Hag). split_and!; [done|done|]. intros _.
    rewrite (vi_rc _ _ _ _ _ I) by done. unfold hold. rewrite Z.eqb_refl. lia.
Qed.

Lemma resolve_copy_resolved : resolved ds d va k k'.
Proof using All.
  pose proof copy_tables as Hag. destruct copy_entry as (He & Eu & EP & EW).
  destruct copy_old_page as (Hok & Hl & Hne).
  assert (pgtab (k_mem k1) d (PDX va) = Some t) as Ht1.
  { rewrite (pgtab_agree _ _ _ Hag); [done|done|apply PDX_range]. }
  assert (0 ≤ va < 2 ^ 32) as Hva' by (unfold KERNBASE in *; lia).
  assert (vset kend ds (hold mem kref) d va (pde_of mem) k1 k') as T'.
  { eapply (store_vset kend Hkend); try done. apply copy_vinv1. }
  assert (pte (k_mem k') d va = pde_of mem) as Epte.
  { rewrite (vt_pte _ _ _ _ _ _ _ _ T') by done. by rewrite decide_True. }
  assert (∀ d' vb, d' ∈ ds → 0 ≤ vb < 2 ^ 32 → ¬ (d' = d ∧ vb / PGSIZE = va / PGSIZE) →
            pte (k_mem k') d' vb = pte (k_mem k) d' vb) as Hother.
  { intros d' vb Hd' Hvb Hn. rewrite (vt_pte _ _ _ _ _ _ _ _ T') by done.
    rewrite decide_False by done. by rewrite (pte_agree _ _ _ Hag). }
  assert (∀ v, live (k_mem k) ds kref v → live (k_mem k1) ds (hold mem kref) v) as Hlive.
  { intros v. unfold live. rewrite (users_agree _ _ _ Hag). pose proof (hold_le mem kref v). lia. }
  split; rewrite ?Epte, ?Eu; try done.
  - pose proof (vi_rc _ _ _ _ _ resolve_copy_vinv mem Hmem) as Hrc.
    rewrite (vi_rc _ _ _ _ _ I) in Hrc by done. unfold hold in Hrc.
    rewrite Z.eqb_refl, (proj2 (Z.eqb_neq _ _)) in Hrc by done.
    assert (tabs (k_mem k') ds mem = 0); [|lia]. eapply users_not_tab; [apply resolve_copy_vinv|done|].
    eapply users_pos; [exact Hd|exact Hva|]. rewrite Epte. unfold entry_maps.
    by rewrite EP, Eu, Z.eqb_refl.
  - intros d' vb Hd' Hvb. assert (0 ≤ vb < 2 ^ 32) by (unfold KERNBASE in *; lia).
    pose proof (Z.mod_pos_bound vb PGSIZE ltac:(done)) as Hmod.
    destruct (decide (d' = d ∧ vb / PGSIZE = va / PGSIZE)) as [E|E].
    + destruct E as [-> E]. unfold ubyte.
      rewrite (same_page_pte (k_mem k') d va vb), (same_page_pte (k_mem k) d va vb) by done.
      rewrite Epte, EP, Eu. fold e in HP |- *. rewrite HP. f_equal.
      rewrite (vt_data _ _ _ _ _ _ _ _ T' mem) by (try done; try lia; unfold live, hold;
        rewrite Z.eqb_refl; pose proof (users_nonneg (k_mem k1) ds mem); lia).
      unfold k1. simpl. rewrite memmove_rd8 by done. rewrite decide_True by lia. f_equal. lia.
    + unfold ubyte. rewrite (Hother d' vb) by done.
      destruct (flag_set (pte (k_mem k) d' vb) PTE_P) eqn:HP'; [|done]. f_equal.
      assert (page_ok kend (upage (pte (k_mem k) d' vb))) as Hok' by by apply (vi_user _ _ _ _ _ I).
      assert (0 < users (k_mem k) ds (upage (pte (k_mem k) d' vb))) as Hu'.
      { eapply users_pos; [done|done|by apply entry_maps_upage]. }
      rewrite (vt_data _ _ _ _ _ _ _ _ T' _ Hok') by
        (try lia; apply Hlive; unfold live; specialize (Hpos (upage (pte (k_mem k) d' vb))); lia).
      apply copy_off. assert (mem ≠ upage (pte (k_mem k) d' vb)) by (intros Em; rewrite <- Em in Hu'; lia).
      destruct (page_disjoint mem (upage (pte (k_mem k) d' vb))); [apply Hmem|apply Hok'|done|lia|lia].
Qed.
End resolve_copy.

Lemma resolved_mem ds d va k0 k k' k1 :
  kframe k0 k → k_mem k = k_mem k0 → kframe k' k1 → k_mem k1 = k_mem k' →
  resolved ds d va k k' → resolved ds d va k0 k1.
Proof.
  intros F0 M0 F1 M1 [F O P W U B]. rewrite M0 in *. rewrite <- M1 in *.
  split; try done. etrans; [done|]. etrans; [done|done].
Qed.

Lemma CoW_handler_wp s c p ds kref d va Q :
  let k := v_k s in
  vinv kend k p ds kref → kpos kref → kready k c → d ∈ ds → 0 ≤ va < KERNBASE →
  flag_set (pte (k_mem k) d va) PTE_P = true →
  (1 < refs p (upage (pte (k_mem k) d va)) → free p ≠ []) →
  (∀ s' p', vinv kend (v_k s') p' ds kref → resolved ds d va k (v_k s') → v_cr3 s' = V2P d →
     v_kpgdir s' = v_kpgdir s → (length (free p) ≤ S (length (free p')))%nat → Q CowDone s') →
  wp (CoW_handler d va) Q s.
Proof using Hkend.
  intros k I Hpos Hr Hd Hva HP Hfree HQ.
  assert (0 ≤ va < 2 ^ 32) as Hva' by (unfold KERNBASE in *; lia).
  unfold CoW_handler, in_k. wp_auto. apply wp_zoom. fold k.
  destruct (pgtab (k_mem k) d (PDX va)) as [t|] eqn:Et.
  2: { unfold pte in HP. by rewrite Et in HP. }
  eapply wp_run; [by apply walk_present|].
  rewrite (tab_addr_nz kend Hkend _ _ _ _ d _ _ I) by done. cbv iota. cbn [v_k set_k].
  wp_auto. apply wp_zoom. unfold load32. wp_auto. cbn [v_k set_k]. fold k. rewrite (pte_tab _ d) by done.
  rewrite HP. cbn [orb negb]. rewrite (entry_addr _ (pte_range _ _ _)).
  set (e := pte (k_mem k) d va) in *.
  assert (page_ok kend (upage e)) as Hok by by apply (vi_user _ _ _ _ _ I).
  wp_auto. apply wp_zoom. cbn [v_k set_k]. eapply (get_refc_vinv kend Hkend k c); try done.
  intros k1 F1 M1 I1. unfold store32, lcr3. destruct (Z.ltb_spec 1 (refs p (upage e))) as [Hgt|Hle].
  - wp_auto. apply wp_zoom. cbn [v_k set_k]. eapply (kalloc_vinv kend Hkend k1 c); try done.
    { by eapply kready_frame. }
    { intros k2 p2 _ _ E. by destruct (Hfree Hgt). }
    intros k2 p2 mem F2 M2 Hmem Hnf K0 T0 U0 R1 Hfr I2.
    destruct (page_ok_pos kend Hkend mem Hmem) as [_ Hnz]. rewrite (proj2 (Z.eqb_neq _ _)) by done.
    assert (k_mem k2 = k_mem k) as M2' by congruence. rewrite M1, <- M2' in T0, U0.
    assert (pte (k_mem k2) d va = e) as Ee by (unfold e; by rewrite M2').
    rewrite <- M2' in Et.
    assert (flag_set (pte (k_mem k2) d va) PTE_P = true) as HP2 by by rewrite Ee.
    pose proof (resolve_copy_vinv k2 p2 ds kref mem d va t I2 Hpos Hd Hva Et HP2 Hmem Hnf K0 T0 U0) as I4.
    pose proof (resolve_copy_resolved k2 p2 ds kref mem d va t I2 Hpos Hd Hva Et HP2 Hmem Hnf K0 T0 U0) as R4.
    cbn zeta in I4, R4. rewrite Ee in I4, R4.
    wp_auto. apply wp_zoom. wp_auto. apply wp_zoom. wp_auto. cbn [v_k set_k]. apply wp_zoom.
    cbn [v_k set_k k_mem set_mem]. fold (pde_of mem).
    assert (P2V (V2P (upage e)) = upage e) as ->.
    { apply P2V_V2P. pose proof (page_ok_pos kend Hkend _ Hok).
      unfold KERNLINK, KERNBASE, EXTMEM in *. lia. }
    set (k4 := set_mem (wr32 (k_mem (set_mem (memmove (k_mem k2) mem (upage e) PGSIZE) k2))
      (t + 4 * PTX va) (pde_of mem)) (set_mem (memmove (k_mem k2) mem (upage e) PGSIZE) k2)) in *.
    assert (refs p2 (upage e) = refs p (upage e)) as Hsame.
    { rewrite (vi_rc _ _ _ _ _ I2), (vi_rc _ _ _ _ _ I) by done. rewrite M2'. unfold hold.
      destruct (Z.eqb_spec mem (upage e)) as [Em|]; [|unfold k; lia].
      exfalso. enough (0 < users (k_mem k2) ds mem) by lia. rewrite Em, M2'.
      eapply users_pos; [done|done|by apply entry_maps_upage]. }
    eapply (decr_refc_vinv kend Hkend k4 c); try done.
    + eapply kready_frame; [|done]. etrans; [apply F1|]. etrans; [apply F2|]. done.
    + lia.
    + pose proof (vi_rc _ _ _ _ _ I4 _ Hok) as Hrc. pose proof (vi_uniq _ _ _ _ _ I4 _ Hok) as Hun.
      pose proof (tabs_nonneg (k_mem k4) ds (upage e)). lia.
    + intros k5 p5 F5 M5 Hfr5 I5. wp_auto. eapply HQ; cbn [v_k set_k v_cr3 v_kpgdir].
      * eapply vinv_ext; [|done]. apply drop_hold.
      * eapply (resolved_mem _ _ _ k k2 k4 k5); try done. by etrans.
      * done.
      * done.
      * rewrite Hfr, Hfr5. cbn. lia.
  - wp_auto. apply wp_zoom. wp_auto. cbn [v_k set_k]. rewrite <- M1 in Et.
    assert (pte (k_mem k1) d va = e) as Ee by (unfold e; by rewrite M1).
    destruct (resolve_last k1 p ds kref d va t) as [I2 R2]; try done.
    { by rewrite Ee. } { by rewrite Ee. }
    rewrite Ee in I2, R2. eapply HQ; [done| |done|done|lia].
    eapply (resolved_mem _ _ _ k k1); [done|done|reflexivity|reflexivity|exact R2].
Qed.

(** The whole handler on an address that is not mapped. *)
Lemma CoW_handler_unmapped s p ds kref d va :
  vinv kend (v_k s) p ds kref → d ∈ ds →
  flag_set (pte (k_mem (v_k s)) d va) PTE_P = false → CoW_handler d va s = Ok CowExit s.
Proof using Hkend.
  intros I Hd HP. unfold CoW_handler. destruct (pgtab (k_mem (v_k s)) d (PDX va)) as [t|] eqn:Et.
  - erewrite bind_run; [|by apply zoom_Ok, walk_present].
    rewrite (tab_addr_nz kend Hkend _ _ _ _ d _ _ I) by done. cbv iota.
    erewrite bind_run; [|by apply zoom_Ok]. cbn [v_k set_k k_mem]. rewrite (pte_tab _ d) by done.
    rewrite HP. by destruct s.
  - erewrite bind_run; [|by apply zoom_Ok, walk_absent]. by destruct s.
Qed.

(** ** Correctness *)

(** C1. A page fault on a mapped user address, with a free page if the page
    is shared, is resolved: the process gets a present, writable page that
    no other entry maps; every byte that any process sees is as before; the
    reference counts stay exact; %cr3 is reloaded. *)
Theorem CoW_handler_resolves s c p ds kref d va :
  let k := v_k s in
  vinv kend k p ds kref → kpos kref → kready k c → d ∈ ds → 0 ≤ va < KERNBASE →
  flag_set (pte (k_mem k) d va) PTE_P = true →
  (1 < refs p (upage (pte (k_mem k) d va)) → free p ≠ []) →
  wp (CoW_handler d va) (λ r s', r = CowDone ∧ (∃ p', vinv kend (v_k s') p' ds kref) ∧
    resolved ds d va k (v_k s') ∧ v_cr3 s' = V2P d) s.
Proof using Hkend.
  intros k I Hpos Hr Hd Hva HP Hfree. eapply (CoW_handler_wp s c); try done.
  intros s' p' I' R' C' _ _. split_and!; [done|eauto|done|done].
Qed.

(** A store by a process to [va] of its address space [d]. *)
Definition ustore (d va b : Z) (m : memory) : memory :=
  wr8 m (upage (pte m d va) + va mod PGSIZE) b.

(** Isolation: a store through a present and writable user mapping
    changes that byte of that process and no other byte that any process
    sees, and keeps the invariant.  (A process only ever gets write access
    to pages of its own: see [copyuvm_correct] and [CoW_handler_resolves].) *)
Theorem user_store_isolated k p ds kref d va b :
  vinv kend k p ds kref → kpos kref → d ∈ ds → 0 ≤ va < KERNBASE →
  flag_set (pte (k_mem k) d va) PTE_P = true → flag_set (pte (k_mem k) d va) PTE_W = true →
  let k' := set_mem (ustore d va b (k_mem k)) k in
  vinv kend k' p ds kref ∧ tables_agree (k_mem k) (k_mem k') ds ∧
  ∀ d' vb, d' ∈ ds → 0 ≤ vb < KERNBASE →
    ubyte (k_mem k') d' vb = if decide (d' = d ∧ vb = va) then Some (u8 b) else ubyte (k_mem k) d' vb.
Proof using Hkend.
  intros I Hpos Hd Hva HP HW k'. set (e := pte (k_mem k) d va) in *.
  destruct (user_live kend _ _ _ _ _ _ d va I (reflexivity _) Hpos Hd Hva HP) as [Hok Hl]. fold e in Hok, Hl.
  destruct (live_not_tab _ _ _ _ _ I _ Hok Hl) as [T0 R0].
  pose proof (Z.mod_pos_bound va PGSIZE ltac:(done)) as Hm.
  assert (∀ x, ¬ (upage e ≤ x < upage e + PGSIZE) → rd8 (k_mem k') x = rd8 (k_mem k) x) as Hoff.
  { intros x Hx. unfold k', ustore. simpl. fold e. apply rd8_wr8_ne. lia. }
  pose proof (tables_agree_off _ _ _ _ _ I (k_mem k') _ Hok T0 Hoff) as Hag. split.
  { eapply vinv_write; try done. by eapply refs_not_free. }
  split; [done|]. intros d' vb Hd' Hvb. unfold ubyte. rewrite (pte_agree _ _ _ Hag) by done.
  destruct (decide (d' = d ∧ vb / PGSIZE = va / PGSIZE)) as [[-> E]|E].
  - rewrite (same_page_pte (k_mem k) d va vb) by (done || unfold KERNBASE in *; lia). fold e.
    rewrite HP. unfold k', ustore. simpl. fold e. rewrite rd8_wr8.
    assert (upage e + va mod PGSIZE = upage e + vb mod PGSIZE ↔ vb = va) as Heq.
    { unfold PGSIZE in *. split; [|by intros ->]. intros. Z.div_mod_to_equations. lia. }
    repeat case_decide; try done; tauto.
  - rewrite (decide_False (P := d' = d ∧ vb = va)) by (intros [-> ->]; by apply E).
    destruct (flag_set (pte (k_mem k) d' vb) PTE_P) eqn:HP'; [|done]. f_equal. apply Hoff.
    pose proof (vi_user _ _ _ _ _ I d' vb Hd' Hvb HP') as Hok'.
    pose proof (Z.mod_pos_bound vb PGSIZE ltac:(done)) as Hm'.
    destruct (decide (upage e = upage (pte (k_mem k) d' vb))) as [Eu|Hne].
    + exfalso. pose proof (vi_excl _ _ _ _ _ I d va Hd Hva HP HW) as Hex. fold e in Hex.
      rewrite (vi_rc _ _ _ _ _ I) in Hex by done. specialize (Hpos (upage e)).
      enough (2 ≤ users (k_mem k) ds (upage e)) by lia.
      apply (users_two _ _ d va d' vb); try done; [by apply entry_maps_upage|].
      rewrite Eu. by apply entry_maps_upage.
    + destruct (page_disjoint (upage e) (upage (pte (k_mem k) d' vb)));
        [apply Hok|apply Hok'|done|lia|lia].
Qed.

(** The addresses of memory-mapped devices. *)
Definition device_va (va : Z) : Prop := DEVSPACE ≤ va < 2 ^ 32.

(** The handler does not check that the faulting address belongs to the
    process: on an access to device memory, which every page table maps for
    the kernel at DEVSPACE, it indexes the reference counts of physical
    memory past their end. *)
Theorem CoW_handler_device_fault s c p ds kref d data va :
  vinv kend (v_k s) p ds kref → kready (v_k s) c → d ∈ ds →
  kernel_map data va (pte (k_mem (v_k s)) d va) → device_va va →
  CoW_handler d va s = Fault "refc_cnt index".
Proof using Hkend.
  intros I Hr Hd (_ & _ & _ & Hk) Hva. destruct (Hk Hva) as (HP & _ & _ & Ha).
  destruct (pgtab (k_mem (v_k s)) d (PDX va)) as [t|] eqn:Ht.
  2: { unfold pte in HP. by rewrite Ht in HP. }
  unfold CoW_handler. erewrite bind_run; [|by apply zoom_Ok, walk_present].
  rewrite (tab_addr_nz kend Hkend _ _ _ _ d _ _ I) by done. cbv iota.
  erewrite bind_run; [|by apply zoom_Ok]. cbn [v_k set_k k_mem]. rewrite (pte_tab _ d) by done.
  rewrite HP, Ha. cbn [orb negb].
  assert (∃ k1, klock (v_k s) = Ok tt k1) as [k1 Hl].
  { assert (wp klock (λ _ _, True) (v_k s)) as H by (by eapply klock_wp).
    apply wp_Ok in H as ([] & k1 & ? & _). eauto. }
  assert (NREFC ≤ pfn (va / PGSIZE * PGSIZE)) as Hp.
  { unfold pfn, NREFC. rewrite !Z.shiftr_div_pow2 by (unfold PGSHIFT; lia).
    unfold device_va, DEVSPACE, PGSIZE, PHYSTOP, PGSHIFT in *. Z.div_mod_to_equations. lia. }
  assert (get_refc (va / PGSIZE * PGSIZE) (v_k s) = Fault "refc_cnt index") as Hf.
  { unfold get_refc. rewrite (bind_run _ _ _ _ _ Hl). unfold mbind, M_bind, refc_get.
    by rewrite (proj2 (Z.ltb_ge _ _)), andb_false_r. }
  unfold in_k, zoom, mbind, M_bind. cbn [v_k set_k]. by rewrite Hf.
Qed.
End cow.
