(* ===== verification/VmDemo.v ===== *)
(** A small machine that satisfies the invariant: five pages of memory, of
    which one is free, one is a page directory, one its only page table, one
    is mapped twice copy-on-write and one is mapped writable; and a machine
    with 65 free pages and no address space.  The witnesses of the
    virtual-memory theorems are stated on them. *)

From S2P Require Import Prelude Memory Kstring Spinlock Mmu Kalloc Vm VmInv VmWalk VmMap VmFree VmKern VmUser VmCopy.
From S2P Require Import Cow.

Definition dm_end : Z := 0x8DFFB000.
Definition dm_free : Z := 0x8DFFB000.
Definition dm_dir : Z := 0x8DFFC000.
Definition dm_tab : Z := 0x8DFFD000.
Definition dm_shared : Z := 0x8DFFE000.
Definition dm_own : Z := 0x8DFFF000.

Lemma dm_end_ok : KERNLINK ≤ dm_end.
Proof. done. Qed.

Definition dm_rc : gmap Z Z :=
  {[ frame dm_dir := 1; frame dm_tab := 1; frame dm_shared := 2; frame dm_own := 1 ]}.
Definition dm_pool : pool := Pool [dm_free] dm_rc 0.
Definition dm_k0 : kst := Kst boot_mach ∅ (Kmem true dm_free 1 dm_rc).

Definition dm_kref0 : Z → Z :=
  hold dm_dir (hold dm_tab (hold dm_shared (hold dm_shared (hold dm_own (λ _, 0))))).

Lemma dm_pages v : page_ok dm_end v →
  v = dm_free ∨ v = dm_dir ∨ v = dm_tab ∨ v = dm_shared ∨ v = dm_own.
Proof.
  intros [Hal Hr]. unfold dm_end, dm_free, dm_dir, dm_tab, dm_shared, dm_own, PGSIZE, KERNBASE, PHYSTOP in *.
  Z.div_mod_to_equations. lia.
Qed.

Lemma dm_refs v : page_ok dm_end v → refs dm_pool v = dm_kref0 v.
Proof. intros [->|[->|[->|[->| ->]]]]%dm_pages; vm_compute; reflexivity. Qed.

Lemma dm_kabs : kabs dm_end dm_k0 dm_pool.
Proof.
  split.
  - split; reflexivity.
  - apply Forall_singleton. by vm_compute.
  - apply NoDup_singleton.
  - intros v ->%list_elem_of_singleton. reflexivity.
  - done.
  - intros i. simpl. unfold dm_rc.
    rewrite !lookup_insert_default. repeat case_decide; try lia.
    destruct (decide (i = frame dm_own)) as [->|];
      [rewrite lookup_singleton_eq|rewrite lookup_singleton_ne by done]; simpl; lia.
  - reflexivity.
Qed.

Lemma dm_inv0 : vinv dm_end dm_k0 dm_pool [] dm_kref0.
Proof.
  split; try (intros ? ? H%elem_of_nil; done); try (intros ? ? ? H%elem_of_nil; done).
  - apply dm_kabs.
  - apply NoDup_nil_2.
  - intros v Hv. rewrite dm_refs by done. unfold tabs, users. simpl. lia.
  - intros v Hv H. unfold tabs in H. simpl in H. lia.
  - intros v [->|[->|[->|[->| ->]]]]%dm_pages; [by left|vm_compute; discriminate..].
Qed.

(** The address space: pages 0 and 1 share a frame, page 2 is writable. *)
Definition dm_dir_with (i : Z) : kst :=
  set_mem (wr32 (k_mem dm_k0) (dm_dir + 4 * i) (pde_of dm_tab)) dm_k0.
Definition dm_k1 : kst := dm_dir_with 0.
Definition dm_ro : Z := Z.lor (V2P dm_shared) 5.
Definition dm_rw : Z := Z.lor (V2P dm_own) 7.
Definition dm_k2 : kst := set_mem (wr32 (k_mem dm_k1) (dm_tab + 4 * PTX 0) dm_ro) dm_k1.
Definition dm_k3 : kst := set_mem (wr32 (k_mem dm_k2) (dm_tab + 4 * PTX 0x1000) dm_ro) dm_k2.
Definition dm_k : kst := set_mem (wr32 (k_mem dm_k3) (dm_tab + 4 * PTX 0x2000) dm_rw) dm_k3.

Lemma dm_ok v : v = dm_dir ∨ v = dm_tab ∨ v = dm_shared ∨ v = dm_own → page_ok dm_end v.
Proof. intros [->|[->|[->| ->]]]; by vm_compute. Qed.

(** A page all of whose references the kernel holds. *)
Lemma all_held k p ds kref v : vinv dm_end k p ds kref → page_ok dm_end v → refs p v = kref v →
  tabs (k_mem k) ds v = 0 ∧ users (k_mem k) ds v = 0.
Proof.
  intros I Hv E. pose proof (vi_rc _ _ _ _ _ I v Hv). pose proof (tabs_nonneg (k_mem k) ds v).
  pose proof (users_nonneg (k_mem k) ds v). lia.
Qed.

Lemma dm_inv1 i : 0 ≤ i < 1024 → vinv dm_end (dm_dir_with i) dm_pool [dm_dir]
  (hold dm_shared (hold dm_shared (hold dm_own (λ _, 0)))).
Proof.
  intros Hi. assert (∀ v, page_ok dm_end v → refs dm_pool v = dm_kref0 v →
    tabs (k_mem dm_k0) [] v = 0 ∧ users (k_mem dm_k0) [] v = 0) as H0.
  { intros v Hv. by apply (all_held dm_k0 dm_pool [] dm_kref0 v dm_inv0). }
  destruct (vinv_adopt dm_end dm_k0 dm_pool []
    (hold dm_tab (hold dm_shared (hold dm_shared (hold dm_own (λ _, 0))))) dm_dir) as [_ I1].
  - exact dm_inv0.
  - apply dm_ok; auto.
  - reflexivity.
  - apply H0; [apply dm_ok; auto|reflexivity].
  - apply H0; [apply dm_ok; auto|reflexivity].
  - intros x _. reflexivity.
  - destruct (all_held _ _ _ _ dm_tab I1) as [T1 U1]; [apply dm_ok; auto|reflexivity|].
    apply (set_pde_vinv dm_end dm_end_ok dm_tab dm_dir i _ _ _ _ I1).
    + by left.
    + done.
    + reflexivity.
    + apply dm_ok; auto.
    + reflexivity.
    + exact T1.
    + exact U1.
    + intros x _. reflexivity.
Qed.

(** Mapping one more page of [dm_dir]. *)
Lemma dm_map k kref va e v :
  vinv dm_end k dm_pool [dm_dir] (hold v kref) → page_ok dm_end v → kpos kref →
  pgtab (k_mem k) dm_dir (PDX va) = Some dm_tab → 0 ≤ va < KERNBASE → 0 ≤ e < 2 ^ 32 →
  flag_set (pte (k_mem k) dm_dir va) PTE_P = false → upage e = v → flag_set e PTE_P = true →
  (flag_set e PTE_W = true → refs dm_pool v = 1) →
  vinv dm_end (set_mem (wr32 (k_mem k) (dm_tab + 4 * PTX va) e) k) dm_pool [dm_dir] kref.
Proof.
  intros I Hv Hpos Ht Hva He Hn Hu HP HW.
  assert (live (k_mem k) [dm_dir] (hold v kref) v) as Hl.
  { unfold live, hold. rewrite Z.eqb_refl. specialize (Hpos v).
    pose proof (users_nonneg (k_mem k) [dm_dir] v). lia. }
  eapply vinv_ext; [|apply (set_entry dm_end dm_end_ok k dm_pool [dm_dir] (hold v kref) dm_dir va dm_tab e)];
    try done.
  - intros w. rewrite give_user by (done || lia). rewrite Hu. apply drop_hold.
  - by left.
  - unfold KERNBASE in *. lia.
  - intros _ _. rewrite Hu. split_and!; [done|done|]. intros HWe.
    pose proof (vi_rc _ _ _ _ _ I v Hv). pose proof (tabs_nonneg (k_mem k) [dm_dir] v).
    specialize (HW HWe). lia.
Qed.

Lemma dm_inv3 : vinv dm_end dm_k3 dm_pool [dm_dir] (hold dm_own (λ _, 0)).
Proof.
  assert (kpos (λ _ : Z, 0)) as Hp0 by (intros v; lia).
  apply (dm_map dm_k2 _ 0x1000 dm_ro dm_shared);
    [|by apply dm_ok; auto|by apply kpos_hold|vm_compute; reflexivity|vm_compute; intuition congruence|
     vm_compute; intuition congruence|vm_compute; reflexivity|vm_compute; reflexivity|vm_compute; reflexivity|
     intros H; vm_compute in H; congruence].
  apply (dm_map dm_k1 _ 0 dm_ro dm_shared);
    [apply (dm_inv1 0); lia|by apply dm_ok; auto|by do 2 apply kpos_hold|vm_compute; reflexivity|
     vm_compute; intuition congruence|vm_compute; intuition congruence|vm_compute; reflexivity|
     vm_compute; reflexivity|vm_compute; reflexivity|intros H; vm_compute in H; congruence].
Qed.

Lemma dm_inv : vinv dm_end dm_k dm_pool [dm_dir] (λ _, 0).
Proof.
  apply (dm_map dm_k3 _ 0x2000 dm_rw dm_own);
    [apply dm_inv3|by apply dm_ok; auto|intros v; lia|vm_compute; reflexivity|vm_compute; intuition congruence|
     vm_compute; intuition congruence|vm_compute; reflexivity|vm_compute; reflexivity|vm_compute; reflexivity|
     intros _; vm_compute; reflexivity].
Qed.

Lemma dm_pos : kpos (λ _ : Z, 0).
Proof. intros v. lia. Qed.

Lemma dm_ready : kready dm_k 0.
Proof. intros _. split; [|done]. split; [done|]. eexists. by split_and!. Qed.

(** The machine with the device page mapped for the kernel instead. *)
Definition dm_dev : kst :=
  set_mem (wr32 (k_mem (dm_dir_with 1016)) (dm_tab + 4 * PTX DEVSPACE) (kentry DEVSPACE PTE_W))
    (dm_dir_with 1016).

Lemma dm_inv_dev : vinv dm_end dm_dev dm_pool [dm_dir]
  (hold dm_shared (hold dm_shared (hold dm_own (λ _, 0)))).
Proof.
  eapply vinv_ext; [|apply (set_entry dm_end dm_end_ok (dm_dir_with 1016) dm_pool [dm_dir]
    (hold dm_shared (hold dm_shared (hold dm_own (λ _, 0)))) dm_dir DEVSPACE dm_tab
    (kentry DEVSPACE PTE_W))].
  - intros w. apply give_kernel. vm_compute. congruence.
  - apply dm_inv1. lia.
  - by left.
  - vm_compute. intuition congruence.
  - vm_compute. intuition congruence.
  - vm_compute. reflexivity.
  - vm_compute. reflexivity.
  - intros H. vm_compute in H. congruence.
Qed.

(** ** Witnesses *)

(** A machine with 65 pages, all of them free: exactly what [setupkvm] needs. *)
Definition big_end : Z := KERNBASE + PHYSTOP - 65 * PGSIZE.
Definition big_pages : list Z := (λ i, big_end + i * PGSIZE) <$> seqZ 0 65.
Definition big_pool : pool := Pool big_pages ∅ 0.
Definition big_k : kst :=
  Kst boot_mach (foldr (λ v m, wr32 m v (if v + PGSIZE =? KERNBASE + PHYSTOP then 0 else v + PGSIZE)) ∅ big_pages)
    (Kmem true big_end 65 ∅).

Lemma big_end_ok : KERNLINK ≤ big_end.
Proof. done. Qed.

Lemma big_page v : v ∈ big_pages ↔ page_ok big_end v.
Proof.
  unfold big_pages, page_ok, big_end, PGSIZE, KERNBASE, PHYSTOP. rewrite list_elem_of_fmap. split.
  - intros (i & -> & Hi%elem_of_seqZ). Z.div_mod_to_equations. lia.
  - intros [Hal Hr]. exists ((v - (2147483648 + 234881024 - 65 * 4096)) / 4096). rewrite elem_of_seqZ.
    Z.div_mod_to_equations. lia.
Qed.

Lemma big_inv : vinv big_end big_k big_pool [] (λ _, 0).
Proof.
  split; try (intros ? ? H%elem_of_nil; done); try (intros ? ? ? H%elem_of_nil; done).
  - split.
    + vm_compute. repeat (split; [reflexivity|]). reflexivity.
    + apply Forall_forall. intros v. by apply big_page.
    + apply NoDup_fmap_2; [|apply NoDup_seqZ]. intros i j H. unfold PGSIZE in H. lia.
    + done.
    + done.
    + done.
    + reflexivity.
  - apply NoDup_nil_2.
  - done.
  - intros v _ H. unfold tabs in H. simpl in H. lia.
  - intros v Hv _. by apply big_page.
Qed.

Lemma big_ready : kready big_k 0.
Proof. intros _. split; [|done]. split; [done|]. eexists. by split_and!. Qed.

Lemma setupkvm_correct_witness :
  wp (setupkvm big_end (KERNLINK + PGSIZE)) (λ d k',
    ∀ va, 0 ≤ va < 2 ^ 32 → kernel_map (KERNLINK + PGSIZE) va (pte (k_mem k') d va)) big_k.
Proof.
  eapply wp_mono.
  - apply (setupkvm_correct big_end big_end_ok big_k 0 big_pool [] (λ _, 0) (KERNLINK + PGSIZE)).
    + vm_compute. intuition congruence.
    + exact big_inv.
    + exact dm_pos.
    + exact big_ready.
  - intros d k' [_ [(_ & Hlow & _)|(_ & _ & Hmap)]]; [vm_compute in Hlow; congruence|exact Hmap].
Defined.

Lemma deallocuvm_correct_witness :
  wp (deallocuvm dm_end dm_dir 0x3000 0x1000) (λ r k', r = 0x1000 ∧
    vunmap dm_end [dm_dir] (λ _, 0) dm_dir (PGROUNDUP 0x1000) 0x3000 dm_k k') dm_k.
Proof.
  eapply wp_mono.
  - apply (deallocuvm_correct dm_end dm_end_ok dm_k 0 dm_pool [dm_dir] (λ _, 0) dm_dir 0x3000 0x1000).
    + exact dm_inv.
    + exact dm_pos.
    + exact dm_ready.
    + by left.
    + lia.
    + vm_compute. congruence.
  - intros r k' (-> & _ & H). split; [reflexivity|exact H].
Defined.

Lemma freevm_correct_witness :
  wp (freevm dm_end dm_dir) (λ _ k', vstep dm_end [] (λ _, 0) dm_k k') dm_k.
Proof.
  eapply wp_mono.
  - apply (freevm_correct dm_end dm_end_ok dm_k 0 dm_pool [] (λ _, 0) dm_dir).
    + exact dm_inv.
    + exact dm_pos.
    + exact dm_ready.
  - intros r k' [H _]. exact H.
Defined.

Lemma in_pages_index lo hi vb : lo mod PGSIZE = 0 → hi mod PGSIZE = 0 → 0 ≤ lo → hi ≤ KERNBASE →
  in_pages lo hi vb → 0 ≤ vb < 2 ^ 32 ∧ lo / PGSIZE ≤ vb / PGSIZE < hi / PGSIZE.
Proof.
  unfold in_pages, PGSIZE, KERNBASE. intros. Z.div_mod_to_equations. lia.
Qed.

Lemma dm_unmapped vb : in_pages (PGROUNDUP 0x3000) 0x4000 vb →
  flag_set (pte (k_mem dm_k) dm_dir vb) PTE_P = false.
Proof.
  intros Hin. destruct (in_pages_index 0x3000 0x4000 vb) as [Hvb Hi]; [done..|].
  change (0x3000 / PGSIZE) with 3 in Hi. change (0x4000 / PGSIZE) with 4 in Hi.
  rewrite pte_page by done. assert (vb / PGSIZE = 3) as -> by lia. vm_compute. reflexivity.
Qed.

Lemma dm_mapped vb : in_pages 0 0x3000 vb → flag_set (pte (k_mem dm_k) dm_dir vb) PTE_P = true.
Proof.
  intros Hin. destruct (in_pages_index 0 0x3000 vb) as [Hvb Hi]; [done..|].
  change (0 / PGSIZE) with 0 in Hi. change (0x3000 / PGSIZE) with 3 in Hi.
  rewrite pte_page by done.
  assert (vb / PGSIZE = 0 ∨ vb / PGSIZE = 1 ∨ vb / PGSIZE = 2) as [-> |[-> | ->]] by lia;
    vm_compute; reflexivity.
Qed.

Lemma allocuvm_correct_witness :
  wp (allocuvm dm_end dm_dir 0x3000 0x4000) (λ r _, r = 0x4000) dm_k.
Proof.
  destruct (allocuvm_correct dm_end dm_end_ok dm_k 0 dm_pool [dm_dir] (λ _, 0) dm_dir 0x3000 0x4000)
    as (_ & _ & H).
  - exact dm_inv.
  - exact dm_pos.
  - exact dm_ready.
  - by left.
  - lia.
  - exact dm_unmapped.
  - eapply wp_mono; [apply H; vm_compute; congruence|]. intros r k' [_ [[-> _]|(-> & _ & Hlow)]].
    + reflexivity.
    + vm_compute in Hlow. congruence.
Defined.

Lemma copyuvm_correct_witness :
  wp (copyuvm dm_end (KERNLINK + PGSIZE) dm_dir 0x3000) (λ _ s',
    ∀ va, 0 ≤ va < KERNBASE → ubyte (k_mem (v_k s')) dm_dir va = ubyte (k_mem dm_k) dm_dir va)
    (Vst dm_k 0 0).
Proof.
  eapply wp_mono.
  - apply (copyuvm_correct dm_end dm_end_ok (KERNLINK + PGSIZE) ltac:(vm_compute; intuition congruence)
      (Vst dm_k 0 0) 0 dm_pool [dm_dir] (λ _, 0) dm_dir 0x3000).
    + exact dm_inv.
    + exact dm_pos.
    + split; [simpl; lia|intros; lia].
    + exact dm_ready.
    + by left.
    + vm_compute. intuition congruence.
    + exact dm_mapped.
  - intros d s' [H _] va Hva. apply H; [by left|exact Hva].
Defined.

Lemma CoW_handler_resolves_witness :
  wp (CoW_handler dm_dir 0x1004) (λ r s', r = CowDone ∧
    resolved [dm_dir] dm_dir 0x1004 dm_k (v_k s')) (Vst dm_k 0 0).
Proof.
  eapply wp_mono.
  - apply (CoW_handler_resolves dm_end dm_end_ok (Vst dm_k 0 0) 0 dm_pool [dm_dir] (λ _, 0) dm_dir 0x1004).
    + exact dm_inv.
    + exact dm_pos.
    + exact dm_ready.
    + by left.
    + vm_compute. intuition congruence.
    + vm_compute. reflexivity.
    + intros _ H. discriminate H.
  - intros r s' (H1 & _ & H2 & _). split; [exact H1|exact H2].
Defined.

Lemma CoW_handler_device_fault_witness :
  CoW_handler dm_dir DEVSPACE (Vst dm_dev 0 0) = Fault "refc_cnt index".
Proof.
  apply (CoW_handler_device_fault dm_end dm_end_ok (Vst dm_dev 0 0) 0 dm_pool [dm_dir]
    (hold dm_shared (hold dm_shared (hold dm_own (λ _, 0)))) dm_dir (KERNLINK + PGSIZE) DEVSPACE).
  - exact dm_inv_dev.
  - intros _. split; [|done]. split; [done|]. eexists. by split_and!.
  - by left.
  - split_and!; vm_compute; intuition congruence.
  - vm_compute. intuition congruence.
Defined.
