(* ===== verification/Proc.v ===== *)
(** proc.c and proc.h: the process table, allocation of a slot, sleep and
    wakeup, kill, and the hand-over between a process and the scheduler.
    A context switch ([swtch]) ends one definition and begins another:
    [sleep] is [sleep_enter], the switch, and later [sleep_exit].
    fork, exit, wait and growproc need the file layer and are modelled on
    the state of the whole kernel. *)

From S2P Require Import Prelude Memory Kstring Spinlock Mmu Kalloc Vm.

(** ** Data *)

Inductive procstate := UNUSED | EMBRYO | SLEEPING | RUNNABLE | RUNNING | ZOMBIE.

#[global] Instance procstate_eq_dec : EqDecision procstate.
Proof. solve_decision. Defined.

(** x86.h [struct trapframe], without the padding. *)
Record trapframe := Tf {
  tf_edi : Z; tf_esi : Z; tf_ebp : Z; tf_oesp : Z; tf_ebx : Z; tf_edx : Z; tf_ecx : Z; tf_eax : Z;
  tf_gs : Z; tf_fs : Z; tf_es : Z; tf_ds : Z; tf_trapno : Z; tf_err : Z;
  tf_eip : Z; tf_cs : Z; tf_eflags : Z; tf_esp : Z; tf_ss : Z;
}.

Definition tf_zero : trapframe := Tf 0 0 0 0 0 0 0 0 0 0 0 0 0 0 0 0 0 0 0.

(** proc.h [struct context]; [eip] is where the thread resumes. *)
Inductive resume := AtForkret | AtSched.
Record context := Ctx { c_edi : Z; c_esi : Z; c_ebx : Z; c_ebp : Z; c_eip : resume }.

(** [struct proc].  The trap frame and the saved context lie in the kernel
    stack page and are kept here as values; files and inodes are indices of
    [ftable] and [icache]; a parent is an index of [ptable.proc]. *)
Record proc := Proc {
  p_sz : Z;
  p_pgdir : Z;
  p_kstack : Z;
  p_state : procstate;
  p_pid : Z;
  p_parent : option nat;
  p_tf : trapframe;
  p_context : context;
  p_chan : option chan;
  p_killed : bool;
  p_ofile : list (option nat);
  p_cwd : option nat;
  p_name : list Z;
}.

(** Field updates. *)
Definition set_state (x : procstate) (p : proc) : proc :=
  Proc (p_sz p) (p_pgdir p) (p_kstack p) x (p_pid p) (p_parent p) (p_tf p) (p_context p)
    (p_chan p) (p_killed p) (p_ofile p) (p_cwd p) (p_name p).
Definition set_chan (x : option chan) (p : proc) : proc :=
  Proc (p_sz p) (p_pgdir p) (p_kstack p) (p_state p) (p_pid p) (p_parent p) (p_tf p) (p_context p)
    x (p_killed p) (p_ofile p) (p_cwd p) (p_name p).
Definition set_killed (x : bool) (p : proc) : proc :=
  Proc (p_sz p) (p_pgdir p) (p_kstack p) (p_state p) (p_pid p) (p_parent p) (p_tf p) (p_context p)
    (p_chan p) x (p_ofile p) (p_cwd p) (p_name p).
Definition set_pid (x : Z) (p : proc) : proc :=
  Proc (p_sz p) (p_pgdir p) (p_kstack p) (p_state p) x (p_parent p) (p_tf p) (p_context p)
    (p_chan p) (p_killed p) (p_ofile p) (p_cwd p) (p_name p).
Definition set_kstack (x : Z) (p : proc) : proc :=
  Proc (p_sz p) (p_pgdir p) x (p_state p) (p_pid p) (p_parent p) (p_tf p) (p_context p)
    (p_chan p) (p_killed p) (p_ofile p) (p_cwd p) (p_name p).
Definition set_context (x : context) (p : proc) : proc :=
  Proc (p_sz p) (p_pgdir p) (p_kstack p) (p_state p) (p_pid p) (p_parent p) (p_tf p) x
    (p_chan p) (p_killed p) (p_ofile p) (p_cwd p) (p_name p).
Definition set_parent (x : option nat) (p : proc) : proc :=
  Proc (p_sz p) (p_pgdir p) (p_kstack p) (p_state p) (p_pid p) x (p_tf p) (p_context p)
    (p_chan p) (p_killed p) (p_ofile p) (p_cwd p) (p_name p).
Definition set_sz (x : Z) (p : proc) : proc :=
  Proc x (p_pgdir p) (p_kstack p) (p_state p) (p_pid p) (p_parent p) (p_tf p) (p_context p)
    (p_chan p) (p_killed p) (p_ofile p) (p_cwd p) (p_name p).
Definition set_pgdir (x : Z) (p : proc) : proc :=
  Proc (p_sz p) x (p_kstack p) (p_state p) (p_pid p) (p_parent p) (p_tf p) (p_context p)
    (p_chan p) (p_killed p) (p_ofile p) (p_cwd p) (p_name p).
Definition set_tf (x : trapframe) (p : proc) : proc :=
  Proc (p_sz p) (p_pgdir p) (p_kstack p) (p_state p) (p_pid p) (p_parent p) x (p_context p)
    (p_chan p) (p_killed p) (p_ofile p) (p_cwd p) (p_name p).
Definition set_ofile (x : list (option nat)) (p : proc) : proc :=
  Proc (p_sz p) (p_pgdir p) (p_kstack p) (p_state p) (p_pid p) (p_parent p) (p_tf p) (p_context p)
    (p_chan p) (p_killed p) x (p_cwd p) (p_name p).
Definition set_cwd (x : option nat) (p : proc) : proc :=
  Proc (p_sz p) (p_pgdir p) (p_kstack p) (p_state p) (p_pid p) (p_parent p) (p_tf p) (p_context p)
    (p_chan p) (p_killed p) (p_ofile p) x (p_name p).
Definition set_name (x : list Z) (p : proc) : proc :=
  Proc (p_sz p) (p_pgdir p) (p_kstack p) (p_state p) (p_pid p) (p_parent p) (p_tf p) (p_context p)
    (p_chan p) (p_killed p) (p_ofile p) (p_cwd p) x.

(** [ptable.proc], [initproc] and [nextpid] on top of the memory system. *)
Record pst := Pst {
  p_v : vst;
  procs : list proc;
  initproc : option nat;
  nextpid : Z;
}.

Definition set_v (v : vst) (s : pst) : pst := Pst v (procs s) (initproc s) (nextpid s).
Definition set_procs (l : list proc) (s : pst) : pst := Pst (p_v s) l (initproc s) (nextpid s).
Definition set_nextpid (n : Z) (s : pst) : pst := Pst (p_v s) (procs s) (initproc s) n.

Definition in_v {A} (m : M vst A) : M pst A := zoom p_v set_v m.
Definition on_mach {A} (m : M mach A) : M pst A := in_v (in_k (in_mach m)).
Definition p_mach (s : pst) : mach := k_mach (v_k (p_v s)).
Definition mod_proc (i : nat) (f : proc → proc) : M pst () :=
  modify (λ s, set_procs (alter f i (procs s)) s).

(** ** proc.c *)

Definition pinit : M pst () := on_mach (initlock LkPtable).

Definition cpuid : M mach nat := mycpu.

Definition myproc : M pst (option nat) :=
  on_mach (
    pushcli;;
    p ← mycpu_get cproc;
    popcli;;
    mret p).

(** The scan of [allocproc] and of [scheduler]. *)
Fixpoint find_state (st : procstate) (ps : list proc) (i : nat) : option nat :=
  match ps with
  | [] => None
  | p :: ps' => if decide (p_state p = st) then Some i else find_state st ps' (S i)
  end.

Definition allocproc : M pst (option nat) :=
  on_mach (acquire LkPtable);;
  ps ← gets procs;
  match find_state UNUSED ps 0 with
  | None => on_mach (release LkPtable);; mret None
  | Some i =>
      mod_proc i (set_state EMBRYO);;
      pid ← gets nextpid;
      mod_proc i (set_pid pid);;
      modify (set_nextpid (i32 (pid + 1)));;
      on_mach (release LkPtable);;
      kstack ← in_v (in_k kalloc);
      mod_proc i (set_kstack kstack);;
      if kstack =? 0 then mod_proc i (set_state UNUSED);; mret None else
      mod_proc i (set_context (Ctx 0 0 0 0 AtForkret));;
      mret (Some i)
  end.

(** *** The scheduler's side *)

(** [switchuvm]: the checks and the page table; the task state and the
    segment registers are not modelled. *)
Definition switchuvm (p : proc) : M pst () :=
  if p_kstack p =? 0 then panic "switchuvm: no kstack" else
  if p_pgdir p =? 0 then panic "switchuvm: no pgdir" else
  on_mach pushcli;;
  in_v (lcr3 (V2P (p_pgdir p)));;
  on_mach popcli.

(** The body of the loop of [scheduler] for the RUNNABLE process [i], from
    the assignment of [c->proc] to the switch. *)
Definition scheduler_run (i : nat) : M pst () :=
  p ← gets (λ s, procs s !! i);
  match p with
  | None => fault "ptable index"
  | Some p =>
      on_mach (mycpu_set (set_cproc (Some i)));;
      switchuvm p;;
      mod_proc i (set_state RUNNING)
  end.

(** After the process has switched back. *)
Definition scheduler_back : M pst () :=
  in_v switchkvm;;
  on_mach (mycpu_set (set_cproc None)).

(** The loop over the table from slot [k] on: it switches to the next
    RUNNABLE process, or ends the round and releases the lock. *)
Definition scheduler_scan (k : nat) : M pst (option nat) :=
  ps ← gets procs;
  match find_state RUNNABLE (drop k ps) k with
  | Some i => scheduler_run i;; mret (Some i)
  | None => on_mach (release LkPtable);; mret None
  end.

(** The start of a round. *)
Definition scheduler_round : M pst (option nat) :=
  on_mach sti;;
  on_mach (acquire LkPtable);;
  scheduler_scan 0.

(** *** The process's side *)

(** [swtch] saves the context; the thread resumes in [sched]. *)
Definition park (p : proc) : proc :=
  let c := p_context p in set_context (Ctx (c_edi c) (c_esi c) (c_ebx c) (c_ebp c) AtSched) p.

(** [sched] up to the switch: returns the saved [intena]. *)
Definition sched_enter : M pst bool :=
  p ← myproc;
  h ← on_mach (holding LkPtable);
  if negb h then panic "sched ptable.lock" else
  n ← on_mach (mycpu_get ncli);
  if negb (n =? 1) then panic "sched locks" else
  match p with
  | None => fault "sched: no process"
  | Some i =>
  st ← gets (λ s, p_state <$> procs s !! i);
  if decide (st = Some RUNNING) then panic "sched running" else
  b ← on_mach readeflags_if;
  if (b : bool) then panic "sched interruptible" else
  intena ← on_mach (mycpu_get intena);
  mod_proc i park;;
  mret intena
  end.

(** [sched] after the switch back. *)
Definition sched_exit (intena : bool) : M pst () := on_mach (mycpu_set (set_intena intena)).

Definition yield_enter : M pst bool :=
  on_mach (acquire LkPtable);;
  p ← myproc;
  match p with
  | None => fault "yield: no process"
  | Some i => mod_proc i (set_state RUNNABLE);; sched_enter
  end.

Definition yield_exit (intena : bool) : M pst () :=
  sched_exit intena;;
  on_mach (release LkPtable).

(** [forkret]; the first call also runs [iinit] and [initlog]. *)
Definition forkret : M pst () := on_mach (release LkPtable).

(** [sleep] up to the switch.  [lk] is never null in the kernel. *)
Definition sleep_enter (c : chan) (lk : lockid) : M pst bool :=
  p ← myproc;
  match p with
  | None => panic "sleep"
  | Some i =>
      (if decide (lk = LkPtable) then mret tt
       else on_mach (acquire LkPtable);; on_mach (release lk));;
      mod_proc i (set_chan (Some c));;
      mod_proc i (set_state SLEEPING);;
      sched_enter
  end.

Definition sleep_exit (i : nat) (lk : lockid) (intena : bool) : M pst () :=
  sched_exit intena;;
  mod_proc i (set_chan None);;
  if decide (lk = LkPtable) then mret tt
  else on_mach (release LkPtable);; on_mach (acquire lk).

(** The body of the loop of [wakeup1]. *)
Definition wake (c : chan) (p : proc) : proc :=
  if decide (p_state p = SLEEPING ∧ p_chan p = Some c) then set_state RUNNABLE p else p.

Definition wakeup1 (c : chan) : M pst () := modify (λ s, set_procs (wake c <$> procs s) s).

Definition wakeup (c : chan) : M pst () :=
  on_mach (acquire LkPtable);;
  wakeup1 c;;
  on_mach (release LkPtable).

(** The scan of [kill]. *)
Fixpoint find_pid (pid : Z) (ps : list proc) (i : nat) : option nat :=
  match ps with
  | [] => None
  | p :: ps' => if p_pid p =? pid then Some i else find_pid pid ps' (S i)
  end.

Definition kill (pid : Z) : M pst Z :=
  on_mach (acquire LkPtable);;
  ps ← gets procs;
  match find_pid pid ps 0 with
  | Some i =>
      mod_proc i (set_killed true);;
      mod_proc i (λ p, if decide (p_state p = SLEEPING) then set_state RUNNABLE p else p);;
      on_mach (release LkPtable);;
      mret 0
  | None => on_mach (release LkPtable);; mret (-1)
  end.
