(* ===== verification/ProcSpec.v ===== *)
(** The process table: what the operations of [Proc] compute, the
    well-formedness of the table, and the hand-over of the CPU. *)

From S2P Require Import Prelude Memory Kstring Spinlock Mmu Kalloc Vm VmInv Proc VmDemo.

(** ** Running machine code in the process state *)

Definition with_mach (mc : mach) (s : pst) : pst :=
  set_v (set_k (set_mach mc (v_k (p_v s))) (p_v s)) s.

Lemma p_mach_with mc s : p_mach (with_mach mc s) = mc.
Proof. done. Qed.

Lemma with_mach_with mc mc' s : with_mach mc (with_mach mc' s) = with_mach mc s.
Proof. done. Qed.

Lemma with_mach_id s : with_mach (p_mach s) s = s.
Proof. by destruct s as [[[]]]. Qed.

Lemma p_mach_procs ps s : p_mach (set_procs ps s) = p_mach s.
Proof. done. Qed.

Lemma procs_with mc s : procs (with_mach mc s) = procs s.
Proof. done. Qed.

(** Normal form of process states: the machine outside, the table inside. *)
Ltac pst_simpl := rewrite ?with_mach_with, ?p_mach_with, ?p_mach_procs, ?procs_with.

Lemma on_mach_wp {A} (m : M mach A) Q s :
  wp m (λ a mc, Q a (with_mach mc s)) (p_mach s) → wp (on_mach m) Q s.
Proof.
  intros H. unfold on_mach, in_v, in_k, in_mach. by do 3 apply wp_zoom.
Qed.

(** CPU [i] can take the lock [lk]. *)
Definition can_lock (s : pst) (i : nat) (lk : lockid) : Prop :=
  cpu_ok (p_mach s) i ∧ lock_free (p_mach s) lk.

Lemma on_acquire s i lk Q :
  can_lock s i lk →
  (∀ mc, mc ≡ acquired i lk (p_mach s) → Q tt (with_mach mc s)) →
  wp (on_mach (acquire lk)) Q s.
Proof.
  intros [Hok Hf] HQ. apply on_mach_wp. eapply wp_mono; [by eapply acquire_wp|]. intros []. apply HQ.
Qed.

Lemma on_release s mc0 i lk Q :
  cpu_ok mc0 i → lock_free mc0 lk → p_mach s ≡ acquired i lk mc0 →
  (∀ mc, mc ≡ mc0 → Q tt (with_mach mc s)) →
  wp (on_mach (release lk)) Q s.
Proof.
  intros Hok Hf He HQ. apply on_mach_wp. eapply wp_mono; [by eapply release_wp|]. intros []. apply HQ.
Qed.

(** The process that runs on CPU [i]. *)
Definition current (mc : mach) (i : nat) : option nat := cpus mc !! i ≫= cproc.

#[global] Instance current_proper : Proper ((≡) ==> (=) ==> (=)) current.
Proof.
  intros mc mc' (_ & _ & _ & Hc) i ? <-. unfold current.
  rewrite Forall2_lookup in Hc. specialize (Hc i).
  destruct (cpus mc !! i), (cpus mc' !! i); inversion Hc as [? ? E|]; subst; [|done].
  apply E.
Qed.

Lemma current_pushed mc i : current (pushed i mc) i = current mc i.
Proof.
  unfold current, pushed. simpl. rewrite list_lookup_alter_eq. by destruct (cpus mc !! i).
Qed.

Lemma myproc_wp s i Q :
  cpu_ok (p_mach s) i →
  (∀ mc, mc ≡ p_mach s → Q (current (p_mach s) i) (with_mach mc s)) →
  wp myproc Q s.
Proof.
  intros Hok HQ. unfold myproc. apply on_mach_wp. wp_auto.
  eapply wp_run; [by apply pushcli_run|].
  destruct (cpu_ok_pushed _ _ Hok) as (Hm & c & Hc & Hn & Hif).
  apply wp_bind. eapply wp_run; [by eapply mycpu_get_run|]. apply wp_bind.
  eapply wp_mono; [by apply (popcli_pushed (p_mach s) _ i)|]. intros [] mc He. wp_auto.
  replace (cproc c) with (current (p_mach s) i); [by apply HQ|].
  rewrite <- current_pushed. unfold current. by rewrite Hc.
Qed.

(** ** wakeup *)

Lemma wakeup_wp s i c Q :
  can_lock s i LkPtable →
  (∀ mc, mc ≡ p_mach s → Q tt (with_mach mc (set_procs (wake c <$> procs s) s))) →
  wp (wakeup c) Q s.
Proof.
  intros [Hok Hf] HQ. unfold wakeup. wp_auto. eapply on_acquire; [done|]. intros mc Hmc.
  unfold wakeup1. wp_auto. eapply (on_release _ (p_mach s) i); [done|done|exact Hmc|].
  intros mc' Hmc'. by apply HQ.
Qed.

(** ** kill *)

Lemma find_pid_Some pid ps i k :
  find_pid pid ps k = Some i →
  (k ≤ i)%nat ∧ ∃ p, ps !! (i - k)%nat = Some p ∧ p_pid p = pid ∧
  ∀ j q, (j < i - k)%nat → ps !! j = Some q → p_pid q ≠ pid.
Proof.
  revert k. induction ps as [|p ps IH]; intros k; simpl; [done|].
  destruct (Z.eqb_spec (p_pid p) pid) as [E|E].
  - intros [= ->]. rewrite Nat.sub_diag. split; [done|]. exists p. split_and!; [done|done|]. lia.
  - intros H. destruct (IH _ H) as (Hle & q & Hq & Ep & Hlt). split; [lia|].
    exists q. replace (i - k)%nat with (S (i - S k)) by lia. split_and!; [done|done|].
    intros [|j] q' Hj Hq'; simpl in Hq'; [by injection Hq' as <-|]. apply (Hlt j); [lia|done].
Qed.

Lemma find_pid_None pid ps k : find_pid pid ps k = None → ∀ p, p ∈ ps → p_pid p ≠ pid.
Proof.
  revert k. induction ps as [|p ps IH]; intros k; simpl.
  - intros _ p Hp. by apply elem_of_nil in Hp.
  - destruct (Z.eqb_spec (p_pid p) pid); [done|]. intros H q [->|Hq]%elem_of_cons; [done|]. by eapply IH.
Qed.

(** What [kill] does to the process it finds. *)
Definition killed_proc (p : proc) : proc :=
  let p := set_killed true p in
  if decide (p_state p = SLEEPING) then set_state RUNNABLE p else p.

Lemma kill_wp s i pid Q :
  can_lock s i LkPtable →
  (∀ mc, mc ≡ p_mach s → find_pid pid (procs s) 0 = None → Q (-1) (with_mach mc s)) →
  (∀ mc j, mc ≡ p_mach s → find_pid pid (procs s) 0 = Some j →
     Q 0 (with_mach mc (set_procs (alter killed_proc j (procs s)) s))) →
  wp (kill pid) Q s.
Proof.
  intros [Hok Hf] Q0 Q1. unfold kill. wp_auto. eapply on_acquire; [done|]. intros mc Hmc.
  wp_auto. change (procs (with_mach mc s)) with (procs s).
  destruct (find_pid pid (procs s) 0) as [j|] eqn:Ej; unfold mod_proc; wp_auto.
  - eapply (on_release _ (p_mach s) i); [done|done|exact Hmc|]. intros mc' Hmc'. wp_auto.
    cbn [procs set_procs]. rewrite list_alter_alter_eq. by apply Q1.
  - eapply (on_release _ (p_mach s) i); [done|done|exact Hmc|]. intros mc' Hmc'. wp_auto. by apply Q0.
Qed.


(** ** allocproc *)

Lemma find_state_Some st ps i k :
  find_state st ps k = Some i →
  (k ≤ i)%nat ∧ (∃ p, ps !! (i - k)%nat = Some p ∧ p_state p = st) ∧
  ∀ j q, (j < i - k)%nat → ps !! j = Some q → p_state q ≠ st.
Proof.
  revert k. induction ps as [|p ps IH]; intros k; simpl; [done|]. case_decide as E.
  - intros [= ->]. rewrite Nat.sub_diag. split_and!; [done|by exists p|]. lia.
  - intros H. destruct (IH _ H) as (Hle & (q & Hq & Ep) & Hlt). split; [lia|].
    replace (i - k)%nat with (S (i - S k)) by lia. split; [by exists q|].
    intros [|j] q' Hj Hq'; simpl in Hq'; [by injection Hq' as <-|]. apply (Hlt j); [lia|done].
Qed.

Lemma find_state_None st ps k : find_state st ps k = None → ∀ p, p ∈ ps → p_state p ≠ st.
Proof.
  revert k. induction ps as [|p ps IH]; intros k; simpl.
  - intros _ p Hp. by apply elem_of_nil in Hp.
  - case_decide as E; [done|]. intros H q [->|Hq]%elem_of_cons; [done|]. by eapply IH.
Qed.

(** The table: pids that are not zero are unique and were handed out, a
    process in use has one, and a slot that is not in use has no kernel
    stack.  A slot keeps its pid when [allocproc] or [fork] fails. *)
Record table_ok (ps : list proc) (next : Z) : Prop := {
  to_pid : ∀ i p, ps !! i = Some p → 0 ≤ p_pid p < next;
  to_used : ∀ i p, ps !! i = Some p → p_state p ≠ UNUSED → p_pid p ≠ 0;
  to_uniq : ∀ i j p q, ps !! i = Some p → ps !! j = Some q → p_pid p ≠ 0 → p_pid p = p_pid q → i = j;
  to_stack : ∀ i p, ps !! i = Some p → p_state p = UNUSED → p_kstack p = 0;
}.

(** One slot changes: its pid stays or becomes zero, and an unused slot has
    no stack. *)
Lemma table_ok_alter ps next i f :
  table_ok ps next →
  (∀ p, ps !! i = Some p →
     (p_pid (f p) = p_pid p ∨ p_pid (f p) = 0) ∧ (p_state (f p) ≠ UNUSED → p_pid (f p) ≠ 0) ∧
     (p_state (f p) = UNUSED → p_kstack (f p) = 0)) →
  table_ok (alter f i ps) next.
Proof.
  intros [H1 H2 H3 H4] Hf. split.
  - intros j p [(-> & q & Hq & ->)|[_ Hj]]%lookup_alter_cases; [|by eapply H1].
    destruct (Hf q Hq) as ([-> | ->] & _); [by eapply H1|]. specialize (H1 _ _ Hq). lia.
  - intros j p [(-> & q & Hq & ->)|[_ Hj]]%lookup_alter_cases; [|by eapply H2]. by apply Hf.
  - intros j j' p p' [(-> & q & Hq & ->)|[_ Hj]]%lookup_alter_cases
      [(E & q' & Hq' & ->)|[_ Hj']]%lookup_alter_cases Hn Ep; try congruence.
    + destruct (Hf q Hq) as ([E|E] & _); [|congruence]. rewrite E in *. by apply (H3 _ _ _ _ Hq Hj').
    + subst. destruct (Hf q' Hq') as ([E|E] & _); [|congruence]. rewrite E in *. by apply (H3 _ _ _ _ Hj Hq').
    + by apply (H3 _ _ _ _ Hj Hj').
  - intros j p [(-> & q & Hq & ->)|[_ Hj]]%lookup_alter_cases; [|by eapply H4]. by apply Hf.
Qed.

(** A slot takes the next pid. *)
Lemma table_ok_new ps next i f :
  table_ok ps next → 0 < next →
  (∀ p, ps !! i = Some p → p_pid (f p) = next ∧ (p_state (f p) = UNUSED → p_kstack (f p) = 0)) →
  table_ok (alter f i ps) (next + 1).
Proof.
  intros [H1 H2 H3 H4] Hn Hf. split.
  - intros j p [(-> & q & Hq & ->)|[_ Hj]]%lookup_alter_cases.
    + destruct (Hf q Hq) as (-> & _). lia.
    + specialize (H1 _ _ Hj). lia.
  - intros j p [(-> & q & Hq & ->)|[_ Hj]]%lookup_alter_cases; [|by eapply H2].
    destruct (Hf q Hq) as (-> & _). lia.
  - intros j j' p p' [(-> & q & Hq & ->)|[_ Hj]]%lookup_alter_cases
      [(E & q' & Hq' & ->)|[_ Hj']]%lookup_alter_cases Hz Ep; try congruence.
    + destruct (Hf q Hq) as (E & _). specialize (H1 _ _ Hj'). lia.
    + destruct (Hf q' Hq') as (E' & _). specialize (H1 _ _ Hj). lia.
    + by apply (H3 _ _ _ _ Hj Hj').
  - intros j p [(-> & q & Hq & ->)|[_ Hj]]%lookup_alter_cases; [|by eapply H4]. by apply Hf.
Qed.

(** What [allocproc] leaves in the slot it takes, with and without memory
    for the kernel stack. *)
Definition embryo (pid kstack : Z) (p : proc) : proc :=
  set_context (Ctx 0 0 0 0 AtForkret) (set_kstack kstack (set_pid pid (set_state EMBRYO p))).
Definition unborn (pid : Z) (p : proc) : proc :=
  set_state UNUSED (set_kstack 0 (set_pid pid (set_state EMBRYO p))).

Lemma vinv_mach kend k k' p ds kref :
  k_mem k' = k_mem k → k_km k' = k_km k → vinv kend k p ds kref → vinv kend k' p ds kref.
Proof. destruct k, k'. simpl. intros -> -> [[] ]. by split. Qed.

Section allocproc.
Context (kend : Z) (Hkend : KERNLINK ≤ kend).

(** The parts of the state that [allocproc] leaves alone. *)
Record aframe (s s' : pst) : Prop := {
  af_k : kframe (v_k (p_v s)) (v_k (p_v s'));
  af_mem : k_mem (v_k (p_v s')) = k_mem (v_k (p_v s));
  af_cr3 : v_cr3 (p_v s') = v_cr3 (p_v s);
  af_kpgdir : v_kpgdir (p_v s') = v_kpgdir (p_v s);
  af_init : initproc s' = initproc s;
}.

Lemma allocproc_wp s i pl ds kref Q :
  vinv kend (v_k (p_v s)) pl ds kref → kpos kref →
  kready (v_k (p_v s)) i → can_lock s i LkPtable →
  (∀ mc, mc ≡ p_mach s → find_state UNUSED (procs s) 0 = None → Q None (with_mach mc s)) →
  (∀ s' j pl', find_state UNUSED (procs s) 0 = Some j → aframe s s' →
     procs s' = alter (unborn (nextpid s)) j (procs s) → nextpid s' = i32 (nextpid s + 1) →
     free pl = [] → vinv kend (v_k (p_v s')) pl' ds kref → Q None s') →
  (∀ s' j pl' v, find_state UNUSED (procs s) 0 = Some j → aframe s s' →
     procs s' = alter (embryo (nextpid s) v) j (procs s) → nextpid s' = i32 (nextpid s + 1) →
     page_ok kend v → kref v = 0 → tabs (k_mem (v_k (p_v s))) ds v = 0 →
     users (k_mem (v_k (p_v s))) ds v = 0 →
     vinv kend (v_k (p_v s')) pl' ds (hold v kref) → Q (Some j) s') →
  wp allocproc Q s.
Proof using Hkend.
  intros I Hpos Hr [Hok Hf] Q0 Q1 Q2. unfold allocproc. apply wp_bind.
  eapply on_acquire; [done|]. intros mc1 H1. wp_auto. pst_simpl.
  destruct (find_state UNUSED (procs s) 0) as [j|] eqn:Ej.
  2:{ apply wp_bind. eapply (on_release _ (p_mach s) i); [done|done|done|]. intros mc2 H2. wp_auto. by apply Q0. }
  unfold mod_proc. wp_auto. eapply (on_release _ (p_mach s) i); [done|done|done|]. intros mc2 H2.
  apply wp_bind, wp_zoom, wp_zoom. cbn [procs set_procs set_nextpid with_mach set_v nextpid p_v v_k set_k].
  eapply (kalloc_vinv kend Hkend _ i pl ds kref); [by eapply vinv_mach, I|done|by eapply kready_equiv, Hr|..].
  - intros k' pl' [Em Eu] Emem Hnil I'. wp_auto. eapply Q1; [done|..]; try done.
    + split; cbn; try done. split; cbn; [|done]. by rewrite Em.
    + cbn. by rewrite !list_alter_alter_eq.
  - intros k' pl' v [Em Eu] Emem Hv Hnf Hk0 Ht Hu Hrf _ I'. wp_auto.
    destruct (Z.eqb_spec v 0) as [->|_]; [by apply (page_ok_pos kend Hkend) in Hv as [_ []]|].
    wp_auto. eapply Q2; [done|..]; try done.
    + split; cbn; try done. split; cbn; [|done]. by rewrite Em.
    + cbn. by rewrite !list_alter_alter_eq.
Qed.

(** [allocproc] takes a free slot.  It returns a slot that was UNUSED,
    now EMBRYO with a pid no other slot has and a kernel stack that is a
    free page of its own, set up to start in [forkret]; or it fails, because
    the table is full or no page is free, and then every slot keeps its
    state and nothing stays allocated.  Either way pids remain unique. *)
Theorem allocproc_correct s i pl ds kref :
  vinv kend (v_k (p_v s)) pl ds kref → kpos kref →
  kready (v_k (p_v s)) i → can_lock s i LkPtable →
  table_ok (procs s) (nextpid s) → 0 < nextpid s < 2 ^ 31 - 1 →
  wp allocproc (λ r s', p_mach s' ≡ p_mach s ∧ k_mem (v_k (p_v s')) = k_mem (v_k (p_v s)) ∧
    table_ok (procs s') (nextpid s') ∧ ∃ pl',
    match r with
    | Some j => ∃ p v, procs s !! j = Some p ∧ p_state p = UNUSED ∧
        procs s' = alter (embryo (nextpid s) v) j (procs s) ∧
        (∀ q, q ∈ procs s → p_pid q ≠ nextpid s) ∧
        page_ok kend v ∧ kref v = 0 ∧ users (k_mem (v_k (p_v s))) ds v = 0 ∧
        tabs (k_mem (v_k (p_v s))) ds v = 0 ∧ vinv kend (v_k (p_v s')) pl' ds (hold v kref)
    | None => ((∀ p, p ∈ procs s → p_state p ≠ UNUSED) ∨ free pl = []) ∧
        p_state <$> procs s' = p_state <$> procs s ∧ vinv kend (v_k (p_v s')) pl' ds kref
    end) s.
Proof using Hkend.
  intros I Hpos Hr Hl Ht Hn. eapply allocproc_wp; [done..| | |].
  - intros mc Hm Ho. split; [done|]. split; [done|]. split; [done|]. exists pl.
    split; [left; by eapply find_state_None|]. split; [done|]. by eapply vinv_mach, I.
  - intros s' j pl' Hj [[Em _] Emem _ _ _] Ep En Hnil I'.
    apply find_state_Some in Hj as (_ & (p & Hp & Es) & _). rewrite Nat.sub_0_r in Hp.
    split; [done|]. split; [done|]. rewrite Ep, En, i32_small by lia. split.
    { apply table_ok_new; [done|lia|]. by intros. }
    exists pl'. split; [by right|]. split; [|done]. apply list_eq. intros k.
    rewrite !list_lookup_fmap, list_lookup_alter. case_decide as E; [|done]. subst. rewrite Hp. simpl. by rewrite Es.
  - intros s' j pl' v Hj [[Em _] Emem _ _ _] Ep En Hv Hk Htb Hu I'.
    apply find_state_Some in Hj as (_ & (p & Hp & Es) & _). rewrite Nat.sub_0_r in Hp.
    split; [done|]. split; [done|]. rewrite Ep, En, i32_small by lia. split.
    { apply table_ok_new; [done|lia|]. by intros. }
    exists pl', p, v. split_and!; try done.
    intros q [k Hq]%list_elem_of_lookup. pose proof (to_pid _ _ Ht _ _ Hq). lia.
Qed.
End allocproc.

(** ** The CPU changes hands

    A thread that calls [sched] holds [ptable.lock] and nothing else; the
    scheduler finds the lock held when it continues, and so does the thread
    when it is resumed, perhaps on another CPU. *)

(** CPU [i] with [x] as its current process. *)
Definition with_cproc (x : option nat) (i : nat) (mc : mach) : mach :=
  set_cpus (alter (set_cproc x) i (cpus mc)) mc.

(** CPU [i] holds no lock: its nesting count is zero. *)
Definition no_locks (mc : mach) (i : nat) : Prop := ncli <$> cpus mc !! i = Some 0.

#[global] Instance no_locks_proper : Proper ((≡) ==> (=) ==> iff) no_locks.
Proof.
  assert (∀ mc mc' i, mc ≡ mc' → no_locks mc i → no_locks mc' i) as H.
  { intros mc mc' i (_ & _ & _ & Hc). unfold no_locks.
    rewrite Forall2_lookup in Hc. specialize (Hc i).
    destruct (cpus mc !! i), (cpus mc' !! i); inversion Hc as [? ? (_ & E & _)|]; subst; [|done].
    simpl. by rewrite E. }
  intros mc mc' Hm i ? <-. split; apply H; by rewrite Hm.
Qed.

Lemma cpu_ok_acquired mc i lk : cpu_ok mc i → cpu_ok (acquired i lk mc) i.
Proof. intros H. apply (cpu_ok_pushed _ _ H). Qed.

Lemma current_acquired mc0 mc i lk : mc ≡ acquired i lk mc0 → current mc i = current mc0 i.
Proof. intros H. rewrite H. apply current_pushed. Qed.

(** A change of one CPU respects [≡] when it respects it on that CPU. *)
Lemma alter_cpu_equiv f g mc mc' i :
  mc ≡ mc' →
  (∀ c c', cpus mc !! i = Some c → cpus mc' !! i = Some c' → cpu_equiv c c' → cpu_equiv (f c) (g c')) →
  set_cpus (alter f i (cpus mc)) mc ≡ set_cpus (alter g i (cpus mc')) mc'.
Proof.
  intros (Ha & Hi & Hl & Hc) H. split_and!; try done.
  cbn [cpus set_cpus]. apply Forall2_same_length_lookup_2.
  { rewrite !length_alter. by apply Forall2_length in Hc. }
  intros j c c' Hj Hj'. rewrite list_lookup_alter in Hj, Hj'. case_decide as E; subst.
  - destruct (cpus mc !! j) as [d|] eqn:Ed, (cpus mc' !! j) as [d'|] eqn:Ed'; simplify_eq/=.
    apply H; [done..|]. rewrite Forall2_lookup in Hc. specialize (Hc j).
    rewrite Ed, Ed' in Hc. by inversion Hc.
  - rewrite Forall2_lookup in Hc. specialize (Hc j). rewrite Hj, Hj' in Hc. by inversion Hc.
Qed.

#[global] Instance with_cproc_proper x i : Proper ((≡) ==> (≡)) (with_cproc x i).
Proof.
  intros mc mc' Hm. apply alter_cpu_equiv; [done|]. intros c c' _ _ (? & ? & ? & ?). by split_and!.
Qed.

Lemma hw_if_acquired mc mc' i lk : mc ≡ acquired i lk mc' → hw_if mc = false.
Proof. by intros (_ & -> & _). Qed.

Lemma set_cproc_wp x mc0 mc i lk :
  cpu_ok mc0 i → mc ≡ acquired i lk mc0 →
  wp (mycpu_set (set_cproc x)) (λ _ mc', mc' ≡ acquired i lk (with_cproc x i mc0)) mc.
Proof.
  intros Hok Hmc. assert (cpu_ok mc i) as [Hm _] by (rewrite Hmc; by apply cpu_ok_acquired).
  eapply wp_run; [by apply mycpu_set_run; [exact Hm|eapply hw_if_acquired]|].
  rewrite (with_cproc_proper x i mc _ Hmc). unfold with_cproc, acquired, pushed, set_lock, set_locks, set_cpus.
  cbn [cpus locks hw_apicid hw_if set_if]. rewrite !list_alter_alter_eq. reflexivity.
Qed.

(** Restoring [intena] while one lock is held decides the interrupt flag
    after the lock is released. *)
Lemma set_intena_wp b mc0 mc i lk :
  cpu_ok mc0 i → no_locks mc0 i → mc ≡ acquired i lk mc0 →
  wp (mycpu_set (set_intena b)) (λ _ mc', mc' ≡ acquired i lk (set_if b mc0)) mc.
Proof.
  intros Hok Hn Hmc. assert (cpu_ok mc i) as [Hm _] by (rewrite Hmc; by apply cpu_ok_acquired).
  eapply wp_run; [by apply mycpu_set_run; [exact Hm|eapply hw_if_acquired]|].
  etrans; [apply (alter_cpu_equiv _ (set_intena b) _ _ _ Hmc)|].
  { intros c c' _ _ (? & ? & ? & ?). by split_and!. }
  unfold acquired, pushed, set_lock, set_locks, set_cpus. cbn [cpus locks hw_apicid hw_if set_if].
  rewrite list_alter_alter_eq. split_and!; [done..|]. cbn [cpus].
  erewrite list_alter_ext; [reflexivity| |done]. intros c Hc. unfold no_locks in Hn.
  rewrite Hc in Hn. injection Hn as Hn. unfold push_cpu. simpl. by rewrite Hn.
Qed.

Lemma cpu_ok_with_cproc x i mc j : cpu_ok mc j → cpu_ok (with_cproc x i mc) j.
Proof.
  intros (Hm & c & Hc & Hn & Hi). split; [by cbn; rewrite mycpu_loop_alter|].
  cbn. rewrite list_lookup_alter. case_decide; subst; rewrite Hc; simpl; eauto.
Qed.

Lemma cpu_ok_set_if b mc i : cpu_ok mc i → no_locks mc i → cpu_ok (set_if b mc) i.
Proof.
  intros (Hm & c & Hc & Hn & Hi) H. split; [done|]. exists c.
  unfold no_locks in H. rewrite Hc in H. injection H as H. split_and!; [done|done|]. by rewrite H.
Qed.

Lemma no_locks_with_cproc x i mc j : no_locks mc j → no_locks (with_cproc x i mc) j.
Proof.
  unfold no_locks. cbn. rewrite list_lookup_alter. case_decide; subst; [|done].
  by destruct (cpus mc !! j).
Qed.

Lemma lock_of_acquired mc0 mc i lk : mc ≡ acquired i lk mc0 → lock_of mc lk = Lock true (Some i).
Proof.
  intros (_ & _ & -> & _). unfold acquired. rewrite lock_of_set_lock. by case_decide.
Qed.

(** The CPU's entry while it holds one lock. *)
Lemma cpu_acquired mc0 mc i lk :
  cpu_ok mc0 i → no_locks mc0 i → mc ≡ acquired i lk mc0 →
  ∃ c, cpus mc !! i = Some c ∧ ncli c = 1 ∧ intena c = hw_if mc0.
Proof.
  intros (_ & c0 & Hc0 & _) Hn (_ & _ & _ & Hc). rewrite Forall2_lookup in Hc. specialize (Hc i).
  unfold no_locks in Hn. rewrite Hc0 in Hn. injection Hn as Hn. cbn in Hc.
  rewrite list_lookup_alter_eq, Hc0 in Hc. simpl in Hc.
  inversion Hc as [c ? (_ & E & _ & Ei) Ec|]; subst. exists c. unfold push_cpu in *. simpl in *.
  rewrite Hn in *. split_and!; [done|lia|]. apply Ei. lia.
Qed.

Lemma sched_enter_wp s mc0 i j p Q :
  cpu_ok mc0 i → no_locks mc0 i → current mc0 i = Some j →
  p_mach s ≡ acquired i LkPtable mc0 → procs s !! j = Some p → p_state p ≠ RUNNING →
  (∀ mc, mc ≡ acquired i LkPtable mc0 →
     Q (hw_if mc0) (with_mach mc (set_procs (alter park j (procs s)) s))) →
  wp sched_enter Q s.
Proof.
  intros Hok Hn Hcur Hm Hj Hst HQ. unfold sched_enter. wp_auto.
  assert (cpu_ok (p_mach s) i) as Hok1 by (rewrite Hm; by apply cpu_ok_acquired).
  apply (myproc_wp _ i); [done|]. intros mc1 H1. rewrite Hm in H1.
  apply wp_bind, on_mach_wp. pst_simpl.
  eapply wp_mono; [apply (holding_wp _ i); rewrite H1; by apply cpu_ok_acquired|].
  intros b mc2 [H2 ->]. rewrite H1 in H2. rewrite (lock_of_acquired _ _ _ _ H1). cbn [locked lcpu].
  rewrite bool_decide_true by done. simpl. apply wp_bind, on_mach_wp. pst_simpl.
  destruct (cpu_acquired _ _ _ _ Hok Hn H2) as (c & Hc & Ec & Ei).
  assert (cpu_ok mc2 i) as [Hm2 _] by (rewrite H2; by apply cpu_ok_acquired).
  pose proof (hw_if_acquired _ _ _ _ H2) as Hif.
  eapply wp_run; [by apply (mycpu_get_run _ _ i c)|]. rewrite Ec. simpl.
  rewrite (current_acquired _ _ _ _ Hm), Hcur. wp_auto. pst_simpl. rewrite Hj. simpl.
  rewrite decide_False by congruence. wp_auto. apply on_mach_wp. unfold readeflags_if. wp_auto.
  pst_simpl. rewrite Hif. wp_auto. apply on_mach_wp. pst_simpl.
  eapply wp_run; [by apply (mycpu_get_run _ _ i c)|]. unfold mod_proc. wp_auto. rewrite Ei. by apply HQ.
Qed.

(** The state in which the page table of [p] is loaded. *)
Definition in_uvm (pgdir : Z) (s : pst) : pst :=
  set_v (Vst (v_k (p_v s)) (V2P pgdir) (v_kpgdir (p_v s))) s.

Lemma switchuvm_wp s i p Q :
  cpu_ok (p_mach s) i → p_kstack p ≠ 0 → p_pgdir p ≠ 0 →
  (∀ mc, mc ≡ p_mach s → Q tt (with_mach mc (in_uvm (p_pgdir p) s))) →
  wp (switchuvm p) Q s.
Proof.
  intros Hok Hk Hp HQ. unfold switchuvm. rewrite (proj2 (Z.eqb_neq _ _) Hk), (proj2 (Z.eqb_neq _ _) Hp).
  apply wp_bind, on_mach_wp. eapply wp_run; [by apply pushcli_run|].
  apply wp_bind, wp_zoom. unfold lcr3. wp_auto. apply on_mach_wp.
  eapply wp_mono; [by apply (popcli_pushed (p_mach s) _ i)|]. intros [] mc Hmc. by apply HQ.
Qed.

Lemma scheduler_run_wp s mc0 i j p Q :
  cpu_ok mc0 i → p_mach s ≡ acquired i LkPtable mc0 → procs s !! j = Some p →
  p_kstack p ≠ 0 → p_pgdir p ≠ 0 →
  (∀ mc, mc ≡ acquired i LkPtable (with_cproc (Some j) i mc0) →
     Q tt (with_mach mc (in_uvm (p_pgdir p) (set_procs (alter (set_state RUNNING) j (procs s)) s)))) →
  wp (scheduler_run j) Q s.
Proof.
  intros Hok Hm Hj Hk Hp HQ. unfold scheduler_run. wp_auto. rewrite Hj.
  apply wp_bind, on_mach_wp. eapply wp_mono; [by apply (set_cproc_wp _ mc0 _ i)|].
  intros [] mc1 H1. wp_auto. apply (switchuvm_wp _ i); [|done|done|].
  { pst_simpl. rewrite H1. by apply cpu_ok_acquired, cpu_ok_with_cproc. }
  intros mc2 H2. unfold mod_proc. wp_auto. apply HQ. by rewrite H2.
Qed.

Lemma scheduler_back_wp s mc0 i Q :
  cpu_ok mc0 i → p_mach s ≡ acquired i LkPtable mc0 →
  (∀ mc, mc ≡ acquired i LkPtable (with_cproc None i mc0) →
     Q tt (with_mach mc (in_uvm (v_kpgdir (p_v s)) s))) →
  wp scheduler_back Q s.
Proof.
  intros Hok Hm HQ. unfold scheduler_back. apply wp_bind, wp_zoom. unfold switchkvm, lcr3. wp_auto.
  apply on_mach_wp. eapply wp_mono; [by apply (set_cproc_wp _ mc0 _ i)|].
  intros [] mc H. by apply (HQ mc).
Qed.

(** The machine of a thread that CPU [i] has resumed as process [j] with its
    own interrupt flag [b]. *)
Definition resumed (j i : nat) (b : bool) (mc : mach) : mach := set_if b (with_cproc (Some j) i mc).

Lemma cpu_ok_resumed j i b mc : cpu_ok mc i → no_locks mc i → cpu_ok (resumed j i b mc) i.
Proof. intros. apply cpu_ok_set_if; [by apply cpu_ok_with_cproc|by apply no_locks_with_cproc]. Qed.

(** [sched] after the switch. *)
Lemma sched_exit_wp s mc0 i j b Q :
  cpu_ok mc0 i → no_locks mc0 i → p_mach s ≡ acquired i LkPtable (with_cproc (Some j) i mc0) →
  (∀ mc, mc ≡ acquired i LkPtable (resumed j i b mc0) → Q tt (with_mach mc s)) →
  wp (sched_exit b) Q s.
Proof.
  intros Hok Hn Hm HQ. unfold sched_exit. apply on_mach_wp.
  eapply wp_mono; [apply (set_intena_wp b (with_cproc (Some j) i mc0) _ i LkPtable);
    [by apply cpu_ok_with_cproc|by apply no_locks_with_cproc|done]|].
  intros [] mc H. by apply HQ.
Qed.

Lemma yield_enter_wp s i j p Q :
  can_lock s i LkPtable → no_locks (p_mach s) i → current (p_mach s) i = Some j →
  procs s !! j = Some p →
  (∀ mc, mc ≡ acquired i LkPtable (p_mach s) →
     Q (hw_if (p_mach s)) (with_mach mc (set_procs (alter (park ∘ set_state RUNNABLE) j (procs s)) s))) →
  wp yield_enter Q s.
Proof.
  intros [Hok Hf] Hn Hcur Hj HQ. unfold yield_enter. apply wp_bind. eapply on_acquire; [done|].
  intros mc1 H1. apply wp_bind. apply (myproc_wp _ i).
  { pst_simpl. rewrite H1. by apply cpu_ok_acquired. }
  pst_simpl. intros mc2 H2. rewrite H1 in H2. rewrite (current_acquired _ _ _ _ H1), Hcur.
  unfold mod_proc. wp_auto. eapply (sched_enter_wp _ (p_mach s) i j); [done|done|done|exact H2|..].
  - cbn. by rewrite list_lookup_alter_eq, Hj.
  - done.
  - intros mc3 H3. cbn [procs set_procs with_mach set_v]. rewrite list_alter_alter_eq. by apply HQ.
Qed.

Lemma yield_exit_wp s mc0 i j b Q :
  cpu_ok mc0 i → no_locks mc0 i → lock_free mc0 LkPtable →
  p_mach s ≡ acquired i LkPtable (with_cproc (Some j) i mc0) →
  (∀ mc, mc ≡ resumed j i b mc0 → Q tt (with_mach mc s)) →
  wp (yield_exit b) Q s.
Proof.
  intros Hok Hn Hf Hm HQ. unfold yield_exit. apply wp_bind. eapply sched_exit_wp; [done..|].
  intros mc1 H1. eapply (on_release _ (resumed j i b mc0) i); [by apply cpu_ok_resumed|done|done|].
  intros mc2 H2. by apply HQ.
Qed.

(** [yield] gives up the CPU and gets it back.  A process that calls
    [yield] holding no lock passes all checks of [sched] and reaches the
    switch with [ptable.lock] held and itself RUNNABLE; the scheduler of its
    CPU then continues with the kernel's page table and no current process.
    When the scheduler of any CPU [i2] later picks the process, it returns
    from [yield] on that CPU as RUNNING, with its own page table loaded, no
    lock held, and the interrupt flag it had, whatever that CPU's was. *)
Theorem yield_handoff s i j p :
  can_lock s i LkPtable → no_locks (p_mach s) i → current (p_mach s) i = Some j →
  procs s !! j = Some p →
  wp yield_enter (λ b s1,
    procs s1 = alter (park ∘ set_state RUNNABLE) j (procs s) ∧
    wp scheduler_back (λ _ s2,
      p_mach s2 ≡ acquired i LkPtable (with_cproc None i (p_mach s)) ∧
      procs s2 = procs s1 ∧ v_cr3 (p_v s2) = V2P (v_kpgdir (p_v s))) s1 ∧
    ∀ s2 i2 mc2 p2, cpu_ok mc2 i2 → no_locks mc2 i2 → lock_free mc2 LkPtable →
      p_mach s2 ≡ acquired i2 LkPtable mc2 →
      procs s2 !! j = Some p2 → p_kstack p2 ≠ 0 → p_pgdir p2 ≠ 0 →
      wp (scheduler_run j;; yield_exit b) (λ _ s3,
        p_mach s3 ≡ resumed j i2 (hw_if (p_mach s)) mc2 ∧
        procs s3 = alter (set_state RUNNING) j (procs s2) ∧
        v_cr3 (p_v s3) = V2P (p_pgdir p2)) s2) s.
Proof.
  intros Hl Hn Hcur Hj. eapply yield_enter_wp; [done..|]. intros mc1 H1. split; [done|]. split.
  - eapply scheduler_back_wp; [apply Hl|done|]. by intros mc2 H2.
  - intros s2 i2 mc2 p2 Hok2 Hn2 Hf2 Hm2 Hj2 Hk2 Hp2. apply wp_bind.
    eapply scheduler_run_wp; [done..|]. intros mc3 H3.
    eapply yield_exit_wp; [done..|]. by intros mc4 H4.
Qed.

(** *** sleep *)

Lemma acquired_comm i lk lk' mc :
  lk ≠ lk' → acquired i lk (acquired i lk' mc) ≡ acquired i lk' (acquired i lk mc).
Proof.
  intros Hne. unfold acquired, pushed, set_lock, set_locks, set_cpus, set_if.
  cbn [cpus locks hw_apicid hw_if]. rewrite insert_insert_ne by done. reflexivity.
Qed.

#[global] Instance acquired_proper i lk : Proper ((≡) ==> (≡)) (acquired i lk).
Proof. intros mc mc' H. unfold acquired. by rewrite H. Qed.

Lemma lock_free_acquired mc i lk lk' : lk ≠ lk' → lock_free mc lk → lock_free (acquired i lk' mc) lk.
Proof. intros Hne Hf. unfold lock_free, acquired. rewrite lock_of_set_lock. by case_decide. Qed.

(** What [sleep] leaves in the process table. *)
Definition asleep (c : chan) (p : proc) : proc := park (set_state SLEEPING (set_chan (Some c) p)).

(** The exchange of the caller's lock for [ptable.lock]. *)
Lemma sleep_locks_wp s mc0 i lk Q :
  cpu_ok mc0 i → lock_free mc0 LkPtable → lock_free mc0 lk → p_mach s ≡ acquired i lk mc0 →
  (∀ mc, mc ≡ acquired i LkPtable mc0 → Q tt (with_mach mc s)) →
  wp (if decide (lk = LkPtable) then mret tt
      else on_mach (acquire LkPtable);; on_mach (release lk)) Q s.
Proof.
  intros Hok Hf Hl Hm HQ. case_decide as E; [subst; wp_auto; rewrite <- (with_mach_id s); by apply HQ|].
  apply wp_bind. eapply (on_acquire _ i).
  { split; rewrite Hm; [by apply cpu_ok_acquired|by apply lock_free_acquired]. }
  intros mc1 H1. eapply (on_release _ (acquired i LkPtable mc0) i).
  - by apply cpu_ok_acquired.
  - by apply lock_free_acquired.
  - pst_simpl. by rewrite H1, Hm, acquired_comm.
  - intros mc2 H2. by apply HQ.
Qed.

Lemma sleep_enter_wp s mc0 i j p c lk Q :
  cpu_ok mc0 i → no_locks mc0 i → current mc0 i = Some j →
  lock_free mc0 LkPtable → lock_free mc0 lk → p_mach s ≡ acquired i lk mc0 →
  procs s !! j = Some p →
  (∀ mc, mc ≡ acquired i LkPtable mc0 →
     Q (hw_if mc0) (with_mach mc (set_procs (alter (asleep c) j (procs s)) s))) →
  wp (sleep_enter c lk) Q s.
Proof.
  intros Hok Hn Hcur Hf Hl Hm Hj HQ. unfold sleep_enter. apply wp_bind.
  apply (myproc_wp _ i); [rewrite Hm; by apply cpu_ok_acquired|].
  intros mc1 H1. rewrite (current_acquired _ _ _ _ Hm), Hcur. rewrite Hm in H1. apply wp_bind.
  eapply sleep_locks_wp; [done|done|exact Hl|done|]. intros mc2 H2. pst_simpl. unfold mod_proc. wp_auto.
  eapply (sched_enter_wp _ mc0 i j); [done|done|done|exact H2|..].
  - cbn. by rewrite !list_lookup_alter_eq, Hj.
  - done.
  - intros mc3 H3. cbn [procs set_procs with_mach set_v]. rewrite !list_alter_alter_eq. by apply HQ.
Qed.

Lemma sleep_exit_wp s mc0 i j lk b Q :
  cpu_ok mc0 i → no_locks mc0 i → lock_free mc0 LkPtable → lock_free mc0 lk →
  p_mach s ≡ acquired i LkPtable (with_cproc (Some j) i mc0) →
  (∀ mc, mc ≡ acquired i lk (resumed j i b mc0) →
     Q tt (with_mach mc (set_procs (alter (set_chan None) j (procs s)) s))) →
  wp (sleep_exit j lk b) Q s.
Proof.
  intros Hok Hn Hf Hl Hm HQ. unfold sleep_exit. apply wp_bind. eapply sched_exit_wp; [done..|].
  intros mc1 H1. unfold mod_proc. wp_auto. case_decide as E; [subst; wp_auto; by apply HQ|].
  apply wp_bind. eapply (on_release _ (resumed j i b mc0) i); [by apply cpu_ok_resumed|done|done|].
  intros mc2 H2. eapply (on_acquire _ i).
  { split; pst_simpl; rewrite H2; [by apply cpu_ok_resumed|done]. }
  intros mc3 H3. apply HQ. rewrite H3. pst_simpl. by rewrite H2.
Qed.

(** [sleep] gives up a lock and the CPU, and returns with the lock held.
    A process that calls [sleep(c, lk)] holding only [lk] ends up SLEEPING on
    [c] with [lk] free again and only [ptable.lock] held at the switch.  A
    [wakeup] on [c] makes it RUNNABLE, one on another channel leaves it
    asleep.  When the scheduler of any CPU [i2] picks it and [lk] is free,
    [sleep] returns on that CPU with [lk] held, no other lock, no channel,
    and, after [lk] is released, the interrupt flag the caller had. *)
Theorem sleep_handoff s mc0 i j p c lk :
  cpu_ok mc0 i → no_locks mc0 i → current mc0 i = Some j →
  lock_free mc0 LkPtable → lock_free mc0 lk → p_mach s ≡ acquired i lk mc0 →
  procs s !! j = Some p →
  wp (sleep_enter c lk) (λ b s1,
    p_mach s1 ≡ acquired i LkPtable mc0 ∧ procs s1 = alter (asleep c) j (procs s) ∧
    (∀ s2 i2 c', can_lock s2 i2 LkPtable → procs s2 !! j = Some (asleep c p) →
      wp (wakeup c') (λ _ s3, p_mach s3 ≡ p_mach s2 ∧ procs s3 !! j =
        Some (if decide (c' = c) then set_state RUNNABLE (asleep c p) else asleep c p)) s2) ∧
    ∀ s2 i2 mc2 p2, cpu_ok mc2 i2 → no_locks mc2 i2 → lock_free mc2 LkPtable → lock_free mc2 lk →
      p_mach s2 ≡ acquired i2 LkPtable mc2 →
      procs s2 !! j = Some p2 → p_kstack p2 ≠ 0 → p_pgdir p2 ≠ 0 →
      wp (scheduler_run j;; sleep_exit j lk b) (λ _ s3,
        p_mach s3 ≡ acquired i2 lk (resumed j i2 (hw_if mc0) mc2) ∧
        procs s3 = alter (set_chan None ∘ set_state RUNNING) j (procs s2) ∧
        v_cr3 (p_v s3) = V2P (p_pgdir p2)) s2) s.
Proof.
  intros Hok Hn Hcur Hf Hl Hm Hj. eapply sleep_enter_wp; [done..|]. intros mc1 H1.
  split; [done|]. split; [done|]. split.
  - intros s2 i2 c' Hl2 Hj2. eapply wakeup_wp; [done|]. intros mc2 H2. split; [done|].
    cbn. rewrite list_lookup_fmap, Hj2. simpl. f_equal. unfold wake. simpl.
    destruct (decide (c' = c)) as [->|Hne]; [by rewrite decide_True|]. rewrite decide_False; [done|]. naive_solver.
  - intros s2 i2 mc2 p2 Hok2 Hn2 Hf2 Hl2 Hm2 Hj2 Hk2 Hp2. apply wp_bind.
    eapply scheduler_run_wp; [done..|]. intros mc3 H3.
    eapply sleep_exit_wp; [exact Hok2|exact Hn2|exact Hf2|exact Hl2|exact H3|]. intros mc4 H4.
    split; [done|]. split; [|done]. cbn. by rewrite list_alter_alter_eq.
Qed.

(** ** kill, and a pid that is not one *)

Lemma find_pid_found pid ps j p next :
  table_ok ps next → ps !! j = Some p → p_pid p = pid → pid ≠ 0 → find_pid pid ps 0 = Some j.
Proof.
  intros Ht Hj Ep Hz. destruct (find_pid pid ps 0) as [k|] eqn:E.
  - apply find_pid_Some in E as (_ & q & Hq & Eq & _). rewrite Nat.sub_0_r in Hq.
    f_equal. apply (to_uniq _ _ Ht _ _ _ _ Hq Hj); congruence.
  - exfalso. eapply find_pid_None; [exact E|by eapply list_elem_of_lookup_2|done].
Qed.

Lemma killed_proc_table ps next j : table_ok ps next → table_ok (alter killed_proc j ps) next.
Proof.
  intros Ht. apply table_ok_alter; [done|]. intros p Hp.
  assert (p_pid (killed_proc p) = p_pid p ∧ p_kstack (killed_proc p) = p_kstack p ∧
    (p_state (killed_proc p) = UNUSED ↔ p_state p = UNUSED)) as (-> & -> & Hs).
  { unfold killed_proc. case_decide as E; simpl in *; [|done]. rewrite E. split_and!; done. }
  split_and!; [by left| |].
  - rewrite Hs. by apply (to_used _ _ Ht _ _ Hp).
  - rewrite Hs. by apply (to_stack _ _ Ht _ _ Hp).
Qed.

(** [kill(pid)] for a pid that is not zero.  If a slot has the pid,
    exactly that slot changes: it is marked killed and, if it sleeps,
    becomes RUNNABLE so that it can notice, and the call returns 0; if none
    has it nothing changes and the call returns -1. *)
Theorem kill_correct s i pid :
  can_lock s i LkPtable → table_ok (procs s) (nextpid s) → pid ≠ 0 →
  wp (kill pid) (λ r s', p_mach s' ≡ p_mach s ∧ table_ok (procs s') (nextpid s') ∧
    ((r = -1 ∧ procs s' = procs s ∧ ∀ p, p ∈ procs s → p_pid p ≠ pid) ∨
     (r = 0 ∧ ∃ j p, procs s !! j = Some p ∧ p_pid p = pid ∧
        procs s' !! j = Some (killed_proc p) ∧ ∀ k, k ≠ j → procs s' !! k = procs s !! k))) s.
Proof.
  intros Hl Ht Hz. eapply kill_wp; [done|..].
  - intros mc Hm Ho. split; [done|]. split; [done|]. left. split_and!; [done..|]. by eapply find_pid_None.
  - intros mc j Hm Ho. split; [done|]. split; [by apply killed_proc_table|]. right. split; [done|].
    apply find_pid_Some in Ho as (_ & p & Hp & Ep & _). rewrite Nat.sub_0_r in Hp.
    exists j, p. split_and!; [done|done|..].
    + cbn. by rewrite list_lookup_alter_eq, Hp.
    + intros k Hk. cbn. by rewrite list_lookup_alter_ne.
Qed.

Lemma find_state_states st (ps ps' : list proc) k :
  p_state <$> ps' = p_state <$> ps → find_state st ps' k = find_state st ps k.
Proof.
  revert ps k. induction ps' as [|p' ps' IH]; intros [|p ps] k; [done..|].
  intros [= E1 E2]. simpl. rewrite E1. case_decide; [done|]. by apply IH.
Qed.

Lemma killed_proc_states (ps : list proc) (j : nat) p :
  ps !! j = Some p → p_state p ≠ SLEEPING → p_state <$> alter killed_proc j ps = p_state <$> ps.
Proof.
  intros Hp Hs. apply list_eq. intros k. rewrite !list_lookup_fmap, list_lookup_alter.
  case_decide; [|done]. subst. rewrite Hp. simpl. unfold killed_proc. by rewrite decide_False.
Qed.

(** C12. A slot that was never used, or was reaped by [wait], has pid 0, so
    [kill(0)] succeeds on it and marks it killed; [allocproc] does not clear
    the mark, and the process that is next given the slot is born killed. *)
Theorem kill_zero_poisons kend s i pl ds kref j :
  KERNLINK ≤ kend → vinv kend (v_k (p_v s)) pl ds kref → kpos kref →
  kready (v_k (p_v s)) i → can_lock s i LkPtable →
  find_pid 0 (procs s) 0 = Some j → find_state UNUSED (procs s) 0 = Some j →
  wp (r ← kill 0; np ← allocproc; mret (r, np)) (λ x s', x.1 = 0 ∧
    match x.2 with
    | Some j' => j' = j ∧ ∃ p, procs s' !! j = Some p ∧ p_killed p = true ∧ p_state p = EMBRYO
    | None => free pl = []
    end) s.
Proof.
  intros Hkend I Hpos Hr Hl Hp Hs. apply wp_bind. eapply kill_wp; [done|congruence|].
  intros mc j' Hm Hj'. assert (j' = j) as -> by congruence. apply wp_bind.
  destruct (find_state_Some _ _ _ _ Hs) as (_ & (p & Hpj & Es) & _). rewrite Nat.sub_0_r in Hpj.
  set (s1 := with_mach mc _). assert (find_state UNUSED (procs s1) 0 = Some j) as Hs1.
  { rewrite <- Hs. apply find_state_states. eapply killed_proc_states; [done|]. by rewrite Es. }
  eapply (allocproc_wp kend Hkend s1 i pl ds kref); [by eapply vinv_mach, I|done|..].
  - by eapply kready_equiv, Hr.
  - destruct Hl. split; unfold s1; pst_simpl; by rewrite Hm.
  - congruence.
  - intros. by wp_auto.
  - intros s' j2 pl' v Hj2 _ Ep _ _ _ _ _ _. wp_auto. split; [done|]. simpl. split; [congruence|].
    assert (j2 = j) as -> by congruence. rewrite Ep. cbn. rewrite !list_lookup_alter_eq, Hpj. simpl.
    eexists. split; [done|]. unfold embryo, killed_proc. simpl. by case_decide.
Qed.

(** ** A process that runs *)

(** A small process table on the demo machine of [VmDemo], and the witnesses
    of the theorems of [ProcSpec]. *)

(** A running process, a slot that was never used, and a machine whose CPU 0
    runs the process. *)
Definition free_slot : proc :=
  Proc 0 0 0 UNUSED 0 None tf_zero (Ctx 0 0 0 0 AtForkret) None false (replicate 16 None) None [].
Definition demo_proc : proc :=
  Proc 0x3000 dm_dir dm_own RUNNING 1 None tf_zero (Ctx 0 0 0 0 AtForkret) None false
    (replicate 16 None) None [].

Definition run_mach : mach := Mach 0 true [Cpu 0 0 false (Some 0%nat); Cpu 1 0 false None] ∅.
Definition run_pst : pst :=
  Pst (Vst (set_mach run_mach dm_k) (V2P dm_dir) dm_dir) [demo_proc; free_slot] (Some 0%nat) 2.

Lemma run_cpu : cpu_ok run_mach 0.
Proof. split; [done|]. eexists. by split_and!. Qed.

Lemma run_lock lk : can_lock run_pst 0 lk.
Proof. split; [apply run_cpu|done]. Qed.

Lemma run_ready : kready (v_k (p_v run_pst)) 0.
Proof. intros _. split; [apply run_cpu|done]. Qed.

Lemma run_inv : vinv dm_end (v_k (p_v run_pst)) dm_pool [dm_dir] (λ _, 0).
Proof. by eapply vinv_mach, dm_inv. Qed.

Lemma run_table : table_ok (procs run_pst) (nextpid run_pst).
Proof.
  split; cbn.
  - intros [|[|i]] p [=]; subst; simpl; lia.
  - intros [|[|i]] p [=]; subst; simpl; done.
  - intros [|[|i]] [|[|j]] p q [=] [=]; subst; simpl; done.
  - intros [|[|i]] p [=]; subst; simpl; done.
Qed.

(** Yield on CPU 0, resume on CPU 1, whose scheduler had interrupts on. *)
Definition cpu1_mach : mach := Mach 1 true [Cpu 0 0 false None; Cpu 1 0 false None] ∅.

Lemma yield_handoff_witness :
  ∃ b s1, yield_enter run_pst = Ok b s1 ∧
  wp (scheduler_run 0;; yield_exit b) (λ _ s3, p_mach s3 ≡ resumed 0 1 true cpu1_mach)
    (with_mach (acquired 1 LkPtable cpu1_mach) s1).
Proof.
  destruct (proj1 (wp_Ok _ _ _) (yield_handoff run_pst 0 0 demo_proc (run_lock LkPtable) eq_refl eq_refl eq_refl))
    as (b & s1 & Hrun & Hp & _ & Hres).
  exists b, s1. split; [done|].
  eapply wp_mono; [apply (Hres _ 1%nat cpu1_mach (park (set_state RUNNABLE demo_proc)))|].
  - split; [done|]. eexists. by split_and!.
  - done.
  - done.
  - done.
  - pst_simpl. rewrite Hp. done.
  - done.
  - done.
  - intros [] s3 (H & _). exact H.
Defined.

Lemma sleep_handoff_witness :
  let s := with_mach (acquired 0 LkTicks run_mach) run_pst in
  ∃ b s1, sleep_enter ChTicks LkTicks s = Ok b s1 ∧ p_mach s1 ≡ acquired 0 LkPtable run_mach.
Proof.
  intros s. destruct (proj1 (wp_Ok _ _ _) (sleep_handoff s run_mach 0 0 demo_proc ChTicks LkTicks
    run_cpu eq_refl eq_refl eq_refl eq_refl (reflexivity _) eq_refl)) as (b & s1 & Hrun & Hm & _).
  by exists b, s1.
Defined.

Lemma allocproc_correct_witness :
  wp allocproc (λ r s', table_ok (procs s') (nextpid s')) run_pst.
Proof.
  eapply wp_mono; [apply (allocproc_correct dm_end dm_end_ok run_pst 0 dm_pool [dm_dir] (λ _, 0) run_inv dm_pos
    run_ready (run_lock LkPtable) run_table)|].
  - done.
  - intros r s' (_ & _ & H & _). exact H.
Defined.

Lemma kill_correct_witness :
  wp (kill 1) (λ _ s', p_mach s' ≡ run_mach) run_pst.
Proof.
  eapply wp_mono; [apply (kill_correct run_pst 0 1 (run_lock LkPtable) run_table)|].
  - done.
  - intros r s' (H & _). exact H.
Defined.

Lemma kill_zero_poisons_witness :
  wp (r ← kill 0; np ← allocproc; mret (r, np)) (λ x s', x.1 = 0) run_pst.
Proof.
  eapply wp_mono; [apply (kill_zero_poisons dm_end run_pst 0 dm_pool [dm_dir] (λ _, 0) 1 dm_end_ok run_inv
    dm_pos run_ready (run_lock LkPtable) eq_refl eq_refl)|].
  intros x s' (H & _). exact H.
Defined.
