(* ===== verification/SleepWake.v ===== *)
(** sleep and wakeup (proc.c) interleaved: any number of processes wait for a
    condition under a lock while others set it and call [wakeup].  One step
    is one instruction group of the code; [lk] is the lock of the condition
    and [pt] is [ptable.lock].  No wakeup is lost: a process is never left
    SLEEPING while the condition holds and no waker is on its way. *)

From S2P Require Import Prelude Spinlock Proc.

Module SleepWake.

(** A process running
    [acquire(lk); while(!cond) sleep(chan, lk); cond = 0; release(lk);]. *)
Inductive spc :=
| SAcquire      (** before [acquire(lk)] *)
| STest         (** the loop test, [lk] held *)
| SSleep        (** [sleep]: before [acquire(&ptable.lock)], [lk] held *)
| SRelease      (** before [release(lk)], both locks held *)
| SState        (** before [p->chan = chan; p->state = SLEEPING], [pt] held *)
| SSched        (** before [swtch], [pt] held *)
| SOff          (** off the CPU; the scheduler has released [pt] *)
| SBack         (** the scheduler, [pt] held, has switched to the process *)
| SReacquire    (** before [acquire(lk)] at the end of [sleep] *)
| STake         (** the condition holds: consume it, [lk] held *)
| SDone.        (** before [release(lk)] *)

(** A process running [acquire(lk); cond = 1; wakeup(chan); release(lk);]. *)
Inductive wpc :=
| WAcquire      (** before [acquire(lk)] *)
| WSet          (** before [cond = 1], [lk] held *)
| WWakeup       (** [wakeup]: before [acquire(&ptable.lock)] *)
| WWake1        (** before [wakeup1], both locks held *)
| WRelPt        (** before [release(&ptable.lock)] *)
| WRelLk.       (** before [release(lk)] *)

#[global] Instance spc_eq_dec : EqDecision spc.
Proof. solve_decision. Defined.
#[global] Instance wpc_eq_dec : EqDecision wpc.
Proof. solve_decision. Defined.

(** Threads: sleepers and wakers by index.  The scheduler that switches to a
    sleeper takes [pt] on its behalf. *)
Inductive tid := Sl (i : nat) | Wk (i : nat).
#[global] Instance tid_eq_dec : EqDecision tid.
Proof. solve_decision. Defined.

Record st := St {
  lk : option tid;
  pt : option tid;
  cond : bool;
  sleepers : list (spc * procstate);
  wakers : list wpc;
}.

Definition set_lk (o : option tid) (s : st) : st := St o (pt s) (cond s) (sleepers s) (wakers s).
Definition set_pt (o : option tid) (s : st) : st := St (lk s) o (cond s) (sleepers s) (wakers s).
Definition set_cond (b : bool) (s : st) : st := St (lk s) (pt s) b (sleepers s) (wakers s).
Definition set_sleeper (i : nat) (x : spc * procstate) (s : st) : st :=
  St (lk s) (pt s) (cond s) (<[i := x]> (sleepers s)) (wakers s).
Definition set_waker (i : nat) (x : wpc) (s : st) : st :=
  St (lk s) (pt s) (cond s) (sleepers s) (<[i := x]> (wakers s)).

(** One step of sleeper [i].  [None]: it cannot step now. *)
Definition sleeper_step (i : nat) (s : st) : option st :=
  match sleepers s !! i with
  | None => None
  | Some (pc, ps) =>
      match pc with
      | SAcquire => match lk s with None => Some (set_lk (Some (Sl i)) (set_sleeper i (STest, ps) s)) | _ => None end
      | STest => Some (set_sleeper i (if cond s then STake else SSleep, ps) s)
      | SSleep => match pt s with None => Some (set_pt (Some (Sl i)) (set_sleeper i (SRelease, ps) s)) | _ => None end
      | SRelease => Some (set_lk None (set_sleeper i (SState, ps) s))
      | SState => Some (set_sleeper i (SSched, SLEEPING) s)
      | SSched => Some (set_pt None (set_sleeper i (SOff, ps) s))
      | SOff =>
          if decide (ps = RUNNABLE) then
            match pt s with None => Some (set_pt (Some (Sl i)) (set_sleeper i (SBack, RUNNING) s)) | _ => None end
          else None
      | SBack => Some (set_pt None (set_sleeper i (SReacquire, ps) s))
      | SReacquire => match lk s with None => Some (set_lk (Some (Sl i)) (set_sleeper i (STest, ps) s)) | _ => None end
      | STake => Some (set_cond false (set_sleeper i (SDone, ps) s))
      | SDone => Some (set_lk None (set_sleeper i (SAcquire, ps) s))
      end
  end.

(** [wakeup1] on the channel all sleepers use. *)
Definition wake_all (l : list (spc * procstate)) : list (spc * procstate) :=
  (λ x, if decide (x.2 = SLEEPING) then (x.1, RUNNABLE) else x) <$> l.

(** One step of waker [i]. *)
Definition waker_step (i : nat) (s : st) : option st :=
  match wakers s !! i with
  | None => None
  | Some pc =>
      match pc with
      | WAcquire => match lk s with None => Some (set_lk (Some (Wk i)) (set_waker i WSet s)) | _ => None end
      | WSet => Some (set_cond true (set_waker i WWakeup s))
      | WWakeup => match pt s with None => Some (set_pt (Some (Wk i)) (set_waker i WWake1 s)) | _ => None end
      | WWake1 => Some (St (lk s) (pt s) (cond s) (wake_all (sleepers s)) (<[i := WRelPt]> (wakers s)))
      | WRelPt => Some (set_pt None (set_waker i WRelLk s))
      | WRelLk => Some (set_lk None (set_waker i WAcquire s))
      end
  end.

Inductive step : st → st → Prop :=
| step_sleeper i s s' : sleeper_step i s = Some s' → step s s'
| step_waker i s s' : waker_step i s = Some s' → step s s'.

(** [n] sleepers and [m] wakers before their first instruction. *)
Definition init (n m : nat) : st :=
  St None None false (replicate n (SAcquire, RUNNING)) (replicate m WAcquire).

(** Where a thread holds which lock. *)
Definition s_lk (pc : spc) : bool :=
  match pc with STest | SSleep | SRelease | STake | SDone => true | _ => false end.
Definition s_pt (pc : spc) : bool :=
  match pc with SRelease | SState | SSched | SBack => true | _ => false end.
Definition w_lk (pc : wpc) : bool := match pc with WAcquire => false | _ => true end.
Definition w_pt (pc : wpc) : bool := match pc with WWake1 | WRelPt => true | _ => false end.

(** A process that is asleep, or bound to be before it looks again. *)
Definition dozing (x : spc * procstate) : bool :=
  match x.1 with
  | SState | SSched => true
  | SOff => bool_decide (x.2 = SLEEPING)
  | _ => false
  end.

(** A waker that has set the condition and not yet run [wakeup1]. *)
Definition coming (pc : wpc) : bool := match pc with WWakeup | WWake1 => true | _ => false end.

(** The process state a program counter goes with. *)
Definition state_ok (x : spc * procstate) : Prop :=
  match x.1 with
  | SSched => x.2 = SLEEPING
  | SOff => x.2 = SLEEPING ∨ x.2 = RUNNABLE
  | _ => x.2 = RUNNING
  end.

Record inv (s : st) : Prop := {
  i_slk : ∀ i x, sleepers s !! i = Some x → s_lk x.1 = true → lk s = Some (Sl i);
  i_spt : ∀ i x, sleepers s !! i = Some x → s_pt x.1 = true → pt s = Some (Sl i);
  i_wlk : ∀ i x, wakers s !! i = Some x → w_lk x = true → lk s = Some (Wk i);
  i_wpt : ∀ i x, wakers s !! i = Some x → w_pt x = true → pt s = Some (Wk i);
  i_state : ∀ i x, sleepers s !! i = Some x → state_ok x;
  i_tested : ∀ i x, sleepers s !! i = Some x → x.1 = SSleep ∨ x.1 = SRelease → cond s = false;
  i_wake : ∀ i x, sleepers s !! i = Some x → dozing x = true → cond s = true →
    ∃ j w, wakers s !! j = Some w ∧ coming w = true;
}.

Lemma init_inv n m : inv (init n m).
Proof.
  split; cbn; intros i x H; apply lookup_replicate in H as [-> _]; cbn; try done.
Qed.

(** Close one field of the invariant after a step of thread [i]. *)
Ltac inv_facts I :=
  repeat match goal with
  | H : sleepers _ !! _ = Some ?x |- _ =>
      lazymatch goal with
      | _ : state_ok x |- _ => fail
      | _ => pose proof (i_slk _ I _ _ H); pose proof (i_spt _ I _ _ H); pose proof (i_state _ I _ _ H);
             pose proof (i_tested _ I _ _ H); pose proof (i_wake _ I _ _ H)
      end
  | H : wakers _ !! _ = Some ?x |- _ =>
      lazymatch goal with
      | _ : w_lk x = true → _ |- _ => fail
      | _ => pose proof (i_wlk _ I _ _ H); pose proof (i_wpt _ I _ _ H)
      end
  end.

Ltac field I :=
  let j := fresh "j" in let y := fresh "y" in let H := fresh "H" in
  intros j y H; cbn in H;
  try (apply lookup_insert_cases in H as [[? ->]|[? H]]; [subst j|]);
  inv_facts I; clear I; simpl in *; intuition (try solve [eauto|congruence]);
  unfold state_ok in *; simpl in *; auto.

Lemma sleeper_inv i s s' : inv s → sleeper_step i s = Some s' → inv s'.
Proof.
  intros I. unfold sleeper_step. destruct (sleepers s !! i) as [[pc ps]|] eqn:Ei; [|done].
  destruct pc; repeat case_match; intros [= <-]; split; field I.
Qed.

Lemma lookup_wake_all l i x :
  wake_all l !! i = Some x → ∃ y, l !! i = Some y ∧ x.1 = y.1 ∧
    x.2 = if decide (y.2 = SLEEPING) then RUNNABLE else y.2.
Proof.
  unfold wake_all. rewrite list_lookup_fmap. destruct (l !! i) as [y|]; [|done].
  simpl. intros [= <-]. exists y. by case_decide.
Qed.

(** [wakeup1] with the lock held: no sleeper is between the decision to
    sleep and the switch. *)
Lemma wake1_inv i s :
  inv s → wakers s !! i = Some WWake1 →
  inv (St (lk s) (pt s) (cond s) (wake_all (sleepers s)) (<[i := WRelPt]> (wakers s))).
Proof.
  intros I Hi. pose proof (i_wlk _ I _ _ Hi eq_refl) as Hlk. pose proof (i_wpt _ I _ _ Hi eq_refl) as Hpt.
  assert (∀ j x, sleepers s !! j = Some x → s_pt x.1 = false) as Hno.
  { intros j x Hj. destruct (s_pt x.1) eqn:E; [|done]. rewrite (i_spt _ I _ _ Hj E) in Hpt. done. }
  split; cbn; try solve [field I].
  - intros j x (y & Hy & -> & _)%lookup_wake_all. by apply (i_slk _ I).
  - intros j x (y & Hy & -> & _)%lookup_wake_all. by apply (i_spt _ I).
  - intros j [pc ps] (y & Hy & ? & ?)%lookup_wake_all. simpl in *. subst.
    pose proof (i_state _ I _ _ Hy) as Hs. pose proof (Hno _ _ Hy) as Hp. destruct y as [pc ps].
    unfold state_ok in *. simpl in *. destruct pc, ps; simpl in *; intuition congruence.
  - intros j x (y & Hy & -> & _)%lookup_wake_all. by apply (i_tested _ I _ _ Hy).
  - intros j [pc ps] (y & Hy & ? & ?)%lookup_wake_all. simpl in *. subst.
    pose proof (i_state _ I _ _ Hy) as Hs. pose proof (Hno _ _ Hy) as Hp. destruct y as [pc ps].
    unfold state_ok, dozing in *. simpl in *. destruct pc, ps; simpl in *; intuition congruence.
Qed.

(** The condition is set: whoever dozes has this waker coming. *)
Lemma set_inv i s :
  inv s → wakers s !! i = Some WSet → inv (set_cond true (set_waker i WWakeup s)).
Proof.
  intros I Hi. pose proof (i_wlk _ I _ _ Hi eq_refl) as Hlk.
  split; cbn; try solve [field I].
  - intros j x Hj [E|E]; pose proof (i_slk _ I _ _ Hj) as H; rewrite E in H; specialize (H eq_refl); congruence.
  - intros j x Hj _ _. exists i, WWakeup. split; [|done].
    apply list_lookup_insert_eq. by eapply lookup_lt_Some.
Qed.

(** A waker that is coming and another one that moves: only one holds [lk]. *)
Lemma waker_moves i s w w' l p b :
  inv s → wakers s !! i = Some w → w_lk w = true → coming w = false ∨ coming w' = true →
  (∀ j x, sleepers s !! j = Some x → dozing x = true → b = true → cond s = true) →
  ∀ j x, sleepers s !! j = Some x → dozing x = true → b = true →
  ∃ k v, wakers (St l p b (sleepers s) (<[i := w']> (wakers s))) !! k = Some v ∧ coming v = true.
Proof.
  intros I Hi Hlk Hw Hb j x Hj Hd Hc. destruct (i_wake _ I _ _ Hj Hd (Hb _ _ Hj Hd Hc)) as (k & v & Hk & Hv).
  assert (k = i) as ->.
  { assert (w_lk v = true) as Hv' by by destruct v.
    pose proof (i_wlk _ I _ _ Hi Hlk). pose proof (i_wlk _ I _ _ Hk Hv'). congruence. }
  assert (v = w) as -> by congruence. destruct Hw as [Hw|Hw]; [congruence|].
  exists i, w'. split; [|done]. apply list_lookup_insert_eq. by eapply lookup_lt_Some.
Qed.

Lemma waker_inv i s s' : inv s → waker_step i s = Some s' → inv s'.
Proof.
  intros I. unfold waker_step. destruct (wakers s !! i) as [w|] eqn:Ei; [|done].
  destruct w.
  - destruct (lk s) eqn:El; [done|]. intros [= <-]. split; cbn; try solve [field I].
    intros j x Hj Hd Hc. destruct (i_wake _ I _ _ Hj Hd Hc) as (k & v & Hk & Hv).
    assert (w_lk v = true) as Hv' by by destruct v. pose proof (i_wlk _ I _ _ Hk Hv'). congruence.
  - intros [= <-]. by apply set_inv.
  - destruct (pt s) eqn:Ep; [done|]. intros [= <-]. split; cbn; try solve [field I].
    eapply (waker_moves i s WWakeup WWake1 None None); auto.
  - intros [= <-]. by apply wake1_inv.
  - intros [= <-]. split; cbn; try solve [field I].
    eapply (waker_moves i s WRelPt WRelLk None None); auto.
  - intros [= <-]. split; cbn; try solve [field I].
    eapply (waker_moves i s WRelLk WAcquire None None); auto.
Qed.

Lemma reach_inv s s' : inv s → rtc step s s' → inv s'.
Proof.
  intros I H. induction H as [|s1 s2 s3 [] _ IH]; eauto using sleeper_inv, waker_inv.
Qed.
End SleepWake.

(** C11. No wakeup is lost.  However the instructions of sleepers, wakers and
    the scheduler interleave, a process that is SLEEPING while the condition
    holds has a waker that has set the condition and has yet to run
    [wakeup1]; when that waker runs it, every process that is off the CPU
    becomes RUNNABLE. *)
Theorem no_lost_wakeup n m s i pc :
  rtc SleepWake.step (SleepWake.init n m) s →
  SleepWake.sleepers s !! i = Some (pc, SLEEPING) → SleepWake.cond s = true →
  ∃ j w, SleepWake.wakers s !! j = Some w ∧ SleepWake.coming w = true ∧
    (w = SleepWake.WWake1 → ∃ s', SleepWake.waker_step j s = Some s' ∧
       SleepWake.sleepers s' !! i = Some (SleepWake.SOff, RUNNABLE)).
Proof.
  intros Hr Hi Hc. pose proof (SleepWake.reach_inv _ _ (SleepWake.init_inv n m) Hr) as I.
  pose proof (SleepWake.i_state _ I _ _ Hi) as Hs.
  assert (SleepWake.dozing (pc, SLEEPING) = true) as Hd by by destruct pc.
  destruct (SleepWake.i_wake _ I _ _ Hi Hd Hc) as (j & w & Hj & Hw). exists j, w. split_and!; [done..|].
  intros ->. unfold SleepWake.waker_step. rewrite Hj. eexists. split; [done|]. cbn.
  unfold SleepWake.wake_all. rewrite list_lookup_fmap, Hi. simpl.
  pose proof (SleepWake.i_wpt _ I _ _ Hj eq_refl) as Hpt.
  destruct pc; try done. pose proof (SleepWake.i_spt _ I _ _ Hi eq_refl). congruence.
Qed.

(** One sleeper goes to sleep, one waker sets the condition and takes
    [ptable.lock]. *)
Definition demo_run : list SleepWake.tid :=
  [SleepWake.Sl 0; SleepWake.Sl 0; SleepWake.Sl 0; SleepWake.Sl 0; SleepWake.Sl 0; SleepWake.Sl 0;
   SleepWake.Wk 0; SleepWake.Wk 0; SleepWake.Wk 0].

Fixpoint run_steps (l : list SleepWake.tid) (s : SleepWake.st) : option SleepWake.st :=
  match l with
  | [] => Some s
  | t :: l' =>
      match t with SleepWake.Sl i => SleepWake.sleeper_step i s | SleepWake.Wk i => SleepWake.waker_step i s end
      ≫= run_steps l'
  end.

Lemma run_steps_rtc l s s' : run_steps l s = Some s' → rtc SleepWake.step s s'.
Proof.
  revert s. induction l as [|t l IH]; intros s; simpl; [intros [= ->]; apply rtc_refl|].
  intros (s1 & Hs1 & Hl)%bind_Some. eapply rtc_l; [|by apply IH].
  destruct t; [by eapply SleepWake.step_sleeper|by eapply SleepWake.step_waker].
Qed.

Lemma no_lost_wakeup_witness :
  ∃ s, run_steps demo_run (SleepWake.init 1 1) = Some s ∧
  ∃ j w, SleepWake.wakers s !! j = Some w ∧ SleepWake.coming w = true.
Proof.
  eexists. split; [vm_compute; reflexivity|].
  destruct (no_lost_wakeup 1 1 _ 0 SleepWake.SOff
    (run_steps_rtc demo_run (SleepWake.init 1 1) _ eq_refl) eq_refl eq_refl) as (j & w & Hj & Hw & _).
  by exists j, w.
Defined.
