(* ===== verification/Sched.v ===== *)
(** A pass of the scheduler over the process table (proc.c, [scheduler]) with
    the turns of the processes in it: every process that is ready gets its
    turn. *)

From S2P Require Import Prelude Memory Kstring Spinlock Mmu Kalloc Vm Proc ProcSpec VmDemo.

Section pass.
(** What process [j] does from the switch to it until the switch back. *)
Context (turn : nat → M pst ()).

(** The loop over the table, from slot [k] on; the result lists the slots
    that were switched to. *)
Fixpoint scheduler_turns (fuel k : nat) : M pst (list nat) :=
  r ← scheduler_scan k;
  match r with
  | None => mret []
  | Some j =>
    match fuel with
    | O => fault "scheduler: slot"
    | S fuel =>
      turn j;;
      scheduler_back;;
      l ← scheduler_turns fuel (S j);
      mret (j :: l)
    end
  end.

(** One iteration of the endless loop. *)
Definition scheduler_pass : M pst (list nat) :=
  on_mach sti;;
  on_mach (acquire LkPtable);;
  scheduler_turns NPROC 0.

(** ** Fairness *)

Context (i : nat).

(** CPU [i] holds [ptable.lock] and no other lock. *)
Definition at_switch (s : pst) : Prop :=
  ∃ mc, cpu_ok mc i ∧ no_locks mc i ∧ lock_free mc LkPtable ∧ p_mach s ≡ acquired i LkPtable mc.

Definition ready_in (s : pst) (j : nat) : Prop := ∃ p, procs s !! j = Some p ∧ p_state p = RUNNABLE.

(** A process that is ready can be switched to. *)
Definition ready_ok (s : pst) : Prop :=
  (length (procs s) ≤ NPROC)%nat ∧
  ∀ j p, procs s !! j = Some p → p_state p = RUNNABLE → p_kstack p ≠ 0 ∧ p_pgdir p ≠ 0.

(** What the scheduler relies on: a process switches back with
    [ptable.lock] held again, and leaves other processes ready. *)
Definition turn_ok : Prop := ∀ j p s,
  at_switch s → current (p_mach s) i = Some j → ready_ok s → procs s !! j = Some p → p_state p = RUNNING → p_kstack p ≠ 0 → p_pgdir p ≠ 0 →
  wp (turn j) (λ _ s', at_switch s' ∧ ready_ok s' ∧ length (procs s') = length (procs s) ∧
    ∀ k, k ≠ j → ready_in s k → ready_in s' k) s.

Lemma find_state_drop ps k j :
  find_state RUNNABLE (list.drop k ps) k = Some j →
  (k ≤ j)%nat ∧ (∃ p, ps !! j = Some p ∧ p_state p = RUNNABLE) ∧
  ∀ j' p, (k ≤ j')%nat → ps !! j' = Some p → p_state p = RUNNABLE → (j ≤ j')%nat.
Proof.
  intros H. apply find_state_Some in H as (Hle & (p & Hp & Es) & Hlt). rewrite lookup_drop in Hp.
  replace (k + (j - k))%nat with j in Hp by lia. split_and!; [done|by exists p|]. intros j' q Hk Hq Hs.
  destruct (decide (j ≤ j')%nat); [done|]. exfalso. eapply (Hlt (j' - k)%nat); [lia| |done]. rewrite lookup_drop.
  by replace (k + (j' - k))%nat with j' by lia.
Qed.

Lemma ready_alter s j k : k ≠ j → (∃ p, alter (set_state RUNNING) j (procs s) !! k = Some p ∧ p_state p = RUNNABLE) ↔ ready_in s k.
Proof. intros Hne. unfold ready_in. by rewrite list_lookup_alter_ne. Qed.

(** After the loop. *)
Definition pass_end (s : pst) : Prop := can_lock s i LkPtable ∧ no_locks (p_mach s) i.

Lemma scan_end k s (Q : option nat → pst → Prop) :
  at_switch s → find_state RUNNABLE (list.drop k (procs s)) k = None →
  (∀ s', pass_end s' → (∀ j, (k ≤ j)%nat → ¬ ready_in s j) → Q None s') → wp (on_mach (release LkPtable);; mret None) Q s.
Proof.
  intros (mc & Hok & Hn & Hf & Hm) E HQ. apply wp_bind. eapply on_release; [done..|]. intros mc' Hmc'. apply wp_ret, HQ.
  - split; [|pst_simpl; by rewrite Hmc']. split; pst_simpl; by rewrite Hmc'.
  - intros j Hj (p & Hp & Es). eapply (find_state_None _ _ _ E p); [|done].
    eapply (list_elem_of_lookup_2 _ (j - k)). rewrite lookup_drop. by replace (k + (j - k))%nat with j by lia.
Qed.

Lemma scan_run k s (Q : option nat → pst → Prop) :
  at_switch s → ready_ok s →
  (∀ s', pass_end s' → (∀ j, (k ≤ j)%nat → ¬ ready_in s j) → Q None s') →
  (∀ j p s', (k ≤ j < length (procs s))%nat → (∀ j', (k ≤ j')%nat → ready_in s j' → (j ≤ j')%nat) →
     at_switch s' → current (p_mach s') i = Some j → ready_ok s' → procs s' !! j = Some p → p_state p = RUNNING →
     p_kstack p ≠ 0 → p_pgdir p ≠ 0 → length (procs s') = length (procs s) → (∀ j', j' ≠ j → ready_in s j' → ready_in s' j') →
     Q (Some j) s') →
  wp (scheduler_scan k) Q s.
Proof.
  intros Sw [Hlen Hr] HN HS. unfold scheduler_scan. apply wp_bind, wp_gets.
  destruct (find_state RUNNABLE (list.drop k (procs s)) k) as [j|] eqn:Ej; [|by eapply scan_end].
  apply find_state_drop in Ej as (Hkj & (p & Hp & Es) & Hmin). destruct (Hr j p Hp Es) as [Hk Hd].
  destruct Sw as (mc & Hok & Hn & Hf & Hm). apply wp_bind. eapply scheduler_run_wp; [done..|]. intros mc1 H1. apply wp_ret.
  set (s1 := with_mach mc1 _). assert (procs s1 = alter (set_state RUNNING) j (procs s)) as Ep by done.
  apply (HS j (set_state RUNNING p)); try done.
  - split; [done|]. by eapply lookup_lt_Some.
  - intros j' Hj' (q & Hq & Eq). by eapply Hmin.
  - exists (with_cproc (Some j) i mc). split; [by apply cpu_ok_with_cproc|]. split; [by apply no_locks_with_cproc|]. by split.
  - pst_simpl. change (p_mach s1) with mc1. rewrite (current_acquired _ _ _ _ H1). unfold current, with_cproc. cbn.
    rewrite list_lookup_alter_eq. by destruct Hok as (_ & c & -> & _).
  - split; [by rewrite Ep, length_alter|]. rewrite Ep. intros j' p' Hp' Es'.
    apply lookup_alter_cases in Hp' as [(<- & q & Hq & ->)|[Hne Hp']]; [done|by eapply Hr].
  - by rewrite Ep, list_lookup_alter_eq, Hp.
  - by rewrite Ep, length_alter.
  - intros j' Hne (q & Hq & Eq). exists q. by rewrite Ep, list_lookup_alter_ne.
Qed.

Lemma scheduler_turns_wp (Ht : turn_ok) fuel k s :
  at_switch s → ready_ok s → (length (procs s) - k ≤ fuel)%nat →
  wp (scheduler_turns fuel k) (λ l s', (∀ j, (k ≤ j)%nat → ready_in s j → j ∈ l) ∧ Forall (λ j, (k ≤ j)%nat) l ∧ NoDup l ∧ pass_end s') s.
Proof.
  revert k s. induction fuel as [|fuel IH]; intros k s Sw Hr Hfu; cbn [scheduler_turns]; apply wp_bind, scan_run; try done;
    try (intros s' Hs' Hno; apply wp_ret; split_and!; [intros j Hj Hrj; by destruct (Hno j Hj)|constructor|constructor|apply Hs'..]);
    intros j p s1 Hj Hmin Sw1 Hc1 Hr1 Hp1 Es1 Hk1 Hd1 Hl1 Hkeep1; [lia|].
  apply wp_bind. eapply wp_mono; [by eapply Ht|]. intros [] s2 ((mc2 & Hok2 & Hn2 & Hf2 & Hm2) & Hr2 & Hl2 & Hkeep2).
  apply wp_bind. eapply scheduler_back_wp; [done..|]. intros mc3 H3. apply wp_bind. set (s3 := with_mach mc3 _).
  eapply wp_mono; [apply (IH (S j) s3)|].
  - exists (with_cproc None i mc2). split; [by apply cpu_ok_with_cproc|]. split; [by apply no_locks_with_cproc|]. by split.
  - exact Hr2.
  - change (procs s3) with (procs s2). lia.
  - intros l s4 (Hl & Fl & Nl & Hend). apply wp_ret. split_and!; [|constructor; [lia|]|constructor; [|done]|apply Hend..].
    + intros j' Hj' Hready. destruct (decide (j' = j)) as [->|Hne]; [by left|]. right. apply Hl; [specialize (Hmin j' Hj' Hready); lia|].
      by apply (Hkeep2 j' Hne), Hkeep1.
    + eapply Forall_impl; [exact Fl|]. cbn. lia.
    + intros Hin. eapply Forall_forall in Fl; [|exact Hin]. cbn in Fl. lia.
Qed.

(** C30. The scheduler is fair within a pass.  Whatever the processes do in
    their turns, as long as each switches back with [ptable.lock] held and
    does not take other processes out of the ready state: a pass over the
    table ends, every process that was ready at its start is switched to,
    none twice, and the lock is free again afterwards. *)
Theorem scheduler_pass_fair s :
  turn_ok → can_lock s i LkPtable → no_locks (p_mach s) i → ready_ok s →
  wp scheduler_pass (λ l s', (∀ j, ready_in s j → j ∈ l) ∧ NoDup l ∧ can_lock s' i LkPtable ∧ no_locks (p_mach s') i) s.
Proof.
  intros Ht [Hok Hf] Hn Hr. unfold scheduler_pass. apply wp_bind, on_mach_wp, wp_modify.
  assert (cpu_ok (set_if true (p_mach s)) i) as Hok' by by apply cpu_ok_set_if.
  apply wp_bind. eapply (on_acquire _ i); [by split|]. pst_simpl. intros mc Hmc. eapply wp_mono; [apply scheduler_turns_wp; [done| |exact Hr|]|].
  - exists (set_if true (p_mach s)). by split_and!.
  - cbn. destruct Hr. lia.
  - intros l s' (Hl & _ & Nl & Hend & Hend'). split_and!; [|done|done|done]. intros j. apply Hl. lia.
Qed.
End pass.

(** ** A pass in which every process yields at once *)

Definition yield_turn (j : nat) : M pst () := yield_exit true;; yield_enter;; mret tt.

Lemma with_cproc_same mc i j : current mc i = Some j → with_cproc (Some j) i mc = mc.
Proof.
  intros H. unfold with_cproc. destruct mc as [id b cs ls]. unfold set_cpus. cbn in *. f_equal. apply list_eq. intros k.
  rewrite list_lookup_alter. case_decide as Hik; [subst k|done]. unfold current in H. cbn in H. destruct (cs !! i) as [[a n b' o]|] eqn:E; [|done].
  change (o = Some j) in H. by rewrite H.
Qed.

Lemma yield_turn_ok i : turn_ok yield_turn i.
Proof.
  intros j p s (mc & Hok & Hn & Hf & Hm) Hc [Hlen Hr] Hp Es Hk Hd. rewrite (current_acquired _ _ _ _ Hm) in Hc.
  unfold yield_turn. apply wp_bind. eapply (yield_exit_wp _ mc i j true); [done..|by rewrite with_cproc_same|]. intros mc1 H1.
  unfold resumed in H1. rewrite with_cproc_same in H1 by done. assert (cpu_ok (set_if true mc) i) as Hok' by by apply cpu_ok_set_if.
  apply wp_bind. eapply (yield_enter_wp _ i j p); [split; pst_simpl; by rewrite H1|by pst_simpl; rewrite H1|by pst_simpl; rewrite H1|done|].
  pst_simpl. intros mc2 H2. apply wp_ret. set (s2 := with_mach mc2 _).
  assert (procs s2 = alter (park ∘ set_state RUNNABLE) j (procs s)) as Ep by done. split_and!.
  - exists (set_if true mc). split_and!; [done..|]. change (p_mach s2) with mc2. by rewrite H2, H1.
  - split; [by rewrite Ep, length_alter|]. rewrite Ep. intros j' p' Hp' Es'.
    apply lookup_alter_cases in Hp' as [(<- & q & Hq & ->)|[Hne Hp']]; [|by eapply Hr]. rewrite Hp in Hq. by injection Hq as <-.
  - by rewrite Ep, length_alter.
  - intros k Hne (q & Hq & Eq). exists q. by rewrite Ep, list_lookup_alter_ne.
Qed.

Definition sched_pst : pst :=
  with_mach (Mach 0 false [Cpu 0 0 false None; Cpu 1 0 false None] ∅)
    (set_procs [set_state RUNNABLE demo_proc; free_slot; set_state RUNNABLE demo_proc] run_pst).

Lemma scheduler_pass_fair_witness : wp (scheduler_pass yield_turn) (λ l _, 0%nat ∈ l ∧ 2%nat ∈ l) sched_pst.
Proof.
  eapply wp_mono; [apply (scheduler_pass_fair yield_turn 0 sched_pst (yield_turn_ok 0))|].
  - split; [|done]. split; [done|]. eexists. by split_and!.
  - done.
  - split; [cbn; unfold NPROC; lia|]. by intros [|[|[|j]]] p [=] ?; subst.
  - intros l s' (Hl & _). split; apply Hl; by eexists.
Defined.
