(* ===== verification/Block.v ===== *)
(** Disk blocks as byte lists (buf.h, fs.h): little-endian fields, the disk,
    buffers, and the sleep locks (sleeplock.c) that protect them. *)

From S2P Require Import Prelude.

(** ** Bytes of a block *)

Definition BSIZE : Z := 512.
Notation block := (list Z).
Definition zero_block : block := replicate 512 0.

(** A block as the disk stores it. *)
Definition block_ok (b : block) : Prop :=
  length b = 512%nat ∧ Forall (λ x, 0 ≤ x < 256) b.

(** The [n] bytes of [v], least significant first. *)
Fixpoint to_le (n : nat) (v : Z) : list Z :=
  match n with
  | O => []
  | S n' => v mod 256 :: to_le n' (v / 256)
  end.

Fixpoint of_le (l : list Z) : Z :=
  match l with
  | [] => 0
  | x :: l' => x + 256 * of_le l'
  end.

(** Access to a 16- and a 32-bit field at a byte offset. *)
Definition bytes_at (b : list Z) (off len : nat) : list Z := take len (drop off b).
Definition get16 (b : list Z) (off : nat) : Z := of_le (bytes_at b off 2).
Definition get32 (b : list Z) (off : nat) : Z := of_le (bytes_at b off 4).

(** [memmove] into a block at an offset. *)
Definition put_bytes (b : list Z) (off : nat) (l : list Z) : list Z :=
  take off b ++ l ++ drop (off + length l) b.
Definition put16 (b : list Z) (off : nat) (v : Z) : list Z := put_bytes b off (to_le 2 v).
Definition put32 (b : list Z) (off : nat) (v : Z) : list Z := put_bytes b off (to_le 4 v).

Lemma length_to_le n v : length (to_le n v) = n.
Proof. revert v. induction n; intros v; simpl; auto. Qed.

Lemma of_to_le n v : 0 ≤ v < 256 ^ Z.of_nat n → of_le (to_le n v) = v.
Proof.
  revert v. induction n as [|n IH]; intros v Hv.
  - simpl in *. lia.
  - rewrite Nat2Z.inj_succ, Z.pow_succ_r in Hv by lia. simpl. rewrite IH.
    + pose proof (Z.div_mod v 256). lia.
    + split; [apply Z.div_pos; lia|]. apply Z.div_lt_upper_bound; lia.
Qed.

Lemma to_le_bytes n v : Forall (λ x, 0 ≤ x < 256) (to_le n v).
Proof.
  revert v. induction n; intros v; simpl; constructor; auto. apply Z.mod_pos_bound. lia.
Qed.

Lemma length_put_bytes b off l : (off + length l ≤ length b)%nat → length (put_bytes b off l) = length b.
Proof. intros H. unfold put_bytes. rewrite !length_app, length_take, length_drop. lia. Qed.

Lemma bytes_put b off l :
  (off + length l ≤ length b)%nat → bytes_at (put_bytes b off l) off (length l) = l.
Proof.
  intros H. unfold bytes_at, put_bytes.
  rewrite drop_app_length' by (rewrite length_take; lia). by rewrite take_app_length.
Qed.

Lemma lookup_put_bytes b off l i :
  (off + length l ≤ length b)%nat →
  put_bytes b off l !! i =
    if decide (off ≤ i < off + length l)%nat then l !! (i - off)%nat else b !! i.
Proof.
  intros H. unfold put_bytes. case_decide as E.
  - rewrite lookup_app_r by (rewrite length_take; lia).
    rewrite length_take, Nat.min_l by lia. by rewrite lookup_app_l by lia.
  - destruct (decide (i < off)%nat).
    + rewrite lookup_app_l by (rewrite length_take; lia). by apply lookup_take_lt.
    + rewrite lookup_app_r by (rewrite length_take; lia). rewrite length_take, Nat.min_l by lia.
      rewrite lookup_app_r by lia. rewrite lookup_drop. f_equal. lia.
Qed.

(** Reading elsewhere sees no change. *)
Lemma bytes_put_other b off l off' len :
  (off + length l ≤ length b)%nat → (off' + len ≤ off)%nat ∨ (off + length l ≤ off')%nat →
  bytes_at (put_bytes b off l) off' len = bytes_at b off' len.
Proof.
  intros H Hd. apply list_eq. intros i. unfold bytes_at.
  destruct (decide (i < len)%nat).
  - rewrite !lookup_take_lt by done. rewrite !lookup_drop, lookup_put_bytes by done.
    case_decide; [lia|done].
  - rewrite !lookup_take_ge by lia. done.
Qed.

Lemma get_put32 b off v : (off + 4 ≤ length b)%nat → 0 ≤ v < 2 ^ 32 → get32 (put32 b off v) off = v.
Proof.
  intros H Hv. unfold get32, put32. rewrite <- (length_to_le 4 v) at 2. rewrite bytes_put.
  - apply of_to_le. done.
  - by rewrite length_to_le.
Qed.

Lemma get_put16 b off v : (off + 2 ≤ length b)%nat → 0 ≤ v < 2 ^ 16 → get16 (put16 b off v) off = v.
Proof.
  intros H Hv. unfold get16, put16. rewrite <- (length_to_le 2 v) at 2. rewrite bytes_put.
  - apply of_to_le. done.
  - by rewrite length_to_le.
Qed.

Lemma block_ok_put b off l :
  block_ok b → (off + length l ≤ 512)%nat → Forall (λ x, 0 ≤ x < 256) l → block_ok (put_bytes b off l).
Proof.
  intros [H1 H2] H3 H4. split; [rewrite length_put_bytes; lia|].
  apply Forall_app. split; [by apply Forall_take|]. apply Forall_app. split; [done|]. by apply Forall_drop.
Qed.

Lemma zero_block_ok : block_ok zero_block.
Proof. split; [done|]. apply Forall_replicate. lia. Qed.

Lemma get32_zero off : get32 zero_block off = 0.
Proof.
  unfold get32, bytes_at, zero_block. rewrite drop_replicate, take_replicate.
  induction (4 `min` (512 - off))%nat as [|n IH]; [done|]. cbn [replicate of_le]. by rewrite IH.
Qed.

Lemma of_le_range l : Forall (λ x, 0 ≤ x < 256) l → 0 ≤ of_le l < 256 ^ Z.of_nat (length l).
Proof.
  induction l as [|x l IH]; intros Hl; [simpl; lia|]. apply Forall_cons in Hl as [? ?].
  cbn [of_le length]. rewrite Nat2Z.inj_succ, Z.pow_succ_r by lia. specialize (IH ltac:(done)). lia.
Qed.

Lemma get32_range b off : Forall (λ x, 0 ≤ x < 256) b → 0 ≤ get32 b off < 2 ^ 32.
Proof.
  intros H. unfold get32, bytes_at.
  pose proof (of_le_range (take 4 (drop off b)) ltac:(by apply Forall_take, Forall_drop)) as Hl.
  split; [lia|]. eapply Z.lt_le_trans; [apply Hl|]. apply (Z.pow_le_mono_r 256 _ 4); [lia|].
  rewrite length_take. lia.
Qed.

(** ** Sleep locks (sleeplock.c)

    A sleep lock's own spin lock makes each operation atomic. *)
Record sleeplock := Slk { sl_locked : bool; sl_pid : Z }.

Definition initsleeplock : sleeplock := Slk false 0.

(** [acquiresleep]: [None] is a process that sleeps until the lock is free. *)
Definition acquiresleep (pid : Z) (l : sleeplock) : option sleeplock :=
  if sl_locked l then None else Some (Slk true pid).

Definition releasesleep (l : sleeplock) : sleeplock := Slk false 0.

Definition holdingsleep (pid : Z) (l : sleeplock) : bool := sl_locked l && (sl_pid l =? pid).

(** ** Buffers and the disk *)

(** A block of a device. *)
Notation bkey := (Z * Z)%type.

(** [struct buf]; [flags] is its two bits.  The list links are in [bst]. *)
Record buf := Buf {
  b_valid : bool;
  b_dirty : bool;
  b_dev : Z;
  b_blockno : Z;
  b_lock : sleeplock;
  b_refcnt : Z;
  b_data : block;
}.

Definition b_key (b : buf) : bkey := (b_dev b, b_blockno b).

Definition set_b_flags (v d : bool) (b : buf) : buf :=
  Buf v d (b_dev b) (b_blockno b) (b_lock b) (b_refcnt b) (b_data b).
Definition set_b_lock (l : sleeplock) (b : buf) : buf :=
  Buf (b_valid b) (b_dirty b) (b_dev b) (b_blockno b) l (b_refcnt b) (b_data b).
Definition set_b_refcnt (n : Z) (b : buf) : buf :=
  Buf (b_valid b) (b_dirty b) (b_dev b) (b_blockno b) (b_lock b) n (b_data b).
Definition set_b_data (x : block) (b : buf) : buf :=
  Buf (b_valid b) (b_dirty b) (b_dev b) (b_blockno b) (b_lock b) (b_refcnt b) x.

(** What [idestart] has put in the command registers of the controller
    (ports 0x1f3 to 0x1f6), and the data it has sent for a write. *)
Record ide_cmd := Cmd { r_1f3 : Z; r_1f4 : Z; r_1f5 : Z; r_1f6 : Z; r_data : option block }.

(** The disks, the controller, the buffer cache with its list from most to
    least recently used, the disk queue, and the process that runs.
    [writes] records the blocks the disk has written, in order. *)
Record bst := Bst {
  disk : gmap bkey block;
  writes : list (bkey * block);
  idecmd : ide_cmd;
  idequeue : list nat;
  havedisk1 : bool;
  bufs : list buf;
  lru : list nat;
  mypid : Z;
}.

Definition disk_block (d : gmap bkey block) (k : bkey) : block := default zero_block (d !! k).

Definition set_bufs (x : list buf) (s : bst) : bst :=
  Bst (disk s) (writes s) (idecmd s) (idequeue s) (havedisk1 s) x (lru s) (mypid s).
Definition set_lru (x : list nat) (s : bst) : bst :=
  Bst (disk s) (writes s) (idecmd s) (idequeue s) (havedisk1 s) (bufs s) x (mypid s).
Definition set_queue (x : list nat) (s : bst) : bst :=
  Bst (disk s) (writes s) (idecmd s) x (havedisk1 s) (bufs s) (lru s) (mypid s).
Definition set_cmd (x : ide_cmd) (s : bst) : bst :=
  Bst (disk s) (writes s) x (idequeue s) (havedisk1 s) (bufs s) (lru s) (mypid s).

(** The disk stores a block. *)
Definition disk_write (k : bkey) (x : block) (s : bst) : bst :=
  Bst (<[k := x]> (disk s)) (writes s ++ [(k, x)]) (idecmd s) (idequeue s) (havedisk1 s)
    (bufs s) (lru s) (mypid s).

Definition mod_buf (i : nat) (f : buf → buf) : M bst () := modify (λ s, set_bufs (alter f i (bufs s)) s).
Definition get_buf (i : nat) : M bst buf :=
  b ← gets (λ s, bufs s !! i);
  match b with Some b => mret b | None => fault "bcache index" end.

Lemma get_buf_wp s i b Q : bufs s !! i = Some b → Q b s → wp (get_buf i) Q s.
Proof. intros Hb HQ. unfold get_buf. wp_auto. rewrite Hb. by wp_auto. Qed.
