(* ===== verification/Ide.v ===== *)
(** The disk drivers: ide.c (a queue served by interrupts) and memide.c (a
    disk in memory), and the promise both make to the buffer cache.

    A process that waits in [iderw] sleeps; each time round the loop one
    interrupt arrives.  The controller executes the command in its registers
    before it interrupts. *)

From S2P Require Import Prelude Mmu Block.

(** ** ide.c *)

Definition SECTOR_SIZE : Z := 512.

(** The commands of [idestart] to the controller. *)
Definition ide_command (b : buf) : ide_cmd :=
  let sector := b_blockno b * (BSIZE / SECTOR_SIZE) in
  Cmd (Z.land sector 0xff) (Z.land (Z.shiftr sector 8) 0xff) (Z.land (Z.shiftr sector 16) 0xff)
    (Z.lor 0xe0 (Z.lor (Z.shiftl (Z.land (b_dev b) 1) 4) (Z.land (Z.shiftr sector 24) 0x0f)))
    (if b_dirty b then Some (b_data b) else None).

Definition idestart (i : nat) : M bst () :=
  b ← get_buf i;
  if FSSIZE <=? b_blockno b then panic "incorrect blockno" else
  modify (set_cmd (ide_command b)).

(** The controller: the drive and sector its registers name. *)
Definition cmd_key (c : ide_cmd) : bkey :=
  (Z.land (Z.shiftr (r_1f6 c) 4) 1,
   r_1f3 c + 2 ^ 8 * r_1f4 c + 2 ^ 16 * r_1f5 c + 2 ^ 24 * Z.land (r_1f6 c) 0x0f).

Definition device_done (s : bst) : bst :=
  match r_data (idecmd s) with
  | Some x => disk_write (cmd_key (idecmd s)) x s
  | None => s
  end.

(** [insl]: the sector that was read. *)
Definition insl (s : bst) : block := disk_block (disk s) (cmd_key (idecmd s)).

(** [ideintr]; [ok] is the status [idewait(1)] finds. *)
Definition ideintr (ok : bool) : M bst () :=
  q ← gets idequeue;
  match q with
  | [] => mret tt
  | i :: q' =>
      modify (set_queue q');;
      b ← get_buf i;
      x ← gets insl;
      when (negb (b_dirty b) && ok) (mod_buf i (set_b_data x));;
      mod_buf i (set_b_flags true false);;
      match q' with
      | [] => mret tt
      | j :: _ => idestart j
      end
  end.

(** The wait loop of [iderw]. *)
Fixpoint ide_wait (fuel : nat) (ok : bool) (i : nat) : M bst () :=
  b ← get_buf i;
  if b_valid b && negb (b_dirty b) then mret tt else
  match fuel with
  | O => sleep_on (ChBuf i)
  | S f => modify device_done;; ideintr ok;; ide_wait f ok i
  end.

Definition ide_iderw (ok : bool) (i : nat) : M bst () :=
  b ← get_buf i;
  pid ← gets mypid;
  if negb (holdingsleep pid (b_lock b)) then panic "iderw: buf not locked" else
  if b_valid b && negb (b_dirty b) then panic "iderw: nothing to do" else
  h ← gets havedisk1;
  if negb (b_dev b =? 0) && negb h then panic "iderw: ide disk 1 not present" else
  modify (λ s, set_queue (idequeue s ++ [i]) s);;
  q ← gets idequeue;
  when (bool_decide (head q = Some i)) (idestart i);;
  ide_wait (length q) ok i.

(** ** memide.c *)

Definition mem_iderw (disksize : Z) (i : nat) : M bst () :=
  b ← get_buf i;
  pid ← gets mypid;
  if negb (holdingsleep pid (b_lock b)) then panic "iderw: buf not locked" else
  if b_valid b && negb (b_dirty b) then panic "iderw: nothing to do" else
  if negb (b_dev b =? 1) then panic "iderw: request not for disk 1" else
  if disksize <=? b_blockno b then panic "iderw: block out of range" else
  (if b_dirty b then
     mod_buf i (set_b_flags (b_valid b) false);;
     modify (disk_write (b_key b) (b_data b))
   else
     x ← gets (λ s, disk_block (disk s) (b_key b));
     mod_buf i (set_b_data x));;
  mod_buf i (λ b, set_b_flags true (b_dirty b) b).

(** ** The promise to the buffer cache *)

(** A buffer brought in step with the disk. *)
Definition synced (d : gmap bkey block) (b : buf) : buf :=
  set_b_flags true false (if b_dirty b then b else set_b_data (disk_block d (b_key b)) b).

(** The buffer is written if it is dirty, and read otherwise. *)
Definition sync (i : nat) (s : bst) : bst :=
  match bufs s !! i with
  | Some b =>
      let s1 := if b_dirty b then disk_write (b_key b) (b_data b) s else s in
      set_bufs (alter (synced (disk s)) i (bufs s1)) s1
  | None => s
  end.

(** What the cache and its clients see of a state. *)
Record agrees (s s' : bst) : Prop := {
  ag_disk : disk s = disk s';
  ag_writes : writes s = writes s';
  ag_bufs : bufs s = bufs s';
  ag_lru : lru s = lru s';
  ag_pid : mypid s = mypid s';
}.

(** A driver: when it is [ready], [iderw] on a locked buffer of disk 1 that
    has something to transfer returns after the transfer. *)
Class DiskDriver (iderw : nat → M bst ()) := {
  ready : bst → Prop;
  disk_size : Z;
  ready_boot s : idequeue s = [] → havedisk1 s = true → ready s;
  ready_bufs l s : ready s → ready (set_bufs l s);
  ready_lru l s : ready s → ready (set_lru l s);
  iderw_sync s i b Q :
    bufs s !! i = Some b → holdingsleep (mypid s) (b_lock b) = true →
    b_valid b && negb (b_dirty b) = false → b_dev b = 1 → 0 ≤ b_blockno b < disk_size → ready s →
    (∀ s', agrees (sync i s) s' → ready s' → Q tt s') →
    wp (iderw i) Q s;
}.

#[global] Instance agrees_refl : Reflexive agrees.
Proof. by intros s. Qed.

Lemma land_shiftr_byte v k : 0 ≤ v → 0 ≤ k → Z.land (Z.shiftr v k) 0xff = (v / 2 ^ k) mod 256.
Proof. intros. rewrite Z.shiftr_div_pow2 by done. apply (Z.land_ones _ 8). lia. Qed.

(** The registers name the block: what the controller decodes is the buffer's
    device and block. *)
Lemma cmd_key_command b :
  b_dev b = 0 ∨ b_dev b = 1 → 0 ≤ b_blockno b < 2 ^ 28 → cmd_key (ide_command b) = b_key b.
Proof.
  intros Hd Hb. unfold cmd_key, ide_command, b_key. cbn [r_1f3 r_1f4 r_1f5 r_1f6].
  change (BSIZE / SECTOR_SIZE) with 1. rewrite Z.mul_1_r. set (n := b_blockno b) in *.
  rewrite !land_shiftr_byte by lia. rewrite (Z.shiftr_div_pow2 n 24) by lia.
  assert (Z.land n 0xff = n mod 2 ^ 8) as -> by (apply (Z.land_ones _ 8); lia).
  assert (Z.land (n / 2 ^ 24) 0x0f = n / 2 ^ 24) as ->.
  { change 0x0f with (Z.ones 4). rewrite Z.land_ones by lia. apply Z.mod_small.
    split; [apply Z.div_pos; lia|]. apply Z.div_lt_upper_bound; lia. }
  set (h := n / 2 ^ 24). assert (0 ≤ h < 16) as Hh.
  { split; [apply Z.div_pos; lia|]. apply Z.div_lt_upper_bound; lia. }
  assert (Z.land (Z.lor 0xe0 (Z.lor (Z.shiftl (Z.land (b_dev b) 1) 4) h)) 0x0f = h ∧
    Z.land (Z.shiftr (Z.lor 0xe0 (Z.lor (Z.shiftl (Z.land (b_dev b) 1) 4) h)) 4) 1 = b_dev b) as [-> ->].
  { clearbody h. clear -Hd Hh.
    assert (h ∈ seqZ 0 16) as Hin by (apply elem_of_seqZ; lia). clear Hh.
    destruct Hd as [-> | ->]; revert h Hin; apply Forall_forall; vm_compute; repeat constructor. }
  f_equal. unfold h. clear. pose proof (Z.div_mod n (2 ^ 8)).
  rewrite (Z.mod_eq (n / 2 ^ 8) 256), (Z.mod_eq (n / 2 ^ 16) 256) by lia.
  rewrite !Z.div_div by lia. change (2 ^ 8 * 256) with (2 ^ 16). change (2 ^ 16 * 256) with (2 ^ 24). lia.
Qed.

(** ** memide.c keeps the promise *)

Lemma mod_buf_wp s i f Q : Q tt (set_bufs (alter f i (bufs s)) s) → wp (mod_buf i f) Q s.
Proof. intros HQ. unfold mod_buf. by wp_auto. Qed.

Lemma mem_iderw_wp disksize s i b Q :
  bufs s !! i = Some b → holdingsleep (mypid s) (b_lock b) = true →
  b_valid b && negb (b_dirty b) = false → b_dev b = 1 → 0 ≤ b_blockno b < disksize →
  Q tt (sync i s) → wp (mem_iderw disksize i) Q s.
Proof.
  intros Hb Hh Hn Hd Hr HQ. unfold mem_iderw. apply wp_bind. eapply get_buf_wp; [done|].
  wp_auto. rewrite Hh, Hn, Hd. destruct (Z.leb_spec disksize (b_blockno b)); [lia|].
  cbn [negb Z.eqb Pos.eqb]. unfold sync in HQ. rewrite Hb in HQ.
  destruct (b_dirty b) eqn:Ed; unfold mod_buf; wp_auto.
  - unfold disk_write, set_bufs in *. cbn in *. rewrite list_alter_alter_eq.
    erewrite list_alter_ext; [exact HQ| |done]. intros x Hx. simplify_eq. unfold synced. simpl. by rewrite Ed.
  - unfold set_bufs in *. cbn in *. rewrite list_alter_alter_eq.
    erewrite list_alter_ext; [exact HQ| |done]. intros x Hx. simplify_eq. unfold synced. simpl. by rewrite Ed.
Qed.

#[global] Instance mem_driver disksize : DiskDriver (mem_iderw disksize).
Proof.
  refine {| ready := λ _, True; disk_size := disksize |}; try done.
  intros s i b Q Hb Hh Hn Hd Hr _ HQ. eapply mem_iderw_wp; [done..|]. by apply HQ.
Defined.

(** ** ide.c keeps the promise *)

(** A request the driver can serve. *)
Definition req_ok (s : bst) (i : nat) : Prop :=
  ∃ b, bufs s !! i = Some b ∧ (b_dev b = 0 ∨ b_dev b = 1) ∧ 0 ≤ b_blockno b < FSSIZE ∧
    b_valid b && negb (b_dirty b) = false.

(** The queue: distinct requests, the first of them in the controller. *)
Record queue_ok (s : bst) : Prop := {
  q_nodup : NoDup (idequeue s);
  q_req : ∀ i, i ∈ idequeue s → req_ok s i;
  q_cmd : ∀ i q b, idequeue s = i :: q → bufs s !! i = Some b → idecmd s = ide_command b;
}.

Lemma bufs_sync i j s : j ≠ i → bufs (sync i s) !! j = bufs s !! j.
Proof.
  intros Hne. unfold sync. destruct (bufs s !! i) as [b|] eqn:Eb; [|done].
  cbn. rewrite list_lookup_alter_ne by done. by destruct (b_dirty b).
Qed.

Lemma req_ok_sync i j s : j ≠ i → req_ok s j → req_ok (sync i s) j.
Proof. intros Hne (b & Hb & H). exists b. by rewrite bufs_sync. Qed.

Lemma idecmd_sync i s : idecmd (sync i s) = idecmd s.
Proof. unfold sync. destruct (bufs s !! i) as [b|]; [|done]. by destruct (b_dirty b). Qed.

Lemma havedisk1_sync i s : havedisk1 (sync i s) = havedisk1 s.
Proof. unfold sync. destruct (bufs s !! i) as [b|]; [|done]. by destruct (b_dirty b). Qed.

(** The transfer: what the controller and [ideintr] do together. *)
Lemma intr_transfer s i b q (K : M bst ()) Q :
  bufs s !! i = Some b → idecmd s = ide_command b → cmd_key (ide_command b) = b_key b →
  wp K Q (set_queue q (sync i s)) →
  wp (when (negb (b_dirty b) && true) (mod_buf i (set_b_data (insl (set_queue q (device_done s)))));;
      mod_buf i (set_b_flags true false);; K) Q (set_queue q (device_done s)).
Proof.
  intros Hb Hc Hk HK. unfold sync in HK. rewrite Hb in HK. rewrite <- Hc in Hk.
  assert (r_data (idecmd s) = if b_dirty b then Some (b_data b) else None) as Hd by by rewrite Hc.
  unfold insl, device_done, mod_buf, when. cbn [disk set_queue idecmd].
  rewrite Hd. clear Hd.
  destruct (b_dirty b) eqn:Ed; simpl; wp_auto; unfold disk_write, set_queue, set_bufs in *; cbn in *.
  - rewrite Hk. erewrite list_alter_ext; [exact HK| |done].
    intros x Hx. simplify_eq. unfold synced. by rewrite Ed.
  - rewrite Hk, list_alter_alter_eq. erewrite list_alter_ext; [exact HK| |done].
    intros x Hx. simplify_eq. unfold synced. simpl. by rewrite Ed.
Qed.

(** One interrupt serves the first request and starts the next. *)
Lemma intr_sync s i q :
  queue_ok s → idequeue s = i :: q →
  wp (modify device_done;; ideintr true) (λ _ s', agrees (sync i s) s' ∧ idequeue s' = q ∧
    havedisk1 s' = havedisk1 s ∧ queue_ok s') s.
Proof.
  intros [Hnd Hreq Hcmd] Hq. destruct (Hreq i) as (b & Hb & Hd & Hr & Hn); [rewrite Hq; by left|].
  assert (idecmd s = ide_command b) as Hc by by eapply Hcmd.
  assert (cmd_key (ide_command b) = b_key b) as Hk by (apply cmd_key_command; [done|]; unfold FSSIZE in *; lia).
  rewrite Hq in Hnd. apply NoDup_cons in Hnd as [Hni Hnd].
  assert (∀ j, j ∈ q → req_ok (sync i s) j) as Hreq1.
  { intros j Hj. apply req_ok_sync; [by intros ->|]. apply Hreq. rewrite Hq. by right. }
  apply wp_bind, wp_modify. unfold ideintr. apply wp_bind, wp_gets.
  assert (idequeue (device_done s) = i :: q) as -> by (unfold device_done; by destruct (r_data _)).
  apply wp_bind, wp_modify, wp_bind. eapply (get_buf_wp _ _ b).
  { cbn. unfold device_done. by destruct (r_data _). }
  apply wp_bind, wp_gets. apply intr_transfer; [done..|]. destruct q as [|j q'].
  - wp_auto. split_and!; [done|done|apply havedisk1_sync|]. split; [apply NoDup_nil_2| |done].
    by intros j Hj%elem_of_nil.
  - destruct (Hreq1 j) as (bj & Hbj & _ & Hrj & _); [by left|]. unfold idestart. apply wp_bind.
    eapply get_buf_wp; [done|]. destruct (Z.leb_spec FSSIZE (b_blockno bj)); [lia|]. wp_auto.
    split_and!; [done|done|apply havedisk1_sync|]. split; [done|exact Hreq1|].
    intros i' q2 b' [= <- <-] Hb'. cbn in *. congruence.
Qed.

Lemma sync_agrees i s s' : agrees s s' → agrees (sync i s) (sync i s').
Proof.
  intros [Hd Hw Hb Hl Hp]. unfold sync. rewrite <- Hb. destruct (bufs s !! i) as [b|]; [|by split].
  destruct (b_dirty b); split; cbn; congruence.
Qed.

#[global] Instance agrees_trans : Transitive agrees.
Proof. intros s1 s2 s3 [] []. split; congruence. Qed.

(** The requests of the queue in order. *)
Definition serve_all (q : list nat) (s : bst) : bst := foldl (λ s i, sync i s) s q.

Lemma serve_all_agrees q s s' : agrees s s' → agrees (serve_all q s) (serve_all q s').
Proof. revert s s'. induction q as [|i q IH]; intros s s' H; simpl; [done|]. by apply IH, sync_agrees. Qed.

Lemma synced_done d b : b_valid (synced d b) && negb (b_dirty (synced d b)) = true.
Proof. done. Qed.

Lemma lookup_sync i s b : bufs s !! i = Some b → bufs (sync i s) !! i = Some (synced (disk s) b).
Proof.
  intros Hb. unfold sync. rewrite Hb. cbn.
  assert (bufs (if b_dirty b then disk_write (b_key b) (b_data b) s else s) = bufs s) as -> by by destruct (b_dirty b).
  by rewrite list_lookup_alter_eq, Hb.
Qed.

Lemma ide_wait_done fuel i s b :
  bufs s !! i = Some b → b_valid b && negb (b_dirty b) = true → ide_wait fuel true i s = Ok tt s.
Proof. intros Hb Hn. destruct fuel; cbn; unfold mbind, M_bind, get_buf, gets, mbind, M_bind; rewrite Hb; simpl; by rewrite Hn. Qed.

(** The loop waits for every request before ours, then for ours. *)
Lemma ide_wait_wp q fuel i s :
  queue_ok s → idequeue s = q ++ [i] → (length q < fuel)%nat →
  wp (ide_wait fuel true i) (λ _ s', agrees (serve_all (q ++ [i]) s) s' ∧ idequeue s' = [] ∧
    havedisk1 s' = havedisk1 s) s.
Proof.
  revert fuel s. induction q as [|j q IH]; intros fuel s Hq Eq Hf; (destruct fuel as [|fuel]; [simpl in Hf; lia|]).
  - destruct (q_req _ Hq i) as (b & Hb & _ & _ & Hn); [rewrite Eq; by left|].
    simpl. apply wp_bind. eapply get_buf_wp; [done|]. rewrite Hn. apply wp_bind_assoc, wp_bind.
    eapply wp_mono; [by apply intr_sync|]. intros [] s1 (Hag & Hq1 & Hh & _).
    eapply wp_run; [|by split_and!]. eapply ide_wait_done.
    + rewrite <- (ag_bufs _ _ Hag). by apply lookup_sync.
    + by apply synced_done.
  - destruct (q_req _ Hq i) as (b & Hb & _ & _ & Hn); [rewrite Eq; simpl; right; apply elem_of_app; right; by left|].
    simpl. apply wp_bind. eapply get_buf_wp; [done|]. rewrite Hn. apply wp_bind_assoc, wp_bind.
    eapply wp_mono; [by apply (intr_sync _ j (q ++ [i]))|]. intros [] s1 (Hag & Hq1 & Hh & Hok1).
    eapply wp_mono; [apply IH; [done|done|simpl in Hf; lia]|]. intros [] s2 (Hag2 & Hq2 & Hh2).
    split_and!; [|done|congruence]. etrans; [|done]. by apply serve_all_agrees.
Qed.

Lemma ide_iderw_wp s i b :
  queue_ok s → i ∉ idequeue s → req_ok s i → havedisk1 s = true →
  bufs s !! i = Some b → holdingsleep (mypid s) (b_lock b) = true →
  wp (ide_iderw true i) (λ _ s', agrees (serve_all (idequeue s ++ [i]) s) s' ∧ idequeue s' = [] ∧
    havedisk1 s' = true) s.
Proof.
  intros Hq Hni (b' & Hb' & Hd & Hr & Hn) Hh Hb Hhold. assert (b' = b) as -> by congruence.
  unfold ide_iderw. apply wp_bind. eapply get_buf_wp; [done|]. wp_auto.
  rewrite Hhold, Hn. cbn [negb]. wp_auto. rewrite Hh, andb_false_r. wp_auto. cbn [idequeue set_queue].
  assert (req_ok s i) as Hri by (exists b; done).
  set (q := idequeue s) in *. set (s1 := set_queue (q ++ [i]) s).
  assert (∀ c, (∀ i' q' b', q ++ [i] = i' :: q' → bufs s !! i' = Some b' → c = ide_command b') →
    queue_ok (set_cmd c s1)) as Hok1.
  { intros c Hc. split; [|intros j [Hj|Hj%list_elem_of_singleton]%elem_of_app|exact Hc].
    - apply NoDup_app. split_and!; [apply Hq| |apply NoDup_singleton].
      by intros j Hj ->%list_elem_of_singleton.
    - by apply (q_req _ Hq).
    - by subst. }
  assert (∀ c, agrees (serve_all (q ++ [i]) s) (serve_all (q ++ [i]) (set_cmd c s1))) as Hag
    by (intros c; by apply serve_all_agrees).
  apply (wp_mono _ (λ _ s', ∃ c, s' = set_cmd c s1 ∧ queue_ok s')).
  - destruct q as [|j q'] eqn:Eq; simpl.
    + rewrite bool_decide_true by done. unfold when, idestart. apply wp_bind. eapply get_buf_wp; [done|].
      destruct (Z.leb_spec FSSIZE (b_blockno b)); [lia|]. wp_auto. eexists. split; [done|].
      apply Hok1. intros i' q' b' [= <- <-] ?. congruence.
    + rewrite bool_decide_false; [|intros [= ->]; apply Hni; by left]. unfold when. wp_auto.
      exists (idecmd s). split; [done|]. apply Hok1. intros i' q2 b2 [= <- <-] Hb2. by eapply (q_cmd _ Hq).
  - intros [] s2 (c & -> & Hok2). rewrite length_app.
    eapply wp_mono; [apply (ide_wait_wp q); [exact Hok2|reflexivity|simpl; lia]|].
    intros [] s3 (Hag3 & Hq3 & Hh3). split_and!; [|done|by rewrite Hh3].
    etrans; [apply Hag|exact Hag3].
Qed.

#[global] Instance ide_driver : DiskDriver (ide_iderw true).
Proof.
  refine {| ready := λ s, idequeue s = [] ∧ havedisk1 s = true; disk_size := FSSIZE |}; try done.
  - intros s i b Q Hb Hh Hn Hd Hr [Hq Hd1] HQ. eapply wp_mono; [eapply (ide_iderw_wp s i b)|]; try done.
    + split; rewrite Hq; [apply NoDup_nil_2|by intros j Hj%elem_of_nil|done].
    + rewrite Hq. by intros ?%elem_of_nil.
    + exists b. split; [done|]. split; [by right|]. split; [exact Hr|done].
    + intros [] s' (Hag & Hq' & Hd'). rewrite Hq in Hag. by apply HQ.
Defined.

(** The IDE driver serves requests in the order they were made.  With
    any queue of earlier requests, the first of them running, [iderw]
    returns after every one of them and its own has been transferred, in
    that order: dirty buffers written to the sector of their block, the
    others read from it, and every buffer valid and clean. *)
Theorem ide_iderw_fifo s i b :
  queue_ok s → i ∉ idequeue s → req_ok s i → havedisk1 s = true →
  bufs s !! i = Some b → holdingsleep (mypid s) (b_lock b) = true →
  wp (ide_iderw true i) (λ _ s', agrees (serve_all (idequeue s ++ [i]) s) s' ∧ idequeue s' = []) s.
Proof.
  intros. eapply wp_mono; [by eapply ide_iderw_wp|]. intros [] s' (? & ? & _). done.
Qed.

(** Two requests, the first a write, the second a read of the same block. *)
Definition demo_bst : bst :=
  let w := Buf true true 1 7 (Slk true 3) 1 (replicate 512 5) in
  let r := Buf false false 1 7 (Slk true 4) 1 zero_block in
  Bst ∅ [] (ide_command w) [0%nat] true [w; r] [0%nat; 1%nat] 4.

Lemma ide_iderw_fifo_witness :
  wp (ide_iderw true 1) (λ _ s', b_data <$> (bufs s' !! 1%nat) = Some (replicate 512 5)) demo_bst.
Proof.
  eapply wp_mono; [apply (ide_iderw_fifo demo_bst 1 (Buf false false 1 7 (Slk true 4) 1 zero_block))|].
  - split; [apply NoDup_singleton| |by intros i q b [= <- <-] [= <-]].
    intros i ->%list_elem_of_singleton. eexists. split; [done|]. split; [by right|]. by split.
  - intros [=]%list_elem_of_singleton.
  - eexists. split; [done|]. split; [by right|]. by split.
  - done.
  - done.
  - done.
  - intros [] s' [Hag _]. rewrite <- (ag_bufs _ _ Hag). vm_compute. reflexivity.
Defined.
