(* ===== verification/Bio.v ===== *)
(** The buffer cache (bio.c), and the abstract cache it implements.

    The operations are atomic sections under [bcache.lock]; the list through
    [prev]/[next] is [lru], most recently used first.  [cabs] relates the
    cache to [cache]: the contents of the disk, the contents the kernel sees,
    the buffers that are held and those pinned by the log. *)

From S2P Require Import Prelude Mmu Block Ide.

(** ** bio.c *)

Section bio.
Context (iderw : nat → M bst ()).

(** The loop of [binit] puts every buffer at the head of the list. *)
Definition binit : M bst () :=
  modify (λ s, set_lru (foldl (λ l i, i :: l) [] (seq 0 NBUF))
    (set_bufs (set_b_lock initsleeplock <$> bufs s) s)).

(** The first buffer along the list that satisfies a test. *)
Fixpoint scan (f : buf → bool) (l : list nat) (bs : list buf) : option nat :=
  match l with
  | [] => None
  | i :: l' =>
      match bs !! i with
      | Some b => if f b then Some i else scan f l' bs
      | None => scan f l' bs
      end
  end.

Definition buf_acquire (i : nat) : M bst () :=
  b ← get_buf i;
  pid ← gets mypid;
  match acquiresleep pid (b_lock b) with
  | Some l => mod_buf i (set_b_lock l)
  | None => sleep_on (ChBufLock i)
  end.

Definition bget (dev blockno : Z) : M bst nat :=
  s ← get;
  match scan (λ b, (b_dev b =? dev) && (b_blockno b =? blockno)) (lru s) (bufs s) with
  | Some i =>
      mod_buf i (λ b, set_b_refcnt (u32 (b_refcnt b + 1)) b);;
      buf_acquire i;;
      mret i
  | None =>
      match scan (λ b, (b_refcnt b =? 0) && negb (b_dirty b)) (reverse (lru s)) (bufs s) with
      | Some i =>
          mod_buf i (λ b, Buf false false dev blockno (b_lock b) 1 (b_data b));;
          buf_acquire i;;
          mret i
      | None => panic "bget: no buffers"
      end
  end.

Definition bread (dev blockno : Z) : M bst nat :=
  i ← bget dev blockno;
  b ← get_buf i;
  when (negb (b_valid b)) (iderw i);;
  mret i.

Definition bwrite (i : nat) : M bst () :=
  b ← get_buf i;
  pid ← gets mypid;
  if negb (holdingsleep pid (b_lock b)) then panic "bwrite" else
  mod_buf i (λ b, set_b_flags (b_valid b) true b);;
  iderw i.

Definition brelse (i : nat) : M bst () :=
  b ← get_buf i;
  pid ← gets mypid;
  if negb (holdingsleep pid (b_lock b)) then panic "brelse" else
  mod_buf i (λ b, set_b_lock (releasesleep (b_lock b)) b);;
  mod_buf i (λ b, set_b_refcnt (u32 (b_refcnt b - 1)) b);;
  b ← get_buf i;
  when (b_refcnt b =? 0)
    (modify (λ s, set_lru (i :: filter (λ j, j ≠ i) (lru s)) s)).

(** A client that holds buffer [i] reads and writes its data. *)
Definition buf_data (i : nat) : M bst block := b ← get_buf i; mret (b_data b).
Definition set_data (i : nat) (x : block) : M bst () := mod_buf i (set_b_data x).
End bio.

(** ** The abstract cache *)

(** [c_disk] is what a crash would leave; [c_view] is what the kernel sees;
    [c_held] maps the blocks that are held to their buffers; [c_dirty] are
    the blocks pinned by the log. *)
Record cache := Cache {
  c_disk : bkey → block;
  c_view : bkey → block;
  c_held : gmap bkey nat;
  c_dirty : gset bkey;
}.

Definition hold_block (k : bkey) (i : nat) (c : cache) : cache :=
  Cache (c_disk c) (c_view c) (<[k := i]> (c_held c)) (c_dirty c).
Definition drop_block (k : bkey) (c : cache) : cache :=
  Cache (c_disk c) (c_view c) (delete k (c_held c)) (c_dirty c).
Definition edit_block (k : bkey) (x : block) (c : cache) : cache :=
  Cache (c_disk c) (<[k := x]> (c_view c)) (c_held c) (c_dirty c).
Definition flush_block (k : bkey) (c : cache) : cache :=
  Cache (<[k := c_view c k]> (c_disk c)) (c_view c) (c_held c) (c_dirty c ∖ {[k]}).
Definition pin_block (k : bkey) (c : cache) : cache :=
  Cache (c_disk c) (c_view c) (c_held c) ({[k]} ∪ c_dirty c).

(** The blocks that occupy a buffer. *)
Definition c_used (c : cache) : gset bkey := dom (c_held c) ∪ c_dirty c.

(** ** The refinement relation *)

(** One buffer.  Buffers of device 0 have never been used. *)
Definition buf_abs (c : cache) (pid : Z) (b : buf) : Prop :=
  if decide (b_dev b = 0) then
    b_dirty b = false ∧ b_refcnt b = 0 ∧ b_lock b = initsleeplock
  else
    b_valid b = true ∧ b_data b = c_view c (b_key b) ∧
    b_dirty b = bool_decide (b_key b ∈ c_dirty c) ∧
    b_refcnt b = match c_held c !! b_key b with Some _ => 1 | None => 0 end ∧
    b_lock b = match c_held c !! b_key b with Some _ => Slk true pid | None => initsleeplock end.

Record cabs (s : bst) (c : cache) : Prop := {
  ca_len : length (bufs s) = NBUF;
  ca_lru : lru s ≡ₚ seq 0 NBUF;
  ca_disk : ∀ k, disk_block (disk s) k = c_disk c k;
  ca_uniq : ∀ i j b b', bufs s !! i = Some b → bufs s !! j = Some b' →
    b_dev b ≠ 0 → b_key b = b_key b' → i = j;
  ca_buf : ∀ i b, bufs s !! i = Some b → buf_abs c (mypid s) b;
  ca_held : ∀ k i, c_held c !! k = Some i → k.1 ≠ 0 ∧ ∃ b, bufs s !! i = Some b ∧ b_key b = k;
  ca_pin : ∀ k, k ∈ c_dirty c → k.1 ≠ 0 ∧ ∃ i b, bufs s !! i = Some b ∧ b_key b = k;
  ca_clean : ∀ k, c_held c !! k = None → k ∉ c_dirty c → c_view c k = c_disk c k;
}.

(** Caches that differ in no block are the same. *)
#[global] Instance cache_equiv : Equiv cache := λ c c',
  (∀ k, c_disk c k = c_disk c' k) ∧ (∀ k, c_view c k = c_view c' k) ∧
  c_held c = c_held c' ∧ c_dirty c = c_dirty c'.

#[global] Instance cache_equivalence : Equivalence (≡@{cache}).
Proof.
  split.
  - by intros c.
  - intros c c' (? & ? & ? & ?). by split_and!.
  - intros c1 c2 c3 (H1 & H2 & H3 & H4) (H1' & H2' & H3' & H4'). split_and!; [..|congruence|congruence].
    + intros k. by rewrite H1.
    + intros k. by rewrite H2.
Qed.

#[global] Instance cabs_proper : Proper ((=) ==> (≡) ==> iff) cabs.
Proof.
  assert (∀ s c c', c ≡ c' → cabs s c → cabs s c') as H.
  { intros s c c' (Hd & Hv & Hh & Hy) [A1 A2 A3 A4 A5 A6 A7 A8]. split; try done.
    - intros k. by rewrite A3.
    - intros i b Hb. specialize (A5 i b Hb). unfold buf_abs in *. by rewrite <- Hh, <- Hy, <- Hv.
    - intros k i. rewrite <- Hh. apply A6.
    - intros k. rewrite <- Hy. apply A7.
    - intros k. rewrite <- Hh, <- Hy, <- Hv, <- Hd. apply A8. }
  intros s ? <- c c' Hc. split; apply H; by rewrite ?Hc.
Qed.

(** ** Finding a buffer *)

Lemma scan_Some f l bs i : scan f l bs = Some i → ∃ b, bs !! i = Some b ∧ f b = true ∧ i ∈ l.
Proof.
  induction l as [|j l IH]; simpl; [done|].
  destruct (bs !! j) as [b|] eqn:Eb; [destruct (f b) eqn:Ef|].
  - intros [= <-]. exists b. split_and!; [done|done|by left].
  - intros H. destruct (IH H) as (b' & ? & ? & ?). exists b'. split_and!; [done|done|by right].
  - intros H. destruct (IH H) as (b' & ? & ? & ?). exists b'. split_and!; [done|done|by right].
Qed.

Lemma scan_None f l bs i b : scan f l bs = None → i ∈ l → bs !! i = Some b → f b = false.
Proof.
  induction l as [|j l IH]; simpl; [by intros _ H%elem_of_nil|].
  intros H [->|Hi]%elem_of_cons Hb.
  - rewrite Hb in H. by destruct (f b).
  - apply IH; [|done|done]. destruct (bs !! j) as [b'|]; [|done]. by destruct (f b').
Qed.

Section cabs.
Context {s : bst} {c : cache} (A : cabs s c).

Lemma in_lru i b : bufs s !! i = Some b → i ∈ lru s.
Proof.
  intros Hb. rewrite (ca_lru _ _ A). apply elem_of_seq. apply lookup_lt_Some in Hb.
  rewrite (ca_len _ _ A) in Hb. lia.
Qed.

Lemma scan_all f l i b : l ≡ₚ lru s → bufs s !! i = Some b → f b = true → is_Some (scan f l (bufs s)).
Proof.
  intros Hl Hb Hf. destruct (scan f l (bufs s)) as [j|] eqn:E; [done|].
  rewrite (scan_None _ _ _ i b E) in Hf; [done| |done]. rewrite Hl. by eapply in_lru.
Qed.

(** The buffer of a block, if it has one. *)
Lemma scan_key k i b :
  bufs s !! i = Some b → b_key b = k → k.1 ≠ 0 →
  scan (λ b, (b_dev b =? k.1) && (b_blockno b =? k.2)) (lru s) (bufs s) = Some i.
Proof.
  intros Hb Hk H0. destruct (scan_all (λ b, (b_dev b =? k.1) && (b_blockno b =? k.2)) (lru s) i b) as [j Hj].
  - done.
  - done.
  - subst k. by rewrite !Z.eqb_refl.
  - rewrite Hj. f_equal. apply scan_Some in Hj as (b' & Hb' & [E1%Z.eqb_eq E2%Z.eqb_eq]%andb_prop & _).
    apply (ca_uniq _ _ A _ _ b' b); [done|done|congruence|]. subst k. unfold b_key in *. simpl in *. congruence.
Qed.

Lemma scan_key_inv k i :
  scan (λ b, (b_dev b =? k.1) && (b_blockno b =? k.2)) (lru s) (bufs s) = Some i →
  ∃ b, bufs s !! i = Some b ∧ b_key b = k.
Proof.
  intros (b & Hb & [E1%Z.eqb_eq E2%Z.eqb_eq]%andb_prop & _)%scan_Some. exists b. split; [done|].
  destruct k. unfold b_key. simpl in *. congruence.
Qed.

(** A buffer that is neither free to recycle nor unused holds a used block. *)
Lemma busy_used i b :
  bufs s !! i = Some b → (b_refcnt b =? 0) && negb (b_dirty b) = false → b_dev b ≠ 0 ∧ b_key b ∈ c_used c.
Proof.
  intros Hb Hn. pose proof (ca_buf _ _ A _ _ Hb) as Ha. unfold buf_abs in Ha. unfold c_used.
  case_decide as E; [destruct Ha as (H1 & H2 & _); by rewrite H1, H2 in Hn|]. split; [done|].
  destruct Ha as (_ & _ & Hd & Hr & _). apply elem_of_union. rewrite elem_of_dom.
  destruct (c_held c !! b_key b) eqn:Eh; [left; by eexists|right].
  rewrite Hr, Hd in Hn. simpl in Hn. apply negb_false_iff, bool_decide_eq_true in Hn. done.
Qed.

(** There is a buffer to recycle as long as fewer blocks are used than there
    are buffers. *)
Lemma recyclable k :
  scan (λ b, (b_dev b =? k.1) && (b_blockno b =? k.2)) (lru s) (bufs s) = None →
  k.1 ≠ 0 → (size ({[k]} ∪ c_used c) ≤ NBUF)%nat →
  ∃ i b, scan (λ b, (b_refcnt b =? 0) && negb (b_dirty b)) (reverse (lru s)) (bufs s) = Some i ∧
    bufs s !! i = Some b ∧ b_refcnt b = 0 ∧ b_dirty b = false.
Proof.
  intros Hno H0 Hsz.
  destruct (scan (λ b, (b_refcnt b =? 0) && negb (b_dirty b)) (reverse (lru s)) (bufs s)) as [i|] eqn:E.
  { pose proof (scan_Some _ _ _ _ E) as (b & Hb & [E1%Z.eqb_eq E2%negb_true_iff]%andb_prop & _). by exists i, b. }
  exfalso. assert (∀ i b, bufs s !! i = Some b → b_dev b ≠ 0 ∧ b_key b ∈ c_used c) as Hall.
  { intros i b Hb. apply (busy_used i b Hb). apply (scan_None _ _ _ i b E); [|exact Hb].
    apply elem_of_reverse. by eapply in_lru. }
  assert (k ∉ c_used c) as Hk.
  { unfold c_used. rewrite elem_of_union, elem_of_dom.
    assert (∀ i b, bufs s !! i = Some b → b_key b ≠ k) as Hne.
    { intros i b Hb Ek. rewrite (scan_key k i b Hb Ek H0) in Hno. done. }
    intros [[i Hi]|Hd].
    - apply (ca_held _ _ A) in Hi as (_ & b & Hb & Hkb). by eapply Hne.
    - apply (ca_pin _ _ A) in Hd as (_ & i & b & Hb & Hkb). by eapply Hne. }
  assert (NoDup (b_key <$> bufs s)) as Hnd.
  { apply NoDup_alt. intros i j x Hi Hj. rewrite list_lookup_fmap in Hi, Hj.
    apply fmap_Some in Hi as (b & Hb & ->). apply fmap_Some in Hj as (b' & Hb' & Ek).
    apply (ca_uniq _ _ A _ _ b b'); [done|done|by eapply Hall|done]. }
  assert (list_to_set (b_key <$> bufs s) ⊆ c_used c) as Hsub.
  { intros x. rewrite elem_of_list_to_set. intros (b & -> & [i Hb]%list_elem_of_lookup)%list_elem_of_fmap.
    by eapply Hall. }
  apply subseteq_size in Hsub. rewrite size_list_to_set in Hsub by done.
  rewrite length_fmap, (ca_len _ _ A) in Hsub. rewrite size_union, size_singleton in Hsz by set_solver. lia.
Qed.
End cabs.

(** ** Changing one buffer *)

(** [c'] differs from [c] only at block [k]. *)
Record c_off (k : bkey) (c c' : cache) : Prop := {
  co_disk : ∀ k', k' ≠ k → c_disk c' k' = c_disk c k';
  co_view : ∀ k', k' ≠ k → c_view c' k' = c_view c k';
  co_held : ∀ k', k' ≠ k → c_held c' !! k' = c_held c !! k';
  co_dirty : ∀ k', k' ≠ k → k' ∈ c_dirty c' ↔ k' ∈ c_dirty c;
}.

Lemma buf_abs_off k c c' pid b :
  c_off k c c' → b_key b ≠ k → buf_abs c pid b → buf_abs c' pid b.
Proof.
  intros [_ Hv Hh Hd] Hk. unfold buf_abs. case_decide; [done|].
  rewrite Hv, Hh by done. intros (? & ? & -> & ?). split_and!; [done|done| |naive_solver..].
  apply bool_decide_ext. symmetry. by apply Hd.
Qed.

Lemma cabs_change s c s' c' i b b' :
  cabs s c → bufs s !! i = Some b → bufs s' = <[i := b']> (bufs s) → lru s' ≡ₚ lru s →
  mypid s' = mypid s → (∀ k, disk_block (disk s') k = c_disk c' k) →
  c_off (b_key b') c c' → b_dev b' ≠ 0 →
  (b_key b = b_key b' ∨ b_key b ∉ c_used c ∧ ∀ j b2, bufs s !! j = Some b2 → b_key b2 ≠ b_key b') →
  buf_abs c' (mypid s) b' →
  c_held c' !! b_key b' = None ∨ c_held c' !! b_key b' = Some i →
  (c_held c' !! b_key b' = None → b_key b' ∉ c_dirty c' → c_view c' (b_key b') = c_disk c' (b_key b')) →
  cabs s' c'.
Proof.
  intros A Hb Eb El Ep Ed Hoff H0 Hkey Hnew Hheld Hclean. set (k := b_key b') in *.
  assert (i < length (bufs s))%nat as Hi by by eapply lookup_lt_Some.
  assert (∀ j b2, j ≠ i → bufs s !! j = Some b2 → b_key b2 ≠ k) as Hne.
  { intros j b2 Hji Hb2 Ek. destruct Hkey as [E|[_ E]]; [|by eapply E].
    apply Hji. apply (ca_uniq _ _ A _ _ b2 b); [done|done| |congruence].
    unfold k, b_key in Ek. injection Ek as E1 _. by rewrite E1. }
  assert (∀ k' j b2, k' ≠ k → bufs s !! j = Some b2 → b_key b2 = k' → k' ∈ c_used c → bufs s' !! j = Some b2) as Hkeep.
  { intros k' j b2 Hk' Hb2 E Hu. rewrite Eb, list_lookup_insert_ne; [done|]. intros <-.
    assert (b2 = b) as -> by congruence. destruct Hkey as [E2|[E2 _]]; [congruence|]. by rewrite E in E2. }
  split.
  - rewrite Eb, length_insert. apply A.
  - rewrite El. apply A.
  - done.
  - intros j j' x x'. rewrite Eb. intros [[-> ->]|[Hj Hx]]%lookup_insert_cases
      [[-> ->]|[Hj' Hx']]%lookup_insert_cases Hx0 Ex; [done| | |by eapply (ca_uniq _ _ A)].
    + exfalso. by apply (Hne j' x').
    + exfalso. by apply (Hne j x).
  - intros j x. rewrite Eb, Ep. intros [[-> ->]|[Hj Hx]]%lookup_insert_cases; [done|].
    eapply buf_abs_off; [done|by eapply Hne|by eapply (ca_buf _ _ A)].
  - intros k' j Hk'. destruct (decide (k' = k)) as [->|Hk].
    + assert (j = i) as -> by (destruct Hheld as [E|E]; rewrite Hk' in E; congruence).
      split; [done|]. exists b'. by rewrite Eb, list_lookup_insert_eq.
    + rewrite (co_held _ _ _ Hoff) in Hk' by done. destruct (ca_held _ _ A _ _ Hk') as (? & b2 & Hb2 & E).
      split; [done|]. exists b2. split; [|done]. eapply Hkeep; [done..|].
      apply elem_of_union_l, elem_of_dom. by eexists.
  - intros k' Hk'. destruct (decide (k' = k)) as [->|Hk].
    + split; [done|]. exists i, b'. by rewrite Eb, list_lookup_insert_eq.
    + rewrite (co_dirty _ _ _ Hoff) in Hk' by done. destruct (ca_pin _ _ A _ Hk') as (? & j & b2 & Hb2 & E).
      split; [done|]. exists j, b2. split; [|done]. eapply Hkeep; [done..|]. by apply elem_of_union_r.
  - intros k' Hh Hd. destruct (decide (k' = k)) as [->|Hk]; [by apply Hclean|].
    rewrite (co_held _ _ _ Hoff) in Hh by done. rewrite (co_dirty _ _ _ Hoff) in Hd by done.
    rewrite (co_view _ _ _ Hoff), (co_disk _ _ _ Hoff) by done. by apply (ca_clean _ _ A).
Qed.

(** The changes of the abstract cache, each at one block. *)
Lemma hold_off k i c : c_off k c (hold_block k i c).
Proof. split; intros k' Hk; cbn; [done|done|by rewrite lookup_insert_ne|done]. Qed.
Lemma drop_off k c : c_off k c (drop_block k c).
Proof. split; intros k' Hk; cbn; [done|done|by rewrite lookup_delete_ne|done]. Qed.
Lemma edit_off k x c : c_off k c (edit_block k x c).
Proof. split; intros k' Hk; cbn; [done|by rewrite fn_lookup_insert_ne|done|done]. Qed.
Lemma flush_off k c : c_off k c (flush_block k c).
Proof. split; intros k' Hk; cbn; [by rewrite fn_lookup_insert_ne|done|done|set_solver]. Qed.
Lemma pin_off k c : c_off k c (pin_block k c).
Proof. split; intros k' Hk; cbn; [done|done|done|set_solver]. Qed.

(** The buffer of a block that is held. *)
Lemma held_buf s c k i :
  cabs s c → c_held c !! k = Some i → ∃ b, bufs s !! i = Some b ∧ b_key b = k ∧ b_dev b ≠ 0 ∧
    b_valid b = true ∧ b_data b = c_view c k ∧ b_dirty b = bool_decide (k ∈ c_dirty c) ∧
    b_refcnt b = 1 ∧ b_lock b = Slk true (mypid s).
Proof.
  intros A Hh. destruct (ca_held _ _ A _ _ Hh) as (H0 & b & Hb & Hk). exists b.
  pose proof (ca_buf _ _ A _ _ Hb) as Ha. unfold buf_abs in Ha.
  assert (b_dev b ≠ 0) as Hd by (subst k; done). rewrite decide_False in Ha by done.
  rewrite Hk, Hh in Ha. naive_solver.
Qed.

(** ** The operations refine the abstract cache *)

Section refine.
Context (iderw : nat → M bst ()) `{!DiskDriver iderw}.

(** The cache with an idle driver. *)
Definition bio_ok (s : bst) (c : cache) : Prop := cabs s c ∧ ready s.

#[global] Instance bio_ok_proper : Proper ((=) ==> (≡) ==> iff) bio_ok.
Proof. intros s ? <- c c' Hc. unfold bio_ok. by rewrite Hc. Qed.

(** A block of the file system's disk. *)
Definition on_disk (k : bkey) : Prop := k.1 = 1 ∧ 0 ≤ k.2 < disk_size.

(** Looking at the list lets a lock be taken: refcnt 1, lock held. *)
Lemma buf_acquire_wp s i b Q :
  bufs s !! i = Some b → b_lock b = initsleeplock →
  Q tt (set_bufs (<[i := set_b_lock (Slk true (mypid s)) b]> (bufs s)) s) →
  wp (buf_acquire i) Q s.
Proof.
  intros Hb Hl HQ. unfold buf_acquire. apply wp_bind. eapply get_buf_wp; [done|]. wp_auto.
  rewrite Hl. simpl. apply mod_buf_wp. by rewrite (alter_insert _ _ _ _ Hb).
Qed.

(** A block that is cached is found, one that is not gets a fresh buffer. *)
Lemma bget_cached s c k i b Q :
  cabs s c → bufs s !! i = Some b → b_key b = k → k.1 ≠ 0 → c_held c !! k = None →
  Q i (set_bufs (<[i := set_b_lock (Slk true (mypid s)) (set_b_refcnt 1 b)]> (bufs s)) s) →
  wp (bget k.1 k.2) Q s.
Proof.
  intros A Hb Hk H0 Hh HQ. unfold bget. apply wp_bind, wp_get. rewrite (scan_key A k i b Hb Hk H0).
  pose proof (ca_buf _ _ A _ _ Hb) as Ha. unfold buf_abs in Ha. rewrite decide_False in Ha by (by rewrite <- Hk in H0).
  rewrite Hk, Hh in Ha. destruct Ha as (_ & _ & _ & Hr & Hl).
  apply wp_bind, mod_buf_wp. rewrite (alter_insert _ _ _ _ Hb), Hr. change (u32 (0 + 1)) with 1.
  assert (i < length (bufs s))%nat as Hi by by eapply lookup_lt_Some.
  apply wp_bind. eapply buf_acquire_wp; [cbn; by apply list_lookup_insert_eq|done|]. wp_auto.
  cbn in *. unfold set_bufs in *. cbn in *. by rewrite list_insert_insert_eq.
Qed.

Lemma bget_fresh s c k Q :
  cabs s c → k.1 ≠ 0 →
  scan (λ b, (b_dev b =? k.1) && (b_blockno b =? k.2)) (lru s) (bufs s) = None →
  (size ({[k]} ∪ c_used c) ≤ NBUF)%nat →
  (∀ i b, bufs s !! i = Some b → b_refcnt b = 0 → b_dirty b = false →
     Q i (set_bufs (<[i := Buf false false k.1 k.2 (Slk true (mypid s)) 1 (b_data b)]> (bufs s)) s)) →
  wp (bget k.1 k.2) Q s.
Proof.
  intros A H0 Hno Hsz HQ. unfold bget. apply wp_bind, wp_get. rewrite Hno.
  destruct (recyclable A k Hno H0 Hsz) as (i & b & -> & Hb & Hr & Hd).
  apply wp_bind, mod_buf_wp. rewrite (alter_insert _ _ _ _ Hb).
  assert (i < length (bufs s))%nat as Hi by by eapply lookup_lt_Some.
  apply wp_bind. eapply buf_acquire_wp; [cbn; by apply list_lookup_insert_eq| |].
  - cbn. pose proof (ca_buf _ _ A _ _ Hb) as Ha. unfold buf_abs in Ha. case_decide; [apply Ha|].
    destruct Ha as (_ & _ & _ & Hr' & ->). by destruct (c_held c !! b_key b); [congruence|].
  - wp_auto. specialize (HQ i b Hb Hr Hd). unfold set_bufs, set_b_lock in *. cbn in *.
    by rewrite list_insert_insert_eq.
Qed.

(** The cases of [bread]. *)
Lemma bread_cached s c k i Q :
  bio_ok s c → on_disk k → c_held c !! k = None →
  scan (λ b, (b_dev b =? k.1) && (b_blockno b =? k.2)) (lru s) (bufs s) = Some i →
  (∀ s', bio_ok s' (hold_block k i c) → writes s' = writes s → mypid s' = mypid s → Q i s') →
  wp (bread iderw k.1 k.2) Q s.
Proof.
  intros [A R] [Hdev Hr] Hh E HQ. assert (k.1 ≠ 0) as H0 by lia. unfold bread. apply wp_bind.
  destruct (scan_key_inv k i E) as (b & Hb & Hk). eapply (bget_cached s c k i b); [done..|].
  assert (b_dev b ≠ 0) as Hb0 by (rewrite <- Hk in H0; exact H0).
  pose proof (ca_buf _ _ A _ _ Hb) as Ha. unfold buf_abs in Ha. rewrite decide_False in Ha by done.
  rewrite Hk, Hh in Ha. destruct Ha as (Hv & Hdt & Hdy & _).
  assert (i < length (bufs s))%nat as Hi by by eapply lookup_lt_Some.
  set (b1 := set_b_lock _ _). assert (b_key b1 = k) as Hk1 by exact Hk.
  apply wp_bind. eapply (get_buf_wp _ _ b1); [cbn; by apply list_lookup_insert_eq|].
  cbn [b_valid b1 set_b_lock set_b_refcnt]. rewrite Hv. wp_auto.
  apply HQ; [|done|done]. split; [|by apply ready_bufs].
  eapply (cabs_change s c _ _ i b b1); rewrite ?Hk1; try done.
  - apply A.
  - apply hold_off.
  - by left.
  - unfold buf_abs. rewrite decide_False by done. rewrite Hk1. cbn. by rewrite lookup_insert_eq.
  - right. cbn. by rewrite lookup_insert_eq.
  - cbn. by rewrite lookup_insert_eq.
Qed.

(** The buffer to recycle holds no block that is used, and no buffer holds
    the block that is read. *)
Lemma fresh_unused s c k i b :
  cabs s c → k.1 ≠ 0 →
  scan (λ b, (b_dev b =? k.1) && (b_blockno b =? k.2)) (lru s) (bufs s) = None →
  bufs s !! i = Some b → b_refcnt b = 0 → b_dirty b = false →
  b_key b ∉ c_used c ∧ (∀ j b2, bufs s !! j = Some b2 → b_key b2 ≠ k) ∧ k ∉ c_dirty c.
Proof.
  intros A H0 E Hb Hrf Hdf.
  assert (∀ j b2, bufs s !! j = Some b2 → b_key b2 ≠ k) as Hne.
  { intros j b2 Hb2 Ek. by rewrite (scan_key A k j b2 Hb2 Ek H0) in E. }
  split_and!; [|done|].
  - intros Hu. pose proof (ca_buf _ _ A _ _ Hb) as Ha. unfold buf_abs in Ha.
    apply elem_of_union in Hu as [[j Hj]%elem_of_dom|Hu].
    + destruct (ca_held _ _ A _ _ Hj) as (Hz & _). rewrite decide_False in Ha by done. rewrite Hj in Ha. lia.
    + destruct (ca_pin _ _ A _ Hu) as (Hz & _). rewrite decide_False in Ha by done.
      rewrite bool_decide_true in Ha by done. destruct Ha as (_ & _ & Hx & _). congruence.
  - intros Hd. destruct (ca_pin _ _ A _ Hd) as (_ & j & b2 & Hb2 & Ek). by eapply Hne.
Qed.

Lemma bread_fresh s c k Q :
  bio_ok s c → on_disk k → c_held c !! k = None → (size ({[k]} ∪ c_used c) ≤ NBUF)%nat →
  scan (λ b, (b_dev b =? k.1) && (b_blockno b =? k.2)) (lru s) (bufs s) = None →
  (∀ s' i, bio_ok s' (hold_block k i c) → writes s' = writes s → mypid s' = mypid s → Q i s') →
  wp (bread iderw k.1 k.2) Q s.
Proof.
  intros [A R] [Hdev Hr] Hh Hsz E HQ. assert (k.1 ≠ 0) as H0 by lia. unfold bread. apply wp_bind.
  eapply bget_fresh; [done..|]. intros i b Hb Hrf Hdf.
  destruct (fresh_unused s c k i b A H0 E Hb Hrf Hdf) as (Hu & Hne & Hkd).
  set (b1 := Buf false false k.1 k.2 (Slk true (mypid s)) 1 (b_data b)).
  set (s1 := set_bufs (<[i := b1]> (bufs s)) s).
  assert (bufs s1 !! i = Some b1) as Hb1 by (cbn; apply list_lookup_insert_eq; by eapply lookup_lt_Some).
  apply wp_bind. eapply get_buf_wp; [exact Hb1|]. unfold when. cbn [b_valid b1 negb]. apply wp_bind.
  eapply (iderw_sync s1 i b1); [done|by cbn; rewrite Z.eqb_refl|done|done|done|by apply ready_bufs|].
  intros s2 Hag R2. wp_auto. unfold sync in Hag. rewrite Hb1 in Hag. destruct Hag as [Ed Ew Eb El Ep].
  apply HQ; [|by rewrite <- Ew|by rewrite <- Ep]. split; [|done].
  assert (b_key (synced (disk s) b1) = k) as Hk2 by by destruct k.
  eapply (cabs_change s c s2 _ i b (synced (disk s) b1)); rewrite ?Hk2; try done.
  - rewrite <- Eb. cbn [b_dirty b1]. cbn [bufs set_bufs]. rewrite (alter_insert _ _ i b1 Hb1). cbn.
    by rewrite list_insert_insert_eq.
  - by rewrite <- El.
  - intros k'. rewrite <- Ed. apply A.
  - apply hold_off.
  - by right.
  - unfold buf_abs. rewrite Hk2. cbn [b_dev synced b1 b_dirty set_b_flags set_b_data].
    rewrite decide_False by done. cbn [c_held hold_block]. rewrite lookup_insert_eq.
    split_and!; [done| |by rewrite bool_decide_false|done|done].
    cbn. change (b_key b1 = k) in Hk2. rewrite Hk2, (ca_clean _ _ A k Hh Hkd). apply A.
  - right. cbn. by rewrite lookup_insert_eq.
  - cbn. by rewrite lookup_insert_eq.
Qed.

(** [bread] returns the block, held, with the contents the kernel sees. *)
Lemma bread_wp s c k Q :
  bio_ok s c → on_disk k → c_held c !! k = None → (size ({[k]} ∪ c_used c) ≤ NBUF)%nat →
  (∀ s' i, bio_ok s' (hold_block k i c) → writes s' = writes s → mypid s' = mypid s → Q i s') →
  wp (bread iderw k.1 k.2) Q s.
Proof.
  intros Hok Hk Hh Hsz HQ.
  destruct (scan (λ b, (b_dev b =? k.1) && (b_blockno b =? k.2)) (lru s) (bufs s)) as [i|] eqn:E.
  - eapply bread_cached; [done..|]. intros s'. apply HQ.
  - by eapply bread_fresh.
Qed.

(** A client reads the data of a buffer it holds. *)
Lemma buf_data_wp s c k i Q :
  bio_ok s c → c_held c !! k = Some i → Q (c_view c k) s → wp (buf_data i) Q s.
Proof.
  intros [A _] Hh HQ. destruct (held_buf _ _ _ _ A Hh) as (b & Hb & _ & _ & _ & Hd & _).
  unfold buf_data. apply wp_bind. eapply get_buf_wp; [done|]. wp_auto. by rewrite Hd.
Qed.

(** The state after one buffer has changed, the rest of the cache as before. *)
Lemma held_change s c c' k i b b' :
  bio_ok s c → c_held c !! k = Some i → bufs s !! i = Some b → b_key b' = k → c_off k c c' →
  c_disk c' = c_disk c → buf_abs c' (mypid s) b' → c_held c' !! k = Some i →
  bio_ok (set_bufs (<[i := b']> (bufs s)) s) c'.
Proof.
  intros [A R] Hh Hb Hk Hoff Hd Ha Hh'. split; [|by apply ready_bufs].
  destruct (held_buf _ _ _ _ A Hh) as (b2 & Hb2 & Hk2 & H0 & _). assert (b2 = b) as -> by congruence.
  eapply (cabs_change s c _ c' i b b'); rewrite ?Hk; try done.
  - intros k'. rewrite Hd. apply A.
  - rewrite <- Hk in Hk2. unfold b_key in Hk2. injection Hk2 as E _. by rewrite <- E.
  - by left.
  - by right.
  - congruence.
Qed.

Lemma set_data_wp s c k i x Q :
  bio_ok s c → c_held c !! k = Some i →
  (∀ s', bio_ok s' (edit_block k x c) → writes s' = writes s → mypid s' = mypid s → Q tt s') →
  wp (set_data i x) Q s.
Proof.
  intros Hok Hh HQ. destruct (held_buf _ _ _ _ (proj1 Hok) Hh) as (b & Hb & Hk & H0 & Hv & Hd & Hdy & Hr & Hl).
  unfold set_data. apply mod_buf_wp. rewrite (alter_insert _ _ _ _ Hb). apply HQ; [|done|done].
  assert (b_key (set_b_data x b) = k) as Hk' by exact Hk.
  eapply held_change; [done|done|done|done|apply edit_off|done| |done].
  unfold buf_abs. rewrite decide_False by done. rewrite Hk'. cbn. rewrite Hh, fn_lookup_insert. by split_and!.
Qed.

(** [log_write]'s marking of the buffer. *)
Definition pin_buf (i : nat) : M bst () := mod_buf i (λ b, set_b_flags (b_valid b) true b).

Lemma pin_buf_wp s c k i Q :
  bio_ok s c → c_held c !! k = Some i →
  (∀ s', bio_ok s' (pin_block k c) → writes s' = writes s → mypid s' = mypid s → Q tt s') →
  wp (pin_buf i) Q s.
Proof.
  intros Hok Hh HQ. destruct (held_buf _ _ _ _ (proj1 Hok) Hh) as (b & Hb & Hk & H0 & Hv & Hd & Hdy & Hr & Hl).
  unfold pin_buf. apply mod_buf_wp. rewrite (alter_insert _ _ _ _ Hb). apply HQ; [|done|done].
  assert (b_key (set_b_flags (b_valid b) true b) = k) as Hk' by exact Hk.
  eapply held_change; [done|done|done|done|apply pin_off|done| |done].
  unfold buf_abs. rewrite decide_False by done. rewrite Hk'. cbn. rewrite Hh.
  rewrite bool_decide_true by set_solver. by split_and!.
Qed.

Lemma brelse_wp s c k i Q :
  bio_ok s c → c_held c !! k = Some i → k ∈ c_dirty c ∨ c_view c k = c_disk c k →
  (∀ s', bio_ok s' (drop_block k c) → writes s' = writes s → mypid s' = mypid s → Q tt s') →
  wp (brelse i) Q s.
Proof.
  intros [A R] Hh Hcl HQ. destruct (held_buf _ _ _ _ A Hh) as (b & Hb & Hk & H0 & Hv & Hd & Hdy & Hr & Hl).
  assert (i < length (bufs s))%nat as Hi by by eapply lookup_lt_Some.
  unfold brelse. apply wp_bind. eapply get_buf_wp; [done|]. wp_auto. rewrite Hl. cbn. rewrite Z.eqb_refl. cbn [negb].
  apply wp_bind, mod_buf_wp, wp_bind, mod_buf_wp. set (b' := set_b_refcnt 0 (set_b_lock (Slk false 0) b)).
  match goal with |- wp _ _ ?t => assert (t = set_bufs (<[i := b']> (bufs s)) s) as -> end.
  { unfold set_bufs. cbn. f_equal. rewrite list_alter_alter_eq, (alter_insert _ _ _ _ Hb). simpl. by rewrite Hr. }
  apply wp_bind. eapply (get_buf_wp _ _ b'); [cbn; by apply list_lookup_insert_eq|].
  unfold when. cbn. wp_auto. apply HQ; [|done|done]. split; [|by apply (ready_lru _ (set_bufs _ s)), ready_bufs].
  assert (b_key b' = k) as Hk' by exact Hk.
  eapply (cabs_change s c _ _ i b b'); rewrite ?Hk'; try done.
  - apply move_to_front; [rewrite (ca_lru _ _ A); apply NoDup_seq|by eapply in_lru].
  - apply A.
  - apply drop_off.
  - by left.
  - unfold buf_abs. rewrite decide_False by done. rewrite Hk'. cbn. rewrite lookup_delete_eq. by split_and!.
  - left. cbn. by rewrite lookup_delete_eq.
  - cbn. intros _ Hnd. destruct Hcl; [done|done].
Qed.

Lemma disk_block_insert d k x k' :
  disk_block (<[k := x]> d) k' = if decide (k = k') then x else disk_block d k'.
Proof. unfold disk_block. rewrite lookup_insert. by case_decide. Qed.

Lemma bwrite_wp s c k i Q :
  bio_ok s c → c_held c !! k = Some i → on_disk k →
  (∀ s', bio_ok s' (flush_block k c) → writes s' = writes s ++ [(k, c_view c k)] →
     mypid s' = mypid s → Q tt s') →
  wp (bwrite iderw i) Q s.
Proof.
  intros [A R] Hh [Hdev Hrg] HQ. destruct (held_buf _ _ _ _ A Hh) as (b & Hb & Hk & H0 & Hv & Hd & Hdy & Hr & Hl).
  assert (i < length (bufs s))%nat as Hi by by eapply lookup_lt_Some.
  unfold bwrite. apply wp_bind. eapply get_buf_wp; [done|]. wp_auto. rewrite Hl. cbn. rewrite Z.eqb_refl. cbn [negb].
  apply wp_bind, mod_buf_wp. rewrite (alter_insert _ _ _ _ Hb). set (b1 := set_b_flags (b_valid b) true b).
  assert (b_key b1 = k) as Hk1 by exact Hk.
  set (s1 := set_bufs (<[i := b1]> (bufs s)) s).
  assert (bufs s1 !! i = Some b1) as Hb1 by (cbn; by apply list_lookup_insert_eq).
  eapply (iderw_sync s1 i b1); [done|by cbn; rewrite Hl; cbn; rewrite Z.eqb_refl|by cbn; rewrite andb_false_r| | |by apply ready_bufs|].
  { rewrite <- Hk1 in Hdev. exact Hdev. }
  { rewrite <- Hk1 in Hrg. exact Hrg. }
  intros s2 Hag R2. unfold sync in Hag. rewrite Hb1 in Hag. destruct Hag as [Ed Ew Eb El Ep]. cbn in *.
  change (b_key b1) with (b_key b) in *. rewrite Hk, Hd in *.
  apply HQ; [|by rewrite <- Ew|by rewrite <- Ep]. split; [|done].
  eapply (cabs_change s c s2 _ i b (set_b_flags true false b)); change (b_key (set_b_flags true false b)) with (b_key b);
    rewrite ?Hk; try done.
  - rewrite <- Eb, (alter_insert _ _ i b1 Hb1), list_insert_insert_eq. done.
  - by rewrite <- El.
  - intros k'. rewrite <- Ed, disk_block_insert. cbn. destruct (decide (k = k')) as [<-|Hne].
    + by rewrite fn_lookup_insert.
    + rewrite fn_lookup_insert_ne by done. apply A.
  - apply flush_off.
  - by left.
  - unfold buf_abs. rewrite decide_False by done. change (b_key (set_b_flags true false b)) with (b_key b).
    rewrite Hk. cbn. rewrite Hh, bool_decide_false by set_solver. by split_and!.
  - by right.
  - cbn. rewrite Hh. done.
Qed.

(** ** Any sequence of operations *)

Inductive bop :=
| OpRead (k : bkey) | OpSet (k : bkey) (x : block) | OpPin (k : bkey) | OpWrite (k : bkey)
| OpRelease (k : bkey).

(** What a client that keeps its buffers in [env] runs, and the blocks it
    reads. *)
Definition run_op (op : bop) (env : gmap bkey nat) : M bst (gmap bkey nat * list block) :=
  let with_buf k m := match env !! k with Some i => m i | None => fault "no buffer" end in
  match op with
  | OpRead k => i ← bread iderw k.1 k.2; x ← buf_data i; mret (<[k := i]> env, [x])
  | OpSet k x => with_buf k (λ i, set_data i x;; mret (env, []))
  | OpPin k => with_buf k (λ i, pin_buf i;; mret (env, []))
  | OpWrite k => with_buf k (λ i, bwrite iderw i;; mret (env, []))
  | OpRelease k => with_buf k (λ i, brelse i;; mret (delete k env, []))
  end.

Fixpoint run_ops (ops : list bop) (env : gmap bkey nat) : M bst (gmap bkey nat * list block) :=
  match ops with
  | [] => mret (env, [])
  | op :: ops' =>
      x ← run_op op env;
      y ← run_ops ops' x.1;
      mret (y.1, x.2 ++ y.2)
  end.

(** The specification: the cache as a map from blocks to contents; [None]
    where a client breaks the rules. *)
Definition spec_op (op : bop) (a : cache) : option (cache * list block) :=
  match op with
  | OpRead k =>
      if decide (on_disk k ∧ c_held a !! k = None ∧ (size ({[k]} ∪ c_used a) ≤ NBUF)%nat)
      then Some (hold_block k 0 a, [c_view a k]) else None
  | OpSet k x => if decide (is_Some (c_held a !! k)) then Some (edit_block k x a, []) else None
  | OpPin k => if decide (is_Some (c_held a !! k)) then Some (pin_block k a, []) else None
  | OpWrite k => if decide (is_Some (c_held a !! k) ∧ on_disk k) then Some (flush_block k a, []) else None
  | OpRelease k =>
      if decide (is_Some (c_held a !! k) ∧ (k ∈ c_dirty a ∨ c_view a k = c_disk a k))
      then Some (drop_block k a, []) else None
  end.

Fixpoint spec_ops (ops : list bop) (a : cache) : option (cache * list block) :=
  match ops with
  | [] => Some (a, [])
  | op :: ops' =>
      x ← spec_op op a;
      y ← spec_ops ops' x.1;
      Some (y.1, x.2 ++ y.2)
  end.

(** Equal up to the choice of buffers. *)
Record c_same (c a : cache) : Prop := {
  cs_disk : c_disk c = c_disk a;
  cs_view : c_view c = c_view a;
  cs_dirty : c_dirty c = c_dirty a;
  cs_held : dom (c_held c) = dom (c_held a);
}.

Lemma same_held c a k : c_same c a → is_Some (c_held a !! k) → ∃ i, c_held c !! k = Some i.
Proof. intros S H. rewrite <- elem_of_dom, <- (cs_held _ _ S), elem_of_dom in H. exact H. Qed.

Lemma same_used c a : c_same c a → c_used c = c_used a.
Proof. intros []. unfold c_used. congruence. Qed.

Lemma same_hold c a k i j : c_same c a → c_same (hold_block k i c) (hold_block k j a).
Proof. intros []. split; cbn; try done. rewrite !dom_insert_L. congruence. Qed.
Lemma same_drop c a k : c_same c a → c_same (drop_block k c) (drop_block k a).
Proof. intros []. split; cbn; try done. rewrite !dom_delete_L. congruence. Qed.
Lemma same_edit c a k x : c_same c a → c_same (edit_block k x c) (edit_block k x a).
Proof. intros []. split; cbn; congruence. Qed.
Lemma same_pin c a k : c_same c a → c_same (pin_block k c) (pin_block k a).
Proof. intros []. split; cbn; congruence. Qed.
Lemma same_flush c a k : c_same c a → c_same (flush_block k c) (flush_block k a).
Proof. intros []. split; cbn; congruence. Qed.

Lemma run_op_refines op s c a a' out :
  bio_ok s c → c_same c a → spec_op op a = Some (a', out) →
  wp (run_op op (c_held c)) (λ x s', x.2 = out ∧ ∃ c', bio_ok s' c' ∧ c_same c' a' ∧ x.1 = c_held c') s.
Proof.
  intros Hok S. destruct op as [k|k x|k|k|k]; simpl; case_decide as H; intros [= <- <-].
  - destruct H as (Hk & Hh & Hsz). apply wp_bind. eapply bread_wp; [done|done| |by rewrite (same_used _ _ S)|].
    { apply not_elem_of_dom. rewrite (cs_held _ _ S). by apply not_elem_of_dom. }
    intros s' i Hok' _ _. apply wp_bind. eapply buf_data_wp; [done|apply lookup_insert_eq|]. wp_auto.
    split; [cbn; by rewrite (cs_view _ _ S)|]. exists (hold_block k i c). by split_and!; [|apply same_hold|].
  - destruct (same_held _ _ _ S H) as [i Hi]. rewrite Hi. apply wp_bind. eapply set_data_wp; [done|done|].
    intros s' Hok' _ _. wp_auto. split; [done|]. eexists. split_and!; [done|by apply same_edit|done].
  - destruct (same_held _ _ _ S H) as [i Hi]. rewrite Hi. apply wp_bind. eapply pin_buf_wp; [done|done|].
    intros s' Hok' _ _. wp_auto. split; [done|]. eexists. split_and!; [done|by apply same_pin|done].
  - destruct H as [H Hk]. destruct (same_held _ _ _ S H) as [i Hi]. rewrite Hi. apply wp_bind.
    eapply bwrite_wp; [done|done|done|]. intros s' Hok' _ _. wp_auto. split; [done|]. eexists.
    split_and!; [done|by apply same_flush|done].
  - destruct H as [H Hk]. destruct (same_held _ _ _ S H) as [i Hi]. rewrite Hi. apply wp_bind.
    eapply brelse_wp; [done|done| |].
    { by rewrite (cs_dirty _ _ S), (cs_view _ _ S), (cs_disk _ _ S). }
    intros s' Hok' _ _. wp_auto. split; [done|]. eexists. split_and!; [done|by apply same_drop|done].
Qed.

(** C10. The buffer cache is transparent.  Whatever sequence of [bread],
    changes of data, pinning, [bwrite] and [brelse] a client runs within the
    rules (it releases only clean or pinned buffers and never uses more than
    NBUF blocks at a time), the calls succeed without a panic and every
    block read is what the specification, a plain map from blocks to
    contents, says, whatever was evicted and reread in between. *)
Theorem bcache_refines ops s c a' out :
  bio_ok s c → spec_ops ops c = Some (a', out) →
  wp (run_ops ops (c_held c)) (λ x s', x.2 = out ∧
    ∃ c', bio_ok s' c' ∧ c_same c' a' ∧ x.1 = c_held c') s.
Proof.
  assert (c_same c c) as S by done. revert S. generalize c at 2 4 as a. intros a S Hok. revert s c a a' out S Hok.
  induction ops as [|op ops IH]; intros s c a a' out S Hok; simpl.
  - intros [= <- <-]. wp_auto. split; [done|]. by exists c.
  - intros ([a1 o1] & H1 & ([a2 o2] & H2 & [= <- <-])%bind_Some)%bind_Some. simpl in *. apply wp_bind.
    eapply wp_mono; [by eapply run_op_refines|]. intros [e1 x1] s1 (-> & c1 & Hok1 & S1 & E1). simpl in *. subst e1.
    apply wp_bind. eapply wp_mono; [by eapply IH|]. intros [e2 x2] s2 (-> & c2 & Hok2 & S2 & E2). wp_auto.
    simpl. split; [done|]. by exists c2.
Qed.
End refine.

(** ** Boot *)

(** The cache before [binit]: static storage, all zero. *)
Definition zero_buf : buf := Buf false false 0 0 (Slk false 0) 0 zero_block.
Definition boot_bst (d : gmap bkey block) (pid : Z) : bst :=
  Bst d [] (Cmd 0 0 0 0 None) [] true (replicate NBUF zero_buf) [] pid.

Definition boot_cache (d : gmap bkey block) : cache := Cache (disk_block d) (disk_block d) ∅ ∅.

(** [binit] sets up a cache in which nothing is cached. *)
Lemma binit_wp d pid : wp binit (λ _ s, cabs s (boot_cache d) ∧ disk s = d ∧ writes s = [] ∧ mypid s = pid ∧
  idequeue s = [] ∧ havedisk1 s = true) (boot_bst d pid).
Proof.
  unfold binit. wp_auto. split; [|done].
  assert (∀ i b, bufs (boot_bst d pid) !! i = Some b → b = zero_buf) as Hz.
  { intros i b H. by apply lookup_replicate in H as [-> _]. }
  split; cbn [bufs set_bufs set_lru lru disk boot_bst]; try done.
  - vm_compute. rewrite <- reverse_Permutation. reflexivity.
  - intros i j b b'. rewrite list_lookup_fmap. intros (b0 & Hb0 & ->)%fmap_Some _ Hd.
    by rewrite (Hz _ _ Hb0) in Hd.
  - intros i b. rewrite list_lookup_fmap. intros (b0 & Hb0 & ->)%fmap_Some. by rewrite (Hz _ _ Hb0).
Qed.

Definition demo_ops : list bop :=
  [OpRead (1, 3); OpSet (1, 3) (replicate 512 7); OpPin (1, 3); OpRelease (1, 3); OpRead (1, 3);
   OpWrite (1, 3); OpRelease (1, 3); OpRead (1, 4)].

Lemma bcache_refines_witness :
  ∃ s, wp binit (λ _ s', s' = s) (boot_bst ∅ 1) ∧
  wp (run_ops (mem_iderw 1000) demo_ops ∅) (λ x _, x.2 = [zero_block; replicate 512 7; zero_block]) s.
Proof.
  destruct (proj1 (wp_Ok _ _ _) (binit_wp ∅ 1)) as ([] & s & Hs & A & _).
  exists s. split; [unfold wp; by rewrite Hs|].
  eapply wp_mono; [apply (bcache_refines (mem_iderw 1000) demo_ops s (boot_cache ∅)); [by split|]|].
  - vm_compute. reflexivity.
  - intros x s' (-> & _). reflexivity.
Defined.
