(* ===== verification/Log.v ===== *)
(** The write-ahead log (log.c) and the superblock (fs.h, [readsb] of fs.c).

    [begin_op], [end_op] and [log_write] are atomic sections under
    [log.lock]; a call that has to wait is a [Sleep] outcome. *)

From S2P Require Import Prelude Mmu Block Ide Bio.

(** ** Data *)

Record superblock := Sb {
  sb_size : Z; sb_nblocks : Z; sb_ninodes : Z; sb_nlog : Z;
  sb_logstart : Z; sb_inodestart : Z; sb_bmapstart : Z;
}.

(** The bytes of a superblock. *)
Definition parse_sb (x : block) : superblock :=
  Sb (get32 x 0) (get32 x 4) (get32 x 8) (get32 x 12) (get32 x 16) (get32 x 20) (get32 x 24).

(** [struct log], with its header [lh] flattened. *)
Record logst := Log {
  l_start : Z;
  l_size : Z;
  l_outstanding : Z;
  l_committing : bool;
  l_dev : Z;
  l_n : Z;
  l_block : list Z;
}.

Definition set_n (n : Z) (l : logst) : logst :=
  Log (l_start l) (l_size l) (l_outstanding l) (l_committing l) (l_dev l) n (l_block l).
Definition set_block (b : list Z) (l : logst) : logst :=
  Log (l_start l) (l_size l) (l_outstanding l) (l_committing l) (l_dev l) (l_n l) b.
Definition set_outstanding (n : Z) (l : logst) : logst :=
  Log (l_start l) (l_size l) n (l_committing l) (l_dev l) (l_n l) (l_block l).
Definition set_committing (b : bool) (l : logst) : logst :=
  Log (l_start l) (l_size l) (l_outstanding l) b (l_dev l) (l_n l) (l_block l).

(** The log on top of the buffer cache. *)
Record lst := Lst { l_b : bst; l_log : logst }.

Definition set_lb (b : bst) (s : lst) : lst := Lst b (l_log s).
Definition set_log (l : logst) (s : lst) : lst := Lst (l_b s) l.
Definition in_b {A} (m : M bst A) : M lst A := zoom l_b set_lb m.
Definition log_get {A} (f : logst → A) : M lst A := gets (λ s, f (l_log s)).
Definition log_mod (f : logst → logst) : M lst () := modify (λ s, set_log (f (l_log s)) s).

(** [log.lh.block[i]]. *)
Definition lh_get (i : Z) : M lst Z :=
  b ← log_get l_block;
  match b !! Z.to_nat i with Some x => mret x | None => fault "lh.block index" end.
Definition lh_set (i x : Z) : M lst () :=
  b ← log_get l_block;
  if decide (Z.to_nat i < length b)%nat then log_mod (set_block (<[Z.to_nat i := x]> b))
  else fault "lh.block index".

(** [for(i = ...; ...; i++)] over a list of indices. *)
Fixpoint for_each {S} (l : list Z) (f : Z → M S ()) : M S () :=
  match l with
  | [] => mret tt
  | i :: l' => f i;; for_each l' f
  end.

Lemma for_each_app {S} l1 l2 (f : Z → M S ()) Q s :
  wp (for_each l1 f) (λ _, wp (for_each l2 f) Q) s → wp (for_each (l1 ++ l2) f) Q s.
Proof.
  revert s. induction l1 as [|i l1 IH]; intros s H; simpl in *; [exact H|].
  apply wp_bind. apply wp_bind_inv in H. eapply wp_mono; [exact H|]. intros [] s' H'. by apply IH.
Qed.

(** ** log.c *)

Section log.
Context (iderw : nat → M bst ()).
Notation bread := (bread iderw).
Notation bwrite := (bwrite iderw).

Definition readsb (dev : Z) : M bst superblock :=
  bp ← bread dev 1;
  x ← buf_data bp;
  brelse bp;;
  mret (parse_sb x).

Definition install_one (tail : Z) : M lst () :=
  dev ← log_get l_dev;
  start ← log_get l_start;
  lbuf ← in_b (bread dev (u32 (start + tail + 1)));
  bno ← lh_get tail;
  dbuf ← in_b (bread dev (u32 bno));
  x ← in_b (buf_data lbuf);
  in_b (set_data dbuf x);;
  in_b (bwrite dbuf);;
  in_b (brelse lbuf);;
  in_b (brelse dbuf).

Definition install_trans : M lst () :=
  n ← log_get l_n;
  for_each (seqZ 0 n) install_one.

Definition read_head : M lst () :=
  dev ← log_get l_dev;
  start ← log_get l_start;
  buf ← in_b (bread dev (u32 start));
  x ← in_b (buf_data buf);
  log_mod (set_n (i32 (get32 x 0)));;
  n ← log_get l_n;
  for_each (seqZ 0 n) (λ i, lh_set i (i32 (get32 x (Z.to_nat (4 + 4 * i)))));;
  in_b (brelse buf).

Definition write_head : M lst () :=
  dev ← log_get l_dev;
  start ← log_get l_start;
  buf ← in_b (bread dev (u32 start));
  x ← in_b (buf_data buf);
  n ← log_get l_n;
  in_b (set_data buf (put32 x 0 (u32 n)));;
  for_each (seqZ 0 n) (λ i,
    b ← lh_get i;
    x ← in_b (buf_data buf);
    in_b (set_data buf (put32 x (Z.to_nat (4 + 4 * i)) (u32 b))));;
  in_b (bwrite buf);;
  in_b (brelse buf).

Definition recover_from_log : M lst () :=
  read_head;;
  install_trans;;
  log_mod (set_n 0);;
  write_head.

Definition initlog (dev : Z) : M lst () :=
  sb ← in_b (readsb dev);
  log_mod (λ l, Log (i32 (sb_logstart sb)) (i32 (sb_nlog sb)) (l_outstanding l) (l_committing l) dev (l_n l) (l_block l));;
  recover_from_log.

Definition begin_op : M lst () :=
  c ← log_get l_committing;
  if (c : bool) then sleep_on ChLog else
  n ← log_get l_n;
  o ← log_get l_outstanding;
  if LOGSIZE <? n + (o + 1) * MAXOPBLOCKS then sleep_on ChLog else
  log_mod (set_outstanding (o + 1)).

Definition write_log_one (tail : Z) : M lst () :=
  dev ← log_get l_dev;
  start ← log_get l_start;
  to ← in_b (bread dev (u32 (start + tail + 1)));
  bno ← lh_get tail;
  from ← in_b (bread dev (u32 bno));
  x ← in_b (buf_data from);
  in_b (set_data to x);;
  in_b (bwrite to);;
  in_b (brelse from);;
  in_b (brelse to).

Definition write_log : M lst () :=
  n ← log_get l_n;
  for_each (seqZ 0 n) write_log_one.

Definition commit : M lst () :=
  n ← log_get l_n;
  when (0 <? n) (
    write_log;;
    write_head;;
    install_trans;;
    log_mod (set_n 0);;
    write_head).

Definition end_op : M lst () :=
  o ← log_get l_outstanding;
  log_mod (set_outstanding (o - 1));;
  c ← log_get l_committing;
  if (c : bool) then panic "log.committing" else
  if o - 1 =? 0 then
    log_mod (set_committing true);;
    commit;;
    log_mod (set_committing false)
  else mret tt.

(** The first entry equal to [b], or [n]. *)
Fixpoint absorb (b : Z) (l : list Z) (n : nat) : nat :=
  match n, l with
  | S n', x :: l' => if u32 x =? b then O else S (absorb b l' n')
  | _, _ => n
  end.

Definition log_write (i : nat) : M lst () :=
  n ← log_get l_n;
  size ← log_get l_size;
  if (LOGSIZE <=? n) || (size - 1 <=? n) then panic "too big a transaction" else
  o ← log_get l_outstanding;
  if o <? 1 then panic "log_write outside of trans" else
  b ← in_b (get_buf i);
  l ← log_get l_block;
  let j := Z.of_nat (absorb (b_blockno b) l (Z.to_nat n)) in
  lh_set j (i32 (b_blockno b));;
  when (j =? n) (log_mod (set_n (n + 1)));;
  in_b (pin_buf i).
End log.
