(* ===== verification/LogSpec.v ===== *)
(** What the log does: the writes of a commit in order, and the state after
    it and after recovery. *)

From S2P Require Import Prelude Mmu Block Ide Bio Log.

(** Block [b] of the file system's disk. *)
Definition fkey (b : Z) : bkey := (1, b).

(** The blocks the log has recorded. *)
Definition lblocks (l : logst) : list Z := take (Z.to_nat (l_n l)) (l_block l).

(** The header block and the log blocks. *)
Definition hkey (l : logst) : bkey := fkey (l_start l).
Definition lkey (l : logst) (i : Z) : bkey := fkey (l_start l + 1 + i).
Definition in_log (l : logst) (b : Z) : Prop := l_start l ≤ b < l_start l + l_size l.

(** The contents of the header block [x] for the blocks [bs]. *)
Fixpoint put_list (x : block) (off : nat) (bs : list Z) : block :=
  match bs with
  | [] => x
  | b :: bs' => put_list (put32 x off (u32 b)) (off + 4) bs'
  end.
Definition header (x : block) (bs : list Z) : block :=
  put_list (put32 x 0 (u32 (Z.of_nat (length bs)))) 4 bs.

(** The block numbers a header block records. *)
Definition decode (x : block) : list Z :=
  (λ i, get32 x (4 + 4 * i)) <$> seq 0 (Z.to_nat (get32 x 0)).

Lemma length_put_list x off bs : (off + 4 * length bs ≤ length x)%nat → length (put_list x off bs) = length x.
Proof.
  revert x off. induction bs as [|b bs IH]; intros x off H; simpl in *; [done|].
  assert (length (put32 x off (u32 b)) = length x) as E.
  { apply length_put_bytes. rewrite length_to_le. lia. }
  rewrite IH; rewrite E; [done|lia].
Qed.

Lemma put_list_before x off bs off' :
  (off + 4 * length bs ≤ length x)%nat → (off' + 4 ≤ off)%nat → get32 (put_list x off bs) off' = get32 x off'.
Proof.
  revert x off. induction bs as [|b bs IH]; intros x off H Hlt; simpl in *; [done|].
  assert (length (put32 x off (u32 b)) = length x) as E.
  { apply length_put_bytes. rewrite length_to_le. lia. }
  rewrite IH; [|rewrite E; lia|lia]. unfold get32, put32.
  rewrite bytes_put_other; [done|rewrite length_to_le; lia|left; lia].
Qed.

Lemma get_put_list x off bs i b :
  (off + 4 * length bs ≤ length x)%nat → bs !! i = Some b → get32 (put_list x off bs) (off + 4 * i) = u32 b.
Proof.
  revert x off i. induction bs as [|b' bs IH]; intros x off i H Hi; [done|]. simpl in *.
  assert (length (put32 x off (u32 b')) = length x) as E.
  { apply length_put_bytes. rewrite length_to_le. lia. }
  destruct i as [|i]; simpl in *.
  - injection Hi as <-. rewrite Nat.add_0_r. rewrite put_list_before; [|rewrite E; lia|lia].
    apply get_put32; [lia|apply u32_range].
  - replace (off + S (i + S (i + S (i + S (i + 0)))))%nat with (off + 4 + 4 * i)%nat by lia.
    apply IH; [rewrite E; lia|done].
Qed.

(** What [write_head] stores is what [read_head] finds. *)
Lemma decode_header x bs :
  length x = 512%nat → (length bs ≤ 30)%nat → (∀ b, b ∈ bs → 0 ≤ b < 2 ^ 31) → decode (header x bs) = bs.
Proof.
  intros Hx Hn Hbs. unfold decode, header.
  assert (length (put32 x 0 (u32 (Z.of_nat (length bs)))) = 512%nat) as E.
  { unfold put32. rewrite length_put_bytes; rewrite ?length_to_le; lia. }
  rewrite put_list_before by (rewrite ?E; lia).
  rewrite get_put32 by (rewrite ?Hx; first [lia|apply u32_range]).
  rewrite u32_small in E |- * by lia. rewrite Nat2Z.id. apply list_eq. intros i.
  rewrite list_lookup_fmap. destruct (decide (i < length bs)%nat) as [Hi|Hi].
  - rewrite lookup_seq_lt by done. destruct (lookup_lt_is_Some_2 _ _ Hi) as [b Hb]. rewrite Hb.
    cbn [fmap option_fmap option_map]. f_equal. rewrite Nat.add_0_l.
    rewrite (get_put_list _ _ _ _ b); [|rewrite E; lia|exact Hb]. apply u32_small.
    specialize (Hbs b ltac:(by eapply list_elem_of_lookup_2)). lia.
  - rewrite lookup_seq_ge by lia. symmetry. apply lookup_ge_None. lia.
Qed.

(** A block overwritten on the disk and in the cache. *)
Definition copied (k : bkey) (x : block) (c : cache) : cache :=
  Cache (<[k := x]> (c_disk c)) (<[k := x]> (c_view c)) (c_held c) (c_dirty c ∖ {[k]}).

(** A sequence of writes: to the disk, and to disk and cache. *)
Definition apply_writes (ws : list (bkey * block)) (f : bkey → block) : bkey → block :=
  foldl (λ f w, <[w.1 := w.2]> f) f ws.
Definition copied_all (ws : list (bkey * block)) (c : cache) : cache :=
  foldl (λ c w, copied w.1 w.2 c) c ws.

Lemma apply_writes_app ws ws' f : apply_writes (ws ++ ws') f = apply_writes ws' (apply_writes ws f).
Proof. apply foldl_app. Qed.

Lemma apply_writes_ext ws f g : (∀ k, f k = g k) → ∀ k, apply_writes ws f k = apply_writes ws g k.
Proof.
  revert f g. induction ws as [|w ws IH]; intros f g H k; [apply H|]. cbn. apply IH. intros k'.
  destruct (decide (w.1 = k')) as [<-|Hne]; [by rewrite !fn_lookup_insert|by rewrite !fn_lookup_insert_ne].
Qed.

Lemma apply_writes_other ws f k : k ∉ ws.*1 → apply_writes ws f k = f k.
Proof.
  revert f. induction ws as [|w ws IH]; intros f H; [done|]. simpl in *.
  apply not_elem_of_cons in H as [Hne H]. rewrite IH by done. by rewrite fn_lookup_insert_ne.
Qed.

Lemma apply_writes_in ws f k x : NoDup ws.*1 → (k, x) ∈ ws → apply_writes ws f k = x.
Proof.
  revert f. induction ws as [|w ws IH]; intros f Hnd H; [by apply elem_of_nil in H|]. simpl in *.
  apply NoDup_cons in Hnd as [Hn Hnd]. apply elem_of_cons in H as [<-|H]; [|by apply IH].
  rewrite apply_writes_other by done. by rewrite fn_lookup_insert.
Qed.

Lemma copied_all_eq ws c : copied_all ws c =
  Cache (apply_writes ws (c_disk c)) (apply_writes ws (c_view c)) (c_held c) (c_dirty c ∖ list_to_set ws.*1).
Proof.
  revert c. induction ws as [|w ws IH]; intros c; simpl.
  - destruct c. cbn. f_equal. set_solver.
  - rewrite IH. cbn. f_equal. set_solver.
Qed.

(** Where the blocks of the log go: to the log, and home. *)
Definition log_ws (l : logst) (v : bkey → block) : list (bkey * block) :=
  imap (λ i b, (lkey l (Z.of_nat i), v (fkey b))) (lblocks l).
Definition home_ws (l : logst) (v : bkey → block) : list (bkey * block) :=
  imap (λ i b, (fkey b, v (lkey l (Z.of_nat i)))) (lblocks l).

(** The writes of a commit, in order: the blocks to the log, the header with
    their numbers, the blocks to their homes, the empty header. *)
Definition head_on (l : logst) (v : bkey → block) : block := header (v (hkey l)) (lblocks l).
Definition head_off (x : block) : block := header x [].
Definition commit_ws (l : logst) (v : bkey → block) : list (bkey * block) :=
  log_ws l v ++ (hkey l, head_on l v) :: ((λ b, (fkey b, v (fkey b))) <$> lblocks l) ++
  [(hkey l, head_off (head_on l v))].

Section spec.
Context (iderw : nat → M bst ()) `{!DiskDriver iderw} (Hds : disk_size ≤ 2 ^ 31).
Notation on_disk := (on_disk iderw).
Notation bio_ok := (bio_ok iderw).

(** The log area of the disk. *)
Record log_place (l : logst) : Prop := {
  lp_dev : l_dev l = 1;
  lp_start : 0 ≤ l_start l;
  lp_end : l_start l + l_size l ≤ disk_size;
  lp_size : 1 ≤ l_size l ≤ LOGSIZE;
  lp_len : length (l_block l) = Z.to_nat LOGSIZE;
}.

(** The log and the blocks it has recorded. *)
Record log_wf (l : logst) : Prop := {
  lw_place : log_place l;
  lw_n : 0 ≤ l_n l ≤ l_size l - 1;
  lw_nodup : NoDup (lblocks l);
  lw_blocks : ∀ b, b ∈ lblocks l → 0 ≤ b < disk_size ∧ ¬ in_log l b;
}.

Lemma lw_dev l : log_wf l → l_dev l = 1.
Proof. intros W. apply (lw_place _ W). Qed.
Lemma lw_size l : log_wf l → 1 ≤ l_size l ≤ LOGSIZE.
Proof. intros W. apply (lw_place _ W). Qed.
Lemma lw_len l : log_wf l → length (l_block l) = Z.to_nat LOGSIZE.
Proof. intros W. apply (lw_place _ W). Qed.

Lemma lblocks_len l : log_wf l → length (lblocks l) = Z.to_nat (l_n l).
Proof.
  intros W. unfold lblocks. rewrite length_take, (lw_len _ W).
  pose proof (lw_n _ W). pose proof (lw_size _ W). lia.
Qed.

Lemma lblocks_get l i b :
  lblocks l !! Z.to_nat i = Some b → l_block l !! Z.to_nat i = Some b.
Proof. unfold lblocks. intros [? _]%lookup_take_Some. done. Qed.

Lemma lblocks_lookup l i : log_wf l → 0 ≤ i < l_n l → ∃ b, lblocks l !! Z.to_nat i = Some b.
Proof. intros W Hi. apply lookup_lt_is_Some. rewrite lblocks_len by done. lia. Qed.

Lemma lh_get_wp s i b Q : l_block (l_log s) !! Z.to_nat i = Some b → Q b s → wp (lh_get i) Q s.
Proof. intros Hb HQ. unfold lh_get, log_get. wp_auto. rewrite Hb. by wp_auto. Qed.

Lemma lkey_disk l i : log_wf l → 0 ≤ i < l_n l → on_disk (lkey l i) ∧ u32 (l_start l + i + 1) = l_start l + 1 + i.
Proof.
  intros [[] ?] Hi. unfold on_disk, lkey, fkey. simpl. split; [lia|]. rewrite u32_small by lia. lia.
Qed.

Lemma hkey_disk l : log_place l → on_disk (hkey l) ∧ u32 (l_start l) = l_start l.
Proof. intros []. unfold on_disk, hkey, fkey. simpl. split; [lia|]. apply u32_small. lia. Qed.

Lemma block_disk l b : log_wf l → b ∈ lblocks l → on_disk (fkey b) ∧ u32 b = b ∧ ∀ i, 0 ≤ i < l_n l → fkey b ≠ lkey l i.
Proof.
  intros W Hb. destruct (lw_blocks _ W b Hb) as [Hr Hn]. unfold on_disk, fkey, lkey, in_log in *. simpl.
  split_and!; [done|lia|lia|apply u32_small; lia|]. intros i Hi [= ->]. pose proof (lw_n _ W). lia.
Qed.

(** A buffer that is not held can be released after it has been read. *)
Lemma clean_or_pinned s c k : bio_ok s c → c_held c !! k = None → k ∈ c_dirty c ∨ c_view c k = c_disk c k.
Proof.
  intros [A _] Hh. destruct (decide (k ∈ c_dirty c)); [by left|right]. by apply (ca_clean _ _ A).
Qed.

(** The part the loops of [write_log] and [install_trans] share: both blocks
    are held, one is copied to the other and written. *)
Lemma copy_wp b l c from to i j Q :
  bio_ok b (hold_block from j (hold_block to i c)) → from ≠ to → c_held c = ∅ → on_disk to →
  from ∈ c_dirty c ∨ c_view c from = c_disk c from →
  (∀ b', bio_ok b' (copied to (c_view c from) c) → writes b' = writes b ++ [(to, c_view c from)] →
     mypid b' = mypid b → Q tt (Lst b' l)) →
  wp (x ← in_b (buf_data j); in_b (set_data i x);; in_b (bwrite iderw i);;
      in_b (brelse j);; in_b (brelse i)) Q (Lst b l).
Proof.
  intros Hok Hne Hh Hto Hcl HQ. apply wp_bind, wp_zoom. cbn [l_b set_lb].
  eapply (buf_data_wp iderw _ _ from); [done|cbn; apply lookup_insert_eq|]. apply wp_bind, wp_zoom. cbn [l_b set_lb l_log c_view hold_block].
  eapply (set_data_wp iderw _ _ to); [done|cbn; rewrite lookup_insert_ne by done; apply lookup_insert_eq|].
  intros b3 Hok3 W3 P3. apply wp_bind, wp_zoom. cbn [l_b set_lb l_log].
  eapply (bwrite_wp iderw _ _ to); [done|cbn; rewrite lookup_insert_ne by done; apply lookup_insert_eq|done|].
  intros b4 Hok4 W4 P4. apply wp_bind, wp_zoom. cbn [l_b set_lb l_log].
  eapply (brelse_wp iderw _ _ from); [done|cbn; apply lookup_insert_eq| |].
  { cbn. rewrite fn_lookup_insert, !fn_lookup_insert_ne by done. destruct Hcl; [left; set_solver|by right]. }
  intros b5 Hok5 W5 P5. apply wp_zoom. cbn [l_b set_lb l_log].
  eapply (brelse_wp iderw _ _ to); [done|cbn| |].
  { rewrite delete_insert_id; [apply lookup_insert_eq|]. rewrite Hh. by rewrite lookup_insert_ne. }
  { right. cbn. by rewrite !fn_lookup_insert. }
  intros b6 Hok6 W6 P6. cbn [set_lb l_log]. apply HQ.
  - unfold copied. unfold drop_block, flush_block, edit_block, hold_block in Hok6. cbn in Hok6.
    rewrite fn_lookup_insert, Hh in Hok6. rewrite delete_insert_id in Hok6 by (by rewrite lookup_insert_ne).
    rewrite delete_insert_id in Hok6 by done. by rewrite Hh.
  - rewrite W6, W5, W4, W3. cbn. by rewrite fn_lookup_insert.
  - congruence.
Qed.

(** [write_log]'s loop body: a cached block goes to its place in the log. *)
Lemma write_log_one_wp b l c tail bno Q :
  bio_ok b c → log_wf l → c_held c = ∅ → (size ({[lkey l tail]} ∪ c_dirty c) ≤ NBUF)%nat →
  0 ≤ tail < l_n l → lblocks l !! Z.to_nat tail = Some bno → fkey bno ∈ c_dirty c →
  (∀ b', bio_ok b' (copied (lkey l tail) (c_view c (fkey bno)) c) →
     writes b' = writes b ++ [(lkey l tail, c_view c (fkey bno))] → mypid b' = mypid b → Q tt (Lst b' l)) →
  wp (write_log_one iderw tail) Q (Lst b l).
Proof using Hds.
  intros Hok W Hh Hsz Ht Hb Hd HQ. unfold write_log_one, log_get. wp_auto. cbn [l_log].
  destruct (lkey_disk l tail W Ht) as [Hl El].
  destruct (block_disk l bno W) as (Hbd & Eb & Hne); [by eapply list_elem_of_lookup_2|].
  rewrite (lw_dev _ W), El.
  apply wp_zoom. cbn [l_b set_lb]. eapply (bread_wp iderw _ _ (lkey l tail)); [done|done|by rewrite Hh| |].
  { unfold c_used. by rewrite Hh, dom_empty_L, (left_id_L ∅ _). }
  intros b1 i Hok1 W1 P1. wp_auto. eapply lh_get_wp; [by apply lblocks_get|]. apply wp_bind, wp_zoom.
  rewrite Eb. cbn [l_b set_lb l_log]. eapply (bread_wp iderw _ _ (fkey bno)); [done|done| | |].
  { cbn. rewrite Hh, lookup_insert_ne; [done|]. intros E. by apply (Hne tail). }
  { unfold c_used. cbn. rewrite Hh, insert_empty, dom_singleton_L.
    replace ({[fkey bno]} ∪ ({[lkey l tail]} ∪ c_dirty c)) with ({[lkey l tail]} ∪ c_dirty c) by set_solver. done. }
  intros b2 j Hok2 W2 P2. cbn [set_lb l_log]. eapply copy_wp; [exact Hok2|by apply Hne|done|done|by left|].
  intros b' Hok' Hw Hp. apply HQ; [done|congruence|congruence].
Qed.

(** [install_trans]'s loop body: a block of the log goes home. *)
Lemma install_one_wp b l c tail bno Q :
  bio_ok b c → log_wf l → c_held c = ∅ → (size ({[lkey l tail]} ∪ ({[fkey bno]} ∪ c_dirty c)) ≤ NBUF)%nat →
  0 ≤ tail < l_n l → lblocks l !! Z.to_nat tail = Some bno → lkey l tail ∉ c_dirty c →
  (∀ b', bio_ok b' (copied (fkey bno) (c_view c (lkey l tail)) c) →
     writes b' = writes b ++ [(fkey bno, c_view c (lkey l tail))] → mypid b' = mypid b → Q tt (Lst b' l)) →
  wp (install_one iderw tail) Q (Lst b l).
Proof using Hds.
  intros Hok W Hh Hsz Ht Hb Hd HQ. unfold install_one, log_get. wp_auto. cbn [l_log].
  destruct (lkey_disk l tail W Ht) as [Hl El].
  destruct (block_disk l bno W) as (Hbd & Eb & Hne); [by eapply list_elem_of_lookup_2|].
  rewrite (lw_dev _ W), El.
  apply wp_zoom. cbn [l_b set_lb]. eapply (bread_wp iderw _ _ (lkey l tail)); [done|done|by rewrite Hh| |].
  { unfold c_used. rewrite Hh, dom_empty_L, (left_id_L ∅ _). etrans; [|exact Hsz]. apply subseteq_size. set_solver. }
  intros b1 i Hok1 W1 P1. wp_auto. eapply lh_get_wp; [by apply lblocks_get|]. apply wp_bind, wp_zoom.
  rewrite Eb. cbn [l_b set_lb l_log]. eapply (bread_wp iderw _ _ (fkey bno)); [done|done| | |].
  { cbn. rewrite Hh, lookup_insert_ne; [done|]. intros E. by apply (Hne tail). }
  { unfold c_used. cbn. rewrite Hh, insert_empty, dom_singleton_L. etrans; [|exact Hsz]. apply subseteq_size. set_solver. }
  intros b2 j Hok2 W2 P2. cbn [set_lb l_log].
  eapply (copy_wp b2 l c (lkey l tail) (fkey bno)); [|intros E; by apply (Hne tail)|done|done| |].
  - unfold hold_block in *. cbn in *. rewrite insert_insert_ne by (intros E; by apply (Hne tail)). exact Hok2.
  - right. apply (ca_clean _ _ (proj1 Hok)); [by rewrite Hh|done].
  - intros b' Hok' Hw Hp. apply HQ; [done|congruence|congruence].
Qed.

(** A loop whose [i]th pass makes the [i]th of a list of writes. *)
Lemma loop_copies (body : Z → M lst ()) l ws c b Q :
  (∀ i w b Q, ws !! i = Some w → bio_ok b (copied_all (take i ws) c) →
     (∀ b', bio_ok b' (copied_all (take (S i) ws) c) → writes b' = writes b ++ [w] →
        mypid b' = mypid b → Q tt (Lst b' l)) →
     wp (body (Z.of_nat i)) Q (Lst b l)) →
  bio_ok b c →
  (∀ b', bio_ok b' (copied_all ws c) → writes b' = writes b ++ ws → mypid b' = mypid b → Q tt (Lst b' l)) →
  wp (for_each (seqZ 0 (Z.of_nat (length ws))) body) Q (Lst b l).
Proof.
  intros Hbody Hok HQ.
  assert (∀ m Q, (m ≤ length ws)%nat →
    (∀ b', bio_ok b' (copied_all (take m ws) c) → writes b' = writes b ++ take m ws →
       mypid b' = mypid b → Q tt (Lst b' l)) →
    wp (for_each (seqZ 0 (Z.of_nat m)) body) Q (Lst b l)) as H.
  { clear HQ Q. induction m as [|m IH]; intros Q Hm HQ.
    - apply HQ; [done|by rewrite app_nil_r|done].
    - destruct (lookup_lt_is_Some_2 ws m) as [w Hw]; [lia|].
      replace (Z.of_nat (S m)) with (Z.of_nat m + 1) by lia. rewrite seqZ_app by lia. apply for_each_app.
      apply IH; [lia|]. intros b1 Hok1 W1 P1. simpl. apply wp_bind.
      eapply Hbody; [done|done|]. intros b2 Hok2 W2 P2. wp_auto. apply HQ; [done| |congruence].
      rewrite W2, W1, (take_S_r _ _ _ Hw). by rewrite app_assoc. }
  apply H; [done|]. rewrite firstn_all. done.
Qed.

Lemma copied_all_S ws i w c :
  ws !! i = Some w → copied_all (take (S i) ws) c = copied w.1 w.2 (copied_all (take i ws) c).
Proof. intros Hw. rewrite (take_S_r _ _ _ Hw). unfold copied_all. by rewrite foldl_app. Qed.

Lemma log_ws_len l v : length (log_ws l v) = length (lblocks l).
Proof. apply length_imap. Qed.
Lemma home_ws_len l v : length (home_ws l v) = length (lblocks l).
Proof. apply length_imap. Qed.

Lemma take_keys (ws : list (bkey * block)) i k : k ∈ (take i ws).*1 → k ∈ ws.*1.
Proof. rewrite fmap_take. intros (j & Hj & _)%elem_of_take. by eapply list_elem_of_lookup_2. Qed.

Lemma log_keys l v k : k ∈ (log_ws l v).*1 → ∃ i b, lblocks l !! i = Some b ∧ k = lkey l (Z.of_nat i).
Proof.
  intros (w & -> & (i & b & -> & Hb)%elem_of_lookup_imap)%list_elem_of_fmap. by exists i, b.
Qed.

Lemma home_keys l v k : k ∈ (home_ws l v).*1 ↔ ∃ b, b ∈ lblocks l ∧ k = fkey b.
Proof.
  rewrite list_elem_of_fmap. split.
  - intros (w & -> & (i & b & -> & Hb)%elem_of_lookup_imap). exists b. split; [|done]. by eapply list_elem_of_lookup_2.
  - intros (b & [i Hi]%list_elem_of_lookup & ->). eexists. split; [|by eapply elem_of_lookup_imap_2]. done.
Qed.

Lemma lblocks_index l i b : log_wf l → lblocks l !! i = Some b → 0 ≤ Z.of_nat i < l_n l.
Proof. intros W Hb. apply lookup_lt_Some in Hb. rewrite lblocks_len in Hb by done. lia. Qed.

(** A block of the transaction is not in the log area. *)
Lemma block_not_log l v b : log_wf l → b ∈ lblocks l → fkey b ∉ (log_ws l v).*1.
Proof.
  intros W Hb (i & b' & Hi & E)%log_keys. destruct (block_disk l b W Hb) as (_ & _ & Hne).
  by apply (Hne (Z.of_nat i)); [eapply lblocks_index|].
Qed.

(** What the log pins. *)
Definition pinned (l : logst) : gset bkey := list_to_set (fkey <$> lblocks l).

Lemma elem_of_pinned l k : k ∈ pinned l ↔ ∃ b, b ∈ lblocks l ∧ k = fkey b.
Proof. unfold pinned. rewrite elem_of_list_to_set, list_elem_of_fmap. naive_solver. Qed.

Lemma pinned_size (l : logst) (X : gset bkey) (k : bkey) : log_wf l → X ⊆ pinned l → (size ({[k]} ∪ X) ≤ NBUF)%nat.
Proof.
  intros W HX. assert (size X ≤ 29)%nat as Hs.
  { etrans; [by apply subseteq_size|]. unfold pinned.
    rewrite size_list_to_set by (apply NoDup_fmap; [by intros ? ? [=]|apply (lw_nodup _ W)]).
    rewrite length_fmap, lblocks_len by done. pose proof (lw_n _ W). pose proof (lw_size _ W). unfold LOGSIZE, MAXOPBLOCKS in *. lia. }
  rewrite size_union_alt, size_singleton. unfold NBUF.
  assert (size (X ∖ {[k]}) ≤ size X)%nat by (apply subseteq_size; set_solver). lia.
Qed.

Lemma write_log_wp b l c Q :
  bio_ok b c → log_wf l → c_held c = ∅ → c_dirty c = pinned l →
  (∀ b', bio_ok b' (copied_all (log_ws l (c_view c)) c) → writes b' = writes b ++ log_ws l (c_view c) →
     mypid b' = mypid b → Q tt (Lst b' l)) →
  wp (write_log iderw) Q (Lst b l).
Proof using Hds.
  intros Hok W Hh Hd HQ. unfold write_log, log_get. wp_auto. cbn [l_log].
  replace (l_n l) with (Z.of_nat (length (log_ws l (c_view c)))).
  2:{ rewrite log_ws_len, lblocks_len by done. pose proof (lw_n _ W). lia. }
  eapply loop_copies; [|exact Hok|exact HQ]. clear HQ Q b Hok. intros i w b Q Hw Hok HQ.
  pose proof Hw as (bno & Hb & ->)%list_lookup_imap_Some.
  rewrite copied_all_eq in Hok.
  eapply write_log_one_wp; [exact Hok|done|done| | | | |].
  - cbn. apply (pinned_size l); [done|]. rewrite Hd. set_solver.
  - by eapply lblocks_index.
  - by rewrite Nat2Z.id.
  - cbn. rewrite Hd. apply elem_of_difference. split.
    + apply elem_of_pinned. exists bno. split; [|done]. by eapply list_elem_of_lookup_2.
    + rewrite elem_of_list_to_set. intros H%take_keys. eapply block_not_log; [done| |exact H].
      by eapply list_elem_of_lookup_2.
  - cbn. intros b' Hok' Hw' Hp. rewrite <- copied_all_eq in Hok'.
    assert (apply_writes (take i (log_ws l (c_view c))) (c_view c) (fkey bno) = c_view c (fkey bno)) as E.
    { apply apply_writes_other. intros H%take_keys. eapply block_not_log; [done| |exact H].
      by eapply list_elem_of_lookup_2. }
    rewrite E in Hok', Hw'. apply HQ; [|done|done]. by rewrite (copied_all_S _ _ _ _ Hw).
Qed.

Lemma install_trans_wp b l c Q :
  bio_ok b c → log_wf l → c_held c = ∅ → c_dirty c ⊆ pinned l →
  (∀ b', bio_ok b' (copied_all (home_ws l (c_view c)) c) → writes b' = writes b ++ home_ws l (c_view c) →
     mypid b' = mypid b → Q tt (Lst b' l)) →
  wp (install_trans iderw) Q (Lst b l).
Proof using Hds.
  intros Hok W Hh Hd HQ. unfold install_trans, log_get. wp_auto. cbn [l_log].
  replace (l_n l) with (Z.of_nat (length (home_ws l (c_view c)))).
  2:{ rewrite home_ws_len, lblocks_len by done. pose proof (lw_n _ W). lia. }
  eapply loop_copies; [|exact Hok|exact HQ]. clear HQ Q b Hok. intros i w b Q Hw Hok HQ.
  pose proof Hw as (bno & Hb & ->)%list_lookup_imap_Some.
  assert (bno ∈ lblocks l) as Hin by by eapply list_elem_of_lookup_2.
  assert (0 ≤ Z.of_nat i < l_n l) as Hi by by eapply lblocks_index.
  assert (∀ b, b ∈ lblocks l → lkey l (Z.of_nat i) ≠ fkey b) as Hne.
  { intros b' Hb' E. destruct (block_disk l b' W Hb') as (_ & _ & Hne). by apply (Hne (Z.of_nat i)). }
  rewrite copied_all_eq in Hok. eapply install_one_wp; [exact Hok|done|done| |done|by rewrite Nat2Z.id| |].
  - cbn. apply (pinned_size l); [done|]. intros k [->%elem_of_singleton|Hk]%elem_of_union.
    + apply elem_of_pinned. by exists bno.
    + set_solver.
  - cbn. intros Hk%elem_of_difference. destruct Hk as [Hk _]. apply Hd, elem_of_pinned in Hk as (b' & Hb' & E).
    by apply (Hne b').
  - cbn. intros b' Hok' Hw' Hp. rewrite <- copied_all_eq in Hok'.
    assert (apply_writes (take i (home_ws l (c_view c))) (c_view c) (lkey l (Z.of_nat i)) = c_view c (lkey l (Z.of_nat i))) as E.
    { apply apply_writes_other. intros H%take_keys. apply home_keys in H as (b2 & Hb2 & E). by apply (Hne b2). }
    rewrite E in Hok', Hw'. apply HQ; [|done|done]. by rewrite (copied_all_S _ _ _ _ Hw).
Qed.

(** *** The header *)

Lemma edit_same k c : edit_block k (c_view c k) c ≡ c.
Proof.
  split_and!; try done. intros k'. cbn. destruct (decide (k = k')) as [<-|Hne].
  - by rewrite fn_lookup_insert.
  - by rewrite fn_lookup_insert_ne.
Qed.

Lemma edit_edit k x y c : edit_block k x (edit_block k y c) ≡ edit_block k x c.
Proof.
  split_and!; try done. intros k'. cbn. destruct (decide (k = k')) as [<-|Hne].
  - by rewrite !fn_lookup_insert.
  - by rewrite !fn_lookup_insert_ne.
Qed.

(** The loop of [write_head]: entries [i] and up. *)
Lemma head_loop bs i x b l c buf Q :
  bio_ok b c → c_held c !! hkey l = Some buf → c_view c (hkey l) = x →
  (∀ j bno, bs !! j = Some bno → l_block l !! (i + j)%nat = Some bno) →
  (∀ b', bio_ok b' (edit_block (hkey l) (put_list x (4 + 4 * i) bs) c) → writes b' = writes b →
     mypid b' = mypid b → Q tt (Lst b' l)) →
  wp (for_each (seqZ (Z.of_nat i) (Z.of_nat (length bs))) (λ i,
    b ← lh_get i; x ← in_b (buf_data buf); in_b (set_data buf (put32 x (Z.to_nat (4 + 4 * i)) (u32 b)))))
    Q (Lst b l).
Proof.
  revert i x b c. induction bs as [|bno bs IH]; intros i x b c Hok Hh Hx Hbs HQ.
  - simpl. wp_auto. apply HQ; [|done|done]. cbn [put_list]. by rewrite <- Hx, edit_same.
  - cbn [length]. rewrite Nat2Z.inj_succ, seqZ_cons by lia. rewrite Z.pred_succ. cbn [for_each].
    apply wp_bind, wp_bind. eapply lh_get_wp; [rewrite Nat2Z.id; specialize (Hbs O bno eq_refl); by rewrite Nat.add_0_r in Hbs|].
    apply wp_bind, wp_zoom. eapply (buf_data_wp iderw _ _ (hkey l)); [done|done|]. apply wp_zoom.
    eapply (set_data_wp iderw _ _ (hkey l)); [done|done|]. intros b1 Hok1 W1 P1. cbn [set_lb l_log l_b] in *.
    replace (Z.succ (Z.of_nat i)) with (Z.of_nat (S i)) by lia.
    eapply IH; [exact Hok1|done|cbn; by rewrite fn_lookup_insert| |].
    + intros j b2 Hj. replace (S i + j)%nat with (i + S j)%nat by lia. by apply Hbs.
    + intros b2 Hok2 W2 P2. apply HQ; [|congruence|congruence]. rewrite edit_edit in Hok2.
      cbn [put_list]. rewrite <- Hx. replace (4 + 4 * i + 4)%nat with (4 + 4 * S i)%nat by lia.
      replace (4 + 4 * i)%nat with (Z.to_nat (4 + 4 * Z.of_nat i)) by lia. done.
Qed.

Lemma write_head_wp b l c Q :
  bio_ok b c → log_wf l → c_held c = ∅ → c_dirty c ⊆ pinned l →
  let x := header (c_view c (hkey l)) (lblocks l) in
  (∀ b', bio_ok b' (copied (hkey l) x c) → writes b' = writes b ++ [(hkey l, x)] →
     mypid b' = mypid b → Q tt (Lst b' l)) →
  wp (write_head iderw) Q (Lst b l).
Proof using Hds.
  intros Hok W Hh Hd x HQ. unfold write_head, log_get. wp_auto. cbn [l_log].
  assert (Z.of_nat (length (lblocks l)) = l_n l) as En by (rewrite lblocks_len by done; pose proof (lw_n _ W); lia).
  unfold x, header in HQ. rewrite En in HQ. clear x.
  destruct (hkey_disk l (lw_place _ W)) as [Hk Ek]. rewrite (lw_dev _ W), Ek.
  apply wp_zoom. eapply (bread_wp iderw _ _ (hkey l)); [done|done|by rewrite Hh| |].
  { unfold c_used. rewrite Hh, dom_empty_L, (left_id_L ∅ _). by apply (pinned_size l). }
  intros b1 i Hok1 W1 P1. cbn [set_lb l_log l_b] in *. apply wp_bind, wp_zoom.
  eapply (buf_data_wp iderw _ _ (hkey l)); [done|apply lookup_insert_eq|]. cbn [set_lb l_log l_b c_view hold_block].
  wp_auto. cbn [l_log]. apply wp_zoom. eapply (set_data_wp iderw _ _ (hkey l)); [done|apply lookup_insert_eq|].
  intros b2 Hok2 W2 P2. cbn [set_lb l_log l_b] in *. apply wp_bind.
  rewrite <- En at 1. eapply (head_loop (lblocks l) 0); [exact Hok2|apply lookup_insert_eq|done| |].
  { intros j bno Hj. rewrite <- (Nat2Z.id (0 + j)). apply lblocks_get. by rewrite Nat2Z.id. }
  intros b3 Hok3 W3 P3. rewrite edit_edit in Hok3. cbn [c_view edit_block] in Hok3. rewrite fn_lookup_insert in Hok3.
  apply wp_bind, wp_zoom. cbn [l_b].
  eapply (bwrite_wp iderw _ _ (hkey l)); [exact Hok3|apply lookup_insert_eq|done|].
  intros b4 Hok4 W4 P4. cbn [set_lb l_log]. apply wp_zoom. cbn [l_b].
  eapply (brelse_wp iderw _ _ (hkey l)); [exact Hok4|apply lookup_insert_eq|right; cbn; by rewrite !fn_lookup_insert|].
  intros b5 Hok5 W5 P5. cbn [set_lb l_log]. apply HQ.
  - unfold copied. unfold drop_block, flush_block, edit_block, hold_block in Hok5. cbn in Hok5.
    rewrite fn_lookup_insert, delete_insert_id in Hok5 by (by rewrite Hh). exact Hok5.
  - cbn in *. rewrite W5, W4, W3, W2, W1. by rewrite fn_lookup_insert.
  - cbn in *. congruence.
Qed.

(** The loop of [read_head]. *)
Lemma read_loop (f : Z → Z) m i b l Q :
  (i + m ≤ length (l_block l))%nat → (∀ j, (j < i)%nat → l_block l !! j = Some (f (Z.of_nat j))) →
  (∀ bl, length bl = length (l_block l) → (∀ j, (j < i + m)%nat → bl !! j = Some (f (Z.of_nat j))) →
     Q tt (Lst b (set_block bl l))) →
  wp (for_each (seqZ (Z.of_nat i) (Z.of_nat m)) (λ j, lh_set j (f j))) Q (Lst b l).
Proof.
  revert i l. induction m as [|m IH]; intros i l Hlen Hpre HQ.
  - simpl. wp_auto. replace l with (set_block (l_block l) l) by by destruct l.
    apply HQ; [done|]. intros j Hj. apply Hpre. lia.
  - rewrite Nat2Z.inj_succ, seqZ_cons by lia. rewrite Z.pred_succ. cbn [for_each]. apply wp_bind.
    unfold lh_set, log_get. apply wp_bind, wp_gets. cbn [l_log]. rewrite Nat2Z.id, decide_True by lia.
    unfold log_mod. apply wp_modify. cbn [l_log set_log l_b]. replace (Z.succ (Z.of_nat i)) with (Z.of_nat (S i)) by lia.
    apply IH; cbn [l_block set_block]; rewrite ?length_insert; [lia| |].
    + intros j Hj. destruct (decide (j = i)) as [->|Hne].
      * apply list_lookup_insert_eq. lia.
      * rewrite list_lookup_insert_ne by done. apply Hpre. lia.
    + intros bl Hl Hbl. apply HQ; [done|]. intros j Hj. apply Hbl. lia.
Qed.

(** A header the log can use. *)
Definition header_ok (l : logst) (x : block) : Prop :=
  0 ≤ get32 x 0 ≤ l_size l - 1 ∧ NoDup (decode x) ∧ ∀ b, b ∈ decode x → 0 ≤ b < disk_size ∧ ¬ in_log l b.

Lemma length_decode x : length (decode x) = Z.to_nat (get32 x 0).
Proof. unfold decode. by rewrite length_fmap, length_seq. Qed.

(** What the loop of [read_head] leaves in memory. *)
Lemma decode_lblocks x l bl :
  length bl = Z.to_nat LOGSIZE → 0 ≤ get32 x 0 ≤ LOGSIZE →
  (∀ b, b ∈ decode x → 0 ≤ b < disk_size) →
  (∀ j, (j < Z.to_nat (get32 x 0))%nat → bl !! j = Some (i32 (get32 x (Z.to_nat (4 + 4 * Z.of_nat j))))) →
  lblocks (set_block bl (set_n (get32 x 0) l)) = decode x.
Proof using Hds.
  intros Hlen Hn Hbs Hbl. apply list_eq. intros j. unfold lblocks. cbn [l_n set_block set_n l_block].
  destruct (decide (j < Z.to_nat (get32 x 0))%nat) as [Hj|Hj].
  - rewrite lookup_take_lt, Hbl by done. replace (Z.to_nat (4 + 4 * Z.of_nat j)) with (4 + 4 * j)%nat by lia.
    assert (decode x !! j = Some (get32 x (4 + 4 * j))) as E.
    { unfold decode. rewrite list_lookup_fmap, lookup_seq_lt by done. done. }
    rewrite E. f_equal. apply i32_small. specialize (Hbs _ ltac:(by eapply list_elem_of_lookup_2)). lia.
  - rewrite lookup_take_ge by lia. symmetry. apply lookup_ge_None. rewrite length_decode. lia.
Qed.

Lemma read_head_wp b l c Q :
  bio_ok b c → log_place l → c_held c = ∅ → c_dirty c = ∅ → header_ok l (c_view c (hkey l)) →
  (∀ b' l', bio_ok b' c → writes b' = writes b → mypid b' = mypid b →
     log_wf l' → l_start l' = l_start l → l_size l' = l_size l → l_outstanding l' = l_outstanding l →
     l_committing l' = l_committing l → lblocks l' = decode (c_view c (hkey l)) → Q tt (Lst b' l')) →
  wp (read_head iderw) Q (Lst b l).
Proof using Hds.
  intros Hok P Hh Hd (Hn & Hnd & Hbs) HQ. unfold read_head, log_get. wp_auto. cbn [l_log].
  destruct (hkey_disk l P) as [Hk Ek]. rewrite (lp_dev _ P), Ek.
  apply wp_zoom. eapply (bread_wp iderw _ _ (hkey l)); [done|done|by rewrite Hh| |].
  { unfold c_used. rewrite Hh, Hd, dom_empty_L, (left_id_L ∅ _), (right_id_L ∅ _), size_singleton. unfold NBUF. lia. }
  intros b1 i Hok1 W1 P1. cbn [set_lb l_log l_b] in *. apply wp_bind, wp_zoom.
  eapply (buf_data_wp iderw _ _ (hkey l)); [done|apply lookup_insert_eq|].
  cbn [set_lb l_log l_b c_view hold_block]. set (x := c_view c (hkey l)) in *. unfold log_mod. wp_auto.
  cbn [l_log set_log l_b l_n set_n]. pose proof (lp_size _ P) as Hsz. unfold LOGSIZE, MAXOPBLOCKS in Hsz.
  rewrite i32_small by lia. set (n := get32 x 0) in *. replace n with (Z.of_nat (Z.to_nat n)) at 1 by lia.
  eapply (read_loop (λ i, i32 (get32 x (Z.to_nat (4 + 4 * i)))) (Z.to_nat n) 0); cbn.
  { rewrite (lp_len _ P). unfold LOGSIZE, MAXOPBLOCKS. lia. }
  { intros j Hj. lia. }
  intros bl Hlen Hbl. apply wp_zoom. cbn [l_b].
  eapply (brelse_wp iderw _ _ (hkey l)); [done|apply lookup_insert_eq| |].
  { right. apply (ca_clean _ _ (proj1 Hok)); [by rewrite Hh|rewrite Hd; set_solver]. }
  intros b2 Hok2 W2 P2. cbn [set_lb l_log l_b].
  assert (lblocks (set_block bl (set_n n l)) = decode x) as El.
  { apply decode_lblocks; [by rewrite Hlen, (lp_len _ P)|unfold LOGSIZE, MAXOPBLOCKS; lia| |exact Hbl].
    intros b0 Hb0. by apply Hbs. }
  apply HQ; try done.
  - unfold drop_block, hold_block in Hok2. cbn in Hok2. rewrite delete_insert_id in Hok2 by (by rewrite Hh). by destruct c.
  - congruence.
  - congruence.
  - split; [by destruct P; split; cbn; congruence|done|..].
    + change (NoDup (lblocks (set_block bl (set_n n l)))). by rewrite El.
    + change (∀ b0, b0 ∈ lblocks (set_block bl (set_n n l)) → 0 ≤ b0 < disk_size ∧ ¬ in_log l b0). by rewrite El.
Qed.

(** *** Commit *)

Lemma copied_all_app ws ws' c : copied_all (ws ++ ws') c = copied_all ws' (copied_all ws c).
Proof. apply foldl_app. Qed.

Lemma hkey_not_log l v : hkey l ∉ (log_ws l v).*1.
Proof. intros (i & b & _ & [=])%log_keys. lia. Qed.

Lemma hkey_not_block l b : log_wf l → b ∈ lblocks l → hkey l ≠ fkey b.
Proof.
  intros W Hb [= E]. destruct (lw_blocks _ W b Hb) as [_ Hn]. apply Hn. unfold in_log.
  pose proof (lw_size _ W). lia.
Qed.

Lemma hkey_not_pinned l : log_wf l → hkey l ∉ pinned l.
Proof. intros W (b & Hb & E)%elem_of_pinned. by eapply hkey_not_block. Qed.

Lemma log_ws_nodup l v : NoDup (log_ws l v).*1.
Proof.
  apply NoDup_alt. intros i j k Hi Hj. rewrite list_lookup_fmap in Hi, Hj.
  apply fmap_Some in Hi as (w & (b & _ & ->)%list_lookup_imap_Some & ->).
  apply fmap_Some in Hj as (w' & (b' & _ & ->)%list_lookup_imap_Some & [=]). lia.
Qed.

(** Once the log is written, what [install_trans] copies home is what the
    cache held. *)
Lemma home_after_log l v f x :
  home_ws l (apply_writes (log_ws l v ++ [(hkey l, x)]) f) = (λ b, (fkey b, v (fkey b))) <$> lblocks l.
Proof.
  apply list_eq. intros i. unfold home_ws. rewrite list_lookup_imap, list_lookup_fmap.
  destruct (lblocks l !! i) as [b|] eqn:Eb; [|done]. simpl. do 2 f_equal.
  rewrite apply_writes_app. cbn. rewrite fn_lookup_insert_ne by (intros [=]; lia).
  apply apply_writes_in; [apply log_ws_nodup|]. exact (elem_of_lookup_imap_2 (λ i b, (lkey l (Z.of_nat i), v (fkey b))) (lblocks l) b i Eb).
Qed.

(** Writing the blocks home unpins all of them. *)
Lemma pins_flushed l (v : bkey → block) ws :
  pinned l ∖ list_to_set (ws ++ ((λ b, (fkey b, v (fkey b))) <$> lblocks l)).*1 = (∅ : gset bkey).
Proof.
  apply set_eq. intros k. rewrite elem_of_difference, elem_of_pinned, elem_of_list_to_set, fmap_app, elem_of_app.
  split; [|by intros ?%not_elem_of_empty]. intros [(b & Hb & ->) Hk]. exfalso. apply Hk. right.
  apply list_elem_of_fmap. exists (fkey b, v (fkey b)). split; [done|].
  by apply (list_elem_of_fmap_2 (λ b, (fkey b, v (fkey b)))).
Qed.

Lemma log_wf_empty l : log_wf l → log_wf (set_n 0 l).
Proof.
  intros [P ? ? ?]. split; [by destruct P| |apply NoDup_nil_2|by intros ? ?%elem_of_nil].
  cbn. destruct P. lia.
Qed.

Lemma commit_wp b l c Q :
  bio_ok b c → log_wf l → c_held c = ∅ → c_dirty c = pinned l → 0 < l_n l →
  (∀ b', bio_ok b' (copied_all (commit_ws l (c_view c)) c) → writes b' = writes b ++ commit_ws l (c_view c) →
     mypid b' = mypid b → Q tt (Lst b' (set_n 0 l))) →
  wp (commit iderw) Q (Lst b l).
Proof using Hds.
  intros Hok W Hh Hd Hn HQ. unfold commit, log_get. apply wp_bind, wp_gets. cbn [l_log].
  destruct (Z.ltb_spec 0 (l_n l)); [|lia]. unfold when. set (v := c_view c) in *.
  apply wp_bind. eapply write_log_wp; [done..|]. intros b1 Hok1 W1 P1. fold v in Hok1, W1.
  apply wp_bind. eapply write_head_wp; [exact Hok1|done|by rewrite copied_all_eq| |].
  { rewrite copied_all_eq. cbn. rewrite Hd. set_solver. }
  intros b2 Hok2 W2 P2.
  assert (c_view (copied_all (log_ws l v) c) (hkey l) = v (hkey l)) as E1.
  { rewrite copied_all_eq. cbn. apply apply_writes_other, hkey_not_log. }
  rewrite E1 in Hok2, W2. fold (head_on l v) in Hok2, W2.
  change (copied (hkey l) (head_on l v) (copied_all (log_ws l v) c))
    with (copied_all [(hkey l, head_on l v)] (copied_all (log_ws l v) c)) in Hok2.
  rewrite <- copied_all_app in Hok2.
  apply wp_bind. eapply install_trans_wp; [exact Hok2|done|by rewrite copied_all_eq| |].
  { rewrite copied_all_eq. cbn. rewrite Hd. set_solver. }
  intros b3 Hok3 W3 P3.
  match type of W3 with context [home_ws l ?g] => assert (home_ws l g = (λ b, (fkey b, v (fkey b))) <$> lblocks l) as E3 end.
  { rewrite copied_all_eq. apply home_after_log. }
  rewrite E3 in W3, Hok3. rewrite <- copied_all_app in Hok3.
  unfold log_mod. apply wp_bind, wp_modify. cbn [l_log set_log l_b].
  eapply write_head_wp; [exact Hok3|by apply log_wf_empty|by rewrite copied_all_eq| |].
  { rewrite copied_all_eq. cbn. rewrite Hd. by rewrite pins_flushed. }
  intros b4 Hok4 W4 P4. change (hkey (set_n 0 l)) with (hkey l) in *. change (lblocks (set_n 0 l)) with (@nil Z) in *.
  match type of W4 with context [header ?x _] => assert (x = head_on l v) as E2 end.
  { rewrite copied_all_eq. cbn [c_view]. rewrite apply_writes_app, apply_writes_other.
    - rewrite apply_writes_app. cbn. by rewrite fn_lookup_insert.
    - intros (w & E & (b' & -> & Hb')%list_elem_of_fmap)%list_elem_of_fmap. by apply (hkey_not_block l b'). }
  rewrite E2 in Hok4, W4. apply HQ.
  - replace (commit_ws l v) with (((log_ws l v ++ [(hkey l, head_on l v)]) ++
      ((λ b, (fkey b, v (fkey b))) <$> lblocks l)) ++ [(hkey l, head_off (head_on l v))])
      by (unfold commit_ws; by rewrite <- !app_assoc).
    rewrite copied_all_app. exact Hok4.
  - cbn [l_b set_log] in W4. rewrite W4, W3, W2, W1. unfold commit_ws. by rewrite <- !app_assoc.
  - cbn [l_b set_log] in P4. congruence.
Qed.
End spec.
