(* ===== verification/LogCrash.v ===== *)
(** Crash safety of the log: wherever a commit is cut off, recovery at the
    next boot leaves either none or all of the transaction's blocks. *)

From S2P Require Import Prelude Mmu Block Ide Bio Log LogSpec.

(** ** What recovery computes *)

(** The copies [recover_from_log] makes on disk contents [d]. *)
Definition rec_ws (l : logst) (d : bkey → block) : list (bkey * block) :=
  imap (λ i b, (fkey b, d (lkey l (Z.of_nat i)))) (decode (d (hkey l))).

Lemma prefix_cases {A} (p q a b : list A) x :
  p ++ q = a ++ x :: b → (∃ a', a = p ++ a') ∨ (∃ b1 b2, p = a ++ x :: b1 ∧ b = b1 ++ b2).
Proof.
  intros [(k & -> & E)|(k & -> & _)]%app_eq_inv; [|left; eauto].
  destruct k as [|y k]; simpl in *.
  - left. exists []. by rewrite !app_nil_r.
  - injection E as <- ->. right. eauto.
Qed.

Section crash.
Context (iderw : nat → M bst ()) `{!DiskDriver iderw} (Hds : disk_size ≤ 2 ^ 31).
Notation bio_ok := (bio_ok iderw).
Notation log_wf := (log_wf iderw).
Notation log_place := (log_place iderw).
Notation header_ok := (header_ok iderw).

(** A header that records nothing. *)
Lemma decode_empty x : get32 x 0 = 0 → decode x = [].
Proof. intros H. unfold decode. by rewrite H. Qed.

Lemma header_ok_empty l x : log_place l → get32 x 0 = 0 → header_ok l x.
Proof.
  intros P H. unfold LogSpec.header_ok. rewrite (decode_empty x H), H. destruct P.
  split; [lia|]. split; [apply NoDup_nil_2|]. by intros b ?%elem_of_nil.
Qed.

Lemma head_off_empty x : length x = 512%nat → get32 (head_off x) 0 = 0.
Proof. intros Hx. unfold head_off, header. simpl. by rewrite get_put32 by (rewrite ?Hx; first [lia|apply u32_range]). Qed.

Lemma length_head_on l v : log_wf l → length (v (hkey l)) = 512%nat → length (head_on l v) = 512%nat.
Proof.
  intros W Hx. unfold head_on, header.
  assert (length (put32 (v (hkey l)) 0 (u32 (Z.of_nat (length (lblocks l))))) = 512%nat) as E.
  { unfold put32. rewrite length_put_bytes; rewrite ?length_to_le; lia. }
  rewrite length_put_list; [done|]. rewrite E. rewrite (lblocks_len iderw) by done.
  pose proof (lw_n _ _ W). pose proof (lw_size _ _ W). unfold LOGSIZE, MAXOPBLOCKS in *. lia.
Qed.

Lemma decode_head_on l v : log_wf l → length (v (hkey l)) = 512%nat → decode (head_on l v) = lblocks l.
Proof using Hds.
  intros W Hx. apply decode_header; [done| |].
  - rewrite (lblocks_len iderw) by done. pose proof (lw_n _ _ W). pose proof (lw_size _ _ W).
    unfold LOGSIZE, MAXOPBLOCKS in *. lia.
  - intros b Hb. destruct (lw_blocks _ _ W b Hb). lia.
Qed.

Lemma header_ok_on l v : log_wf l → length (v (hkey l)) = 512%nat → header_ok l (head_on l v).
Proof using Hds.
  intros W Hx. unfold LogSpec.header_ok. rewrite decode_head_on by done.
  split; [|split; [apply W|apply W]].
  assert (Z.to_nat (get32 (head_on l v) 0) = length (lblocks l)) as E by by rewrite <- (decode_head_on l v W Hx), length_decode.
  rewrite (lblocks_len iderw) in E by done. pose proof (lw_n _ _ W).
  assert (0 ≤ get32 (head_on l v) 0); [|lia].
  unfold head_on, header. rewrite put_list_before.
  - rewrite get_put32; [apply u32_range|lia|apply u32_range].
  - unfold put32. rewrite length_put_bytes; rewrite ?length_to_le; [|lia]. rewrite (lblocks_len iderw) by done.
    pose proof (lw_size _ _ W). unfold LOGSIZE, MAXOPBLOCKS in *. lia.
  - lia.
Qed.

(** Keys outside the log area. *)
Lemma outside_log l v b : log_wf l → ¬ in_log l b → fkey b ∉ (log_ws l v).*1 ∧ fkey b ≠ hkey l.
Proof.
  intros W Hn. split.
  - intros (i & b' & Hi & [=])%log_keys. apply Hn. unfold in_log.
    apply (lblocks_index iderw) in Hi; [|done]. pose proof (lw_n _ _ W). lia.
  - intros [=]. apply Hn. unfold in_log. pose proof (lw_size _ _ W). lia.
Qed.

Definition home_of (l : logst) (v : bkey → block) : list (bkey * block) :=
  (λ b, (fkey b, v (fkey b))) <$> lblocks l.

Lemma home_of_keys l v : (home_of l v).*1 = fkey <$> lblocks l.
Proof. unfold home_of. rewrite <- list_fmap_compose. done. Qed.

Lemma home_of_nodup l v : log_wf l → NoDup (home_of l v).*1.
Proof. intros W. rewrite home_of_keys. apply NoDup_fmap; [by intros ? ? [=]|apply W]. Qed.

(** Writing a part of the blocks home, over contents that agree with the
    transaction on the others. *)
Lemma home_partial l v f ws b :
  log_wf l → (∀ w, w ∈ ws → w ∈ home_of l v) → NoDup ws.*1 → (f (fkey b) = v (fkey b) ∨ fkey b ∈ ws.*1) →
  apply_writes ws f (fkey b) = v (fkey b).
Proof.
  intros W Hsub Hnd Hf. destruct (decide (fkey b ∈ ws.*1)) as [Hin|Hn].
  - apply list_elem_of_fmap in Hin as ([k x] & Ek & Hw). simpl in Ek. subst k.
    rewrite (apply_writes_in _ _ _ x) by done. apply Hsub, list_elem_of_fmap in Hw as (b' & [= <- ->] & _). done.
  - rewrite apply_writes_other by done. tauto.
Qed.

(** Before the header is written, recovery finds an empty log. *)
Lemma crash_before l v d ws1 :
  log_wf l → get32 (d (hkey l)) 0 = 0 → (∀ w, w ∈ ws1 → w ∈ log_ws l v) →
  let d' := apply_writes ws1 d in
  header_ok l (d' (hkey l)) ∧ ∀ b, ¬ in_log l b → apply_writes (rec_ws l d') d' (fkey b) = d (fkey b).
Proof.
  intros W H0 Hsub d'. assert (∀ k, k ∉ (log_ws l v).*1 → d' k = d k) as Hd.
  { intros k Hk. apply apply_writes_other. intros (w & -> & Hw)%list_elem_of_fmap. apply Hk.
    apply list_elem_of_fmap_2. by apply Hsub. }
  assert (d' (hkey l) = d (hkey l)) as Eh by apply Hd, hkey_not_log.
  rewrite Eh. split; [apply header_ok_empty; [apply W|done]|]. intros b Hb.
  unfold rec_ws. rewrite Eh, decode_empty by done. simpl. by apply Hd, outside_log.
Qed.

(** What the home copies of recovery are once the header is on the disk. *)
Lemma rec_ws_on l v d ws :
  log_wf l → length (v (hkey l)) = 512%nat → (∀ w, w ∈ ws → w ∈ home_of l v) →
  let d' := apply_writes (log_ws l v ++ (hkey l, head_on l v) :: ws) d in
  d' (hkey l) = head_on l v ∧ rec_ws l d' = home_of l v.
Proof using Hds.
  intros W Hx Hsub d'.
  assert (∀ k, k ∉ fkey <$> lblocks l → d' k = apply_writes (log_ws l v ++ [(hkey l, head_on l v)]) d k) as Hd.
  { intros k Hk. unfold d'. rewrite cons_middle, app_assoc, apply_writes_app. apply apply_writes_other.
    intros (w & -> & Hw)%list_elem_of_fmap. apply Hk. rewrite <- (home_of_keys l v). apply list_elem_of_fmap_2. by apply Hsub. }
  assert (d' (hkey l) = head_on l v) as Eh.
  { rewrite Hd.
    - rewrite apply_writes_app. cbn. by rewrite fn_lookup_insert.
    - intros (b & E & Hb)%list_elem_of_fmap. by apply (hkey_not_block iderw l b). }
  split; [done|]. unfold rec_ws. rewrite Eh, decode_head_on by done.
  unfold home_of. rewrite <- (home_after_log l v d (head_on l v)). unfold home_ws. apply imap_ext. intros i b Hi. f_equal.
  apply Hd. intros (b' & E & Hb')%list_elem_of_fmap. destruct (block_disk iderw Hds l b' W Hb') as (_ & _ & Hne).
  apply (Hne (Z.of_nat i)); [by eapply (lblocks_index iderw)|done].
Qed.

(** After the header is written and before it is cleared, recovery finishes
    the transaction. *)
Lemma crash_after l v d ws b :
  log_wf l → length (v (hkey l)) = 512%nat → (∀ w, w ∈ ws → w ∈ home_of l v) → NoDup ws.*1 →
  (∀ k, k ∉ pinned l → v k = d k) → ¬ in_log l b →
  let d' := apply_writes (log_ws l v ++ (hkey l, head_on l v) :: ws) d in
  apply_writes (rec_ws l d') d' (fkey b) = v (fkey b).
Proof using Hds.
  intros W Hx Hsub Hnd Hv Hb d'. destruct (rec_ws_on l v d ws W Hx Hsub) as [_ Er]. fold d' in Er. rewrite Er.
  apply home_partial with (l := l); [done|done|by apply home_of_nodup|].
  destruct (decide (fkey b ∈ pinned l)) as [Hp|Hp].
  - right. rewrite home_of_keys. apply elem_of_pinned in Hp as (b' & Hb' & ->). by apply list_elem_of_fmap_2.
  - left. rewrite Hv by done. unfold d'. apply apply_writes_other.
    destruct (outside_log l v b W Hb) as [Ho1 Ho2]. rewrite fmap_app. cbn.
    intros [H|[H|H]%elem_of_cons]%elem_of_app; [done|done|].
    apply Hp. apply list_elem_of_fmap in H as (w & E & Hw). apply Hsub, list_elem_of_fmap in Hw as (b' & -> & Hb').
    apply elem_of_pinned. by exists b'.
Qed.

(** After the header is cleared the transaction is home. *)
Lemma crash_done l v d b :
  log_wf l → length (v (hkey l)) = 512%nat → (∀ k, k ∉ pinned l → v k = d k) → ¬ in_log l b →
  let d' := apply_writes (commit_ws l v) d in
  get32 (d' (hkey l)) 0 = 0 ∧ apply_writes (rec_ws l d') d' (fkey b) = v (fkey b).
Proof using Hds.
  intros W Hx Hv Hb d'. destruct (outside_log l v b W Hb) as [Ho1 Ho2].
  assert (d' = <[hkey l := head_off (head_on l v)]>
    (apply_writes (log_ws l v ++ (hkey l, head_on l v) :: home_of l v) d)) as Ed.
  { unfold d', commit_ws. fold (home_of l v).
    rewrite app_comm_cons, app_assoc, apply_writes_app. done. }
  assert (get32 (d' (hkey l)) 0 = 0) as E0.
  { rewrite Ed, fn_lookup_insert. apply head_off_empty. by apply length_head_on. }
  split; [done|]. unfold rec_ws. rewrite decode_empty by done. simpl.
  rewrite Ed, fn_lookup_insert_ne by done. rewrite cons_middle, app_assoc, apply_writes_app.
  apply home_partial with (l := l); [done|done|by apply home_of_nodup|].
  destruct (decide (fkey b ∈ pinned l)) as [Hp|Hp].
  - right. rewrite home_of_keys. apply elem_of_pinned in Hp as (b' & Hb' & ->). by apply list_elem_of_fmap_2.
  - left. rewrite Hv by done. apply apply_writes_other. rewrite fmap_app. cbn.
    intros [H|H%list_elem_of_singleton]%elem_of_app; done.
Qed.

(** Every prefix of the writes of a commit. *)
Lemma crash_cases l v d ws1 ws2 :
  log_wf l → length (v (hkey l)) = 512%nat → get32 (d (hkey l)) 0 = 0 → (∀ k, k ∉ pinned l → v k = d k) →
  commit_ws l v = ws1 ++ ws2 →
  let d' := apply_writes ws1 d in
  header_ok l (d' (hkey l)) ∧
  ((∀ b, ¬ in_log l b → apply_writes (rec_ws l d') d' (fkey b) = d (fkey b)) ∨
   (∀ b, ¬ in_log l b → apply_writes (rec_ws l d') d' (fkey b) = v (fkey b))).
Proof using Hds.
  intros W Hx H0 Hv E d'. unfold commit_ws in E. fold (home_of l v) in E. symmetry in E.
  destruct (prefix_cases _ _ _ _ _ E) as [(a & Ea)|(b1 & b2 & -> & Eb)].
  - destruct (crash_before l v d ws1 W H0) as [Hh Hr]; [|by split; [|left]].
    intros w Hw. rewrite Ea. apply elem_of_app. by left.
  - symmetry in Eb. destruct (prefix_cases _ _ _ _ _ Eb) as [(a & Ea)|(c1 & c2 & -> & Ec)].
    + assert (∀ w, w ∈ b1 → w ∈ home_of l v) as Hsub by (intros w Hw; rewrite Ea; apply elem_of_app; by left).
      assert (NoDup b1.*1) as Hnd.
      { pose proof (home_of_nodup l v W) as H. rewrite Ea, fmap_app in H. by apply NoDup_app in H as (? & _). }
      split; [|right; intros b Hb; by apply crash_after].
      unfold d'. rewrite (proj1 (rec_ws_on l v d b1 W Hx Hsub)). by apply header_ok_on.
    + symmetry in Ec. apply app_nil in Ec as [-> ->].
      assert (d' = apply_writes (commit_ws l v) d) as -> by done.
      split; [|right; intros b Hb; by apply crash_done].
      apply header_ok_empty; [apply W|]. eapply (crash_done l v d (-1)); try done.
      unfold in_log. destruct (lw_place _ _ W). lia.
Qed.

(** ** Recovery *)

Lemma drop_block_hold k i c : c_held c !! k = None → drop_block k (hold_block k i c) = c.
Proof.
  intros H. unfold drop_block, hold_block. cbn. rewrite delete_insert_id by done. by destruct c.
Qed.

(** The cache is empty, as at boot. *)
Definition idle (c : cache) : Prop := c_held c = ∅ ∧ c_dirty c = ∅.

Lemma readsb_wp b c Q :
  bio_ok b c → idle c → 1 < disk_size →
  (∀ b', bio_ok b' c → writes b' = writes b → mypid b' = mypid b → Q (parse_sb (c_view c (fkey 1))) b') →
  wp (readsb iderw 1) Q b.
Proof.
  intros Hok [Hh Hd] Hsz HQ. unfold readsb. apply wp_bind.
  eapply (bread_wp iderw _ _ (fkey 1)); [done|by split; cbn; [|lia]|by rewrite Hh| |].
  { unfold c_used. rewrite Hh, Hd, dom_empty_L, (left_id_L ∅ _), (right_id_L ∅ _), size_singleton. unfold NBUF. lia. }
  intros b1 i Hok1 W1 P1. apply wp_bind. eapply (buf_data_wp iderw _ _ (fkey 1)); [done|apply lookup_insert_eq|].
  apply wp_bind. eapply (brelse_wp iderw _ _ (fkey 1)); [done|apply lookup_insert_eq| |].
  { right. apply (ca_clean _ _ (proj1 Hok)); [by rewrite Hh|rewrite Hd; set_solver]. }
  intros b2 Hok2 W2 P2. rewrite drop_block_hold in Hok2 by (by rewrite Hh). wp_auto. apply HQ; [done|congruence|congruence].
Qed.

Lemma recover_wp b l c Q :
  bio_ok b c → idle c → log_place l → header_ok l (c_view c (hkey l)) →
  (∀ b' l' x, bio_ok b' (copied_all (rec_ws l (c_view c) ++ [(hkey l, x)]) c) →
     x = head_off (apply_writes (rec_ws l (c_view c)) (c_view c) (hkey l)) → mypid b' = mypid b →
     log_wf l' → l_n l' = 0 → l_start l' = l_start l → l_size l' = l_size l →
     l_outstanding l' = l_outstanding l → l_committing l' = l_committing l → Q tt (Lst b' l')) →
  wp (recover_from_log iderw) Q (Lst b l).
Proof using Hds.
  intros Hok [Hh Hd] P Hhd HQ. unfold recover_from_log. apply wp_bind.
  eapply read_head_wp; [done..|]. intros b1 l1 Hok1 _ P1 W1 Es Ez Eo Ec El.
  assert (home_ws l1 (c_view c) = rec_ws l (c_view c)) as Ehw.
  { unfold home_ws, rec_ws, lkey. by rewrite El, Es. }
  apply wp_bind. eapply install_trans_wp; [done|done|done|done|rewrite Hd; set_solver|].
  intros b2 Hok2 _ P2. rewrite Ehw in Hok2. unfold log_mod. apply wp_bind, wp_modify. cbn [l_log set_log l_b].
  eapply write_head_wp; [done|exact Hok2|by apply log_wf_empty|by rewrite copied_all_eq|rewrite copied_all_eq; cbn; rewrite Hd; set_solver|].
  intros b3 Hok3 _ P3. cbn [l_b set_log] in P3.
  assert (hkey (set_n 0 l1) = hkey l) as Ek by (unfold hkey; cbn; by rewrite Es).
  rewrite Ek in Hok3. eapply HQ; [|reflexivity|congruence|by apply log_wf_empty|done..].
  rewrite copied_all_app. rewrite copied_all_eq in Hok3 at 1. exact Hok3.
Qed.

(** The superblock describes the log [l]. *)
Definition sb_log (l : logst) (sb : superblock) : Prop := sb_logstart sb = l_start l ∧ sb_nlog sb = l_size l.

(** The log before [initlog]: static storage. *)
Definition boot_log : logst := Log 0 0 0 false 0 0 (replicate (Z.to_nat LOGSIZE) 0).

Lemma initlog_wp b l c Q :
  bio_ok b c → idle c → log_place l → sb_log l (parse_sb (c_view c (fkey 1))) →
  header_ok l (c_view c (hkey l)) → 1 < disk_size →
  (∀ b' l' x, bio_ok b' (copied_all (rec_ws l (c_view c) ++ [(hkey l, x)]) c) →
     x = head_off (apply_writes (rec_ws l (c_view c)) (c_view c) (hkey l)) → mypid b' = mypid b →
     log_wf l' → l_n l' = 0 → l_outstanding l' = 0 → l_committing l' = false →
     l_start l' = l_start l → l_size l' = l_size l → Q tt (Lst b' l')) →
  wp (initlog iderw 1) Q (Lst b boot_log).
Proof using Hds.
  intros Hok Hi P [Es Ez] Hhd Hsz HQ. unfold initlog. apply wp_bind, wp_zoom. cbn [l_b].
  eapply readsb_wp; [done..|]. intros b1 Hok1 _ P1. unfold log_mod. apply wp_bind, wp_modify.
  cbn [l_log set_log l_b set_lb l_outstanding boot_log l_committing l_n l_block]. rewrite Es, Ez.
  pose proof (lp_size _ _ P). pose proof (lp_end _ _ P). pose proof (lp_start _ _ P). unfold LOGSIZE, MAXOPBLOCKS in *.
  rewrite !i32_small by lia. set (l1 := Log _ _ _ _ _ _ _).
  assert (log_place l1) as Pl1 by (split; cbn; first [done|lia|apply P]).
  eapply (recover_wp b1 l1 c); [done|done|done|exact Hhd|].
  intros b2 l2 x Hok2 Ex P2 W2 En E1 E2 E3 E4. apply (HQ b2 l2 x); try done. congruence.
Qed.
End crash.

(** ** Crash at any point of a commit *)

(** The disk after a sequence of writes. *)
Definition replay (ws : list (bkey * block)) (d : gmap bkey block) : gmap bkey block :=
  foldl (λ d w, <[w.1 := w.2]> d) d ws.

Lemma disk_replay ws d k : disk_block (replay ws d) k = apply_writes ws (disk_block d) k.
Proof.
  revert d. induction ws as [|w ws IH]; intros d; [done|].
  change (disk_block (replay ws (<[w.1 := w.2]> d)) k = apply_writes ws (<[w.1 := w.2]> (disk_block d)) k).
  rewrite IH. apply apply_writes_ext. intros k'.
  rewrite disk_block_insert. case_decide as E; [subst; by rewrite fn_lookup_insert|by rewrite fn_lookup_insert_ne].
Qed.

(** The machine after a crash: the disk is what had been written, memory is
    as at boot. *)
Definition crashed (d : gmap bkey block) (ws : list (bkey * block)) (pid : Z) : lst :=
  Lst (boot_bst (replay ws d) pid) boot_log.

Section crash_theorem.
Context (iderw : nat → M bst ()) `{!DiskDriver iderw} (Hds : disk_size ≤ 2 ^ 31).

(** The boot after a crash. *)
Lemma boot_recovers d ws pid l Q :
  log_place iderw l → sb_log l (parse_sb (apply_writes ws (disk_block d) (fkey 1))) → 1 < disk_size →
  header_ok iderw l (apply_writes ws (disk_block d) (hkey l)) →
  (∀ s' d', d' = apply_writes ws (disk_block d) →
     (∀ b, ¬ in_log l b → disk_block (disk (l_b s')) (fkey b) = apply_writes (rec_ws l d') d' (fkey b)) → Q tt s') →
  wp (in_b binit;; initlog iderw 1) Q (crashed d ws pid).
Proof using Hds.
  intros P Hsb Hsz Hhd HQ. set (d' := apply_writes ws (disk_block d)) in *.
  apply wp_bind, wp_zoom. cbn [l_b crashed]. eapply wp_mono; [apply binit_wp|].
  intros [] b (A & _ & _ & _ & Hq & Hh1).
  assert (bio_ok iderw b (Cache d' d' ∅ ∅)) as Hok.
  { split; [|by apply ready_boot]. assert (boot_cache (replay ws d) ≡ Cache d' d' ∅ ∅) as E.
    { split_and!; [intros k; apply disk_replay|intros k; apply disk_replay|done|done]. }
    by rewrite <- E. }
  cbn [set_lb l_log crashed]. eapply (initlog_wp iderw Hds b l); [done|done|done|done|done|done|].
  intros b' l' x Hok' _ _ _ _ _ _ _ _. apply (HQ _ d'); [done|]. intros b0 Hb0. cbn [l_b].
  rewrite (ca_disk _ _ (proj1 Hok')), copied_all_eq. cbn. rewrite apply_writes_app. cbn.
  rewrite fn_lookup_insert_ne; [done|]. intros [=]. apply Hb0. unfold in_log. destruct P. lia.
Qed.

(** No write of a commit goes to the superblock. *)
Lemma sb_untouched l v ws1 ws2 :
  log_wf iderw l → 1 ∉ lblocks l → ¬ in_log l 1 → commit_ws l v = ws1 ++ ws2 → fkey 1 ∉ ws1.*1.
Proof.
  intros W H1 Hl E H. destruct (outside_log iderw l v 1 W Hl) as [Ho1 Ho2].
  assert (fkey 1 ∈ (commit_ws l v).*1) as Hin by (rewrite E, fmap_app; apply elem_of_app; by left).
  unfold commit_ws in Hin. rewrite fmap_app in Hin. cbn in Hin. rewrite fmap_app in Hin.
  apply elem_of_app in Hin as [?|[?|[Hin|?%list_elem_of_singleton]%elem_of_app]%elem_of_cons]; [done|done| |done].
  apply list_elem_of_fmap in Hin as (w & Ew & (b & -> & Hb)%list_elem_of_fmap). by injection Ew as <-.
Qed.

(** C8. A commit is atomic.  Cut the disk writes of [commit] off after any
    prefix, even in the middle of copying the blocks to the log or home,
    and boot: [binit] and [initlog] return, and every block outside the log
    area either is what the disk held before the transaction, or is what
    the transaction wrote, the same for all blocks. *)
Theorem commit_atomic b l c :
  bio_ok iderw b c → log_wf iderw l → c_held c = ∅ → c_dirty c = pinned l → 0 < l_n l →
  get32 (c_disk c (hkey l)) 0 = 0 → length (c_view c (hkey l)) = 512%nat → 1 < disk_size →
  sb_log l (parse_sb (c_disk c (fkey 1))) → 1 ∉ lblocks l → ¬ in_log l 1 →
  wp (commit iderw) (λ _ s', ∃ ws, writes (l_b s') = writes b ++ ws ∧
    (∀ b0, ¬ in_log l b0 → disk_block (disk (l_b s')) (fkey b0) = c_view c (fkey b0)) ∧
    ∀ ws1 ws2 pid, ws = ws1 ++ ws2 →
    wp (in_b binit;; initlog iderw 1) (λ _ s2,
      (∀ b0, ¬ in_log l b0 → disk_block (disk (l_b s2)) (fkey b0) = c_disk c (fkey b0)) ∨
      (∀ b0, ¬ in_log l b0 → disk_block (disk (l_b s2)) (fkey b0) = c_view c (fkey b0)))
      (crashed (disk b) ws1 pid)) (Lst b l).
Proof using Hds.
  intros Hok W Hh Hd Hn H0 Hlen Hsz Hsb H1 H1l. eapply commit_wp; [done..|]. intros b' Hok' Hw _.
  exists (commit_ws l (c_view c)). split; [done|].
  assert (∀ k, disk_block (disk b) k = c_disk c k) as Hdk by apply (proj1 Hok).
  set (d := disk_block (disk b)) in *. rewrite <- Hdk in H0, Hsb.
  assert (∀ k, k ∉ pinned l → c_view c k = d k) as Hcl.
  { intros k Hk. rewrite Hdk. apply (ca_clean _ _ (proj1 Hok)); [by rewrite Hh|by rewrite Hd]. }
  split.
  { intros b0 Hb0. cbn [l_b]. destruct (crash_done iderw Hds l (c_view c) d b0 W Hlen Hcl Hb0) as [E0 E1].
    unfold rec_ws in E1. rewrite decode_empty in E1 by done. rewrite <- E1.
    change (apply_writes (imap _ []) ?f) with f. rewrite (ca_disk _ _ (proj1 Hok')), copied_all_eq. apply apply_writes_ext. by intros k. }
  intros ws1 ws2 pid E. destruct (crash_cases iderw Hds l (c_view c) d ws1 ws2 W Hlen H0 Hcl E) as [Hhd Hor].
  eapply (boot_recovers _ ws1 pid l); [apply W| |done|exact Hhd|].
  - fold d. rewrite apply_writes_other; [done|]. by eapply sb_untouched.
  - intros s2 d' Ed Hs2. fold d in Ed. subst d'. destruct Hor as [Ho|Ho]; [left|right]; intros b0 Hb0; rewrite Hs2 by done.
    + rewrite <- Hdk. by apply Ho.
    + by apply Ho.
Qed.
End crash_theorem.
