(* ===== verification/LogOps.v ===== *)
(** Transactions: [begin_op], [log_write] and [end_op] (log.c), the space
    they reserve, and the log's invariant. *)

From S2P Require Import Prelude Mmu Block Ide Bio Log LogSpec LogCrash.

Section ops.
Context (iderw : nat → M bst ()) `{!DiskDriver iderw} (Hds : disk_size ≤ 2 ^ 31).
Notation bio_ok := (bio_ok iderw).
Notation log_wf := (log_wf iderw).

(** The log between operations: what it has recorded is what is pinned, and
    the header on the disk is empty. *)
Record log_ok (s : lst) (c : cache) : Prop := {
  lo_bio : bio_ok (l_b s) c;
  lo_wf : log_wf (l_log s);
  lo_pin : c_dirty c = pinned (l_log s);
  lo_head : get32 (c_disk c (hkey (l_log s))) 0 = 0;
  lo_view : c_view c (hkey (l_log s)) = c_disk c (hkey (l_log s)) ∧
    length (c_disk c (hkey (l_log s))) = 512%nat;
  lo_commit : l_committing (l_log s) = false;
}.

(** ** log_write *)

Lemma absorb_found b bs l n :
  take n l = bs → (n ≤ length l)%nat → (∀ x, x ∈ bs → u32 x = x) →
  match absorb b l n with
  | j => (j = n ∧ b ∉ bs) ∨ ((j < n)%nat ∧ bs !! j = Some b)
  end.
Proof.
  revert bs n. induction l as [|x l IH]; intros bs n E Hlen Hu; (destruct n as [|n]; simpl in *; subst bs;
    [left; split; [done|apply not_elem_of_nil]|]); [lia|].
  rewrite (Hu x) by by left. destruct (Z.eqb_spec x b) as [->|Hne]; [right; split; [lia|done]|].
  destruct (IH (take n l) n eq_refl) as [[Ej Hb]|[Ej Hb]]; [lia| | |].
  - intros y Hy. apply Hu. by right.
  - left. split; [by rewrite Ej|]. rewrite not_elem_of_cons. naive_solver.
  - right. split; [lia|done].
Qed.

(** What [log_write] records. *)
Definition logged (b : Z) (bs : list Z) : list Z := if decide (b ∈ bs) then bs else bs ++ [b].

(** A block not yet recorded is appended. *)
Lemma lblocks_append l b :
  log_wf l → l_n l < l_size l - 1 →
  lblocks (set_n (l_n l + 1) (set_block (<[Z.to_nat (l_n l) := b]> (l_block l)) l)) = lblocks l ++ [b].
Proof.
  intros W Hn. pose proof (lw_n _ _ W). pose proof (lw_size _ _ W). pose proof (lw_len _ _ W) as Hlen.
  unfold lblocks. cbn [l_n set_n l_block set_block]. replace (Z.to_nat (l_n l + 1)) with (S (Z.to_nat (l_n l))) by lia.
  rewrite (take_S_r _ _ b).
  - by rewrite take_insert_ge by lia.
  - apply list_lookup_insert_eq. lia.
Qed.

Lemma log_wf_append l b :
  log_wf l → l_n l < l_size l - 1 → b ∉ lblocks l → 0 ≤ b < disk_size → ¬ in_log l b →
  log_wf (set_n (l_n l + 1) (set_block (<[Z.to_nat (l_n l) := b]> (l_block l)) l)).
Proof.
  intros W Hn Hb Hr Hnl. pose proof (lw_n _ _ W). split.
  - destruct (lw_place _ _ W). split; cbn; rewrite ?length_insert; done.
  - cbn. lia.
  - rewrite lblocks_append by done. apply NoDup_app. split_and!; [apply W| |apply NoDup_singleton].
    by intros x Hx ->%list_elem_of_singleton.
  - intros x. rewrite lblocks_append by done. intros [Hx| ->%list_elem_of_singleton]%elem_of_app; [|done].
    by apply (lw_blocks _ _ W).
Qed.

Lemma pinned_logged l l' b :
  lblocks l' = logged b (lblocks l) → pinned l' = {[fkey b]} ∪ pinned l.
Proof.
  intros E. apply set_eq. intros k. rewrite elem_of_union, elem_of_singleton, !elem_of_pinned, E.
  unfold logged. case_decide as Hb; [|setoid_rewrite elem_of_app; setoid_rewrite list_elem_of_singleton]; naive_solver.
Qed.

(** The operations of the log keep its place. *)
Record same_log (l l' : logst) : Prop := {
  sl_start : l_start l' = l_start l;
  sl_size : l_size l' = l_size l;
}.

Lemma log_ok_pin b l b' l' c bno :
  log_ok (Lst b l) c → log_wf l' → lblocks l' = logged bno (lblocks l) → same_log l l' →
  l_committing l' = false → ¬ in_log l bno →
  bio_ok b' (pin_block (fkey bno) c) → log_ok (Lst b' l') (pin_block (fkey bno) c).
Proof.
  intros [] W' El [Es Ez] Hc Hnl Hok. assert (hkey l' = hkey l) as Eh by (unfold hkey; by rewrite Es).
  split; cbn [l_b l_log c_disk c_view pin_block c_dirty] in *; rewrite ?Eh; try done.
  rewrite (pinned_logged l l' bno El). by rewrite lo_pin0.
Qed.

Lemma log_write_wp s c bno i Q :
  log_ok s c → c_held c !! fkey bno = Some i → 0 ≤ bno < disk_size → ¬ in_log (l_log s) bno →
  l_n (l_log s) < l_size (l_log s) - 1 → 1 ≤ l_outstanding (l_log s) →
  (∀ s', log_ok s' (pin_block (fkey bno) c) → lblocks (l_log s') = logged bno (lblocks (l_log s)) →
     l_start (l_log s') = l_start (l_log s) → l_size (l_log s') = l_size (l_log s) →
     l_outstanding (l_log s') = l_outstanding (l_log s) → writes (l_b s') = writes (l_b s) →
     mypid (l_b s') = mypid (l_b s) → Q tt s') →
  wp (log_write i) Q s.
Proof using Hds.
  intros L Hh Hr Hnl Hn Ho HQ. destruct s as [b l]. cbn [l_b l_log] in *. pose proof (lo_wf _ _ L) as W.
  cbn in W. pose proof (lw_size _ _ W) as Hsz. pose proof (lw_n _ _ W) as Hn0. pose proof (lw_len _ _ W) as Hlen.
  destruct (held_buf _ _ _ _ (proj1 (lo_bio _ _ L)) Hh) as (bf & Hb & Hk & _). cbn in Hb.
  assert (b_blockno bf = bno) as Ebn by by injection Hk.
  unfold log_write, log_get. wp_auto. cbn [l_log].
  destruct (Z.leb_spec LOGSIZE (l_n l)); [lia|]. destruct (Z.leb_spec (l_size l - 1) (l_n l)); [lia|]. cbn [orb].
  wp_auto. cbn [l_log]. destruct (Z.ltb_spec (l_outstanding l) 1); [lia|].
  apply wp_bind, wp_zoom. cbn [l_b]. eapply get_buf_wp; [done|]. wp_auto. cbn [l_log set_lb].
  rewrite Ebn. rewrite i32_small by lia.
  set (j := absorb bno (l_block l) (Z.to_nat (l_n l))).
  assert ((j = Z.to_nat (l_n l) ∧ bno ∉ lblocks l) ∨ ((j < Z.to_nat (l_n l))%nat ∧ lblocks l !! j = Some bno)) as Hj.
  { apply (absorb_found bno (lblocks l) (l_block l)); [done|rewrite Hlen; lia|].
    intros x Hx. destruct (lw_blocks _ _ W x Hx). apply u32_small. lia. }
  unfold lh_set, log_get. wp_auto. cbn [l_log set_lb]. rewrite Nat2Z.id.
  rewrite decide_True by (rewrite Hlen; destruct Hj; lia). unfold log_mod. wp_auto. cbn [l_log set_lb set_log l_b].
  destruct Hj as [[Ej Hnb]|[Ej Hjb]].
  - rewrite Ej, Z2Nat.id, Z.eqb_refl by lia. unfold when. wp_auto. cbn [l_log set_lb set_log l_b].
    apply wp_zoom. cbn [l_b]. eapply (pin_buf_wp iderw _ _ (fkey bno)); [apply L|done|]. intros b' Hok' Hw Hp.
    cbn [set_lb l_log set_log].
    assert (lblocks (set_n (l_n l + 1) (set_block (<[Z.to_nat (l_n l):=bno]> (l_block l)) l)) = logged bno (lblocks l)) as El.
    { rewrite lblocks_append by done. unfold logged. by rewrite decide_False. }
    apply HQ; try done. eapply log_ok_pin; try done; [by apply log_wf_append|apply L].
  - destruct (Z.eqb_spec (Z.of_nat j) (l_n l)); [lia|]. unfold when. wp_auto. apply wp_zoom. cbn [l_b].
    eapply (pin_buf_wp iderw _ _ (fkey bno)); [apply L|done|]. intros b' Hok' Hw Hp. cbn [set_lb l_log set_log].
    replace (set_block (<[j:=bno]> (l_block l)) l) with l.
    2:{ rewrite list_insert_id; [by destruct l|]. unfold lblocks in Hjb. apply lookup_take_Some in Hjb. tauto. }
    assert (lblocks l = logged bno (lblocks l)) as El.
    { unfold logged. rewrite decide_True; [done|]. by eapply list_elem_of_lookup_2. }
    apply HQ; try done. eapply log_ok_pin; try done. apply L.
Qed.

(** ** begin_op and end_op *)

Lemma begin_op_wp s c Q :
  log_ok s c → l_n (l_log s) + (l_outstanding (l_log s) + 1) * MAXOPBLOCKS ≤ LOGSIZE →
  (log_ok (set_log (set_outstanding (l_outstanding (l_log s) + 1) (l_log s)) s) c →
   Q tt (set_log (set_outstanding (l_outstanding (l_log s) + 1) (l_log s)) s)) →
  wp begin_op Q s.
Proof.
  intros L Hsp HQ. unfold begin_op, log_get, log_mod. wp_auto. rewrite (lo_commit _ _ L). wp_auto.
  destruct (Z.ltb_spec LOGSIZE (l_n (l_log s) + (l_outstanding (l_log s) + 1) * MAXOPBLOCKS)); [lia|].
  wp_auto. apply HQ. destruct L as [? [[] ?] ? ? ? ?]. by split.
Qed.

(** The cache after a commit. *)
Definition committed (l : logst) (c : cache) : cache :=
  if decide (0 < l_n l) then copied_all (commit_ws l (c_view c)) c else c.

Lemma committed_spec l c :
  log_wf l → c_dirty c = pinned l → c_held c = ∅ → length (c_view c (hkey l)) = 512%nat →
  (∀ k, k ∉ pinned l → c_view c k = c_disk c k) → get32 (c_disk c (hkey l)) 0 = 0 →
  let c' := committed l c in
  c_held c' = ∅ ∧ c_dirty c' = ∅ ∧ get32 (c_disk c' (hkey l)) 0 = 0 ∧
  c_view c' (hkey l) = c_disk c' (hkey l) ∧ length (c_disk c' (hkey l)) = 512%nat ∧
  ∀ b, ¬ in_log l b → c_view c' (fkey b) = c_view c (fkey b) ∧ c_disk c' (fkey b) = c_view c (fkey b).
Proof using Hds.
  intros W Hd Hh Hlen Hcl H0. unfold committed. case_decide as Hn.
  - rewrite copied_all_eq. cbn [c_held c_dirty c_disk c_view].
    assert (∀ f, apply_writes (commit_ws l (c_view c)) f (hkey l) = head_off (head_on l (c_view c))) as Ehd.
    { intros f. unfold commit_ws. rewrite app_comm_cons, app_assoc, apply_writes_app. cbn. by rewrite fn_lookup_insert. }
    rewrite !Ehd. split_and!; [done| |by apply head_off_empty, (length_head_on iderw)|done| |].
    + rewrite Hd. unfold commit_ws. rewrite cons_middle, (app_assoc (log_ws _ _)), app_assoc, fmap_app, list_to_set_app_L.
      rewrite <- difference_difference_l_L, pins_flushed. set_solver.
    + unfold head_off, header, put32. cbn [put_list]. rewrite length_put_bytes; rewrite ?length_to_le;
        rewrite (length_head_on iderw) by done; lia.
    + intros b Hb. assert (∀ f, (∀ k, k ∉ pinned l → c_view c k = f k) →
        apply_writes (commit_ws l (c_view c)) f (fkey b) = c_view c (fkey b)) as H.
      { intros f Hf. destruct (crash_done iderw Hds l (c_view c) f b W Hlen Hf Hb) as [E0 E1].
        unfold rec_ws in E1. by rewrite decode_empty in E1. }
      split; by apply H.
  - assert (lblocks l = []) as El by (apply nil_length_inv; rewrite (lblocks_len iderw) by done; lia).
    assert (pinned l = ∅) as Ep by (unfold pinned; by rewrite El).
    rewrite Ep in *. split_and!; try done; [apply Hcl; set_solver|by rewrite <- Hcl by set_solver|].
    intros b _. split; [done|]. symmetry. apply Hcl. set_solver.
Qed.

Lemma log_ok_committed b l c b' :
  log_ok (Lst b l) c → c_held c = ∅ → bio_ok b' (committed l c) →
  log_ok (Lst b' (set_n 0 l)) (committed l c).
Proof using Hds.
  intros L Hh Hok. destruct L as [L1 L2 L3 L4 [L5 L6] L7]. cbn [l_b l_log] in *.
  destruct (committed_spec l c) as (E1 & E2 & E3 & E4 & E5 & _); try done.
  { by rewrite L5. }
  { intros k Hk. apply (ca_clean _ _ (proj1 L1)); [by rewrite Hh|by rewrite L3]. }
  split; cbn [l_b l_log]; try done. by apply log_wf_empty.
Qed.

(** The last operation commits; the others only leave. *)
Lemma end_op_last s c Q :
  log_ok s c → c_held c = ∅ → l_outstanding (l_log s) = 1 →
  (∀ s', log_ok s' (committed (l_log s) c) → l_n (l_log s') = 0 → l_outstanding (l_log s') = 0 →
     same_log (l_log s) (l_log s') → mypid (l_b s') = mypid (l_b s) → Q tt s') →
  wp (end_op iderw) Q s.
Proof using Hds.
  intros L Hh Ho HQ. destruct s as [b l]. cbn [l_b l_log] in *.
  unfold end_op, log_get, log_mod. wp_auto. cbn [l_log set_log l_committing set_outstanding l_outstanding].
  pose proof (lo_commit _ _ L) as Hc. cbn [l_log] in Hc. rewrite Hc, Ho. change (1 - 1 =? 0) with true. cbv iota.
  apply wp_bind, wp_modify, wp_bind. cbn [l_log set_log l_b].
  set (l1 := set_committing true (set_outstanding (1 - 1) l)).
  assert (log_wf l1) as W1 by by destruct (lo_wf _ _ L) as [[] ?].
  assert (∀ b', bio_ok b' (committed l c) → mypid b' = mypid b →
    Q tt (Lst b' (set_committing false (set_n 0 l1)))) as HQ'.
  { intros b' Hok' Hp. apply HQ; try done. pose proof (log_ok_committed b l c b' L Hh Hok') as [? [[] ?] ? ? ? ?].
    split; try done. }
  unfold committed in HQ'. case_decide as Hn.
  - eapply (commit_wp iderw Hds b l1 c); [apply L|done|done|apply L|done|]. intros b' Hok' _ Hp. wp_auto.
    cbn [l_log set_log l_b]. by apply HQ'.
  - unfold commit, log_get. apply wp_bind, wp_gets. cbn [l_log set_log].
    destruct (Z.ltb_spec 0 (l_n l1)) as [Hx|_]; [exfalso; apply Hn; exact Hx|]. unfold when. wp_auto. cbn [l_log set_log l_b].
    assert (l_n l = 0) as E0 by (pose proof (lw_n _ _ (lo_wf _ _ L)); cbn in *; lia).
    assert (set_n 0 l1 = l1) as El by (unfold l1, set_committing, set_outstanding, set_n; cbn; by rewrite E0).
    specialize (HQ' b (lo_bio _ _ L) eq_refl). rewrite El in HQ'. exact HQ'.
Qed.

Lemma end_op_more s c Q :
  log_ok s c → 1 < l_outstanding (l_log s) →
  (log_ok (set_log (set_outstanding (l_outstanding (l_log s) - 1) (l_log s)) s) c →
   Q tt (set_log (set_outstanding (l_outstanding (l_log s) - 1) (l_log s)) s)) →
  wp (end_op iderw) Q s.
Proof.
  intros L Ho HQ. unfold end_op, log_get, log_mod. wp_auto. cbn [l_log set_log l_committing set_outstanding].
  rewrite (lo_commit _ _ L). destruct (Z.eqb_spec (l_outstanding (l_log s) - 1) 0); [lia|]. wp_auto. apply HQ.
  destruct L as [? [[] ?] ? ? ? ?]. by split.
Qed.

(** Mounting a disk with contents [f] whose log header is in order. *)
Lemma mount_wp b f l Q :
  bio_ok b (Cache f f ∅ ∅) → log_place iderw l → sb_log l (parse_sb (f (fkey 1))) → 1 < disk_size →
  header_ok iderw l (f (hkey l)) → length (f (hkey l)) = 512%nat →
  (∀ s c, log_ok s c → idle c → l_n (l_log s) = 0 → l_outstanding (l_log s) = 0 → same_log l (l_log s) →
     mypid (l_b s) = mypid b → (∀ b, ¬ in_log l b → c_view c (fkey b) = apply_writes (rec_ws l f) f (fkey b)) → Q tt s) →
  wp (initlog iderw 1) Q (Lst b boot_log).
Proof using Hds.
  intros Hok P Hsb Hsz Hhd Hlen HQ. eapply (initlog_wp iderw Hds b l); [done..|].
  intros b' l' x Hok' Ex Hp' W' En Eo Ec Es Ez. rewrite copied_all_eq in Hok'. cbn in Hok', Ex.
  assert (apply_writes (rec_ws l f) f (hkey l) = f (hkey l)) as E0.
  { apply apply_writes_other. unfold rec_ws. rewrite fmap_imap. intros (i & y & Ey & Hy)%elem_of_lookup_imap.
    injection Ey as Ey. destruct Hhd as (_ & _ & Hbs).
    destruct (Hbs y) as [_ Hnl]; [by eapply list_elem_of_lookup_2|]. apply Hnl. unfold in_log. rewrite <- Ey. destruct P. lia. }
  rewrite E0 in Ex. rewrite apply_writes_app in Hok'. cbn in Hok'.
  assert (get32 x 0 = 0) as Hx0 by (rewrite Ex; by apply head_off_empty).
  assert (length x = 512%nat) as Hxl.
  { rewrite Ex. unfold head_off, header, put32. cbn [put_list]. rewrite length_put_bytes; rewrite ?length_to_le; lia. }
  assert (hkey l' = hkey l) as Eh by (unfold hkey; by rewrite Es).
  match type of Hok' with bio_ok _ ?c1 => set (c' := c1) in *; assert (c_dirty c' = ∅) as Ed by (cbn; set_solver) end.
  apply (HQ _ c'); [|done|done|done|done|cbn; congruence|].
  - split; cbn [l_b l_log c_disk c_view]; rewrite ?Eh, ?fn_lookup_insert; [exact Hok'|done| | | |done].
    + rewrite Ed. unfold pinned, lblocks. by rewrite En.
    + cbn. by rewrite fn_lookup_insert.
    + cbn. by rewrite !fn_lookup_insert.
  - intros b0 Hb0. cbn. rewrite fn_lookup_insert_ne; [done|]. intros [= E]. apply Hb0. unfold in_log. destruct P. lia.
Qed.

(** Booting: [binit], then the log. *)
Lemma boot_bio d pid Q :
  (∀ b, bio_ok b (Cache (disk_block d) (disk_block d) ∅ ∅) → mypid b = pid → Q tt b) → wp binit Q (boot_bst d pid).
Proof.
  intros HQ. eapply wp_mono; [apply binit_wp|]. intros [] b (A & _ & _ & Hp & Hq & Hh1). apply HQ; [|done]. split; [done|by apply ready_boot].
Qed.

Lemma boot_wp d pid l Q :
  log_place iderw l → sb_log l (parse_sb (disk_block d (fkey 1))) → 1 < disk_size →
  header_ok iderw l (disk_block d (hkey l)) → length (disk_block d (hkey l)) = 512%nat →
  (∀ s c, log_ok s c → idle c → l_n (l_log s) = 0 → l_outstanding (l_log s) = 0 → same_log l (l_log s) →
     mypid (l_b s) = pid → 
     (∀ b, ¬ in_log l b → c_view c (fkey b) = apply_writes (rec_ws l (disk_block d)) (disk_block d) (fkey b)) →
     Q tt s) →
  wp (in_b binit;; initlog iderw 1) Q (Lst (boot_bst d pid) boot_log).
Proof using Hds.
  intros P Hsb Hsz Hhd Hlen HQ. apply wp_bind, wp_zoom. cbn [l_b]. apply boot_bio. intros b Hok Hp.
  cbn [set_lb l_log]. eapply mount_wp; [done..|]. intros s c. rewrite Hp. apply HQ.
Qed.
End ops.
