(* ===== verification/Tx.v ===== *)
(** The file system's view of the log and the buffer cache inside a
    transaction: how [bread], [log_write] and [brelse] act on the blocks a
    transaction sees and on the set it has dirtied. *)

From S2P Require Import Prelude Mmu Block Ide Bio Log LogSpec LogCrash LogOps.

(** What stays fixed during a transaction. *)
Record txp := Txp {
  x_start : Z; x_size : Z; x_out : Z; x_pid : Z; x_writes : list (bkey * block);
}.

Definition tx_of (s : lst) : txp :=
  Txp (l_start (l_log s)) (l_size (l_log s)) (l_outstanding (l_log s)) (mypid (l_b s)) (writes (l_b s)).

(** The block as the file system sees it. *)
Definition vw (c : cache) (b : Z) : block := c_view c (fkey b).

(** A logged change of one block. *)
Definition upd_block (b : Z) (x : block) (c : cache) : cache :=
  Cache (c_disk c) (<[fkey b := x]> (c_view c)) (c_held c) ({[fkey b]} ∪ c_dirty c).

(** How many blocks a transaction has dirtied, and how many it holds. *)
Definition ndirty (c : cache) : Z := Z.of_nat (size (c_dirty c)).
Definition nheld (c : cache) : Z := Z.of_nat (size (c_held c)).

Lemma drop_upd_hold b i x c :
  c_held c !! fkey b = None →
  drop_block (fkey b) (pin_block (fkey b) (edit_block (fkey b) x (hold_block (fkey b) i c))) = upd_block b x c.
Proof.
  intros H. destruct c. unfold drop_block, pin_block, edit_block, hold_block, upd_block. cbn in *.
  by rewrite delete_insert_id.
Qed.

Lemma vw_upd b x c : vw (upd_block b x c) b = x.
Proof. unfold vw, upd_block. cbn. by rewrite fn_lookup_insert. Qed.

Lemma vw_upd_ne b b' x c : b' ≠ b → vw (upd_block b x c) b' = vw c b'.
Proof. intros Hne. unfold vw, upd_block. cbn. rewrite fn_lookup_insert_ne; [done|]. by intros [=]. Qed.

Lemma size_union_le (X Y : gset bkey) : (size (X ∪ Y) ≤ size X + size Y)%nat.
Proof. rewrite size_union_alt. apply Nat.add_le_mono_l, subseteq_size. set_solver. Qed.

Lemma ndirty_upd b x c : ndirty c ≤ ndirty (upd_block b x c) ≤ ndirty c + 1.
Proof.
  unfold ndirty, upd_block. cbn.
  destruct (decide (fkey b ∈ c_dirty c)).
  - replace ({[fkey b]} ∪ c_dirty c) with (c_dirty c) by set_solver. lia.
  - rewrite size_union by set_solver. rewrite size_singleton. lia.
Qed.

Section tx.
Context (iderw : nat → M bst ()) `{!DiskDriver iderw} (Hds : disk_size ≤ 2 ^ 31).
Notation bread := (bread iderw).
Notation log_ok := (log_ok iderw).
Implicit Types (s : lst) (c : cache) (P : txp).

Definition tx_ok P s c : Prop := log_ok s c ∧ tx_of s = P.

(** A block that a transaction may change. *)
Definition tx_block P b : Prop := 0 ≤ b < disk_size ∧ ¬ (x_start P ≤ b < x_start P + x_size P).

Lemma log_ok_bio b l c b' c' :
  log_ok (Lst b l) c → bio_ok iderw b' c' → c_dirty c' = c_dirty c → c_disk c' = c_disk c →
  c_view c' (hkey l) = c_view c (hkey l) → log_ok (Lst b' l) c'.
Proof.
  intros [] Hok Ed Edk Ev. split; cbn [l_b l_log] in *; try done; rewrite ?Ed, ?Edk, ?Ev; done.
Qed.

Lemma used_bound c k : (size ({[k]} ∪ c_used c) ≤ 1 + size (c_held c) + size (c_dirty c))%nat.
Proof.
  unfold c_used. etrans; [apply size_union_le|]. rewrite size_singleton.
  etrans; [apply Nat.add_le_mono_l, size_union_le|]. rewrite size_dom. lia.
Qed.

Lemma tx_bread P s c b Q :
  tx_ok P s c → 0 ≤ b < disk_size → c_held c !! fkey b = None → ndirty c + nheld c < Z.of_nat NBUF →
  (∀ s' i, tx_ok P s' (hold_block (fkey b) i c) → Q i s') →
  wp (in_b (bread 1 b)) Q s.
Proof.
  intros [L E] Hb Hh Hn HQ. destruct s as [bs l]. apply wp_zoom. cbn [l_b].
  eapply (bread_wp iderw _ _ (fkey b)); [apply L|by split|done| |].
  { etrans; [apply used_bound|]. unfold ndirty, nheld in Hn. lia. }
  intros bs' i Hok Hw Hp. apply HQ. split; [|unfold tx_of in *; cbn in *; congruence].
  by eapply log_ok_bio.
Qed.

Lemma tx_data P s c b i Q :
  tx_ok P s c → c_held c !! fkey b = Some i → Q (vw c b) s → wp (in_b (buf_data i)) Q s.
Proof.
  intros [L E] Hh HQ. destruct s as [bs l]. apply wp_zoom. cbn [l_b].
  by eapply (buf_data_wp iderw _ _ (fkey b)); [apply L|done|].
Qed.

Lemma tx_set P s c b i x Q :
  tx_ok P s c → c_held c !! fkey b = Some i → tx_block P b →
  (∀ s', tx_ok P s' (edit_block (fkey b) x c) → Q tt s') →
  wp (in_b (set_data i x)) Q s.
Proof.
  intros [L E] Hh [_ Hb] HQ. destruct s as [bs l]. apply wp_zoom. cbn [l_b].
  eapply (set_data_wp iderw _ _ (fkey b)); [apply L|done|]. intros bs' Hok Hw Hp.
  apply HQ. split; [|unfold tx_of in *; cbn in *; congruence]. eapply log_ok_bio; [done|done|done|done|].
  cbn. rewrite fn_lookup_insert_ne; [done|]. intros [= ->]. apply Hb. subst P. cbn.
  pose proof (lw_size _ _ (lo_wf _ _ _ L)). cbn in *. lia.
Qed.

(** A transaction has room while fewer than [log.size - 1] blocks are dirty. *)
Lemma ndirty_n s c : log_ok s c → l_n (l_log s) = ndirty c.
Proof.
  intros L. unfold ndirty. rewrite (lo_pin _ _ _ L). unfold pinned.
  rewrite size_list_to_set by (apply NoDup_fmap; [by intros ? ? [=]|apply (lw_nodup _ _ (lo_wf _ _ _ L))]).
  rewrite length_fmap, (lblocks_len iderw) by apply L. pose proof (lw_n _ _ (lo_wf _ _ _ L)). lia.
Qed.

Lemma tx_log_write P s c b i Q :
  tx_ok P s c → c_held c !! fkey b = Some i → tx_block P b → ndirty c < x_size P - 1 → 1 ≤ x_out P →
  (∀ s', tx_ok P s' (pin_block (fkey b) c) → Q tt s') →
  wp (log_write i) Q s.
Proof using Hds.
  intros [L E] Hh [Hr Hb] Hn Ho HQ. subst P. cbn in *.
  eapply (log_write_wp iderw Hds s c b i); [done|done|done|done| |done|].
  - by rewrite (ndirty_n s c).
  - intros s' L' _ E1 E2 E3 E4 E5. apply HQ. split; [done|]. unfold tx_of. congruence.
Qed.

Lemma tx_brelse P s c b i Q :
  tx_ok P s c → c_held c !! fkey b = Some i → fkey b ∈ c_dirty c ∨ vw c b = c_disk c (fkey b) →
  (∀ s', tx_ok P s' (drop_block (fkey b) c) → Q tt s') →
  wp (in_b (brelse i)) Q s.
Proof.
  intros [L E] Hh Hcl HQ. destruct s as [bs l]. apply wp_zoom. cbn [l_b].
  eapply (brelse_wp iderw _ _ (fkey b)); [apply L|done|done|]. intros bs' Hok Hw Hp. apply HQ.
  split; [|unfold tx_of in *; cbn in *; congruence]. by eapply log_ok_bio.
Qed.

(** A block that nobody holds is clean or dirty. *)
Lemma tx_clean P s c b :
  tx_ok P s c → c_held c !! fkey b = None → fkey b ∈ c_dirty c ∨ vw c b = c_disk c (fkey b).
Proof.
  intros [L _] Hh. destruct (decide (fkey b ∈ c_dirty c)); [by left|right].
  by apply (ca_clean _ _ (proj1 (lo_bio _ _ _ L))).
Qed.

(** Releasing a block that was only read. *)
Lemma tx_brelse_read P s c b i Q :
  tx_ok P s (hold_block (fkey b) i c) → c_held c !! fkey b = None →
  fkey b ∈ c_dirty c ∨ vw c b = c_disk c (fkey b) →
  (∀ s', tx_ok P s' c → Q tt s') → wp (in_b (brelse i)) Q s.
Proof.
  intros T Hh Hcl HQ. eapply (tx_brelse _ _ _ b); [done|apply lookup_insert_eq|exact Hcl|].
  intros s' T'. rewrite drop_block_hold in T' by done. by apply HQ.
Qed.

(** Changing a block that is held, logging and releasing it. *)
Lemma tx_update {A} P s c b i x (k : () → M lst A) Q :
  tx_ok P s (hold_block (fkey b) i c) → c_held c !! fkey b = None → tx_block P b →
  ndirty c < x_size P - 1 → 1 ≤ x_out P →
  (∀ s', tx_ok P s' (upd_block b x c) → wp (k tt) Q s') →
  wp (in_b (set_data i x);; log_write i;; in_b (brelse i) ≫= k) Q s.
Proof using Hds.
  intros T Hh Hb Hn Ho HQ. apply wp_bind. eapply (tx_set _ _ _ b); [done|apply lookup_insert_eq|done|].
  intros s1 T1. apply wp_bind. eapply (tx_log_write _ _ _ b); [done|apply lookup_insert_eq|done|done|done|].
  intros s2 T2. apply wp_bind. eapply (tx_brelse _ _ _ b); [done|apply lookup_insert_eq|left; set_solver|].
  intros s3 T3. rewrite drop_upd_hold in T3 by done. by apply HQ.
Qed.
End tx.

(** ** A small disk *)

(** A run of the log: boot a disk as [mkfs] formats it, change one block in
    a transaction, and commit. *)

(** The superblock [mkfs] writes for [FSSIZE] blocks. *)
Definition demo_sb : block :=
  (([1000; 941; 200; 30; 2; 32; 58] : list Z) ≫= to_le 4) ++ replicate 484 0.
Definition demo_disk : gmap bkey block := {[ fkey 1 := demo_sb ]}.
Definition demo_log : logst := Log 2 30 0 false 1 0 (replicate 30 0).
Definition demo_data : block := replicate 512 7.
Notation drv := (mem_iderw 1000).

(** Boot, open a transaction and change block 100. *)
Definition demo_tx : M lst () :=
  (in_b binit;; initlog drv 1);;
  begin_op;;
  bp ← in_b (bread drv 1 100);
  in_b (set_data bp demo_data);;
  log_write bp;;
  in_b (brelse bp);;
  mret tt.

Lemma demo_ds : @disk_size drv _ ≤ 2 ^ 31.
Proof. cbn. lia. Qed.

Lemma demo_tx_wp Q :
  (∀ s c, log_ok drv s c → c_held c = ∅ → c_dirty c = {[fkey 100]} →
     vw c 100 = demo_data → c_disk c (fkey 100) = zero_block → same_log demo_log (l_log s) → sb_log demo_log (parse_sb (c_disk c (fkey 1))) → Q tt s) →
  wp demo_tx Q (Lst (boot_bst demo_disk 1) boot_log).
Proof.
  intros HQ. unfold demo_tx. apply wp_bind. eapply (boot_wp drv demo_ds demo_disk 1 demo_log).
  - by split.
  - by split.
  - cbn. lia.
  - apply (header_ok_empty drv); [by split|done].
  - done.
  - intros s c L [Hh Hd] En Eo [Es Ez] Hp Hv. apply wp_bind. eapply (begin_op_wp drv); [exact L|rewrite En, Eo; unfold LOGSIZE, MAXOPBLOCKS; lia|].
    rewrite Eo. set (s1 := set_log _ _). intros L1.
    assert (tx_ok drv (tx_of s1) s1 c) as T by by split.
    assert (tx_block drv (tx_of s1) 100) as Hb by (split; cbn; [lia|rewrite Es, Ez; cbn; lia]).
    apply wp_bind. eapply (tx_bread drv _ s1 c 100); [done|cbn; lia|by rewrite Hh|unfold ndirty, nheld; by rewrite Hh, Hd, size_empty, map_size_empty|].
    intros s2 i T2.
    eapply (tx_update drv demo_ds _ s2 c 100 i demo_data (λ _, mret tt)); [done|by rewrite Hh|done| | |].
    { unfold ndirty. rewrite Hd, size_empty. cbn [x_size tx_of s1 l_log set_log l_size set_outstanding]. by rewrite Ez. }
    { cbn. lia. }
    intros s3 [L3 E3]. injection E3 as E31 E32 _ _ _. apply wp_ret.
    assert (∀ b, ¬ in_log demo_log b → c_disk c (fkey b) = disk_block demo_disk (fkey b)) as Hdk.
    { intros b Hb0. rewrite <- (ca_clean _ _ (proj1 (lo_bio _ _ _ L))) by (rewrite ?Hh, ?Hd; set_solver). by rewrite Hv. }
    eapply HQ; [exact L3|done|cbn; rewrite Hd; set_solver|apply vw_upd| |split; congruence|];
      cbn; (rewrite Hdk by (unfold in_log; cbn; lia)); [done|by split].
Qed.

(** The commit of that transaction, cut off anywhere. *)
Lemma commit_atomic_witness :
  wp (demo_tx;; b ← gets l_b; commit drv;; mret b) (λ b s', ∃ ws,
    writes (l_b s') = writes b ++ ws ∧ disk_block (disk (l_b s')) (fkey 100) = demo_data ∧
    ∀ ws1 ws2, ws = ws1 ++ ws2 → wp (in_b binit;; initlog drv 1) (λ _ s2,
      disk_block (disk (l_b s2)) (fkey 100) = zero_block ∨ disk_block (disk (l_b s2)) (fkey 100) = demo_data)
      (crashed (disk b) ws1 2)) (Lst (boot_bst demo_disk 1) boot_log).
Proof.
  apply wp_bind, demo_tx_wp. intros s c L Hh Hd Hv H0 [Es Ez] Hsb. apply wp_bind, wp_gets, wp_bind.
  pose proof (ndirty_n _ _ _ L) as En. unfold ndirty in En. rewrite Hd, size_singleton in En.
  destruct s as [b l]. cbn [l_log l_b] in *.
  assert (1 ∉ lblocks l) as H1.
  { intros H1. assert (fkey 1 ∈ pinned l) as Hp by (apply elem_of_pinned; by exists 1).
    pose proof (lo_pin _ _ _ L) as Ep. cbn [l_log] in Ep. rewrite <- Ep, Hd in Hp. set_solver. }
  assert (∀ x, x = 1 ∨ x = 100 → ¬ in_log l x) as Hnl by (intros x Hx; unfold in_log; rewrite Es, Ez; cbn; lia).
  eapply wp_mono; [apply (commit_atomic drv demo_ds b l c); [apply L|apply L|done|apply L|lia|apply L| |cbn; lia| |done|auto]|].
  - destruct (lo_view _ _ _ L) as [Ev El]. cbn in Ev, El. by rewrite Ev.
  - split; rewrite ?Es, ?Ez; apply Hsb.
  - intros [] s' (ws & Ew & Hdone & Hcr). apply wp_ret. exists ws. split; [done|].
    split; [rewrite Hdone by auto; exact Hv|]. intros ws1 ws2 E. eapply wp_mono; [by apply (Hcr ws1 ws2 2)|].
    intros [] s2 [Ho|Ho]; [left|right]; rewrite Ho by auto; done.
Defined.
