(* ===== verification/Fs.v ===== *)
(** The file system (fs.c, with the data of fs.h, file.h and stat.h): blocks,
    inodes, directories and path names, on top of the log.

    An inode pointer is an index of [icache.inode]; a null pointer is [None]
    where the code can return one.  [icache.lock] makes its critical sections
    atomic and is not a state of its own; sleep locks and reference counts
    are.  A [char *] argument is the list of the bytes it points to; the
    bytes a function stores through a pointer are part of its result. *)

From S2P Require Import Prelude Mmu Block Ide Bio Log.

(** ** On-disk data (fs.h) *)

Definition ROOTINO : Z := 1.
Definition NDIRECT : Z := 12.
Definition NINDIRECT : Z := BSIZE / 4.
Definition MAXFILE : Z := NDIRECT + NINDIRECT.
Definition IPB : Z := BSIZE / 64.
Definition IBLOCK (i : Z) (sb : superblock) : Z := u32 (i / IPB + sb_inodestart sb).
Definition BPB : Z := BSIZE * 8.
Definition BBLOCK (b : Z) (sb : superblock) : Z := u32 (b / BPB + sb_bmapstart sb).
Definition DIRSIZ : nat := 14.
Definition T_DIR : Z := 1.
Definition T_FILE : Z := 2.
Definition T_DEV : Z := 3.

(** [short]. *)
Definition i16 (x : Z) : Z := (x + 2 ^ 15) mod 2 ^ 16 - 2 ^ 15.

(** [struct dinode]. *)
Record dinode := Din {
  d_type : Z; d_major : Z; d_minor : Z; d_nlink : Z; d_size : Z; d_addrs : list Z;
}.

(** The inode at byte [off] of a block, field by field. *)
Definition load_dinode (x : block) (off : nat) : dinode :=
  Din (i16 (get16 x off)) (i16 (get16 x (off + 2))) (i16 (get16 x (off + 4))) (i16 (get16 x (off + 6)))
    (get32 x (off + 8)) ((λ i, get32 x (off + 12 + 4 * i)) <$> seq 0 13).

Fixpoint store_addrs (x : block) (off : nat) (l : list Z) : block :=
  match l with
  | [] => x
  | a :: l' => store_addrs (put32 x off a) (off + 4) l'
  end.

Definition store_dinode (x : block) (off : nat) (d : dinode) : block :=
  let x := put16 x off (u16 (d_type d)) in
  let x := put16 x (off + 2) (u16 (d_major d)) in
  let x := put16 x (off + 4) (u16 (d_minor d)) in
  let x := put16 x (off + 6) (u16 (d_nlink d)) in
  let x := put32 x (off + 8) (d_size d) in
  store_addrs x (off + 12) (d_addrs d).

(** [struct dirent]. *)
Record dirent := Dirent { de_inum : Z; de_name : list Z }.
Definition load_dirent (x : list Z) : dirent := Dirent (get16 x 0) (bytes_at x 2 DIRSIZ).
Definition store_dirent (de : dirent) : list Z := to_le 2 (de_inum de) ++ de_name de.

(** ** In-memory data (file.h, stat.h) *)

(** [struct inode]; the copy of the disk inode is [i_d]. *)
Record inode := Ino {
  i_dev : Z; i_inum : Z; i_ref : Z; i_lock : sleeplock; i_valid : bool; i_d : dinode;
}.

Definition set_i_ref (n : Z) (i : inode) : inode := Ino (i_dev i) (i_inum i) n (i_lock i) (i_valid i) (i_d i).
Definition set_i_lock (l : sleeplock) (i : inode) : inode := Ino (i_dev i) (i_inum i) (i_ref i) l (i_valid i) (i_d i).
Definition set_i_valid (v : bool) (i : inode) : inode := Ino (i_dev i) (i_inum i) (i_ref i) (i_lock i) v (i_d i).
Definition set_i_d (d : dinode) (i : inode) : inode := Ino (i_dev i) (i_inum i) (i_ref i) (i_lock i) (i_valid i) d.

Definition set_type (x : Z) (d : dinode) : dinode :=
  Din x (d_major d) (d_minor d) (d_nlink d) (d_size d) (d_addrs d).
Definition set_dev (x y : Z) (d : dinode) : dinode :=
  Din (d_type d) x y (d_nlink d) (d_size d) (d_addrs d).
Definition set_nlink (x : Z) (d : dinode) : dinode :=
  Din (d_type d) (d_major d) (d_minor d) x (d_size d) (d_addrs d).
Definition set_size (x : Z) (d : dinode) : dinode :=
  Din (d_type d) (d_major d) (d_minor d) (d_nlink d) x (d_addrs d).
Definition set_addr (i : Z) (x : Z) (d : dinode) : dinode :=
  Din (d_type d) (d_major d) (d_minor d) (d_nlink d) (d_size d) (<[Z.to_nat i := x]> (d_addrs d)).

(** [struct stat]. *)
Record stat := Stat { st_type : Z; st_dev : Z; st_ino : Z; st_nlink : Z; st_size : Z }.

(** The log, the superblock, the inode cache, and the current directory of
    the process that runs. *)
Record fsst := Fsst { f_l : lst; f_sb : superblock; f_inodes : list inode; f_cwd : nat }.

Definition set_fl (l : lst) (s : fsst) : fsst := Fsst l (f_sb s) (f_inodes s) (f_cwd s).
Definition set_fsb (sb : superblock) (s : fsst) : fsst := Fsst (f_l s) sb (f_inodes s) (f_cwd s).
Definition set_inodes (l : list inode) (s : fsst) : fsst := Fsst (f_l s) (f_sb s) l (f_cwd s).
Definition in_l {A} (m : M lst A) : M fsst A := zoom f_l set_fl m.
Definition get_inode (ip : nat) : M fsst inode :=
  i ← gets (λ s, f_inodes s !! ip);
  match i with Some i => mret i | None => fault "icache index" end.
Definition mod_inode (ip : nat) (f : inode → inode) : M fsst () :=
  modify (λ s, set_inodes (alter f ip (f_inodes s)) s).
Definition mod_d (ip : nat) (f : dinode → dinode) : M fsst () :=
  mod_inode ip (λ i, set_i_d (f (i_d i)) i).
Definition addr_of (d : dinode) (i : Z) : Z := nth (Z.to_nat i) (d_addrs d) 0.

(** ** Blocks *)

Section fs.
Context (iderw : nat → M bst ()).

Definition fbread (dev b : Z) : M fsst nat := in_l (in_b (bread iderw dev b)).
Definition fdata (bp : nat) : M fsst block := in_l (in_b (buf_data bp)).
Definition fset (bp : nat) (x : block) : M fsst () := in_l (in_b (set_data bp x)).
Definition flog (bp : nat) : M fsst () := in_l (log_write bp).
Definition fbrelse (bp : nat) : M fsst () := in_l (in_b (brelse bp)).

Definition bzero (dev bno : Z) : M fsst () :=
  bp ← fbread dev bno;
  fset bp zero_block;;
  flog bp;;
  fbrelse bp.

(** The test of one bit of the free map, and its update. *)
Definition byte_at (x : block) (bi : Z) : Z := nth (Z.to_nat (bi / 8)) x 0.
Definition bit_mask (bi : Z) : Z := Z.shiftl 1 (bi mod 8).
Definition bit_clear (x : block) (bi : Z) : bool := Z.land (byte_at x bi) (bit_mask bi) =? 0.
Definition set_bit (x : block) (bi : Z) : block :=
  <[Z.to_nat (bi / 8) := Z.lor (byte_at x bi) (bit_mask bi)]> x.
Definition clear_bit (x : block) (bi : Z) : block :=
  <[Z.to_nat (bi / 8) := Z.land (byte_at x bi) (u8 (Z.lnot (bit_mask bi)))]> x.

(** The inner loop of [balloc]: the first clear bit. *)
Fixpoint first_clear (x : block) (l : list Z) : option Z :=
  match l with
  | [] => None
  | bi :: l' => if bit_clear x bi then Some bi else first_clear x l'
  end.

Fixpoint balloc_loop (dev : Z) (bs : list Z) : M fsst Z :=
  match bs with
  | [] => panic "balloc: out of blocks"
  | b :: bs' =>
    sb ← gets f_sb;
    bp ← fbread dev (BBLOCK b sb);
    x ← fdata bp;
    match first_clear x (seqZ 0 (BPB `min` (sb_size sb - b))) with
    | Some bi =>
      fset bp (set_bit x bi);;
      flog bp;;
      fbrelse bp;;
      bzero dev (b + bi);;
      mret (b + bi)
    | None => fbrelse bp;; balloc_loop dev bs'
    end
  end.

Definition balloc (dev : Z) : M fsst Z :=
  sb ← gets f_sb;
  balloc_loop dev ((λ k, k * BPB) <$> seqZ 0 ((sb_size sb + BPB - 1) / BPB)).

Definition bfree (dev b : Z) : M fsst () :=
  sb ← gets f_sb;
  bp ← fbread dev (BBLOCK b sb);
  x ← fdata bp;
  let bi := b mod BPB in
  if bit_clear x bi then panic "freeing free block" else
  fset bp (clear_bit x bi);;
  flog bp;;
  fbrelse bp.


(** ** Inodes *)

Definition iinit (dev : Z) : M fsst () :=
  modify (λ s, set_inodes (set_i_lock initsleeplock <$> f_inodes s) s);;
  sb ← in_l (in_b (readsb iderw dev));
  modify (set_fsb sb).

(** [iget]'s scan: the entry for the inode, or the first empty slot. *)
Fixpoint iget_scan (dev inum : Z) (l : list inode) (i : nat) (empty : option nat) : option nat * option nat :=
  match l with
  | [] => (None, empty)
  | ip :: l' =>
    if (0 <? i_ref ip) && (i_dev ip =? dev) && (i_inum ip =? inum) then (Some i, empty) else
    iget_scan dev inum l' (S i)
      (match empty with None => if i_ref ip =? 0 then Some i else None | Some _ => empty end)
  end.

Definition iget (dev inum : Z) : M fsst nat :=
  l ← gets f_inodes;
  match iget_scan dev inum l 0 None with
  | (Some ip, _) => mod_inode ip (λ i, set_i_ref (i_ref i + 1) i);; mret ip
  | (None, None) => panic "iget: no inodes"
  | (None, Some ip) =>
    mod_inode ip (λ i, Ino dev inum 1 (i_lock i) false (i_d i));; mret ip
  end.

(** Byte offset of an inode in its block. *)
Definition inode_off (inum : Z) : nat := Z.to_nat (inum mod IPB * 64).

Fixpoint ialloc_loop (dev type : Z) (l : list Z) : M fsst nat :=
  match l with
  | [] => panic "ialloc: no inodes"
  | inum :: l' =>
    sb ← gets f_sb;
    bp ← fbread dev (IBLOCK inum sb);
    x ← fdata bp;
    let off := inode_off inum in
    if i16 (get16 x off) =? 0 then
      fset bp (put16 (put_bytes x off (replicate 64 0)) off (u16 type));;
      flog bp;;
      fbrelse bp;;
      iget dev inum
    else fbrelse bp;; ialloc_loop dev type l'
  end.

Definition ialloc (dev type : Z) : M fsst nat :=
  sb ← gets f_sb;
  ialloc_loop dev type (seqZ 1 (sb_ninodes sb - 1)).

Definition iupdate (ip : nat) : M fsst () :=
  i ← get_inode ip;
  sb ← gets f_sb;
  bp ← fbread (i_dev i) (IBLOCK (i_inum i) sb);
  x ← fdata bp;
  fset bp (store_dinode x (inode_off (i_inum i)) (i_d i));;
  flog bp;;
  fbrelse bp.

Definition idup (ip : nat) : M fsst nat :=
  mod_inode ip (λ i, set_i_ref (i_ref i + 1) i);;
  mret ip.

(** [acquiresleep(&ip->lock)]. *)
Definition inode_acquire (ip : nat) : M fsst () :=
  i ← get_inode ip;
  pid ← gets (λ s, mypid (l_b (f_l s)));
  match acquiresleep pid (i_lock i) with
  | None => sleep_on (ChInodeLock ip)
  | Some l => mod_inode ip (set_i_lock l)
  end.

Definition ilock (ip : nat) : M fsst () :=
  i ← get_inode ip;
  if i_ref i <? 1 then panic "ilock" else
  inode_acquire ip;;
  i ← get_inode ip;
  if i_valid i then mret tt else
  sb ← gets f_sb;
  bp ← fbread (i_dev i) (IBLOCK (i_inum i) sb);
  x ← fdata bp;
  mod_inode ip (set_i_d (load_dinode x (inode_off (i_inum i))));;
  fbrelse bp;;
  mod_inode ip (set_i_valid true);;
  i ← get_inode ip;
  if d_type (i_d i) =? 0 then panic "ilock: no type" else mret tt.

Definition iunlock (ip : nat) : M fsst () :=
  i ← get_inode ip;
  pid ← gets (λ s, mypid (l_b (f_l s)));
  if negb (holdingsleep pid (i_lock i)) || (i_ref i <? 1) then panic "iunlock" else
  mod_inode ip (λ i, set_i_lock (releasesleep (i_lock i)) i).

(** ** Inode content *)

Definition bmap (ip : nat) (bn : Z) : M fsst Z :=
  i ← get_inode ip;
  if bn <? NDIRECT then
    let addr := addr_of (i_d i) bn in
    if addr =? 0 then
      addr ← balloc (i_dev i);
      mod_d ip (set_addr bn addr);;
      mret addr
    else mret addr
  else
  let bn := bn - NDIRECT in
  if bn <? NINDIRECT then
    let addr := addr_of (i_d i) NDIRECT in
    addr ← (if addr =? 0 then
              addr ← balloc (i_dev i);
              mod_d ip (set_addr NDIRECT addr);;
              mret addr
            else mret addr);
    bp ← fbread (i_dev i) addr;
    x ← fdata bp;
    let addr := get32 x (Z.to_nat (4 * bn)) in
    addr ← (if addr =? 0 then
              addr ← balloc (i_dev i);
              x ← fdata bp;
              fset bp (put32 x (Z.to_nat (4 * bn)) addr);;
              flog bp;;
              mret addr
            else mret addr);
    fbrelse bp;;
    mret addr
  else panic "bmap: out of range".

Definition trunc_direct (ip : nat) (k : Z) : M fsst () :=
  i ← get_inode ip;
  when (negb (addr_of (i_d i) k =? 0)) (
    bfree (i_dev i) (addr_of (i_d i) k);;
    mod_d ip (set_addr k 0)).

Definition trunc_entry (dev : Z) (bp : nat) (j : Z) : M fsst () :=
  x ← fdata bp;
  let a := get32 x (Z.to_nat (4 * j)) in
  when (negb (a =? 0)) (bfree dev a).

Definition itrunc (ip : nat) : M fsst () :=
  for_each (seqZ 0 NDIRECT) (trunc_direct ip);;
  i ← get_inode ip;
  let a := addr_of (i_d i) NDIRECT in
  when (negb (a =? 0)) (
    bp ← fbread (i_dev i) a;
    for_each (seqZ 0 NINDIRECT) (trunc_entry (i_dev i) bp);;
    fbrelse bp;;
    bfree (i_dev i) a;;
    mod_d ip (set_addr NDIRECT 0));;
  mod_d ip (set_size 0);;
  iupdate ip.

Definition iput (ip : nat) : M fsst () :=
  inode_acquire ip;;
  i ← get_inode ip;
  when (i_valid i && (d_nlink (i_d i) =? 0)) (
    when (i_ref i =? 1) (
      itrunc ip;;
      mod_d ip (set_type 0);;
      iupdate ip;;
      mod_inode ip (set_i_valid false)));;
  mod_inode ip (λ i, set_i_lock (releasesleep (i_lock i)) i);;
  mod_inode ip (λ i, set_i_ref (i_ref i - 1) i).

Definition iunlockput (ip : nat) : M fsst () :=
  iunlock ip;;
  iput ip.

Definition stati (ip : nat) : M fsst stat :=
  i ← get_inode ip;
  mret (Stat (d_type (i_d i)) (i32 (i_dev i)) (i_inum i) (d_nlink (i_d i)) (d_size (i_d i))).


(** ** Reading and writing

    [devsw]: the driver's functions for a major number, if it has them.
    They return what the call returns; a read also the bytes it stores. *)
Context (dev_read : Z → option (nat → Z → M fsst (Z * list Z))).
Context (dev_write : Z → option (nat → list Z → M fsst Z)).

Definition dev_ok (major : Z) : bool := negb ((major <? 0) || (NDEV <=? major)).

(** The loop of [readi]: at most [n / BSIZE + 2] blocks are read. *)
Fixpoint readi_loop (fuel : nat) (ip : nat) (off tot n : Z) (dst : list Z) : M fsst (list Z) :=
  if tot <? n then
    match fuel with
    | O => fault "readi loop"
    | S fuel =>
      i ← get_inode ip;
      addr ← bmap ip (off / BSIZE);
      bp ← fbread (i_dev i) addr;
      let m := (n - tot) `min` (BSIZE - off mod BSIZE) in
      x ← fdata bp;
      fbrelse bp;;
      readi_loop fuel ip (u32 (off + m)) (tot + m) n (dst ++ bytes_at x (Z.to_nat (off mod BSIZE)) (Z.to_nat m))
    end
  else mret dst.

(** The value returned, and the bytes stored at [dst]. *)
Definition readi (ip : nat) (off n : Z) : M fsst (Z * list Z) :=
  i ← get_inode ip;
  if d_type (i_d i) =? T_DEV then
    if dev_ok (d_major (i_d i)) then
      match dev_read (d_major (i_d i)) with
      | Some f => f ip n
      | None => mret (-1, [])
      end
    else mret (-1, [])
  else
  let size := d_size (i_d i) in
  if (size <? off) || (u32 (off + n) <? off) then mret (-1, []) else
  let n := if size <? u32 (off + n) then size - off else n in
  dst ← readi_loop (Z.to_nat (n / BSIZE) + 2) ip off 0 n [];
  mret (i32 n, dst).

(** The loop of [writei] returns the final [off]. *)
Fixpoint writei_loop (fuel : nat) (ip : nat) (src : list Z) (off tot n : Z) : M fsst Z :=
  if tot <? n then
    match fuel with
    | O => fault "writei loop"
    | S fuel =>
      i ← get_inode ip;
      addr ← bmap ip (off / BSIZE);
      bp ← fbread (i_dev i) addr;
      let m := (n - tot) `min` (BSIZE - off mod BSIZE) in
      x ← fdata bp;
      fset bp (put_bytes x (Z.to_nat (off mod BSIZE)) (take (Z.to_nat m) src));;
      flog bp;;
      fbrelse bp;;
      writei_loop fuel ip (drop (Z.to_nat m) src) (u32 (off + m)) (tot + m) n
    end
  else mret off.

(** [src] holds the [n] bytes to write. *)
Definition writei (ip : nat) (src : list Z) (off : Z) : M fsst Z :=
  i ← get_inode ip;
  let n := Z.of_nat (length src) in
  if d_type (i_d i) =? T_DEV then
    if dev_ok (d_major (i_d i)) then
      match dev_write (d_major (i_d i)) with
      | Some f => f ip src
      | None => mret (-1)
      end
    else mret (-1)
  else
  if (d_size (i_d i) <? off) || (u32 (off + n) <? off) then mret (-1) else
  if MAXFILE * BSIZE <? u32 (off + n) then mret (-1) else
  off ← writei_loop (Z.to_nat (n / BSIZE) + 2) ip src off 0 n;
  i ← get_inode ip;
  when ((0 <? n) && (d_size (i_d i) <? off)) (
    mod_d ip (set_size off);;
    iupdate ip);;
  mret (i32 n).

(** ** Directories *)

(** [strncmp] on the bytes before the terminating NUL. *)
Fixpoint strncmp_bytes (n : nat) (p q : list Z) : Z :=
  match n with
  | O => 0
  | S n' =>
    let a := hd 0 p in let b := hd 0 q in
    if negb (a =? 0) && (a =? b) then strncmp_bytes n' (tail p) (tail q) else a - b
  end.

Definition namecmp (s t : list Z) : Z := strncmp_bytes DIRSIZ s t.

(** [for(off = 0; off < dp->size; off += sizeof(de))]. *)
Definition dir_offs (size : Z) : list Z := (λ k, k * 16) <$> seqZ 0 ((size + 15) / 16).

Definition read_dirent (dp : nat) (off : Z) (msg : string) : M fsst dirent :=
  r ← readi dp off 16;
  if r.1 =? 16 then mret (load_dirent r.2) else panic msg.

Fixpoint dirlookup_loop (dp : nat) (name : list Z) (offs : list Z) : M fsst (option (nat * Z)) :=
  match offs with
  | [] => mret None
  | off :: offs' =>
    de ← read_dirent dp off "dirlookup read";
    if de_inum de =? 0 then dirlookup_loop dp name offs' else
    if namecmp name (de_name de) =? 0 then
      i ← get_inode dp;
      ip ← iget (i_dev i) (de_inum de);
      mret (Some (ip, off))
    else dirlookup_loop dp name offs'
  end.

(** The inode of the entry and, for [poff], its offset. *)
Definition dirlookup (dp : nat) (name : list Z) : M fsst (option (nat * Z)) :=
  i ← get_inode dp;
  if negb (d_type (i_d i) =? T_DIR) then panic "dirlookup not DIR" else
  dirlookup_loop dp name (dir_offs (d_size (i_d i))).

(** The offset of the first empty entry, or of the end. *)
Fixpoint dirlink_loop (dp : nat) (offs : list Z) (end_off : Z) : M fsst Z :=
  match offs with
  | [] => mret end_off
  | off :: offs' =>
    de ← read_dirent dp off "dirlink read";
    if de_inum de =? 0 then mret off else dirlink_loop dp offs' end_off
  end.

(** [strncpy(de.name, name, DIRSIZ)] for a name without NUL bytes. *)
Definition name_field (name : list Z) : list Z :=
  take DIRSIZ name ++ replicate (DIRSIZ - length name) 0.

Definition dirlink (dp : nat) (name : list Z) (inum : Z) : M fsst Z :=
  r ← dirlookup dp name;
  match r with
  | Some (ip, _) => iput ip;; mret (-1)
  | None =>
    i ← get_inode dp;
    let size := d_size (i_d i) in
    off ← dirlink_loop dp (dir_offs size) ((size + 15) / 16 * 16);
    n ← writei dp (store_dirent (Dirent (u16 inum) (name_field name))) off;
    if n =? 16 then mret 0 else panic "dirlink"
  end.

(** ** Paths *)

Definition slash : Z := 47.

Fixpoint skip_slashes (path : list Z) : list Z :=
  match path with
  | c :: path' => if c =? slash then skip_slashes path' else path
  | [] => []
  end.

(** The element before the next slash, and what follows it. *)
Fixpoint split_elem (path : list Z) : list Z * list Z :=
  match path with
  | c :: path' => if c =? slash then ([], path) else let (s, r) := split_elem path' in (c :: s, r)
  | [] => ([], [])
  end.

(** The rest of the path, and the name copied. *)
Definition skipelem (path : list Z) : option (list Z * list Z) :=
  match skip_slashes path with
  | [] => None
  | p => let (s, r) := split_elem p in Some (skip_slashes r, take DIRSIZ s)
  end.

(** [namex]'s loop: every step shortens the path.  [name] is what [name]
    holds when the loop ends. *)
Fixpoint namex_loop (fuel : nat) (ip : nat) (path name : list Z) (nameiparent : bool) :
    M fsst (option nat * list Z) :=
  match skipelem path with
  | None =>
    if nameiparent then iput ip;; mret (None, name) else mret (Some ip, name)
  | Some (path, name) =>
    match fuel with
    | O => fault "namex loop"
    | S fuel =>
      ilock ip;;
      i ← get_inode ip;
      if negb (d_type (i_d i) =? T_DIR) then iunlockput ip;; mret (None, name) else
      if nameiparent && bool_decide (path = []) then iunlock ip;; mret (Some ip, name) else
      r ← dirlookup ip name;
      match r with
      | None => iunlockput ip;; mret (None, name)
      | Some (next, _) => iunlockput ip;; namex_loop fuel next path name nameiparent
      end
    end
  end.

Definition namex (path : list Z) (nameiparent : bool) : M fsst (option nat * list Z) :=
  cwd ← gets f_cwd;
  ip ← (match path with
        | c :: _ => if c =? slash then iget ROOTDEV ROOTINO else idup cwd
        | [] => idup cwd
        end);
  namex_loop (length path) ip path [] nameiparent.

Definition namei (path : list Z) : M fsst (option nat) :=
  r ← namex path false; mret r.1.

Definition nameiparent (path : list Z) : M fsst (option nat * list Z) := namex path true.
End fs.
