(* ===== verification/FsAlloc.v ===== *)
(** The free map: [balloc] and [bfree] (fs.c) against the set of blocks in
    use. *)

From S2P Require Import Prelude Mmu Block Ide Bio Log LogSpec LogCrash LogOps Tx Fs.

(** ** Bits of a block *)

Definition bit (x : block) (bi : Z) : bool := Z.testbit (byte_at x bi) (bi mod 8).

Lemma testbit_mask bi k : 0 ≤ k → Z.testbit (bit_mask bi) k = (k =? bi mod 8).
Proof.
  intros Hk. unfold bit_mask. pose proof (Z.mod_pos_bound bi 8). rewrite Z.shiftl_1_l, Z.pow2_bits_eqb by lia. apply Z.eqb_sym.
Qed.

Lemma bit_clear_bit x bi : bit_clear x bi = negb (bit x bi).
Proof.
  unfold bit_clear, bit. pose proof (Z.mod_pos_bound bi 8). apply Bool.eq_true_iff_eq.
  rewrite Z.eqb_eq, negb_true_iff. split; intros Hc.
  - apply (f_equal (λ z, Z.testbit z (bi mod 8))) in Hc.
    rewrite Z.land_spec, testbit_mask, Z.eqb_refl, andb_true_r, Z.bits_0 in Hc by lia. done.
  - apply Z.bits_inj_0. intros k. destruct (Z.neg_nonneg_cases k) as [?|Hk]; [by apply Z.testbit_neg_r|].
    rewrite Z.land_spec, testbit_mask by done. destruct (Z.eqb_spec k (bi mod 8)) as [->|]; [by rewrite Hc|apply andb_false_r].
Qed.

(** Bytes are closed under the bit operations. *)
Lemma byte_lor a b : 0 ≤ a < 256 → 0 ≤ b < 256 → 0 ≤ Z.lor a b < 256.
Proof.
  intros Ha Hb. assert (Z.lor a b = Z.lor a b mod 2 ^ 8) as ->; [|apply Z.mod_pos_bound; lia].
  apply Z.bits_inj'. intros k Hk. destruct (decide (k < 8)).
  - by rewrite Z.mod_pow2_bits_low by lia.
  - rewrite Z.mod_pow2_bits_high by lia. rewrite Z.lor_spec.
    rewrite <- (Z.mod_small a (2 ^ 8)), <- (Z.mod_small b (2 ^ 8)) by lia. by rewrite !Z.mod_pow2_bits_high by lia.
Qed.

Lemma byte_land a b : 0 ≤ a < 256 → 0 ≤ Z.land a b < 256.
Proof.
  intros Ha. assert (Z.land a b = Z.land a b mod 2 ^ 8) as ->; [|apply Z.mod_pos_bound; lia].
  apply Z.bits_inj'. intros k Hk. destruct (decide (k < 8)).
  - by rewrite Z.mod_pow2_bits_low by lia.
  - rewrite Z.mod_pow2_bits_high by lia. rewrite Z.land_spec.
    rewrite <- (Z.mod_small a (2 ^ 8)) by lia. by rewrite !Z.mod_pow2_bits_high by lia.
Qed.

Section bits.
Context (x : block) (Hx : block_ok x).

Lemma byte_at_range bi : 0 ≤ byte_at x bi < 256.
Proof using Hx.
  unfold byte_at. destruct (decide (Z.to_nat (bi / 8) < length x)%nat) as [Hl|Hl].
  - apply (proj1 (List.Forall_forall _ _) (proj2 Hx)). by apply List.nth_In.
  - rewrite List.nth_overflow by lia. lia.
Qed.

(** The byte of bit [bi'] after the byte of [bi] is replaced. *)
Lemma byte_at_insert bi bi' y :
  0 ≤ bi < BPB → 0 ≤ bi' < BPB →
  byte_at (<[Z.to_nat (bi / 8) := y]> x) bi' = if decide (bi / 8 = bi' / 8) then y else byte_at x bi'.
Proof using Hx.
  intros Hb Hb'. unfold byte_at. rewrite !nth_lookup. destruct Hx as [Hl _].
  assert (0 ≤ bi / 8 < 512) by (split; [apply Z.div_pos; lia|apply Z.div_lt_upper_bound; unfold BPB, BSIZE in *; lia]).
  assert (0 ≤ bi' / 8 < 512) by (split; [apply Z.div_pos; lia|apply Z.div_lt_upper_bound; unfold BPB, BSIZE in *; lia]).
  case_decide as E.
  - rewrite E. rewrite list_lookup_insert_eq by lia. done.
  - rewrite list_lookup_insert_ne by lia. done.
Qed.

Lemma bit_update bi bi' y (f : bool → bool) :
  0 ≤ bi < BPB → 0 ≤ bi' < BPB →
  (∀ k, 0 ≤ k → Z.testbit y k = if decide (k = bi mod 8) then f (bit x bi) else Z.testbit (byte_at x bi) k) →
  bit (<[Z.to_nat (bi / 8) := y]> x) bi' = if decide (bi' = bi) then f (bit x bi) else bit x bi'.
Proof using Hx.
  intros Hb Hb' Hy. unfold bit in *. rewrite byte_at_insert by done. pose proof (Z.mod_pos_bound bi' 8).
  destruct (decide (bi / 8 = bi' / 8)) as [E|E].
  - rewrite Hy by lia. destruct (decide (bi' = bi)) as [->|Hne]; [by rewrite decide_True|].
    rewrite decide_False. { unfold byte_at. by rewrite E. }
    intros Em. apply Hne. rewrite (Z.div_mod bi 8), (Z.div_mod bi' 8) by lia. lia.
  - rewrite decide_False by congruence. done.
Qed.

Lemma bit_set bi bi' :
  0 ≤ bi < BPB → 0 ≤ bi' < BPB → bit (set_bit x bi) bi' = bool_decide (bi' = bi) || bit x bi'.
Proof using Hx.
  intros Hb Hb'. unfold set_bit. rewrite (bit_update bi bi' _ (λ _, true)).
  - case_decide; [by rewrite bool_decide_true|by rewrite bool_decide_false].
  - done.
  - done.
  - intros k Hk. rewrite Z.lor_spec, testbit_mask by done. case_decide; [subst; rewrite Z.eqb_refl; apply orb_true_r|].
    rewrite (proj2 (Z.eqb_neq _ _)) by done. apply orb_false_r.
Qed.

Lemma bit_cleared bi bi' :
  0 ≤ bi < BPB → 0 ≤ bi' < BPB → bit (clear_bit x bi) bi' = negb (bool_decide (bi' = bi)) && bit x bi'.
Proof using Hx.
  intros Hb Hb'. unfold clear_bit. pose proof (byte_at_range bi) as Hr. rewrite (bit_update bi bi' _ (λ _, false)).
  - case_decide; [by rewrite bool_decide_true|by rewrite bool_decide_false].
  - done.
  - done.
  - intros k Hk. unfold u8. rewrite Z.land_spec. destruct (decide (k < 8)) as [H8|H8].
    + rewrite Z.mod_pow2_bits_low, Z.lnot_spec, testbit_mask by lia.
      case_decide; [subst; rewrite Z.eqb_refl; apply andb_false_r|].
      rewrite (proj2 (Z.eqb_neq _ _)) by done. apply andb_true_r.
    + pose proof (Z.mod_pos_bound bi 8). rewrite decide_False by lia.
      rewrite <- (Z.mod_small (byte_at x bi) (2 ^ 8)) by lia. by rewrite !Z.mod_pow2_bits_high by lia.
Qed.

Lemma block_ok_insert (k : nat) y : 0 ≤ y < 256 → block_ok (<[k := y]> x).
Proof using Hx. intros Hy. destruct Hx as [Hl Hb]. split; [by rewrite length_insert|by apply Forall_insert]. Qed.

Lemma set_bit_ok bi : block_ok (set_bit x bi).
Proof using Hx.
  apply block_ok_insert, byte_lor; [apply byte_at_range|]. unfold bit_mask. pose proof (Z.mod_pos_bound bi 8).
  rewrite Z.shiftl_1_l. split; [lia|]. apply (Z.pow_lt_mono_r 2 _ 8); lia.
Qed.

Lemma clear_bit_ok bi : block_ok (clear_bit x bi).
Proof using Hx. apply block_ok_insert, byte_land, byte_at_range. Qed.
End bits.

(** ** Layout *)

(** The first data block. *)
Definition dstart (sb : superblock) : Z := sb_bmapstart sb + (sb_size sb - 1) / BPB + 1.

(** A block is in use when its bit in the free map is set. *)
Definition used (sb : superblock) (v : Z → block) (b : Z) : Prop := bit (v (BBLOCK b sb)) (b mod BPB) = true.

#[global] Instance used_dec sb v b : Decision (used sb v b).
Proof. unfold used. apply _. Defined.

Section layout.
Context (iderw : nat → M bst ()) `{!DiskDriver iderw} (Hds : disk_size ≤ 2 ^ 31).

(** The areas of the disk in their order: log, inodes, free map, data. *)
Record layout (P : txp) (sb : superblock) : Prop := {
  ly_log : 0 ≤ x_start P ∧ 0 < x_size P ∧ x_start P + x_size P ≤ sb_inodestart sb;
  ly_ino : 0 ≤ sb_ninodes sb ∧ sb_inodestart sb + (sb_ninodes sb - 1) / IPB < sb_bmapstart sb;
  ly_data : dstart sb ≤ sb_size sb;
  ly_size : sb_size sb ≤ disk_size;
}.

(** The blocks are blocks, and the free map marks the metadata. *)
Record fs_wf (sb : superblock) (v : Z → block) : Prop := {
  fw_block : ∀ b, sb_inodestart sb ≤ b < sb_size sb → block_ok (v b);
  fw_meta : ∀ b, 0 ≤ b < dstart sb → used sb v b;
}.

Context (P : txp) (sb : superblock) (Ly : layout P sb).

Lemma ly_bmap : sb_inodestart sb ≤ sb_bmapstart sb.
Proof using Ly. 
  destruct Ly as [_ [H1 H2] _ _]. change IPB with 8 in *.
  assert (-1 ≤ (sb_ninodes sb - 1) / 8) by (apply Z.div_le_lower_bound; lia). lia.
Qed.

Lemma dstart_pos : 0 < sb_inodestart sb < dstart sb ∧ sb_bmapstart sb < dstart sb.
Proof using Ly.
  pose proof ly_bmap. destruct Ly as [(? & ? & ?) _ Hd _]. unfold dstart in *. assert (0 < BPB) by (unfold BPB, BSIZE; lia).
  destruct (decide (0 < sb_size sb)).
  - assert (0 ≤ (sb_size sb - 1) / BPB) by (apply Z.div_pos; lia). lia.
  - assert (sb_size sb - 1 ≤ (sb_size sb - 1) / BPB) by (apply Z.div_le_lower_bound; unfold BPB, BSIZE in *; lia). lia.
Qed.

Lemma BBLOCK_eq b : 0 ≤ b < sb_size sb → BBLOCK b sb = b / BPB + sb_bmapstart sb.
Proof using Hds Ly.
  intros Hb. unfold BBLOCK. pose proof ly_bmap. destruct Ly as [(? & ? & ?) _ Hd Hs]. unfold dstart in Hd.
  assert (0 ≤ b / BPB ≤ (sb_size sb - 1) / BPB) by (split; [apply Z.div_pos|apply Z.div_le_mono]; unfold BPB, BSIZE; lia).
  apply u32_small. lia.
Qed.

Lemma BBLOCK_range b : 0 ≤ b < sb_size sb → sb_bmapstart sb ≤ BBLOCK b sb < dstart sb.
Proof using Hds Ly.
  intros Hb. rewrite BBLOCK_eq by done. unfold dstart.
  assert (0 ≤ b / BPB ≤ (sb_size sb - 1) / BPB) by (split; [apply Z.div_pos|apply Z.div_le_mono]; unfold BPB, BSIZE; lia). lia.
Qed.

Lemma fs_block b : sb_inodestart sb ≤ b < sb_size sb → tx_block iderw P b.
Proof using Ly. intros Hb. destruct Ly as [(? & ? & ?) _ _ Hs]. split; lia. Qed.

Lemma bmap_block b : 0 ≤ b < sb_size sb → sb_inodestart sb ≤ BBLOCK b sb < sb_size sb.
Proof using Hds Ly. intros Hb. pose proof (BBLOCK_range b Hb). pose proof ly_bmap. destruct Ly as [_ _ Hd _]. lia. Qed.

Lemma mod_BPB b : 0 ≤ b mod BPB < BPB.
Proof. apply Z.mod_pos_bound. unfold BPB, BSIZE. lia. Qed.

(** Two blocks with the same bit are the same. *)
Lemma BBLOCK_inj b b' :
  0 ≤ b < sb_size sb → 0 ≤ b' < sb_size sb → BBLOCK b sb = BBLOCK b' sb → b mod BPB = b' mod BPB → b = b'.
Proof using Hds Ly.
  intros Hb Hb' E Em. rewrite !BBLOCK_eq in E by done.
  rewrite (Z.div_mod b BPB), (Z.div_mod b' BPB) by (unfold BPB, BSIZE; lia). lia.
Qed.

(** ** Changing one bit *)

Definition mark (b : Z) (c : cache) : cache :=
  upd_block (BBLOCK b sb) (set_bit (vw c (BBLOCK b sb)) (b mod BPB)) c.
Definition unmark (b : Z) (c : cache) : cache :=
  upd_block (BBLOCK b sb) (clear_bit (vw c (BBLOCK b sb)) (b mod BPB)) c.

Lemma used_mark c b b' :
  fs_wf sb (vw c) → 0 ≤ b < sb_size sb → 0 ≤ b' < sb_size sb →
  used sb (vw (mark b c)) b' ↔ b' = b ∨ used sb (vw c) b'.
Proof using Hds Ly.
  intros W Hb Hb'. unfold used, mark. destruct (decide (BBLOCK b' sb = BBLOCK b sb)) as [E|E].
  - rewrite E, vw_upd, bit_set by (apply mod_BPB || by apply W, bmap_block).
    rewrite orb_true_iff, bool_decide_eq_true. split; (intros [H|H]; [left|by right]); [by apply BBLOCK_inj|by subst].
  - rewrite vw_upd_ne by done. split; [by right|]. by intros [->|].
Qed.

Lemma used_unmark c b b' :
  fs_wf sb (vw c) → 0 ≤ b < sb_size sb → 0 ≤ b' < sb_size sb →
  used sb (vw (unmark b c)) b' ↔ b' ≠ b ∧ used sb (vw c) b'.
Proof using Hds Ly.
  intros W Hb Hb'. unfold used, unmark. destruct (decide (BBLOCK b' sb = BBLOCK b sb)) as [E|E].
  - rewrite E, vw_upd, bit_cleared by (apply mod_BPB || by apply W, bmap_block).
    rewrite andb_true_iff, negb_true_iff, bool_decide_eq_false. split; (intros [H1 H2]; split; [|done]).
    + intros ->. done.
    + intros Em. by apply H1, BBLOCK_inj.
  - rewrite vw_upd_ne by done. split; [|by intros []]. intros H. split; [|done]. by intros ->.
Qed.
End layout.

(** ** The steps of a transaction, in the file system's state *)

Section steps.
Context (iderw : nat → M bst ()) `{!DiskDriver iderw} (Hds : disk_size ≤ 2 ^ 31).
Context (P : txp).
Notation tx_ok := (tx_ok iderw P).

Lemma f_bread s c b Q :
  tx_ok (f_l s) c → 0 ≤ b < disk_size → c_held c !! fkey b = None → ndirty c + nheld c < Z.of_nat NBUF →
  (∀ l i, tx_ok l (hold_block (fkey b) i c) → Q i (set_fl l s)) → wp (fbread iderw 1 b) Q s.
Proof. intros T Hb Hh Hn HQ. apply wp_zoom. by eapply tx_bread. Qed.

Lemma f_data s c b i Q :
  tx_ok (f_l s) c → c_held c !! fkey b = Some i → Q (vw c b) s → wp (fdata i) Q s.
Proof. intros T Hh HQ. apply wp_zoom. eapply (tx_data iderw); [done|done|]. by destruct s. Qed.

(** Change a block that is held, log it and release it. *)
Lemma f_update_last s c b i x Q :
  tx_ok (f_l s) (hold_block (fkey b) i c) → c_held c !! fkey b = None → tx_block iderw P b →
  ndirty c < x_size P - 1 → 1 ≤ x_out P →
  (∀ l, tx_ok l (upd_block b x c) → Q tt (set_fl l s)) →
  wp (fset i x;; flog i;; fbrelse i) Q s.
Proof using Hds.
  intros T Hh Hb Hn Ho HQ. apply wp_bind, wp_zoom.
  eapply (tx_set iderw _ _ _ b); [done|apply lookup_insert_eq|done|]. intros s1 T1.
  apply wp_bind, wp_zoom. eapply (tx_log_write iderw Hds _ _ _ b); [done|apply lookup_insert_eq|done|done|done|].
  intros s2 T2. apply wp_zoom. eapply (tx_brelse iderw _ _ _ b); [done|apply lookup_insert_eq|left; set_solver|].
  intros s3 T3. rewrite drop_upd_hold in T3 by done. by apply HQ.
Qed.

Lemma f_update {A} s c b i x (k : () → M fsst A) Q :
  tx_ok (f_l s) (hold_block (fkey b) i c) → c_held c !! fkey b = None → tx_block iderw P b →
  ndirty c < x_size P - 1 → 1 ≤ x_out P →
  (∀ l, tx_ok l (upd_block b x c) → wp (k tt) Q (set_fl l s)) →
  wp (fset i x;; flog i;; fbrelse i ≫= k) Q s.
Proof using Hds.
  intros T Hh Hb Hn Ho HQ.
  assert (wp (fset i x;; flog i;; fbrelse i) (λ r, wp (k r) Q) s) as H by by eapply f_update_last.
  apply wp_bind_inv in H. apply wp_bind. eapply wp_mono; [exact H|]. intros [] s1 H1.
  apply wp_bind_inv in H1. apply wp_bind. eapply wp_mono; [exact H1|]. intros [] s2 H2. by apply wp_bind.
Qed.

(** Release a block that was only read. *)
Lemma f_brelse s c b i Q :
  tx_ok (f_l s) (hold_block (fkey b) i c) → c_held c !! fkey b = None →
  fkey b ∈ c_dirty c ∨ vw c b = c_disk c (fkey b) →
  (∀ l, tx_ok l c → Q tt (set_fl l s)) → wp (fbrelse i) Q s.
Proof. intros T Hh Hcl HQ. apply wp_zoom. by eapply (tx_brelse_read iderw). Qed.

Lemma bzero_wp s c b Q :
  tx_ok (f_l s) c → c_held c !! fkey b = None → tx_block iderw P b →
  ndirty c < x_size P - 1 → ndirty c + nheld c < Z.of_nat NBUF → 1 ≤ x_out P →
  (∀ l, tx_ok l (upd_block b zero_block c) → Q tt (set_fl l s)) → wp (bzero iderw 1 b) Q s.
Proof using Hds.
  intros T Hh Hb Hn Hn' Ho HQ. unfold bzero. apply wp_bind. eapply (f_bread s c b); [done|apply Hb|done|done|].
  intros l i T1. eapply (f_update_last (set_fl l s)); [exact T1|done..|]. done.
Qed.
End steps.

(** ** balloc and bfree *)

Lemma first_clear_Some x l bi : first_clear x l = Some bi → bi ∈ l ∧ bit x bi = false.
Proof.
  induction l as [|k l IH]; simpl; [done|]. rewrite bit_clear_bit. destruct (bit x k) eqn:E; simpl.
  - intros H. destruct (IH H). split; [by right|done].
  - intros [= <-]. split; [by left|done].
Qed.

Lemma first_clear_None x l bi : first_clear x l = None → bi ∈ l → bit x bi = true.
Proof.
  induction l as [|k l IH]; simpl; [by intros _ ?%elem_of_nil|]. rewrite bit_clear_bit.
  destruct (bit x k) eqn:E; simpl; [|done]. intros H [->|Hb]%elem_of_cons; auto.
Qed.

(** Block [k * BPB + bi] has bit [bi] of the [k]-th block of the free map. *)
Lemma slot_div k bi : 0 ≤ bi < BPB → (k * BPB + bi) / BPB = k.
Proof. intros H. rewrite (Z.add_comm (k * BPB)), Z.div_add, Z.div_small by (unfold BPB, BSIZE in *; lia). lia. Qed.
Lemma slot_mod k bi : 0 ≤ bi < BPB → (k * BPB + bi) mod BPB = bi.
Proof. intros H. rewrite (Z.add_comm (k * BPB)), Z.mod_add, Z.mod_small by (unfold BPB, BSIZE in *; lia). done. Qed.

Section balloc.
Context (iderw : nat → M bst ()) `{!DiskDriver iderw} (Hds : disk_size ≤ 2 ^ 31).
Context (P : txp) (sb : superblock) (Ly : layout iderw P sb).
Notation tx_ok := (tx_ok iderw P).

(** The blocks held are data blocks in use. *)
Definition held_used (c : cache) : Prop :=
  ∀ b, c_held c !! fkey b ≠ None → dstart sb ≤ b ∧ used sb (vw c) b.

(** [balloc]'s effect. *)
Definition alloc_block (b : Z) (c : cache) : cache := upd_block b zero_block (mark sb b c).

(** The blocks a transaction has dirtied, the whole free map counted. *)
Definition spread (c : cache) : gset bkey :=
  c_dirty c ∪ list_to_set (fkey <$> seqZ (sb_bmapstart sb) ((sb_size sb - 1) / BPB + 1)).
Definition nspread (c : cache) : Z := Z.of_nat (size (spread c)).

(** Room in the log and in the buffer cache for [n] more blocks. *)
Definition room (n : Z) (c : cache) : Prop :=
  nspread c + n ≤ x_size P - 1 ∧ nspread c + nheld c + n ≤ Z.of_nat NBUF.

Lemma ndirty_spread c : ndirty c ≤ nspread c.
Proof using. clear Ly Hds. unfold ndirty, nspread. apply inj_le, subseteq_size. unfold spread. set_solver. Qed.

Lemma spread_upd b x c : spread (upd_block b x c) = {[fkey b]} ∪ spread c.
Proof using. clear Ly Hds. unfold spread. cbn. set_solver. Qed.

Lemma spread_bmap b c : 0 ≤ b < sb_size sb → fkey (BBLOCK b sb) ∈ spread c.
Proof using Hds Ly.
  intros Hb. unfold spread. apply elem_of_union_r, elem_of_list_to_set, list_elem_of_fmap_2, elem_of_seqZ.
  pose proof (BBLOCK_range _ Hds P sb Ly b Hb). unfold dstart in *. lia.
Qed.

Lemma spread_mark b c : 0 ≤ b < sb_size sb → spread (mark sb b c) = spread c.
Proof using Hds Ly. intros Hb. unfold mark. rewrite spread_upd. pose proof (spread_bmap b c Hb). set_solver. Qed.

Lemma spread_unmark b c : 0 ≤ b < sb_size sb → spread (unmark sb b c) = spread c.
Proof using Hds Ly. intros Hb. unfold unmark. rewrite spread_upd. pose proof (spread_bmap b c Hb). set_solver. Qed.

Lemma spread_alloc b c : 0 ≤ b < sb_size sb → spread (alloc_block b c) = {[fkey b]} ∪ spread c.
Proof using Hds Ly. intros Hb. unfold alloc_block. by rewrite spread_upd, spread_mark. Qed.

(** Dirtying the blocks [X] uses up at most so much room. *)
Lemma room_le (n m : Z) (c c' : cache) (X : gset bkey) :
  spread c' ⊆ X ∪ spread c → Z.of_nat (size X) ≤ m → nheld c' = nheld c → room (n + m) c → room n c'.
Proof using P. clear Ly Hds.
  intros Hs Hm Hh [R1 R2]. assert (nspread c' ≤ Z.of_nat (size X) + nspread c) as H.
  { unfold nspread. apply subseteq_size in Hs. pose proof (size_union_le X (spread c)). lia. }
  split; lia.
Qed.

Lemma balloc_loop_wp ks s c Q :
  tx_ok (f_l s) c → f_sb s = sb → fs_wf sb (vw c) → held_used c → room 1 c → 1 ≤ x_out P →
  (∀ k, k ∈ ks → 0 ≤ k ∧ k * BPB < sb_size sb) →
  (∃ b, 0 ≤ b < sb_size sb ∧ ¬ used sb (vw c) b ∧ b / BPB ∈ ks) →
  (∀ l b, dstart sb ≤ b < sb_size sb → ¬ used sb (vw c) b → tx_ok l (alloc_block b c) → Q b (set_fl l s)) →
  wp (balloc_loop iderw 1 ((λ k, k * BPB) <$> ks)) Q s.
Proof using Hds Ly.
  revert s. induction ks as [|k ks IH]; intros s T Es W Hh [R1 R2] Ho Hks (b0 & Hb0 & Hu0 & Hin) HQ; [by apply elem_of_nil in Hin|].
  pose proof (ndirty_spread c) as Hns. destruct (Hks k ltac:(by left)) as [Hk0 Hk]. assert (0 < BPB) as HB by (unfold BPB, BSIZE; lia).
  assert (0 ≤ k * BPB) by nia. set (bb := BBLOCK (k * BPB) sb).
  pose proof (BBLOCK_range _ Hds P sb Ly (k * BPB) ltac:(lia)) as Hbb. pose proof (bmap_block _ Hds P sb Ly (k * BPB) ltac:(lia)) as Hbi.
  fold bb in Hbb, Hbi. destruct (fs_block _ P sb Ly bb Hbi) as [Hbd Hbl].
  assert (c_held c !! fkey bb = None) as Hhb.
  { destruct (c_held c !! fkey bb) eqn:E; [|done]. destruct (Hh bb); [congruence|lia]. }
  assert (∀ bi, 0 ≤ bi < BPB → k * BPB + bi < sb_size sb → bit (vw c bb) bi = true ↔ used sb (vw c) (k * BPB + bi)) as Hbit.
  { intros bi Hbi' Hs. unfold used. unfold bb. rewrite !(BBLOCK_eq iderw Hds P sb Ly) by lia. by rewrite slot_div, slot_mod, Z.div_mul by lia. }
  simpl. apply wp_bind, wp_gets. rewrite Es. apply wp_bind. eapply (f_bread iderw P); [done|done|done|lia|].
  intros l i T1. fold bb in T1. apply wp_bind. eapply (f_data iderw P); [exact T1|apply lookup_insert_eq|].
  change (vw (hold_block (fkey bb) i c) bb) with (vw c bb).
  destruct (first_clear _ _) as [bi|] eqn:Ef.
  - apply first_clear_Some in Ef as [[Hbi0 Hbi1]%elem_of_seqZ Hcl].
    assert (¬ used sb (vw c) (k * BPB + bi)) as Hnu by (rewrite <- Hbit by lia; by rewrite Hcl).
    assert (dstart sb ≤ k * BPB + bi) as Hds'.
    { destruct (decide (k * BPB + bi < dstart sb)); [|lia]. destruct Hnu. apply W. lia. }
    pose proof (ly_bmap _ P sb Ly). set (b := k * BPB + bi) in *.
    assert (mark sb b c = upd_block bb (set_bit (vw c bb) bi) c) as Em.
    { unfold mark. assert (BBLOCK b sb = bb) as ->.
      { unfold bb, b. rewrite !(BBLOCK_eq iderw Hds P sb Ly) by lia. by rewrite slot_div, Z.div_mul by lia. }
      unfold b. by rewrite slot_mod by lia. }
    eapply (f_update iderw Hds P); [exact T1|done|done|lia|done|]. intros l2 T2. rewrite <- Em in T2.
    pose proof (ndirty_spread (mark sb b c)) as Hnd. unfold nspread in Hnd. rewrite spread_mark in Hnd by lia.
    fold (nspread c) in Hnd.
    assert (nheld (mark sb b c) = nheld c) as Enh by done.
    apply wp_bind. eapply (bzero_wp iderw Hds P); [exact T2| |apply (fs_block _ P sb Ly); lia|lia|lia|done|].
    { change (c_held c !! fkey b = None). destruct (c_held c !! fkey b) eqn:E; [|done]. by destruct (Hh b ltac:(by rewrite E)). }
    intros l3 T3. apply wp_ret, (HQ l3 b); [lia|done|exact T3].
  - eapply wp_bind, (f_brelse iderw P); [exact T1|done|by eapply tx_clean|]. intros l2 T2.
    eapply (IH (set_fl l2 s)); [done|done|done|done|done|done| | |done].
    + intros k' Hk'. apply Hks. by right.
    + exists b0. split; [done|]. split; [done|]. apply elem_of_cons in Hin as [E|]; [|done]. destruct Hu0.
      rewrite (Z.div_mod b0 BPB), E, Z.mul_comm by lia. pose proof (Z.mod_pos_bound b0 BPB ltac:(lia)).
      assert (k * BPB + b0 mod BPB = b0) as Eb by (rewrite <- E, Z.mul_comm, <- Z.div_mod; lia).
      apply Hbit; [done|lia|]. eapply first_clear_None; [done|]. apply elem_of_seqZ. lia.
Qed.

Lemma balloc_wp s c Q :
  tx_ok (f_l s) c → f_sb s = sb → fs_wf sb (vw c) → held_used c → room 1 c → 1 ≤ x_out P →
  (∃ b, 0 ≤ b < sb_size sb ∧ ¬ used sb (vw c) b) →
  (∀ l b, dstart sb ≤ b < sb_size sb → ¬ used sb (vw c) b → tx_ok l (alloc_block b c) → Q b (set_fl l s)) →
  wp (balloc iderw 1) Q s.
Proof using Hds Ly.
  intros T Es W Hh R Ho (b & Hb & Hu) HQ. unfold balloc. apply wp_bind, wp_gets. rewrite Es.
  assert (0 < BPB) by (unfold BPB, BSIZE; lia).
  eapply balloc_loop_wp; [done..| | |done].
  - intros k [Hk0 Hk1]%elem_of_seqZ. split; [done|]. assert (k ≤ (sb_size sb + BPB - 1) / BPB - 1) as Hk by lia.
    pose proof (Z.mul_div_le (sb_size sb + BPB - 1) BPB). nia.
  - exists b. split; [done|]. split; [done|]. apply elem_of_seqZ. split; [apply Z.div_pos; lia|].
    rewrite Z.add_0_l. apply Z.div_lt_upper_bound; [done|]. 
    pose proof (Z.mod_pos_bound (sb_size sb + BPB - 1) BPB). pose proof (Z.div_mod (sb_size sb + BPB - 1) BPB). lia.
Qed.

Lemma bfree_wp s c b Q :
  tx_ok (f_l s) c → f_sb s = sb → fs_wf sb (vw c) → held_used c → room 1 c → 1 ≤ x_out P →
  dstart sb ≤ b < sb_size sb → used sb (vw c) b →
  (∀ l, tx_ok l (unmark sb b c) → Q tt (set_fl l s)) → wp (bfree iderw 1 b) Q s.
Proof using Hds Ly.
  intros T Es W Hh [R1 R2] Ho Hb Hu HQ. pose proof (ndirty_spread c) as Hns. pose proof (ly_bmap _ P sb Ly) as Hlb.
  pose proof (dstart_pos _ P sb Ly) as Hdp.
  pose proof (BBLOCK_range _ Hds P sb Ly b ltac:(lia)) as Hbb. pose proof (bmap_block _ Hds P sb Ly b ltac:(lia)) as Hbi.
  set (bb := BBLOCK b sb) in *. destruct (fs_block _ P sb Ly bb Hbi) as [Hbd Hbl].
  assert (c_held c !! fkey bb = None) as Hhb.
  { destruct (c_held c !! fkey bb) eqn:E; [|done]. destruct (Hh bb); [congruence|lia]. }
  unfold bfree. apply wp_bind, wp_gets. rewrite Es. apply wp_bind. eapply (f_bread iderw P); [done|done|done|lia|].
  fold bb. intros l i T1. apply wp_bind. eapply (f_data iderw P); [exact T1|apply lookup_insert_eq|].
  change (vw (hold_block (fkey bb) i c) bb) with (vw c bb). cbv zeta. rewrite bit_clear_bit. unfold used in Hu. fold bb in Hu. rewrite Hu. cbn [negb].
  eapply (f_update_last iderw Hds P); [exact T1|done|done|lia|done|]. done.
Qed.
End balloc.
