(* ===== verification/FsData.v ===== *)
(** The content of an inode: [bmap], [readi] and [writei] (fs.c) against the
    bytes of the file. *)

From S2P Require Import Prelude Mmu Block Ide Bio Log LogSpec LogCrash LogOps Tx Fs FsAlloc.

(** ** The blocks of an inode *)

(** The block pointers: the thirteen in the inode, then those in the
    indirect block. *)
Definition NSLOT : Z := 13 + NINDIRECT.
Definition slot (v : Z → block) (d : dinode) (k : Z) : Z :=
  if k <? 13 then addr_of d k
  else if addr_of d NDIRECT =? 0 then 0
  else get32 (v (addr_of d NDIRECT)) (Z.to_nat (4 * (k - 13))).

(** The pointer to block [bn] of the file. *)
Definition bslot (bn : Z) : Z := if bn <? NDIRECT then bn else bn + 1.

(** The byte at offset [j]. *)
Definition fbyte (v : Z → block) (d : dinode) (j : Z) : Z :=
  nth (Z.to_nat (j mod BSIZE)) (v (slot v d (bslot (j / BSIZE)))) 0.

Record inode_wf (sb : superblock) (v : Z → block) (d : dinode) : Prop := {
  iw_len : length (d_addrs d) = 13%nat;
  iw_inj : ∀ k k', 0 ≤ k < NSLOT → 0 ≤ k' < NSLOT → slot v d k ≠ 0 → slot v d k = slot v d k' → k = k';
  iw_data : ∀ k, 0 ≤ k < NSLOT → slot v d k ≠ 0 → dstart sb ≤ slot v d k < sb_size sb ∧ used sb v (slot v d k);
  iw_size : 0 ≤ d_size d ≤ MAXFILE * BSIZE;
  iw_mapped : ∀ bn, 0 ≤ bn → bn * BSIZE < d_size d → slot v d (bslot bn) ≠ 0;
}.

Lemma bslot_range bn : 0 ≤ bn < MAXFILE → 0 ≤ bslot bn < NSLOT ∧ bslot bn ≠ NDIRECT.
Proof. unfold bslot, MAXFILE, NSLOT, NDIRECT. intros. destruct (Z.ltb_spec bn 12); lia. Qed.

Lemma bslot_inj bn bn' : bslot bn = bslot bn' → bn = bn'.
Proof. unfold bslot, NDIRECT. destruct (Z.ltb_spec bn 12), (Z.ltb_spec bn' 12); lia. Qed.

(** ** Growing an inode *)

Record same_meta (d d' : dinode) : Prop := {
  sm_type : d_type d' = d_type d; sm_major : d_major d' = d_major d; sm_minor : d_minor d' = d_minor d;
  sm_nlink : d_nlink d' = d_nlink d; sm_size : d_size d' = d_size d;
}.

#[global] Instance same_meta_preorder : PreOrder same_meta.
Proof. split; [done|]. intros d1 d2 d3 [] []. split; congruence. Qed.

Section grow.
Context (iderw : nat → M bst ()) `{!DiskDriver iderw} (Hds : disk_size ≤ 2 ^ 31).
Context (P : txp) (sb : superblock) (Ly : layout iderw P sb).
Implicit Types (c : cache) (d : dinode).

Lemma used_alloc c b b' :
  fs_wf sb (vw c) → dstart sb ≤ b < sb_size sb → 0 ≤ b' < sb_size sb →
  used sb (vw (alloc_block sb b c)) b' ↔ b' = b ∨ used sb (vw c) b'.
Proof using Hds Ly.
  intros W Hb Hb'. pose proof (dstart_pos _ P sb Ly). rewrite <- (used_mark _ Hds P sb Ly) by (done || lia).
  unfold used, alloc_block. rewrite vw_upd_ne; [done|]. pose proof (BBLOCK_range _ Hds P sb Ly b' Hb'). lia.
Qed.

Lemma vw_alloc_other c b b' :
  b' ≠ b → b' ≠ BBLOCK b sb → vw (alloc_block sb b c) b' = vw c b'.
Proof. intros H1 H2. unfold alloc_block, mark. by rewrite !vw_upd_ne. Qed.

Lemma fs_wf_upd c b x :
  fs_wf sb (vw c) → block_ok x → dstart sb ≤ b → fs_wf sb (vw (upd_block b x c)).
Proof using Hds Ly.
  intros W Hx Hb. split.
  - intros b' Hb'. destruct (decide (b' = b)) as [->|]; [by rewrite vw_upd|rewrite vw_upd_ne by done; by apply W].
  - intros b' Hb'. unfold used. destruct Ly as [_ _ Hd _].
    rewrite vw_upd_ne; [by apply W|]. pose proof (BBLOCK_range _ Hds P sb Ly b'). lia.
Qed.

Lemma fs_wf_mark c b : fs_wf sb (vw c) → 0 ≤ b < sb_size sb → fs_wf sb (vw (mark sb b c)).
Proof using Hds Ly.
  intros W Hb. pose proof (bmap_block _ Hds P sb Ly b Hb) as Hbb. split.
  - intros b' Hb'. unfold mark. destruct (decide (b' = BBLOCK b sb)) as [->|].
    + rewrite vw_upd. by apply set_bit_ok, W.
    + rewrite vw_upd_ne by done. by apply W.
  - intros b' Hb'. destruct Ly as [_ _ Hd _]. apply (used_mark _ Hds P sb Ly); [done|done|lia|right; by apply W].
Qed.

Lemma fs_wf_alloc c b : fs_wf sb (vw c) → dstart sb ≤ b < sb_size sb → fs_wf sb (vw (alloc_block sb b c)).
Proof using Hds Ly.
  intros W Hb. pose proof (dstart_pos _ P sb Ly). apply fs_wf_upd; [apply fs_wf_mark; [done|lia]|apply zero_block_ok|lia].
Qed.

(** [c'] and [d'] have more blocks mapped than [c] and [d], and the rest of
    the disk is as it was. *)
Record grown (c : cache) (d : dinode) (c' : cache) (d' : dinode) : Prop := {
  gr_meta : same_meta d d';
  gr_wf : fs_wf sb (vw c');
  gr_ino : inode_wf sb (vw c') d';
  gr_held : c_held c' = c_held c;
  gr_slot : ∀ k, 0 ≤ k < NSLOT → slot (vw c) d k ≠ 0 → slot (vw c') d' k = slot (vw c) d k;
  gr_keep : ∀ k, 0 ≤ k < NSLOT → k ≠ NDIRECT → slot (vw c) d k ≠ 0 →
    vw c' (slot (vw c) d k) = vw c (slot (vw c) d k);
  gr_new : ∀ k, 0 ≤ k < NSLOT → k ≠ NDIRECT → slot (vw c) d k = 0 → slot (vw c') d' k ≠ 0 →
    vw c' (slot (vw c') d' k) = zero_block ∧ ¬ used sb (vw c) (slot (vw c') d' k);
  gr_frame : ∀ b, dstart sb ≤ b < sb_size sb → used sb (vw c) b → (∀ k, 0 ≤ k < NSLOT → slot (vw c) d k ≠ b) →
    vw c' b = vw c b ∧ ∀ k, 0 ≤ k < NSLOT → slot (vw c') d' k ≠ b;
  gr_used : ∀ b, 0 ≤ b < sb_size sb → used sb (vw c) b → used sb (vw c') b;
  gr_inodes : ∀ b, b < sb_bmapstart sb → vw c' b = vw c b;
}.

Lemma grown_refl c d : fs_wf sb (vw c) → inode_wf sb (vw c) d → grown c d c d.
Proof. intros W I. by split. Qed.

Lemma slot_used c d b k :
  inode_wf sb (vw c) d → 0 ≤ k < NSLOT → slot (vw c) d k = b → ¬ used sb (vw c) b → b = 0.
Proof.
  intros I Hk E Hu. destruct (decide (b = 0)) as [|Hb]; [done|]. subst b. by destruct (iw_data _ _ _ I k Hk Hb).
Qed.

Lemma grown_trans c d c' d' c'' d'' :
  inode_wf sb (vw c) d → grown c d c' d' → grown c' d' c'' d'' → grown c d c'' d''.
Proof using Ly.
  intros I G G'. pose proof (dstart_pos _ P sb Ly) as Hdp. pose proof (gr_ino _ _ _ _ G) as I'.
  split; [etrans; [apply G|apply G']|apply G'|apply G'|rewrite (gr_held _ _ _ _ G'); apply G|..].
  - intros k Hk Hs. pose proof (gr_slot _ _ _ _ G k Hk Hs) as E. rewrite <- E. apply (gr_slot _ _ _ _ G'); [done|congruence].
  - intros k Hk Hi Hs. pose proof (gr_slot _ _ _ _ G k Hk Hs) as E.
    rewrite <- (gr_keep _ _ _ _ G k Hk Hi Hs). rewrite <- E. apply (gr_keep _ _ _ _ G'); [done|done|congruence].
  - intros k Hk Hi Hs Hs''. destruct (decide (slot (vw c') d' k = 0)) as [E|E].
    + destruct (gr_new _ _ _ _ G' k Hk Hi E Hs'') as [Hz Hu]. split; [done|]. intros Hc. apply Hu.
      destruct (iw_data _ _ _ (gr_ino _ _ _ _ G') k Hk Hs''). apply (gr_used _ _ _ _ G); [lia|done].
    + destruct (gr_new _ _ _ _ G k Hk Hi Hs E) as [Hz Hu]. rewrite (gr_slot _ _ _ _ G' k Hk E).
      split; [|done]. by rewrite (gr_keep _ _ _ _ G' k Hk Hi E).
  - intros b Hb Hu Hk. destruct (gr_frame _ _ _ _ G b Hb Hu Hk) as [E1 Hk'].
    destruct (gr_frame _ _ _ _ G' b Hb) as [E2 Hk'']; [apply (gr_used _ _ _ _ G); [lia|done]|done|].
    split; [congruence|done].
  - intros b Hb Hu. by apply (gr_used _ _ _ _ G'), (gr_used _ _ _ _ G).
  - intros b Hb. by rewrite (gr_inodes _ _ _ _ G'), (gr_inodes _ _ _ _ G).
Qed.

(** One more pointer. *)
Lemma grown_one c d c' d' k0 b :
  inode_wf sb (vw c) d → fs_wf sb (vw c') → same_meta d d' → length (d_addrs d') = 13%nat →
  c_held c' = c_held c → 0 ≤ k0 < NSLOT → slot (vw c) d k0 = 0 →
  dstart sb ≤ b < sb_size sb → ¬ used sb (vw c) b →
  (∀ k, 0 ≤ k < NSLOT → slot (vw c') d' k = if decide (k = k0) then b else slot (vw c) d k) →
  (∀ b', 0 ≤ b' < sb_size sb → used sb (vw c') b' ↔ b' = b ∨ used sb (vw c) b') →
  vw c' b = zero_block →
  (∀ x, x ≠ b → x ≠ addr_of d NDIRECT ∨ x < dstart sb → x < sb_bmapstart sb ∨ dstart sb ≤ x → vw c' x = vw c x) →
  grown c d c' d'.
Proof using Ly.
  intros I W' Hm Hl Hh Hk0 H0 Hb Hnu Hs Hu Hz Hv. pose proof (dstart_pos _ P sb Ly) as Hdp.
  assert (∀ k, 0 ≤ k < NSLOT → slot (vw c) d k ≠ b) as Hfresh.
  { intros k Hk E. pose proof (slot_used c d b k I Hk E Hnu). lia. }
  assert (∀ k, 0 ≤ k < NSLOT → slot (vw c) d k ≠ 0 → slot (vw c') d' k = slot (vw c) d k) as Hsl.
  { intros k Hk Hne. rewrite Hs by done. case_decide; [by subst|done]. }
  split; try done.
  - split; [done|..].
    + intros k k' Hk Hk'. rewrite !Hs by done. repeat case_decide; intros Hne E; subst; try done.
      * by destruct (Hfresh k').
      * by destruct (Hfresh k).
      * by apply (iw_inj _ _ _ I).
    + intros k Hk. rewrite !Hs by done. case_decide; intros Hne.
      * split; [done|]. apply Hu; [lia|by left].
      * destruct (iw_data _ _ _ I k Hk Hne). split; [done|]. apply Hu; [lia|by right].
    + rewrite (sm_size _ _ Hm). apply I.
    + intros bn Hbn Hsz. rewrite (sm_size _ _ Hm) in Hsz. pose proof (iw_mapped _ _ _ I bn Hbn Hsz) as Hne.
      pose proof (iw_size _ _ _ I). destruct (bslot_range bn) as [Hr _]; [unfold BSIZE in *; lia|].
      by rewrite Hsl.
  - intros k Hk Hi Hne. destruct (iw_data _ _ _ I k Hk Hne) as [Hr _]. apply Hv; [by apply Hfresh| |lia].
    left. intros E. apply Hi. apply (iw_inj _ _ _ I); [done|unfold NSLOT, NDIRECT; vm_compute; split; congruence|done|].
    rewrite E. done.
  - intros k Hk Hi Hz0 Hne. rewrite Hs in * by done. case_decide; [by subst|done].
  - intros x Hx Hux Hnk. split.
    + apply Hv; [congruence| |lia]. left. intros E. apply (Hnk NDIRECT); [vm_compute; split; congruence|]. by rewrite E.
    + intros k Hk. rewrite Hs by done. case_decide; [congruence|by apply Hnk].
  - intros x Hx Hux. apply Hu; [done|by right].
  - intros x Hx. apply Hv; lia.
Qed.


Lemma addr_set d k k0 b :
  length (d_addrs d) = 13%nat → 0 ≤ k0 < 13 → 0 ≤ k →
  addr_of (set_addr k0 b d) k = if decide (k = k0) then b else addr_of d k.
Proof.
  intros Hl Hk0 Hk. unfold addr_of, set_addr. cbn [d_addrs]. rewrite !nth_lookup. case_decide as E.
  - subst. by rewrite list_lookup_insert_eq by lia.
  - by rewrite list_lookup_insert_ne by lia.
Qed.

(** The indirect block, if there is one, is a data block of its own. *)
Lemma ind_data c d :
  inode_wf sb (vw c) d → addr_of d NDIRECT ≠ 0 →
  dstart sb ≤ addr_of d NDIRECT < sb_size sb ∧ used sb (vw c) (addr_of d NDIRECT).
Proof. intros I Hi. apply (iw_data _ _ _ I NDIRECT); [vm_compute; split; congruence|done]. Qed.

Lemma vw_alloc_data c b x : 0 ≤ b < sb_size sb → x ≠ b → x < sb_bmapstart sb ∨ dstart sb ≤ x → vw (alloc_block sb b c) x = vw c x.
Proof using Hds Ly.
  intros Hb Hx Hr. pose proof (BBLOCK_range _ Hds P sb Ly b Hb). apply vw_alloc_other; [done|lia].
Qed.

Lemma grown_direct c d k0 b :
  fs_wf sb (vw c) → inode_wf sb (vw c) d → 0 ≤ k0 < 13 → addr_of d k0 = 0 →
  dstart sb ≤ b < sb_size sb → ¬ used sb (vw c) b →
  grown c d (alloc_block sb b c) (set_addr k0 b d).
Proof using Hds Ly.
  intros W I Hk0 H0 Hb Hu. pose proof (dstart_pos _ P sb Ly) as Hdp. pose proof (iw_len _ _ _ I) as Hl.
  assert (slot (vw c) d k0 = 0) as Hs0 by (unfold slot; by rewrite (proj2 (Z.ltb_lt k0 13)) by lia).
  assert (vw (alloc_block sb b c) b = zero_block) as Hz by apply vw_upd.
  eapply (grown_one _ _ _ _ k0 b); [done|by apply fs_wf_alloc|done|cbn; by rewrite length_insert|done| |done|done|done| | |done|].
  - change NSLOT with 141. lia.
  - intros k Hk. unfold slot. rewrite !addr_set by (done || lia || (vm_compute; congruence)).
    destruct (Z.ltb_spec k 13) as [H13|H13]; [done|]. rewrite (decide_False (P := k = k0)) by lia.
    destruct (decide (NDIRECT = k0)) as [E|E].
    + rewrite Hz, E, H0. destruct (Z.eqb_spec b 0); [done|]. simpl (0 =? 0). cbv iota. apply get32_zero.
    + destruct (Z.eqb_spec (addr_of d NDIRECT) 0) as [|Hi]; [done|]. f_equal.
      destruct (ind_data c d I Hi) as [Hr Hui]. apply vw_alloc_data; [lia|congruence|lia].
  - intros b' Hb'. by apply used_alloc.
  - intros x Hx _ Hr. apply vw_alloc_data; [lia|done|done].
Qed.

Lemma grown_entry c d k0 b :
  fs_wf sb (vw c) → inode_wf sb (vw c) d → 13 ≤ k0 < NSLOT → addr_of d NDIRECT ≠ 0 → slot (vw c) d k0 = 0 →
  dstart sb ≤ b < sb_size sb → ¬ used sb (vw c) b → 0 ≤ b < 2 ^ 32 →
  grown c d (upd_block (addr_of d NDIRECT) (put32 (vw c (addr_of d NDIRECT)) (Z.to_nat (4 * (k0 - 13))) b)
    (alloc_block sb b c)) d.
Proof using Hds Ly.
  intros W I Hk0 Hi H0 Hb Hu Hb32. pose proof (dstart_pos _ P sb Ly) as Hdp.
  destruct (ind_data c d I Hi) as [Hr Hui]. set (a := addr_of d NDIRECT) in *.
  assert (a ≠ b) as Hab by congruence. set (x := put32 _ _ _).
  assert (block_ok (vw c a)) as Hok by (apply W; lia). assert (length (vw c a) = 512%nat) as Hlen by apply Hok.
  assert (Z.to_nat (4 * (k0 - 13)) + 4 ≤ 512)%nat as Hoff by (change NSLOT with 141 in *; lia).
  eapply (grown_one _ _ _ _ k0 b); [done| |done|apply I|done|lia|done|done|done| | | |].
  - apply fs_wf_upd; [by apply fs_wf_alloc| |lia]. apply block_ok_put; [done|by rewrite length_to_le|apply to_le_bytes].
  - intros k Hk. unfold slot. fold a. destruct (Z.ltb_spec k 13); [by rewrite decide_False by lia|].
    destruct (Z.eqb_spec a 0); [done|]. rewrite vw_upd. unfold x, get32, put32. case_decide as E.
    + subst. by apply get_put32; [lia|].
    + rewrite bytes_put_other; [done|rewrite length_to_le; lia|rewrite length_to_le; lia].
  - intros b' Hb'. rewrite <- used_alloc by done. unfold used. rewrite vw_upd_ne; [done|].
    pose proof (BBLOCK_range _ Hds P sb Ly b' Hb'). lia.
  - rewrite vw_upd_ne by done. apply vw_upd.
  - intros y Hy Ha Hyr. rewrite vw_upd_ne; [by apply vw_alloc_data; [lia| |]|]. intros ->. destruct Ha; [done|lia].
Qed.


(** At least [n] blocks are free. *)
Definition free_blocks (n : nat) (v : Z → block) : Prop :=
  ∃ X, NoDup X ∧ (n ≤ length X)%nat ∧ ∀ b, b ∈ X → 0 ≤ b < sb_size sb ∧ ¬ used sb v b.

Lemma free_one n v : free_blocks (S n) v → ∃ b, 0 ≤ b < sb_size sb ∧ ¬ used sb v b.
Proof. intros ([|b X] & _ & Hl & HX); simpl in *; [lia|]. exists b. apply HX. by left. Qed.

Lemma free_weaken n m v : (n ≤ m)%nat → free_blocks m v → free_blocks n v.
Proof. intros Hnm (X & ? & ? & ?). exists X. split; [done|]. split; [lia|done]. Qed.

Lemma free_same n v v' :
  (∀ b, 0 ≤ b < sb_size sb → used sb v' b → used sb v b) → free_blocks n v → free_blocks n v'.
Proof.
  intros Hu (X & ? & ? & HX). exists X. split; [done|]. split; [done|]. intros b Hb. destruct (HX b Hb) as [? Hn].
  split; [done|]. intros Hu'. by apply Hn, Hu.
Qed.

(** A change that uses one block more leaves one block less. *)
Lemma free_less n v v' b :
  (∀ b', 0 ≤ b' < sb_size sb → used sb v' b' → b' = b ∨ used sb v b') →
  free_blocks (S n) v → free_blocks n v'.
Proof.
  intros Hu (X & Hnd & Hl & HX).
  assert (∃ X', NoDup X' ∧ (n ≤ length X')%nat ∧ (∀ x, x ∈ X' → x ∈ X ∧ x ≠ b)) as (X' & Hnd' & Hl' & HX').
  { destruct (decide (b ∈ X)) as [Hb|Hb].
    - apply elem_of_Permutation in Hb as [X' E]. rewrite E in Hnd, Hl. apply NoDup_cons in Hnd as [Hb Hnd].
      simpl in Hl. exists X'. split; [done|]. split; [lia|]. intros x Hx. split; [rewrite E; by right|]. by intros ->.
    - exists X. split; [done|]. split; [lia|]. intros x Hx. split; [done|]. by intros ->. }
  exists X'. split; [done|]. split; [done|]. intros x Hx. destruct (HX' x Hx) as [Hin Hne].
  destruct (HX x Hin) as [Hr Hnu]. split; [done|]. intros Hux. by destruct (Hu x Hr Hux).
Qed.


(** ** bmap *)

Lemma get_inode_wp s ip i Q : f_inodes s !! ip = Some i → Q i s → wp (get_inode ip) Q s.
Proof. intros Hi HQ. unfold get_inode. wp_auto. rewrite Hi. by wp_auto. Qed.

Lemma mod_d_wp s ip i f Q :
  f_inodes s !! ip = Some i → Q tt (set_inodes (<[ip := set_i_d (f (i_d i)) i]> (f_inodes s)) s) → wp (mod_d ip f) Q s.
Proof. intros Hi HQ. unfold mod_d, mod_inode. wp_auto. by rewrite (alter_insert _ _ _ _ Hi). Qed.

(** The file system inside a call that works on inode [ip] of the device. *)
Record on_inode (s : fsst) (c : cache) (ip : nat) (i : inode) : Prop := {
  oi_tx : tx_ok iderw P (f_l s) c;
  oi_sb : f_sb s = sb;
  oi_wf : fs_wf sb (vw c);
  oi_ip : f_inodes s !! ip = Some i;
  oi_dev : i_dev i = 1;
  oi_ino : inode_wf sb (vw c) (i_d i);
}.

(** The state after the inode and the blocks have changed. *)
Definition with_inode (ip : nat) (i : inode) (d : dinode) (l : lst) (s : fsst) : fsst :=
  Fsst l (f_sb s) (<[ip := set_i_d d i]> (f_inodes s)) (f_cwd s).

Lemma on_inode_grown s c ip i l c' d' :
  on_inode s c ip i → grown c (i_d i) c' d' → tx_ok iderw P l c' → on_inode (with_inode ip i d' l s) c' ip (set_i_d d' i).
Proof.
  intros [] G T. split; [done|done|apply G| |done|apply G]. cbn. apply list_lookup_insert_eq. by eapply lookup_lt_Some.
Qed.

Notation room := (room P sb).

(** A pointer of the inode that is still null gets a fresh block. *)
Lemma alloc_addr_wp s c ip i k0 n Q :
  on_inode s c ip i → held_used sb c → room 1 c → 1 ≤ x_out P → free_blocks (S n) (vw c) →
  0 ≤ k0 < 13 → addr_of (i_d i) k0 = 0 →
  (∀ l b, let c' := alloc_block sb b c in let d' := set_addr k0 b (i_d i) in
     grown c (i_d i) c' d' → tx_ok iderw P l c' → b ≠ 0 → spread sb c' = {[fkey b]} ∪ spread sb c →
     free_blocks n (vw c') → Q b (with_inode ip i d' l s)) →
  wp (addr ← balloc iderw 1; mod_d ip (set_addr k0 addr);; mret addr) Q s.
Proof using Hds Ly.
  intros O Hh R Ho F Hk H0 HQ. pose proof (dstart_pos _ P sb Ly) as Hdp. pose proof O as [T Es W Hi Hd I].
  apply wp_bind. eapply (balloc_wp iderw Hds P sb Ly); [done..|by eapply free_one|]. intros l b Hb Hu T'.
  apply wp_bind. eapply mod_d_wp; [exact Hi|]. apply wp_ret. apply (HQ l b); [|done|lia| |].
  - by apply grown_direct.
  - apply (spread_alloc iderw Hds P sb Ly). lia.
  - eapply (free_less _ _ _ b); [|done]. intros b' Hb' Hub. by apply used_alloc in Hub.
Qed.


(** The second half of [bmap]: the indirect block is there. *)
Definition bmap_entry (a bn : Z) : M fsst Z :=
  bp ← fbread iderw 1 a;
  x ← fdata bp;
  let addr := get32 x (Z.to_nat (4 * bn)) in
  addr ← (if addr =? 0 then
            addr ← balloc iderw 1;
            x ← fdata bp;
            fset bp (put32 x (Z.to_nat (4 * bn)) addr);;
            flog bp;;
            mret addr
          else mret addr);
  fbrelse bp;;
  mret addr.

Lemma bmap_entry_old s c ip i bn Q :
  on_inode s c ip i → c_held c = ∅ → ndirty c < Z.of_nat NBUF → 0 ≤ bn < NINDIRECT →
  addr_of (i_d i) NDIRECT ≠ 0 → slot (vw c) (i_d i) (13 + bn) ≠ 0 →
  (∀ l, tx_ok iderw P l c → Q (slot (vw c) (i_d i) (13 + bn)) (set_fl l s)) →
  wp (bmap_entry (addr_of (i_d i) NDIRECT) bn) Q s.
Proof using Hds Ly.
  intros [T Es W Hi Hd I] Hh Hn Hbn Ha Hs HQ. pose proof (dstart_pos _ P sb Ly) as Hdp.
  destruct (ind_data c _ I Ha) as [Hr Hu]. pose proof (ly_size _ _ _ Ly) as Hsz. set (a := addr_of (i_d i) NDIRECT) in *.
  assert (slot (vw c) (i_d i) (13 + bn) = get32 (vw c a) (Z.to_nat (4 * bn))) as Esl.
  { unfold slot. fold a. destruct (Z.ltb_spec (13 + bn) 13); [lia|]. destruct (Z.eqb_spec a 0); [done|].
    by replace (13 + bn - 13) with bn by lia. }
  assert (c_held c !! fkey a = None) as Hha by by rewrite Hh.
  unfold bmap_entry. apply wp_bind. eapply (f_bread iderw P); [done|lia|done|unfold nheld; rewrite Hh, map_size_empty; lia|].
  intros l1 bp T1. apply wp_bind. eapply (f_data iderw P); [exact T1|apply lookup_insert_eq|].
  change (vw (hold_block (fkey a) bp c) a) with (vw c a). cbv zeta. rewrite <- Esl.
  destruct (Z.eqb_spec (slot (vw c) (i_d i) (13 + bn)) 0); [done|]. apply wp_bind, wp_ret, wp_bind.
  eapply (f_brelse iderw P); [exact T1|done|by eapply tx_clean|]. intros l2 T2. apply wp_ret. by apply HQ.
Qed.

Lemma bmap_entry_new s c ip i bn n Q :
  on_inode s c ip i → c_held c = ∅ → room 3 c → 1 ≤ x_out P → free_blocks (S n) (vw c) → 0 ≤ bn < NINDIRECT →
  addr_of (i_d i) NDIRECT ≠ 0 → slot (vw c) (i_d i) (13 + bn) = 0 →
  (∀ l c' b, grown c (i_d i) c' (i_d i) → tx_ok iderw P l c' → slot (vw c') (i_d i) (13 + bn) = b → b ≠ 0 →
     spread sb c' = {[fkey (addr_of (i_d i) NDIRECT); fkey b]} ∪ spread sb c →
     free_blocks n (vw c') → Q b (set_fl l s)) →
  wp (bmap_entry (addr_of (i_d i) NDIRECT) bn) Q s.
Proof using Hds Ly.
  intros [T Es W Hi Hd I] Hh [R1 R2] Ho F Hbn Ha Hs HQ. pose proof (dstart_pos _ P sb Ly) as Hdp.
  pose proof (ndirty_spread sb c) as Hns.
  destruct (ind_data c _ I Ha) as [Hr Hu]. pose proof (ly_size _ _ _ Ly) as Hsz. set (a := addr_of (i_d i) NDIRECT) in *.
  assert (slot (vw c) (i_d i) (13 + bn) = get32 (vw c a) (Z.to_nat (4 * bn))) as Esl.
  { unfold slot. fold a. destruct (Z.ltb_spec (13 + bn) 13); [lia|]. destruct (Z.eqb_spec a 0); [done|].
    by replace (13 + bn - 13) with bn by lia. }
  assert (c_held c !! fkey a = None) as Hha by by rewrite Hh.
  assert (nheld c = 0) as Hnh by (unfold nheld; by rewrite Hh, map_size_empty).
  unfold bmap_entry. apply wp_bind. eapply (f_bread iderw P); [done|lia|done|lia|].
  intros l1 bp T1. apply wp_bind. eapply (f_data iderw P); [exact T1|apply lookup_insert_eq|].
  change (vw (hold_block (fkey a) bp c) a) with (vw c a). cbv zeta. rewrite <- Esl, Hs. simpl (0 =? 0). cbv iota.
  apply wp_bind, wp_bind. set (c1 := hold_block (fkey a) bp c) in *.
  assert (nheld c1 = 1) as Hnh1 by (unfold nheld, c1; cbn; by rewrite Hh, insert_empty, map_size_singleton).
  eapply (balloc_wp iderw Hds P sb Ly _ c1); [exact T1|done|done| | |done|exact (free_one _ _ F)|].
  { intros b Hb. unfold c1 in Hb. cbn in Hb. rewrite Hh, insert_empty in Hb.
    destruct (decide (b = a)) as [->|Hne]; [by split; [lia|]|]. rewrite lookup_singleton_ne in Hb; [done|]. by intros [=]. }
  { assert (nspread sb c1 = nspread sb c) as Ens by done. split; lia. }
  intros l2 b Hb Hub T2. change (alloc_block sb b c1) with (hold_block (fkey a) bp (alloc_block sb b c)) in T2.
  change (¬ used sb (vw c) b) in Hub. assert (a ≠ b) as Hab by congruence.
  assert (0 ≤ b < sb_size sb) as Hb0 by lia. set (c2 := alloc_block sb b c) in *.
  assert (vw c2 a = vw c a) as Ea by (apply vw_alloc_data; [done|done|lia]).
  assert (spread sb c2 = {[fkey b]} ∪ spread sb c) as Esp by by apply (spread_alloc iderw Hds P sb Ly).
  assert (ndirty c2 < x_size P - 1) as Hnd2.
  { pose proof (ndirty_spread sb c2) as Hx. unfold nspread in Hx. rewrite Esp in Hx.
    pose proof (size_union_le {[fkey b]} (spread sb c)) as Hy. rewrite size_singleton in Hy. unfold nspread in R1. lia. }
  apply wp_bind. eapply (f_data iderw P); [exact T2|apply lookup_insert_eq|].
  change (vw (hold_block (fkey a) bp c2) a) with (vw c2 a). rewrite Ea.
  apply wp_bind, wp_zoom. eapply (tx_set iderw _ _ _ a); [exact T2|apply lookup_insert_eq|apply (fs_block _ P sb Ly); lia|].
  intros l3 T3. apply wp_bind, wp_zoom.
  eapply (tx_log_write iderw Hds _ _ _ a); [exact T3|apply lookup_insert_eq|apply (fs_block _ P sb Ly); lia|done|done|].
  intros l4 T4. apply wp_ret, wp_bind, wp_zoom. eapply (tx_brelse iderw _ _ _ a); [exact T4|apply lookup_insert_eq|left; set_solver|].
  intros l5 T5. rewrite drop_upd_hold in T5 by done. apply wp_ret.
  set (x := put32 (vw c a) (Z.to_nat (4 * bn)) b) in *. set (c3 := upd_block a x c2) in *.
  change NINDIRECT with 128 in Hbn. assert (0 ≤ b < 2 ^ 32) as Hb32 by lia.
  assert (grown c (i_d i) c3 (i_d i)) as G.
  { unfold c3, x. replace bn with (13 + bn - 13) by lia. apply grown_entry; try done. change NSLOT with 141. lia. }
  apply (HQ l5 c3 b); [done|done| |lia| |].
  - unfold slot. fold a. destruct (Z.ltb_spec (13 + bn) 13); [lia|]. destruct (Z.eqb_spec a 0); [done|].
    unfold c3. rewrite vw_upd. unfold x. replace (13 + bn - 13) with bn by lia. apply get_put32; [|done].
    rewrite (proj1 (fw_block _ _ W a ltac:(lia))). lia.
  - unfold c3. rewrite spread_upd, Esp. set_solver.
  - eapply (free_less _ _ _ b); [|exact F]. intros b' Hb' Hub'. apply used_alloc; [done|done|done|].
    unfold used in *. unfold c3 in Hub'. rewrite vw_upd_ne in Hub'; [done|].
    pose proof (BBLOCK_range _ Hds P sb Ly b' Hb'). lia.
Qed.


Lemma with_inode_id s ip i l :
  f_inodes s !! ip = Some i → with_inode ip i (i_d i) l s = set_fl l s.
Proof. intros Hi. unfold with_inode, set_fl. f_equal. rewrite list_insert_id; [done|]. by destruct i. Qed.

Lemma bmap_old s c ip i bn Q :
  on_inode s c ip i → c_held c = ∅ → ndirty c < Z.of_nat NBUF → 0 ≤ bn < MAXFILE →
  slot (vw c) (i_d i) (bslot bn) ≠ 0 →
  (∀ l, tx_ok iderw P l c → Q (slot (vw c) (i_d i) (bslot bn)) (set_fl l s)) →
  wp (bmap iderw ip bn) Q s.
Proof using Hds Ly.
  intros O Hh Hn Hbn Hs HQ. pose proof O as [T Es W Hi Hd I]. unfold bmap. apply wp_bind. eapply get_inode_wp; [done|].
  unfold bslot in *. destruct (Z.ltb_spec bn NDIRECT) as [Hlt|Hge].
  - cbv zeta. unfold slot in Hs, HQ. destruct (Z.ltb_spec bn 13); [|unfold NDIRECT in *; lia].
    destruct (Z.eqb_spec (addr_of (i_d i) bn) 0); [done|]. apply wp_ret. specialize (HQ (f_l s)). destruct s. by apply HQ.
  - cbv zeta. unfold MAXFILE in Hbn. destruct (Z.ltb_spec (bn - NDIRECT) NINDIRECT) as [_|]; [|lia]. rewrite Hd.
    replace (bn + 1) with (13 + (bn - NDIRECT)) in * by (unfold NDIRECT; lia).
    assert (addr_of (i_d i) NDIRECT ≠ 0) as Ha.
    { intros E. apply Hs. unfold slot. rewrite E. destruct (Z.ltb_spec (13 + (bn - NDIRECT)) 13); [lia|done]. }
    destruct (Z.eqb_spec (addr_of (i_d i) NDIRECT) 0); [done|]. apply wp_bind, wp_ret.
    eapply (bmap_entry_old s c ip i (bn - NDIRECT)); [done|done|done|lia|done|done|done].
Qed.

(** The blocks [bmap] may dirty besides the free map. *)
Definition bmap_dirty (bn b : Z) (d : dinode) : gset bkey :=
  {[fkey b]} ∪ (if bn <? NDIRECT then ∅ else {[fkey (addr_of d NDIRECT)]}).

Lemma bmap_new s c ip i bn n Q :
  on_inode s c ip i → c_held c = ∅ → room 4 c → 1 ≤ x_out P → free_blocks (S (S n)) (vw c) → 0 ≤ bn < MAXFILE →
  slot (vw c) (i_d i) (bslot bn) = 0 →
  (∀ l c' d' b, grown c (i_d i) c' d' → tx_ok iderw P l c' → slot (vw c') d' (bslot bn) = b → b ≠ 0 →
     spread sb c ⊆ spread sb c' → spread sb c' ⊆ bmap_dirty bn b d' ∪ spread sb c →
     (NDIRECT ≤ bn → fkey (addr_of d' NDIRECT) ∈ spread sb c') → free_blocks n (vw c') →
     Q b (with_inode ip i d' l s)) →
  wp (bmap iderw ip bn) Q s.
Proof using Hds Ly.
  intros O Hh R Ho F Hbn Hs HQ. pose proof O as [T Es W Hi Hd I]. unfold bmap. apply wp_bind. eapply get_inode_wp; [done|].
  assert (room 1 c ∧ room 3 c) as [R1 R3] by (destruct R; split; split; lia).
  assert (held_used sb c) as Hhu by (intros b0 Hb0; by rewrite Hh in Hb0).
  pose proof (iw_len _ _ _ I) as Hlen. unfold bslot, bmap_dirty in *. destruct (Z.ltb_spec bn NDIRECT) as [Hlt|Hge].
  - cbv zeta. unfold slot in Hs. destruct (Z.ltb_spec bn 13); [|unfold NDIRECT in *; lia]. rewrite Hs, Hd.
    eapply (alloc_addr_wp s c ip i bn (S n)); [done..|lia|done|]. intros l b c' d' G T' Hb Esp F'.
    apply (HQ l c' d' b); [done|done| |done|rewrite Esp; set_solver|rewrite Esp; set_solver|lia|by eapply free_weaken; [|done]; lia].
    unfold slot. destruct (Z.ltb_spec bn 13); [|lia]. unfold d'. rewrite addr_set by (done || lia). by rewrite decide_True.
  - cbv zeta. unfold MAXFILE in Hbn. destruct (Z.ltb_spec (bn - NDIRECT) NINDIRECT) as [_|]; [|lia]. rewrite Hd.
    replace (bn + 1) with (13 + (bn - NDIRECT)) in * by (unfold NDIRECT; lia).
    destruct (Z.eqb_spec (addr_of (i_d i) NDIRECT) 0) as [Ha|Ha].
    + apply wp_bind. eapply (alloc_addr_wp s c ip i NDIRECT (S n)); [done..|]. intros l b c1 d1 G1 T1 Hb Esp1 F1.
      pose proof (on_inode_grown _ _ _ _ l c1 d1 O G1 T1) as O1.
      assert (addr_of d1 NDIRECT = b) as Ea by (unfold d1; rewrite addr_set by done; by rewrite decide_True).
      rewrite <- Ea. eapply (bmap_entry_new _ c1 ip (set_i_d d1 i) (bn - NDIRECT) n); [done|done| |done|done|lia|by rewrite <- Ea in Hb| |].
      * eapply (room_le P sb 3 1 c c1 {[fkey b]}); [by rewrite Esp1|by rewrite size_singleton|done|done].
      * unfold slot. cbn [i_d set_i_d]. destruct (Z.ltb_spec (13 + (bn - NDIRECT)) 13); [lia|]. rewrite Ea.
        destruct (Z.eqb_spec b 0); [done|]. unfold c1, alloc_block. rewrite vw_upd. apply get32_zero.
      * cbn [i_d set_i_d]. intros l2 c2 b2 G2 T2 Es2 Hb2 Esp2 F2. apply (HQ l2 c2 d1 b2); try done.
        -- by eapply grown_trans.
        -- rewrite Esp2, Esp1. set_solver.
        -- rewrite Esp2, Esp1, Ea. set_solver.
        -- intros _. rewrite Esp2. set_solver.
    + apply wp_bind, wp_ret. eapply (bmap_entry_new s c ip i (bn - NDIRECT) n); [done|done|done|done| |lia|done|done|].
      { eapply free_weaken; [|done]. lia. }
      intros l c' b G T' Es' Hb Esp F'. rewrite <- (with_inode_id s ip i l Hi). apply (HQ l c' (i_d i) b); try done;
        rewrite Esp; set_solver.
Qed.

(** What a call of [bmap] does to the blocks dirtied. *)
Record bmap_cost (bn b : Z) (c : cache) (d : dinode) (c' : cache) (d' : dinode) : Prop := {
  bc_mono : spread sb c ⊆ spread sb c';
  bc_dirty : spread sb c' ⊆ bmap_dirty bn b d' ∪ spread sb c;
  bc_ind : NDIRECT ≤ bn → c' = c ∨ fkey (addr_of d' NDIRECT) ∈ spread sb c';
}.

Lemma bmap_wp s c ip i bn n Q :
  on_inode s c ip i → c_held c = ∅ → room 4 c → 1 ≤ x_out P → free_blocks (S (S n)) (vw c) → 0 ≤ bn < MAXFILE →
  (∀ l c' d' b, grown c (i_d i) c' d' → tx_ok iderw P l c' → slot (vw c') d' (bslot bn) = b → b ≠ 0 →
     bmap_cost bn b c (i_d i) c' d' → free_blocks n (vw c') →
     (slot (vw c) (i_d i) (bslot bn) ≠ 0 → d' = i_d i) → Q b (with_inode ip i d' l s)) →
  wp (bmap iderw ip bn) Q s.
Proof using Hds Ly.
  intros O Hh R Ho F Hbn HQ. destruct (decide (slot (vw c) (i_d i) (bslot bn) = 0)) as [Hs|Hs].
  - eapply bmap_new; [done..|]. intros l c' d' b G T Eb Hb Hm Hd Hi F'. apply (HQ l c' d' b); try done.
    split; [done|done|]. intros H. right. by apply Hi.
  - pose proof (ndirty_spread sb c). destruct R as [R1 R2]. assert (0 ≤ nheld c) by (unfold nheld; lia).
    eapply bmap_old; [done|done|lia|done|done|]. intros l T. rewrite <- (with_inode_id s ip i l (oi_ip _ _ _ _ O)).
    apply (HQ l c (i_d i)); try done.
    + apply grown_refl; apply O.
    + split; [done|set_solver|by left].
    + eapply free_weaken; [|done]. lia.
Qed.
End grow.
