(* ===== verification/FsRw.v ===== *)
(** [readi] and [writei] (fs.c): a file is its bytes. *)

From S2P Require Import Prelude Mmu Block Ide Bio Log LogSpec LogCrash LogOps Tx Fs FsAlloc FsData.

Definition file_bytes (v : Z → block) (d : dinode) (off n : Z) : list Z := fbyte v d <$> seqZ off n.

Lemma file_bytes_app v d off n m :
  0 ≤ n → 0 ≤ m → file_bytes v d off (n + m) = file_bytes v d off n ++ file_bytes v d (off + n) m.
Proof. intros. unfold file_bytes. by rewrite seqZ_app, fmap_app. Qed.

Lemma block_off off j :
  0 ≤ j → off mod BSIZE + j < BSIZE → (off + j) / BSIZE = off / BSIZE ∧ (off + j) mod BSIZE = off mod BSIZE + j.
Proof.
  intros Hj Hb. assert (0 < BSIZE) as HB by (unfold BSIZE; lia).
  pose proof (Z.mod_pos_bound off BSIZE HB). pose proof (Z.div_mod off BSIZE).
  split; symmetry; [apply (Z.div_unique _ _ _ (off mod BSIZE + j))|apply (Z.mod_unique _ _ (off / BSIZE))]; lia.
Qed.

Lemma block_end off : (off + (BSIZE - off mod BSIZE)) mod BSIZE = 0.
Proof.
  assert (BSIZE ≠ 0) as HB by (unfold BSIZE; lia). pose proof (Z.div_mod off BSIZE HB).
  replace (off + _) with ((off / BSIZE + 1) * BSIZE) by lia. by apply Z.mod_mul.
Qed.

(** The bytes of the file inside one block. *)
Lemma bytes_in_block v d off m :
  0 ≤ off → 0 ≤ m → off mod BSIZE + m ≤ BSIZE → length (v (slot v d (bslot (off / BSIZE)))) = 512%nat →
  bytes_at (v (slot v d (bslot (off / BSIZE)))) (Z.to_nat (off mod BSIZE)) (Z.to_nat m) = file_bytes v d off m.
Proof.
  intros Ho Hm Hb Hl. unfold bytes_at, file_bytes. assert (0 < BSIZE) as HB by (unfold BSIZE; lia).
  pose proof (Z.mod_pos_bound off BSIZE HB) as Hmod. set (x := v (slot v d (bslot (off / BSIZE)))) in *.
  apply list_eq_same_length with (n := Z.to_nat m).
  - rewrite length_fmap, length_seqZ. done.
  - rewrite length_take, length_drop, Hl. unfold BSIZE in *. lia.
  - intros j y z Hj Hy Hz. rewrite lookup_take_lt, lookup_drop in Hy by done.
    apply list_lookup_fmap_Some in Hz as (k & -> & Hk). apply lookup_seqZ in Hk as [-> Hk]. unfold fbyte.
    assert ((off + Z.of_nat j) / BSIZE = off / BSIZE ∧ (off + Z.of_nat j) mod BSIZE = off mod BSIZE + Z.of_nat j) as [-> ->].
    { apply block_off; lia. }
    fold x. rewrite nth_lookup. replace (Z.to_nat (off mod BSIZE + Z.of_nat j)) with (Z.to_nat (off mod BSIZE) + j)%nat by lia.
    by rewrite Hy.
Qed.

Section rw.
Context (iderw : nat → M bst ()) `{!DiskDriver iderw} (Hds : disk_size ≤ 2 ^ 31).
Context (P : txp) (sb : superblock) (Ly : layout iderw P sb).
Notation on_inode := (on_inode iderw P sb).
Notation room := (room P sb).

Lemma BSIZE_pos : 0 < BSIZE.
Proof. unfold BSIZE. lia. Qed.

(** The block that holds offset [off] of a file, when there is one. *)
Lemma file_block c d off :
  fs_wf sb (vw c) → inode_wf sb (vw c) d → 0 ≤ off < MAXFILE * BSIZE → slot (vw c) d (bslot (off / BSIZE)) ≠ 0 →
  0 ≤ off / BSIZE < MAXFILE ∧ dstart sb ≤ slot (vw c) d (bslot (off / BSIZE)) < sb_size sb ∧
  block_ok (vw c (slot (vw c) d (bslot (off / BSIZE)))).
Proof using Ly.
  intros W I Ho Hne. pose proof (dstart_pos _ P sb Ly) as Hdp. pose proof BSIZE_pos.
  assert (0 ≤ off / BSIZE < MAXFILE) as Hbn by (split; [apply Z.div_pos; lia|apply Z.div_lt_upper_bound; lia]).
  destruct (bslot_range _ Hbn) as [Hk _]. destruct (iw_data _ _ _ I _ Hk Hne) as [Hr _].
  split; [done|]. split; [done|]. apply W. lia.
Qed.

Lemma readi_loop_wp fuel s c ip i off tot n dst Q :
  on_inode s c ip i → c_held c = ∅ → ndirty c < Z.of_nat NBUF → 0 ≤ off → 0 ≤ tot ≤ n →
  off + (n - tot) ≤ d_size (i_d i) → (tot < n → n - tot + off mod BSIZE ≤ Z.of_nat fuel * BSIZE) →
  (∀ l, tx_ok iderw P l c → Q (dst ++ file_bytes (vw c) (i_d i) off (n - tot)) (set_fl l s)) →
  wp (readi_loop iderw fuel ip off tot n dst) Q s.
Proof using Hds Ly.
  intros O Hh Hn. revert s off tot dst O. induction fuel as [|fuel IH]; intros s off tot dst O Ho Ht Hsz Hf HQ; simpl;
    (destruct (Z.ltb_spec tot n) as [Hlt|Hge]; [|apply wp_ret; replace (n - tot) with 0 in HQ by lia;
      specialize (HQ (f_l s) (oi_tx _ _ _ _ _ _ _ O)); change (file_bytes _ _ off 0) with (@nil Z) in HQ;
      rewrite app_nil_r in HQ; by destruct s]); pose proof BSIZE_pos as HB; pose proof (Z.mod_pos_bound off BSIZE HB) as Hmod; [lia|].
  pose proof O as [T Es W Hi Hd I]. pose proof (iw_size _ _ _ I) as Hmax.
  assert (slot (vw c) (i_d i) (bslot (off / BSIZE)) ≠ 0) as Hne.
  { apply (iw_mapped _ _ _ I); [apply Z.div_pos; lia|]. pose proof (Z.mul_div_le off BSIZE HB). lia. }
  destruct (file_block c (i_d i) off W I ltac:(lia) Hne) as (Hbn & Hr & Hok).
  apply wp_bind. eapply get_inode_wp; [done|]. rewrite Hd. apply wp_bind. eapply (bmap_old iderw Hds P sb Ly); [done..|].
  intros l1 T1. pose proof (ly_size _ _ _ Ly). pose proof (dstart_pos _ P sb Ly).
  set (b := slot (vw c) (i_d i) (bslot (off / BSIZE))) in *. assert (c_held c !! fkey b = None) as Hhb by by rewrite Hh.
  apply wp_bind. eapply (f_bread iderw P); [done|lia|done|unfold nheld; rewrite Hh, map_size_empty; lia|]. intros l2 bp T2.
  apply wp_bind. eapply (f_data iderw P); [exact T2|apply lookup_insert_eq|]. change (vw (hold_block _ _ c) b) with (vw c b).
  apply wp_bind. eapply (f_brelse iderw P); [exact T2|done|by eapply tx_clean|]. intros l3 T3.
  set (m := (n - tot) `min` (BSIZE - off mod BSIZE)). assert (0 < m) as Hm by lia.
  rewrite u32_small by (change (MAXFILE * BSIZE) with 71680 in *; lia).
  unfold b. rewrite bytes_in_block; [|done|lia|lia|apply Hok]. fold b.
  apply (IH (set_fl l3 s)); [|lia|lia|lia| |].
  - split; [exact T3|done..].
  - intros Hlt'. assert (m = BSIZE - off mod BSIZE) as Em by lia.
    rewrite Em, block_end. specialize (Hf Hlt). lia.
  - intros l T'. rewrite <- app_assoc, <- file_bytes_app by lia.
    replace (m + (n - (tot + m))) with (n - tot) by lia. by apply HQ.
Qed.


(** ** readi *)

Lemma readi_wp dev_read s c ip i off n Q :
  on_inode s c ip i → c_held c = ∅ → ndirty c < Z.of_nat NBUF → d_type (i_d i) ≠ T_DEV →
  0 ≤ off < 2 ^ 32 → 0 ≤ n < 2 ^ 32 →
  (d_size (i_d i) < off ∨ 2 ^ 32 ≤ off + n → Q (-1, []) s) →
  (∀ l, let n' := n `min` (d_size (i_d i) - off) in off ≤ d_size (i_d i) → off + n < 2 ^ 32 →
     tx_ok iderw P l c → Q (n', file_bytes (vw c) (i_d i) off n') (set_fl l s)) →
  wp (readi iderw dev_read ip off n) Q s.
Proof using Hds Ly.
  intros O Hh Hnd Hty Ho Hn HQ1 HQ2. pose proof O as [T Es W Hi Hd I]. pose proof (iw_size _ _ _ I) as Hmax.
  change (MAXFILE * BSIZE) with 71680 in Hmax.
  unfold readi. apply wp_bind. eapply get_inode_wp; [done|]. destruct (Z.eqb_spec (d_type (i_d i)) T_DEV); [done|]. cbv zeta.
  destruct (Z.ltb_spec (d_size (i_d i)) off) as [Hlt|Hge]; cbn [orb]; [apply wp_ret, HQ1; by left|].
  destruct (decide (2 ^ 32 ≤ off + n)) as [Hov|Hov].
  - assert (u32 (off + n) = off + n - 2 ^ 32) as -> by (unfold u32; symmetry; apply (Z.mod_unique _ _ 1); lia).
    destruct (Z.ltb_spec (off + n - 2 ^ 32) off); [|lia]. apply wp_ret, HQ1. by right.
  - rewrite u32_small by lia. destruct (Z.ltb_spec (off + n) off); [lia|].
    set (n' := if d_size (i_d i) <? off + n then d_size (i_d i) - off else n).
    assert (n' = n `min` (d_size (i_d i) - off)) as En by (unfold n'; destruct (Z.ltb_spec (d_size (i_d i)) (off + n)); lia).
    apply wp_bind. pose proof BSIZE_pos as HB. pose proof (Z.mod_pos_bound off BSIZE HB).
    eapply readi_loop_wp; [done|done|done|lia|lia|lia| |].
    + intros _. pose proof (Z.div_mod n' BSIZE). pose proof (Z.mod_pos_bound n' BSIZE HB).
      assert (0 ≤ n' / BSIZE) by (apply Z.div_pos; lia). rewrite Nat2Z.inj_add, Z2Nat.id by done. lia.
    + intros l T'. apply wp_ret. rewrite i32_small by lia. rewrite En, Z.sub_0_r. simpl. apply HQ2; [lia|lia|done].
Qed.

(** ** Writing *)

Lemma slot_upd d c b x k : b ≠ addr_of d NDIRECT → slot (vw (upd_block b x c)) d k = slot (vw c) d k.
Proof. intros Hb. unfold slot. destruct (k <? 13); [done|]. destruct (_ =? 0); [done|]. by rewrite vw_upd_ne. Qed.

(** [c'] and [d'] are [c] and [d] with the bytes [src] written at [off]. *)
Record written (c : cache) (d : dinode) (c' : cache) (d' : dinode) (off : Z) (src : list Z) : Prop := {
  wr_meta : same_meta d d';
  wr_wf : fs_wf sb (vw c');
  wr_ino : inode_wf sb (vw c') d';
  wr_held : c_held c' = c_held c;
  wr_slot : ∀ k, 0 ≤ k < NSLOT → slot (vw c) d k ≠ 0 → slot (vw c') d' k = slot (vw c) d k;
  wr_mapped : ∀ j, off ≤ j < off + Z.of_nat (length src) → slot (vw c') d' (bslot (j / BSIZE)) ≠ 0;
  wr_new : ∀ j, off ≤ j < off + Z.of_nat (length src) → fbyte (vw c') d' j = nth (Z.to_nat (j - off)) src 0;
  wr_old : ∀ j, 0 ≤ j < MAXFILE * BSIZE → ¬ (off ≤ j < off + Z.of_nat (length src)) →
    slot (vw c) d (bslot (j / BSIZE)) ≠ 0 → fbyte (vw c') d' j = fbyte (vw c) d j;
  wr_frame : ∀ b, dstart sb ≤ b < sb_size sb → used sb (vw c) b → (∀ k, 0 ≤ k < NSLOT → slot (vw c) d k ≠ b) →
    vw c' b = vw c b ∧ ∀ k, 0 ≤ k < NSLOT → slot (vw c') d' k ≠ b;
  wr_used : ∀ b, 0 ≤ b < sb_size sb → used sb (vw c) b → used sb (vw c') b;
  wr_inodes : ∀ b, b < sb_bmapstart sb → vw c' b = vw c b;
  wr_same : (∀ j, off ≤ j < off + Z.of_nat (length src) → slot (vw c) d (bslot (j / BSIZE)) ≠ 0) → d' = d;
}.

Lemma off_slot j : 0 ≤ j < MAXFILE * BSIZE → 0 ≤ bslot (j / BSIZE) < NSLOT ∧ bslot (j / BSIZE) ≠ NDIRECT.
Proof.
  intros Hj. pose proof BSIZE_pos. apply bslot_range. split; [apply Z.div_pos; lia|apply Z.div_lt_upper_bound; lia].
Qed.

Lemma written_trans c d c1 d1 c2 d2 off src1 src2 :
  0 ≤ off → off + Z.of_nat (length (src1 ++ src2)) ≤ MAXFILE * BSIZE →
  written c d c1 d1 off src1 → written c1 d1 c2 d2 (off + Z.of_nat (length src1)) src2 →
  written c d c2 d2 off (src1 ++ src2).
Proof using Ly.
  intros Ho Hmax W1 W2. pose proof (dstart_pos _ P sb Ly). rewrite length_app, Nat2Z.inj_add in Hmax.
  set (n1 := Z.of_nat (length src1)) in *.
  assert (∀ j, 0 ≤ j < MAXFILE * BSIZE → slot (vw c) d (bslot (j / BSIZE)) ≠ 0 → slot (vw c1) d1 (bslot (j / BSIZE)) ≠ 0) as Hs1.
  { intros j Hj Hs. destruct (off_slot j Hj). by rewrite (wr_slot _ _ _ _ _ _ W1). }
  split; rewrite ?length_app, ?Nat2Z.inj_add; fold n1.
  - etrans; [apply W1|apply W2].
  - apply W2.
  - apply W2.
  - rewrite (wr_held _ _ _ _ _ _ W2). apply W1.
  - intros k Hk Hs. pose proof (wr_slot _ _ _ _ _ _ W1 k Hk Hs) as E. rewrite <- E.
    apply (wr_slot _ _ _ _ _ _ W2); [done|congruence].
  - intros j Hj. destruct (decide (off + n1 ≤ j)); [apply (wr_mapped _ _ _ _ _ _ W2); lia|].
    assert (slot (vw c1) d1 (bslot (j / BSIZE)) ≠ 0) as Hs by (apply (wr_mapped _ _ _ _ _ _ W1); lia).
    destruct (off_slot j ltac:(lia)). by rewrite (wr_slot _ _ _ _ _ _ W2).
  - intros j Hj. destruct (decide (off + n1 ≤ j)).
    + rewrite (wr_new _ _ _ _ _ _ W2) by lia. rewrite app_nth2 by lia. f_equal. lia.
    + rewrite (wr_old _ _ _ _ _ _ W2); [|lia|lia|apply (wr_mapped _ _ _ _ _ _ W1); lia].
      rewrite (wr_new _ _ _ _ _ _ W1) by lia. by rewrite app_nth1 by lia.
  - intros j Hj Hr Hs. rewrite (wr_old _ _ _ _ _ _ W2) by (auto; lia). apply (wr_old _ _ _ _ _ _ W1); [done|lia|done].
  - intros b Hb Hu Hk. destruct (wr_frame _ _ _ _ _ _ W1 b Hb Hu Hk) as [E1 Hk1].
    destruct (wr_frame _ _ _ _ _ _ W2 b Hb) as [E2 Hk2]; [apply (wr_used _ _ _ _ _ _ W1); [lia|done]|done|].
    split; [congruence|done].
  - intros b Hb Hu. by apply (wr_used _ _ _ _ _ _ W2), (wr_used _ _ _ _ _ _ W1).
  - intros b Hb. by rewrite (wr_inodes _ _ _ _ _ _ W2), (wr_inodes _ _ _ _ _ _ W1).
  - intros Hs. assert (d1 = d) as -> by (apply (wr_same _ _ _ _ _ _ W1); intros j Hj; apply Hs; lia).
    apply (wr_same _ _ _ _ _ _ W2). intros j Hj. apply Hs1; [lia|]. apply Hs. lia.
Qed.


Lemma nth_put_bytes (x l : list Z) (o k : nat) :
  (o + length l ≤ length x)%nat →
  nth k (put_bytes x o l) 0 = if decide (o ≤ k < o + length l)%nat then nth (k - o) l 0 else nth k x 0.
Proof. intros H. rewrite !nth_lookup, lookup_put_bytes by done. case_decide; by rewrite ?nth_lookup. Qed.

Lemma written_one c d c' d' off src :
  grown sb c d c' d' → 0 ≤ off → off + Z.of_nat (length src) ≤ MAXFILE * BSIZE →
  off mod BSIZE + Z.of_nat (length src) ≤ BSIZE → (0 < length src)%nat → Forall (λ x, 0 ≤ x < 256) src →
  let b := slot (vw c') d' (bslot (off / BSIZE)) in
  b ≠ 0 → (slot (vw c) d (bslot (off / BSIZE)) ≠ 0 → d' = d) →
  written c d (upd_block b (put_bytes (vw c' b) (Z.to_nat (off mod BSIZE)) src) c') d' off src.
Proof using Ly Hds.
  intros G Ho Hmax Hblk Hpos Hbytes b Hb Hsame. pose proof BSIZE_pos as HB. pose proof (Z.mod_pos_bound off BSIZE HB) as Hmod.
  pose proof (gr_wf _ _ _ _ _ G) as W'. pose proof (gr_ino _ _ _ _ _ G) as I'. pose proof (dstart_pos _ P sb Ly) as Hdp.
  destruct (file_block c' d' off W' I' ltac:(lia) Hb) as (Hbn & Hr & Hok). fold b in Hr, Hok.
  destruct (bslot_range _ Hbn) as [Hk Hk12]. set (o := Z.to_nat (off mod BSIZE)).
  assert (o + length src ≤ length (vw c' b))%nat as Hfit by (rewrite (proj1 Hok); unfold o, BSIZE in *; lia).
  set (x := put_bytes (vw c' b) o src).
  assert (b ≠ addr_of d' NDIRECT) as Hind.
  { intros E. apply Hk12. apply (iw_inj _ _ _ I'); [done|by vm_compute|done|exact E]. }
  assert (∀ k, slot (vw (upd_block b x c')) d' k = slot (vw c') d' k) as Hsl by (intros k; by apply slot_upd).
  assert (∀ b', 0 ≤ b' < sb_size sb → used sb (vw (upd_block b x c')) b' ↔ used sb (vw c') b') as Hus.
  { intros b' Hb'. unfold used. rewrite vw_upd_ne; [done|]. pose proof (BBLOCK_range _ Hds P sb Ly b' Hb'). lia. }
  assert (∀ j, 0 ≤ j < MAXFILE * BSIZE → j / BSIZE ≠ off / BSIZE → slot (vw c') d' (bslot (j / BSIZE)) ≠ 0 →
    fbyte (vw (upd_block b x c')) d' j = fbyte (vw c') d' j) as Hoth.
  { intros j Hj Hne Hs. unfold fbyte. rewrite Hsl, vw_upd_ne; [done|]. intros E. apply Hne, bslot_inj.
    apply (iw_inj _ _ _ I'); [by apply off_slot|done|done|done]. }
  assert (∀ j, j / BSIZE = off / BSIZE → fbyte (vw (upd_block b x c')) d' j =
    if decide (off ≤ j < off + Z.of_nat (length src)) then nth (Z.to_nat (j - off)) src 0 else fbyte (vw c') d' j) as Hin.
  { intros j Ej. unfold fbyte. rewrite Hsl, Ej. fold b. rewrite vw_upd. unfold x. rewrite nth_put_bytes by done.
    pose proof (Z.mod_pos_bound j BSIZE HB). pose proof (Z.div_mod j BSIZE). pose proof (Z.div_mod off BSIZE).
    unfold o. repeat case_decide; try lia; f_equal; lia. }
  assert (∀ j, off ≤ j < off + Z.of_nat (length src) → j / BSIZE = off / BSIZE) as Hjb.
  { intros j Hj. replace j with (off + (j - off)) by lia. apply block_off; lia. }
  split; rewrite ?Hsl.
  - apply G.
  - apply (fs_wf_upd iderw Hds P sb Ly); [done| |lia]. apply block_ok_put; [done|rewrite <- (proj1 Hok); done|done].
  - destruct I' as [J1 J2 J3 J4 J5]. split; [done| | |done|].
    + intros k k'. rewrite !Hsl. apply J2.
    + intros k Hkr. rewrite Hsl. intros Hs. destruct (J3 k Hkr Hs) as [? Hu]. split; [done|]. by apply Hus; [lia|].
    + intros bn. rewrite Hsl. apply J5.
  - apply (gr_held _ _ _ _ _ G).
  - intros k Hkr Hs. rewrite Hsl. by apply (gr_slot _ _ _ _ _ G).
  - intros j Hj. by rewrite Hsl, (Hjb j Hj).
  - intros j Hj. rewrite Hin by by apply Hjb. by rewrite decide_True.
  - intros j Hj Hnr Hs. destruct (off_slot j Hj) as [Hjk Hj12].
    pose proof (gr_slot _ _ _ _ _ G _ Hjk Hs) as Es.
    assert (fbyte (vw (upd_block b x c')) d' j = fbyte (vw c') d' j) as ->.
    { destruct (decide (j / BSIZE = off / BSIZE)) as [E|E]; [rewrite Hin by done; by rewrite decide_False|].
      apply Hoth; [done|done|congruence]. }
    unfold fbyte. rewrite Es. by rewrite (gr_keep _ _ _ _ _ G).
  - intros b' Hb' Hu Hnk. destruct (gr_frame _ _ _ _ _ G b' Hb' Hu Hnk) as [E1 Hk'].
    split; [rewrite vw_upd_ne; [done|]; intros ->; by apply (Hk' (bslot (off / BSIZE)))|]. intros k Hkr. rewrite Hsl. by apply Hk'.
  - intros b' Hb' Hu. apply Hus; [done|]. by apply (gr_used _ _ _ _ _ G).
  - intros b' Hb'. rewrite vw_upd_ne by lia. by apply (gr_inodes _ _ _ _ _ G).
  - intros Hs. apply Hsame, Hs. lia.
Qed.


(** One more block is needed while the indirect block is not yet dirty. *)
Definition pot (c : cache) (d : dinode) : Z :=
  if decide (addr_of d NDIRECT ≠ 0 ∧ fkey (addr_of d NDIRECT) ∈ spread sb c) then 0 else 1.

Lemma pot_range c d : 0 ≤ pot c d ≤ 1.
Proof. unfold pot. case_decide; lia. Qed.

Lemma ind_kept c d c' d' : grown sb c d c' d' → addr_of d NDIRECT ≠ 0 → addr_of d' NDIRECT = addr_of d NDIRECT.
Proof. intros G Ha. apply (gr_slot _ _ _ _ _ G NDIRECT); [by vm_compute|done]. Qed.

Lemma step_cost bn c d c' d' b x :
  grown sb c d c' d' → slot (vw c') d' (bslot bn) = b → b ≠ 0 → bmap_cost sb bn b c d c' d' → 0 ≤ bn →
  nspread sb (upd_block b x c') + pot (upd_block b x c') d' ≤ nspread sb c + pot c d + 1.
Proof.
  intros G Eb Hb [Hm Hd Hi] Hbn. set (c2 := upd_block b x c'). clear Hds Ly.
  assert (spread sb c2 = {[fkey b]} ∪ spread sb c') as E2 by apply spread_upd.
  assert (spread sb c ⊆ spread sb c2) as Hm2 by set_solver.
  assert (∀ X : gset bkey, spread sb c2 ⊆ X ∪ spread sb c → nspread sb c2 ≤ Z.of_nat (size X) + nspread sb c) as Hsz.
  { intros X HX. unfold nspread. apply subseteq_size in HX. pose proof (size_union_le X (spread sb c)). lia. }
  assert (pot c d = 0 → pot c2 d' = 0 ∧ spread sb c2 ⊆ {[fkey b]} ∪ spread sb c) as H0.
  { unfold pot. case_decide as Hp; [intros _|done]. destruct Hp as [Ha Hin]. rewrite (ind_kept _ _ _ _ G Ha).
    rewrite decide_True by (split; [done|set_solver]). split; [done|]. unfold bmap_dirty in Hd. rewrite E2.
    destruct (bn <? NDIRECT); [set_solver|]. rewrite (ind_kept _ _ _ _ G Ha) in Hd. set_solver. }
  pose proof (pot_range c d). pose proof (pot_range c2 d').
  destruct (decide (pot c d = 0)) as [Hp|Hp].
  { destruct (H0 Hp) as [-> Hs]. specialize (Hsz _ Hs). rewrite size_singleton in Hsz. lia. }
  destruct (Z.ltb_spec bn NDIRECT) as [Hlt|Hge].
  { assert (spread sb c2 ⊆ {[fkey b]} ∪ spread sb c) as Hs.
    { rewrite E2. unfold bmap_dirty in Hd. destruct (Z.ltb_spec bn NDIRECT); [|lia]. set_solver. }
    specialize (Hsz _ Hs). rewrite size_singleton in Hsz. lia. }
  destruct (Hi Hge) as [->|Hin].
  { specialize (Hsz {[fkey b]} ltac:(set_solver)). rewrite size_singleton in Hsz. lia. }
  assert (pot c2 d' = 0) as ->.
  { unfold pot. rewrite decide_True; [done|]. split; [|set_solver]. intros E. apply Hb. rewrite <- Eb. unfold slot, bslot.
    unfold NDIRECT in *. destruct (Z.ltb_spec bn 12); [lia|]. destruct (Z.ltb_spec (bn + 1) 13); [lia|]. by rewrite E. }
  assert (spread sb c2 ⊆ {[fkey b; fkey (addr_of d' NDIRECT)]} ∪ spread sb c) as Hs.
  { rewrite E2. unfold bmap_dirty in Hd. destruct (Z.ltb_spec bn NDIRECT); [lia|]. set_solver. }
  specialize (Hsz _ Hs). pose proof (size_union_le {[fkey b]} {[fkey (addr_of d' NDIRECT)]}) as Hu.
  rewrite !size_singleton in Hu. lia.
Qed.

Lemma written_nil c d off : fs_wf sb (vw c) → inode_wf sb (vw c) d → written c d c d off [].
Proof. intros W I. split; try done; intros j Hj; simpl in *; lia. Qed.


Lemma writei_stop s c ip i off k (Q : Z → fsst → Prop) :
  on_inode s c ip i → 0 ≤ k →
  (∀ l c' d', written c (i_d i) c' d' off [] → tx_ok iderw P l c' →
     nspread sb c' + pot c' d' ≤ nspread sb c + pot c (i_d i) + k →
     Q (off + Z.of_nat (length (@nil Z))) (with_inode ip i d' l s)) → Q off s.
Proof.
  intros O Hk HQ. specialize (HQ (f_l s) c (i_d i)). rewrite (with_inode_id s ip i _ (oi_ip _ _ _ _ _ _ _ O)) in HQ.
  replace (off + Z.of_nat (length (@nil Z))) with off in HQ by (simpl; lia). destruct s.
  apply HQ; [apply written_nil; apply O|apply O|lia].
Qed.

(** [nb] bounds the number of blocks that are written. *)
Lemma writei_loop_wp fuel (nb : nat) s c ip i src off tot n Q :
  on_inode s c ip i → c_held c = ∅ → 1 ≤ x_out P → Forall (λ x, 0 ≤ x < 256) src →
  0 ≤ off → off + Z.of_nat (length src) ≤ MAXFILE * BSIZE → tot + Z.of_nat (length src) = n →
  (src ≠ [] → Z.of_nat (length src) + off mod BSIZE ≤ Z.of_nat nb * BSIZE) → (nb ≤ fuel)%nat →
  room (Z.of_nat nb + pot c (i_d i) + 3) c → free_blocks sb (2 * nb) (vw c) →
  (∀ l c' d', written c (i_d i) c' d' off src → tx_ok iderw P l c' →
     nspread sb c' + pot c' d' ≤ nspread sb c + pot c (i_d i) + Z.of_nat nb →
     Q (off + Z.of_nat (length src)) (with_inode ip i d' l s)) →
  wp (writei_loop iderw fuel ip src off tot n) Q s.
Proof using Hds Ly.
  intros O Hh Ho. revert nb s c i src off tot O Hh. pose proof BSIZE_pos as HB.
  induction fuel as [|fuel IH]; intros nb s c i src off tot O Hh Hby Hof Hmax Ht Hf Hnb R F HQ; simpl;
    (destruct (Z.ltb_spec tot n) as [Hlt|Hge]; [|destruct src; [|simpl in *; lia]; apply wp_ret;
      by eapply (writei_stop s c ip i off); [done| |done]; lia]);
    pose proof (Z.mod_pos_bound off BSIZE HB) as Hmod;
    (assert (src ≠ []) as Hne by (intros ->; simpl in *; lia)); specialize (Hf Hne); [lia|].
  destruct nb as [|nb]; [lia|]. pose proof O as [T Es W Hi Hd I]. set (m := (n - tot) `min` (BSIZE - off mod BSIZE)). set (k := Z.to_nat m).
  assert (0 < m) as Hm by lia. assert (k ≤ length src)%nat as Hkl by lia.
  set (src1 := take k src). assert (length src1 = k) as Hl1 by (unfold src1; rewrite length_take; lia).
  assert (off / BSIZE < MAXFILE ∧ 0 ≤ off / BSIZE) as [Hbn Hbn0] by (split; [apply Z.div_lt_upper_bound; lia|apply Z.div_pos; lia]).
  apply wp_bind. eapply get_inode_wp; [done|]. rewrite Hd.
  pose proof (pot_range c (i_d i)) as Hpot. assert (room 4 c) as R4 by (destruct R; split; lia).
  apply wp_bind. eapply (bmap_wp iderw Hds P sb Ly s c ip i (off / BSIZE) (2 * nb)); [done|done|done|done| |done|].
  { by replace (S (S (2 * nb))) with (2 * S nb)%nat by lia. }
  intros l1 c1 d1 b G1 T1 Eb Hb Hcost F1 Hsame. pose proof (on_inode_grown _ _ _ _ _ _ _ _ _ _ O G1 T1) as O1.
  assert (c_held c1 = ∅) as Hh1 by by rewrite (gr_held _ _ _ _ _ G1). pose proof (ly_size _ _ _ Ly). pose proof (dstart_pos _ P sb Ly).
  assert (slot (vw c1) d1 (bslot (off / BSIZE)) ≠ 0) as Hb1 by congruence.
  destruct (file_block c1 d1 off (gr_wf _ _ _ _ _ G1) (gr_ino _ _ _ _ _ G1) ltac:(lia) Hb1) as (_ & Hr & Hok). rewrite Eb in Hr, Hok.
  set (x := put_bytes (vw c1 b) (Z.to_nat (off mod BSIZE)) src1). set (c2 := upd_block b x c1).
  assert (nspread sb c2 + pot c2 d1 ≤ nspread sb c + pot c (i_d i) + 1) as Hcost2 by by eapply step_cost.
  assert (ndirty c1 ≤ ndirty c2) as Hnd by apply ndirty_upd. pose proof (ndirty_spread sb c2) as Hns. pose proof (pot_range c2 d1) as Hpot2.
  assert (nheld c = 0 ∧ nheld c1 = 0 ∧ nheld c2 = 0) as (Hz0 & Hz1 & Hz2).
  { unfold nheld, c2. cbn. by rewrite Hh, Hh1, map_size_empty. }
  assert (c_held c1 !! fkey b = None) as Hhb by by rewrite Hh1.
  assert (ndirty c1 < x_size P - 1 ∧ ndirty c1 < Z.of_nat NBUF) as [Hd1 Hd2] by (destruct R; lia).
  apply wp_bind. eapply (f_bread iderw P); [exact T1|lia|done|lia|]. intros l2 bp T2.
  apply wp_bind. eapply (f_data iderw P); [exact T2|apply lookup_insert_eq|]. change (vw (hold_block _ _ c1) b) with (vw c1 b).
  fold m k src1 x. eapply (f_update iderw Hds P); [exact T2|done|apply (fs_block _ P sb Ly); lia|done|done|].
  intros l3 T3. fold c2 in T3. rewrite u32_small by (change (MAXFILE * BSIZE) with 71680 in *; lia).
  assert (written c (i_d i) c2 d1 off src1) as W1.
  { unfold c2, x. rewrite <- Eb. apply written_one; try done; [lia|lia|lia|by apply Forall_take]. }
  assert (Z.of_nat (length (drop k src)) = Z.of_nat (length src) - m) as Hl2 by (rewrite length_drop; lia).
  apply (IH nb (with_inode ip i d1 l3 s) c2 (set_i_d d1 i)); [| |by apply Forall_drop|lia|lia|lia| |lia| | |].
  - split; [exact T3|done|apply W1|cbn; apply list_lookup_insert_eq; by eapply lookup_lt_Some|done|apply W1].
  - by rewrite (wr_held _ _ _ _ _ _ W1).
  - intros Hne'. assert (m = BSIZE - off mod BSIZE) as Em by (destruct (drop k src) eqn:E; [done|]; simpl in *; lia).
    rewrite Em, block_end. lia.
  - cbn [i_d set_i_d]. destruct R. split; lia.
  - eapply free_same; [|exact F1]. intros b' Hb' Hu'. unfold used in *. unfold c2 in Hu'. rewrite vw_upd_ne in Hu'; [done|].
    pose proof (BBLOCK_range _ Hds P sb Ly b' Hb'). lia.
  - cbn [i_d set_i_d]. intros l c' d' W2 T' Hc'. replace (off + m + Z.of_nat (length (drop k src))) with (off + Z.of_nat (length src)) by lia.
    assert (with_inode ip (set_i_d d1 i) d' l (with_inode ip i d1 l3 s) = with_inode ip i d' l s) as ->.
    { unfold with_inode. cbn. by rewrite list_insert_insert_eq. }
    apply (HQ l c' d'); [|done|lia]. rewrite <- (take_drop k src). fold src1.
    eapply written_trans; [done| |exact W1|]; [unfold src1; by rewrite take_drop|].
    by replace (off + Z.of_nat (length src1)) with (off + m) by lia.
Qed.
End rw.
