(* ===== verification/FsInode.v ===== *)
(** Inodes (fs.c): the disk format round-trips, [iupdate] writes it, and
    [writei] keeps the file and its inode on disk together. *)

From S2P Require Import Prelude Mmu Block Ide Bio Log LogSpec LogCrash LogOps Tx Fs FsAlloc FsData FsRw.

(** ** The disk format *)

Lemma put_bytes_app x off l1 l2 :
  (off + length l1 + length l2 ≤ length x)%nat →
  put_bytes (put_bytes x off l1) (off + length l1) l2 = put_bytes x off (l1 ++ l2).
Proof.
  intros H. apply list_eq. intros i. rewrite !lookup_put_bytes by (rewrite ?length_put_bytes, ?length_app; lia).
  rewrite length_app. repeat case_decide; try lia; try done.
  - rewrite lookup_app_r by lia. f_equal. lia.
  - by rewrite lookup_app_l by lia.
Qed.

Lemma bytes_put_in x off l k n :
  (off + length l ≤ length x)%nat → (k + n ≤ length l)%nat → bytes_at (put_bytes x off l) (off + k) n = bytes_at l k n.
Proof.
  intros H Hk. apply list_eq. intros i. unfold bytes_at. destruct (decide (i < n)%nat).
  - rewrite !lookup_take_lt, !lookup_drop, lookup_put_bytes by done. rewrite decide_True by lia. f_equal. lia.
  - by rewrite !lookup_take_ge by lia.
Qed.

(** The 64 bytes of an inode. *)
Fixpoint encode_addrs (l : list Z) : list Z :=
  match l with [] => [] | a :: l' => to_le 4 a ++ encode_addrs l' end.
Definition encode (d : dinode) : list Z :=
  to_le 2 (u16 (d_type d)) ++ to_le 2 (u16 (d_major d)) ++ to_le 2 (u16 (d_minor d)) ++ to_le 2 (u16 (d_nlink d)) ++
  to_le 4 (d_size d) ++ encode_addrs (d_addrs d).

(** Values the fields can hold. *)
Definition short (x : Z) : Prop := - 2 ^ 15 ≤ x < 2 ^ 15.
Record dinode_ok (d : dinode) : Prop := {
  do_type : short (d_type d); do_major : short (d_major d); do_minor : short (d_minor d); do_nlink : short (d_nlink d);
  do_size : 0 ≤ d_size d < 2 ^ 32;
  do_len : length (d_addrs d) = 13%nat;
  do_addrs : Forall (λ a, 0 ≤ a < 2 ^ 32) (d_addrs d);
}.

Lemma length_encode_addrs l : length (encode_addrs l) = (4 * length l)%nat.
Proof. induction l as [|a l IH]; [done|]. cbn [encode_addrs length]. rewrite length_app, length_to_le, IH. lia. Qed.

Lemma length_encode d : length (d_addrs d) = 13%nat → length (encode d) = 64%nat.
Proof. intros H. unfold encode. rewrite !length_app, !length_to_le, length_encode_addrs, H. done. Qed.

Lemma store_addrs_put x off l :
  (off + 4 * length l ≤ length x)%nat → store_addrs x off l = put_bytes x off (encode_addrs l).
Proof.
  revert x off. induction l as [|a l IH]; intros x off H; cbn [length store_addrs] in *.
  - unfold put_bytes. simpl. rewrite Nat.add_0_r. by rewrite take_drop.
  - assert (length (put32 x off a) = length x) as E by (unfold put32; apply length_put_bytes; rewrite length_to_le; lia).
    rewrite IH by lia. unfold put32. rewrite <- (length_to_le 4 a) at 2.
    rewrite put_bytes_app; [done|]. rewrite length_to_le, length_encode_addrs. lia.
Qed.

Lemma store_dinode_put x off d :
  length (d_addrs d) = 13%nat → (off + 64 ≤ length x)%nat → store_dinode x off d = put_bytes x off (encode d).
Proof.
  intros Hl H. unfold store_dinode, put16, put32, encode. cbv zeta.
  assert (∀ l l2 k, length l = k → (k + length l2 ≤ 64)%nat →
    put_bytes (put_bytes x off l) (off + k) l2 = put_bytes x off (l ++ l2)) as Hstep.
  { intros l l2 k <- Hk. apply put_bytes_app. lia. }
  rewrite (Hstep _ _ 2%nat), (Hstep _ _ 4%nat), (Hstep _ _ 6%nat), (Hstep _ _ 8%nat)
    by (rewrite ?length_app, !length_to_le; lia).
  rewrite store_addrs_put by (rewrite length_put_bytes; rewrite ?length_app, ?length_to_le, ?Hl; lia).
  rewrite (Hstep _ _ 12%nat) by (rewrite ?length_app, ?length_to_le, ?length_encode_addrs, ?Hl; lia).
  by rewrite <- !(assoc_L (++)).
Qed.

Lemma i16_u16 x : short x → i16 (u16 x) = x.
Proof.
  intros Hx. unfold i16, u16. rewrite Zplus_mod_idemp_l. rewrite Z.mod_small by (unfold short in Hx; lia). lia.
Qed.

Lemma get16_app l1 l2 k v :
  length l1 = k → 0 ≤ v < 2 ^ 16 → get16 (l1 ++ to_le 2 v ++ l2) k = v.
Proof.
  intros <- Hv. unfold get16, bytes_at. rewrite drop_app_length. rewrite take_app_length' by by rewrite length_to_le.
  by apply of_to_le.
Qed.

Lemma get32_app l1 l2 k v :
  length l1 = k → 0 ≤ v < 2 ^ 32 → get32 (l1 ++ to_le 4 v ++ l2) k = v.
Proof.
  intros <- Hv. unfold get32, bytes_at. rewrite drop_app_length. rewrite take_app_length' by by rewrite length_to_le.
  by apply of_to_le.
Qed.

Lemma get_addrs l1 l k :
  length l1 = k → Forall (λ a, 0 ≤ a < 2 ^ 32) l →
  (λ i, get32 (l1 ++ encode_addrs l) (k + 4 * i)) <$> seq 0 (length l) = l.
Proof.
  revert l1 k. induction l as [|a l IH]; intros l1 k Hk Hl; [done|]. apply Forall_cons in Hl as [Ha Hl].
  cbn [length seq encode_addrs]. rewrite fmap_cons. f_equal.
  - by rewrite Nat.mul_0_r, Nat.add_0_r, get32_app.
  - rewrite <- fmap_S_seq, <- list_fmap_compose. rewrite <- (IH (l1 ++ to_le 4 a) (k + 4)%nat) at 2; [|by rewrite length_app, length_to_le, Hk|done].
    apply list_fmap_ext. intros i y _. cbn. rewrite <- app_assoc. f_equal. lia.
Qed.

Lemma u16_range x : 0 ≤ u16 x < 2 ^ 16.
Proof. unfold u16. apply Z.mod_pos_bound. lia. Qed.

Lemma load_encode d : dinode_ok d → load_dinode (encode d) 0 = d.
Proof.
  intros [H1 H2 H3 H4 H5 H6 H7]. unfold load_dinode, encode. destruct d as [ty ma mi nl sz ad]. cbn [d_type d_major d_minor d_nlink d_size d_addrs] in *.
  set (e1 := to_le 2 (u16 ty)). set (e2 := to_le 2 (u16 ma)). set (e3 := to_le 2 (u16 mi)). set (e4 := to_le 2 (u16 nl)). set (e5 := to_le 4 sz).
  assert (length e1 = 2 ∧ length e2 = 2 ∧ length e3 = 2 ∧ length e4 = 2 ∧ length e5 = 4)%nat as (L1 & L2 & L3 & L4 & L5)
    by (unfold e1, e2, e3, e4, e5; by rewrite !length_to_le).
  f_equal.
  - etrans; [|by apply i16_u16]. f_equal. apply (get16_app []); [done|apply u16_range].
  - etrans; [|by apply i16_u16]. f_equal. apply (get16_app e1); [done|apply u16_range].
  - etrans; [|by apply i16_u16]. f_equal. rewrite (assoc_L (++) e1). apply (get16_app (e1 ++ e2)); [rewrite length_app; lia|apply u16_range].
  - etrans; [|by apply i16_u16]. f_equal. rewrite (assoc_L (++) e1), (assoc_L (++) (e1 ++ e2)).
    apply (get16_app ((e1 ++ e2) ++ e3)); [rewrite !length_app; lia|apply u16_range].
  - rewrite (assoc_L (++) e1), (assoc_L (++) (e1 ++ e2)), (assoc_L (++) ((e1 ++ e2) ++ e3)).
    apply get32_app; [rewrite !length_app; lia|done].
  - rewrite (assoc_L (++) e1), (assoc_L (++) (e1 ++ e2)), (assoc_L (++) ((e1 ++ e2) ++ e3)), (assoc_L (++) (((e1 ++ e2) ++ e3) ++ e4)).
    rewrite <- H6. apply get_addrs; [rewrite !length_app; lia|done].
Qed.

(** Loading from 64 bytes inside a block. *)
Lemma load_dinode_bytes x y off off' :
  bytes_at x off 64 = bytes_at y off' 64 → (off + 64 ≤ length x)%nat → (off' + 64 ≤ length y)%nat →
  load_dinode x off = load_dinode y off'.
Proof.
  intros E Hx Hy. assert (∀ k n, (k + n ≤ 64)%nat → bytes_at x (off + k) n = bytes_at y (off' + k) n) as H.
  { intros k n Hk. unfold bytes_at in *.
    assert (∀ (z : list Z) o, take n (drop (o + k) z) = take n (drop k (take 64 (drop o z)))) as Hz.
    { intros z o. rewrite <- drop_drop. rewrite skipn_firstn_comm. rewrite take_take. f_equal. lia. }
    by rewrite !Hz, E. }
  unfold load_dinode, get16, get32.
  assert (bytes_at x off 2 = bytes_at y off' 2) as E0 by (specialize (H 0 2)%nat; rewrite !Nat.add_0_r in H; apply H; lia).
  rewrite E0, !H by lia. f_equal. apply list_fmap_ext. intros i k [-> Hk]%lookup_seq. f_equal. 
  rewrite <- !Nat.add_assoc. apply H. lia.
Qed.

(** What is stored is what is loaded, and the other inodes of the block stay. *)
Lemma load_store_dinode x off d :
  dinode_ok d → (off + 64 ≤ length x)%nat → load_dinode (store_dinode x off d) off = d.
Proof.
  intros Hd Hx. pose proof (length_encode d (do_len _ Hd)) as Hl. rewrite store_dinode_put by (apply Hd || done).
  rewrite <- (load_encode d Hd) at 2. apply load_dinode_bytes; [|rewrite length_put_bytes; lia|lia].
  rewrite <- (Nat.add_0_r off) at 2. apply bytes_put_in; lia.
Qed.

Lemma load_store_other x off off' d :
  dinode_ok d → (off + 64 ≤ length x)%nat → (off' + 64 ≤ length x)%nat → (off' + 64 ≤ off ∨ off + 64 ≤ off')%nat →
  load_dinode (store_dinode x off d) off' = load_dinode x off'.
Proof.
  intros Hd Hx Hx' Ho. pose proof (length_encode d (do_len _ Hd)) as Hl. rewrite store_dinode_put by (apply Hd || done).
  apply load_dinode_bytes; [|rewrite length_put_bytes; lia|done]. apply bytes_put_other; lia.
Qed.

(** ** iupdate *)

(** The inode [inum] on disk. *)
Definition disk_inode (sb : superblock) (v : Z → block) (inum : Z) : dinode :=
  load_dinode (v (IBLOCK inum sb)) (inode_off inum).

Definition put_inode (sb : superblock) (inum : Z) (d : dinode) (c : cache) : cache :=
  upd_block (IBLOCK inum sb) (store_dinode (vw c (IBLOCK inum sb)) (inode_off inum) d) c.

Lemma encode_bytes d : Forall (λ x, 0 ≤ x < 256) (encode d).
Proof.
  unfold encode. assert (∀ l, Forall (λ x, 0 ≤ x < 256) (encode_addrs l)) as H.
  { induction l as [|a l IH]; cbn [encode_addrs]; [constructor|]. apply Forall_app. split; [apply to_le_bytes|done]. }
  repeat (apply Forall_app; split; [apply to_le_bytes|]). apply H.
Qed.

Section inode.
Context (iderw : nat → M bst ()) `{!DiskDriver iderw} (Hds : disk_size ≤ 2 ^ 31).
Context (P : txp) (sb : superblock) (Ly : layout iderw P sb).
Notation on_inode := (on_inode iderw P sb).
Notation room := (room P sb).

Lemma IBLOCK_range inum : 0 ≤ inum < sb_ninodes sb → sb_inodestart sb ≤ IBLOCK inum sb < sb_bmapstart sb.
Proof using Hds Ly.
  intros Hi. pose proof (dstart_pos _ P sb Ly). destruct Ly as [_ [_ Hino] Hd Hs]. change IPB with 8 in *.
  assert (0 ≤ inum / 8 ≤ (sb_ninodes sb - 1) / 8) by (split; [apply Z.div_pos|apply Z.div_le_mono]; lia).
  unfold IBLOCK. change IPB with 8. rewrite u32_small by lia. lia.
Qed.

Lemma inode_off_range inum : (inode_off inum + 64 ≤ 512)%nat.
Proof. unfold inode_off. change IPB with 8. pose proof (Z.mod_pos_bound inum 8). lia. Qed.

(** Two inodes do not overlap. *)
Lemma inode_off_disjoint inum inum' :
  0 ≤ inum < sb_ninodes sb → 0 ≤ inum' < sb_ninodes sb → inum ≠ inum' → IBLOCK inum sb = IBLOCK inum' sb →
  (inode_off inum' + 64 ≤ inode_off inum ∨ inode_off inum + 64 ≤ inode_off inum')%nat.
Proof using Hds Ly.
  intros H H' Hne E. pose proof (IBLOCK_range inum H) as Hr. pose proof (IBLOCK_range inum' H') as Hr'.
  pose proof (dstart_pos _ P sb Ly). destruct Ly as [_ [_ Hino] Hd Hs]. unfold IBLOCK, inode_off in *. change IPB with 8 in *.
  assert (0 ≤ inum / 8 ≤ (sb_ninodes sb - 1) / 8) by (split; [apply Z.div_pos|apply Z.div_le_mono]; lia).
  assert (0 ≤ inum' / 8 ≤ (sb_ninodes sb - 1) / 8) by (split; [apply Z.div_pos|apply Z.div_le_mono]; lia).
  rewrite !u32_small in E by lia. pose proof (Z.div_mod inum 8). pose proof (Z.div_mod inum' 8).
  pose proof (Z.mod_pos_bound inum 8). pose proof (Z.mod_pos_bound inum' 8). lia.
Qed.

Section put.
Context (c : cache) (inum : Z) (d : dinode).
Context (W : fs_wf sb (vw c)) (Hi : 0 ≤ inum < sb_ninodes sb) (Hd : dinode_ok d).

Lemma iblock_ok inum' : 0 ≤ inum' < sb_ninodes sb → block_ok (vw c (IBLOCK inum' sb)).
Proof using Hds Ly W.
  intros H. apply W. pose proof (IBLOCK_range inum' H). destruct Ly as [_ _ Hdt _]. unfold dstart in Hdt.
  pose proof (dstart_pos _ P sb Ly). unfold dstart in *. lia.
Qed.

Lemma put_inode_same : disk_inode sb (vw (put_inode sb inum d c)) inum = d.
Proof using Hds Ly W Hi Hd.
  unfold disk_inode, put_inode. rewrite vw_upd. apply load_store_dinode; [done|].
  rewrite (proj1 (iblock_ok inum Hi)). apply inode_off_range.
Qed.

Lemma put_inode_other inum' :
  0 ≤ inum' < sb_ninodes sb → inum' ≠ inum →
  disk_inode sb (vw (put_inode sb inum d c)) inum' = disk_inode sb (vw c) inum'.
Proof using Hds Ly W Hi Hd.
  intros Hi' Hne. unfold disk_inode, put_inode. destruct (decide (IBLOCK inum' sb = IBLOCK inum sb)) as [E|E].
  - rewrite E, vw_upd. pose proof (proj1 (iblock_ok inum Hi)) as Hl. pose proof (inode_off_range inum). pose proof (inode_off_range inum').
    apply load_store_other; [done|lia|lia|]. by apply inode_off_disjoint.
  - by rewrite vw_upd_ne.
Qed.

Lemma vw_put_inode b : sb_bmapstart sb ≤ b → vw (put_inode sb inum d c) b = vw c b.
Proof using Hds Ly Hi. intros Hb. unfold put_inode. rewrite vw_upd_ne; [done|]. pose proof (IBLOCK_range inum Hi). lia. Qed.

Lemma used_put_inode b : 0 ≤ b < sb_size sb → used sb (vw (put_inode sb inum d c)) b ↔ used sb (vw c) b.
Proof using Hds Ly Hi. intros Hb. unfold used. rewrite vw_put_inode; [done|]. pose proof (BBLOCK_range _ Hds P sb Ly b Hb). lia. Qed.

Lemma fs_wf_put_inode : fs_wf sb (vw (put_inode sb inum d c)).
Proof using Hds Ly W Hi Hd.
  pose proof (IBLOCK_range inum Hi). split.
  - intros b Hb. unfold put_inode. destruct (decide (b = IBLOCK inum sb)) as [->|]; [|rewrite vw_upd_ne by done; by apply W].
    rewrite vw_upd. pose proof (iblock_ok inum Hi) as Hok. pose proof (inode_off_range inum).
    assert (length (vw c (IBLOCK inum sb)) = 512%nat) as Hl by apply Hok.
    rewrite store_dinode_put; [|apply Hd|lia].
    apply block_ok_put; [done|rewrite (length_encode d (do_len _ Hd)); lia|apply encode_bytes].
  - intros b Hb. destruct Ly as [_ _ Hdt _]. apply used_put_inode; [lia|by apply W].
Qed.

(** The pointers and the content of files do not change. *)
Lemma slot_put_inode d' k :
  (addr_of d' NDIRECT ≠ 0 → dstart sb ≤ addr_of d' NDIRECT) → slot (vw (put_inode sb inum d c)) d' k = slot (vw c) d' k.
Proof using Hds Ly Hi.
  intros Ha. unfold slot. destruct (k <? 13); [done|]. destruct (Z.eqb_spec (addr_of d' NDIRECT) 0); [done|].
  rewrite vw_put_inode; [done|]. pose proof (dstart_pos _ P sb Ly). specialize (Ha ltac:(done)). lia.
Qed.

Lemma inode_wf_put d' : inode_wf sb (vw c) d' → inode_wf sb (vw (put_inode sb inum d c)) d'.
Proof using Hds Ly Hi.
  intros I. pose proof (dstart_pos _ P sb Ly).
  assert (∀ k, slot (vw (put_inode sb inum d c)) d' k = slot (vw c) d' k) as Hs.
  { intros k. apply slot_put_inode. intros Ha. destruct (ind_data sb c d' I Ha). lia. }
  destruct I as [J1 J2 J3 J4 J5]. split; [done| | |done|].
  - intros k k'. rewrite !Hs. apply J2.
  - intros k Hk. rewrite Hs. intros Hne. destruct (J3 k Hk Hne). split; [done|]. apply used_put_inode; [lia|done].
  - intros bn. rewrite Hs. apply J5.
Qed.
End put.

Lemma iupdate_wp s c ip i Q :
  on_inode s c ip i → c_held c = ∅ → room 1 c → 1 ≤ x_out P → 0 ≤ i_inum i < sb_ninodes sb →
  (∀ l, tx_ok iderw P l (put_inode sb (i_inum i) (i_d i) c) → Q tt (set_fl l s)) →
  wp (iupdate iderw ip) Q s.
Proof using Hds Ly.
  intros [T Es W Hi Hd I] Hh [R1 R2] Ho Hin HQ. unfold iupdate. apply wp_bind. eapply get_inode_wp; [done|].
  apply wp_bind, wp_gets. rewrite Es, Hd. pose proof (IBLOCK_range _ Hin) as Hr. pose proof (dstart_pos _ P sb Ly).
  pose proof (ly_data _ _ _ Ly). pose proof (ly_size _ _ _ Ly). pose proof (ndirty_spread sb c). assert (0 ≤ nheld c) by (unfold nheld; lia).
  apply wp_bind. eapply (f_bread iderw P); [done|lia|by rewrite Hh|lia|]. intros l bp T1.
  apply wp_bind. eapply (f_data iderw P); [exact T1|apply lookup_insert_eq|].
  eapply (f_update_last iderw Hds P); [exact T1|by rewrite Hh|apply (fs_block _ P sb Ly); lia|lia|done|]. done.
Qed.
End inode.
