(* ===== verification/FsWrite.v ===== *)
(** [writei] and [readi] (fs.c) on an inode that the disk agrees with. *)

From S2P Require Import Prelude Mmu Block Ide Bio Log LogSpec LogCrash LogOps Tx Fs FsAlloc FsData FsRw FsInode.

(** A file: the inode in memory is well formed and is the one on disk. *)
Record file_ok (sb : superblock) (v : Z → block) (inum : Z) (d : dinode) : Prop := {
  fo_inum : 0 ≤ inum < sb_ninodes sb;
  fo_ino : inode_wf sb v d;
  fo_fields : dinode_ok d;
  fo_disk : disk_inode sb v inum = d;
}.

(** The blocks that [n] bytes at [off] touch. *)
Definition nblocks (off n : Z) : Z := (off mod BSIZE + n + BSIZE - 1) / BSIZE.

(** The file [inum] after [src] has been written at [off]: its size and its
    bytes, the inode on disk, and everything that must not change: the blocks
    of other files and the other inodes. *)
Record file_written (sb : superblock) (c : cache) (inum : Z) (d : dinode) (c' : cache) (d' : dinode)
    (off : Z) (src : list Z) : Prop := {
  fwr_ok : file_ok sb (vw c') inum d';
  fwr_type : d_type d' = d_type d ∧ d_nlink d' = d_nlink d;
  fwr_size : d_size d' = d_size d `max` (off + Z.of_nat (length src));
  fwr_bytes : ∀ j, 0 ≤ j < d_size d' → fbyte (vw c') d' j =
    if decide (off ≤ j < off + Z.of_nat (length src)) then nth (Z.to_nat (j - off)) src 0 else fbyte (vw c) d j;
  fwr_frame : ∀ b, dstart sb ≤ b < sb_size sb → used sb (vw c) b → (∀ k, 0 ≤ k < NSLOT → slot (vw c) d k ≠ b) →
    vw c' b = vw c b;
  fwr_used : ∀ b, 0 ≤ b < sb_size sb → used sb (vw c) b → used sb (vw c') b;
  fwr_others : ∀ inum', 0 ≤ inum' < sb_ninodes sb → inum' ≠ inum → disk_inode sb (vw c') inum' = disk_inode sb (vw c) inum';
  fwr_wf : fs_wf sb (vw c');
  fwr_held : c_held c' = c_held c;
}.

Section write.
Context (iderw : nat → M bst ()) `{!DiskDriver iderw} (Hds : disk_size ≤ 2 ^ 31).
Context (P : txp) (sb : superblock) (Ly : layout iderw P sb).
Context (dev_read : Z → option (nat → Z → M fsst (Z * list Z))).
Context (dev_write : Z → option (nat → list Z → M fsst Z)).
Notation on_inode := (on_inode iderw P sb).
Notation room := (room P sb).

Lemma inode_wf_addrs v d : inode_wf sb v d → Forall (λ a, 0 ≤ a < 2 ^ 32) (d_addrs d).
Proof using Hds Ly.
  intros I. pose proof (dstart_pos _ P sb Ly). pose proof (ly_size _ _ _ Ly). apply Forall_lookup. intros k a Hk.
  assert (k < 13)%nat as Hk13 by (rewrite <- (iw_len _ _ _ I); by eapply lookup_lt_Some).
  assert (slot v d (Z.of_nat k) = a) as E.
  { unfold slot. destruct (Z.ltb_spec (Z.of_nat k) 13); [|lia]. unfold addr_of. rewrite Nat2Z.id, nth_lookup. by rewrite Hk. }
  destruct (decide (a = 0)) as [->|Ha]; [lia|]. destruct (iw_data _ _ _ I (Z.of_nat k)) as [Hr _]; [change NSLOT with 141; lia|congruence|].
  rewrite E in Hr. lia.
Qed.

Lemma dinode_ok_meta v d d' :
  dinode_ok d → same_meta d d' → inode_wf sb v d' → dinode_ok d'.
Proof using Hds Ly.
  intros [H1 H2 H3 H4 H5 H6 H7] [E1 E2 E3 E4 E5] I.
  split; rewrite ?E1, ?E2, ?E3, ?E4, ?E5; try done; [apply I|by eapply inode_wf_addrs].
Qed.

(** A larger size, once its blocks are mapped. *)
Lemma inode_wf_size v d n :
  inode_wf sb v d → 0 ≤ n ≤ MAXFILE * BSIZE → (∀ bn, 0 ≤ bn → bn * BSIZE < n → slot v d (bslot bn) ≠ 0) →
  inode_wf sb v (set_size n d).
Proof. intros [J1 J2 J3 J4 J5] Hn Hm. by split. Qed.

(** The loop's result with the size stored. *)
Lemma written_mapped c d c' d' off src :
  inode_wf sb (vw c) d → written sb c d c' d' off src → 0 ≤ off ≤ d_size d →
  off + Z.of_nat (length src) ≤ MAXFILE * BSIZE →
  ∀ bn, 0 ≤ bn → bn * BSIZE < off + Z.of_nat (length src) → slot (vw c') d' (bslot bn) ≠ 0.
Proof.
  intros I Wr Ho Hmax bn Hbn Hlt. pose proof BSIZE_pos as HB.
  assert (bn * BSIZE / BSIZE = bn) as Eb by (apply Z.div_mul; lia).
  destruct (decide (off ≤ bn * BSIZE)).
  - rewrite <- Eb. apply (wr_mapped _ _ _ _ _ _ _ Wr). lia.
  - pose proof (iw_mapped _ _ _ I bn Hbn ltac:(lia)) as Hs. rewrite <- Eb in Hs |- *.
    destruct (off_slot (bn * BSIZE)) as [Hk _]; [lia|]. by rewrite (wr_slot _ _ _ _ _ _ _ Wr).
Qed.

Lemma file_written_grow c inum d c' d' off src :
  file_ok sb (vw c) inum d → written sb c d c' d' off src → 0 ≤ off ≤ d_size d →
  off + Z.of_nat (length src) ≤ MAXFILE * BSIZE → d_size d < off + Z.of_nat (length src) →
  let d2 := set_size (off + Z.of_nat (length src)) d' in
  file_written sb c inum d (put_inode sb inum d2 c') d2 off src.
Proof using Hds Ly.
  intros [Hin I Hdo Edk] Wr Ho Hmax Hgr d2. pose proof (dstart_pos _ P sb Ly) as Hdp. pose proof BSIZE_pos as HB.
  pose proof (wr_ino _ _ _ _ _ _ _ Wr) as I'. pose proof (wr_meta _ _ _ _ _ _ _ Wr) as Hm.
  assert (dinode_ok d2) as Hd2.
  { pose proof (dinode_ok_meta _ _ _ Hdo Hm I') as [H1 H2 H3 H4 H5 H6 H7]. split; try done. cbn. change (MAXFILE * BSIZE) with 71680 in *. lia. }
  assert (inode_wf sb (vw c') d2) as I2.
  { apply inode_wf_size; [done|lia|]. exact (written_mapped c d c' d' off src I Wr Ho Hmax). }
  assert (∀ k, slot (vw (put_inode sb inum d2 c')) d2 k = slot (vw c') d2 k) as Hs.
  { intros k. apply (slot_put_inode iderw Hds P sb Ly); [done|]. intros Ha. destruct (ind_data sb c' d2 I2 Ha). lia. }
  assert (∀ j, 0 ≤ j < d_size d2 → fbyte (vw (put_inode sb inum d2 c')) d2 j = fbyte (vw c') d' j) as Hf.
  { intros j Hj. unfold fbyte. rewrite Hs. rewrite (vw_put_inode iderw Hds P sb Ly); [done|done|].
    cbn in Hj. assert (slot (vw c') d2 (bslot (j / BSIZE)) ≠ 0) as Hne.
    { apply (iw_mapped _ _ _ I2); [apply Z.div_pos; lia|]. pose proof (Z.mul_div_le j BSIZE HB). cbn. lia. }
    destruct (file_block iderw P sb Ly c' d2 j (wr_wf _ _ _ _ _ _ _ Wr) I2 ltac:(lia) Hne) as (_ & Hr & _). lia. }
  split.
  - split; [done|by apply (inode_wf_put iderw Hds P sb Ly)|done|apply (put_inode_same iderw Hds P sb Ly); [apply Wr|done|done]].
  - split; apply Hm.
  - cbn. lia.
  - intros j Hj. rewrite Hf by done. cbn in Hj. case_decide as Hr; [by apply (wr_new _ _ _ _ _ _ _ Wr)|].
    apply (wr_old _ _ _ _ _ _ _ Wr); [lia|done|]. apply (iw_mapped _ _ _ I); [apply Z.div_pos; lia|].
    pose proof (Z.mul_div_le j BSIZE HB). lia.
  - intros b Hb Hu Hk. rewrite (vw_put_inode iderw Hds P sb Ly) by (done || lia). by destruct (wr_frame _ _ _ _ _ _ _ Wr b Hb Hu Hk).
  - intros b Hb Hu. apply (used_put_inode iderw Hds P sb Ly); [done|done|]. by apply (wr_used _ _ _ _ _ _ _ Wr).
  - intros inum' Hin' Hne. rewrite (put_inode_other iderw Hds P sb Ly); [|apply Wr|done..].
    unfold disk_inode. rewrite (wr_inodes _ _ _ _ _ _ _ Wr); [done|]. pose proof (IBLOCK_range iderw Hds P sb Ly inum' Hin'). lia.
  - apply (fs_wf_put_inode iderw Hds P sb Ly); [apply Wr|done|done].
  - apply (wr_held _ _ _ _ _ _ _ Wr).
Qed.

Lemma file_written_in c inum d c' d' off src :
  file_ok sb (vw c) inum d → written sb c d c' d' off src → 0 ≤ off →
  off + Z.of_nat (length src) ≤ d_size d → file_written sb c inum d c' d' off src.
Proof using Hds Ly.
  intros [Hin I Hdo Edk] Wr Ho Hsz. pose proof BSIZE_pos as HB. pose proof (iw_size _ _ _ I) as Hmax.
  assert (∀ j, 0 ≤ j < d_size d → slot (vw c) d (bslot (j / BSIZE)) ≠ 0) as Hmap.
  { intros j Hj. apply (iw_mapped _ _ _ I); [apply Z.div_pos; lia|]. pose proof (Z.mul_div_le j BSIZE HB). lia. }
  assert (d' = d) as -> by (apply (wr_same _ _ _ _ _ _ _ Wr); intros j Hj; apply Hmap; lia).
  assert (∀ inum', 0 ≤ inum' < sb_ninodes sb → disk_inode sb (vw c') inum' = disk_inode sb (vw c) inum') as Hdi.
  { intros inum' Hin'. unfold disk_inode. rewrite (wr_inodes _ _ _ _ _ _ _ Wr); [done|]. pose proof (IBLOCK_range iderw Hds P sb Ly inum' Hin'). lia. }
  split; [| |lia| | |apply (wr_used _ _ _ _ _ _ _ Wr)| |apply Wr|apply Wr].
  - split; [done|apply Wr|done|by rewrite Hdi].
  - done.
  - intros j Hj. case_decide; [by apply (wr_new _ _ _ _ _ _ _ Wr)|]. apply (wr_old _ _ _ _ _ _ _ Wr); [lia|done|by apply Hmap].
  - intros b Hb Hu Hk. by destruct (wr_frame _ _ _ _ _ _ _ Wr b Hb Hu Hk).
  - intros inum' Hin' _. by apply Hdi.
Qed.


Lemma nblocks_bound off n : 0 ≤ n → n + off mod BSIZE ≤ nblocks off n * BSIZE.
Proof.
  intros Hn. pose proof BSIZE_pos as HB. unfold nblocks. set (k := off mod BSIZE + n).
  pose proof (Z.div_mod (k + BSIZE - 1) BSIZE ltac:(lia)). pose proof (Z.mod_pos_bound (k + BSIZE - 1) BSIZE HB). lia.
Qed.

Lemma nblocks_fuel off n : 0 ≤ n → 0 ≤ nblocks off n ≤ n / BSIZE + 2.
Proof.
  intros Hn. pose proof BSIZE_pos as HB. unfold nblocks. pose proof (Z.mod_pos_bound off BSIZE HB).
  split; [apply Z.div_pos; lia|]. rewrite <- Z.div_add by lia. apply Z.div_le_mono; lia.
Qed.

(** What a write needs: room in the log, and free blocks. *)
Definition can_write (c : cache) (off n : Z) : Prop :=
  room (nblocks off n + 4) c ∧ free_blocks sb (2 * Z.to_nat (nblocks off n)) (vw c).

Lemma get_inode_run s ip i : f_inodes s !! ip = Some i → get_inode ip s = Ok i s.
Proof. intros Hi. unfold get_inode. erewrite bind_run; [|reflexivity]. by rewrite Hi. Qed.

Lemma writei_refused s ip i src off :
  f_inodes s !! ip = Some i → d_type (i_d i) ≠ T_DEV → 0 ≤ off < 2 ^ 32 → Z.of_nat (length src) < 2 ^ 32 →
  d_size (i_d i) < off ∨ MAXFILE * BSIZE < off + Z.of_nat (length src) → writei iderw dev_write ip src off s = Ok (-1) s.
Proof.
  intros Hi Hty Ho Hn Hr. unfold writei. erewrite bind_run; [|by apply get_inode_run]. cbv zeta.
  rewrite (proj2 (Z.eqb_neq _ _)) by done. change (MAXFILE * BSIZE) with 71680 in *.
  destruct (Z.ltb_spec (d_size (i_d i)) off); [done|]. destruct Hr as [|Hr]; [lia|]. cbn [orb]. unfold u32.
  destruct (decide (off + Z.of_nat (length src) < 2 ^ 32)).
  - rewrite Z.mod_small by lia. rewrite (proj2 (Z.ltb_ge _ _)) by lia. by rewrite (proj2 (Z.ltb_lt _ _)) by lia.
  - rewrite <- (Z.mod_unique (off + Z.of_nat (length src)) (2 ^ 32) 1 (off + Z.of_nat (length src) - 2 ^ 32)) by lia.
    by rewrite (proj2 (Z.ltb_lt _ _)) by lia.
Qed.

Lemma writei_wp s c ip i src off Q :
  on_inode s c ip i → c_held c = ∅ → 1 ≤ x_out P → Forall (λ x, 0 ≤ x < 256) src → 
  0 ≤ off < 2 ^ 32 → Z.of_nat (length src) < 2 ^ 31 → d_type (i_d i) ≠ T_DEV →
  file_ok sb (vw c) (i_inum i) (i_d i) → can_write c off (Z.of_nat (length src)) →
  (d_size (i_d i) < off ∨ MAXFILE * BSIZE < off + Z.of_nat (length src) → Q (-1) s) →
  (∀ l c' d', off ≤ d_size (i_d i) → off + Z.of_nat (length src) ≤ MAXFILE * BSIZE →
     file_written sb c (i_inum i) (i_d i) c' d' off src → tx_ok iderw P l c' →
     nspread sb c' ≤ nspread sb c + nblocks off (Z.of_nat (length src)) + 2 →
     Q (Z.of_nat (length src)) (with_inode ip i d' l s)) →
  wp (writei iderw dev_write ip src off) Q s.
Proof using Hds Ly.
  intros O Hh Hout Hby Ho Hn Hty F [R Fr] HQ1 HQ2. pose proof O as [T Es W Hi Hd I]. pose proof (iw_size _ _ _ I) as Hmax.
  unfold writei. apply wp_bind. eapply get_inode_wp; [done|]. cbv zeta. destruct (Z.eqb_spec (d_type (i_d i)) T_DEV) as [|_]; [done|].
  set (n := Z.of_nat (length src)) in *. change (MAXFILE * BSIZE) with 71680 in *.
  destruct (Z.ltb_spec (d_size (i_d i)) off) as [Hlt|Hge]; cbn [orb]; [apply wp_ret, HQ1; by left|].
  rewrite u32_small by lia. destruct (Z.ltb_spec (off + n) off); [lia|].
  destruct (Z.ltb_spec 71680 (off + n)) as [Hbig|Hfit]; [apply wp_ret, HQ1; by right|].
  pose proof (nblocks_bound off n ltac:(lia)) as Hnb. pose proof (nblocks_fuel off n ltac:(lia)) as Hnf.
  set (nb := nblocks off n) in *. pose proof (pot_range sb c (i_d i)) as Hpot.
  apply wp_bind. eapply (writei_loop_wp iderw Hds P sb Ly _ (Z.to_nat nb) s c ip i src off 0 n);
    [done|done|done|done|lia|done|lia| | | |done|].
  { intros _. rewrite Z2Nat.id by lia. done. }
  { lia. }
  { rewrite Z2Nat.id by lia. destruct R. split; lia. }
  intros l c' d' Wr T' Hcost. rewrite Z2Nat.id in Hcost by lia. fold n in Wr |- *.
  pose proof (pot_range sb c' d') as Hpot'. pose proof (wr_meta _ _ _ _ _ _ _ Wr) as Hm.
  set (s1 := with_inode ip i d' l s). assert (f_inodes s1 !! ip = Some (set_i_d d' i)) as Hi1.
  { cbn. apply list_lookup_insert_eq. by eapply lookup_lt_Some. }
  apply wp_bind. eapply get_inode_wp; [exact Hi1|]. cbn [i_d set_i_d]. rewrite (sm_size _ _ Hm). apply wp_bind.
  assert (∀ r s', Q n s' → r = n → wp (mret r) Q s') as Hret by (intros r s' HQ ->; by apply wp_ret).
  rewrite i32_small by lia. destruct (Z.ltb_spec (d_size (i_d i)) (off + n)) as [Hgr|Hin].
  - destruct (Z.ltb_spec 0 n) as [Hpos|]; [|lia]. cbn [andb when]. set (d2 := set_size (off + n) d').
    assert (file_written sb c (i_inum i) (i_d i) (put_inode sb (i_inum i) d2 c') d2 off src) as FW by (apply file_written_grow; [done|done|lia|exact Hfit|done]).
    apply wp_bind. eapply mod_d_wp; [exact Hi1|]. cbn [i_d set_i_d]. fold d2.
    assert (inode_wf sb (vw c') d2) as I2.
    { apply inode_wf_size; [apply Wr|change (MAXFILE * BSIZE) with 71680; lia|]. exact (written_mapped c (i_d i) c' d' off src I Wr ltac:(lia) Hfit). }
    eapply (iupdate_wp iderw Hds P sb Ly _ c' ip (set_i_d d2 i)); [|by rewrite (wr_held _ _ _ _ _ _ _ Wr)| |done|apply F|].
    + split; [exact T'|done|apply Wr| |done|exact I2]. cbn. apply list_lookup_insert_eq. rewrite length_insert. by eapply lookup_lt_Some.
    + assert (nheld c' = nheld c) as E by (unfold nheld; by rewrite (wr_held _ _ _ _ _ _ _ Wr)). destruct R. split; lia.
    + intros l2 T2. cbn [i_inum set_i_d i_d] in T2. apply Hret; [|done].
      match goal with |- Q _ ?st => assert (st = with_inode ip i d2 l2 s) as -> end.
      { unfold s1, with_inode, set_fl, set_inodes. cbn. by rewrite list_insert_insert_eq. }
      eapply HQ2; [done|done|exact FW|done|]. unfold put_inode, nspread. rewrite spread_upd.
      pose proof (size_union_le {[fkey (IBLOCK (i_inum i) sb)]} (spread sb c')) as Hu. rewrite size_singleton in Hu. unfold nspread in *. lia.
  - rewrite andb_false_r. unfold when. apply wp_ret, Hret; [|done]. eapply HQ2; [done|done| |done|lia]. apply file_written_in; [done|done|lia|lia].
Qed.


(** C16. [writei] on a file that is not a device, for any offset and any
    number of bytes below 2^32.  A write that starts past the end of the
    file, or reaches past [MAXFILE] blocks, or whose end does not fit in 32
    bits, returns -1 and changes nothing.  Any other write, inside a
    transaction, by a process that has locked the inode and holds no buffer,
    with room in the log and in the buffer cache for four blocks more than
    the write touches and two free blocks on the disk for each of them,
    returns the number of bytes and the file holds them: the size is the
    larger of the two ends, the bytes of the range are the ones written,
    all others are as before, the inode on disk is the one in memory, and no
    block in use by another file and no other inode has changed. *)
Theorem writei_correct s ip i src off :
  f_inodes s !! ip = Some i → d_type (i_d i) ≠ T_DEV → 0 ≤ off < 2 ^ 32 → Z.of_nat (length src) < 2 ^ 32 →
  (d_size (i_d i) < off ∨ MAXFILE * BSIZE < off + Z.of_nat (length src) → writei iderw dev_write ip src off s = Ok (-1) s) ∧
  (∀ c, off ≤ d_size (i_d i) → off + Z.of_nat (length src) ≤ MAXFILE * BSIZE →
   on_inode s c ip i → c_held c = ∅ → 1 ≤ x_out P → Forall (λ x, 0 ≤ x < 256) src →
   file_ok sb (vw c) (i_inum i) (i_d i) → can_write c off (Z.of_nat (length src)) →
   wp (writei iderw dev_write ip src off) (λ r s',
     r = Z.of_nat (length src) ∧ ∃ l c' d', s' = with_inode ip i d' l s ∧ tx_ok iderw P l c' ∧
       file_written sb c (i_inum i) (i_d i) c' d' off src) s).
Proof using Hds Ly.
  intros Hi Hty Ho Hn. split; [by apply writei_refused|]. change (MAXFILE * BSIZE) with 71680.
  intros c H1 H2 O Hh Hout Hby F C. eapply writei_wp; try done.
  - lia.
  - change (MAXFILE * BSIZE) with 71680. lia.
  - intros l c' d' _ _ FW T' _. split; [done|]. by exists l, c', d'.
Qed.

Lemma file_bytes_written c inum d c' d' off src :
  file_written sb c inum d c' d' off src → 0 ≤ off → file_bytes (vw c') d' off (Z.of_nat (length src)) = src.
Proof.
  intros FW Ho. pose proof (fwr_size _ _ _ _ _ _ _ _ FW) as Hs. unfold file_bytes.
  apply list_eq_same_length with (n := length src); [done|rewrite length_fmap, length_seqZ; lia|].
  intros k x y Hk Hx Hy. apply list_lookup_fmap_Some in Hx as (j & -> & Hj). apply lookup_seqZ in Hj as [-> Hj].
  rewrite (fwr_bytes _ _ _ _ _ _ _ _ FW) by lia. rewrite decide_True by lia.
  replace (Z.to_nat (off + Z.of_nat k - off)) with k by lia. rewrite nth_lookup. by rewrite Hy.
Qed.

(** What [writei] has written, [readi] reads back. *)
Theorem write_read_roundtrip s c ip i src off :
  on_inode s c ip i → c_held c = ∅ → 1 ≤ x_out P → Forall (λ x, 0 ≤ x < 256) src →
  0 ≤ off ≤ d_size (i_d i) → off + Z.of_nat (length src) ≤ MAXFILE * BSIZE → d_type (i_d i) ≠ T_DEV →
  file_ok sb (vw c) (i_inum i) (i_d i) → can_write c off (Z.of_nat (length src)) →
  wp (writei iderw dev_write ip src off;; readi iderw dev_read ip off (Z.of_nat (length src)))
    (λ r _, r = (Z.of_nat (length src), src)) s.
Proof using Hds Ly.
  intros O Hh Hout Hby Ho Hmax Hty F C. pose proof O as [T Es W Hi Hd I]. pose proof (iw_size _ _ _ I) as Hsz.
  set (n := Z.of_nat (length src)) in *. change (MAXFILE * BSIZE) with 71680 in *.
  apply wp_bind. eapply writei_wp; [done|done|done|done|lia|lia|done|done|done| |].
  { change (MAXFILE * BSIZE) with 71680. fold n. lia. }
  fold n. intros l c' d' _ _ FW T' Hsp. pose proof (fwr_size _ _ _ _ _ _ _ _ FW) as Hs.
  pose proof (iw_size _ _ _ (fo_ino _ _ _ _ (fwr_ok _ _ _ _ _ _ _ _ FW))) as Hsz'. change (MAXFILE * BSIZE) with 71680 in Hsz'.
  destruct C as [[_ R] _]. fold n in R. pose proof (ndirty_spread sb c') as Hnd. pose proof (nblocks_fuel off n ltac:(lia)).
  assert (0 ≤ nheld c) by (unfold nheld; lia).
  eapply (readi_wp iderw Hds P sb Ly _ _ c' ip (set_i_d d' i)); [|rewrite (fwr_held _ _ _ _ _ _ _ _ FW); done|lia| |lia|lia| |].
  - split; [exact T'|done|apply FW|cbn; apply list_lookup_insert_eq; by eapply lookup_lt_Some|done|apply FW].
  - cbn. by rewrite (proj1 (fwr_type _ _ _ _ _ _ _ _ FW)).
  - cbn [i_d set_i_d]. rewrite Hs. fold n. lia.
  - cbn [i_d set_i_d]. intros l2 H1 H2 _. rewrite Hs. fold n. replace (n `min` (_ - off)) with n by lia.
    f_equal. by eapply file_bytes_written; [|lia].
Qed.
End write.

(** ** A small file system *)

(** A small file system image on which the file-system theorems apply: the
    layout [mkfs] computes for [FSSIZE] blocks, and one empty file. *)

Definition img_sb : superblock := Sb 1000 941 200 30 2 32 58.

(** Blocks 0 to 58 are in use: boot block, superblock, log, inodes, map. *)
Definition img_map : block := replicate 7 255 ++ [7] ++ replicate 504 0.

(** Inode 2: an empty file with one link. *)
Definition img_file : dinode := Din T_FILE 0 0 1 0 (replicate 13 0).
Definition img_inodes : block := store_dinode zero_block 128 img_file.

Definition img_disk : gmap bkey block :=
  <[fkey 1 := demo_sb]> (<[fkey 32 := img_inodes]> {[fkey 58 := img_map]}).

(** Boot, and begin a transaction, with the file locked by process 1. *)
Definition img_inode : inode := Ino 1 2 1 (Slk true 1) true img_file.
Definition img_start : fsst := Fsst (Lst (boot_bst img_disk 1) boot_log) img_sb [img_inode] 0.
Definition img_boot : M fsst () := in_l ((in_b binit;; initlog drv 1);; begin_op).

Definition img_txp : txp := Txp 2 30 1 1 [].

Lemma img_layout P : x_start P = 2 → x_size P = 30 → layout drv P img_sb.
Proof. intros E1 E2. split; rewrite ?E1, ?E2; vm_compute; split_and?; congruence. Qed.

(** What the disk holds outside the log. *)
Definition img_view (b : Z) : block := disk_block img_disk (fkey b).

Lemma img_block_ok b : block_ok (img_view b).
Proof.
  unfold img_view, img_disk. rewrite !disk_block_insert.
  repeat case_decide; [split; [done|]; by apply (bool_decide_unpack _); vm_compute..|].
  unfold disk_block. destruct (decide (fkey 58 = fkey b)) as [<-|].
  - rewrite lookup_singleton_eq. split; [done|]. by apply (bool_decide_unpack _); vm_compute.
  - rewrite lookup_singleton_ne by done. apply zero_block_ok.
Qed.

Lemma img_wf v : (∀ b, 32 ≤ b → v b = img_view b) → fs_wf img_sb v.
Proof.
  intros Hv. split.
  - intros b [Hb _]. rewrite Hv by done. apply img_block_ok.
  - intros b [Hb0 Hb]. change (dstart img_sb) with 59 in Hb. unfold used, BBLOCK. change (sb_bmapstart img_sb) with 58.
    change BPB with 4096. rewrite Z.div_small, Z.mod_small by lia. rewrite Hv by by vm_compute.
    assert (forallb (bit (img_view (u32 (0 + 58)))) (seqZ 0 59) = true) as H by by vm_compute.
    apply (proj1 (forallb_forall _ _) H). apply list_elem_of_In, elem_of_seqZ. lia.
Qed.

Lemma img_free n v : (∀ b, 32 ≤ b → v b = img_view b) → (n ≤ 100)%nat → free_blocks img_sb n v.
Proof.
  intros Hv Hn. exists (seqZ 100 100). split; [apply NoDup_seqZ|]. split; [rewrite length_seqZ; lia|].
  intros b Hb. assert (100 ≤ b < 200) by (apply elem_of_seqZ in Hb; lia). split; [cbn; lia|]. unfold used, BBLOCK.
  change (sb_bmapstart img_sb) with 58. change BPB with 4096. rewrite Z.div_small, Z.mod_small by lia. rewrite Hv by by vm_compute.
  assert (forallb (λ b, negb (bit (img_view (u32 (0 + 58))) b)) (seqZ 100 100) = true) as H' by by vm_compute.
  apply not_true_iff_false. apply negb_true_iff. apply (proj1 (forallb_forall _ _) H'). by apply list_elem_of_In.
Qed.

Lemma img_file_ok v : (∀ b, 32 ≤ b → v b = img_view b) → file_ok img_sb v 2 img_file.
Proof.
  intros Hv. assert (∀ k, slot v img_file k = 0) as Hs.
  { intros k. unfold slot. change (addr_of img_file NDIRECT =? 0) with true. destruct (k <? 13); [|done].
    unfold addr_of, img_file. cbn [d_addrs]. rewrite nth_lookup.
    destruct (replicate 13 0 !! Z.to_nat k) eqn:E; [by apply lookup_replicate in E as [-> _]|done]. }
  split; [by vm_compute| |split; [by vm_compute..|apply Forall_replicate; by vm_compute]|].
  - split; [done| | |by vm_compute|].
    + intros k k' _ _ Hk. by rewrite Hs in Hk.
    + intros k _ Hk. by rewrite Hs in Hk.
    + intros bn H1 H2. cbn in H2. unfold BSIZE in H2. lia.
  - unfold disk_inode. rewrite Hv by by vm_compute. by vm_compute.
Qed.

Lemma img_boot_wp {A} (m : M fsst A) Q :
  (∀ s c, on_inode drv (tx_of (f_l s)) img_sb s c 0 img_inode → layout drv (tx_of (f_l s)) img_sb →
     x_size (tx_of (f_l s)) = 30 → x_out (tx_of (f_l s)) = 1 → c_held c = ∅ → c_dirty c = ∅ →
     (∀ b, 32 ≤ b → vw c b = img_view b) → wp m Q s) →
  wp (img_boot;; m) Q img_start.
Proof.
  intros HQ. apply wp_bind, wp_zoom. apply wp_bind. cbn [f_l img_start].
  eapply (boot_wp drv demo_ds img_disk 1 demo_log); [by split|by split|cbn; lia|apply (header_ok_empty drv); [by split|done]|done|].
  intros l c L [Hh Hd] En Eo [Es Ez] Hp Hv. eapply (begin_op_wp drv); [exact L|rewrite En, Eo; by vm_compute|].
  rewrite Eo. set (l1 := set_log _ _). intros L1.
  assert (∀ b, 32 ≤ b → vw c b = img_view b) as Hv'.
  { intros b Hb. unfold vw. rewrite Hv; [done|]. unfold in_log. cbn. lia. }
  apply (HQ _ c); [|by apply img_layout|done|done|done|done|done].
  split; [by split|done|by apply img_wf|done|done|by apply (img_file_ok _ Hv')].
Qed.

Lemma img_can_write P c off n :
  x_size P = 30 → c_held c = ∅ → c_dirty c = ∅ → (∀ b, 32 ≤ b → vw c b = img_view b) → 0 ≤ n →
  nblocks off n ≤ 20 → can_write P img_sb c off n.
Proof.
  intros Es Hh Hd Hv Hn Hb. pose proof (nblocks_fuel off n Hn).
  assert (nspread img_sb c = 1) as E1 by (unfold nspread, spread; rewrite Hd; by vm_compute).
  assert (nheld c = 0) as E2 by (unfold nheld; by rewrite Hh).
  split; [split; rewrite ?E1, ?E2, ?Es; change (Z.of_nat NBUF) with 30; lia|]. apply img_free; [done|lia].
Qed.

Definition img_src : list Z := replicate 700 65.

(** Writing 700 bytes into the empty file. *)
Lemma writei_correct_witness :
  wp (img_boot;; writei drv (λ _, None) 0 img_src 0) (λ r s', r = 700 ∧ ∃ i c,
    f_inodes s' !! 0%nat = Some i ∧ d_size (i_d i) = 700 ∧ file_ok img_sb (vw c) 2 (i_d i) ∧
    ∀ j, 0 ≤ j < 700 → fbyte (vw c) (i_d i) j = 65) img_start.
Proof.
  apply img_boot_wp. intros s c O Ly Ez Eo Hh Hd Hv.
  destruct (writei_correct drv demo_ds _ img_sb Ly (λ _, None) s 0 img_inode img_src 0) as [_ W].
  - apply O.
  - by vm_compute.
  - lia.
  - by vm_compute.
  - eapply wp_mono; [apply (W c)|].
    + by vm_compute.
    + by vm_compute.
    + exact O.
    + exact Hh.
    + rewrite Eo. lia.
    + apply Forall_replicate. lia.
    + by apply img_file_ok.
    + apply img_can_write; [done..|]; by vm_compute.
    + clear W. intros r s' [-> (l & c' & d' & -> & T & FW)]. split; [done|]. exists (set_i_d d' img_inode), c'.
      pose proof (fwr_size _ _ _ _ _ _ _ _ FW) as Hs. split; [|split; [exact Hs|split; [apply FW|]]].
      * cbn. rewrite list_lookup_insert_eq; [done|]. eapply lookup_lt_Some. apply O.
      * intros j Hj. rewrite (fwr_bytes _ _ _ _ _ _ _ _ FW) by (rewrite Hs; exact Hj). rewrite decide_True by exact Hj.
      rewrite nth_lookup. destruct (img_src !! _) eqn:E; [by apply lookup_replicate in E as [-> _]|].
      apply lookup_ge_None in E. change (length img_src) with 700%nat in E. lia.
Defined.

(** And reading them back. *)
Lemma write_read_roundtrip_witness :
  wp (img_boot;; writei drv (λ _, None) 0 img_src 0;; readi drv (λ _, None) 0 0 700) (λ r _, r = (700, img_src)) img_start.
Proof.
  apply (img_boot_wp (writei drv (λ _, None) 0 img_src 0;; readi drv (λ _, None) 0 0 700)). intros s c O Ly Ez Eo Hh Hd Hv.
  apply (write_read_roundtrip drv demo_ds _ img_sb Ly (λ _, None) (λ _, None) s c 0 img_inode img_src 0).
  - exact O.
  - exact Hh.
  - rewrite Eo. lia.
  - apply Forall_replicate. lia.
  - by vm_compute.
  - by vm_compute.
  - by vm_compute.
  - by apply img_file_ok.
  - apply img_can_write; [done..|]; by vm_compute.
Defined.
