(* ===== verification/FsIcache.v ===== *)
(** The inode cache (fs.c): [iget], [ilock], [iunlock] and [iput] on entries
    that other processes do not hold locked.  An entry is a copy of the inode
    on disk once it is valid; [irefs] counts the references to an inode. *)

From S2P Require Import Prelude Mmu Block Ide Bio Log LogSpec LogCrash LogOps Tx Fs FsAlloc FsData FsRw FsInode.

(** ** References *)

Definition ref_to (k : Z) (i : inode) : Z := if i_inum i =? k then i_ref i else 0.
Fixpoint irefs (l : list inode) (k : Z) : Z :=
  match l with
  | [] => 0
  | i :: l' => ref_to k i + irefs l' k
  end.

Lemma irefs_insert l ip i i' k : l !! ip = Some i → irefs (<[ip := i']> l) k = irefs l k - ref_to k i + ref_to k i'.
Proof.
  revert ip. induction l as [|j l IH]; intros [|ip] Hi; [done..| |].
  - injection Hi as ->. cbn. lia.
  - change (<[S ip := i']> (j :: l)) with (j :: <[ip := i']> l). cbn [irefs]. rewrite (IH _ Hi). lia.
Qed.

(** The reference counts of the entries, and the number of entries in use. *)
Notation counts l := (i_ref <$> l).
Definition bump (ip : nat) (n : Z) (r : list Z) : list Z := alter (λ x, x + n) ip r.
Fixpoint nlive (r : list Z) : nat :=
  match r with
  | [] => 0
  | x :: r' => (if 0 <? x then 1 else 0) + nlive r'
  end.

Lemma nlive_full r : Forall (λ x, 0 < x) r → nlive r = length r.
Proof. induction 1 as [|x r Hx _ IH]; [done|]. cbn [nlive length]. by rewrite (proj2 (Z.ltb_lt _ _) Hx), IH. Qed.

Lemma nlive_bump ip r : (nlive r ≤ S (nlive (bump ip (-1) r)))%nat.
Proof.
  revert ip. induction r as [|x r IH]; intros [|ip]; cbn; [lia..| |].
  - destruct (0 <? x), (0 <? x + -1); lia.
  - specialize (IH ip). unfold bump in IH. lia.
Qed.

Lemma counts_insert l ip i i' n : l !! ip = Some i → i_ref i' = i_ref i + n → counts (<[ip := i']> l) = bump ip n (counts l).
Proof.
  intros Hi E. unfold bump. rewrite list_fmap_insert, E. symmetry.
  apply (alter_insert (λ x, x + n)). by rewrite list_lookup_fmap, Hi.
Qed.

Lemma bump_undo ip r : bump ip (-1) (bump ip 1 r) = r.
Proof.
  unfold bump. apply list_eq. intros k. destruct (decide (ip = k)) as [->|]; rewrite ?list_lookup_alter_eq, ?list_lookup_alter_ne by done; [|done].
  destruct (r !! k); cbn; [|done]. f_equal. lia.
Qed.

Lemma bump_swap ip jp r : bump jp (-1) (bump ip (-1) (bump jp 1 r)) = bump ip (-1) r.
Proof.
  unfold bump. apply list_eq. intros k. destruct (decide (jp = k)) as [->|Hj], (decide (ip = k)) as [->|Hi];
    repeat first [rewrite list_lookup_alter_eq | rewrite list_lookup_alter_ne by done]; destruct (r !! k); cbn; try done; f_equal; lia.
Qed.

(** ** The state of the cache *)

(** The entries agree with the disk contents [v]; [lk] is the entry that the
    running process [pid] has locked. *)
Record icache (sb : superblock) (v : Z → block) (pid : Z) (lk : option nat) (l : list inode) : Prop := {
  ic_pos ip i : l !! ip = Some i → 0 ≤ i_ref i;
  ic_dev ip i : l !! ip = Some i → 0 < i_ref i → i_dev i = 1;
  ic_valid ip i : l !! ip = Some i → 0 < i_ref i → i_valid i = true → i_d i = disk_inode sb v (i_inum i);
  ic_lock ip i : l !! ip = Some i → lk ≠ Some ip → sl_locked (i_lock i) = false;
  ic_held ip i : l !! ip = Some i → lk = Some ip → 0 < i_ref i ∧ i_lock i = Slk true pid;
  ic_uniq ip jp i j : l !! ip = Some i → l !! jp = Some j → 0 < i_ref i → 0 < i_ref j → i_inum i = i_inum j → ip = jp;
}.

(** No entry in use is for inode [inum], except perhaps [ip]. *)
Definition uncached (inum : Z) (ip : nat) (l : list inode) : Prop :=
  ∀ jp j, jp ≠ ip → l !! jp = Some j → 0 < i_ref j → i_inum j ≠ inum.

Lemma icache_uncached sb v pid lk l ip i :
  icache sb v pid lk l → l !! ip = Some i → 0 < i_ref i → uncached (i_inum i) ip l.
Proof. intros IC Hi Hr jp j Hne Hj Hrj E. apply Hne. by eapply (ic_uniq _ _ _ _ _ IC). Qed.

(** The entries in use stay what they are. *)
Definition keeps (l l' : list inode) : Prop :=
  length l' = length l ∧ ∀ ip i, l !! ip = Some i → 0 < i_ref i → ∃ i', l' !! ip = Some i' ∧
    i_inum i' = i_inum i ∧ i_dev i' = i_dev i ∧ i_ref i ≤ i_ref i' ∧ i_valid i' = i_valid i ∧ i_d i' = i_d i ∧ i_lock i' = i_lock i.

Lemma iget_scan_spec dev inum l n empty :
  match iget_scan dev inum l n empty with
  | (Some ip, _) => ∃ k i, ip = (n + k)%nat ∧ l !! k = Some i ∧ 0 < i_ref i ∧ i_dev i = dev ∧ i_inum i = inum
  | (None, Some ip) => (∀ i, i ∈ l → 0 < i_ref i → i_dev i = dev → i_inum i ≠ inum) ∧
      (empty = Some ip ∨ ∃ k i, ip = (n + k)%nat ∧ l !! k = Some i ∧ i_ref i = 0)
  | (None, None) => empty = None ∧ ∀ i, i ∈ l → i_ref i ≠ 0
  end.
Proof.
  revert n empty. induction l as [|j l IH]; intros n empty; cbn [iget_scan].
  { destruct empty; [split; [by intros i ?%elem_of_nil|by left]|]. split; [done|]. by intros i ?%elem_of_nil. }
  destruct ((0 <? i_ref j) && (i_dev j =? dev) && (i_inum j =? inum)) eqn:E.
  - exists 0%nat, j. split; [lia|]. split; [done|]. lia.
  - specialize (IH (S n) (match empty with None => if i_ref j =? 0 then Some n else None | Some _ => empty end)).
    destruct (iget_scan _ _ _ _ _) as [[ip|] [e|]].
    1-2: destruct IH as (k & i & -> & Hk & Hr); exists (S k), i; split; [lia|done].
    + destruct IH as [Hno IH]. split.
      { intros i [->|Hi]%elem_of_cons Hr Hd Hin; [|by eapply Hno]. revert E. rewrite Hd, Hin, !Z.eqb_refl. lia. }
      destruct IH as [IH|(k & i & -> & Hk & Hr)]; [|right; exists (S k), i; split; [lia|done]].
      destruct empty; [by left|]. destruct (Z.eqb_spec (i_ref j) 0); [|done]. injection IH as <-. right. exists 0%nat, j. split; [lia|done].
    + destruct IH as [IH Hn]. destruct empty; [done|]. destruct (Z.eqb_spec (i_ref j) 0); [done|]. split; [done|].
      intros i [->|Hi]%elem_of_cons; [done|by apply Hn].
Qed.

Lemma mod_inode_wp s ip i f Q :
  f_inodes s !! ip = Some i → Q tt (set_inodes (<[ip := f i]> (f_inodes s)) s) → wp (mod_inode ip f) Q s.
Proof. intros Hi HQ. apply wp_modify. by rewrite (alter_insert _ _ _ _ Hi). Qed.

Section cache.
Context (sb : superblock) (v : Z → block) (pid : Z).
Notation icache := (icache sb v pid).

(** Replacing an entry. *)
Lemma icache_insert lk lk' l ip i i' :
  icache lk l → l !! ip = Some i → 0 ≤ i_ref i' →
  (0 < i_ref i' → i_dev i' = 1 ∧ (i_valid i' = true → i_d i' = disk_inode sb v (i_inum i'))) →
  (lk' ≠ Some ip → sl_locked (i_lock i') = false) → (lk' = Some ip → 0 < i_ref i' ∧ i_lock i' = Slk true pid) →
  (0 < i_ref i' → uncached (i_inum i') ip l) →
  (∀ jp, jp ≠ ip → lk = Some jp ↔ lk' = Some jp) → icache lk' (<[ip := i']> l).
Proof.
  intros [H1 H2 H3 H4 H5 H6] Hi Hp Hv Hf Hh Hu Hlk. pose proof (lookup_lt_Some _ _ _ Hi).
  assert (∀ jp j, <[ip := i']> l !! jp = Some j → (jp = ip ∧ j = i') ∨ (jp ≠ ip ∧ l !! jp = Some j)) as Hj.
  { intros jp j. destruct (decide (jp = ip)) as [->|]; [rewrite list_lookup_insert_eq by done; intros [= <-]; by left|].
    rewrite list_lookup_insert_ne by done. by right. }
  split; [| | | | |intros kp jp k j [[-> ->]|[Hk Hk']]%Hj [[-> ->]|[Hne Hj']]%Hj Hrk Hrj E; [done|..]].
  6: by destruct (Hu Hrk jp j Hne Hj' Hrj).
  6: by destruct (Hu Hrj kp k Hk Hk' Hrk).
  6: by eapply H6.
  all: intros jp j [[-> ->]|[Hne Hj']]%Hj.
  - done.
  - by eapply H1.
  - by apply Hv.
  - by eapply H2.
  - by apply Hv.
  - by eapply H3.
  - by apply Hf.
  - rewrite <- Hlk by done. by eapply H4.
  - by apply Hh.
  - rewrite <- Hlk by done. by eapply H5.
Qed.

Lemma keeps_insert l ip i i' :
  l !! ip = Some i → (0 < i_ref i → i_inum i' = i_inum i ∧ i_dev i' = i_dev i ∧ i_ref i ≤ i_ref i' ∧ i_valid i' = i_valid i ∧
    i_d i' = i_d i ∧ i_lock i' = i_lock i) → keeps l (<[ip := i']> l).
Proof.
  intros Hi H. split; [apply length_insert|]. intros jp j Hj Hr. destruct (decide (jp = ip)) as [->|].
  - rewrite Hi in Hj. injection Hj as <-. exists i'. split; [apply list_lookup_insert_eq; by eapply lookup_lt_Some|by apply H].
  - exists j. rewrite list_lookup_insert_ne by done. by split_and!.
Qed.

(** What [iget] does to the entry it returns. *)
Lemma iget_entry lk l ip i i' inum :
  icache lk l → l !! ip = Some i → i_inum i' = inum → i_dev i' = 1 → i_ref i' = i_ref i + 1 → i_lock i' = i_lock i →
  (0 < i_ref i → i' = set_i_ref (i_ref i + 1) i ∧ i_inum i = inum) → (i_ref i = 0 → i_valid i' = false ∧ uncached inum ip l) →
  icache lk (<[ip := i']> l) ∧ keeps l (<[ip := i']> l) ∧
  (∀ k, irefs (<[ip := i']> l) k = irefs l k + (if decide (k = inum) then 1 else 0)) ∧
  counts (<[ip := i']> l) = bump ip 1 (counts l).
Proof.
  intros IC Hi Hin Hd Hr Hlk Hlive Hdead. pose proof (ic_pos _ _ _ _ _ IC _ _ Hi). split; [|split; [|split]].
  - eapply icache_insert; [done|done|lia| | | | |done].
    + intros _. split; [done|]. intros Hv. destruct (decide (i_ref i = 0)) as [E|E]; [destruct (Hdead E); congruence|].
      destruct Hlive as [-> _]; [lia|]. apply (ic_valid _ _ _ _ _ IC ip i); [done|lia|done].
    + intros Hne. rewrite Hlk. by apply (ic_lock _ _ _ _ _ IC ip).
    + intros E. rewrite Hlk. split; [lia|]. by apply (ic_held _ _ _ _ _ IC ip).
    + intros _. rewrite Hin. destruct (decide (i_ref i = 0)) as [E|E]; [by apply Hdead|].
      destruct Hlive as [_ <-]; [lia|]. eapply icache_uncached; [done..|lia].
  - apply (keeps_insert _ _ i); [done|]. intros Hp. destruct (Hlive Hp) as [-> _]. cbn. split_and!; try done. lia.
  - intros k. rewrite (irefs_insert _ _ i) by done. unfold ref_to. rewrite Hin, Hr. destruct (decide (i_ref i = 0)) as [E|E].
    + rewrite E. destruct (Z.eqb_spec inum k), (Z.eqb_spec (i_inum i) k), (decide (k = inum)); lia || congruence.
    + destruct Hlive as [_ ->]; [lia|]. destruct (Z.eqb_spec inum k), (decide (k = inum)); lia || congruence.
  - by eapply counts_insert.
Qed.

Lemma iget_wp lk s inum Q :
  icache lk (f_inodes s) → (nlive (counts (f_inodes s)) < length (f_inodes s))%nat →
  (∀ ip i l', l' !! ip = Some i → i_inum i = inum → 0 < i_ref i → icache lk l' → keeps (f_inodes s) l' →
     (∀ k, irefs l' k = irefs (f_inodes s) k + (if decide (k = inum) then 1 else 0)) →
     counts l' = bump ip 1 (counts (f_inodes s)) → Q ip (set_inodes l' s)) →
  wp (iget 1 inum) Q s.
Proof.
  set (l := f_inodes s). intros IC Hn HQ.
  assert (∀ ip i i', l !! ip = Some i → i_inum i' = inum → i_dev i' = 1 → i_ref i' = i_ref i + 1 → i_lock i' = i_lock i →
    (0 < i_ref i → i' = set_i_ref (i_ref i + 1) i ∧ i_inum i = inum) → (i_ref i = 0 → i_valid i' = false ∧ uncached inum ip l) →
    Q ip (set_inodes (<[ip := i']> l) s)) as H.
  { intros ip i i' Hi Hin Hd Hr Hlk H1 H2. destruct (iget_entry lk l ip i i' inum) as (A & B & C & D); [done..|].
    apply (HQ ip i'); [apply list_lookup_insert_eq; by eapply lookup_lt_Some|done| |done..].
    pose proof (ic_pos _ _ _ _ _ IC _ _ Hi). lia. }
  apply wp_bind, wp_gets. fold l. pose proof (iget_scan_spec 1 inum l 0 None) as Hs.
  destruct (iget_scan _ _ _ _ _) as [[ip|] [e|]]; cbn [Nat.add] in Hs.
  1-2: destruct Hs as (ip' & i & -> & Hi & Hr & Hd & Hin); apply wp_bind, (mod_inode_wp s _ i); [done|]; apply wp_ret, (H _ i); [done..|lia].
  - destruct Hs as [Hno [Hs|(ip & i & -> & Hi & Hr)]]; [done|]. apply wp_bind, (mod_inode_wp s _ i); [done|].
    apply wp_ret, (H _ i); cbn; try done; [lia|lia|]. intros _. split; [done|]. intros jp j _ Hj Hrj.
    apply Hno; [by eapply list_elem_of_lookup_2|done|by eapply (ic_dev _ _ _ _ _ IC)].
  - destruct Hs as [_ Hs]. rewrite nlive_full in Hn; [rewrite length_fmap in Hn; lia|]. apply Forall_fmap, Forall_lookup. intros ip i Hi.
    specialize (Hs i (list_elem_of_lookup_2 _ _ _ Hi)). cbn. pose proof (ic_pos _ _ _ _ _ IC _ _ Hi). lia.
Qed.
End cache.

(** ** Locking and releasing *)

Section locks.
Context (iderw : nat → M bst ()) `{!DiskDriver iderw} (Hds : disk_size ≤ 2 ^ 31).
Context (P : txp) (sb : superblock) (Ly : layout iderw P sb).
Notation pid := (x_pid P).

(** The file system between two steps of a call: no buffer is held. *)
Record quiet (s : fsst) (c : cache) : Prop := {
  qt_tx : tx_ok iderw P (f_l s) c;
  qt_sb : f_sb s = sb;
  qt_wf : fs_wf sb (vw c);
  qt_held : c_held c = ∅;
  qt_dirty : ndirty c < Z.of_nat NBUF;
}.

Lemma quiet_pid s c : quiet s c → mypid (l_b (f_l s)) = pid.
Proof. intros [[_ E] _ _ _ _]. by rewrite <- E. Qed.

Lemma quiet_set s c l x : quiet s c → tx_ok iderw P l c → quiet (Fsst l (f_sb s) x (f_cwd s)) c.
Proof. intros [] T. by split. Qed.

(** An inode in the cache, locked and read from the disk. *)
Definition locked (v : Z → block) (i : inode) : inode :=
  Ino 1 (i_inum i) (i_ref i) (Slk true pid) true (disk_inode sb v (i_inum i)).

Lemma inode_acquire_wp s c ip i Q :
  quiet s c → f_inodes s !! ip = Some i → sl_locked (i_lock i) = false →
  Q tt (set_inodes (<[ip := set_i_lock (Slk true pid) i]> (f_inodes s)) s) → wp (inode_acquire ip) Q s.
Proof.
  intros Qt Hi Hl HQ. unfold inode_acquire. apply wp_bind. eapply get_inode_wp; [done|]. apply wp_bind, wp_gets.
  rewrite (quiet_pid s c) by done. unfold acquiresleep. rewrite Hl. by eapply mod_inode_wp.
Qed.

Lemma ilock_wp s c ip i Q :
  quiet s c → icache sb (vw c) pid None (f_inodes s) → f_inodes s !! ip = Some i → 0 < i_ref i →
  0 ≤ i_inum i < sb_ninodes sb → d_type (disk_inode sb (vw c) (i_inum i)) ≠ 0 →
  (∀ l, tx_ok iderw P l c → icache sb (vw c) pid (Some ip) (<[ip := locked (vw c) i]> (f_inodes s)) →
     Q tt (Fsst l (f_sb s) (<[ip := locked (vw c) i]> (f_inodes s)) (f_cwd s))) →
  wp (ilock iderw ip) Q s.
Proof using Hds Ly.
  intros Qt IC Hi Hr Hin Hty HQ. pose proof (lookup_lt_Some _ _ _ Hi) as Hlt. unfold ilock. apply wp_bind. eapply get_inode_wp; [done|].
  rewrite (proj2 (Z.ltb_ge _ _)) by lia. apply wp_bind. eapply inode_acquire_wp; [done..|by eapply (ic_lock _ _ _ _ _ IC)|].
  pose proof (ic_dev _ _ _ _ _ IC ip i Hi Hr) as Hd1.
  assert (icache sb (vw c) pid (Some ip) (<[ip := locked (vw c) i]> (f_inodes s))) as IC'.
  { eapply icache_insert; [done..|cbn; lia|done|done|done|intros _; exact (icache_uncached _ _ _ _ _ _ _ IC Hi Hr)|]. intros jp Hne. split; [done|]. intros [= ->]. done. }
  apply wp_bind. eapply get_inode_wp; [by apply list_lookup_insert_eq|]. cbn [i_valid set_i_lock].
  destruct (i_valid i) eqn:Ev.
  - apply wp_ret. specialize (HQ (f_l s) (qt_tx _ _ Qt) IC'). unfold locked in HQ. 
    rewrite <- (ic_valid _ _ _ _ _ IC ip i Hi Hr Ev), <- Hd1 in HQ. unfold set_i_lock. rewrite Ev. exact HQ.
  - apply wp_bind, wp_gets. cbn [f_sb set_inodes]. rewrite (qt_sb _ _ Qt). cbn [i_dev set_i_lock i_inum]. rewrite Hd1.
    pose proof (IBLOCK_range _ Hds P sb Ly _ Hin). pose proof (dstart_pos _ P sb Ly). pose proof (ly_data _ _ _ Ly). pose proof (ly_size _ _ _ Ly).
    destruct Qt as [T Es W Hh Hd]. apply wp_bind. eapply (f_bread iderw P); [exact T|lia|by rewrite Hh|unfold nheld; rewrite Hh, map_size_empty; lia|].
    intros l1 bp T1. apply wp_bind. eapply (f_data iderw P); [exact T1|apply lookup_insert_eq|]. change (vw (hold_block _ _ c) ?b) with (vw c b).
    apply wp_bind. eapply mod_inode_wp; [by apply list_lookup_insert_eq|]. cbn [f_inodes set_inodes set_fl]. rewrite list_insert_insert_eq.
    apply wp_bind. eapply (f_brelse iderw P); [exact T1|by rewrite Hh|by eapply tx_clean; [exact T|rewrite Hh]|]. intros l2 T2.
    apply wp_bind. eapply mod_inode_wp; [by apply list_lookup_insert_eq|]. cbn [f_inodes set_inodes set_fl]. rewrite list_insert_insert_eq.
    apply wp_bind. eapply get_inode_wp; [by apply list_lookup_insert_eq|]. cbn [i_d set_i_valid set_i_d].
    change (load_dinode (vw c (IBLOCK (i_inum i) sb)) (inode_off (i_inum i))) with (disk_inode sb (vw c) (i_inum i)).
    rewrite (proj2 (Z.eqb_neq _ _)) by done. apply wp_ret. specialize (HQ l2 T2 IC'). unfold locked in HQ. rewrite <- Hd1 in HQ. exact HQ.
Qed.

Lemma iunlock_wp s c ip i Q :
  quiet s c → icache sb (vw c) pid (Some ip) (f_inodes s) → f_inodes s !! ip = Some i →
  (let l' := <[ip := set_i_lock (Slk false 0) i]> (f_inodes s) in icache sb (vw c) pid None l' → Q tt (set_inodes l' s)) →
  wp (iunlock ip) Q s.
Proof.
  intros Qt IC Hi HQ. destruct (ic_held _ _ _ _ _ IC ip i Hi eq_refl) as [Hr Hl]. unfold iunlock. apply wp_bind. eapply get_inode_wp; [done|].
  apply wp_bind, wp_gets. rewrite (quiet_pid s c Qt). unfold holdingsleep. rewrite Hl. cbn [sl_locked sl_pid]. rewrite Z.eqb_refl. cbn [andb negb orb].
  rewrite (proj2 (Z.ltb_ge _ _)) by lia. eapply mod_inode_wp; [done|]. rewrite Hl. apply HQ.
  eapply icache_insert; [done..|cbn; lia| |done|done|intros _; exact (icache_uncached _ _ _ _ _ _ _ IC Hi Hr)|].
  - intros _. split; [by apply (ic_dev _ _ _ _ _ IC ip i)|]. intros Hv. by apply (ic_valid _ _ _ _ _ IC ip i).
  - intros jp Hne. split; [|done]. intros [= ->]. done.
Qed.

Lemma iput_wp lk s c ip i Q :
  quiet s c → icache sb (vw c) pid lk (f_inodes s) → lk ≠ Some ip → f_inodes s !! ip = Some i → 0 < i_ref i →
  (i_valid i = true → d_nlink (i_d i) ≠ 0) →
  (let l' := <[ip := set_i_ref (i_ref i - 1) (set_i_lock (Slk false 0) i)]> (f_inodes s) in
   icache sb (vw c) pid lk l' → Q tt (set_inodes l' s)) →
  wp (iput iderw ip) Q s.
Proof.
  intros Qt IC Hlk Hi Hr Hn HQ. pose proof (lookup_lt_Some _ _ _ Hi). unfold iput. apply wp_bind.
  eapply inode_acquire_wp; [done..|by eapply (ic_lock _ _ _ _ _ IC)|]. apply wp_bind. eapply get_inode_wp; [by apply list_lookup_insert_eq|].
  apply wp_bind. cbn [i_valid i_d set_i_lock]. assert (i_valid i && (d_nlink (i_d i) =? 0) = false) as ->.
  { destruct (i_valid i); [|done]. cbn. apply Z.eqb_neq. by apply Hn. }
  apply wp_ret. apply wp_bind. eapply mod_inode_wp; [by apply list_lookup_insert_eq|]. cbn [f_inodes set_inodes]. rewrite list_insert_insert_eq.
  eapply mod_inode_wp; [by apply list_lookup_insert_eq|]. cbn [f_inodes set_inodes]. rewrite list_insert_insert_eq.
  apply HQ. eapply icache_insert; [done..|cbn; lia| |done|done|intros _; exact (icache_uncached _ _ _ _ _ _ _ IC Hi Hr)|done].
  intros _. split; [by apply (ic_dev _ _ _ _ _ IC ip i)|]. intros Hv. by apply (ic_valid _ _ _ _ _ IC ip i).
Qed.
End locks.
