(* ===== verification/FsTrunc.v ===== *)
(** Deleting files: [itrunc] and the last [iput] of an inode without links
    (fs.c). *)

From S2P Require Import Prelude Mmu Block Ide Bio Log LogSpec LogCrash LogOps Tx Fs FsAlloc FsData FsRw FsInode.
From S2P Require Import FsWrite FsIcache.

(** ** Freeing blocks *)

Section free.
Context (iderw : nat → M bst ()) `{!DiskDriver iderw} (Hds : disk_size ≤ 2 ^ 31).
Context (P : txp) (sb : superblock) (Ly : layout iderw P sb).
Notation tx_ok := (tx_ok iderw P).
Notation room := (room P sb).

(** [c] is [c0] with the blocks [X] freed. *)
Record freed (c0 : cache) (X : gset Z) (c : cache) : Prop := {
  fr_wf : fs_wf sb (vw c);
  fr_held : c_held c = c_held c0;
  fr_disk : c_disk c = c_disk c0;
  fr_dirty : c_dirty c0 ⊆ c_dirty c;
  fr_spread : spread sb c = spread sb c0;
  fr_view : ∀ b, b < sb_bmapstart sb ∨ dstart sb ≤ b → vw c b = vw c0 b;
  fr_used : ∀ b, 0 ≤ b < sb_size sb → used sb (vw c) b ↔ used sb (vw c0) b ∧ b ∉ X;
}.

Lemma freed_refl c : fs_wf sb (vw c) → freed c ∅ c.
Proof. intros W. split; try done. intros b _. split; [|tauto]. intros H. split; [done|]. apply not_elem_of_empty. Qed.

Lemma freed_trans c0 X c1 Y c2 : freed c0 X c1 → freed c1 Y c2 → freed c0 (X ∪ Y) c2.
Proof.
  intros [W1 H1 D1 S1 P1 V1 U1] [W2 H2 D2 S2 P2 V2 U2]. split; try congruence; try done.
  - set_solver.
  - intros b Hb. by rewrite V2, V1.
  - intros b Hb. rewrite U2, U1, not_elem_of_union by done. tauto.
Qed.

Lemma freed_unmark c b : fs_wf sb (vw c) → dstart sb ≤ b < sb_size sb → freed c {[b]} (unmark sb b c).
Proof using Hds Ly.
  intros W Hb. pose proof (dstart_pos _ P sb Ly) as Hdp. assert (0 ≤ b < sb_size sb) as Hb' by lia.
  pose proof (BBLOCK_range _ Hds P sb Ly b Hb') as Hbb.
  assert (∀ b', 0 ≤ b' < sb_size sb → used sb (vw (unmark sb b c)) b' ↔ used sb (vw c) b' ∧ b' ∉ ({[b]} : gset Z)) as Hu.
  { intros b' Hr. rewrite (used_unmark _ Hds P sb Ly), not_elem_of_singleton by done. tauto. }
  split; try done.
  - split.
    + intros b' Hr. unfold unmark. destruct (decide (b' = BBLOCK b sb)) as [->|].
      * rewrite vw_upd. by apply clear_bit_ok, W.
      * rewrite vw_upd_ne by done. by apply W.
    + intros b' Hr. pose proof (ly_data _ _ _ Ly). apply Hu; [lia|]. split; [by apply W|].
      apply not_elem_of_singleton. lia.
  - cbn. set_solver.
  - by apply (spread_unmark iderw Hds P sb Ly).
  - intros b' Hr. unfold unmark. rewrite vw_upd_ne; [done|]. lia.
Qed.

Lemma freed_room n c0 X c : freed c0 X c → room n c0 → room n c.
Proof. intros F [R1 R2]. unfold FsAlloc.room, nspread, nheld. by rewrite (fr_spread _ _ _ F), (fr_held _ _ _ F). Qed.

Lemma bfree_freed s c0 X c b Q :
  tx_ok (f_l s) c → f_sb s = sb → freed c0 X c → held_used sb c → room 1 c0 → 1 ≤ x_out P →
  dstart sb ≤ b < sb_size sb → used sb (vw c0) b → b ∉ X →
  (∀ l c', tx_ok l c' → freed c0 (X ∪ {[b]}) c' → Q tt (set_fl l s)) → wp (bfree iderw 1 b) Q s.
Proof using Hds Ly.
  intros T Es F Hh R Ho Hb Hu Hx HQ. pose proof (dstart_pos _ P sb Ly) as Hdp.
  eapply (bfree_wp iderw Hds P sb Ly); [done|done|apply F|done|by eapply freed_room|done|done|..].
  - apply (fr_used _ _ _ F); [lia|done].
  - intros l T'. eapply HQ; [done|]. eapply freed_trans; [done|]. apply freed_unmark; [apply F|done].
Qed.
End free.

(** ** itrunc *)

(** The blocks that the pointers [ks] name. *)
Definition ptrs (v : Z → block) (d : dinode) (ks : list Z) : gset Z :=
  list_to_set (filter (λ b, b ≠ 0) (slot v d <$> ks)).

Lemma elem_of_ptrs v d ks b : b ∈ ptrs v d ks ↔ b ≠ 0 ∧ ∃ k, k ∈ ks ∧ slot v d k = b.
Proof.
  unfold ptrs. rewrite elem_of_list_to_set, list_elem_of_filter, list_elem_of_fmap.
  split; intros [Hb (k & H1 & H2)]; (split; [done|]); exists k; naive_solver.
Qed.

Lemma ptrs_snoc v d ks k :
  ptrs v d (ks ++ [k]) = if decide (slot v d k = 0) then ptrs v d ks else ptrs v d ks ∪ {[slot v d k]}.
Proof.
  unfold ptrs. rewrite fmap_app, filter_app. cbn [fmap list_fmap]. rewrite filter_cons, filter_nil.
  rewrite list_to_set_app_L. case_decide as E; case_decide; try done; cbn; set_solver.
Qed.

(** A pointer that has not been followed yet names a new block. *)
Lemma ptrs_new sb v d ks k : inode_wf sb v d → Forall (λ k, 0 ≤ k < NSLOT) ks → 0 ≤ k < NSLOT → k ∉ ks →
  slot v d k ≠ 0 → slot v d k ∉ ptrs v d ks.
Proof.
  intros I Hks Hk Hn Hs (_ & k' & Hk' & E)%elem_of_ptrs. rewrite Forall_forall in Hks.
  rewrite (iw_inj _ _ _ I k k') in Hn by (done || by apply Hks). done.
Qed.

(** The inode of an empty file. *)
Definition emptied (d : dinode) : dinode :=
  Din (d_type d) (d_major d) (d_minor d) (d_nlink d) 0 (replicate 13 0).

Lemma emptied_addrs d : length (d_addrs d) = 13%nat →
  set_size 0 (set_addr NDIRECT 0 (foldl (λ d k, set_addr k 0 d) d (seqZ 0 NDIRECT))) = emptied d.
Proof.
  destruct d as [t ma mi nl sz ad]. cbn [d_addrs]. intros Hl.
  do 13 (destruct ad as [|? ad]; [done|]). by destruct ad.
Qed.

Lemma set_addr_null d k : length (d_addrs d) = 13%nat → 0 ≤ k < 13 → addr_of d k = 0 → set_addr k 0 d = d.
Proof.
  destruct d as [t ma mi nl sz ad]. unfold addr_of, set_addr. cbn. intros Hl Hk H0. f_equal. apply list_insert_id.
  destruct (lookup_lt_is_Some_2 ad (Z.to_nat k)) as [x Hx]; [lia|]. rewrite nth_lookup, Hx in H0. cbn in H0. congruence.
Qed.

Section trunc.
Context (iderw : nat → M bst ()) `{!DiskDriver iderw} (Hds : disk_size ≤ 2 ^ 31).
Context (P : txp) (sb : superblock) (Ly : layout iderw P sb).
Notation tx_ok := (tx_ok iderw P).
Notation room := (room P sb).
Notation freed := (freed sb).
Context (ip : nat) (i : inode) (c0 : cache).
Notation d0 := (i_d i).
Notation ptrs0 := (ptrs (vw c0) d0).
Context (I0 : inode_wf sb (vw c0) d0) (Hdev : i_dev i = 1) (Hh0 : c_held c0 = ∅) (R0 : room 2 c0) (Ho : 1 ≤ x_out P).

Lemma slot_block k : 0 ≤ k < NSLOT → slot (vw c0) d0 k ≠ 0 →
  dstart sb ≤ slot (vw c0) d0 k < sb_size sb ∧ used sb (vw c0) (slot (vw c0) d0 k).
Proof using I0. apply (iw_data _ _ _ I0). Qed.

Lemma slot_direct k : k < 13 → slot (vw c0) d0 k = addr_of d0 k.
Proof. intros Hk. unfold slot. by rewrite (proj2 (Z.ltb_lt _ _)). Qed.

Lemma trunc_direct_loop ks : ∀ pre s c d Q,
  tx_ok (f_l s) c → f_sb s = sb → freed c0 (ptrs0 pre) c → f_inodes s !! ip = Some (set_i_d d i) →
  length (d_addrs d) = 13%nat → (∀ k, k ∈ ks → addr_of d k = addr_of d0 k) →
  NoDup (pre ++ ks) → Forall (λ k, 0 ≤ k < NDIRECT) (pre ++ ks) →
  (∀ l c', tx_ok l c' → freed c0 (ptrs0 (pre ++ ks)) c' →
     Q tt (with_inode ip i (foldl (λ d k, set_addr k 0 d) d ks) l s)) →
  wp (for_each ks (trunc_direct iderw ip)) Q s.
Proof using Hds Ly I0 Hdev Hh0 R0 Ho.
  assert (room 1 c0) as R1 by (destruct R0; split; lia).
  induction ks as [|k ks IH]; intros pre s c d Q T Es F Hi Hl Hd Hnd Hr HQ; cbn [for_each foldl].
  { apply wp_ret. rewrite app_nil_r in HQ. specialize (HQ _ _ T F). unfold with_inode in HQ.
    cbn [foldl] in HQ. rewrite list_insert_id in HQ by done. by destruct s. }
  rewrite (cons_middle k pre ks), app_assoc in Hnd, Hr, HQ. unfold NDIRECT in Hr. cbn [foldl] in HQ.
  assert (k ∉ pre) as Hk by (apply NoDup_app in Hnd as [(_ & Hn & _)%NoDup_app _]; set_solver).
  assert (0 ≤ k < 12 ∧ Forall (λ k, 0 ≤ k < NSLOT) pre) as [Hkr Hdr].
  { apply Forall_app in Hr as [[Hr1 [Hr2 _]%Forall_cons]%Forall_app _]. split; [exact Hr2|].
    eapply Forall_impl; [exact Hr1|]. cbn beta. change NSLOT with 141. lia. }
  assert (0 ≤ k < NSLOT) as Hks by (change NSLOT with 141; lia).
  pose proof (Hd k ltac:(by left)) as Ek. pose proof (slot_direct k ltac:(lia)) as Esk.
  apply wp_bind. unfold trunc_direct. apply wp_bind. eapply get_inode_wp; [done|]. cbn [i_d set_i_d i_dev].
  rewrite Ek, Hdev, <- Esk. pose proof (ptrs_snoc (vw c0) d0 pre k) as Ep.
  destruct (Z.eqb_spec (slot (vw c0) d0 k) 0) as [E0|E0]; cbn [negb when].
  - rewrite decide_True in Ep by done. apply wp_ret. rewrite <- Ep in F.
    rewrite set_addr_null in HQ by (done || lia || congruence).
    eapply IH; try done. intros x Hx. apply Hd. by right.
  - rewrite decide_False in Ep by done. destruct (slot_block k Hks E0) as [Hb Hu]. apply wp_bind.
    eapply (bfree_freed iderw Hds P sb Ly s c0); [done|done|done| |done|done|done|done|by eapply ptrs_new|].
    { intros b. rewrite (fr_held _ _ _ _ F), Hh0. done. }
    intros l c' T' F'. rewrite <- Ep in F'. eapply mod_d_wp; [exact Hi|]. cbn [i_d set_i_d f_inodes set_fl].
    eapply (IH _ _ c' (set_addr k 0 d)); try done.
    + cbn. apply list_lookup_insert_eq. by eapply lookup_lt_Some.
    + cbn. by rewrite length_insert.
    + intros x Hx. rewrite addr_set by (done || lia || (rewrite Forall_forall in Hr; destruct (Hr x); [set_solver|lia])).
      rewrite decide_False; [apply Hd; by right|]. intros ->. apply NoDup_app in Hnd as (_ & Hn & _). apply (Hn k); set_solver.
    + intros l2 c2 T2 F2. specialize (HQ l2 c2 T2 F2). unfold with_inode in *. cbn [f_inodes set_inodes set_fl f_sb f_cwd].
      by rewrite list_insert_insert_eq.
Qed.

Section indirect.
Notation a := (addr_of d0 NDIRECT).
Context (Ha : a ≠ 0) (bp : nat).

Lemma freed_hold X c : freed c0 X c → freed (hold_block (fkey a) bp c0) X (hold_block (fkey a) bp c).
Proof. intros [W H D S R V U]. split; try done. cbn. by rewrite H. Qed.

Lemma freed_drop X c : freed (hold_block (fkey a) bp c0) X c →
  ∃ c', c = hold_block (fkey a) bp c' ∧ freed c0 X c'.
Proof.
  intros [W H D S R V U]. exists (Cache (c_disk c) (c_view c) (c_held c0) (c_dirty c)). split; [|by split].
  destruct c as [cd cv ch cy]. cbn in *. by rewrite H.
Qed.

Lemma slot_ptr j : 0 ≤ j → slot (vw c0) d0 (13 + j) = get32 (vw c0 a) (Z.to_nat (4 * j)).
Proof using Ha.
  intros Hj. unfold slot. rewrite (proj2 (Z.ltb_ge _ _)), (proj2 (Z.eqb_neq _ _)) by (done || lia).
  by replace (13 + j - 13) with j by lia.
Qed.

Lemma ind_held_used X c : freed (hold_block (fkey a) bp c0) X c → a ∉ X → held_used sb c.
Proof using Ly I0 Hh0 Ha.
  intros F Hx b Hb. rewrite (fr_held _ _ _ _ F) in Hb. cbn in Hb. rewrite Hh0 in Hb.
  pose proof (dstart_pos _ P sb Ly) as Hdp. destruct (ind_data sb c0 d0 I0 Ha) as [Hr Hu].
  assert (b = a) as ->.
  { destruct (decide (fkey a = fkey b)) as [E|E]; [by injection E|]. by rewrite lookup_insert_ne in Hb. }
  split; [lia|]. apply (fr_used _ _ _ _ F); [lia|done].
Qed.

Lemma trunc_entry_loop js : ∀ pre s c Q,
  tx_ok (f_l s) c → f_sb s = sb → freed (hold_block (fkey a) bp c0) (ptrs0 pre) c →
  NoDup (pre ++ (Z.add 13 <$> js)) → Forall (λ k, 0 ≤ k < NSLOT) (pre ++ (Z.add 13 <$> js)) →
  NDIRECT ∉ pre → Forall (λ j, 0 ≤ j) js →
  (∀ l c', tx_ok l c' → freed (hold_block (fkey a) bp c0) (ptrs0 (pre ++ (Z.add 13 <$> js))) c' → Q tt (set_fl l s)) →
  wp (for_each js (trunc_entry iderw 1 bp)) Q s.
Proof using Hds Ly I0 Hdev Hh0 R0 Ho Ha.
  pose proof (dstart_pos _ P sb Ly) as Hdp. destruct (ind_data sb c0 d0 I0 Ha) as [Har Hau].
  assert (room 1 (hold_block (fkey a) bp c0)) as R1.
  { destruct R0 as [R1 R2]. unfold FsAlloc.room, nheld in *. cbn. rewrite Hh0, insert_empty, map_size_singleton in *.
    rewrite map_size_empty in R2. change (nspread sb (hold_block (fkey a) bp c0)) with (nspread sb c0). lia. }
  induction js as [|j js IH]; intros pre s c Q T Es F Hnd Hr Hpre Hj HQ; cbn [for_each].
  { apply wp_ret. cbn in HQ. rewrite app_nil_r in HQ. specialize (HQ _ _ T F). by destruct s. }
  apply Forall_cons in Hj as [Hj0 Hj]. rewrite fmap_cons, cons_middle, app_assoc in Hnd, Hr, HQ.
  assert (13 + j ∉ pre) as Hn by (apply NoDup_app in Hnd as [(_ & Hn & _)%NoDup_app _]; set_solver).
  assert (0 ≤ 13 + j < NSLOT ∧ Forall (λ k, 0 ≤ k < NSLOT) pre) as [Hjr Hpr].
  { apply Forall_app in Hr as [[Hr1 [Hr2 _]%Forall_cons]%Forall_app _]. by split. }
  assert (NDIRECT ∉ pre ++ [13 + j]) as Hpre'.
  { rewrite not_elem_of_app, list_elem_of_singleton. split; [done|]. unfold NDIRECT. lia. }
  assert (c_held c !! fkey a = Some bp) as Hhb by (rewrite (fr_held _ _ _ _ F); apply lookup_insert_eq).
  apply wp_bind. unfold trunc_entry. apply wp_bind. eapply (f_data iderw P); [exact T|done|].
  rewrite (fr_view _ _ _ _ F) by lia. change (vw (hold_block (fkey a) bp c0) a) with (vw c0 a).
  rewrite <- slot_ptr by done. pose proof (ptrs_snoc (vw c0) d0 pre (13 + j)) as Ep. cbv zeta.
  destruct (Z.eqb_spec (slot (vw c0) d0 (13 + j)) 0) as [E0|E0]; cbn [negb when].
  - rewrite decide_True in Ep by done. apply wp_ret. rewrite <- Ep in F. by eapply IH.
  - rewrite decide_False in Ep by done. destruct (slot_block (13 + j) Hjr E0) as [Hb Hu].
    assert (a ∉ ptrs0 pre) as Hax.
    { rewrite <- (slot_direct NDIRECT) by done. eapply ptrs_new; [done|done|by vm_compute|done|by rewrite slot_direct]. }
    eapply (bfree_freed iderw Hds P sb Ly s (hold_block (fkey a) bp c0)); [done|done|done|by eapply ind_held_used|done|done|done|done|by eapply ptrs_new|].
    intros l c' T' F'. rewrite <- Ep in F'. eapply (IH (pre ++ [13 + j]) (set_fl l s) c'); done.
Qed.
End indirect.

(** Every pointer of the inode, in the order in which [itrunc] follows them. *)
Definition trunc_order : list Z := (seqZ 0 NDIRECT ++ (Z.add 13 <$> seqZ 0 NINDIRECT)) ++ [NDIRECT].

Lemma trunc_order_all k : k ∈ trunc_order ↔ 0 ≤ k < NSLOT.
Proof.
  unfold trunc_order. rewrite !elem_of_app, list_elem_of_singleton, list_elem_of_fmap, elem_of_seqZ.
  change NSLOT with (13 + NINDIRECT). change NINDIRECT with 128. unfold NDIRECT. split.
  - intros [[H|(j & -> & Hj%elem_of_seqZ)]|H]; lia.
  - intros H. destruct (decide (k < 12)); [left; left; lia|]. destruct (decide (k = 12)); [by right|].
    left. right. exists (k - 13). rewrite elem_of_seqZ. lia.
Qed.

Lemma trunc_order_nodup : NoDup (seqZ 0 NDIRECT ++ (Z.add 13 <$> seqZ 0 NINDIRECT)).
Proof.
  apply NoDup_app. split; [apply NoDup_seqZ|]. split; [|apply NoDup_fmap; [|apply NoDup_seqZ]].
  2:{ intros x y Hxy. lia. }
  intros k Hk%elem_of_seqZ (j & -> & Hj%elem_of_seqZ)%list_elem_of_fmap. unfold NDIRECT in *. lia.
Qed.

(** The indirect block and its entries. *)
Definition trunc_ind (dev a : Z) : M fsst () :=
  bp ← fbread iderw dev a;
  for_each (seqZ 0 NINDIRECT) (trunc_entry iderw dev bp);;
  fbrelse bp;;
  bfree iderw dev a;;
  mod_d ip (set_addr NDIRECT 0).

Lemma trunc_ind_wp s c d Q :
  tx_ok (f_l s) c → f_sb s = sb → freed c0 (ptrs0 (seqZ 0 NDIRECT)) c → f_inodes s !! ip = Some (set_i_d d i) →
  addr_of d0 NDIRECT ≠ 0 → (∀ b, fkey b ∈ c_dirty c0 ∨ vw c0 b = c_disk c0 (fkey b)) →
  (∀ l c', tx_ok l c' → freed c0 (ptrs0 trunc_order) c' → Q tt (with_inode ip i (set_addr NDIRECT 0 d) l s)) →
  wp (trunc_ind 1 (addr_of d0 NDIRECT)) Q s.
Proof using Hds Ly I0 Hdev Hh0 R0 Ho.
  intros T Es F Hi Ha Hcl HQ. set (a := addr_of d0 NDIRECT) in *. pose proof (dstart_pos _ P sb Ly) as Hdp.
  destruct (ind_data sb c0 d0 I0 Ha) as [Har Hau]. fold a in Har, Hau. pose proof (ly_size _ _ _ Ly).
  assert (c_held c = ∅) as Hh by by rewrite (fr_held _ _ _ _ F). pose proof (freed_room P sb _ _ _ _ F R0) as [Rs1 Rs2].
  pose proof (ndirty_spread sb c). unfold trunc_ind. apply wp_bind. eapply (f_bread iderw P); [exact T|lia|by rewrite Hh|lia|].
  intros l1 bp T1. apply wp_bind. eapply (trunc_entry_loop Ha bp _ (seqZ 0 NDIRECT)); [exact T1|done|by apply freed_hold|..].
  - apply trunc_order_nodup.
  - apply Forall_forall. intros k Hk. apply trunc_order_all. apply elem_of_app. by left.
  - rewrite elem_of_seqZ. lia.
  - apply Forall_forall. intros j Hj%elem_of_seqZ. lia.
  - intros l2 c2 T2 F2. apply freed_drop in F2 as (c3 & -> & F3). fold a in T2.
    assert (c_held c3 = ∅) as Hh3 by by rewrite (fr_held _ _ _ _ F3).
    apply wp_bind. eapply (f_brelse iderw P); [exact T2|by rewrite Hh3| |].
    { destruct (Hcl a) as [Hc|Hc].
      - left. by apply (fr_dirty _ _ _ _ F3).
      - right. rewrite (fr_view _ _ _ _ F3), (fr_disk _ _ _ _ F3) by lia. done. }
    intros l3 T3. apply wp_bind.
    assert (slot (vw c0) d0 NDIRECT = a) as Esl by by apply slot_direct.
    eapply (bfree_freed iderw Hds P sb Ly _ c0); [exact T3|done|exact F3|by intros b; rewrite Hh3|destruct R0; split; lia|done|done|done|..].
    { rewrite <- Esl. eapply ptrs_new; [done|..|by vm_compute| |by rewrite Esl].
      - apply Forall_forall. intros k Hk. apply trunc_order_all. apply elem_of_app. by left.
      - rewrite elem_of_app, elem_of_seqZ, list_elem_of_fmap. intros [?|(j & ? & Hj%elem_of_seqZ)]; unfold NDIRECT in *; lia. }
    intros l4 c4 T4 F4. eapply mod_d_wp; [exact Hi|]. apply (HQ l4 c4); [done|].
    unfold trunc_order. by rewrite ptrs_snoc, decide_False by by rewrite Esl.
Qed.

Lemma foldl_addrs ks d : length (d_addrs (foldl (λ d k, set_addr k 0 d) d ks)) = length (d_addrs d).
Proof. revert d. induction ks as [|k ks IH]; intros d; [done|]. cbn [foldl]. rewrite IH. cbn. apply length_insert. Qed.

Lemma foldl_addr_other ks d k : Forall (λ k, 0 ≤ k < 13) ks → length (d_addrs d) = 13%nat → k ∉ ks → 0 ≤ k →
  addr_of (foldl (λ d k, set_addr k 0 d) d ks) k = addr_of d k.
Proof.
  revert d. induction ks as [|x ks IH]; intros d Hks Hl Hn Hk; [done|]. apply Forall_cons in Hks as [Hx Hks].
  apply not_elem_of_cons in Hn as [Hne Hn]. cbn [foldl]. rewrite IH by (try done; cbn; by rewrite length_insert).
  by rewrite addr_set, decide_False.
Qed.

(** Without an indirect block there are no entries. *)
Lemma ptrs_direct : addr_of d0 NDIRECT = 0 → ptrs0 trunc_order = ptrs0 (seqZ 0 NDIRECT).
Proof.
  intros Ha. apply set_eq. intros b. rewrite !elem_of_ptrs. split; intros [Hb (k & Hk & E)]; (split; [done|]); exists k; (split; [|done]).
  - apply trunc_order_all in Hk. rewrite elem_of_seqZ. change (0 + NDIRECT) with 12. split; [lia|].
    destruct (decide (k < 12)); [done|]. exfalso. apply Hb. rewrite <- E. unfold slot.
    destruct (Z.ltb_spec k 13); [|by rewrite Ha]. by replace k with NDIRECT by (unfold NDIRECT; lia).
  - apply trunc_order_all. rewrite elem_of_seqZ in Hk. change (0 + NDIRECT) with 12 in Hk. change NSLOT with 141. lia.
Qed.

Lemma slot_emptied v d k : slot v (emptied d) k = 0.
Proof.
  assert (∀ j, addr_of (emptied d) j = 0) as H.
  { intros j. unfold addr_of, emptied. cbn [d_addrs]. rewrite nth_lookup.
    destruct (replicate 13 0 !! Z.to_nat j) eqn:E; [|done]. by apply lookup_replicate in E as [-> _]. }
  unfold slot. rewrite !H. by destruct (k <? 13).
Qed.

Lemma inode_wf_emptied v d : inode_wf sb v (emptied d).
Proof.
  split; intros; rewrite ?slot_emptied in *; try done. cbn in *. unfold BSIZE in *. lia.
Qed.

Lemma itrunc_wp s Q :
  tx_ok (f_l s) c0 → f_sb s = sb → fs_wf sb (vw c0) → f_inodes s !! ip = Some i → 0 ≤ i_inum i < sb_ninodes sb →
  (∀ l c, tx_ok l (put_inode sb (i_inum i) (emptied d0) c) → freed c0 (ptrs0 trunc_order) c →
     Q tt (with_inode ip i (emptied d0) l s)) →
  wp (itrunc iderw ip) Q s.
Proof using Hds Ly I0 Hdev Hh0 R0 Ho.
  intros T Es W Hi Hin HQ. pose proof (iw_len _ _ _ I0) as Hl. pose proof (lookup_lt_Some _ _ _ Hi) as Hlt.
  assert (∀ b, fkey b ∈ c_dirty c0 ∨ vw c0 b = c_disk c0 (fkey b)) as Hcl.
  { intros b. eapply tx_clean; [exact T|by rewrite Hh0]. }
  set (d1 := foldl (λ d k, set_addr k 0 d) d0 (seqZ 0 NDIRECT)).
  assert (length (d_addrs d1) = 13%nat) as Hl1 by by rewrite <- Hl; apply foldl_addrs.
  assert (addr_of d1 NDIRECT = addr_of d0 NDIRECT) as Ea.
  { apply foldl_addr_other; [|done|rewrite elem_of_seqZ; lia|by vm_compute]. apply Forall_forall. intros k Hk%elem_of_seqZ. unfold NDIRECT in Hk. lia. }
  (* the state after the pointers, and what is left to do there *)
  assert (∀ l c, tx_ok l c → freed c0 (ptrs0 trunc_order) c →
    wp (mod_d ip (set_size 0);; iupdate iderw ip) Q (with_inode ip i (set_addr NDIRECT 0 d1) l s)) as Hend.
  { intros l c T' F. apply wp_bind. eapply mod_d_wp; [cbn; by apply list_lookup_insert_eq|]. cbn [i_d set_i_d].
    unfold d1. rewrite emptied_addrs by done. unfold with_inode, set_inodes. cbn [f_inodes f_l f_sb f_cwd].
    rewrite list_insert_insert_eq. eapply (iupdate_wp iderw Hds P sb Ly _ c ip (set_i_d (emptied d0) i)); try done.
    - split; [done|done|apply F|cbn; by apply list_lookup_insert_eq|done|apply inode_wf_emptied].
    - by rewrite (fr_held _ _ _ _ F).
    - eapply freed_room; [done|]. destruct R0. split; lia.
    - intros l' T2. by apply (HQ l' c). }
  unfold itrunc. apply wp_bind. eapply (trunc_direct_loop _ [] s c0 d0); [done|done|by apply freed_refl|by destruct i|done|done| | |].
  { apply NoDup_seqZ. } { apply Forall_forall. intros k Hk%elem_of_seqZ. unfold NDIRECT in *. lia. }
  cbn [app]. fold d1. intros l c T1 F1. apply wp_bind. eapply get_inode_wp; [cbn; by apply list_lookup_insert_eq|].
  cbn [i_d set_i_d i_dev]. cbv zeta. rewrite Ea, Hdev. apply wp_bind.
  destruct (Z.eqb_spec (addr_of d0 NDIRECT) 0) as [E0|E0]; cbn [negb when].
  - apply wp_ret. rewrite <- ptrs_direct in F1 by done. rewrite <- (set_addr_null d1 NDIRECT); [by eapply Hend|done|by vm_compute|congruence].
  - eapply (trunc_ind_wp (with_inode ip i d1 l s) c d1); [done|done|done|cbn; by apply list_lookup_insert_eq|done|done|].
    intros l2 c2 T2 F2. specialize (Hend l2 c2 T2 F2). unfold with_inode in *. cbn [f_inodes f_sb f_cwd] in *.
    by rewrite list_insert_insert_eq.
Qed.
End trunc.

(** ** The last reference to a file without links *)

(** A free inode, with the fields a deleted file leaves in it. *)
Definition cleared (d : dinode) : dinode := set_type 0 (emptied d).

(** The disk after file [inum], whose inode was [d], is deleted: its inode is
    free, its blocks are free and no others, and the data blocks and the
    inodes of other files are as they were. *)
Record deleted (sb : superblock) (c : cache) (inum : Z) (d : dinode) (c' : cache) : Prop := {
  de_inode : disk_inode sb (vw c') inum = cleared d;
  de_used : ∀ b, dstart sb ≤ b < sb_size sb →
    used sb (vw c') b ↔ used sb (vw c) b ∧ ∀ k, 0 ≤ k < NSLOT → slot (vw c) d k ≠ b;
  de_data : ∀ b, dstart sb ≤ b → vw c' b = vw c b;
  de_others : ∀ inum', 0 ≤ inum' < sb_ninodes sb → inum' ≠ inum →
    disk_inode sb (vw c') inum' = disk_inode sb (vw c) inum';
  de_wf : fs_wf sb (vw c');
  de_held : c_held c' = c_held c;
}.

Section delete.
Context (iderw : nat → M bst ()) `{!DiskDriver iderw} (Hds : disk_size ≤ 2 ^ 31).
Context (P : txp) (sb : superblock) (Ly : layout iderw P sb).
Notation tx_ok := (tx_ok iderw P).
Notation on_inode := (on_inode iderw P sb).
Notation room := (room P sb).

Lemma emptied_ok d t : dinode_ok d → short t → dinode_ok (set_type t (emptied d)).
Proof. intros [H1 H2 H3 H4 H5 H6 H7] Ht. split; try done. apply Forall_replicate. lia. Qed.

Lemma disk_inode_same v v' inum : 0 ≤ inum < sb_ninodes sb → (∀ b, b < sb_bmapstart sb → v' b = v b) →
  disk_inode sb v' inum = disk_inode sb v inum.
Proof using Hds Ly. intros Hi Hv. unfold disk_inode. rewrite Hv; [done|]. by apply (IBLOCK_range _ Hds P sb Ly). Qed.

(** What [itrunc] and the two updates of the inode amount to. *)
Lemma deleted_put c inum d c1 :
  0 ≤ inum < sb_ninodes sb → inode_wf sb (vw c) d → dinode_ok d → freed sb c (ptrs (vw c) d trunc_order) c1 →
  deleted sb c inum d (put_inode sb inum (cleared d) (put_inode sb inum (emptied d) c1)).
Proof using Hds Ly.
  intros Hi I D F. pose proof (dstart_pos _ P sb Ly) as Hdp.
  assert (dinode_ok (emptied d)) as D1 by (apply (emptied_ok d (d_type d)); [done|apply D]).
  assert (dinode_ok (cleared d)) as D2 by (by apply emptied_ok; [|by vm_compute]).
  pose proof (fr_wf _ _ _ _ F) as W1. pose proof (fs_wf_put_inode _ Hds P sb Ly c1 inum (emptied d) W1 Hi D1) as W2.
  split.
  - by apply (put_inode_same _ Hds P sb Ly).
  - intros b Hb. rewrite !(used_put_inode _ Hds P sb Ly), (fr_used _ _ _ _ F), elem_of_ptrs by lia.
    split; intros [Hu Hk]; (split; [done|]).
    + intros k Hkr E. apply Hk. split; [lia|]. exists k. by rewrite trunc_order_all.
    + intros [_ (k & Hk' & E)]. by apply (Hk k); [apply trunc_order_all|].
  - intros b Hb. rewrite !(vw_put_inode _ Hds P sb Ly) by (done || lia). apply (fr_view _ _ _ _ F). by right.
  - intros inum' Hi' Hne. rewrite !(put_inode_other _ Hds P sb Ly) by done. apply disk_inode_same; [done|].
    intros b Hb. apply (fr_view _ _ _ _ F). by left.
  - by apply (fs_wf_put_inode _ Hds P sb Ly).
  - cbn. apply F.
Qed.

(** C18. [iput] of the last reference to a file without links deletes it: the
    inode on disk is free, exactly the blocks of the file (direct, indirect
    and the indirect block itself) become free in the map, no data block and
    no other inode changes, and the cache entry is unused, unlocked and
    invalid, with all others as they were. *)
Theorem iput_deletes s c ip i :
  on_inode s c ip i → c_held c = ∅ → room 2 c → 1 ≤ x_out P → 0 ≤ i_inum i < sb_ninodes sb → dinode_ok (i_d i) →
  sl_locked (i_lock i) = false → i_valid i = true → d_nlink (i_d i) = 0 → i_ref i = 1 →
  wp (iput iderw ip) (λ _ s', ∃ l c',
    s' = Fsst l (f_sb s) (<[ip := Ino 1 (i_inum i) 0 (Slk false 0) false (cleared (i_d i))]> (f_inodes s)) (f_cwd s) ∧
    tx_ok l c' ∧ deleted sb c (i_inum i) (i_d i) c') s.
Proof using Hds Ly.
  intros [T Es W Hi Hdev I] Hh R Ho Hin D Hl Hv Hn Hr. pose proof (lookup_lt_Some _ _ _ Hi) as Hlt.
  pose proof (ndirty_spread sb c) as Hns. pose proof R as [R1 R2]. assert (0 ≤ nheld c) by (unfold nheld; lia).
  unfold iput. apply wp_bind. eapply (inode_acquire_wp iderw P sb s c); [split; try done; lia|done|done|].
  apply wp_bind. eapply get_inode_wp; [by apply list_lookup_insert_eq|]. cbn [i_valid i_d i_ref set_i_lock].
  rewrite Hv, Hn, Hr. cbn [andb Z.eqb when]. change (1 =? 1) with true. cbn [when].
  set (i1 := set_i_lock (Slk true (x_pid P)) i). apply wp_bind, wp_bind.
  eapply (itrunc_wp iderw Hds P sb Ly ip i1 c); [exact I|done|done|done|done|exact T|done|done|by apply list_lookup_insert_eq|done|].
  intros l c1 T1 F. unfold with_inode. cbn [f_inodes f_sb f_cwd set_inodes]. rewrite list_insert_insert_eq.
  apply wp_bind. eapply mod_d_wp; [by apply list_lookup_insert_eq|]. unfold set_inodes. cbn [f_inodes f_sb f_cwd f_l].
  rewrite list_insert_insert_eq. change (set_type 0 (i_d (set_i_d (emptied (i_d i1)) i1))) with (cleared (i_d i)).
  set (i2 := set_i_d (cleared (i_d i)) (set_i_d (emptied (i_d i1)) i1)).
  assert (dinode_ok (emptied (i_d i))) as D1 by (apply (emptied_ok (i_d i) (d_type (i_d i))); [done|apply D]).
  pose proof (deleted_put c (i_inum i) (i_d i) c1 Hin I D F) as Del.
  apply wp_bind. eapply (iupdate_wp iderw Hds P sb Ly _ (put_inode sb (i_inum i) (emptied (i_d i)) c1) ip i2).
  - split; [exact T1|done|apply (fs_wf_put_inode _ Hds P sb Ly); [apply F|done|done]|cbn; by apply list_lookup_insert_eq|done|].
    exact (inode_wf_emptied sb _ (set_type 0 (i_d i))).
  - cbn. by rewrite (fr_held _ _ _ _ F).
  - eapply (room_le P sb 1 1 c _ {[fkey (IBLOCK (i_inum i) sb)]}); [|by rewrite size_singleton| |done].
    + unfold put_inode. by rewrite spread_upd, (fr_spread _ _ _ _ F).
    + unfold nheld. cbn. by rewrite (fr_held _ _ _ _ F).
  - done.
  - done.
  - intros l2 T2. eapply mod_inode_wp; [cbn; by apply list_lookup_insert_eq|]. cbn [f_inodes set_fl set_inodes]. rewrite list_insert_insert_eq.
    apply wp_bind. eapply mod_inode_wp; [cbn; by apply list_lookup_insert_eq|]. cbn [f_inodes set_fl set_inodes]. rewrite list_insert_insert_eq.
    eapply mod_inode_wp; [cbn; by apply list_lookup_insert_eq|]. cbn [f_inodes set_fl set_inodes]. rewrite list_insert_insert_eq.
    eexists l2, _. split; [|split; [exact T2|exact Del]]. clear -Hr Hdev. subst i2 i1.
    destruct i. cbn in *. by subst.
Qed.
End delete.

(** ** A file written, unlinked and closed *)

(** The link is removed and the lock released, as [unlink] does. *)
Definition unlinked (i : inode) : inode := set_i_lock (Slk false 0) (set_i_d (set_nlink 0 (i_d i)) i).

Lemma iput_deletes_witness :
  wp (img_boot;; writei drv (λ _, None) 0 img_src 0;; mod_inode 0 unlinked;; iput drv 0)
    (λ _ s', ∃ i c, f_inodes s' !! 0%nat = Some i ∧ i_ref i = 0 ∧ i_valid i = false ∧
       d_type (disk_inode img_sb (vw c) 2) = 0) img_start.
Proof.
  apply img_boot_wp. intros s c O Ly Ez Eo Hh Hd Hv. pose proof O as [T Es W Hi _ I].
  pose proof (lookup_lt_Some _ _ _ Hi) as Hlt. apply wp_bind.
  eapply (writei_wp drv demo_ds _ img_sb Ly _ s c 0 img_inode img_src 0); [exact O|done|lia|apply Forall_replicate; lia|lia|by vm_compute|by vm_compute|by apply img_file_ok| | |].
  { apply img_can_write; [done..|]; by vm_compute. }
  { intros Hx. exfalso. vm_compute in Hx. destruct Hx; congruence. }
  intros l c' d' _ _ [F1 [F2 F3] _ _ _ _ _ F7 F8] T' Hsp.
  apply wp_bind. eapply mod_inode_wp; [cbn; by apply list_lookup_insert_eq|].
  cbn [with_inode f_inodes set_inodes f_l f_sb f_cwd]. unfold set_inodes. cbn [f_inodes f_l f_sb f_cwd]. rewrite list_insert_insert_eq.
  assert (nspread img_sb c = 1) as E1 by (unfold nspread, spread; rewrite Hd; by vm_compute).
  assert (nblocks 0 (Z.of_nat (length img_src)) = 2) as E2 by by vm_compute. rewrite E1, E2 in Hsp.
  eapply wp_mono.
  - apply (iput_deletes drv demo_ds _ img_sb Ly _ c' 0 (unlinked (set_i_d d' img_inode))).
    + destruct F1 as [_ J _ _]. destruct J as [J1 J2 J3 J4 J5].
      split; [exact T'|exact Es|exact F7|by apply list_lookup_insert_eq|done|by split].
    + by rewrite F8.
    + split; [rewrite Ez; lia|]. unfold nheld. rewrite F8, Hh, map_size_empty. change (Z.of_nat NBUF) with 30. lia.
    + lia.
    + by vm_compute.
    + destruct (fo_fields _ _ _ _ F1). by split.
    + done.
    + done.
    + done.
    + done.
  - intros [] s' (l' & c2 & -> & T2 & Del). eexists _, c2. split; [cbn [f_inodes]; apply list_lookup_insert_eq; by rewrite length_insert|].
    split; [done|]. split; [done|]. pose proof (de_inode _ _ _ _ _ Del) as E. change (i_inum (unlinked (set_i_d d' img_inode))) with 2 in E. by rewrite E.
Defined.
