(* ===== verification/FsPath.v ===== *)
(** Path names (fs.c): [namex] walks through the components of its path, one
    directory after the other, and ends. *)

From S2P Require Import Prelude Mmu Block Ide Bio Log Fs.

(** ** Components *)

(** The pieces of a path between slashes. *)
Fixpoint split_slash (path : list Z) : list (list Z) :=
  match path with
  | [] => [[]]
  | c :: path' =>
    if c =? slash then [] :: split_slash path' else
    match split_slash path' with
    | [] => [[c]]
    | e :: l => (c :: e) :: l
    end
  end.

(** The names a path goes through: the pieces that are not empty, cut to the
    length of a directory entry. *)
Definition nonempty (e : list Z) : bool := negb (bool_decide (e = [])).
Definition elems (path : list Z) : list (list Z) := take DIRSIZ <$> filter nonempty (split_slash path).

Lemma split_slash_cons path : ∃ e l, split_slash path = e :: l.
Proof.
  destruct path as [|c path]; cbn; [by eauto|]. destruct (c =? slash); [by eauto|]. destruct (split_slash path); eauto.
Qed.

Lemma elems_slash path : elems (slash :: path) = elems path.
Proof. done. Qed.

Lemma elems_skip path : elems (skip_slashes path) = elems path.
Proof.
  induction path as [|c path IH]; [done|]. cbn [skip_slashes]. destruct (Z.eqb_spec c slash) as [->|]; [|done]. by rewrite IH.
Qed.

Lemma skip_slashes_head path c rest : skip_slashes path = c :: rest → c ≠ slash.
Proof. induction path as [|d path IH]; cbn; [done|]. destruct (Z.eqb_spec d slash); [done|]. by intros [= <- _]. Qed.

Lemma length_skip path : (length (skip_slashes path) ≤ length path)%nat.
Proof. induction path as [|c path IH]; cbn; [done|]. destruct (c =? slash); cbn; lia. Qed.

(** [split_elem] takes the first piece. *)
Lemma split_elem_spec path e r :
  split_elem path = (e, r) →
  ∃ l, split_slash path = e :: l ∧ l = match r with [] => [] | _ :: r' => split_slash r' end ∧
       (length e + length r = length path)%nat ∧ (r = [] ∨ ∃ r', r = slash :: r').
Proof.
  revert e r. induction path as [|c path IH]; intros e r; cbn [split_elem split_slash].
  - intros [= <- <-]. exists []. split_and!; [done|done|done|by left].
  - destruct (Z.eqb_spec c slash) as [->|].
    + intros [= <- <-]. exists (split_slash path). split_and!; [done|done|done|]. right. by exists path.
    + destruct (split_elem path) as [e' r'] eqn:E. intros [= <- <-]. destruct (IH _ _ eq_refl) as (l & -> & -> & Hl & Hr).
      eexists. split; [done|]. split; [done|]. split; [cbn; lia|done].
Qed.

(** What [skipelem] returns: the first component, and a path with the rest. *)
Lemma skipelem_spec path :
  match skipelem path with
  | None => elems path = []
  | Some (rest, e) => elems path = e :: elems rest ∧ (length rest < length path)%nat ∧ (rest = [] ↔ elems rest = [])
  end.
Proof.
  unfold skipelem. destruct (skip_slashes path) as [|c p] eqn:Es.
  { by rewrite <- elems_skip, Es. }
  pose proof (skip_slashes_head _ _ _ Es) as Hc. pose proof (length_skip path) as Hlen. rewrite Es in Hlen. cbn in Hlen.
  destruct (split_elem (c :: p)) as [e r] eqn:Ee. destruct (split_elem_spec _ _ _ Ee) as (l & El & Hl & Hlr & Hr).
  assert (e ≠ []) as Hne.
  { cbn in Ee. rewrite (proj2 (Z.eqb_neq _ _)) in Ee by done. destruct (split_elem p). by injection Ee as <- _. }
  assert (elems path = take DIRSIZ e :: elems r) as Hpath.
  { rewrite <- elems_skip, Es. unfold elems at 1. rewrite El. cbn [filter list_filter]. rewrite decide_True.
    - cbn. f_equal. destruct Hr as [->|[r' ->]]; [by subst|]. subst. by rewrite elems_slash.
    - unfold nonempty. by rewrite bool_decide_eq_false_2. }
  rewrite elems_skip. split; [done|]. split.
  - pose proof (length_skip r). destruct e; [done|]. cbn in Hlr. lia.
  - rewrite <- (elems_skip r). split; [by intros ->|]. intros H.
    destruct (skip_slashes r) as [|d q] eqn:Er; [done|]. exfalso. pose proof (skip_slashes_head _ _ _ Er).
    revert H. unfold elems. cbn [split_slash]. rewrite (proj2 (Z.eqb_neq _ _)) by done.
    destruct (split_slash_cons q) as (e1 & l1 & ->). cbn [filter list_filter]. rewrite decide_True; [done|]. done.
Qed.

(** ** Walking *)

Section walk.
Context (iderw : nat → M bst ()) (dev_read : Z → option (nat → Z → M fsst (Z * list Z))).

(** From the inode [ip] through the names [l]; with [nameiparent] the walk
    stops at the directory of the last name.  [name] is the name before. *)
Fixpoint walk (ip : nat) (l : list (list Z)) (name : list Z) (nameiparent : bool) : M fsst (option nat * list Z) :=
  match l with
  | [] => if nameiparent then iput iderw ip;; mret (None, name) else mret (Some ip, name)
  | e :: l' =>
    ilock iderw ip;;
    i ← get_inode ip;
    if negb (d_type (i_d i) =? T_DIR) then iunlockput iderw ip;; mret (None, e) else
    if nameiparent && bool_decide (l' = []) then iunlock ip;; mret (Some ip, e) else
    r ← dirlookup iderw dev_read ip e;
    match r with
    | None => iunlockput iderw ip;; mret (None, e)
    | Some (next, _) => iunlockput iderw ip;; walk next l' e nameiparent
    end
  end.

Lemma namex_loop_walk fuel ip path name np s :
  (length path ≤ fuel)%nat → namex_loop iderw dev_read fuel ip path name np s = walk ip (elems path) name np s.
Proof.
  revert ip path name s. induction fuel as [|fuel IH]; intros ip path name s Hf; cbn [namex_loop];
    pose proof (skipelem_spec path) as Hs; destruct (skipelem path) as [[rest e]|]; try (by rewrite Hs).
  { destruct Hs as (_ & Hl & _). lia. }
  destruct Hs as (-> & Hl & Hnil). cbn [walk]. apply bind_ext. intros [] s1. apply bind_ext. intros i s2.
  destruct (negb _); [done|]. rewrite (bool_decide_ext _ _ Hnil). destruct (np && _); [done|].
  apply bind_ext. intros [[next off]|] s3; [|done]. apply bind_ext. intros [] s4. apply IH. lia.
Qed.

(** Path resolution.  [namex] ends on every path and does what the walk
    through the path's components does: leading, trailing and repeated
    slashes make no difference, every component is cut to 14 characters, and
    nameiparent stops at the directory that contains the last component,
    whose name it returns. *)
Theorem namex_walks path np s :
  namex iderw dev_read path np s =
  (cwd ← gets f_cwd;
   ip ← (if bool_decide (head path = Some slash) then iget ROOTDEV ROOTINO else idup cwd);
   walk ip (elems path) [] np) s.
Proof.
  unfold namex. apply bind_ext. intros cwd s1.
  assert ((match path with c :: _ => if c =? slash then iget ROOTDEV ROOTINO else idup cwd | [] => idup cwd end) =
    if bool_decide (head path = Some slash) then iget ROOTDEV ROOTINO else idup cwd) as ->.
  { destruct path as [|c path]; [done|]. cbn. destruct (Z.eqb_spec c slash) as [->|].
    - by rewrite bool_decide_eq_true_2.
    - rewrite bool_decide_eq_false_2; [done|]. congruence. }
  apply bind_ext. intros ip s2. by apply namex_loop_walk.
Qed.
End walk.
