(* ===== verification/FsDir.v ===== *)
(** Directories and path names (fs.c): [dirlookup] finds the first entry with
    the name, and [namei] resolves a path through the directories on disk
    without leaking a reference. *)

From S2P Require Import Prelude Mmu Block Ide Bio Log LogSpec LogCrash LogOps Tx Fs FsAlloc FsData FsRw FsInode.
From S2P Require Import FsIcache FsPath.

(** ** Names *)

(** [namecmp] on names without NUL bytes compares their first 14 bytes. *)
Lemma strncmp_take n p q m :
  0 ∉ p → 0 ∉ q → Forall (λ x, 0 ≤ x) p → Forall (λ x, 0 ≤ x) q →
  strncmp_bytes n p (take n q ++ replicate m 0) = 0 ↔ take n p = take n q.
Proof.
  revert p q. induction n as [|n IH]; intros p q Hp Hq Fp Fq; [done|]. cbn [strncmp_bytes].
  destruct p as [|a p], q as [|b q]; cbn [hd tail take app].
  - split; [done|]. intros _. by destruct m.
  - apply Forall_cons in Fq as [Hb _]. assert (b ≠ 0) by (intros ->; apply Hq; by left). cbn. split; [lia|done].
  - assert (a ≠ 0) by (intros ->; apply Hp; by left). assert (hd 0 (replicate m 0) = 0) as -> by by destruct m.
    rewrite (proj2 (Z.eqb_neq a 0)) by done. cbn. split; [lia|done].
  - assert (a ≠ 0) by (intros ->; apply Hp; by left). rewrite (proj2 (Z.eqb_neq a 0)) by done. cbn [negb andb].
    apply Forall_cons in Fp as [_ Fp]. apply Forall_cons in Fq as [_ Fq]. destruct (Z.eqb_spec a b) as [->|].
    + rewrite IH; [|set_solver..|done|done]. split; [by intros ->|by intros [= ->]].
    + split; [lia|]. by intros [= ? _].
Qed.

Lemma take_name (name : list Z) : take DIRSIZ (take DIRSIZ name) = take DIRSIZ name.
Proof. by rewrite take_take, Nat.min_id. Qed.

Definition plain (name : list Z) : Prop := 0 ∉ name ∧ Forall (λ x, 0 ≤ x) name.

Lemma namecmp_field a b :
  plain a → plain b → namecmp (take DIRSIZ a) (name_field b) = 0 ↔ take DIRSIZ a = take DIRSIZ b.
Proof.
  intros [Ha Fa] [Hb Fb]. unfold namecmp, name_field. rewrite strncmp_take; [by rewrite take_name| |done|by apply Forall_take|done].
  intros H. apply Ha. by eapply subseteq_take.
Qed.

(** An entry as it is stored. *)
Lemma load_store_dirent name inum :
  0 ≤ inum < 2 ^ 16 → load_dirent (store_dirent (Dirent inum (name_field name))) = Dirent inum (name_field name).
Proof.
  intros H. unfold load_dirent, store_dirent. cbn [de_inum de_name]. f_equal.
  - unfold get16, bytes_at. rewrite drop_0. rewrite take_app_length' by by rewrite length_to_le. by apply of_to_le.
  - unfold bytes_at. rewrite drop_app_length' by by rewrite length_to_le. apply take_ge.
    unfold name_field. rewrite length_app, length_take, length_replicate. lia.
Qed.

(** ** Directories on disk *)

(** The entries of a directory. *)
Definition dents (v : Z → block) (d : dinode) : list dirent :=
  (λ k, load_dirent (file_bytes v d (k * 16) 16)) <$> seqZ 0 (d_size d / 16).

(** The inode of the first entry in use with the name. *)
Definition is_entry (name : list Z) (de : dirent) : bool := negb (de_inum de =? 0) && (namecmp name (de_name de) =? 0).
Fixpoint dir_find (name : list Z) (es : list dirent) : option Z :=
  match es with
  | [] => None
  | de :: es' => if is_entry name de then Some (de_inum de) else dir_find name es'
  end.

(** The inode a path leads to from inode [inum]. *)
Fixpoint resolve (sb : superblock) (v : Z → block) (inum : Z) (names : list (list Z)) : option Z :=
  match names with
  | [] => Some inum
  | e :: names' =>
    let d := disk_inode sb v inum in
    if d_type d =? T_DIR then
      match dir_find e (dents v d) with Some k => resolve sb v k names' | None => None end
    else None
  end.

(** Inodes that belong to a tree: allocated, linked and well-formed, and the
    entries of directories lead to inodes of the tree. *)
Record in_tree (sb : superblock) (v : Z → block) (T : Z → Prop) (inum : Z) : Prop := {
  it_range : 0 ≤ inum < sb_ninodes sb;
  it_type : d_type (disk_inode sb v inum) ≠ 0;
  it_link : d_nlink (disk_inode sb v inum) ≠ 0;
  it_wf : inode_wf sb v (disk_inode sb v inum);
  it_dir : d_type (disk_inode sb v inum) = T_DIR → d_size (disk_inode sb v inum) mod 16 = 0 ∧
    ∀ de, de ∈ dents v (disk_inode sb v inum) → de_inum de ≠ 0 → T (de_inum de);
}.

Lemma dir_find_In name es k : dir_find name es = Some k → ∃ de, de ∈ es ∧ de_inum de = k ∧ k ≠ 0.
Proof.
  induction es as [|de es IH]; cbn; [done|]. destruct (is_entry name de) eqn:E.
  - intros [= <-]. exists de. split; [by left|]. split; [done|]. unfold is_entry in E. apply andb_true_iff in E as [E _].
    by apply negb_true_iff, Z.eqb_neq in E.
  - intros (de' & H1 & H2)%IH. exists de'. split; [by right|done].
Qed.

Lemma dir_find_at name es1 de es2 :
  (∀ de', de' ∈ es1 → is_entry name de' = false) → is_entry name de = true → dir_find name (es1 ++ de :: es2) = Some (de_inum de).
Proof.
  induction es1 as [|x es1 IH]; intros H1 H2; cbn [app dir_find]; [by rewrite H2|].
  rewrite H1 by by left. apply IH; [|done]. intros de' Hd. apply H1. by right.
Qed.

Lemma is_entry_field name a inum :
  plain name → plain a → inum ≠ 0 →
  is_entry (take DIRSIZ name) (Dirent inum (name_field a)) = bool_decide (take DIRSIZ name = take DIRSIZ a).
Proof.
  intros Hn Ha Hi. unfold is_entry. cbn [de_inum de_name]. rewrite (proj2 (Z.eqb_neq _ _)) by done. cbn [negb andb].
  apply Bool.eq_true_iff_eq. rewrite Z.eqb_eq, bool_decide_eq_true. by apply namecmp_field.
Qed.

Section dir.
Context (iderw : nat → M bst ()) `{!DiskDriver iderw} (Hds : disk_size ≤ 2 ^ 31).
Context (P : txp) (sb : superblock) (Ly : layout iderw P sb).
Context (dev_read : Z → option (nat → Z → M fsst (Z * list Z))).
Notation pid := (x_pid P).
Notation quiet := (quiet iderw P sb).

Lemma read_dirent_wp s c dp i k msg Q :
  quiet s c → f_inodes s !! dp = Some i → i_dev i = 1 → inode_wf sb (vw c) (i_d i) → d_type (i_d i) = T_DIR →
  0 ≤ k → k * 16 + 16 ≤ d_size (i_d i) →
  (∀ l, tx_ok iderw P l c → Q (load_dirent (file_bytes (vw c) (i_d i) (k * 16) 16)) (set_fl l s)) →
  wp (read_dirent iderw dev_read dp (k * 16) msg) Q s.
Proof using Hds Ly.
  intros [T Es W Hh Hd] Hi Hdev I Ht Hk Hsz HQ. pose proof (iw_size _ _ _ I) as Hmax. change (MAXFILE * BSIZE) with 71680 in Hmax.
  unfold read_dirent. apply wp_bind. eapply (readi_wp iderw Hds P sb Ly); [by split|done|done|by rewrite Ht|lia|lia|lia|].
  intros l n' _ _ Tl. assert (n' = 16) as -> by (unfold n'; lia). cbn [fst snd]. apply wp_ret. by apply HQ.
Qed.

Lemma dirlookup_loop_wp s c dp i lk name ks Q :
  quiet s c → icache sb (vw c) pid lk (f_inodes s) → f_inodes s !! dp = Some i → i_dev i = 1 → inode_wf sb (vw c) (i_d i) →
  d_type (i_d i) = T_DIR → (nlive (counts (f_inodes s)) < length (f_inodes s))%nat →
  (∀ k, k ∈ ks → 0 ≤ k ∧ k * 16 + 16 ≤ d_size (i_d i)) →
  match dir_find name ((λ k, load_dirent (file_bytes (vw c) (i_d i) (k * 16) 16)) <$> ks) with
  | None => ∀ l, tx_ok iderw P l c → Q None (set_fl l s)
  | Some inum => ∀ l ip j l' off, tx_ok iderw P l c → l' !! ip = Some j → i_inum j = inum → 0 < i_ref j →
      icache sb (vw c) pid lk l' → keeps (f_inodes s) l' →
      (∀ k, irefs l' k = irefs (f_inodes s) k + (if decide (k = inum) then 1 else 0)) →
      counts l' = bump ip 1 (counts (f_inodes s)) → Q (Some (ip, off)) (Fsst l (f_sb s) l' (f_cwd s))
  end →
  wp (dirlookup_loop iderw dev_read dp name ((λ k, k * 16) <$> ks)) Q s.
Proof using Hds Ly.
  revert s. induction ks as [|k ks IH]; intros s Qt IC Hi Hdev I Ht Hn Hks HQ; cbn [fmap list_fmap dirlookup_loop dir_find] in *.
  { apply wp_ret. specialize (HQ (f_l s) (qt_tx _ _ _ _ _ Qt)). by destruct s. }
  destruct (Hks k) as [Hk0 Hk]; [by left|]. apply wp_bind. eapply read_dirent_wp; [done..|]. intros l Tl.
  set (de := load_dirent _) in *. unfold is_entry in HQ.
  assert (quiet (set_fl l s) c) as Qt' by (destruct Qt; by split).
  destruct (de_inum de =? 0) eqn:E1; [|destruct (namecmp name (de_name de) =? 0) eqn:E2]; cbn [negb andb] in HQ.
  1,3: apply IH; [done..|intros; apply Hks; by right|]; destruct (dir_find _ _); [intros; by eapply HQ|intros l' Tl'; exact (HQ l' Tl')].
  apply wp_bind. eapply get_inode_wp; [done|]. rewrite Hdev. apply wp_bind. eapply (iget_wp sb (vw c) pid lk (set_fl l s)); [done|done|].
  intros ip j l' Hj Hin Hr IC' K R C. apply wp_ret. by eapply (HQ l ip j l').
Qed.

(** [dirlookup] returns the first entry with the name, with a new reference
    to its inode, or nothing. *)
Lemma dirlookup_wp s c dp i lk name Q :
  quiet s c → icache sb (vw c) pid lk (f_inodes s) → f_inodes s !! dp = Some i → i_dev i = 1 → inode_wf sb (vw c) (i_d i) →
  d_type (i_d i) = T_DIR → d_size (i_d i) mod 16 = 0 → (nlive (counts (f_inodes s)) < length (f_inodes s))%nat →
  match dir_find name (dents (vw c) (i_d i)) with
  | None => ∀ l, tx_ok iderw P l c → Q None (set_fl l s)
  | Some inum => ∀ l ip j l' off, tx_ok iderw P l c → l' !! ip = Some j → i_inum j = inum → 0 < i_ref j →
      icache sb (vw c) pid lk l' → keeps (f_inodes s) l' →
      (∀ k, irefs l' k = irefs (f_inodes s) k + (if decide (k = inum) then 1 else 0)) →
      counts l' = bump ip 1 (counts (f_inodes s)) → Q (Some (ip, off)) (Fsst l (f_sb s) l' (f_cwd s))
  end →
  wp (dirlookup iderw dev_read dp name) Q s.
Proof using Hds Ly.
  intros Qt IC Hi Hdev I Ht Hm Hn HQ. unfold dirlookup. apply wp_bind. eapply get_inode_wp; [done|]. rewrite Ht.
  change (negb (T_DIR =? T_DIR)) with false. cbv iota. unfold dir_offs.
  assert ((d_size (i_d i) + 15) / 16 = d_size (i_d i) / 16) as ->.
  { pose proof (Z.div_mod (d_size (i_d i)) 16). symmetry. apply (Z.div_unique _ _ _ 15); lia. }
  eapply dirlookup_loop_wp; [done..| |exact HQ]. intros k Hk%elem_of_seqZ. pose proof (Z.div_mod (d_size (i_d i)) 16). lia.
Qed.

(** ** Paths *)

(** One reference to inode [k]. *)
Definition one (k x : Z) : Z := if decide (x = k) then 1 else 0.

Context (c : cache) (T : Z → Prop) (HT : ∀ k, T k → in_tree sb (vw c) T k).

Lemma irefs_less l ip i x :
  l !! ip = Some i → irefs (<[ip := set_i_ref (i_ref i - 1) (set_i_lock (Slk false 0) i)]> l) x = irefs l x - one (i_inum i) x.
Proof.
  intros Hi. rewrite (irefs_insert _ _ i) by done. unfold ref_to, one. cbn.
  destruct (Z.eqb_spec (i_inum i) x), (decide (x = i_inum i)); lia || congruence.
Qed.

Lemma iunlockput_wp s ip i Q :
  quiet s c → icache sb (vw c) pid (Some ip) (f_inodes s) → f_inodes s !! ip = Some i → T (i_inum i) →
  (∀ l', icache sb (vw c) pid None l' → length l' = length (f_inodes s) → counts l' = bump ip (-1) (counts (f_inodes s)) →
     (∀ x, irefs l' x = irefs (f_inodes s) x - one (i_inum i) x) →
     (∀ jp j, jp ≠ ip → f_inodes s !! jp = Some j → l' !! jp = Some j) →
     l' !! ip = Some (set_i_ref (i_ref i - 1) (set_i_lock (Slk false 0) i)) → Q tt (set_inodes l' s)) →
  wp (iunlockput iderw ip) Q s.
Proof using HT.
  intros Qt IC Hi Ht HQ. pose proof (lookup_lt_Some _ _ _ Hi). destruct (ic_held _ _ _ _ _ IC ip i Hi eq_refl) as [Hr _].
  apply wp_bind. eapply iunlock_wp; [done..|]. intros l1 IC1. assert (l1 !! ip = Some (set_i_lock (Slk false 0) i)) as H1 by by apply list_lookup_insert_eq.
  eapply (iput_wp _ _ _ None); [by destruct Qt; split|done|done|done|done| |].
  { cbn. intros Hv. rewrite (ic_valid _ _ _ _ _ IC ip i Hi Hr Hv). by apply HT. }
  cbn [f_inodes set_inodes]. unfold l1. rewrite list_insert_insert_eq. intros IC2.
  apply (HQ (<[ip := set_i_ref (i_ref i - 1) (set_i_lock (Slk false 0) i)]> (f_inodes s))); [done|apply length_insert| | | |].
  - eapply counts_insert; [done|]. cbn. lia.
  - intros x. by apply irefs_less.
  - intros jp j Hne Hj. by rewrite list_lookup_insert_ne.
  - by apply list_lookup_insert_eq.
Qed.

(** Leaving directory [ip] for the entry [jp] that was found in it. *)
Lemma step_over s ip i jp j Q :
  quiet s c → icache sb (vw c) pid (Some ip) (f_inodes s) → f_inodes s !! ip = Some i → T (i_inum i) →
  f_inodes s !! jp = Some j → 0 < i_ref j → (jp = ip → 1 < i_ref j) →
  (∀ l' j', icache sb (vw c) pid None l' → length l' = length (f_inodes s) → counts l' = bump ip (-1) (counts (f_inodes s)) →
     (∀ x, irefs l' x = irefs (f_inodes s) x - one (i_inum i) x) → l' !! jp = Some j' → i_inum j' = i_inum j → 0 < i_ref j' →
     Q tt (set_inodes l' s)) →
  wp (iunlockput iderw ip) Q s.
Proof using HT.
  intros Qt IC Hi Ht Hj Hr Hr2 HQ. eapply iunlockput_wp; [done..|]. intros l' IC' El C R Ho Hip.
  destruct (decide (jp = ip)) as [->|Hne]; [|apply (HQ l' j); [done|done|done|done|by apply Ho|done|done]].
  rewrite Hi in Hj. injection Hj as <-. eapply (HQ l'); [done..|]. cbn. specialize (Hr2 eq_refl). lia.
Qed.

Lemma walk_wp names s ip i name Q :
  quiet s c → icache sb (vw c) pid None (f_inodes s) → f_inodes s !! ip = Some i → 0 < i_ref i → T (i_inum i) →
  (nlive (bump ip (-1) (counts (f_inodes s))) + 2 ≤ length (f_inodes s))%nat →
  (∀ r nm s', quiet s' c → icache sb (vw c) pid None (f_inodes s') →
     match resolve sb (vw c) (i_inum i) names, r with
     | Some k, Some ip' => T k ∧ (∃ i', f_inodes s' !! ip' = Some i' ∧ i_inum i' = k ∧ 0 < i_ref i') ∧
         ∀ x, irefs (f_inodes s') x = irefs (f_inodes s) x - one (i_inum i) x + one k x
     | None, None => ∀ x, irefs (f_inodes s') x = irefs (f_inodes s) x - one (i_inum i) x
     | _, _ => False
     end → Q (r, nm) s') →
  wp (walk iderw dev_read ip names name false) Q s.
Proof using Hds Ly HT.
  revert s ip i name. induction names as [|e names IH]; intros s ip i name Qt IC Hi Hr Ht Hn HQ; cbn [walk resolve] in *.
  { apply wp_ret, HQ; [done..|]. split; [done|]. split; [by exists i|]. intros x. lia. }
  pose proof (HT _ Ht) as [H1 H2 H3 H4 H5]. pose proof (lookup_lt_Some _ _ _ Hi). set (d := disk_inode sb (vw c) (i_inum i)) in *.
  apply wp_bind. eapply (ilock_wp iderw Hds P sb Ly); [done..|]. intros l1 T1 IC1. set (i1 := locked P sb (vw c) i) in *.
  set (L := <[ip := i1]> (f_inodes s)) in *. assert (L !! ip = Some i1) as Hi1 by by apply list_lookup_insert_eq.
  assert (∀ x, irefs L x = irefs (f_inodes s) x) as R1 by (intros x; unfold L; rewrite (irefs_insert _ _ i) by done; unfold ref_to; cbn; lia).
  assert (counts L = counts (f_inodes s)) as C1 by (unfold L; rewrite list_fmap_insert; apply list_insert_id; by rewrite list_lookup_fmap, Hi).
  assert (length L = length (f_inodes s)) as E1 by apply length_insert.
  set (s1 := Fsst _ _ _ _) in *. assert (quiet s1 c) as Qt1 by by apply quiet_set.
  apply wp_bind. eapply get_inode_wp; [done|]. change (i_d i1) with d.
  destruct (Z.eqb_spec (d_type d) T_DIR) as [Ed|Ed]; cbn [negb andb] in *; cycle 1.
  { apply wp_bind. eapply iunlockput_wp; [done..|]. intros l' IC' _ _ R' _ _. apply wp_ret, HQ; [by apply quiet_set|done|].
    intros x. cbn. rewrite R'. cbn. by rewrite R1. }
  destruct (H5 Ed) as [Hm Hde]. apply wp_bind. eapply dirlookup_wp; [done|done|done|done|done|done|done| |].
  { cbn. pose proof (nlive_bump ip (counts (f_inodes s))). rewrite C1, E1. lia. }
  change (i_d i1) with d. destruct (dir_find e (dents (vw c) d)) as [k|] eqn:Ef; cycle 1.
  { intros l2 T2. apply wp_bind. eapply iunlockput_wp; [by apply (quiet_set _ _ _ s1)|done|done|done|]. intros l' IC' _ _ R' _ _.
    apply wp_ret, HQ; [by apply (quiet_set _ _ _ s1)|done|]. intros x. cbn. rewrite R'. cbn. by rewrite R1. }
  intros l2 jp j L2 off T2 Hj Hjk Hjr IC2 [EL2 K2] R2 C2. destruct (K2 ip i1 Hi1 Hr) as (i2 & Hi2 & Ei2 & _).
  destruct (dir_find_In _ _ _ Ef) as (de & Hin & Edk & Hk0). assert (T k) as Htk by (rewrite <- Edk; apply Hde; [done|by rewrite Edk]).
  set (s2 := Fsst l2 _ L2 _). assert (quiet s2 c) as Qt2 by by apply (quiet_set _ _ _ s1).
  apply wp_bind. eapply (step_over s2 ip i2 jp j); [done|done|done|by rewrite Ei2|done|done| |].
  { intros ->. apply (f_equal (λ r, r !! ip)) in C2. unfold bump in C2. rewrite list_lookup_fmap, Hj, list_lookup_alter_eq, list_lookup_fmap in C2.
    cbn [f_inodes s1] in C2. rewrite Hi1 in C2. injection C2 as C2. cbn in C2. lia. }
  intros l3 j3 IC3 E3 C3 R3 Hj3 Ej3 Hr3. rewrite Hjk in Ej3. cbn [f_inodes s2 s1] in *.
  eapply (IH (set_inodes l3 s2) jp j3); [by apply (quiet_set _ _ _ s2)|done|done|done|by rewrite Ej3| |].
  { cbn [f_inodes set_inodes]. rewrite C3, C2, bump_swap, C1, E3, EL2, E1. done. }
  rewrite Ej3. intros r nm s' Qt' IC' H'. apply HQ; [done..|].
  assert (∀ x, irefs l3 x = irefs (f_inodes s) x - one (i_inum i) x + one k x) as R
    by (intros x; rewrite R3, R2, R1, Ei2; unfold one; cbn [i_inum i1 locked]; lia).
  cbn [f_inodes set_inodes] in H'. destruct (resolve sb (vw c) k names) as [k'|], r as [ip'|]; try done.
  - destruct H' as (A & B & C'). split; [done|]. split; [done|]. intros x. rewrite C', R. lia.
  - intros x. rewrite H', R. lia.
Qed.

Lemma wp_same {S A} (m m' : M S A) Q s : m s = m' s → wp m' Q s → wp m Q s.
Proof using. unfold wp. by intros ->. Qed.

(** The inode a path starts from: the root, or the current directory. *)
Definition start (path : list Z) (cwd : inode) : Z := if bool_decide (head path = Some slash) then ROOTINO else i_inum cwd.

(** The new reference that [namex] starts with. *)
Lemma start_wp s path cwd Q :
  quiet s c → icache sb (vw c) pid None (f_inodes s) →
  (head path ≠ Some slash → f_inodes s !! f_cwd s = Some cwd ∧ 0 < i_ref cwd) →
  (nlive (counts (f_inodes s)) + 2 ≤ length (f_inodes s))%nat →
  (∀ ip i l', icache sb (vw c) pid None l' → length l' = length (f_inodes s) → l' !! ip = Some i → i_inum i = start path cwd → 0 < i_ref i →
     (∀ x, irefs l' x = irefs (f_inodes s) x + one (start path cwd) x) → counts l' = bump ip 1 (counts (f_inodes s)) → Q ip (set_inodes l' s)) →
  wp (if bool_decide (head path = Some slash) then iget ROOTDEV ROOTINO else idup (f_cwd s)) Q s.
Proof.
  intros Qt IC Hcwd Hn HQ. unfold start in HQ. case_bool_decide as Hp.
  - change ROOTDEV with 1. eapply iget_wp; [done|lia|]. intros ip i l' Hi Hin Hi0 IC' [El _] R C. by eapply HQ.
  - destruct (Hcwd Hp) as [Hc Hr]. set (i' := set_i_ref (i_ref cwd + 1) cwd). destruct (iget_entry sb (vw c) pid None (f_inodes s) (f_cwd s) cwd i' (i_inum cwd)) as (A & _ & B & D);
      [done|done|done|by apply (ic_dev _ _ _ _ _ IC _ _ Hc Hr)|done|done|done|cbn; lia|].
    apply wp_bind. eapply mod_inode_wp; [done|]. apply wp_ret, (HQ _ i').
    + done.
    + apply length_insert.
    + apply list_lookup_insert_eq. by eapply lookup_lt_Some.
    + done.
    + cbn. lia.
    + done.
    + done.
Qed.

(** What [namei] returns, and the state it leaves. *)
Definition resolved (s : fsst) (path : list Z) (cwd : inode) (r : option nat) (s' : fsst) : Prop :=
  quiet s' c ∧ icache sb (vw c) pid None (f_inodes s') ∧
  match resolve sb (vw c) (start path cwd) (elems path), r with
  | Some k, Some ip => (∃ i, f_inodes s' !! ip = Some i ∧ i_inum i = k ∧ 0 < i_ref i) ∧
      ∀ x, irefs (f_inodes s') x = irefs (f_inodes s) x + one k x
  | None, None => ∀ x, irefs (f_inodes s') x = irefs (f_inodes s) x
  | _, _ => False
  end.

Lemma namei_wp s path cwd :
  quiet s c → icache sb (vw c) pid None (f_inodes s) → (nlive (counts (f_inodes s)) + 2 ≤ length (f_inodes s))%nat → T ROOTINO →
  (head path ≠ Some slash → f_inodes s !! f_cwd s = Some cwd ∧ 0 < i_ref cwd ∧ T (i_inum cwd)) →
  wp (namei iderw dev_read path) (resolved s path cwd) s.
Proof using Hds Ly HT.
  intros Qt IC Hn Ht1 Hcwd. unfold namei. apply wp_bind. eapply wp_same; [apply namex_walks|].
  apply wp_bind, wp_gets, wp_bind. eapply (start_wp s path cwd); [done..|intros H; by destruct (Hcwd H) as (? & ? & _)|done|].
  intros ip i l' IC' El Hi Ei Hp R C.
  eapply (walk_wp _ (set_inodes l' s) ip i); [by destruct Qt; split|done|done|done| | |].
  { rewrite Ei. unfold start. case_bool_decide as H; [done|]. by destruct (Hcwd H) as (_ & _ & ?). }
  { cbn [f_inodes set_inodes]. by rewrite C, bump_undo, El. }
  cbn [f_inodes set_inodes]. rewrite Ei. intros r nm s' Qt' IC2 H. apply wp_ret. split; [done|]. split; [done|]. cbn [fst].
  destruct (resolve sb (vw c) (start path cwd) (elems path)) as [k|], r as [ip'|]; try done.
  - destruct H as (_ & H & R'). split; [done|]. intros x. rewrite R', R. lia.
  - intros x. rewrite H, R. lia.
Qed.

(** C19. Path resolution.  On a disk whose directories form a tree of
    well-formed inodes, with two free entries in the inode cache and no inode
    locked, [namei] ends on every path.  It returns the inode that the path
    leads to through the directory entries on disk (from the root for a path
    that begins with a slash, else from the current directory; slashes in
    excess make no difference, a name is cut to 14 characters), with exactly
    one reference more to it than before; if a component does not exist or
    is not a directory it returns 0 and no reference is gained or lost.
    Afterwards no inode is locked and the cache agrees with the disk. *)
Theorem namei_resolves s path cwd :
  quiet s c → icache sb (vw c) pid None (f_inodes s) → (nlive (counts (f_inodes s)) + 2 ≤ length (f_inodes s))%nat → T ROOTINO →
  (head path ≠ Some slash → f_inodes s !! f_cwd s = Some cwd ∧ 0 < i_ref cwd ∧ T (i_inum cwd)) →
  wp (namei iderw dev_read path) (λ r s', quiet s' c ∧ icache sb (vw c) pid None (f_inodes s') ∧
    match resolve sb (vw c) (start path cwd) (elems path), r with
    | Some k, Some ip => (∃ i, f_inodes s' !! ip = Some i ∧ i_inum i = k ∧ 0 < i_ref i) ∧
        ∀ x, irefs (f_inodes s') x = irefs (f_inodes s) x + one k x
    | None, None => ∀ x, irefs (f_inodes s') x = irefs (f_inodes s) x
    | _, _ => False
    end) s.
Proof using Hds Ly HT. exact (namei_wp s path cwd). Qed.
End dir.
