(* ===== verification/FsLink.v ===== *)
(** Entering a name in a directory: [dirlink] (fs.c). *)

From S2P Require Import Prelude Mmu Block Ide Bio Log LogSpec LogCrash LogOps Tx Fs FsAlloc FsData FsRw FsInode.
From S2P Require Import FsWrite FsIcache FsTrunc FsPath FsDir.

(** ** Directories as lists of entries *)

(** The first entry that is free, or the end. *)
Fixpoint free_index (es : list dirent) : nat :=
  match es with
  | [] => 0
  | de :: es' => if de_inum de =? 0 then 0 else S (free_index es')
  end.

Definition put_entry (k : nat) (de : dirent) (es : list dirent) : list dirent := take k es ++ de :: drop (S k) es.

Lemma free_index_le es : (free_index es ≤ length es)%nat.
Proof. induction es as [|de es IH]; cbn; [lia|]. destruct (_ =? _); lia. Qed.

Lemma free_index_free es de : es !! free_index es = Some de → de_inum de = 0.
Proof.
  induction es as [|x es IH]; cbn [free_index]; [done|]. destruct (Z.eqb_spec (de_inum x) 0); [by intros [= <-]|]. done.
Qed.

Lemma dir_find_None name es : dir_find name es = None ↔ ∀ de, de ∈ es → is_entry name de = false.
Proof.
  induction es as [|x es IH]; cbn [dir_find]; [split; [intros _ de ?%elem_of_nil; done|done]|].
  destruct (is_entry name x) eqn:E.
  - split; [done|]. intros H. rewrite H in E by by left. done.
  - rewrite IH. split; intros H de; [intros [->|Hd]%elem_of_cons; [done|by apply H]|]. intros Hd. apply H. by right.
Qed.

(** An entry that does not match in the place of one that does not match. *)
Lemma dir_find_put name es k de :
  is_entry name de = false → (∀ old, es !! k = Some old → is_entry name old = false) → (k ≤ length es)%nat →
  dir_find name (put_entry k de es) = dir_find name es.
Proof.
  intros Hde. unfold put_entry. revert k. induction es as [|x es IH]; intros k Hold Hk; cbn in Hk.
  - replace k with 0%nat by lia. cbn. by rewrite Hde.
  - destruct k as [|k]; cbn [take drop app dir_find].
    + rewrite Hde, (Hold x) by done. done.
    + rewrite IH; [done|exact Hold|lia].
Qed.

(** The lookups after a name was entered in a directory without it. *)
Lemma dir_find_entered name inum es :
  plain name → (length name ≤ DIRSIZ)%nat → inum ≠ 0 → dir_find name es = None →
  let es' := put_entry (free_index es) (Dirent inum (name_field name)) es in
  dir_find name es' = Some inum ∧
  ∀ name', plain name' → (length name' ≤ DIRSIZ)%nat → name' ≠ name → dir_find name' es' = dir_find name' es.
Proof.
  intros Hp Hl Hi Hn es'. pose proof (take_ge name DIRSIZ Hl) as Et. split.
  - unfold es', put_entry. rewrite dir_find_at; [done|..].
    + intros de Hd. apply (proj1 (dir_find_None name es) Hn). by eapply subseteq_take.
    + rewrite <- Et at 1. rewrite is_entry_field by done. by rewrite bool_decide_eq_true.
  - intros name' Hp' Hl' Hne. pose proof (take_ge name' DIRSIZ Hl') as Et'. apply dir_find_put; [|..|apply free_index_le].
    + rewrite <- Et'. rewrite is_entry_field by done. rewrite bool_decide_eq_false. congruence.
    + intros old Ho%free_index_free. unfold is_entry. by rewrite Ho.
Qed.

(** ** The bytes *)

Lemma length_name_field name : length (name_field name) = DIRSIZ.
Proof. unfold name_field. rewrite length_app, length_take, length_replicate. lia. Qed.

Lemma name_field_bytes name : Forall (λ x, 0 ≤ x < 256) name → Forall (λ x, 0 ≤ x < 256) (name_field name).
Proof. intros H. apply Forall_app. split; [by apply Forall_take|]. apply Forall_replicate. lia. Qed.

Lemma dents_lookup v d j : (j < Z.to_nat (d_size d / 16))%nat →
  dents v d !! j = Some (load_dirent (file_bytes v d (Z.of_nat j * 16) 16)).
Proof. intros Hj. unfold dents. rewrite list_lookup_fmap, lookup_seqZ_lt by lia. by rewrite Z.add_0_l. Qed.

Lemma length_dents v d : length (dents v d) = Z.to_nat (d_size d / 16).
Proof. unfold dents. by rewrite length_fmap, length_seqZ. Qed.

(** Writing 16 bytes at an entry's place replaces that entry. *)
Lemma dents_written sb c inum d c' d' k src :
  file_written sb c inum d c' d' (Z.of_nat k * 16) src → length src = 16%nat → d_size d mod 16 = 0 → 0 ≤ d_size d →
  (k ≤ length (dents (vw c) d))%nat →
  d_size d' mod 16 = 0 ∧ dents (vw c') d' = put_entry k (load_dirent src) (dents (vw c) d).
Proof.
  intros FW Hs Hm H0 Hk. pose proof (fwr_size _ _ _ _ _ _ _ _ FW) as Hsz. rewrite Hs in Hsz. rewrite length_dents in Hk.
  assert (d_size d = d_size d / 16 * 16) as Hd by (pose proof (Z.div_mod (d_size d) 16); lia).
  assert (∃ n, d_size d' = n * 16 ∧ n = (d_size d / 16) `max` (Z.of_nat k + 1)) as (n & Hn & En) by (eexists; split; [|reflexivity]; lia).
  rewrite Hn. split; [by apply Z.mod_mul|]. apply list_eq. intros j.
  assert (∀ j, Z.of_nat j < n → file_bytes (vw c') d' (Z.of_nat j * 16) 16 =
            if decide (j = k) then src else file_bytes (vw c) d (Z.of_nat j * 16) 16) as Hb.
  { intros x Hx. apply list_eq_same_length with (n := 16%nat); [by case_decide|by unfold file_bytes; rewrite length_fmap, length_seqZ|].
    intros o y z Ho Hy Hz. unfold file_bytes in Hy. apply list_lookup_fmap_Some in Hy as (b & -> & [-> Hb]%lookup_seqZ).
    rewrite (fwr_bytes _ _ _ _ _ _ _ _ FW) by lia. rewrite Hs. case_decide as E.
    - subst x. rewrite decide_True by lia. rewrite nth_lookup. by replace (Z.to_nat _) with o by lia; rewrite Hz.
    - rewrite decide_False by lia. unfold file_bytes in Hz. apply list_lookup_fmap_Some in Hz as (b & -> & [-> _]%lookup_seqZ). done. }
  destruct (decide (j < Z.to_nat n)%nat) as [Hj|Hj].
  - rewrite dents_lookup, Hb by (rewrite ?Hn, ?Z.div_mul; lia). unfold put_entry. case_decide as E.
    + subst j. by rewrite list_lookup_middle by (rewrite length_take, length_dents; lia).
    + destruct (decide (j < k)%nat).
      * rewrite lookup_app_l, lookup_take_lt by (rewrite ?length_take, ?length_dents; lia). by rewrite dents_lookup by lia.
      * rewrite lookup_app_r, length_take, length_dents by (rewrite ?length_take, ?length_dents; lia).
        replace (j - _)%nat with (S (j - S k)) by lia. change (Some (load_dirent (file_bytes (vw c) d (Z.of_nat j * 16) 16)) = drop (S k) (dents (vw c) d) !! (j - S k)%nat).
        rewrite lookup_drop, dents_lookup by lia. do 3 f_equal. lia.
  - rewrite !lookup_ge_None_2; [done| |rewrite length_dents, Hn, Z.div_mul; lia].
    unfold put_entry. rewrite length_app. cbn [length]. rewrite length_take, length_drop, length_dents. lia.
Qed.

Lemma bind_sleep {S A B} (m : M S A) (k : A → M S B) s ch s' : m s = Sleep ch s' → (m ≫= k) s = Sleep ch s'.
Proof. unfold mbind, M_bind. by intros ->. Qed.

Section link.
Context (iderw : nat → M bst ()) `{!DiskDriver iderw} (Hds : disk_size ≤ 2 ^ 31).
Context (P : txp) (sb : superblock) (Ly : layout iderw P sb).
Context (dev_read : Z → option (nat → Z → M fsst (Z * list Z))).
Context (dev_write : Z → option (nat → list Z → M fsst Z)).
Notation pid := (x_pid P).
Notation quiet := (quiet iderw P sb).
Notation tx_ok := (tx_ok iderw P).

(** The process has locked the directory [dp] of the device. *)
Record on_dir (s : fsst) (c : cache) (dp : nat) (i : inode) : Prop := {
  od_quiet : quiet s c;
  od_cache : icache sb (vw c) pid (Some dp) (f_inodes s);
  od_inode : f_inodes s !! dp = Some i;
  od_dev : i_dev i = 1;
  od_type : d_type (i_d i) = T_DIR;
  od_file : file_ok sb (vw c) (i_inum i) (i_d i);
  od_size : d_size (i_d i) mod 16 = 0;
  od_room : (nlive (counts (f_inodes s)) < length (f_inodes s))%nat;
}.

Lemma dirlink_loop_wp s c dp i n : ∀ a Q,
  quiet s c → f_inodes s !! dp = Some i → i_dev i = 1 → inode_wf sb (vw c) (i_d i) → d_type (i_d i) = T_DIR →
  0 ≤ a → (a + Z.of_nat n) * 16 ≤ d_size (i_d i) →
  (∀ l, tx_ok l c →
     Q ((a + Z.of_nat (free_index ((λ k, load_dirent (file_bytes (vw c) (i_d i) (k * 16) 16)) <$> seqZ a (Z.of_nat n)))) * 16)
       (set_fl l s)) →
  wp (dirlink_loop iderw dev_read dp ((λ k, k * 16) <$> seqZ a (Z.of_nat n)) ((a + Z.of_nat n) * 16)) Q s.
Proof using Hds Ly.
  revert s. induction n as [|n IH]; intros s a Q Qt Hi Hdev I Ht Ha Hle HQ.
  { apply wp_ret. specialize (HQ (f_l s) (qt_tx _ _ _ _ _ Qt)). by destruct s. }
  rewrite Nat2Z.inj_succ, seqZ_cons, Z.pred_succ in * by lia. rewrite fmap_cons. rewrite fmap_cons in HQ. cbn [dirlink_loop free_index] in *.
  apply wp_bind. eapply (read_dirent_wp iderw Hds P sb Ly dev_read); [done..|lia|]. intros l Tl. revert HQ.
  destruct (Z.eqb_spec (de_inum (load_dirent (file_bytes (vw c) (i_d i) (a * 16) 16))) 0) as [E|E]; intros HQ.
  - apply wp_ret. specialize (HQ l Tl). change (Z.of_nat 0) with 0 in HQ. by rewrite Z.add_0_r in HQ.
  - replace ((a + Z.succ (Z.of_nat n)) * 16) with ((Z.succ a + Z.of_nat n) * 16) by lia.
    apply IH; [destruct Qt; by split|done|done|done|done|lia|lia|]. intros l' Tl'. specialize (HQ l' Tl').
    rewrite Nat2Z.inj_succ, <- Z.add_succ_comm in HQ. exact HQ.
Qed.

(** A name that is not there is entered. *)
Lemma dirlink_new_wp s c dp i name inum Q :
  on_dir s c dp i → 1 ≤ x_out P → room P sb 5 c → free_blocks sb 2 (vw c) →
  plain name → Forall (λ x, x < 256) name → (length name ≤ DIRSIZ)%nat → 0 < inum < 2 ^ 16 →
  d_size (i_d i) + 16 ≤ MAXFILE * BSIZE → dir_find name (dents (vw c) (i_d i)) = None →
  (∀ l c' d' src off, tx_ok l c' → file_written sb c (i_inum i) (i_d i) c' d' off src → d_size d' mod 16 = 0 →
     dents (vw c') d' = put_entry (free_index (dents (vw c) (i_d i))) (Dirent inum (name_field name)) (dents (vw c) (i_d i)) →
     Q 0 (with_inode dp i d' l s)) →
  wp (dirlink iderw dev_read dev_write dp name inum) Q s.
Proof using Hds Ly.
  intros [Qt IC Hi Hdev Ht F Hm Hn] Ho R Fr Hp Hb Hl Hin Hmax Hf HQ. pose proof F as [F1 I _ _]. pose proof (iw_size _ _ _ I) as Hsz.
  assert (d_size (i_d i) = d_size (i_d i) / 16 * 16) as Hd by (pose proof (Z.div_mod (d_size (i_d i)) 16); lia).
  unfold dirlink. apply wp_bind. eapply (dirlookup_wp iderw Hds P sb Ly dev_read); [done..|]. rewrite Hf. intros l1 T1.
  apply wp_bind. eapply get_inode_wp; [done|]. cbv zeta. apply wp_bind. unfold dir_offs.
  assert ((d_size (i_d i) + 15) / 16 = Z.of_nat (length (dents (vw c) (i_d i)))) as ->.
  { rewrite length_dents, Z2Nat.id by (apply Z.div_pos; lia). symmetry. apply (Z.div_unique _ _ _ 15); lia. }
  rewrite <- (Z.add_0_l (Z.of_nat (length (dents (vw c) (i_d i))))) at 2.
  eapply (dirlink_loop_wp _ c dp i); [by destruct Qt; split|done|done|done|done|lia|rewrite length_dents, Z2Nat.id by (apply Z.div_pos; lia); lia|].
  rewrite (length_dents (vw c)), Z2Nat.id by (apply Z.div_pos; lia). fold (dents (vw c) (i_d i)). rewrite Z.add_0_l.
  set (k := free_index (dents (vw c) (i_d i))). pose proof (free_index_le (dents (vw c) (i_d i))) as Hk. fold k in Hk. intros l2 T2.
  set (src := store_dirent (Dirent (u16 inum) (name_field name))).
  assert (length src = 16%nat) as Hls by (unfold src, store_dirent; cbn [de_inum de_name]; by rewrite length_app, length_to_le, length_name_field).
  assert (Z.of_nat k * 16 ≤ d_size (i_d i)) as Hk' by (rewrite length_dents in Hk; lia).
  assert (nblocks (Z.of_nat k * 16) 16 = 1) as Hnb.
  { unfold nblocks, BSIZE. clear. Z.div_mod_to_equations. lia. }
  apply wp_bind. change (MAXFILE * BSIZE) with 71680 in *.
  eapply (writei_wp iderw Hds P sb Ly dev_write _ c dp i src); rewrite ?Hls; [|apply Qt|done| |lia|lia|by rewrite Ht|done| | |].
  - split; [exact T2|apply Qt|apply Qt|done|done|done].
  - unfold src, store_dirent. apply Forall_app. split; [apply to_le_bytes|]. apply name_field_bytes. destruct Hp as [_ Hp].
    rewrite Forall_forall in *. intros x Hx. split; [by apply Hp|by apply Hb].
  - change (Z.of_nat 16) with 16. split; rewrite Hnb; done.
  - change (MAXFILE * BSIZE) with 71680. change (Z.of_nat 16) with 16. lia.
  - intros l3 c' d' _ _ FW T3 _. cbn. destruct (dents_written _ _ _ _ _ _ _ _ FW Hls Hm ltac:(lia) Hk) as [Hm' Hds'].
    apply wp_ret. eapply (HQ l3 c' d'); [done|done|done|]. rewrite Hds'. f_equal. unfold src, u16.
    rewrite Z.mod_small by lia. apply load_store_dirent. lia.
Qed.

(** [dirlookup] of a name that is there. *)
Lemma dirlookup_found s c dp i name k :
  on_dir s c dp i → dir_find name (dents (vw c) (i_d i)) = Some k →
  wp (dirlookup iderw dev_read dp name) (λ r s', ∃ l ip j l' off, r = Some (ip, off) ∧ s' = Fsst l (f_sb s) l' (f_cwd s) ∧
    tx_ok l c ∧ l' !! ip = Some j ∧ i_inum j = k ∧ 0 < i_ref j ∧ icache sb (vw c) pid (Some dp) l' ∧
    (ip = dp ↔ k = i_inum i) ∧ (∀ x, irefs l' x = irefs (f_inodes s) x + one k x)) s.
Proof using Hds Ly.
  intros [Qt IC Hi Hdev Ht F Hm Hn] Hf. eapply (dirlookup_wp iderw Hds P sb Ly dev_read); [done..|by apply F|done|done|done|].
  rewrite Hf. intros l ip j l' off T Hj Hk Hr IC' [_ Hkeep] R _. exists l, ip, j, l', off.
  destruct (ic_held _ _ _ _ _ IC dp i Hi eq_refl) as [Hir _]. destruct (Hkeep dp i Hi Hir) as (i' & Hi' & Ei' & _ & Hr' & _).
  split_and!; try done. split.
  - intros ->. rewrite Hi' in Hj. injection Hj as ->. congruence.
  - intros E. apply (ic_uniq _ _ _ _ _ IC' ip dp j i'); [done|done|done|lia|congruence].
Qed.

Lemma dirlink_found_wp s c dp i name inum k Q :
  on_dir s c dp i → dir_find name (dents (vw c) (i_d i)) = Some k → k ≠ i_inum i → d_nlink (disk_inode sb (vw c) k) ≠ 0 →
  (∀ l l', tx_ok l c → icache sb (vw c) pid (Some dp) l' → (∀ x, irefs l' x = irefs (f_inodes s) x) →
     Q (-1) (Fsst l (f_sb s) l' (f_cwd s))) →
  wp (dirlink iderw dev_read dev_write dp name inum) Q s.
Proof using Hds Ly.
  intros O Hf Hk Hn HQ. unfold dirlink. apply wp_bind. eapply wp_mono; [by eapply dirlookup_found|].
  intros r s1 (l & ip & j & l' & off & -> & -> & T & Hj & Ej & Hr & IC & Hip & R). apply wp_bind.
  eapply (iput_wp iderw P sb (Some dp) _ c ip j); [by apply (quiet_set _ _ _ s c), T; apply O|done| |done|done| |].
  - intros [= <-]. by apply Hk, Hip.
  - intros Hv. rewrite (ic_valid _ _ _ _ _ IC ip j Hj Hr Hv). by rewrite Ej.
  - intros l2 IC2. apply wp_ret. apply (HQ l l2); [done|done|]. intros x. unfold l2. rewrite irefs_less by done.
    rewrite R, Ej. cbn. lia.
Qed.

(** A name that leads back to the directory itself, as dot does: [dirlink]
    finds it and releases it with [iput], which waits for the lock that the
    caller holds.  The process sleeps for ever, inside its transaction. *)
Theorem dirlink_self_deadlock s c dp i name inum :
  on_dir s c dp i → dir_find name (dents (vw c) (i_d i)) = Some (i_inum i) →
  ∃ s', dirlink iderw dev_read dev_write dp name inum s = Sleep (ChInodeLock dp) s' ∧
    ∃ j, f_inodes s' !! dp = Some j ∧ i_lock j = Slk true pid.
Proof using Hds Ly.
  intros O Hf.
  destruct (proj1 (wp_Ok _ _ _) (dirlookup_found s c dp i name _ O Hf))
    as (r & s1 & E & l & ip & j & l' & off & -> & -> & T & Hj & Ej & Hr & IC & Hip & R).
  assert (ip = dp) as -> by by apply Hip. destruct (ic_held _ _ _ _ _ IC dp j Hj eq_refl) as [_ Hl].
  exists (Fsst l (f_sb s) l' (f_cwd s)). split; [|by exists j].
  unfold dirlink. erewrite bind_run; [|exact E]. apply bind_sleep. unfold iput. apply bind_sleep.
  unfold inode_acquire. erewrite bind_run; [|by apply get_inode_run]. erewrite bind_run; [|reflexivity]. by rewrite Hl.
Qed.
(** C17. [dirlink] on a locked directory.  (1) If the name is there and leads
    to another inode that has links, it returns -1, changes nothing on disk
    and gives back the reference it took.  (2) If the name leads back to the
    directory itself, the process sleeps for ever on the lock it holds.
    (3) If the name is not there, has at most [DIRSIZ] bytes, none of them
    zero, and the inode number is from 1 to 2^16 - 1, then
    inside a transaction with room for five more blocks, two free blocks on
    the disk and a directory that can grow by an entry, it returns 0, and
    looking the name up afterwards gives the inode entered, while every
    other name is found, or not found, as before; the write keeps every
    other file. *)
Theorem dirlink_correct s c dp i name inum :
  on_dir s c dp i →
  (∀ k, dir_find name (dents (vw c) (i_d i)) = Some k → k ≠ i_inum i → d_nlink (disk_inode sb (vw c) k) ≠ 0 →
   wp (dirlink iderw dev_read dev_write dp name inum) (λ r s',
     r = -1 ∧ ∃ l l', s' = Fsst l (f_sb s) l' (f_cwd s) ∧ tx_ok l c ∧
       icache sb (vw c) pid (Some dp) l' ∧ ∀ x, irefs l' x = irefs (f_inodes s) x) s) ∧
  (dir_find name (dents (vw c) (i_d i)) = Some (i_inum i) →
   ∃ s', dirlink iderw dev_read dev_write dp name inum s = Sleep (ChInodeLock dp) s' ∧
     ∃ j, f_inodes s' !! dp = Some j ∧ i_lock j = Slk true pid) ∧
  (dir_find name (dents (vw c) (i_d i)) = None →
   1 ≤ x_out P → room P sb 5 c → free_blocks sb 2 (vw c) →
   plain name → Forall (λ x, x < 256) name → (length name ≤ DIRSIZ)%nat → 0 < inum < 2 ^ 16 →
   d_size (i_d i) + 16 ≤ MAXFILE * BSIZE →
   wp (dirlink iderw dev_read dev_write dp name inum) (λ r s',
     r = 0 ∧ ∃ l c' d', s' = with_inode dp i d' l s ∧ tx_ok l c' ∧
       (∃ off src, file_written sb c (i_inum i) (i_d i) c' d' off src) ∧ d_size d' mod 16 = 0 ∧
       dir_find name (dents (vw c') d') = Some inum ∧
       ∀ name', plain name' → (length name' ≤ DIRSIZ)%nat → name' ≠ name →
         dir_find name' (dents (vw c') d') = dir_find name' (dents (vw c) (i_d i))) s).
Proof using Hds Ly.
  intros O. split_and!.
  - intros k Ef Hk1 Hk2. eapply dirlink_found_wp; [done..|]. intros l l' T IC Hr. split; [done|]. by exists l, l'.
  - by apply (dirlink_self_deadlock s c).
  - intros Ef Ho R Fr Hp Hb Hl Hin Hmax. eapply dirlink_new_wp; [done..|]. intros l c' d' src off T FW Hm Hde.
    split; [done|]. exists l, c', d'. rewrite Hde.
    destruct (dir_find_entered name inum _ Hp Hl ltac:(lia) Ef) as [E1 E2].
    split; [done|]. split; [done|]. split; [by exists off, src|]. by split_and!.
Qed.
End link.

(** ** An empty directory *)

(** Inode 2 becomes a directory, locked by the process that runs; the second
    entry of the cache is unused. *)
Definition dir_ino : dinode := set_type T_DIR img_file.
Definition dir_inode (pid : Z) : inode := Ino 1 2 1 (Slk true pid) true img_file.
Definition unused_inode : inode := Ino 0 0 0 (Slk false 0) false dir_ino.
Definition make_dir : M fsst () :=
  pid ← gets (λ s, mypid (l_b (f_l s)));
  modify (set_inodes [dir_inode pid; unused_inode]);;
  mod_d 0 (set_type T_DIR);;
  iupdate drv 0.

Lemma img_room n c P : x_size P = 30 → c_held c = ∅ → c_dirty c = ∅ → n ≤ 20 → room P img_sb n c.
Proof.
  intros Es Hh Hd Hn. assert (nspread img_sb c = 1) as E1 by (unfold nspread, spread; rewrite Hd; by vm_compute).
  split; [rewrite E1, Es; lia|]. unfold nheld. rewrite E1, Hh, map_size_empty. change (Z.of_nat NBUF) with 30. lia.
Qed.

Lemma make_dir_wp {A} (m : M fsst A) Q :
  (∀ s c i, layout drv (tx_of (f_l s)) img_sb → on_dir drv (tx_of (f_l s)) img_sb s c 0 i → i_inum i = 2 → i_d i = dir_ino →
     1 ≤ x_out (tx_of (f_l s)) → room (tx_of (f_l s)) img_sb 5 c → free_blocks img_sb 2 (vw c) → wp m Q s) →
  wp (img_boot;; make_dir;; m) Q img_start.
Proof.
  intros HQ. apply img_boot_wp. intros s c O Ly Ez Eo Hh Hd Hv. pose proof O as [T Es W Hi _ I]. set (P := tx_of (f_l s)) in *.
  apply wp_bind. unfold make_dir. apply wp_bind, wp_gets, wp_bind, wp_modify, wp_bind.
  assert (mypid (l_b (f_l s)) = x_pid P) as -> by done. eapply mod_d_wp; [reflexivity|].
  set (i := set_i_d dir_ino (dir_inode (x_pid P))). assert (dinode_ok dir_ino) as D.
  { split; [by vm_compute..|]. apply Forall_replicate. by vm_compute. }
  assert (∀ n, n ≤ 20 → room P img_sb n c) as R by (intros n Hn; by apply img_room).
  eapply (iupdate_wp drv demo_ds P img_sb Ly _ c 0 i); [|done|apply R; lia|lia|by vm_compute|].
  { split; [exact T|done|done|done|done|apply (inode_wf_emptied img_sb _ dir_ino)]. }
  intros l T1. change (i_inum i) with 2 in *. change (i_d i) with dir_ino in *. set (c1 := put_inode img_sb 2 dir_ino c) in *.
  assert (room P img_sb 5 c1) as R5.
  { eapply (room_le P img_sb 5 1 c _ {[fkey (IBLOCK 2 img_sb)]}); [|by rewrite size_singleton|done|apply R; lia].
    unfold c1, put_inode. by rewrite spread_upd. }
  assert (0 ≤ 2 < sb_ninodes img_sb) as H2 by by vm_compute.
  apply (HQ _ c1 i); cbn [f_l set_fl]; rewrite ?(proj2 T1); try done; [|lia|].
  - split; try done; [split; try done|split|split; [done|apply (inode_wf_emptied img_sb _ dir_ino)|done|by apply (put_inode_same _ demo_ds P img_sb Ly)]|cbn; lia].
    + by apply (fs_wf_put_inode _ demo_ds P img_sb Ly).
    + destruct R5 as [_ R5]. pose proof (ndirty_spread img_sb c1). assert (0 ≤ nheld c1) by (unfold nheld; lia). lia.
    + intros [|[|k]] j [= <-]; cbn; lia.
    + intros [|[|k]] j [= <-]; cbn; [done|lia].
    + intros [|[|k]] j [= <-]; cbn; [|lia]. intros _ _. symmetry. by apply (put_inode_same _ demo_ds P img_sb Ly).
    + intros [|[|k]] j [= <-]; done.
    + intros [|[|k]] j [= <-]; done.
    + intros [|[|k]] [|[|k']] j j' [= <-] [= <-]; cbn; done || lia.
  - eapply free_same; [|apply (img_free 2 (vw c) Hv); lia]. intros b Hb. by apply (used_put_inode _ demo_ds P img_sb Ly).
Qed.

Lemma dirlink_correct_witness :
  wp (img_boot;; make_dir;; dirlink drv (λ _, None) (λ _, None) 0 [97] 5) (λ r s', r = 0 ∧ ∃ c i,
    f_inodes s' !! 0%nat = Some i ∧ dir_find [97] (dents (vw c) (i_d i)) = Some 5) img_start.
Proof.
  apply make_dir_wp. intros s c i Ly O Ei Ed Ho R Fr.
  assert (dir_find [97] (dents (vw c) (i_d i)) = None) as En by by rewrite Ed.
  destruct (dirlink_correct drv demo_ds _ img_sb Ly (λ _, None) (λ _, None) s c 0 i [97] 5 O) as (_ & _ & W).
  eapply wp_mono; [apply W; clear W|clear W].
  - exact En.
  - exact Ho.
  - exact R.
  - exact Fr.
  - split; [by rewrite list_elem_of_singleton|repeat constructor; lia].
  - repeat constructor; lia.
  - cbn. unfold DIRSIZ. lia.
  - lia.
  - rewrite Ed. by vm_compute.
  - intros r s' (-> & l & c' & d' & -> & _ & _ & _ & Hf & _). split; [done|].
    exists c', (set_i_d d' i). split; [|exact Hf]. cbn. apply list_lookup_insert_eq. eapply lookup_lt_Some. apply O.
Defined.
