(* ===== verification/Fsops.v ===== *)
(** The transactions of sysfile.c: linking, unlinking and creating names, and
    finding the inode that open, mkdir, mknod and chdir work on.  Each
    definition is the body of a system call between [begin_op] and
    [end_op], with the path already fetched; [Sysfile] puts it into the
    call. *)

From S2P Require Import Prelude Mmu Block Ide Bio Log Fs.

(** ["."] and [".."] *)
Definition dot : list Z := [46].
Definition dotdot : list Z := [46; 46].

Section fsops.
Context (iderw : nat → M bst ()).
Context (dev_read : Z → option (nat → Z → M fsst (Z * list Z))).
Context (dev_write : Z → option (nat → list Z → M fsst Z)).

Definition tx_begin : M fsst () := in_l begin_op.
Definition tx_end : M fsst () := in_l (end_op iderw).

(** [ip->nlink += k; iupdate(ip)] *)
Definition add_nlink (ip : nat) (k : Z) : M fsst () :=
  mod_d ip (λ d, set_nlink (i16 (d_nlink d + k)) d);;
  iupdate iderw ip.

(** *** sys_link *)

(** [bad]: the link count is restored. *)
Definition link_bad (ip : nat) : M fsst Z :=
  ilock iderw ip;;
  add_nlink ip (-1);;
  iunlockput iderw ip;;
  tx_end;;
  mret (-1).

Definition link_op (old new : list Z) : M fsst Z :=
  tx_begin;;
  r ← namei iderw dev_read old;
  match r with
  | None => tx_end;; mret (-1)
  | Some ip =>
    ilock iderw ip;;
    i ← get_inode ip;
    if d_type (i_d i) =? T_DIR then iunlockput iderw ip;; tx_end;; mret (-1) else
    add_nlink ip 1;;
    iunlock ip;;
    p ← nameiparent iderw dev_read new;
    match p with
    | (None, _) => link_bad ip
    | (Some dp, name) =>
      ilock iderw dp;;
      d ← get_inode dp;
      i ← get_inode ip;
      r ← (if i_dev d =? i_dev i then dirlink iderw dev_read dev_write dp name (i_inum i) else mret (-1));
      if r <? 0 then iunlockput iderw dp;; link_bad ip else
      iunlockput iderw dp;;
      iput iderw ip;;
      tx_end;;
      mret 0
    end
  end.

(** *** sys_unlink *)

Fixpoint isdirempty_loop (dp : nat) (offs : list Z) : M fsst bool :=
  match offs with
  | [] => mret true
  | off :: offs' =>
    de ← read_dirent iderw dev_read dp off "isdirempty: readi";
    if de_inum de =? 0 then isdirempty_loop dp offs' else mret false
  end.

(** The loop starts after the entries of "." and "..". *)
Definition isdirempty (dp : nat) : M fsst bool :=
  i ← get_inode dp;
  isdirempty_loop dp (drop 2 (dir_offs (d_size (i_d i)))).

Definition unlink_bad (dp : nat) : M fsst Z :=
  iunlockput iderw dp;;
  tx_end;;
  mret (-1).

(** From the second [ilock] on: [ip] is the entry at [off] of [dp]. *)
Definition unlink_entry (dp ip : nat) (off : Z) : M fsst Z :=
  ilock iderw ip;;
  i ← get_inode ip;
  if d_nlink (i_d i) <? 1 then panic "unlink: nlink < 1" else
  let isdir := d_type (i_d i) =? T_DIR in
  e ← (if isdir then isdirempty ip else mret true);
  if negb e then iunlockput iderw ip;; unlink_bad dp else
  n ← writei iderw dev_write dp (replicate 16 0) off;
  if negb (n =? 16) then panic "unlink: writei" else
  (if isdir then add_nlink dp (-1) else mret tt);;
  iunlockput iderw dp;;
  add_nlink ip (-1);;
  iunlockput iderw ip;;
  tx_end;;
  mret 0.

Definition unlink_op (path : list Z) : M fsst Z :=
  tx_begin;;
  p ← nameiparent iderw dev_read path;
  match p with
  | (None, _) => tx_end;; mret (-1)
  | (Some dp, name) =>
    ilock iderw dp;;
    if (namecmp name dot =? 0) || (namecmp name dotdot =? 0) then unlink_bad dp else
    r ← dirlookup iderw dev_read dp name;
    match r with
    | None => unlink_bad dp
    | Some (ip, off) => unlink_entry dp ip off
    end
  end.

(** *** create *)

(** The entries "." and ".." of the new directory [ip] in [dp]. *)
Definition create_dots (dp ip : nat) : M fsst () :=
  add_nlink dp 1;;
  i ← get_inode ip;
  d ← get_inode dp;
  r ← dirlink iderw dev_read dev_write ip dot (i_inum i);
  if r <? 0 then panic "create dots" else
  r ← dirlink iderw dev_read dev_write ip dotdot (i_inum d);
  if r <? 0 then panic "create dots" else mret tt.

(** The inode, locked, or [None]. *)
Definition create (path : list Z) (type major minor : Z) : M fsst (option nat) :=
  p ← nameiparent iderw dev_read path;
  match p with
  | (None, _) => mret None
  | (Some dp, name) =>
    ilock iderw dp;;
    r ← dirlookup iderw dev_read dp name;
    match r with
    | Some (ip, _) =>
      iunlockput iderw dp;;
      ilock iderw ip;;
      i ← get_inode ip;
      if (type =? T_FILE) && (d_type (i_d i) =? T_FILE) then mret (Some ip) else
      iunlockput iderw ip;;
      mret None
    | None =>
      d ← get_inode dp;
      ip ← ialloc iderw (i_dev d) type;
      ilock iderw ip;;
      mod_d ip (λ x, set_nlink 1 (set_dev major minor x));;
      iupdate iderw ip;;
      (if type =? T_DIR then create_dots dp ip else mret tt);;
      i ← get_inode ip;
      r ← dirlink iderw dev_read dev_write dp name (i_inum i);
      if r <? 0 then panic "create: dirlink" else
      iunlockput iderw dp;;
      mret (Some ip)
    end
  end.

(** The body of sys_mkdir and sys_mknod. *)
Definition mknod_op (path : list Z) (type major minor : Z) : M fsst Z :=
  r ← create path type major minor;
  match r with
  | None => tx_end;; mret (-1)
  | Some ip => iunlockput iderw ip;; tx_end;; mret 0
  end.

(** The inode sys_open opens, locked; on [None] the transaction is over. *)
Definition open_inode (path : list Z) (creat rdonly : bool) : M fsst (option nat) :=
  if creat then
    r ← create path T_FILE 0 0;
    match r with
    | None => tx_end;; mret None
    | Some ip => mret (Some ip)
    end
  else
    r ← namei iderw dev_read path;
    match r with
    | None => tx_end;; mret None
    | Some ip =>
      ilock iderw ip;;
      i ← get_inode ip;
      if (d_type (i_d i) =? T_DIR) && negb rdonly then
        iunlockput iderw ip;; tx_end;; mret None
      else mret (Some ip)
    end.

(** sys_chdir: the new directory, unlocked; the reference to [cwd] is
    dropped. *)
Definition chdir_op (path : list Z) (cwd : nat) : M fsst (option nat) :=
  r ← namei iderw dev_read path;
  match r with
  | None => tx_end;; mret None
  | Some ip =>
    ilock iderw ip;;
    i ← get_inode ip;
    if negb (d_type (i_d i) =? T_DIR) then iunlockput iderw ip;; tx_end;; mret None else
    iunlock ip;;
    iput iderw cwd;;
    tx_end;;
    mret (Some ip)
  end.
End fsops.
