(* ===== verification/Ring.v ===== *)
(** Ring buffers with free-running 32-bit counters, as pipe.c and console.c
    use them: cell [k] of the buffer is at index [k mod n], and [n] divides
    2^32 so that the counters may wrap around. *)

From S2P Require Import Prelude.

Section ring.
Context (n : Z) (Hn : 0 < n) (Hdiv : (n | 2 ^ 32)).

Definition cell (buf : list Z) (i : Z) : Z := nth (Z.to_nat (i mod n)) buf 0.

(** The [cnt] bytes from counter [i] on. *)
Definition ring (buf : list Z) (i cnt : Z) : list Z := (λ k, cell buf (i + k)) <$> seqZ 0 cnt.

(** The distance of two counters. *)
Definition rcount (r w : Z) : Z := u32 (w - r).

Lemma length_ring buf i cnt : 0 ≤ cnt → Z.of_nat (length (ring buf i cnt)) = cnt.
Proof using. intros H. unfold ring. rewrite length_fmap, length_seqZ. lia. Qed.

Lemma u32_mod_ring z : u32 z mod n = z mod n.
Proof using Hn Hdiv. unfold u32. symmetry. by apply Znumtheory.Zmod_div_mod; [lia|lia|]. Qed.

Lemma cell_u32 buf i : cell buf (u32 i) = cell buf i.
Proof using Hn Hdiv. unfold cell. by rewrite u32_mod_ring. Qed.

Lemma cell_u32_add buf i k : cell buf (u32 i + k) = cell buf (i + k).
Proof using Hn Hdiv. rewrite <- (cell_u32 buf (u32 i + k)), u32_add_l. apply cell_u32. Qed.

Lemma ring_u32 buf i cnt : ring buf (u32 i) cnt = ring buf i cnt.
Proof using Hn Hdiv. apply list_fmap_ext. intros ? k _. apply cell_u32_add. Qed.

Lemma ring_app buf i a b : 0 ≤ a → 0 ≤ b → ring buf i (a + b) = ring buf i a ++ ring buf (i + a) b.
Proof using.
  intros Ha Hb. unfold ring. rewrite seqZ_app, fmap_app by lia. f_equal.
  replace (0 + a) with (a + 0) by lia. rewrite <- fmap_add_seqZ, <- list_fmap_compose.
  apply list_fmap_ext. intros ? k _. cbn. f_equal. lia.
Qed.

Lemma ring_one buf i : ring buf i 1 = [cell buf i].
Proof using. unfold ring. change (seqZ 0 1) with [0]. cbn. by rewrite Z.add_0_r. Qed.

Lemma ring_pop buf i cnt : 0 < cnt → ring buf i cnt = cell buf i :: ring buf (i + 1) (cnt - 1).
Proof using.
  intros H. replace cnt with (1 + (cnt - 1)) at 1 by lia. rewrite ring_app by lia. by rewrite ring_one.
Qed.

Lemma ring_snoc buf i cnt : 0 ≤ cnt → ring buf i (cnt + 1) = ring buf i cnt ++ [cell buf (i + cnt)].
Proof using. intros H. rewrite ring_app by lia. by rewrite ring_one. Qed.

(** A store outside the range of the ring. *)
Lemma ring_set buf i cnt j b :
  (∀ k, 0 ≤ k < cnt → (i + k) mod n ≠ j mod n) → ring (<[Z.to_nat (j mod n) := b]> buf) i cnt = ring buf i cnt.
Proof using Hn.
  intros H. apply list_fmap_ext. intros m k [-> Hk]%lookup_seqZ. unfold cell.
  rewrite !nth_lookup, list_lookup_insert_ne; [done|]. intros E. apply (H (0 + Z.of_nat m)); [lia|].
  apply (f_equal Z.of_nat) in E. by rewrite !Z2Nat.id in E by (apply Z.mod_pos_bound; lia).
Qed.

Lemma cell_set buf j b : Z.of_nat (length buf) = n → cell (<[Z.to_nat (j mod n) := b]> buf) j = b.
Proof using Hn.
  intros Hl. unfold cell. rewrite nth_lookup, list_lookup_insert_eq; [done|].
  pose proof (Z.mod_pos_bound j n). lia.
Qed.

Lemma mod_ring_ne i k c : 0 ≤ k < c → c < n → (i + k) mod n ≠ (i + c) mod n.
Proof using Hn.
  intros Hk Hc E. assert ((c - k) mod n = 0) as H0.
  { replace (c - k) with (i + c - (i + k)) by lia. by rewrite Zminus_mod, E, Z.sub_diag. }
  rewrite Z.mod_small in H0; lia.
Qed.

Lemma ring_push buf i cnt b :
  Z.of_nat (length buf) = n → 0 ≤ cnt < n →
  ring (<[Z.to_nat ((i + cnt) mod n) := b]> buf) i (cnt + 1) = ring buf i cnt ++ [b].
Proof using Hn.
  intros Hl Hc. rewrite ring_snoc, cell_set by (done || lia). rewrite ring_set; [done|].
  intros k Hk. apply mod_ring_ne; lia.
Qed.

(** ** Counters *)

Lemma rcount_range r w : 0 ≤ rcount r w < 2 ^ 32.
Proof using. apply u32_range. Qed.

Lemma rcount_inc_w r w : rcount r w < 2 ^ 32 - 1 → rcount r (u32 (w + 1)) = rcount r w + 1.
Proof using.
  intros H. pose proof (rcount_range r w) as R. unfold rcount, u32 in *. rewrite Zminus_mod_idemp_l.
  replace (w + 1 - r) with (w - r + 1) by lia. rewrite <- Zplus_mod_idemp_l. apply Z.mod_small. lia.
Qed.

Lemma rcount_inc_r r w : 0 < rcount r w → rcount (u32 (r + 1)) w = rcount r w - 1.
Proof using.
  intros H. pose proof (rcount_range r w) as R. unfold rcount, u32 in *. rewrite Zminus_mod_idemp_r.
  replace (w - (r + 1)) with (w - r - 1) by lia. rewrite <- Zminus_mod_idemp_l. apply Z.mod_small. lia.
Qed.

Lemma rcount_dec_w r w : 0 < rcount r w → rcount r (u32 (w - 1)) = rcount r w - 1.
Proof using.
  intros H. pose proof (rcount_range r w) as R. unfold rcount, u32 in *. rewrite Zminus_mod_idemp_l.
  replace (w - 1 - r) with (w - r - 1) by lia. rewrite <- Zminus_mod_idemp_l. apply Z.mod_small. lia.
Qed.

Lemma rcount_add r w : 0 ≤ r < 2 ^ 32 → 0 ≤ w < 2 ^ 32 → u32 (r + rcount r w) = w.
Proof using. intros Hr Hw. unfold rcount. rewrite u32_add_r. replace (r + (w - r)) with w by lia. by apply u32_small. Qed.

Lemma rcount_eq r w : 0 ≤ r < 2 ^ 32 → 0 ≤ w < 2 ^ 32 → rcount r w = 0 ↔ r = w.
Proof using.
  intros Hr Hw. split; [|intros ->; unfold rcount; by rewrite Z.sub_diag].
  intros H. rewrite <- (rcount_add r w), H, Z.add_0_r by done. by rewrite u32_small.
Qed.

(** Three counters in order. *)
Lemma rcount_split r w e : rcount r w ≤ rcount r e → rcount w e = rcount r e - rcount r w.
Proof using.
  intros H. pose proof (rcount_range r w). pose proof (rcount_range r e).
  rewrite <- (u32_small (rcount r e - rcount r w)) by lia. unfold rcount, u32.
  rewrite <- Zminus_mod. f_equal. lia.
Qed.

(** A store at the end of the larger ring does not touch the smaller one. *)
Lemma ring_keep buf r w e b :
  rcount r w ≤ rcount r e < n → 0 ≤ r < 2 ^ 32 → 0 ≤ e < 2 ^ 32 →
  ring (<[Z.to_nat (e mod n) := b]> buf) r (rcount r w) = ring buf r (rcount r w).
Proof using Hn Hdiv.
  intros H Hr He. apply ring_set. intros k Hk.
  assert (e mod n = (r + rcount r e) mod n) as -> by (by rewrite <- (u32_mod_ring (r + rcount r e)), rcount_add).
  apply mod_ring_ne; lia.
Qed.

(** Two rings in a row. *)
Lemma ring_two buf r w e :
  rcount r w ≤ rcount r e → 0 ≤ r < 2 ^ 32 → 0 ≤ w < 2 ^ 32 →
  ring buf r (rcount r e) = ring buf r (rcount r w) ++ ring buf w (rcount w e).
Proof using Hn Hdiv.
  intros H Hr Hw. pose proof (rcount_range r w). rewrite (rcount_split r w e H).
  replace (rcount r e) with (rcount r w + (rcount r e - rcount r w)) at 1 by lia.
  rewrite ring_app by lia. f_equal. by rewrite <- (ring_u32 buf (r + rcount r w)), rcount_add.
Qed.

(** The cell just after the ring is the one the next store goes to. *)
Lemma ring_push_w buf r w b :
  Z.of_nat (length buf) = n → rcount r w < n → 0 ≤ r < 2 ^ 32 → 0 ≤ w < 2 ^ 32 →
  ring (<[Z.to_nat (w mod n) := b]> buf) r (rcount r w + 1) = ring buf r (rcount r w) ++ [b].
Proof using Hn Hdiv.
  intros Hl Hc Hr Hw. pose proof (rcount_range r w) as R. rewrite <- (ring_push buf r (rcount r w) b) by lia.
  do 3 f_equal. rewrite <- (rcount_add r w) at 1 by done. by rewrite u32_mod_ring.
Qed.
End ring.
