(* ===== verification/Cons.v ===== *)
(** The console's data and output (console.c): the input ring, the screen, the
    serial line, number formatting and [cprintf].  The interrupt handler and
    the device calls, which need the kernel's locks, are in [Console].

    Characters are numbers.  The screen is the CGA text memory and the
    cursor register; the serial line is the sequence of characters sent. *)

From S2P Require Import Prelude.

Definition BACKSPACE : Z := 0x100.
Definition INPUT_BUF : Z := 128.

(** [input], the cursor, the screen, the serial output, [cons.locking] and
    [panicked]. *)
Record console := Cons {
  cn_buf : list Z; cn_r : Z; cn_w : Z; cn_e : Z;
  cn_pos : Z; cn_crt : list Z; cn_uart : list Z;
  cn_locking : bool; cn_panicked : bool;
}.

Definition set_input (buf : list Z) (r w e : Z) (s : console) : console :=
  Cons buf r w e (cn_pos s) (cn_crt s) (cn_uart s) (cn_locking s) (cn_panicked s).
Definition set_screen (pos : Z) (crt : list Z) (s : console) : console :=
  Cons (cn_buf s) (cn_r s) (cn_w s) (cn_e s) pos crt (cn_uart s) (cn_locking s) (cn_panicked s).
Definition set_uart (l : list Z) (s : console) : console :=
  Cons (cn_buf s) (cn_r s) (cn_w s) (cn_e s) (cn_pos s) (cn_crt s) l (cn_locking s) (cn_panicked s).
Definition set_locking (b : bool) (s : console) : console :=
  Cons (cn_buf s) (cn_r s) (cn_w s) (cn_e s) (cn_pos s) (cn_crt s) (cn_uart s) b (cn_panicked s).
Definition set_panicked (b : bool) (s : console) : console :=
  Cons (cn_buf s) (cn_r s) (cn_w s) (cn_e s) (cn_pos s) (cn_crt s) (cn_uart s) (cn_locking s) b.

(** ** Output *)

(** [crt[pos] = x]; the text memory has [length crt] cells. *)
Definition crt_put (pos x : Z) : M console () := λ s,
  if decide (0 ≤ pos < Z.of_nat (length (cn_crt s)))
  then Ok tt (set_screen (cn_pos s) (<[Z.to_nat pos := x]> (cn_crt s)) s)
  else Fault "crt".

(** [memmove(crt, crt+80, ...)] and [memset(crt+pos, 0, ...)]. *)
Definition crt_scroll (pos : Z) (crt : list Z) : list Z :=
  let crt := take (23 * 80) (drop 80 crt) ++ drop (23 * 80) crt in
  take (Z.to_nat pos) crt ++ replicate (24 * 80 - Z.to_nat pos) 0 ++ drop (24 * 80) crt.

(** The cursor register holds 16 bits. *)
Definition set_pos (pos : Z) : M console () := modify (λ s, set_screen (u16 pos) (cn_crt s) s).

Definition cgaputc (c : Z) : M console () :=
  pos ← gets cn_pos;
  pos ← (if c =? 10 then mret (pos + (80 - pos mod 80))
         else if c =? BACKSPACE then mret (if 0 <? pos then pos - 1 else pos)
         else crt_put pos (Z.lor (Z.land c 0xff) 0x0700);; mret (pos + 1));
  if (pos <? 0) || (25 * 80 <? pos) then panic "pos under/overflow" else
  pos ← (if 24 <=? pos / 80 then
           modify (λ s, set_screen (cn_pos s) (crt_scroll (pos - 80) (cn_crt s)) s);; mret (pos - 80)
         else mret pos);
  set_pos pos;;
  crt_put pos (Z.lor 32 0x0700).

Definition uartputc (c : Z) : M console () := modify (λ s, set_uart (cn_uart s ++ [u8 c]) s).

(** After a panic the CPU stops here. *)
Definition consputc (c : Z) : M console () :=
  p ← gets cn_panicked;
  if (p : bool) then spin else
  (if c =? BACKSPACE then uartputc 8;; uartputc 32;; uartputc 8 else uartputc c);;
  cgaputc c.

Fixpoint consputs (l : list Z) : M console () :=
  match l with
  | [] => mret tt
  | c :: l' => consputc c;; consputs l'
  end.

(** ** Formatting *)

(** ["0123456789abcdef"] *)
Definition digit (d : Z) : Z := if d <? 10 then 48 + d else 97 + (d - 10).

(** The do-while loop: the digits of [x], least significant first, each
    printed by [dig]. *)
Fixpoint digits (dig : Z → Z) (fuel : nat) (x base : Z) : list Z :=
  dig (x mod base) ::
  match fuel with
  | O => []
  | S fuel => if x / base =? 0 then [] else digits dig fuel (x / base) base
  end.

(** The characters in the order they are printed.  A 32-bit number has at
    most 32 digits. *)
Definition printint (xx base : Z) (sign : bool) : list Z :=
  let neg := sign && (i32 xx <? 0) in
  let x := if neg then u32 (- i32 xx) else u32 xx in
  reverse (digits digit 32 x base ++ if neg then [45] else []).

(** The arguments of [cprintf]: integers, and strings or null pointers. *)
Inductive carg := AInt (x : Z) | AStr (s : option (list Z)).

(** ["(null)"] *)
Definition null_text : list Z := [40; 110; 117; 108; 108; 41].

(** What [cprintf] prints; [None] when the arguments do not fit the format. *)
Fixpoint cprintf_text (fmt : list Z) (args : list carg) : option (list Z) :=
  match fmt with
  | [] => Some []
  | c :: fmt' =>
    if negb (c =? 37) then cons c <$> cprintf_text fmt' args else
    match fmt' with
    | [] => Some []
    | c :: fmt' =>
      if c =? 100 then
        match args with
        | AInt x :: args' => app (printint x 10 true) <$> cprintf_text fmt' args'
        | _ => None
        end
      else if (c =? 120) || (c =? 112) then
        match args with
        | AInt x :: args' => app (printint x 16 false) <$> cprintf_text fmt' args'
        | _ => None
        end
      else if c =? 115 then
        match args with
        | AStr s :: args' => app (default null_text s) <$> cprintf_text fmt' args'
        | _ => None
        end
      else if c =? 37 then cons 37 <$> cprintf_text fmt' args
      else app [37; c] <$> cprintf_text fmt' args
    end
  end.

(** [cprintf] without its lock. *)
Definition cprint (fmt : list Z) (args : list carg) : M console () :=
  match cprintf_text fmt args with
  | Some l => consputs l
  | None => fault "cprintf: arguments"
  end.
