(* ===== verification/Umem.v ===== *)
(** Access to user memory: loads and stores of the kernel through the page
    table in %cr3, and [copyout] of vm.c. *)

From S2P Require Import Prelude Memory Kstring Spinlock Mmu Kalloc Vm Proc Block VmInv VmWalk VmMap VmFree VmKern.
From S2P Require Import VmUser VmCopy Cow VmDemo.

(** The bytes [l] stored at [a]. *)
Fixpoint wr_bytes (m : memory) (a : Z) (l : list Z) : memory :=
  match l with
  | [] => m
  | b :: l' => wr_bytes (wr8 m a b) (a + 1) l'
  end.

(** ** Access through the page table

    The hardware walk for a supervisor access with CR0_WP set (entry.S): a
    page must be present, and writable for a store. *)
Definition translate (va : Z) (write : bool) : M vst (option Z) :=
  cr3 ← gets v_cr3;
  d ← in_k (load32 (P2V cr3 + 4 * PDX va));
  if negb (flag_set d PTE_P) then mret None else
  e ← in_k (load32 (P2V (PTE_ADDR d) + 4 * PTX va));
  if negb (flag_set e PTE_P) || (write && negb (flag_set e PTE_W)) then mret None else
  mret (Some (P2V (PTE_ADDR e) + va mod PGSIZE)).

(** A page fault in the kernel runs [CoW_handler] and repeats the access.
    An access that cannot be repaired would make the process exit in the
    middle of the kernel. *)
Definition access (va : Z) (write : bool) : M vst Z :=
  a ← translate va write;
  match a with
  | Some a => mret a
  | None =>
    cr3 ← gets v_cr3;
    r ← CoW_handler (P2V cr3) va;
    match r with
    | CowExit => fault "kernel access to an unmapped user page"
    | CowDone =>
      a ← translate va write;
      match a with Some a => mret a | None => fault "page fault repeats" end
    end
  end.

Definition uload8 (va : Z) : M vst Z :=
  a ← access va false;
  in_k (gets (λ k, rd8 (k_mem k) a)).

Definition ustore8 (va b : Z) : M vst () :=
  a ← access va true;
  in_k (mod_mem (λ m, wr8 m a b)).

Fixpoint uload (va : Z) (n : nat) : M vst (list Z) :=
  match n with
  | O => mret []
  | S n' => b ← uload8 va; l ← uload (u32 (va + 1)) n'; mret (b :: l)
  end.

Fixpoint ustore (va : Z) (l : list Z) : M vst () :=
  match l with
  | [] => mret tt
  | b :: l' => ustore8 va b;; ustore (u32 (va + 1)) l'
  end.

Definition uload32 (va : Z) : M vst Z := l ← uload va 4; mret (of_le l).
Definition ustore32 (va v : Z) : M vst () := ustore va (to_le 4 v).

(** ** copyout *)

(** Copies to user memory through any page table, page by page; [buf] are
    the bytes at the source pointer. *)
Fixpoint copyout_loop (pgdir va : Z) (buf : list Z) (fuel : nat) : M kst Z :=
  let len := Z.of_nat (length buf) in
  if negb (0 <? len) then mret 0 else
  match fuel with
  | O => fault "copyout fuel"
  | S fuel' =>
      let va0 := PGROUNDDOWN va in
      pa0 ← uva2ka pgdir va0;
      if pa0 =? 0 then mret (-1) else
      let n := u32 (PGSIZE - (va - va0)) in
      let n := if len <? n then len else n in
      mod_mem (λ m, wr_bytes m (pa0 + (va - va0)) (take (Z.to_nat n) buf));;
      copyout_loop pgdir (u32 (va0 + PGSIZE)) (list.drop (Z.to_nat n) buf) fuel'
  end.

Definition copyout (pgdir va : Z) (buf : list Z) : M kst Z :=
  copyout_loop pgdir va buf (Z.to_nat (Z.of_nat (length buf) / PGSIZE + 2)).

(** ** What the loads and stores do

    What the kernel's loads and stores to user memory do: a load reads what
    the process sees, and a store gives the process pages of its own where
    they were shared copy-on-write, so that only that process sees it. *)

(** The pages that [n] bytes from [va] lie in, by number. *)
Definition span (va n : Z) : list Z := seqZ (va / PGSIZE) ((va + n + PGSIZE - 1) / PGSIZE - va / PGSIZE).

(** How many of them are not writable in [d]. *)
Definition readonly (m : memory) (d va n : Z) : nat :=
  length (filter (λ i, flag_set (pte m d (i * PGSIZE)) PTE_W = false) (span va n)).

Lemma span_cons va n : 0 ≤ va → 0 < n →
  ∃ l, span va n = va / PGSIZE :: l ∧ va / PGSIZE ∉ l ∧ Forall (λ i, 0 ≤ i ≤ (va + n - 1) / PGSIZE) l.
Proof.
  intros Hva Hn. unfold span. rewrite seqZ_cons by (unfold PGSIZE; Z.div_mod_to_equations; lia).
  eexists. split; [reflexivity|]. split.
  - rewrite elem_of_seqZ. lia.
  - apply Forall_forall. intros i. rewrite elem_of_seqZ. unfold PGSIZE. Z.div_mod_to_equations. lia.
Qed.

Lemma span_next va n : 0 ≤ va → 0 < n → span (va + 1) (n - 1) `sublist_of` span va n.
Proof.
  intros Hva Hn. unfold span. replace (va + 1 + (n - 1)) with (va + n) by lia.
  assert ((va + 1) / PGSIZE = va / PGSIZE ∨ (va + 1) / PGSIZE = Z.succ (va / PGSIZE)) as [-> | ->]; [|done|].
  { unfold PGSIZE. Z.div_mod_to_equations. lia. }
  rewrite (seqZ_cons (va / PGSIZE)) by (unfold PGSIZE; Z.div_mod_to_equations; lia).
  rewrite Z.sub_succ_r. apply sublist_cons. reflexivity.
Qed.

Lemma readonly_next m d va n : 0 ≤ va → 0 < n → (readonly m d (va + 1) (n - 1) ≤ readonly m d va n)%nat.
Proof.
  intros Hva Hn. unfold readonly. induction (span_next va n Hva Hn) as [|x l k _ IH|x l k _ IH]; [done|..];
    rewrite !filter_cons; repeat case_decide; cbn; lia.
Qed.

Lemma filter_ext_in {A} (P Q : A → Prop) `{!∀ x, Decision (P x), !∀ x, Decision (Q x)} (l : list A) :
  Forall (λ x, P x ↔ Q x) l → filter P l = filter Q l.
Proof. induction 1 as [|x l Hx Hl IH]; [done|]. rewrite !filter_cons, IH. repeat case_decide; tauto. Qed.

Lemma readonly_ext m m' d va n :
  (∀ i, flag_set (pte m' d (i * PGSIZE)) PTE_W = flag_set (pte m d (i * PGSIZE)) PTE_W) →
  readonly m' d va n = readonly m d va n.
Proof. intros H. unfold readonly. f_equal. apply list_filter_iff. intros i. by rewrite H. Qed.

Section umem.
Context (kend : Z) (Hkend : KERNLINK ≤ kend).
Implicit Types (s : vst) (p : pool) (ds : list Z) (kref : Z → Z).

(** The kernel runs in address space [d]. *)
Record in_space s (c : nat) p ds kref (d : Z) : Prop := {
  sp_inv : vinv kend (v_k s) p ds kref;
  sp_pos : kpos kref;
  sp_ready : kready (v_k s) c;
  sp_dir : d ∈ ds;
  sp_cr3 : v_cr3 s = V2P d;
}.

Lemma space_dir s c p ds kref d : in_space s c p ds kref d → P2V (v_cr3 s) = d.
Proof using Hkend.
  intros [I _ _ Hd ->]. apply P2V_V2P. destruct (page_ok_pos kend Hkend d) as [Hp _].
  - by apply (vi_tab _ _ _ _ _ I d None); [|apply elem_of_slots|].
  - unfold KERNLINK, KERNBASE, EXTMEM in *. lia.
Qed.

Lemma translate_run s c p ds kref d va w : in_space s c p ds kref d →
  let e := pte (k_mem (v_k s)) d va in
  translate va w s =
    Ok (if flag_set e PTE_P && (negb w || flag_set e PTE_W) then Some (upage e + va mod PGSIZE) else None) s.
Proof using Hkend.
  intros S e. unfold translate. erewrite bind_run; [|reflexivity]. rewrite (space_dir _ _ _ _ _ _ S).
  erewrite bind_run; [|by apply zoom_Ok]. replace (set_k (v_k s) s) with s by (by destruct s).
  unfold e, pte, pgtab. destruct (flag_set (rd32 _ _) PTE_P) eqn:HP; cbn [negb]; [|done].
  erewrite bind_run; [|by apply zoom_Ok]. replace (set_k (v_k s) s) with s by (by destruct s).
  unfold upage. set (x := rd32 _ _). destruct (flag_set x PTE_P), w, (flag_set x PTE_W); reflexivity.
Qed.

(** A load of a mapped byte. *)
Lemma uload8_run s c p ds kref d va b : in_space s c p ds kref d →
  ubyte (k_mem (v_k s)) d va = Some b → uload8 va s = Ok b s.
Proof using Hkend.
  intros S Hb. unfold uload8, access. unfold ubyte in Hb.
  erewrite bind_run; [|erewrite bind_run; [|by eapply translate_run]].
  2:{ destruct (flag_set _ PTE_P); [|done]. cbn. reflexivity. }
  destruct (flag_set _ PTE_P); [|done]. injection Hb as <-. by destruct s.
Qed.

(** [l] are the bytes that a process sees from [va] on. *)
Definition useen (m : memory) (d va : Z) (l : list Z) : Prop :=
  ∀ i b, l !! i = Some b → ubyte m d (va + Z.of_nat i) = Some b.

Lemma useen_cons m d va b l : useen m d va (b :: l) ↔ ubyte m d va = Some b ∧ useen m d (va + 1) l.
Proof.
  split.
  - intros H. split; [rewrite <- (Z.add_0_r va); by apply (H 0%nat)|].
    intros i x Hx. replace (va + 1 + Z.of_nat i) with (va + Z.of_nat (S i)) by lia. by apply H.
  - intros [H1 H2] [|i] x Hx; cbn in Hx; [by injection Hx as ->; rewrite Z.add_0_r|].
    replace (va + Z.of_nat (S i)) with (va + 1 + Z.of_nat i) by lia. by apply H2.
Qed.

Lemma uload_run s c p ds kref d : in_space s c p ds kref d → ∀ l va,
  0 ≤ va → va + Z.of_nat (length l) ≤ KERNBASE → useen (k_mem (v_k s)) d va l → uload va (length l) s = Ok l s.
Proof using Hkend.
  intros S l. induction l as [|b l IH]; intros va Hva Hle Hl; [done|]. apply useen_cons in Hl as [Hb Hl].
  cbn [length] in *. cbn [uload]. erewrite bind_run; [|by eapply uload8_run].
  rewrite u32_small by (unfold KERNBASE in *; lia). erewrite bind_run; [done|]. apply IH; [lia|lia|done].
Qed.

(** A page that was not writable and now is. *)
Lemma readonly_taken m m' d va n :
  0 ≤ va → 0 < n → va + n ≤ KERNBASE →
  flag_set (pte m d va) PTE_W = false → flag_set (pte m' d va) PTE_W = true →
  (∀ vb, 0 ≤ vb < 2 ^ 32 → vb / PGSIZE ≠ va / PGSIZE → pte m' d vb = pte m d vb) →
  readonly m d va n = S (readonly m' d va n).
Proof.
  intros Hva Hn Hle H0 H1 Heq. destruct (span_cons va n) as (l & El & Hnin & Hl); [done..|].
  unfold readonly. rewrite El, !filter_cons. rewrite (pte_page m), (pte_page m') in * by (unfold KERNBASE in *; lia).
  rewrite decide_True, decide_False by (done || congruence). cbn [length]. f_equal. f_equal.
  symmetry. apply filter_ext_in. rewrite Forall_forall in *. intros i Hi. rewrite Heq; [done|..].
  - specialize (Hl i Hi). unfold PGSIZE, KERNBASE in *. Z.div_mod_to_equations. lia.
  - rewrite Z.div_mul by done. intros ->. done.
Qed.

Lemma ubyte_present m d va : is_Some (ubyte m d va) ↔ flag_set (pte m d va) PTE_P = true.
Proof. unfold ubyte. destruct (flag_set _ _); [|split; [by intros []|done]]. split; [done|by eexists]. Qed.

(** The address a store to a mapped byte goes to: the page is the process's
    own by then. *)
Lemma access_write_wp s c p ds kref d va n Q :
  in_space s c p ds kref d → 0 ≤ va → 0 < n → va + n ≤ KERNBASE → is_Some (ubyte (k_mem (v_k s)) d va) →
  (readonly (k_mem (v_k s)) d va n ≤ length (free p))%nat →
  (∀ s' p', in_space s' c p' ds kref d → kframe (v_k s) (v_k s') →
     flag_set (pte (k_mem (v_k s')) d va) PTE_P = true → flag_set (pte (k_mem (v_k s')) d va) PTE_W = true →
     (∀ d' vb, d' ∈ ds → 0 ≤ vb < KERNBASE → ubyte (k_mem (v_k s')) d' vb = ubyte (k_mem (v_k s)) d' vb) →
     (readonly (k_mem (v_k s')) d va n ≤ length (free p'))%nat →
     Q (upage (pte (k_mem (v_k s')) d va) + va mod PGSIZE) s') →
  wp (access va true) Q s.
Proof using Hkend.
  intros S Hva Hn Hle HP%ubyte_present Hfree HQ. assert (0 ≤ va < KERNBASE) as Hva' by lia.
  unfold access. apply wp_bind. eapply wp_run; [by eapply translate_run|]. rewrite HP. cbn [negb orb andb].
  destruct (flag_set (pte (k_mem (v_k s)) d va) PTE_W) eqn:HW.
  { apply wp_ret. by eapply HQ. }
  pose proof S as [I Hpos Hr Hd Hc]. apply wp_bind, wp_gets. rewrite (space_dir _ _ _ _ _ _ S).
  apply wp_bind. eapply (CoW_handler_wp kend Hkend s c p ds kref d va); try done.
  { intros _ E. rewrite E in Hfree. destruct (span_cons va n) as (l & El & _); [done..|].
    unfold readonly in Hfree. rewrite El, filter_cons, decide_True in Hfree; [cbn in Hfree; lia|].
    rewrite <- pte_page; [done|]. unfold KERNBASE in *. lia. }
  intros s' p' I' R' C' _ Hlen.
  assert (in_space s' c p' ds kref d) as S' by (split; try done; eapply kready_frame; [apply R'|done]).
  apply wp_bind. eapply wp_run; [by eapply translate_run|].
  rewrite (rs_P _ _ _ _ _ R'), (rs_W _ _ _ _ _ R'). cbn [negb orb andb]. apply wp_ret.
  eapply (HQ s' p'); [done|apply R'|apply R'|apply R'|apply R'|].
  rewrite (readonly_taken _ (k_mem (v_k s')) d va n) in Hfree; [lia|try done..|].
  - apply R'.
  - intros vb Hvb Hne. apply R'; [done|done|]. by intros [].
Qed.

(** The memory that processes see after bytes [l] were stored at [va] of [d]. *)
Definition stored ds (d va : Z) (l : list Z) (m m' : memory) : Prop :=
  ∀ d' vb, d' ∈ ds → 0 ≤ vb < KERNBASE →
    ubyte m' d' vb = if decide (d' = d ∧ va ≤ vb < va + Z.of_nat (length l))
                     then u8 <$> l !! Z.to_nat (vb - va) else ubyte m d' vb.

Lemma stored_present ds d va l m m' d' vb : stored ds d va l m m' → d' ∈ ds → 0 ≤ vb < KERNBASE →
  is_Some (ubyte m d' vb) → is_Some (ubyte m' d' vb).
Proof.
  intros H Hd Hvb Hs. rewrite H by done. case_decide as E; [|done]. destruct E as [_ E].
  apply fmap_is_Some, lookup_lt_is_Some. lia.
Qed.

Lemma stored_cons ds d va b l m m1 m' : 0 ≤ va →
  stored ds d va [b] m m1 → stored ds d (va + 1) l m1 m' → stored ds d va (b :: l) m m'.
Proof.
  intros Hva H1 H2 d' vb Hd Hvb. rewrite H2, H1 by done. cbn [length].
  destruct (decide (d' = d)) as [->|]; [|rewrite !decide_False by (by intros []); done].
  destruct (decide (vb = va)) as [->|Hne].
  - rewrite decide_False, !decide_True by lia. by rewrite Z.sub_diag.
  - rewrite (decide_False (P := d = d ∧ va ≤ vb < va + Z.of_nat 1)) by lia.
    destruct (decide (d = d ∧ va + 1 ≤ vb < va + 1 + Z.of_nat (length l))); [|by rewrite decide_False by lia].
    rewrite decide_True by lia. by replace (Z.to_nat (vb - va)) with (S (Z.to_nat (vb - (va + 1)))) by lia.
Qed.

Lemma ustore8_wp s c p ds kref d va n b Q :
  in_space s c p ds kref d → 0 ≤ va → 0 < n → va + n ≤ KERNBASE → is_Some (ubyte (k_mem (v_k s)) d va) →
  (readonly (k_mem (v_k s)) d va n ≤ length (free p))%nat →
  (∀ s' p', in_space s' c p' ds kref d → kframe (v_k s) (v_k s') →
     stored ds d va [b] (k_mem (v_k s)) (k_mem (v_k s')) →
     (readonly (k_mem (v_k s')) d (va + 1) (n - 1) ≤ length (free p'))%nat → Q tt s') →
  wp (ustore8 va b) Q s.
Proof using Hkend.
  intros S Hva Hn Hle HP Hfree HQ. unfold ustore8. apply wp_bind.
  eapply (access_write_wp s c p ds kref d va n); try done.
  intros s' p' S' F' HP' HW' Hb' Hfree'. unfold in_k. apply wp_zoom. unfold mod_mem. wp_auto.
  pose proof S' as [I Hpos Hr Hd Hc].
  destruct (user_store_isolated kend Hkend _ _ _ _ d va b I Hpos Hd ltac:(lia) HP' HW') as (I2 & Hag & Hb2).
  apply (HQ _ p'); cbn [v_k set_k v_cr3].
  - split; try done.
  - by etrans.
  - intros d' vb Hd' Hvb. etrans; [by apply Hb2|]. cbn [length].
    destruct (decide (d' = d ∧ vb = va)) as [[-> ->]|E].
    + rewrite decide_True by lia. by rewrite Z.sub_diag.
    + rewrite decide_False by (intros [-> ?]; apply E; lia). by apply Hb'.
  - etrans; [|apply Hfree']. etrans; [|by apply readonly_next].
    apply Nat.eq_le_incl, readonly_ext. intros i. f_equal. by apply (pte_agree _ _ _ Hag).
Qed.

Lemma ustore_wp l : ∀ s c p ds kref d va Q,
  in_space s c p ds kref d → 0 ≤ va → va + Z.of_nat (length l) ≤ KERNBASE →
  (∀ vb, va ≤ vb < va + Z.of_nat (length l) → is_Some (ubyte (k_mem (v_k s)) d vb)) →
  (readonly (k_mem (v_k s)) d va (Z.of_nat (length l)) ≤ length (free p))%nat →
  (∀ s' p', in_space s' c p' ds kref d → kframe (v_k s) (v_k s') →
     stored ds d va l (k_mem (v_k s)) (k_mem (v_k s')) → Q tt s') →
  wp (ustore va l) Q s.
Proof using Hkend.
  induction l as [|b l IH]; intros s c p ds kref d va Q S Hva Hle HP Hfree HQ; cbn [ustore length] in *.
  { apply wp_ret. eapply HQ; [done|done|]. intros d' vb Hd' Hvb. by rewrite decide_False by (cbn; lia). }
  apply wp_bind. eapply (ustore8_wp s c p ds kref d va (Z.of_nat (Datatypes.S (length l)))); [done|done|lia|done|apply HP; lia|done|].
  intros s1 p1 S1 F1 B1 Hfree1. rewrite u32_small by (unfold KERNBASE in *; lia).
  eapply (IH s1 c p1 ds kref d); [done|lia|lia|..].
  - intros vb Hvb. eapply stored_present; [done|apply S1|lia|]. apply HP. lia.
  - by replace (Z.of_nat (length l)) with (Z.of_nat (Datatypes.S (length l)) - 1) by lia.
  - intros s2 p2 S2 F2 B2. eapply HQ; [done|by etrans|by eapply stored_cons].
Qed.

(** C3. The kernel copies a buffer to user memory, as [read] does for a
    process, whose pages are mapped but may be shared copy-on-write, with a
    free page for each page of the buffer that the process cannot write: the
    copy ends, that process sees the buffer and no process sees any other
    change, and the reference counts stay exact.  Page faults taken on the
    way are resolved by [CoW_handler]. *)
Theorem ustore_isolated s c p ds kref d va l :
  in_space s c p ds kref d → 0 ≤ va → va + Z.of_nat (length l) ≤ KERNBASE →
  (∀ vb, va ≤ vb < va + Z.of_nat (length l) → is_Some (ubyte (k_mem (v_k s)) d vb)) →
  (readonly (k_mem (v_k s)) d va (Z.of_nat (length l)) ≤ length (free p))%nat →
  wp (ustore va l) (λ _ s', (∃ p', in_space s' c p' ds kref d) ∧
    stored ds d va l (k_mem (v_k s)) (k_mem (v_k s'))) s.
Proof using Hkend. intros S Hva Hle HP Hfree. eapply ustore_wp; eauto. Qed.
End umem.

(** The page at 0x1000 is shared with the one at 0; a buffer that reaches
    from it into the next page. *)
Lemma ustore_isolated_witness :
  wp (ustore 0x1FFE [1; 2; 3]) (λ _ s', ubyte (k_mem (v_k s')) dm_dir 0x1FFF = Some 2 ∧
    ubyte (k_mem (v_k s')) dm_dir 0x2000 = Some 3 ∧ ubyte (k_mem (v_k s')) dm_dir 0xFFF = Some 0)
    (Vst dm_k (V2P dm_dir) 0).
Proof.
  eapply wp_mono.
  - apply (ustore_isolated dm_end dm_end_ok (Vst dm_k (V2P dm_dir) 0) 0 dm_pool [dm_dir] (λ _, 0) dm_dir 0x1FFE [1; 2; 3]).
    + split; [exact dm_inv|exact dm_pos|exact dm_ready|by left|reflexivity].
    + lia.
    + vm_compute. congruence.
    + intros vb Hvb. change (0x1FFE ≤ vb < 0x1FFE + 3) in Hvb.
      assert (vb = 0x1FFE ∨ vb = 0x1FFF ∨ vb = 0x2000) as [-> |[-> | ->]] by lia; vm_compute; by eexists.
    + vm_compute. lia.
  - intros _ s' [_ H].
    split; [|split]; (etrans; [apply H; [by left|vm_compute; intuition congruence]|vm_compute; reflexivity]).
Defined.
