(* ===== verification/Kern.v ===== *)
(** The kernel's state with all its parts: processes and memory ([Proc],
    [Vm]), the file system ([Fs]), the file table, the pipes, the clock and
    the console. *)

From S2P Require Import Prelude Memory Kstring Spinlock Mmu Kalloc Vm Proc Block Ide Bio Log Fs Cons.

(** ** Data (file.h, pipe.c) *)

Inductive ftype := FD_NONE | FD_PIPE | FD_INODE.

#[global] Instance ftype_eq_dec : EqDecision ftype.
Proof. solve_decision. Defined.

(** [struct file]; a pipe is its address, an inode its index. *)
Record file := File {
  fl_type : ftype; fl_ref : Z; fl_readable : bool; fl_writable : bool; fl_pipe : Z; fl_ip : nat; fl_off : Z;
}.

Definition set_fl_ref (n : Z) (f : file) : file :=
  File (fl_type f) n (fl_readable f) (fl_writable f) (fl_pipe f) (fl_ip f) (fl_off f).
Definition set_fl_type (t : ftype) (f : file) : file :=
  File t (fl_ref f) (fl_readable f) (fl_writable f) (fl_pipe f) (fl_ip f) (fl_off f).
Definition set_fl_off (n : Z) (f : file) : file :=
  File (fl_type f) (fl_ref f) (fl_readable f) (fl_writable f) (fl_pipe f) (fl_ip f) n.

Definition PIPESIZE : Z := 512.

(** [struct pipe], without its lock. *)
Record pipe := Pipe { pp_data : list Z; pp_nread : Z; pp_nwrite : Z; pp_readopen : bool; pp_writeopen : bool }.

(** The kernel. *)
Record sys := Sys {
  s_p : pst;
  s_f : fsst;
  s_files : list file;
  s_pipes : gmap Z pipe;
  s_ticks : Z;
  s_cons : console;
}.

Definition set_sp (p : pst) (s : sys) : sys := Sys p (s_f s) (s_files s) (s_pipes s) (s_ticks s) (s_cons s).
Definition set_sf (f : fsst) (s : sys) : sys := Sys (s_p s) f (s_files s) (s_pipes s) (s_ticks s) (s_cons s).
Definition set_files (l : list file) (s : sys) : sys := Sys (s_p s) (s_f s) l (s_pipes s) (s_ticks s) (s_cons s).
Definition set_pipes (m : gmap Z pipe) (s : sys) : sys := Sys (s_p s) (s_f s) (s_files s) m (s_ticks s) (s_cons s).
Definition set_ticks (n : Z) (s : sys) : sys := Sys (s_p s) (s_f s) (s_files s) (s_pipes s) n (s_cons s).

Definition set_cons (c : console) (s : sys) : sys := Sys (s_p s) (s_f s) (s_files s) (s_pipes s) (s_ticks s) c.

(** ** Running the parts *)

Definition in_p {A} (m : M pst A) : M sys A := zoom s_p set_sp m.
Definition in_cons {A} (m : M console A) : M sys A := zoom s_cons set_cons m.
Definition in_kst {A} (m : M kst A) : M sys A := in_p (in_v (in_k m)).
Definition in_vst {A} (m : M vst A) : M sys A := in_p (in_v m).
Definition lock (lk : lockid) : M sys () := in_p (on_mach (acquire lk)).
Definition unlock (lk : lockid) : M sys () := in_p (on_mach (release lk)).

(** The process that runs: [myproc()], dereferenced. *)
Definition curproc : M sys (nat * proc) :=
  i ← in_p myproc;
  match i with
  | None => fault "myproc() is null"
  | Some i =>
    p ← gets (λ s, procs (s_p s) !! i);
    match p with Some p => mret (i, p) | None => fault "ptable index" end
  end.

(** [myproc()->killed] *)
Definition is_killed : M sys bool := c ← curproc; mret (p_killed c.2).

Definition mod_cur (f : proc → proc) : M sys () :=
  c ← curproc;
  in_p (mod_proc c.1 f).

(** File-system code runs with the pid and the directory of the process. *)
Definition set_mypid (pid : Z) (b : bst) : bst :=
  Bst (disk b) (writes b) (idecmd b) (idequeue b) (havedisk1 b) (bufs b) (lru b) pid.
Definition enter_fs (p : proc) (f : fsst) : fsst :=
  Fsst (Lst (set_mypid (p_pid p) (l_b (f_l f))) (l_log (f_l f))) (f_sb f) (f_inodes f) (default 0%nat (p_cwd p)).
Definition in_fs {A} (m : M fsst A) : M sys A :=
  c ← curproc;
  zoom (λ s, enter_fs c.2 (s_f s)) set_sf m.

Definition get_file (f : nat) : M sys file :=
  x ← gets (λ s, s_files s !! f);
  match x with Some x => mret x | None => fault "ftable index" end.
Definition mod_file (f : nat) (g : file → file) : M sys () :=
  modify (λ s, set_files (alter g f (s_files s)) s).
Definition get_pipe (p : Z) : M sys pipe :=
  x ← gets (λ s, s_pipes s !! p);
  match x with Some x => mret x | None => fault "pipe freed" end.
Definition put_pipe (p : Z) (x : pipe) : M sys () := modify (λ s, set_pipes (<[p := x]> (s_pipes s)) s).
