(* ===== verification/KernSpec.v ===== *)
(** Sections of kernel code under a spin lock, in the kernel's state: what
    locking, unlocking, [myproc], [wakeup] and [sleep] do there. *)

From S2P Require Import Prelude Memory Kstring Spinlock Mmu Kalloc Vm Proc ProcSpec Block Ide Bio Log Fs Kern.

(** Process [j] runs on CPU [i] and holds no lock; [mc] is the machine. *)
Record running (mc : mach) (i j : nat) : Prop := {
  ru_cpu : cpu_ok mc i;
  ru_locks : no_locks mc i;
  ru_cur : current mc i = Some j;
}.

(** The same process inside a section of the lock [lk], which the machine
    [mc0] before it did not hold. *)
Record in_section (s : sys) (lk : lockid) (mc0 : mach) (i j : nat) (pr : proc) : Prop := {
  is_run : running mc0 i j;
  is_ptable : lock_free mc0 LkPtable;
  is_lock : lock_free mc0 lk;
  is_mach : p_mach (s_p s) ≡ acquired i lk mc0;
  is_proc : procs (s_p s) !! j = Some pr;
  is_running : p_state pr = RUNNING;
}.

(** The kernel after a section that has changed the machine and the process
    table only. *)
Definition with_pm (mc : mach) (ps : list proc) (s : sys) : sys := set_sp (with_mach mc (set_procs ps (s_p s))) s.

Lemma lock_wp s lk i j pr Q :
  running (p_mach (s_p s)) i j → lock_free (p_mach (s_p s)) LkPtable → lock_free (p_mach (s_p s)) lk →
  procs (s_p s) !! j = Some pr → p_state pr = RUNNING →
  (∀ mc, let s' := set_sp (with_mach mc (s_p s)) s in in_section s' lk (p_mach (s_p s)) i j pr → Q tt s') →
  wp (lock lk) Q s.
Proof.
  intros R Hp Hl Hj Hr HQ. apply wp_zoom. eapply (on_acquire _ i); [split; [apply R|done]|]. intros mc Hmc.
  apply HQ. by split.
Qed.

Lemma unlock_wp s lk mc0 i j pr Q :
  in_section s lk mc0 i j pr → (∀ mc, mc ≡ mc0 → Q tt (set_sp (with_mach mc (s_p s)) s)) → wp (unlock lk) Q s.
Proof.
  intros [R Hp Hl Hm Hj Hr] HQ. apply wp_zoom. eapply (on_release _ mc0 i); [apply R|done|done|]. done.
Qed.

Lemma in_section_mach s lk mc0 i j pr mc :
  in_section s lk mc0 i j pr → mc ≡ p_mach (s_p s) → in_section (set_sp (with_mach mc (s_p s)) s) lk mc0 i j pr.
Proof. intros [R Hp Hl Hm Hj Hr] E. split; try done. cbn. by rewrite E. Qed.

Lemma curproc_wp s lk mc0 i j pr Q :
  in_section s lk mc0 i j pr →
  (∀ mc, let s' := set_sp (with_mach mc (s_p s)) s in in_section s' lk mc0 i j pr → Q (j, pr) s') → wp curproc Q s.
Proof.
  intros S HQ. pose proof S as [R Hp Hl Hm Hj Hr]. unfold curproc. apply wp_bind, wp_zoom.
  apply (myproc_wp _ i). { rewrite Hm. apply cpu_ok_acquired, R. }
  intros mc Hmc. rewrite (current_acquired _ _ _ _ Hm), (ru_cur _ _ _ R). apply wp_bind, wp_gets. cbn [s_p set_sp procs with_mach set_v].
  rewrite Hj. apply wp_ret, HQ. by apply in_section_mach.
Qed.

Lemma is_killed_wp s lk mc0 i j pr Q :
  in_section s lk mc0 i j pr →
  (∀ mc, let s' := set_sp (with_mach mc (s_p s)) s in in_section s' lk mc0 i j pr → Q (p_killed pr) s') → wp is_killed Q s.
Proof. intros S HQ. unfold is_killed. apply wp_bind. eapply curproc_wp; [done|]. intros mc s' S'. by apply wp_ret, HQ. Qed.

Lemma wake_wake c p : wake c (wake c p) = wake c p.
Proof. unfold wake at 1. case_decide as E; [|done]. unfold wake in *. case_decide; [by destruct E|done]. Qed.

Lemma wakeup_in_section s lk mc0 i j pr c Q :
  in_section s lk mc0 i j pr → lk ≠ LkPtable →
  (∀ mc, let s' := with_pm mc (wake c <$> procs (s_p s)) s in in_section s' lk mc0 i j pr → Q tt s') →
  wp (in_p (wakeup c)) Q s.
Proof.
  intros S Hne HQ. pose proof S as [R Hp Hl Hm Hj Hr]. apply wp_zoom. eapply (wakeup_wp _ i).
  - split; [rewrite Hm; apply cpu_ok_acquired, R|]. rewrite Hm. by apply lock_free_acquired.
  - intros mc Hmc. apply HQ. split; try done.
    + cbn. by rewrite Hmc.
    + cbn. rewrite list_lookup_fmap, Hj. cbn. f_equal. unfold wake. rewrite decide_False; [done|]. rewrite Hr. by intros [].
Qed.

Lemma sleep_in_section s lk mc0 i j pr c Q :
  in_section s lk mc0 i j pr →
  (∀ mc, mc ≡ acquired i LkPtable mc0 →
     Q (hw_if mc0) (with_pm mc (alter (asleep c) j (procs (s_p s))) s)) →
  wp (in_p (sleep_enter c lk)) Q s.
Proof.
  intros [R Hp Hl Hm Hj Hr] HQ. apply wp_zoom. by eapply (sleep_enter_wp _ mc0 i j); [apply R..| | | | |].
Qed.

(** ** Outside of any section *)

(** Process [j] runs on CPU [i] in the kernel, and no spin lock is held. *)
Record calm (s : sys) (i j : nat) (pr : proc) : Prop := {
  ca_run : running (p_mach (s_p s)) i j;
  ca_free : ∀ lk, lock_free (p_mach (s_p s)) lk;
  ca_proc : procs (s_p s) !! j = Some pr;
  ca_state : p_state pr = RUNNING;
}.

#[global] Instance running_proper : Proper ((≡) ==> (=) ==> (=) ==> iff) running.
Proof.
  assert (∀ mc mc' i j, mc ≡ mc' → running mc i j → running mc' i j) as H.
  { intros mc mc' i j E [R1 R2 R3]. split; by rewrite <- E. }
  intros mc mc' E i ? <- j ? <-. split; by apply H.
Qed.

(** The conditions only look at the machine and the table. *)
Lemma calm_state s s' i j pr :
  calm s i j pr → p_mach (s_p s') ≡ p_mach (s_p s) → procs (s_p s') !! j = Some pr → calm s' i j pr.
Proof. intros [R F P S] E Hp. split; try done; [by rewrite E|]. intros lk. rewrite E. apply F. Qed.

Lemma calm_ready s i j pr : calm s i j pr → kready (v_k (p_v (s_p s))) i.
Proof. intros [R F _ _] _. split; [apply R|apply F]. Qed.

Lemma calm_lock s i j pr lk : calm s i j pr → can_lock (s_p s) i lk.
Proof. intros [R F _ _]. split; [apply R|apply F]. Qed.

Lemma curproc_calm s i j pr Q :
  calm s i j pr → (∀ mc, mc ≡ p_mach (s_p s) → Q (j, pr) (set_sp (with_mach mc (s_p s)) s)) → wp curproc Q s.
Proof.
  intros [R F P S] HQ. unfold curproc. apply wp_bind, wp_zoom, (myproc_wp _ i); [apply R|]. intros mc Hmc.
  rewrite (ru_cur _ _ _ R). apply wp_bind, wp_gets. cbn [s_p set_sp procs with_mach set_v]. rewrite P.
  by apply wp_ret, HQ.
Qed.

(** File-system code runs on the file system alone. *)
Lemma in_fs_calm {A} s i j pr (m : M fsst A) Q :
  calm s i j pr →
  (∀ mc, mc ≡ p_mach (s_p s) →
     wp m (λ a f, Q a (set_sf f (set_sp (with_mach mc (s_p s)) s))) (enter_fs pr (s_f s))) →
  wp (in_fs m) Q s.
Proof.
  intros C HQ. unfold in_fs. apply wp_bind. eapply curproc_calm; [done|]. intros mc Hmc. apply wp_zoom. by apply HQ.
Qed.

(** A section of the lock [lk]. *)
Lemma section_calm {A} s i j pr lk (m : M sys A) Q :
  calm s i j pr →
  (∀ mc, let s' := set_sp (with_mach mc (s_p s)) s in in_section s' lk (p_mach (s_p s)) i j pr → wp m Q s') →
  wp (lock lk;; m) Q s.
Proof. intros [R F P S] HQ. apply wp_bind. eapply lock_wp; eauto. Qed.

(** ** Canonical states

    A kernel state with its machine, process table, open files and file
    system replaced: what a call outside of any section can change, apart
    from memory. *)
Definition upd (mc : mach) (ps : list proc) (fl : list file) (f : fsst) (s : sys) : sys :=
  Sys (with_mach mc (set_procs ps (s_p s))) f fl (s_pipes s) (s_ticks s) (s_cons s).

Lemma upd_id s : upd (p_mach (s_p s)) (procs (s_p s)) (s_files s) (s_f s) s = s.
Proof. by destruct s as [[[[]]]]. Qed.

Section upd.
Context (mc : mach) (ps : list proc) (fl : list file) (fs : fsst) (s : sys) (i j : nat) (pr : proc).

Lemma calm_upd : calm (upd mc ps fl fs s) i j pr → ∀ mc' ps' fl' fs',
  mc' ≡ mc → ps' !! j = Some pr → calm (upd mc' ps' fl' fs' s) i j pr.
Proof. intros C mc' ps' fl' fs' E Hp. by apply (calm_state (upd mc ps fl fs s)). Qed.

Lemma in_fs_upd {A} (m : M fsst A) Q :
  calm (upd mc ps fl fs s) i j pr →
  (∀ mc', mc' ≡ mc → wp m (λ a f, Q a (upd mc' ps fl f s)) (enter_fs pr fs)) →
  wp (in_fs m) Q (upd mc ps fl fs s).
Proof. intros C HQ. eapply in_fs_calm; [done|]. intros mc' Hmc. apply (HQ mc' Hmc). Qed.

Lemma curproc_upd Q :
  calm (upd mc ps fl fs s) i j pr → (∀ mc', mc' ≡ mc → Q (j, pr) (upd mc' ps fl fs s)) →
  wp curproc Q (upd mc ps fl fs s).
Proof. intros C HQ. eapply curproc_calm; [done|]. intros mc' Hmc. apply (HQ mc' Hmc). Qed.

(** A section that changes the table and the files. *)
Lemma section_upd {A} lk (m : M sys A) Q :
  calm (upd mc ps fl fs s) i j pr →
  (∀ mc', mc' ≡ acquired i lk mc → wp m Q (upd mc' ps fl fs s)) →
  wp (lock lk;; m) Q (upd mc ps fl fs s).
Proof.
  intros C HQ. eapply section_calm; [done|]. intros mc' s' S'. apply (HQ mc'). apply S'.
Qed.

Lemma unlock_upd lk mc0 Q :
  calm (upd mc0 ps fl fs s) i j pr → mc ≡ acquired i lk mc0 →
  (∀ mc', mc' ≡ mc0 → Q tt (upd mc' ps fl fs s)) → wp (unlock lk) Q (upd mc ps fl fs s).
Proof.
  intros [R F P S] Hmc HQ. eapply (unlock_wp _ _ mc0 i j pr); [by split|]. intros mc' Hmc'. apply (HQ mc' Hmc').
Qed.
End upd.
