(* ===== verification/Pipe.v ===== *)
(** Pipes (pipe.c).

    A call runs under [p->lock] until it returns or sleeps; a sleeping call
    hands over the CPU in [sleep_enter] and goes on at [pipewrite_resume] or
    [piperead_resume]. *)

From S2P Require Import Prelude Memory Kstring Spinlock Mmu Kalloc Vm Proc Block Ide Bio Log Fs Kern.

(** ** The ring buffer *)

Definition pipe_full (p : pipe) : bool := pp_nwrite p =? u32 (pp_nread p + PIPESIZE).
Definition pipe_empty (p : pipe) : bool := pp_nread p =? pp_nwrite p.

(** [p->data[p->nwrite++ % PIPESIZE] = b] *)
Definition push_byte (b : Z) (p : pipe) : pipe :=
  Pipe (<[Z.to_nat (pp_nwrite p mod PIPESIZE) := b]> (pp_data p)) (pp_nread p) (u32 (pp_nwrite p + 1))
    (pp_readopen p) (pp_writeopen p).

(** [p->data[p->nread++ % PIPESIZE]] *)
Definition pop_byte (p : pipe) : Z * pipe :=
  (nth (Z.to_nat (pp_nread p mod PIPESIZE)) (pp_data p) 0,
   Pipe (pp_data p) (u32 (pp_nread p + 1)) (pp_nwrite p) (pp_readopen p) (pp_writeopen p)).

(** ** Reading and writing *)

(** A call returns, or sleeps: a writer with the bytes it still has, either
    with the interrupt state [sleep] saved. *)
Inductive pipe_res := PRet (r : Z) (data : list Z) | PSleep (rest : list Z) (intena : bool).

(** The loop of [pipewrite] over the bytes that are left. *)
Fixpoint pipewrite_loop (p : Z) (n : Z) (src : list Z) : M sys pipe_res :=
  match src with
  | [] =>
    in_p (wakeup (ChPipeRead p));;
    unlock (LkPipe p);;
    mret (PRet n [])
  | b :: src' =>
    x ← get_pipe p;
    if pipe_full x then
      k ← (if pp_readopen x then is_killed else mret true);
      if (k : bool) then unlock (LkPipe p);; mret (PRet (-1) [])
      else
        in_p (wakeup (ChPipeRead p));;
        intena ← in_p (sleep_enter (ChPipeWrite p) (LkPipe p));
        mret (PSleep src intena)
    else
      put_pipe p (push_byte b x);;
      pipewrite_loop p n src'
  end.

Definition pipewrite (p : Z) (src : list Z) : M sys pipe_res :=
  lock (LkPipe p);;
  pipewrite_loop p (Z.of_nat (length src)) src.

(** The process [i] goes on after its sleep. *)
Definition pipewrite_resume (i : nat) (p : Z) (n : Z) (rest : list Z) (intena : bool) : M sys pipe_res :=
  in_p (sleep_exit i (LkPipe p) intena);;
  pipewrite_loop p n rest.

(** The copy loop of [piperead]. *)
Fixpoint piperead_copy (n : nat) (x : pipe) : list Z * pipe :=
  match n with
  | O => ([], x)
  | S n' =>
    if pipe_empty x then ([], x) else
    let (b, x') := pop_byte x in
    let (l, x'') := piperead_copy n' x' in (b :: l, x'')
  end.

Definition piperead_loop (p : Z) (n : Z) : M sys pipe_res :=
  x ← get_pipe p;
  if pipe_empty x && pp_writeopen x then
    k ← is_killed;
    if (k : bool) then unlock (LkPipe p);; mret (PRet (-1) [])
    else
      intena ← in_p (sleep_enter (ChPipeRead p) (LkPipe p));
      mret (PSleep [] intena)
  else
    let (l, x') := piperead_copy (Z.to_nat n) x in
    put_pipe p x';;
    in_p (wakeup (ChPipeWrite p));;
    unlock (LkPipe p);;
    mret (PRet (Z.of_nat (length l)) l).

Definition piperead (p : Z) (n : Z) : M sys pipe_res :=
  lock (LkPipe p);;
  piperead_loop p n.

Definition piperead_resume (i : nat) (p : Z) (n : Z) (intena : bool) : M sys pipe_res :=
  in_p (sleep_exit i (LkPipe p) intena);;
  piperead_loop p n.

(** ** Opening and closing *)

Section pipe.
Context (kend : Z).

Definition pipeclose (p : Z) (writable : bool) : M sys () :=
  lock (LkPipe p);;
  x ← get_pipe p;
  let x' := if writable then Pipe (pp_data x) (pp_nread x) (pp_nwrite x) (pp_readopen x) false
            else Pipe (pp_data x) (pp_nread x) (pp_nwrite x) false (pp_writeopen x) in
  put_pipe p x';;
  in_p (wakeup (if writable then ChPipeRead p else ChPipeWrite p));;
  if negb (pp_readopen x') && negb (pp_writeopen x') then
    unlock (LkPipe p);;
    modify (λ s, set_pipes (delete p (s_pipes s)) s);;
    in_kst (kfree kend p)
  else unlock (LkPipe p).
End pipe.
