(* ===== verification/PipeSpec.v ===== *)
(** Pipes (pipe.c): a pipe is a bounded queue of bytes, also when its counters
    wrap around; a call delivers bytes in order or sleeps with the other side
    woken. *)

From S2P Require Import Prelude Memory Kstring Spinlock Mmu Kalloc Vm Proc ProcSpec Block Ide Bio Log Fs Ring Kern.
From S2P Require Import KernSpec Pipe VmDemo FsWrite Cons.

(** ** The queue *)

(** The number of bytes in the pipe. *)
Definition pcount (x : pipe) : Z := rcount (pp_nread x) (pp_nwrite x).

Record pipe_ok (x : pipe) : Prop := {
  po_len : length (pp_data x) = 512%nat;
  po_read : 0 ≤ pp_nread x < 2 ^ 32;
  po_write : 0 ≤ pp_nwrite x < 2 ^ 32;
  po_count : pcount x ≤ PIPESIZE;
}.

(** The bytes in the pipe, oldest first. *)
Definition contents (x : pipe) : list Z := ring PIPESIZE (pp_data x) (pp_nread x) (pcount x).

(** [PIPESIZE] divides 2^32, so that an index survives the wrap-around. *)
Lemma pipe_divides : (PIPESIZE | 2 ^ 32).
Proof. by exists (2 ^ 23). Qed.

Lemma pcount_range x : 0 ≤ pcount x < 2 ^ 32.
Proof. apply rcount_range. Qed.

Lemma length_contents x : Z.of_nat (length (contents x)) = pcount x.
Proof. apply length_ring, pcount_range. Qed.

Lemma pipe_full_spec x : pipe_ok x → pipe_full x = true ↔ pcount x = PIPESIZE.
Proof.
  intros [Hl Hr Hw Hc]. unfold pipe_full. rewrite Z.eqb_eq. unfold pcount, rcount. split; intros H.
  - rewrite H, <- u32_sub_l. by replace (pp_nread x + PIPESIZE - pp_nread x) with PIPESIZE by lia.
  - rewrite <- H. symmetry. by apply rcount_add.
Qed.

Lemma pipe_empty_spec x : pipe_ok x → pipe_empty x = true ↔ pcount x = 0.
Proof. intros [Hl Hr Hw Hc]. unfold pipe_empty. rewrite Z.eqb_eq. symmetry. by apply rcount_eq. Qed.

Lemma pcount_push b x : pipe_ok x → pipe_full x = false → pcount (push_byte b x) = pcount x + 1.
Proof.
  intros O Hf. pose proof (po_count _ O). apply (rcount_inc_w (pp_nread x) (pp_nwrite x)). fold (pcount x). unfold PIPESIZE in *. lia.
Qed.

Lemma push_byte_ok b x : pipe_ok x → pipe_full x = false → pipe_ok (push_byte b x).
Proof.
  intros O Hf. pose proof (pcount_push b x O Hf) as E. destruct O as [Hl Hr Hw Hc].
  assert (pcount x ≠ PIPESIZE) as Hn by (rewrite <- pipe_full_spec by done; congruence).
  split; [by cbn; rewrite length_insert|done|apply u32_range|lia].
Qed.

(** A byte pushed goes to the end of the queue. *)
Lemma contents_push b x : pipe_ok x → pipe_full x = false → contents (push_byte b x) = contents x ++ [b].
Proof.
  intros O Hf. assert (pcount x ≠ PIPESIZE) as Hn by (rewrite <- pipe_full_spec by done; congruence).
  unfold contents. rewrite pcount_push by done. pose proof (po_count _ O) as Hc.
  apply ring_push_w; try apply O; [done|apply pipe_divides|by rewrite (po_len _ O)|]. fold (pcount x). lia.
Qed.

(** A byte popped is the oldest one. *)
Lemma contents_pop x :
  pipe_ok x → pipe_empty x = false →
  contents x = (pop_byte x).1 :: contents (pop_byte x).2 ∧ pipe_ok (pop_byte x).2.
Proof.
  intros O He. assert (pcount x ≠ 0) as Hn by (rewrite <- pipe_empty_spec by done; congruence).
  pose proof (pcount_range x) as Hr. pose proof (po_count _ O) as Hc.
  assert (pcount (pop_byte x).2 = pcount x - 1) as E by (apply (rcount_inc_r (pp_nread x) (pp_nwrite x)); fold (pcount x); lia).
  split.
  - unfold contents. rewrite E, ring_pop by lia. f_equal. symmetry. apply ring_u32; [done|apply pipe_divides].
  - destruct O as [Hl Hrd Hw _]. split; [done|apply u32_range|done|rewrite E; lia].
Qed.

(** [piperead]'s loop takes the first [n] bytes. *)
Lemma piperead_copy_spec n x :
  pipe_ok x → (piperead_copy n x).1 = take n (contents x) ∧ contents (piperead_copy n x).2 = drop n (contents x) ∧
  pipe_ok (piperead_copy n x).2 ∧ pp_readopen (piperead_copy n x).2 = pp_readopen x ∧
  pp_writeopen (piperead_copy n x).2 = pp_writeopen x.
Proof.
  revert x. induction n as [|n IH]; intros x O; [done|]. cbn [piperead_copy].
  destruct (pipe_empty x) eqn:Ee.
  - assert (contents x = []) as E0.
    { apply nil_length_inv. apply pipe_empty_spec in Ee; [|done]. pose proof (length_contents x). lia. }
    cbn [fst snd]. by rewrite E0.
  - destruct (contents_pop x O Ee) as [E O']. destruct (pop_byte x) as [b x'] eqn:Ep. cbn [fst snd] in *.
    destruct (IH x' O') as (E1 & E2 & O2 & Er & Ew). destruct (piperead_copy n x') as [l x''] eqn:Ec. cbn [fst snd] in *.
    assert (pp_readopen x' = pp_readopen x ∧ pp_writeopen x' = pp_writeopen x) as [Er' Ew'] by (by injection Ep as _ <-).
    rewrite E. cbn [take drop]. rewrite E1. split; [done|]. split; [done|]. split; [done|]. split; congruence.
Qed.


(** ** The calls *)

(** A pipe that both sides have the same view of as before. *)
Definition same_ends (x x' : pipe) : Prop :=
  pp_readopen x' = pp_readopen x ∧ pp_writeopen x' = pp_writeopen x.

(** What a run of [pipewrite] from the bytes [src] leaves: all bytes in the
    pipe; or the reader gone or the caller killed; or the pipe full, the
    readers woken and the caller asleep. *)
Definition wrote (p : Z) (mc0 : mach) (i j : nat) (pr : proc) (x : pipe) (n : Z) (src : list Z) (s : sys)
    (r : pipe_res) (s' : sys) : Prop :=
  ∃ x' dn, s_pipes s' = <[p := x']> (s_pipes s) ∧ pipe_ok x' ∧ same_ends x x' ∧
    s_f s' = s_f s ∧ s_files s' = s_files s ∧ contents x' = contents x ++ dn ∧
  match r with
  | PRet r _ => p_mach (s_p s') ≡ mc0 ∧
      (r = n ∧ dn = src ∧ procs (s_p s') = wake (ChPipeRead p) <$> procs (s_p s) ∨
       r = -1 ∧ dn `prefix_of` src ∧ pcount x' = PIPESIZE ∧ (pp_readopen x = false ∨ p_killed pr = true))
  | PSleep rest b => b = hw_if mc0 ∧ p_mach (s_p s') ≡ acquired i LkPtable mc0 ∧ src = dn ++ rest ∧ rest ≠ [] ∧
      pcount x' = PIPESIZE ∧ pp_readopen x = true ∧ p_killed pr = false ∧
      procs (s_p s') = alter (asleep (ChPipeWrite p)) j (wake (ChPipeRead p) <$> procs (s_p s))
  end.

Lemma get_pipe_wp s p x Q : s_pipes s !! p = Some x → Q x s → wp (get_pipe p) Q s.
Proof. intros Hp HQ. unfold get_pipe. wp_auto. rewrite Hp. by wp_auto. Qed.

(** The full pipe: give up, or wake the readers and sleep. *)
Lemma pipewrite_full s p mc0 i j pr x n src :
  in_section s (LkPipe p) mc0 i j pr → s_pipes s !! p = Some x → pipe_ok x → pipe_full x = true → src ≠ [] →
  wp (k ← (if pp_readopen x then is_killed else mret true);
      if (k : bool) then unlock (LkPipe p);; mret (PRet (-1) [])
      else in_p (wakeup (ChPipeRead p));;
           intena ← in_p (sleep_enter (ChPipeWrite p) (LkPipe p));
           mret (PSleep src intena)) (wrote p mc0 i j pr x n src s) s.
Proof.
  intros S Hp O Hf Hne. apply pipe_full_spec in Hf; [|done].
  assert (s_pipes s = <[p := x]> (s_pipes s)) as Hpp by by rewrite insert_id.
  assert (∀ s1, in_section s1 (LkPipe p) mc0 i j pr → s_pipes s1 = s_pipes s → s_f s1 = s_f s → s_files s1 = s_files s →
    pp_readopen x = false ∨ p_killed pr = true →
    wp (unlock (LkPipe p);; mret (PRet (-1) [])) (wrote p mc0 i j pr x n src s) s1) as Hgive.
  { intros s1 S1 E1 E2 E3 Hor. apply wp_bind. eapply unlock_wp; [done|]. intros mc Hmc. apply wp_ret. exists x, [].
    rewrite app_nil_r. cbn [s_pipes set_sp s_f s_files s_p]. rewrite E1, E2, E3.
    split_and!; try done. right. split_and!; try done. apply prefix_nil. }
  apply wp_bind. destruct (pp_readopen x) eqn:Ero; [|apply wp_ret, Hgive; auto].
  eapply is_killed_wp; [done|]. intros mc1 s1 S1. destruct (p_killed pr) eqn:Ek; [apply Hgive; auto|].
  apply wp_bind. eapply wakeup_in_section; [done|done|]. intros mc2 s2 S2. apply wp_bind.
  eapply sleep_in_section; [done|]. intros mc3 Hmc3. apply wp_ret. exists x, []. rewrite app_nil_r. by split_and!.
Qed.

Lemma pipewrite_loop_wp s p mc0 i j pr x n src :
  in_section s (LkPipe p) mc0 i j pr → s_pipes s !! p = Some x → pipe_ok x →
  wp (pipewrite_loop p n src) (wrote p mc0 i j pr x n src s) s.
Proof.
  revert s x. induction src as [|b src IH]; intros s x S Hp O; cbn [pipewrite_loop].
  - apply wp_bind. eapply wakeup_in_section; [done|done|]. intros mc s1 S1. apply wp_bind. eapply unlock_wp; [done|].
    intros mc1 Hmc1. apply wp_ret. exists x, []. rewrite app_nil_r. cbn. rewrite insert_id by done. split_and!; try done. by left.
  - apply wp_bind. eapply get_pipe_wp; [done|]. destruct (pipe_full x) eqn:Ef; [by apply pipewrite_full|].
    unfold put_pipe. apply wp_bind, wp_modify. set (s1 := set_pipes _ s).
    eapply wp_mono; [apply (IH s1 (push_byte b x))|].
    + by destruct S.
    + cbn. by rewrite lookup_insert_eq.
    + by apply push_byte_ok.
    + intros r s' (x' & dn & E1 & O' & En & Ef' & Efi & Ec & Hr). exists x', (b :: dn).
      rewrite contents_push, <- app_assoc in Ec by done. cbn [s_pipes s1 set_pipes] in E1. rewrite insert_insert_eq in E1.
      split; [done|]. split; [done|]. split; [done|]. split; [done|]. split; [done|]. split; [done|].
      destruct r as [r l|rest b'].
      * destruct Hr as [Hm [(-> & -> & Hps)|(-> & Hpre & Hc & Hor)]]; (split; [done|]); [by left|right].
        split; [done|]. split; [by apply prefix_cons|done].
      * destruct Hr as (-> & Hm & -> & Hrest). split; [done|]. split; [done|]. split; [done|]. exact Hrest.
Qed.

(** C22. [pipewrite] puts its bytes into the pipe in order, also when the
    counters have wrapped around.  It returns the number of bytes once all
    are in the pipe, with the readers woken; it returns -1 only if the read
    end is closed or the caller has been killed, with the pipe full; and
    otherwise it sleeps, with the pipe full, a prefix of its bytes in it,
    every sleeping reader made runnable, and no lock held but
    [ptable.lock]. *)
Theorem pipewrite_correct s p i j pr x src :
  running (p_mach (s_p s)) i j → lock_free (p_mach (s_p s)) LkPtable → lock_free (p_mach (s_p s)) (LkPipe p) →
  procs (s_p s) !! j = Some pr → p_state pr = RUNNING → s_pipes s !! p = Some x → pipe_ok x →
  wp (pipewrite p src) (wrote p (p_mach (s_p s)) i j pr x (Z.of_nat (length src)) src s) s.
Proof.
  intros R Hp Hl Hj Hr Hx O. unfold pipewrite. apply wp_bind. eapply lock_wp; [done..|]. intros mc s1 S1.
  by apply (pipewrite_loop_wp s1).
Qed.

(** What a run of [piperead] for [n] bytes leaves. *)
Definition received (p : Z) (mc0 : mach) (i j : nat) (pr : proc) (x : pipe) (n : Z) (s : sys)
    (r : pipe_res) (s' : sys) : Prop :=
  ∃ x', s_pipes s' = <[p := x']> (s_pipes s) ∧ pipe_ok x' ∧ same_ends x x' ∧ s_f s' = s_f s ∧ s_files s' = s_files s ∧
  match r with
  | PRet r l => p_mach (s_p s') ≡ mc0 ∧
      (r = -1 ∧ l = [] ∧ x' = x ∧ contents x = [] ∧ p_killed pr = true ∨
       r = Z.of_nat (length l) ∧ contents x = l ++ contents x' ∧ l = take (Z.to_nat n) (contents x) ∧
       (contents x = [] → pp_writeopen x = false) ∧ procs (s_p s') = wake (ChPipeWrite p) <$> procs (s_p s))
  | PSleep _ b => b = hw_if mc0 ∧ p_mach (s_p s') ≡ acquired i LkPtable mc0 ∧ x' = x ∧ contents x = [] ∧
      pp_writeopen x = true ∧ p_killed pr = false ∧
      procs (s_p s') = alter (asleep (ChPipeRead p)) j (procs (s_p s))
  end.

Lemma contents_empty x : pipe_ok x → pipe_empty x = true ↔ contents x = [].
Proof.
  intros O. rewrite pipe_empty_spec by done. pose proof (length_contents x) as Hl. split; intros H.
  - apply nil_length_inv. lia.
  - rewrite H in Hl. cbn in Hl. lia.
Qed.

Lemma piperead_loop_wp s p mc0 i j pr x n :
  in_section s (LkPipe p) mc0 i j pr → s_pipes s !! p = Some x → pipe_ok x →
  wp (piperead_loop p n) (received p mc0 i j pr x n s) s.
Proof.
  intros S Hp O. unfold piperead_loop. apply wp_bind. eapply get_pipe_wp; [done|].
  assert (s_pipes s = <[p := x]> (s_pipes s)) as Hpp by by rewrite insert_id.
  destruct (pipe_empty x && pp_writeopen x) eqn:Ec.
  - apply andb_true_iff in Ec as [Ee Ew]. apply contents_empty in Ee; [|done].
    apply wp_bind. eapply is_killed_wp; [done|]. intros mc1 s1 S1. destruct (p_killed pr) eqn:Ek.
    + apply wp_bind. eapply unlock_wp; [done|]. intros mc Hmc. apply wp_ret. exists x. split_and!; try done. by left.
    + apply wp_bind. eapply sleep_in_section; [done|]. intros mc2 Hmc2. apply wp_ret. exists x. by split_and!.
  - destruct (piperead_copy_spec (Z.to_nat n) x O) as (E1 & E2 & O' & Er & Ew).
    destruct (piperead_copy (Z.to_nat n) x) as [l x'] eqn:Epc. cbn [fst snd] in *.
    unfold put_pipe. apply wp_bind, wp_modify. set (s1 := set_pipes _ s).
    apply wp_bind. eapply (wakeup_in_section s1); [by destruct S|done|]. intros mc2 s2 S2.
    apply wp_bind. eapply unlock_wp; [done|]. intros mc3 Hmc3. apply wp_ret. exists x'. split_and!; try done. right.
    split_and!; try done.
    + rewrite E1, E2. by rewrite take_drop.
    + intros Hemp. apply contents_empty in Hemp; [|done]. by rewrite Hemp in Ec.
Qed.

(** C23. [piperead] takes the oldest bytes of the pipe, as many as it was
    asked for and there are, and wakes the writers; from an empty pipe it
    returns only if the write end is closed or the caller has been killed
    (then -1); it sleeps only if the pipe is empty and the write end open. *)
Theorem piperead_correct s p i j pr x n :
  running (p_mach (s_p s)) i j → lock_free (p_mach (s_p s)) LkPtable → lock_free (p_mach (s_p s)) (LkPipe p) →
  procs (s_p s) !! j = Some pr → p_state pr = RUNNING → s_pipes s !! p = Some x → pipe_ok x →
  wp (piperead p n) (received p (p_mach (s_p s)) i j pr x n s) s.
Proof.
  intros R Hp Hl Hj Hr Hx O. unfold piperead. apply wp_bind. eapply lock_wp; [done..|]. intros mc s1 S1.
  by apply (piperead_loop_wp s1).
Qed.

(** ** Small kernels *)

(** A kernel state on which the theorems about the whole kernel apply: the
    process table of [ProcSpec], the file system image of [FsWrite], one pipe
    and an empty console. *)

(** An empty console whose counters are about to wrap around. *)
Definition demo_cons : console :=
  Cons (replicate 128 0) (2 ^ 32 - 2) (2 ^ 32 - 2) (2 ^ 32 - 2) 0 (replicate 2000 0) [] true false.

(** A pipe whose counters are about to wrap around. *)
Definition demo_pipe : pipe := Pipe (replicate 512 0) (2 ^ 32 - 1) (2 ^ 32 - 1) true true.
Definition demo_sys : sys := Sys run_pst img_start [] {[ 0x80300000 := demo_pipe ]} 0 demo_cons.

Lemma demo_running : running (p_mach (s_p demo_sys)) 0 0.
Proof. split; [apply run_cpu|done|done]. Qed.

Lemma demo_pipe_ok : pipe_ok demo_pipe.
Proof. split; by vm_compute. Qed.

Lemma pipewrite_correct_witness :
  wp (pipewrite 0x80300000 [1; 2; 3])
    (λ r s', s_f s' = img_start ∧ match r with PRet r _ => r = 3 ∨ r = -1 | PSleep _ _ => True end) demo_sys.
Proof.
  eapply wp_mono; [apply (pipewrite_correct demo_sys 0x80300000 0 0 demo_proc demo_pipe [1; 2; 3] demo_running
    eq_refl eq_refl eq_refl eq_refl eq_refl demo_pipe_ok)|].
  intros [r l|rest b] s' (x' & dn & _ & _ & _ & Hf & _ & _ & Hr); (split; [done|]); [|done].
  destruct Hr as [_ [(-> & _)|(-> & _)]]; [by left|by right].
Defined.

Lemma piperead_correct_witness :
  wp (piperead 0x80300000 10) (λ r s', s_files s' = [] ∧ ∀ l, r = PRet (-1) l → l = []) demo_sys.
Proof.
  eapply wp_mono; [apply (piperead_correct demo_sys 0x80300000 0 0 demo_proc demo_pipe 10 demo_running
    eq_refl eq_refl eq_refl eq_refl eq_refl demo_pipe_ok)|].
  intros r s' (x' & _ & _ & _ & _ & Hf & Hr). split; [done|]. intros l ->.
  destruct Hr as [_ [(_ & -> & _)|(Hl & _)]]; [done|]. pose proof (Nat2Z.is_nonneg (length l)). lia.
Defined.
