(* ===== verification/Filetab.v ===== *)
(** The file table (file.c) and the creation of pipes ([pipealloc] of
    pipe.c). *)

From S2P Require Import Prelude Memory Kstring Spinlock Mmu Kalloc Vm Proc Block Ide Bio Log Fs Kern Pipe.

(** The first entry with reference count zero. *)
Fixpoint find_free (l : list file) (k : nat) : option nat :=
  match l with
  | [] => None
  | f :: l' => if fl_ref f =? 0 then Some k else find_free l' (S k)
  end.

Definition fileinit : M sys () := in_p (on_mach (initlock LkFtable)).

Definition filealloc : M sys (option nat) :=
  lock LkFtable;;
  l ← gets s_files;
  match find_free l 0 with
  | Some f => mod_file f (set_fl_ref 1);; unlock LkFtable;; mret (Some f)
  | None => unlock LkFtable;; mret None
  end.

Definition filedup (f : nat) : M sys nat :=
  lock LkFtable;;
  x ← get_file f;
  if fl_ref x <? 1 then panic "filedup" else
  mod_file f (set_fl_ref (fl_ref x + 1));;
  unlock LkFtable;;
  mret f.

Section file.
Context (kend : Z) (iderw : nat → M bst ()).
Context (dev_read : Z → option (nat → Z → M fsst (Z * list Z))).
Context (dev_write : Z → option (nat → list Z → M fsst Z)).

Definition fileclose (f : nat) : M sys () :=
  lock LkFtable;;
  x ← get_file f;
  if fl_ref x <? 1 then panic "fileclose" else
  mod_file f (set_fl_ref (fl_ref x - 1));;
  if 0 <? fl_ref x - 1 then unlock LkFtable else
  ff ← get_file f;
  mod_file f (λ y, set_fl_type FD_NONE (set_fl_ref 0 y));;
  unlock LkFtable;;
  match fl_type ff with
  | FD_PIPE => pipeclose kend (fl_pipe ff) (fl_writable ff)
  | FD_INODE =>
    in_fs (in_l begin_op);;
    in_fs (iput iderw (fl_ip ff));;
    in_fs (in_l (end_op iderw))
  | FD_NONE => mret tt
  end.

(** The value returned and what is stored at [st]. *)
Definition filestat (f : nat) : M sys (Z * option stat) :=
  x ← get_file f;
  if decide (fl_type x = FD_INODE) then
    in_fs (ilock iderw (fl_ip x));;
    st ← in_fs (stati (fl_ip x));
    in_fs (iunlock (fl_ip x));;
    mret (0, Some st)
  else mret (-1, None).

Definition fileread (f : nat) (n : Z) : M sys pipe_res :=
  x ← get_file f;
  if negb (fl_readable x) then mret (PRet (-1) []) else
  match fl_type x with
  | FD_PIPE => piperead (fl_pipe x) n
  | FD_INODE =>
    in_fs (ilock iderw (fl_ip x));;
    y ← get_file f;
    r ← in_fs (readi iderw dev_read (fl_ip x) (fl_off y) (u32 n));
    (if 0 <? r.1 then mod_file f (λ y, set_fl_off (u32 (fl_off y + r.1)) y) else mret tt);;
    in_fs (iunlock (fl_ip x));;
    mret (PRet r.1 r.2)
  | FD_NONE => panic "fileread"
  end.

(** The largest write of one transaction. *)
Definition write_max : Z := (MAXOPBLOCKS - 1 - 1 - 2) / 2 * 512.

(** One round of [filewrite]: a transaction that writes [src]. *)
Definition write_chunk (f : nat) (ip : nat) (src : list Z) : M sys Z :=
  in_fs (in_l begin_op);;
  in_fs (ilock iderw ip);;
  x ← get_file f;
  r ← in_fs (writei iderw dev_write ip src (fl_off x));
  (if 0 <? r then mod_file f (λ y, set_fl_off (u32 (fl_off y + r)) y) else mret tt);;
  in_fs (iunlock ip);;
  in_fs (in_l (end_op iderw));;
  mret r.

(** The loop; the result is the final [i].  Every round writes a byte. *)
Fixpoint filewrite_loop (fuel : nat) (f ip : nat) (src : list Z) (i n : Z) : M sys Z :=
  if i <? n then
    match fuel with
    | O => fault "filewrite loop"
    | S fuel =>
      let n1 := if write_max <? n - i then write_max else n - i in
      r ← write_chunk f ip (take (Z.to_nat n1) src);
      if r <? 0 then mret i else
      if negb (r =? n1) then panic "short filewrite" else
      filewrite_loop fuel f ip (drop (Z.to_nat n1) src) (i + r) n
    end
  else mret i.

Definition filewrite (f : nat) (src : list Z) : M sys pipe_res :=
  x ← get_file f;
  if negb (fl_writable x) then mret (PRet (-1) []) else
  match fl_type x with
  | FD_PIPE => pipewrite (fl_pipe x) src
  | FD_INODE =>
    let n := Z.of_nat (length src) in
    i ← filewrite_loop (length src) f (fl_ip x) src 0 n;
    mret (PRet (if i =? n then n else -1) [])
  | FD_NONE => panic "filewrite"
  end.

(** ** pipealloc *)

(** The error exit: what has been allocated is given back. *)
Definition pipealloc_bad (f0 f1 : option nat) : M sys (option (nat * nat)) :=
  match f0 with Some f => fileclose f | None => mret tt end;;
  match f1 with Some f => fileclose f | None => mret tt end;;
  mret None.

(** The two files, or [None] for -1. *)
Definition pipealloc : M sys (option (nat * nat)) :=
  f0 ← filealloc;
  match f0 with
  | None => pipealloc_bad None None
  | Some r =>
    f1 ← filealloc;
    match f1 with
    | None => pipealloc_bad f0 None
    | Some w =>
      p ← in_kst kalloc;
      if p =? 0 then pipealloc_bad f0 f1 else
      put_pipe p (Pipe (replicate 512 0) 0 0 true true);;
      in_p (on_mach (initlock (LkPipe p)));;
      mod_file r (λ x, File FD_PIPE (fl_ref x) true false p (fl_ip x) (fl_off x));;
      mod_file w (λ x, File FD_PIPE (fl_ref x) false true p (fl_ip x) (fl_off x));;
      mret (Some (r, w))
    end
  end.
End file.
