(* ===== verification/Procs.v ===== *)
(** The process calls of proc.c that need the whole kernel: userinit,
    growproc, fork, exit, wait, and the first run of forkret.

    [exit] ends at the switch to the scheduler.  [wait] returns or sleeps;
    it goes on at [wait_resume]. *)

From S2P Require Import Prelude Memory Kstring Spinlock Mmu Kalloc Vm Proc Block Ide Bio Log Fs Kern Pipe Filetab.

Definition SEG_UCODE : Z := 3.
Definition SEG_UDATA : Z := 4.
Definition DPL_USER : Z := 3.
Definition FL_IF : Z := 0x200.

Definition set_eax (v : Z) (t : trapframe) : trapframe :=
  Tf (tf_edi t) (tf_esi t) (tf_ebp t) (tf_oesp t) (tf_ebx t) (tf_edx t) (tf_ecx t) v
    (tf_gs t) (tf_fs t) (tf_es t) (tf_ds t) (tf_trapno t) (tf_err t)
    (tf_eip t) (tf_cs t) (tf_eflags t) (tf_esp t) (tf_ss t).

(** A [char name[16]] holds at most 15 characters: [safestrcpy]. *)
Definition proc_name (l : list Z) : list Z := take 15 l.

Definition slot_of (i : nat) : M sys proc :=
  p ← gets (λ s, procs (s_p s) !! i);
  match p with Some p => mret p | None => fault "ptable index" end.
Definition mod_slot (i : nat) (f : proc → proc) : M sys () := in_p (mod_proc i f).

Section procs.
(** [kend] and [data] are kernel.ld's, [initcode_start] and [initcode_size]
    the symbols of the embedded initcode. *)
Context (kend data initcode_start initcode_size : Z) (iderw : nat → M bst ()).
Context (dev_read : Z → option (nat → Z → M fsst (Z * list Z))).

(** *** userinit *)

Definition user_tf : trapframe :=
  let ds := Z.lor (Z.shiftl SEG_UDATA 3) DPL_USER in
  Tf 0 0 0 0 0 0 0 0 0 0 ds ds 0 0 0 (Z.lor (Z.shiftl SEG_UCODE 3) DPL_USER) FL_IF PGSIZE ds.

Definition set_initproc (i : nat) (s : pst) : pst := Pst (p_v s) (procs s) (Some i) (nextpid s).

(** ["initcode"] and ["/"] *)
Definition initcode_name : list Z := [105; 110; 105; 116; 99; 111; 100; 101].
Definition root_path : list Z := [47].

Definition userinit : M sys () :=
  p ← in_p allocproc;
  match p with
  | None => fault "userinit: no process"
  | Some i =>
    in_p (modify (set_initproc i));;
    pgdir ← in_kst (setupkvm kend data);
    mod_slot i (set_pgdir pgdir);;
    if pgdir =? 0 then panic "userinit: out of memory?" else
    in_kst (inituvm pgdir initcode_start initcode_size);;
    mod_slot i (set_sz PGSIZE);;
    mod_slot i (set_tf user_tf);;
    mod_slot i (set_name (proc_name initcode_name));;
    cwd ← zoom s_f set_sf (namei iderw dev_read root_path);
    mod_slot i (set_cwd cwd);;
    lock LkPtable;;
    mod_slot i (set_state RUNNABLE);;
    unlock LkPtable
  end.

(** The first process to run initialises the file system. *)
Definition forkret_first : M sys () :=
  in_p forkret;;
  in_fs (iinit iderw ROOTDEV);;
  in_fs (in_l (initlog iderw ROOTDEV)).

(** *** growproc *)

Definition growproc (n : Z) : M sys Z :=
  c ← curproc;
  let p := c.2 in
  sz ← (if 0 <? n then in_kst (allocuvm kend (p_pgdir p) (p_sz p) (u32 (p_sz p + n)))
        else if n <? 0 then in_kst (deallocuvm kend (p_pgdir p) (p_sz p) (u32 (p_sz p + n)))
        else mret (p_sz p));
  if negb (n =? 0) && (sz =? 0) then mret (-1) else
  mod_slot c.1 (set_sz sz);;
  in_p (switchuvm (set_sz sz p));;
  mret 0.

(** *** fork *)

(** The open files of the parent, from descriptor [fd] on, are shared. *)
Fixpoint fork_files (np : nat) (fds : list (option nat)) (fd : nat) : M sys () :=
  match fds with
  | [] => mret tt
  | o :: fds' =>
    (match o with
     | Some f => f' ← filedup f; mod_slot np (λ p, set_ofile (<[fd := Some f']> (p_ofile p)) p)
     | None => mret tt
     end);;
    fork_files np fds' (S fd)
  end.

(** No memory for the address space: the slot is given back. *)
Definition fork_undo (np : nat) : M sys Z :=
  x ← slot_of np;
  in_kst (kfree kend (p_kstack x));;
  mod_slot np (set_kstack 0);;
  mod_slot np (set_state UNUSED);;
  mret (-1).

(** The child [np] of the process [i], which is [cur]: from the copy of the
    size on. *)
Definition fork_child (i : nat) (cur : proc) (np : nat) : M sys Z :=
  mod_slot np (set_sz (p_sz cur));;
  mod_slot np (set_parent (Some i));;
  mod_slot np (set_tf (set_eax 0 (p_tf cur)));;
  fork_files np (p_ofile cur) 0;;
  match p_cwd cur with
  | None => fault "fork: no directory"
  | Some d =>
    cwd ← in_fs (idup d);
    mod_slot np (set_cwd (Some cwd));;
    mod_slot np (set_name (proc_name (p_name cur)));;
    x ← slot_of np;
    lock LkPtable;;
    mod_slot np (set_state RUNNABLE);;
    unlock LkPtable;;
    mret (p_pid x)
  end.

Definition fork : M sys Z :=
  c ← curproc;
  a ← in_p allocproc;
  match a with
  | None => mret (-1)
  | Some np =>
    pgdir ← in_vst (copyuvm kend data (p_pgdir c.2) (p_sz c.2));
    mod_slot np (set_pgdir pgdir);;
    if pgdir =? 0 then fork_undo np else fork_child c.1 c.2 np
  end.

(** *** exit *)

Fixpoint exit_files (i : nat) (fds : list (option nat)) (fd : nat) : M sys () :=
  match fds with
  | [] => mret tt
  | o :: fds' =>
    (match o with
     | Some f => fileclose kend iderw f;; mod_slot i (λ p, set_ofile (<[fd := None]> (p_ofile p)) p)
     | None => mret tt
     end);;
    exit_files i fds' (S fd)
  end.

(** The loop of [exit] over the [n] slots from [k] on. *)
Fixpoint reparent (i ini k n : nat) : M sys () :=
  match n with
  | O => mret tt
  | S n' =>
    p ← slot_of k;
    (if decide (p_parent p = Some i) then
       mod_slot k (set_parent (Some ini));;
       if decide (p_state p = ZOMBIE) then in_p (wakeup1 (ChProc ini)) else mret tt
     else mret tt);;
    reparent i ini (S k) n'
  end.

(** The part of [exit] under [ptable.lock], up to the switch. *)
Definition exit_leave (i : nat) : M sys () :=
  p ← slot_of i;
  ini ← gets (λ s, initproc (s_p s));
  match ini with
  | None => fault "exit: no initproc"
  | Some ini =>
    (match p_parent p with Some q => in_p (wakeup1 (ChProc q)) | None => mret tt end);;
    n ← gets (λ s, length (procs (s_p s)));
    reparent i ini 0 n;;
    mod_slot i (set_state ZOMBIE);;
    in_p sched_enter;;
    mret tt
  end.

Definition exit : M sys () :=
  c ← curproc;
  let i := c.1 in
  ini ← gets (λ s, initproc (s_p s));
  if decide (ini = Some i) then panic "init exiting" else
  exit_files i (p_ofile c.2) 0;;
  p ← slot_of i;
  match p_cwd p with
  | None => fault "exit: no directory"
  | Some d =>
    in_fs (in_l begin_op);;
    in_fs (iput iderw d);;
    in_fs (in_l (end_op iderw));;
    mod_slot i (set_cwd None);;
    lock LkPtable;;
    exit_leave i
  end.

(** *** wait *)

Inductive wait_res := WaitRet (r : Z) | WaitSleep (intena : bool).

(** The scan for children of [i]: whether there is one, and the first that
    has exited. *)
Fixpoint find_zombie (i : nat) (ps : list proc) (k : nat) (havekids : bool) : bool * option nat :=
  match ps with
  | [] => (havekids, None)
  | p :: ps' =>
    if decide (p_parent p = Some i) then
      if decide (p_state p = ZOMBIE) then (true, Some k) else find_zombie i ps' (S k) true
    else find_zombie i ps' (S k) havekids
  end.

(** What [wait] leaves in the slot of the child. *)
Definition reaped (p : proc) : proc :=
  set_state UNUSED (set_killed false (set_name [] (set_parent None (set_pid 0 p)))).

Definition reap (k : nat) : M sys Z :=
  p ← slot_of k;
  in_kst (kfree kend (p_kstack p));;
  mod_slot k (set_kstack 0);;
  in_kst (freevm kend (p_pgdir p));;
  mod_slot k reaped;;
  mret (p_pid p).

(** One iteration of the outer loop, with [ptable.lock] held. *)
Definition wait_iter (i : nat) : M sys wait_res :=
  ps ← gets (λ s, procs (s_p s));
  match find_zombie i ps 0 false with
  | (_, Some k) =>
    pid ← reap k;
    unlock LkPtable;;
    mret (WaitRet pid)
  | (havekids, None) =>
    p ← slot_of i;
    if negb havekids || p_killed p then unlock LkPtable;; mret (WaitRet (-1)) else
    intena ← in_p (sleep_enter (ChProc i) LkPtable);
    mret (WaitSleep intena)
  end.

Definition wait : M sys wait_res :=
  c ← curproc;
  lock LkPtable;;
  wait_iter c.1.

Definition wait_resume (i : nat) (intena : bool) : M sys wait_res :=
  in_p (sleep_exit i LkPtable intena);;
  wait_iter i.
End procs.
