(* ===== verification/ProcMem.v ===== *)
(** Memory and the process table together: every page is referenced exactly
    as often as the page tables and kernel stacks of the processes in the
    table, and the kernel's other owners, refer to it. *)

From S2P Require Import Prelude Memory Kstring Spinlock Mmu Kalloc Vm VmInv VmMap VmFree VmCopy Proc ProcSpec Block.
From S2P Require Import Ide Bio Log Fs Cons Kern KernSpec.

(** ** What the processes own *)

(** A process has an address space from fork to wait, and a kernel stack as
    long as its slot is in use. *)
Definition has_space (p : proc) : bool := bool_decide (p_state p ≠ UNUSED ∧ p_state p ≠ EMBRYO).
Definition has_stack (v : Z) (p : proc) : bool := bool_decide (p_state p ≠ UNUSED) && (p_kstack p =? v).

Definition dirs (ps : list proc) : list Z := p_pgdir <$> filter has_space ps.
Definition kuse (other : Z → Z) (ps : list proc) (v : Z) : Z := other v + count (has_stack v) ps.

(** One slot changes. *)
Lemma slot_split (ps : list proc) (k : nat) q x :
  ps !! k = Some q → ∃ l1 l2, ps = l1 ++ q :: l2 ∧ <[k := x]> ps = l1 ++ x :: l2.
Proof.
  intros H. exists (take k ps), (list.drop (S k) ps). split; [symmetry; by apply take_drop_middle|].
  apply insert_take_drop. by eapply lookup_lt_Some.
Qed.

Lemma kuse_insert other ps k q x v :
  ps !! k = Some q →
  kuse other (<[k := x]> ps) v + (if has_stack v q then 1 else 0) = kuse other ps v + (if has_stack v x then 1 else 0).
Proof.
  intros H. destruct (slot_split ps k q x H) as (l1 & l2 & E1 & E2). rewrite E1 at 2. rewrite E2.
  unfold kuse. rewrite !count_app. cbn [count]. lia.
Qed.

Lemma dirs_insert ps k q x :
  ps !! k = Some q →
  (if has_space q then [p_pgdir q] else []) ++ dirs (<[k := x]> ps) ≡ₚ
  (if has_space x then [p_pgdir x] else []) ++ dirs ps.
Proof.
  intros H. destruct (slot_split ps k q x H) as (l1 & l2 & E1 & E2). rewrite E1 at 2. rewrite E2.
  unfold dirs. rewrite !filter_app, !filter_cons, !fmap_app.
  destruct (has_space q) eqn:Eq, (has_space x) eqn:Ex; cbn; rewrite ?Eq, ?Ex; cbn; solve_Permutation.
Qed.

(** The pages of the table [ps] and of the kernel: [base] are page
    directories of the kernel's own, [other] its references that are not
    kernel stacks. *)
Record proc_mem (kend : Z) (base : list Z) (other : Z → Z) (k : kst) (ps : list proc) : Prop := {
  pm_inv : ∃ pl, vinv kend k pl (dirs ps ++ base) (kuse other ps);
  pm_stack : ∀ i p, ps !! i = Some p → p_state p ≠ UNUSED → page_ok kend (p_kstack p);
  pm_other : ∀ v, 0 ≤ other v ≤ 2 ^ 28;
  pm_base : (length base ≤ 16)%nat;
  pm_procs : (length ps ≤ NPROC)%nat;
}.

Section proc_mem.
Context (kend : Z) (base : list Z) (other : Z → Z) (k : kst) (ps : list proc).
Context (P : proc_mem kend base other k ps).

Lemma kuse_pos : kpos (kuse other ps).
Proof using P. intros v. unfold kuse. pose proof (pm_other _ _ _ _ _ P v). pose proof (count_nonneg (has_stack v) ps). lia. Qed.

Lemma kuse_few : few (0 :: dirs ps ++ base) (kuse other ps).
Proof using P.
  pose proof (pm_base _ _ _ _ _ P). pose proof (pm_procs _ _ _ _ _ P). unfold NPROC in *. split.
  - cbn [length]. rewrite length_app. unfold dirs. rewrite length_fmap.
    pose proof (length_filter has_space ps). lia.
  - intros v. unfold kuse. pose proof (pm_other _ _ _ _ _ P v). pose proof (count_length (has_stack v) ps). lia.
Qed.

Lemma dirs_elem i p : ps !! i = Some p → has_space p = true → p_pgdir p ∈ dirs ps ++ base.
Proof using.
  intros H Hs. apply elem_of_app. left. apply list_elem_of_fmap. exists p. split; [done|].
  apply list_elem_of_filter. split; [by rewrite Hs|by eapply list_elem_of_lookup_2].
Qed.

Lemma proc_mem_mach k' : k_mem k' = k_mem k → k_km k' = k_km k → proc_mem kend base other k' ps.
Proof using P.
  intros E1 E2. destruct P as [[pl I] ? ? ? ?]. split; try done. exists pl. by eapply vinv_mach, I.
Qed.

(** Slot [i], which was [q], becomes [x], and memory changes accordingly. *)
Lemma proc_mem_slot k' pl i q x ds kref :
  ps !! i = Some q → vinv kend k' pl ds kref → (p_state x ≠ UNUSED → page_ok kend (p_kstack x)) →
  (if has_space q then [p_pgdir q] else []) ++ ds ≡ₚ (if has_space x then [p_pgdir x] else []) ++ dirs ps ++ base →
  (∀ v, kref v + (if has_stack v q then 1 else 0) = kuse other ps v + (if has_stack v x then 1 else 0)) →
  proc_mem kend base other k' (<[i := x]> ps).
Proof using P.
  intros Hi I Hx Hds Hk. destruct P as [_ Hst Ho Hb Hn]. split; try done; [| |by rewrite length_insert].
  - exists pl. eapply vinv_ext; [|eapply vinv_perm; [|done]].
    + intros v. pose proof (kuse_insert other ps i q x v Hi). specialize (Hk v). lia.
    + pose proof (dirs_insert ps i q x Hi) as E.
      apply (Permutation_app_inv_l (if has_space q then [p_pgdir q] else [])). rewrite Hds, app_assoc, <- E.
      by rewrite <- app_assoc.
  - intros j p [[-> [= <-]]|[_ Hj]]%lookup_insert_cases; [done|eauto].
Qed.
End proc_mem.
