(* ===== verification/ForkSpec.v ===== *)
(** fork (proc.c): the child is a copy of its parent.  It sees the same
    memory, copy on write, and shares the parent's open files and directory;
    when memory or slots run out nothing is left behind. *)

From S2P Require Import Prelude Memory Kstring Spinlock Mmu Kalloc Vm VmInv VmWalk VmMap VmFree VmKern VmUser VmCopy.
From S2P Require Import Proc ProcSpec Block Ide Bio Log Fs Cons Kern KernSpec ProcMem Pipe Filetab Procs.

(** ** Slots *)

Lemma slot_of_wp s k p Q : procs (s_p s) !! k = Some p → Q p s → wp (slot_of k) Q s.
Proof. intros H HQ. unfold slot_of. apply wp_bind, wp_gets. rewrite H. by apply wp_ret. Qed.

Lemma mod_slot_upd mc ps fl fs s k f Q :
  Q tt (upd mc (alter f k ps) fl fs s) → wp (mod_slot k f) Q (upd mc ps fl fs s).
Proof. intros HQ. unfold mod_slot, in_p, mod_proc. by apply wp_zoom, wp_modify. Qed.

(** ** Sharing the open files *)

Definition dup_file (fl : list file) (o : option nat) : list file :=
  match o with
  | Some f => alter (λ x, set_fl_ref (fl_ref x + 1) x) f fl
  | None => fl
  end.
Definition dup_files (fl : list file) (fds : list (option nat)) : list file := foldl dup_file fl fds.

(** An open file has a reference. *)
Definition open_in (fl : list file) (f : nat) : Prop := ∃ x, fl !! f = Some x ∧ 1 ≤ fl_ref x.

Lemma open_in_dup fl o f : open_in fl f → open_in (dup_file fl o) f.
Proof.
  intros (x & Hx & Hr). destruct o as [g|]; [|by exists x]. unfold open_in, dup_file.
  rewrite list_lookup_alter. case_decide; [|by exists x]. subst. rewrite Hx. eexists. split; [reflexivity|]. cbn. lia.
Qed.

Lemma fmap_ref (x : option file) (a b c : Z) :
  a + b = c →
  (λ x, set_fl_ref (fl_ref x + b) x) <$> ((λ x, set_fl_ref (fl_ref x + a) x) <$> x) =
  (λ x, set_fl_ref (fl_ref x + c) x) <$> x.
Proof. intros <-. destruct x as [x|]; [|done]. cbn. f_equal. unfold set_fl_ref. cbn. f_equal. lia. Qed.

Lemma fmap_ref_0 (x : option file) : (λ x, set_fl_ref (fl_ref x + 0) x) <$> x = x.
Proof. destruct x as [[]|]; [|done]. cbn. unfold set_fl_ref. cbn. by rewrite Z.add_0_r. Qed.

(** The references of a file after the descriptors [fds] were shared. *)
Lemma dup_files_lookup fl fds f :
  dup_files fl fds !! f =
  (λ x, set_fl_ref (fl_ref x + count (λ o, bool_decide (o = Some f)) fds) x) <$> fl !! f.
Proof.
  revert fl. induction fds as [|o fds IH]; intros fl; cbn [dup_files foldl count].
  - by rewrite fmap_ref_0.
  - fold (dup_files (dup_file fl o) fds). rewrite IH. destruct o as [g|]; cbn [dup_file].
    + rewrite list_lookup_alter. case_bool_decide as E.
      * injection E as ->. rewrite decide_True by done. by apply fmap_ref.
      * by rewrite decide_False by congruence.
    + by rewrite bool_decide_false by done.
Qed.

Lemma filedup_wp mc ps fl fs s i j pr f Q :
  calm (upd mc ps fl fs s) i j pr → open_in fl f →
  (∀ mc', mc' ≡ mc → Q f (upd mc' ps (dup_file fl (Some f)) fs s)) → wp (filedup f) Q (upd mc ps fl fs s).
Proof.
  intros C (x & Hx & Hr) HQ. unfold filedup. eapply section_upd; [done|]. intros mc1 H1.
  unfold get_file. apply wp_bind, wp_bind, wp_gets. cbn [s_files upd]. rewrite Hx. apply wp_ret.
  destruct (Z.ltb_spec (fl_ref x) 1); [lia|]. unfold mod_file. apply wp_bind, wp_modify, wp_bind.
  match goal with |- wp _ _ ?st => assert (st = upd mc1 ps (dup_file fl (Some f)) fs s) as -> end.
  { unfold set_files, upd. cbn. f_equal. apply list_alter_ext; [|done]. intros y Hy. by simplify_eq. }
  eapply unlock_upd; [by eapply calm_upd; [done|done|apply C]|done|]. intros mc2 H2. by apply wp_ret, HQ.
Qed.

(** The descriptors of the child: those of the parent that are open. *)
Fixpoint copy_fds (fds : list (option nat)) (fd : nat) (l : list (option nat)) : list (option nat) :=
  match fds with
  | [] => l
  | o :: fds' => copy_fds fds' (S fd) (match o with Some _ => <[fd := o]> l | None => l end)
  end.

Lemma copy_fds_lookup fds fd l k :
  (fd + length fds ≤ length l)%nat → (∀ n, fd ≤ n < fd + length fds → l !! n = Some None)%nat →
  copy_fds fds fd l !! k = if decide (fd ≤ k < fd + length fds)%nat then fds !! (k - fd)%nat else l !! k.
Proof.
  revert fd l. induction fds as [|o fds IH]; intros fd l Hl Hn; cbn [copy_fds length] in *.
  { rewrite decide_False by lia. done. }
  set (l' := match o with Some _ => <[fd := o]> l | None => l end).
  assert (l' !! fd = Some o) as Hfd.
  { unfold l'. destruct o; [apply list_lookup_insert_eq; lia|apply Hn; lia]. }
  assert (∀ n, n ≠ fd → l' !! n = l !! n) as Hne.
  { intros n Hnf. unfold l'. destruct o; [by apply list_lookup_insert_ne|done]. }
  assert (length l' = length l) as Hl' by (unfold l'; destruct o; by rewrite ?length_insert).
  rewrite IH; [|lia|intros n Hnn; rewrite Hne by lia; apply Hn; lia].
  destruct (decide (k = fd)) as [->|Hk].
  - rewrite decide_False, decide_True by lia. rewrite Hfd. by rewrite Nat.sub_diag.
  - rewrite Hne by done. destruct (decide (S fd ≤ k < S fd + length fds)%nat).
    + rewrite decide_True by lia. by replace (k - fd)%nat with (S (k - S fd)) by lia.
    + rewrite decide_False by lia. done.
Qed.

(** All descriptors of a table of free entries. *)
Lemma copy_fds_all fds : copy_fds fds 0 (replicate (length fds) None) = fds.
Proof.
  apply list_eq. intros k. rewrite copy_fds_lookup.
  - case_decide; [by rewrite Nat.sub_0_r|]. rewrite !lookup_ge_None_2; [done|lia|rewrite length_replicate; lia].
  - by rewrite length_replicate.
  - intros n Hn. apply lookup_replicate. split; [done|lia].
Qed.

Definition child_files (fds : list (option nat)) (fd : nat) (p : proc) : proc :=
  set_ofile (copy_fds fds fd (p_ofile p)) p.

Lemma fork_files_wp np fds fd mc ps fl fs s i j pr Q :
  calm (upd mc ps fl fs s) i j pr → np ≠ j → (∀ f, Some f ∈ fds → open_in fl f) →
  (∀ mc', mc' ≡ mc → Q tt (upd mc' (alter (child_files fds fd) np ps) (dup_files fl fds) fs s)) →
  wp (fork_files np fds fd) Q (upd mc ps fl fs s).
Proof.
  revert mc ps fl fd. induction fds as [|o fds IH]; intros mc ps fl fd C Hne Ho HQ; cbn [fork_files].
  - apply wp_ret. specialize (HQ mc (reflexivity _)). cbn [dup_files foldl] in HQ.
    replace (alter _ np ps) with ps in HQ; [done|]. apply list_eq. intros k. rewrite list_lookup_alter.
    case_decide; [|done]. subst. by destruct (_ !! _) as [[]|].
  - apply wp_bind. destruct o as [f|].
    + apply wp_bind. eapply filedup_wp; [done|apply Ho; by left|]. intros mc1 H1. apply mod_slot_upd, IH; [|done|..].
      * eapply calm_upd; [done|done|]. rewrite list_lookup_alter_ne by done. apply C.
      * intros g Hg. apply open_in_dup, Ho. by right.
      * intros mc2 H2. rewrite list_alter_alter_eq. specialize (HQ mc2 ltac:(by rewrite H2)).
        erewrite list_alter_ext; [exact HQ| |done]. by intros [] _.
    + apply wp_ret. apply IH; try done. intros g Hg. apply Ho. by right.
Qed.

(** ** The child *)

(** The slot [q] as the child of process [parent], which is [pr]. *)
Definition child_of (pr : proc) (parent : nat) (pid kstack pgdir : Z) (q : proc) : proc :=
  Proc (p_sz pr) pgdir kstack RUNNABLE pid (Some parent) (set_eax 0 (p_tf pr)) (Ctx 0 0 0 0 AtForkret)
    (p_chan q) (p_killed q) (p_ofile pr) (p_cwd pr) (proc_name (p_name pr)).

(** The file system with one more reference to the inode [d]. *)
Definition idup_fs (pr : proc) (d : nat) (f : fsst) : fsst :=
  set_inodes (alter (λ i, set_i_ref (i_ref i + 1) i) d (f_inodes f)) (enter_fs pr f).

Lemma fork_child_wp mc ps fl fs s i j pr np q d pid kstack pgdir Q :
  calm (upd mc ps fl fs s) i j pr → np ≠ j → p_cwd pr = Some d →
  (∀ f, Some f ∈ p_ofile pr → open_in fl f) →
  ps !! np = Some (set_pgdir pgdir (embryo pid kstack q)) →
  p_ofile q = replicate (length (p_ofile pr)) None →
  (∀ mc', mc' ≡ mc →
     Q pid (upd mc' (<[np := child_of pr j pid kstack pgdir q]> ps) (dup_files fl (p_ofile pr)) (idup_fs pr d fs) s)) →
  wp (fork_child j pr np) Q (upd mc ps fl fs s).
Proof.
  intros C Hne Hd Ho Hq Hclean HQ. unfold fork_child. do 3 (apply wp_bind, mod_slot_upd).
  assert (∀ mc' ps' fl' fs', mc' ≡ mc → ps' !! j = ps !! j → calm (upd mc' ps' fl' fs' s) i j pr) as C'.
  { intros mc' ps' fl' fs' E Ep. eapply calm_upd; [done|done|]. rewrite Ep. apply C. }
  apply wp_bind. eapply fork_files_wp; [apply C'|done|done|]; [done|by rewrite !list_lookup_alter_ne|].
  intros mc2 H2. rewrite Hd. apply wp_bind. eapply in_fs_upd.
  { apply C'; [done|]. by rewrite !list_lookup_alter_ne. }
  intros mc3 H3. unfold idup, mod_inode. apply wp_bind, wp_modify, wp_ret. do 2 (apply wp_bind, mod_slot_upd).
  apply wp_bind. eapply slot_of_wp. { cbn [s_p upd procs with_mach set_v set_procs]. by rewrite !list_lookup_alter_eq, Hq. }
  eapply section_upd. { apply C'; [by rewrite H3|]. by rewrite !list_lookup_alter_ne. }
  intros mc4 H4. apply wp_bind, mod_slot_upd, wp_bind. eapply (unlock_upd _ _ _ _ _ i j pr _ mc3).
  { apply C'; [by rewrite H3|]. by rewrite !list_lookup_alter_ne. }
  { done. }
  intros mc5 H5. apply wp_ret. specialize (HQ mc5 ltac:(by rewrite H5, H3)). rewrite !list_alter_alter_eq.
  match goal with |- Q _ (upd _ ?ps1 _ _ _) => match type of HQ with Q _ (upd _ ?ps2 _ _ _) => assert (ps1 = ps2) as -> end end; [|exact HQ].
  apply list_eq. intros k. rewrite list_lookup_alter. destruct (decide (np = k)) as [<-|Hk].
  - rewrite list_lookup_insert_eq by (by eapply lookup_lt_Some). rewrite Hq. cbn. f_equal. unfold child_of, child_files, embryo.
    cbn. by rewrite Hclean, copy_fds_all, Hd.
  - by rewrite list_lookup_insert_ne.
Qed.

(** ** fork *)

Section fork.
Context (kend data : Z) (Hkend : KERNLINK ≤ kend).
Context (Hdata : data mod PGSIZE = 0 ∧ KERNLINK < data < KERNBASE + PHYSTOP).

(** A state in which process [j], which is [pr], can call fork; its current
    directory is the inode [d]. *)
Record fork_ready (base : list Z) (other : Z → Z) (s : sys) (i j : nat) (pr : proc) (d : nat) : Prop := {
  fr_calm : calm s i j pr;
  fr_mem : proc_mem kend base other (v_k (p_v (s_p s))) (procs (s_p s));
  fr_sz : 0 ≤ p_sz pr ≤ KERNBASE;
  fr_pages : ∀ va, in_pages 0 (p_sz pr) va →
    flag_set (pte (k_mem (v_k (p_v (s_p s)))) (p_pgdir pr) va) PTE_P = true;
  fr_table : table_ok (procs (s_p s)) (nextpid (s_p s));
  fr_next : 0 < nextpid (s_p s) < 2 ^ 31 - 1;
  fr_files : ∀ f, Some f ∈ p_ofile pr → open_in (s_files s) f;
  fr_cwd : p_cwd pr = Some d;
  fr_clean : ∀ q, q ∈ procs (s_p s) → p_state q = UNUSED → p_ofile q = replicate (length (p_ofile pr)) None;
}.

Definition kmem_of (s : sys) : memory := k_mem (v_k (p_v (s_p s))).

(** Every process of [ds] sees the bytes it saw. *)
Definition same_bytes (ds : list Z) (s s' : sys) : Prop :=
  ∀ d va, d ∈ ds → 0 ≤ va < KERNBASE → ubyte (kmem_of s') d va = ubyte (kmem_of s) d va.

(** fork failed: no file or inode has gained a reference. *)
Definition fork_failed (s s' : sys) : Prop :=
  s_f s' = s_f s ∧ s_files s' = s_files s ∧ p_state <$> procs (s_p s') = p_state <$> procs (s_p s).

(** The page [v] the kernel has just taken. *)
Lemma held_page k pl ds kref v :
  vinv kend k pl ds (hold v kref) → kpos kref → page_ok kend v → 0 < refs pl v ∧ tabs (k_mem k) ds v = 0.
Proof.
  intros I Hpos Hv. pose proof (vi_rc _ _ _ _ _ I v Hv) as Hrc. pose proof (vi_uniq _ _ _ _ _ I v Hv) as Hu.
  unfold hold in Hrc. rewrite Z.eqb_refl in Hrc. specialize (Hpos v).
  assert (0 ≤ tabs (k_mem k) ds v) as Ht by apply count_nonneg.
  pose proof (users_nonneg (k_mem k) ds v). destruct (decide (tabs (k_mem k) ds v = 0)); [lia|].
  destruct Hu as (E1 & E2 & E3); lia.
Qed.

Lemma fork_undo_wp s i j pr pl ds kref np q v Q :
  calm s i j pr → np ≠ j → vinv kend (v_k (p_v (s_p s))) pl ds (hold v kref) → kpos kref → page_ok kend v →
  procs (s_p s) !! np = Some q → p_kstack q = v →
  (∀ s' pl', p_mach (s_p s') ≡ p_mach (s_p s) → s_f s' = s_f s → s_files s' = s_files s →
     nextpid (s_p s') = nextpid (s_p s) →
     procs (s_p s') = <[np := set_state UNUSED (set_kstack 0 q)]> (procs (s_p s)) →
     vinv kend (v_k (p_v (s_p s'))) pl' ds kref →
     vstep kend ds kref (v_k (p_v (s_p s))) (v_k (p_v (s_p s'))) → Q (-1) s') →
  wp (fork_undo kend np) Q s.
Proof using Hkend.
  intros C Hne I Hpos Hv Hq Hk HQ. unfold fork_undo. apply wp_bind. eapply slot_of_wp; [done|]. rewrite Hk.
  destruct (held_page _ _ _ _ _ I Hpos Hv) as [Hr Ht].
  apply wp_bind. unfold in_kst, in_p, in_v, in_k. do 3 apply wp_zoom.
  eapply (kfree_vinv kend Hkend _ i pl ds (hold v kref)); [done|by eapply calm_ready|done|done|done|].
  intros k' pl' F I' S' _ _. rewrite <- (upd_id (set_sp _ s)).
  do 2 (apply wp_bind, mod_slot_upd). apply wp_ret. cbn [procs s_p set_sp set_v].
  eapply HQ; try done.
  - cbn. apply F.
  - cbn. rewrite list_alter_alter_eq. by erewrite alter_insert.
  - cbn. eapply vinv_ext; [apply drop_hold|by eapply vinv_mach, I'].
  - cbn. destruct S' as [A1 A2 A3]. split; [done|done|]. intros w Hw Hl. apply A3; [done|]. unfold live in *. by rewrite drop_hold.
Qed.

Lemma few_hold ds kref v : few ds kref → kref v = 0 → few ds (hold v kref).
Proof. intros [Hl Hk] H0. split; [done|]. intros w. specialize (Hk w). unfold hold. destruct (Z.eqb_spec v w); subst; lia. Qed.

(** A page directory is a page. *)
Lemma dir_nonzero k pl ds kref d : vinv kend k pl ds kref → d ∈ ds → d ≠ 0.
Proof using Hkend.
  intros I Hd. pose proof (vi_tab _ _ _ _ _ I d None d Hd ltac:(by apply elem_of_slots) eq_refl) as Hok.
  by destruct (page_ok_pos kend Hkend d Hok).
Qed.

(** What the child sees: the bytes of the parent and nothing else. *)
Definition child_bytes (s : sys) (pr : proc) (pgdir : Z) (s' : sys) : Prop :=
  ∀ va, 0 ≤ va < KERNBASE →
    ubyte (kmem_of s') pgdir va =
    if decide (in_pages 0 (p_sz pr) va) then ubyte (kmem_of s) (p_pgdir pr) va else None.

(** The memory half, with the slot [np] already taken. *)
Lemma fork_copy_wp s i j pr pl ds kref d np q pid v Q :
  calm s i j pr → np ≠ j → vinv kend (v_k (p_v (s_p s))) pl ds (hold v kref) → kpos kref → few (0 :: ds) kref →
  kref v = 0 → page_ok kend v → p_pgdir pr ∈ ds → 0 ≤ p_sz pr ≤ KERNBASE →
  (∀ va, in_pages 0 (p_sz pr) va → flag_set (pte (kmem_of s) (p_pgdir pr) va) PTE_P = true) →
  (∀ f, Some f ∈ p_ofile pr → open_in (s_files s) f) → p_cwd pr = Some d →
  procs (s_p s) !! np = Some (embryo pid v q) → p_ofile q = replicate (length (p_ofile pr)) None →
  (∀ s', p_mach (s_p s') ≡ p_mach (s_p s) → s_f s' = s_f s → s_files s' = s_files s →
     nextpid (s_p s') = nextpid (s_p s) →
     procs (s_p s') = <[np := set_state UNUSED (set_kstack 0 (set_pgdir 0 (embryo pid v q)))]> (procs (s_p s)) →
     (∃ pl', vinv kend (v_k (p_v (s_p s'))) pl' ds kref) → same_bytes ds s s' → Q (-1) s') →
  (∀ s' pgdir, p_mach (s_p s') ≡ p_mach (s_p s) → s_f s' = idup_fs pr d (s_f s) →
     s_files s' = dup_files (s_files s) (p_ofile pr) → nextpid (s_p s') = nextpid (s_p s) →
     procs (s_p s') = <[np := child_of pr j pid v pgdir q]> (procs (s_p s)) → pgdir ∉ ds →
     (∃ pl', vinv kend (v_k (p_v (s_p s'))) pl' (pgdir :: ds) (hold v kref)) → same_bytes ds s s' →
     child_bytes s pr pgdir s' → Q pid s') →
  wp (pgdir ← in_vst (copyuvm kend data (p_pgdir pr) (p_sz pr));
      mod_slot np (set_pgdir pgdir);;
      if pgdir =? 0 then fork_undo kend np else fork_child j pr np) Q s.
Proof using Hkend Hdata.
  intros C Hne I Hpos Hfew H0 Hv Hdir Hsz Hpg Hf Hd Hq Hcl Q0 Q1.
  apply wp_bind. unfold in_vst, in_p, in_v. do 2 apply wp_zoom.
  eapply (copyuvm_wp kend Hkend data Hdata _ pl ds (hold v kref) i); try done.
  { by apply kpos_hold. } { by apply few_hold. } { by eapply calm_ready. }
  - intros vs p' I' S'. rewrite <- (upd_id (set_sp _ s)). apply wp_bind, mod_slot_upd.
    cbn [procs s_p set_sp set_v]. rewrite (alter_insert _ _ _ _ Hq). rewrite Z.eqb_refl.
    eapply (fork_undo_wp _ i j pr _ ds kref np _ v); try done.
    + eapply (calm_state s); [done|apply S'|]. cbn. rewrite list_lookup_insert_ne by done. apply C.
    + by eapply vinv_mach, I'.
    + cbn. rewrite list_lookup_insert_eq by (by eapply lookup_lt_Some). done.
    + done.
    + intros s' pl' E1 E2 E3 E4 E5 I2 S2. apply Q0; try done.
      * rewrite E1. apply S'.
      * rewrite E5. cbn. by rewrite list_insert_insert_eq.
      * by exists pl'.
      * intros d' va Hd' Hva. unfold kmem_of.
        etrans; [eapply (vsame_bytes kend); [|done|done|apply vstep_same, S2|done|done]; by eapply vinv_mach, I'|].
        eapply (vsame_bytes kend _ (v_k vs)); [exact I|done|by apply kpos_hold|exact S'|done|done].
  - intros vs p' pgdir Hnin I' F Hcr3. rewrite <- (upd_id (set_sp _ s)). apply wp_bind, mod_slot_upd.
    cbn [procs s_p set_sp set_v]. rewrite (alter_insert _ _ _ _ Hq).
    rewrite (proj2 (Z.eqb_neq _ _)) by (eapply dir_nonzero; [done|by left]).
    eapply (fork_child_wp _ _ _ _ _ i j pr np q d pid v pgdir); try done.
    + eapply (calm_state s); [done|apply F|]. cbn. rewrite list_lookup_insert_ne by done. apply C.
    + cbn. by rewrite list_lookup_insert_eq by (by eapply lookup_lt_Some).
    + intros mc Hmc. destruct (forked_bytes kend data Hdata _ _ _ _ _ _ _ _ I (kpos_hold _ _ Hpos) Hdir F) as [B1 B2].
      apply (Q1 _ pgdir); try done.
      * cbn. rewrite Hmc. apply F.
      * cbn. by rewrite list_insert_insert_eq.
      * exists p'. by eapply vinv_mach, I'.
      * intros d' va Hd' Hva. eapply (vsame_bytes kend _ (v_k vs)); [exact I|done|by apply kpos_hold|apply F|done|done].
      * intros va Hva. case_decide; [by apply B1|by apply B2].
Qed.

(** A free slot takes the next pid. *)
Lemma table_ok_slot ps next k q x :
  table_ok ps next → 0 < next → ps !! k = Some q → p_pid x = next → (p_state x = UNUSED → p_kstack x = 0) →
  table_ok (<[k := x]> ps) (next + 1).
Proof. intros Ht Hn Hq Hx Hs. rewrite <- (alter_insert (λ _, x) _ _ _ Hq). by apply table_ok_new. Qed.

Lemma find_free_slot ps np : find_state UNUSED ps 0 = Some np → ∃ q, ps !! np = Some q ∧ p_state q = UNUSED.
Proof. intros (_ & H & _)%find_state_Some. by rewrite Nat.sub_0_r in H. Qed.

(** A free slot stays free. *)
Lemma same_states (ps : list proc) (k : nat) q x :
  ps !! k = Some q → p_state x = p_state q → p_state <$> <[k := x]> ps = p_state <$> ps.
Proof. intros H E. rewrite list_fmap_insert. apply list_insert_id. by rewrite list_lookup_fmap, H, E. Qed.

Lemma proc_mem_unused base other k k' pl ps np q x :
  proc_mem kend base other k ps → ps !! np = Some q → p_state q = UNUSED → p_state x = UNUSED →
  vinv kend k' pl (dirs ps ++ base) (kuse other ps) → proc_mem kend base other k' (<[np := x]> ps).
Proof.
  intros P Hq Es Ex I. eapply proc_mem_slot; [done|done|done|congruence|..].
  - unfold has_space. by rewrite Es, Ex.
  - intros v. unfold has_stack. by rewrite Es, Ex.
Qed.

(** The child has taken a free slot, a page directory and a kernel stack. *)
Lemma proc_mem_child base other k k' pl ps np q pr j pid v pgdir :
  proc_mem kend base other k ps → ps !! np = Some q → p_state q = UNUSED → page_ok kend v →
  vinv kend k' pl (pgdir :: dirs ps ++ base) (hold v (kuse other ps)) →
  proc_mem kend base other k' (<[np := child_of pr j pid v pgdir q]> ps).
Proof.
  intros P Hq Es Hv I. eapply proc_mem_slot; [done|done|done|done|..].
  - unfold has_space. by rewrite Es.
  - intros w. unfold has_stack, hold. rewrite (bool_decide_eq_false_2 (p_state q ≠ UNUSED)) by auto.
    rewrite bool_decide_eq_true_2 by done. cbn. destruct (v =? w); lia.
Qed.

Lemma same_bytes_mem ds s1 s2 s' : kmem_of s2 = kmem_of s1 → same_bytes ds s2 s' → same_bytes ds s1 s'.
Proof. intros E H d va Hd Hva. rewrite (H d va Hd Hva). by rewrite E. Qed.

(** fork succeeded: slot [np] holds the child. *)
Definition fork_succeeded (s : sys) (j : nat) (pr : proc) (d : nat) (pid : Z) (s' : sys) : Prop :=
  ∃ np q v pgdir, pid = nextpid (s_p s) ∧ procs (s_p s) !! np = Some q ∧ p_state q = UNUSED ∧
    procs (s_p s') = <[np := child_of pr j pid v pgdir q]> (procs (s_p s)) ∧
    (∀ f, s_files s' !! f =
       (λ x, set_fl_ref (fl_ref x + count (λ o, bool_decide (o = Some f)) (p_ofile pr)) x) <$> s_files s !! f) ∧
    s_f s' = idup_fs pr d (s_f s) ∧ child_bytes s pr pgdir s'.

(** C25. fork.  It returns the pid of a new process, or -1.  The child is
    RUNNABLE, has the caller as its parent, sees exactly the caller's memory,
    returns 0 from the call, and has the same open files and directory, each
    of which gains one reference for every descriptor that names it.  When
    fork fails, no file or inode has gained a reference and no slot has
    changed its state.  In both cases every page is counted exactly as often
    as processes map it or have it as kernel stack, so that nothing leaks;
    pids stay unique, no lock is left held, and no process sees a byte of
    its memory change. *)
Theorem fork_correct base other s i j pr d :
  fork_ready base other s i j pr d →
  wp (fork kend data) (λ r s',
    p_mach (s_p s') ≡ p_mach (s_p s) ∧ table_ok (procs (s_p s')) (nextpid (s_p s')) ∧
    proc_mem kend base other (v_k (p_v (s_p s'))) (procs (s_p s')) ∧
    same_bytes (dirs (procs (s_p s)) ++ base) s s' ∧
    (r = -1 ∧ fork_failed s s' ∨ fork_succeeded s j pr d r s')) s.
Proof using Hkend Hdata.
  intros [C PM Hsz Hpg Ht Hn Hf Hd Hcl]. pose proof PM as [[pl I] _ _ _ _].
  pose proof (kuse_pos _ _ _ _ _ PM) as Hpos. pose proof (kuse_few _ _ _ _ _ PM) as Hfew.
  unfold fork. apply wp_bind. eapply curproc_calm; [done|]. intros mc1 H1. set (s1 := set_sp _ s). cbn [fst snd].
  assert (calm s1 i j pr) as C1 by (eapply calm_state; [done|done|apply C]).
  apply wp_bind, wp_zoom. eapply (allocproc_wp kend Hkend _ i pl).
  { by eapply vinv_mach, I. } { done. } { by eapply calm_ready. } { by eapply calm_lock. }
  - intros mc Hmc _. apply wp_ret. split; [by cbn; rewrite Hmc|]. split; [done|].
    split; [by apply (proc_mem_mach _ _ _ _ _ PM)|]. split; [done|]. by left.
  - intros ps' np pl' Hnp [[Em _] Emem _ _ _] Ep En _ I'. cbn in Ep, En, Em. apply wp_ret.
    destruct (find_free_slot _ _ Hnp) as (q & Hq & Es). cbn in Hq. rewrite (alter_insert _ _ _ _ Hq) in Ep.
    split; [etrans; [exact Em|done]|]. split. { cbn. rewrite Ep, En, i32_small by lia. eapply table_ok_slot; try done. lia. }
    split. { cbn. rewrite Ep. by eapply proc_mem_unused. }
    split; [intros d' va _ _; unfold kmem_of; cbn; by rewrite Emem|]. left. split; [done|]. do 2 (split; [done|]).
    cbn. rewrite Ep. by apply (same_states _ _ q).
  - intros ps' np pl' v Hnp [[Em Eu] Emem _ _ _] Ep En Hv Hk0 _ _ I'. cbn in Ep, En, Em, Emem.
    destruct (find_free_slot _ _ Hnp) as (q & Hq & Es). cbn in Hq. rewrite (alter_insert _ _ _ _ Hq) in Ep.
    assert (np ≠ j) as Hne. { intros ->. pose proof (ca_proc _ _ _ _ C). pose proof (ca_state _ _ _ _ C). congruence. }
    eapply (fork_copy_wp _ i j pr pl' _ (kuse other (procs (s_p s))) d np q (nextpid (s_p s)) v); try done.
    + eapply (calm_state s1); [done|done|]. cbn. rewrite Ep, list_lookup_insert_ne by done. apply C.
    + eapply dirs_elem; [apply C|]. unfold has_space. by rewrite (ca_state _ _ _ _ C).
    + intros va Hva. unfold kmem_of. cbn. rewrite Emem. by apply Hpg.
    + cbn. rewrite Ep. apply list_lookup_insert_eq. by eapply lookup_lt_Some.
    + apply Hcl; [by eapply list_elem_of_lookup_2|done].
    + intros s' E1 E2 E3 E4 E5 [pl2 I2] B. cbn in E1, E4, E5. rewrite Ep, list_insert_insert_eq in E5.
      split; [etrans; [exact E1|]; by etrans; [exact Em|]|].
      split. { rewrite E4, E5, En, i32_small by lia. eapply table_ok_slot; try done. lia. }
      split. { rewrite E5. by eapply proc_mem_unused. }
      split; [exact (same_bytes_mem _ s (set_sp ps' s1) _ Emem B)|]. left. do 3 (split; [done|]).
      rewrite E5. by apply (same_states _ _ q).
    + intros s' pgdir E1 E2 E3 E4 E5 Hnin [pl2 I2] B Bc. cbn in E1, E2, E3, E4, E5. rewrite Ep, list_insert_insert_eq in E5.
      split; [etrans; [exact E1|]; by etrans; [exact Em|]|].
      split. { rewrite E4, E5, En, i32_small by lia. eapply table_ok_slot; try done. lia. }
      split. { rewrite E5. by eapply proc_mem_child. }
      split; [exact (same_bytes_mem _ s (set_sp ps' s1) _ Emem B)|]. right. exists np, q, v, pgdir. do 4 (split; [done|]).
      split; [intros f; rewrite E3; apply dup_files_lookup|]. split; [done|].
      intros va Hva. rewrite (Bc va Hva). unfold kmem_of. cbn. by rewrite Emem.
Qed.
End fork.
