(* ===== verification/WaitSpec.v ===== *)
(** wait (proc.c): it reaps an exited child and gives back all of its memory,
    or sleeps until a child exits. *)

From S2P Require Import Prelude Memory Kstring Spinlock Mmu Kalloc Vm VmInv VmWalk VmMap VmFree VmKern VmUser VmCopy.
From S2P Require Import Proc ProcSpec Block Ide Bio Log Fs Cons Kern KernSpec ProcMem Pipe Filetab Procs ForkSpec.

(** ** The scan *)

Definition child (i : nat) (p : proc) : Prop := p_parent p = Some i.
Definition exited (i : nat) (p : proc) : Prop := child i p ∧ p_state p = ZOMBIE.

Lemma find_zombie_Some i ps k b r n :
  find_zombie i ps k b = (r, Some n) →
  (k ≤ n)%nat ∧ (∃ z, ps !! (n - k)%nat = Some z ∧ exited i z) ∧ ∀ m p, (m < n - k)%nat → ps !! m = Some p → ¬ exited i p.
Proof.
  revert k b. induction ps as [|p ps IH]; intros k b; cbn [find_zombie]; [done|].
  assert (∀ b', ¬ exited i p → find_zombie i ps (S k) b' = (r, Some n) →
    (k ≤ n)%nat ∧ (∃ z, (p :: ps) !! (n - k)%nat = Some z ∧ exited i z) ∧
    ∀ m q, (m < n - k)%nat → (p :: ps) !! m = Some q → ¬ exited i q) as Hstep.
  { intros b' Hp H. destruct (IH _ _ H) as (Hle & (z & Hz & Ez) & Hlt). split; [lia|].
    replace (n - k)%nat with (S (n - S k)) by lia. split; [by exists z|].
    intros [|m] q Hm; [by intros [= <-]|]. intros Hq. apply (Hlt m q); [lia|done]. }
  case_decide as Ep; [case_decide as Ez|]; [|by apply Hstep; unfold exited; tauto..].
  intros [= <- <-]. rewrite Nat.sub_diag. split; [lia|]. split; [|lia]. exists p. by split.
Qed.

Lemma find_zombie_None i ps k b r :
  find_zombie i ps k b = (r, None) →
  (∀ p, p ∈ ps → ¬ exited i p) ∧ (r = true ↔ b = true ∨ ∃ p, p ∈ ps ∧ child i p).
Proof.
  revert k b. induction ps as [|p ps IH]; intros k b; cbn [find_zombie].
  - intros [= <-]. split; [by intros p Hp%elem_of_nil|]. split; [by left|]. intros [?|(p & Hp%elem_of_nil & _)]; done.
  - case_decide as Ep; [case_decide as Ez; [done|]|]; intros H; destruct (IH _ _ H) as [H1 H2]; (split;
      [intros q [->|Hq]%elem_of_cons; [unfold exited; tauto|by apply H1]|]).
    + rewrite H2. split; [intros _; right; exists p; split; [by left|done]|by left].
    + rewrite H2. split; (intros [?|(q & Hq & Hc)]; [by left|]).
      * right. exists q. split; [by right|done].
      * apply elem_of_cons in Hq as [->|Hq]; [done|]. right. by exists q.
Qed.

(** ** Reaping *)

Section wait.
Context (kend : Z) (Hkend : KERNLINK ≤ kend) (base : list Z) (other : Z → Z).

(** The slot of a child that was reaped. *)
Definition freed (z : proc) : proc := reaped (set_kstack 0 z).

Lemma section_ready s lk mc0 i j pr :
  in_section s lk mc0 i j pr → lk ≠ LkKmem → lock_free mc0 LkKmem → kready (v_k (p_v (s_p s))) i.
Proof.
  intros [R _ _ Hm _ _] Hne Hf _. change (k_mach (v_k (p_v (s_p s)))) with (p_mach (s_p s)). split; rewrite Hm.
  - apply cpu_ok_acquired, R.
  - by apply lock_free_acquired.
Qed.

(** A page with a reference of the kernel is no page table. *)
Lemma kept_page k pl ds kref v :
  vinv kend k pl ds kref → page_ok kend v → 0 < kref v → 0 < refs pl v ∧ tabs (k_mem k) ds v = 0.
Proof.
  intros I Hv Hpos. pose proof (vi_rc _ _ _ _ _ I v Hv) as Hrc. pose proof (vi_uniq _ _ _ _ _ I v Hv) as Hu.
  pose proof (tabs_nonneg (k_mem k) ds v). pose proof (users_nonneg (k_mem k) ds v).
  destruct (decide (tabs (k_mem k) ds v = 0)); [lia|]. destruct Hu as (E1 & E2 & E3); lia.
Qed.

Lemma kuse_stack ps k z : ps !! k = Some z → p_state z ≠ UNUSED → (∀ v, 0 ≤ other v) → 0 < kuse other ps (p_kstack z).
Proof.
  intros Hz Hs Ho. unfold kuse. specialize (Ho (p_kstack z)).
  pose proof (count_pos (has_stack (p_kstack z)) ps z (list_elem_of_lookup_2 _ _ _ Hz)) as Hc.
  unfold has_stack in Hc at 1. rewrite bool_decide_eq_true_2, Z.eqb_refl in Hc by done. specialize (Hc eq_refl). lia.
Qed.

(** The page directory of [z] apart from the others. *)
Lemma dirs_split ps k z : ps !! k = Some z → has_space z = true →
  dirs ps ≡ₚ p_pgdir z :: dirs (<[k := freed z]> ps).
Proof. intros Hz Hs. pose proof (dirs_insert ps k z (freed z) Hz) as E. rewrite Hs in E. cbn in E. by rewrite <- E. Qed.

Lemma reap_wp s i k z Q :
  kready (v_k (p_v (s_p s))) i → proc_mem kend base other (v_k (p_v (s_p s))) (procs (s_p s)) →
  procs (s_p s) !! k = Some z → p_state z = ZOMBIE →
  (∀ s', p_mach (s_p s') ≡ p_mach (s_p s) → procs (s_p s') = <[k := freed z]> (procs (s_p s)) →
     nextpid (s_p s') = nextpid (s_p s) → s_f s' = s_f s → s_files s' = s_files s →
     proc_mem kend base other (v_k (p_v (s_p s'))) (procs (s_p s')) →
     same_bytes (dirs (procs (s_p s')) ++ base) s s' → Q (p_pid z) s') →
  wp (reap kend k) Q s.
Proof using Hkend.
  intros Hr PM Hz Es HQ. pose proof PM as [[pl I] Hst Ho _ _]. set (ps := procs (s_p s)) in *.
  assert (p_state z ≠ UNUSED) as Hnu by congruence. assert (has_space z = true) as Hsp by (unfold has_space; by rewrite Es).
  pose proof (Hst k z Hz Hnu) as Hv. pose proof (kuse_stack ps k z Hz Hnu ltac:(apply Ho)) as Hk0.
  destruct (kept_page _ _ _ _ _ I Hv Hk0) as [Hrf Ht0].
  set (ds := dirs (<[k := freed z]> ps) ++ base).
  assert (dirs ps ++ base ≡ₚ p_pgdir z :: ds) as Eds by (unfold ds; by rewrite (dirs_split ps k z Hz Hsp)).
  assert (kpos (drop (p_kstack z) (kuse other ps))) as Hpos.
  { intros v. unfold drop. pose proof (kuse_pos _ _ _ _ _ PM v). destruct (Z.eqb_spec (p_kstack z) v); [subst|]; lia. }
  unfold reap. apply wp_bind. eapply slot_of_wp; [exact Hz|]. apply wp_bind. unfold in_kst at 1, in_p, in_v, in_k. do 3 apply wp_zoom.
  eapply (kfree_vinv kend Hkend _ i pl _ _ _ _ I); [done|done|done|done|]. intros k1 pl1 F1 I1 S1 _ _.
  rewrite <- (upd_id (set_sp _ s)). apply wp_bind, mod_slot_upd, wp_bind. unfold in_kst, in_p, in_v, in_k. do 3 apply wp_zoom.
  eapply (freevm_wp kend Hkend _ i pl1 ds (drop (p_kstack z) (kuse other ps))); [|done|..].
  { eapply vinv_perm; [exact Eds|]. by eapply vinv_mach, I1. }
  { by eapply kready_equiv; [..|exact Hr]; apply F1. }
  intros k2 pl2 I2 S2. match goal with |- wp _ _ ?st => rewrite <- (upd_id st) end. apply wp_bind, mod_slot_upd, wp_ret.
  cbn [procs s_p set_sp set_v upd with_mach set_procs]. rewrite list_alter_alter_eq.
  rewrite (alter_insert (reaped ∘ set_kstack 0) (procs (s_p s)) _ _ Hz). fold (freed z).
  apply HQ; try done.
  - cbn. etrans; [apply S2|]. apply F1.
  - cbn. eapply (proc_mem_slot _ _ _ _ _ PM _ pl2 k z (freed z) ds); [done|by eapply vinv_mach, I2|done|..].
    + rewrite Hsp. cbn. by rewrite Eds.
    + intros w. unfold has_stack, drop. rewrite (bool_decide_eq_true_2 (p_state z ≠ UNUSED)) by done.
      rewrite (bool_decide_eq_false_2 (p_state (freed z) ≠ UNUSED)) by (cbn; tauto). cbn. destruct (_ =? _); lia.
  - cbn. intros d va Hd Hva. unfold kmem_of. cbn. fold ds in Hd.
    etrans; [eapply (vsame_bytes kend _ k2 pl1 (dirs ps ++ base) ds); [|rewrite Eds; set_solver|exact Hpos|apply vstep_same, S2|done|done]|].
    { by eapply vinv_mach, I1. }
    eapply (vsame_bytes kend _ k1); [exact I|done|exact Hpos|apply vstep_same, S1| |done]. rewrite Eds. by right.
Qed.

(** ** wait *)

Lemma table_ok_freed ps next k z : table_ok ps next → ps !! k = Some z → table_ok (<[k := freed z]> ps) next.
Proof.
  intros Ht Hz. rewrite <- (alter_insert freed _ _ _ Hz). apply table_ok_alter; [done|]. intros p _. cbn. by auto.
Qed.

(** What a call of wait by process [j] leaves: a child reaped; or -1; or the
    caller asleep. *)
Definition waited (s : sys) (i j : nat) (pr : proc) (r : wait_res) (s' : sys) : Prop :=
  let ps := procs (s_p s) in
  s_f s' = s_f s ∧ s_files s' = s_files s ∧
  match r with
  | WaitRet pid => p_mach (s_p s') ≡ p_mach (s_p s) ∧
      proc_mem kend base other (v_k (p_v (s_p s'))) (procs (s_p s')) ∧ table_ok (procs (s_p s')) (nextpid (s_p s')) ∧
      ((∃ k z, ps !! k = Some z ∧ exited j z ∧ pid = p_pid z ∧ procs (s_p s') = <[k := freed z]> ps ∧
          same_bytes (dirs (procs (s_p s')) ++ base) s s') ∨
       pid = -1 ∧ (∀ p, p ∈ ps → ¬ exited j p) ∧ ((∀ p, p ∈ ps → ¬ child j p) ∨ p_killed pr = true) ∧
          procs (s_p s') = ps ∧ kmem_of s' = kmem_of s)
  | WaitSleep b => p_mach (s_p s') ≡ acquired i LkPtable (p_mach (s_p s)) ∧ b = hw_if (p_mach (s_p s)) ∧
      (∃ p, p ∈ ps ∧ child j p) ∧ (∀ p, p ∈ ps → ¬ exited j p) ∧ p_killed pr = false ∧
      procs (s_p s') = alter (asleep (ChProc j)) j ps ∧ kmem_of s' = kmem_of s
  end.

(** C26. wait.  If a child of the caller has exited, wait returns the pid of
    one and frees its slot, its kernel stack and its address space: every
    page is again counted exactly as often as the remaining processes use
    it, and none of them sees a byte of its memory change.  It returns -1
    only if the caller has no child or has been killed, and sleeps on its own
    process only if it has children, none of which has exited; whichever it
    does, [ptable.lock] is the only lock it may leave held, for the
    scheduler. *)
Theorem wait_correct s i j pr :
  calm s i j pr → proc_mem kend base other (v_k (p_v (s_p s))) (procs (s_p s)) →
  table_ok (procs (s_p s)) (nextpid (s_p s)) →
  wp (wait kend) (waited s i j pr) s.
Proof using Hkend.
  intros C PM Ht. unfold wait. apply wp_bind. eapply curproc_calm; [done|]. intros mc1 H1.
  set (s1 := set_sp _ s). cbn [fst snd].
  assert (calm s1 i j pr) as C1 by (eapply calm_state; [done|done|apply C]).
  eapply section_calm; [done|]. intros mc2 s2 S2. unfold wait_iter. apply wp_bind, wp_gets.
  change (procs (s_p s2)) with (procs (s_p s)). destruct (find_zombie j (procs (s_p s)) 0 false) as [b [k|]] eqn:Ez.
  - apply find_zombie_Some in Ez as (_ & (z & Hz & Hc & Es) & _). rewrite Nat.sub_0_r in Hz.
    apply wp_bind. eapply (reap_wp s2 i k z); [|by apply (proc_mem_mach _ _ _ _ _ PM)|done|done|].
    { eapply section_ready; [done|done|]. apply C1. }
    intros s3 Em Ep En Ef Efl PM3 B. apply wp_bind. eapply (unlock_wp s3 _ mc1 i j pr).
    { destruct S2 as [A1 A2 A3 A4 A5 A6]. split; try done; [by rewrite Em|]. rewrite Ep.
      rewrite list_lookup_insert_ne; [done|]. intros ->. cbn in A5. congruence. }
    intros mc4 H4. apply wp_ret. split; [done|]. split; [done|]. split; [by etrans; [exact H4|]|].
    split; [by apply (proc_mem_mach _ _ _ _ _ PM3)|]. split.
    { cbn. rewrite Ep, En. by apply table_ok_freed. }
    left. exists k, z. split; [done|]. split; [done|]. by split_and!.
  - apply find_zombie_None in Ez as [Hno Hb]. apply wp_bind. eapply slot_of_wp; [apply (is_proc _ _ _ _ _ _ S2)|].
    destruct (negb b || p_killed pr) eqn:Eb.
    + apply wp_bind. eapply unlock_wp; [exact S2|]. intros mc3 H3. apply wp_ret. split; [done|]. split; [done|].
      split; [by etrans; [exact H3|]|]. split; [by apply (proc_mem_mach _ _ _ _ _ PM)|]. split; [done|]. right.
      do 2 (split; [done|]). split; [|done]. apply orb_true_iff in Eb as [Eb%negb_true_iff|]; [|by right]. left. intros p Hp Hc.
      assert (b = true); [|congruence]. apply Hb. right. by exists p.
    + apply orb_false_iff in Eb as [Eb%negb_false_iff Ek]. apply wp_bind. eapply sleep_in_section; [exact S2|].
      intros mc3 H3. apply wp_ret. split; [done|]. split; [done|]. cbn in H3.
      split; [cbn; rewrite H3; cbn; by rewrite H1|]. split; [|split; [|done]].
      * cbn. apply H1.
      * apply Hb in Eb as [|Eb]; done.
Qed.
End wait.
