(* ===== verification/ExitSpec.v ===== *)
(** exit (proc.c), from the point where it holds [ptable.lock]: it hands its
    children to init, wakes whoever may be waiting, and leaves a zombie for
    its parent. *)

From S2P Require Import Prelude Memory Kstring Spinlock Mmu Kalloc Vm VmInv Proc ProcSpec Block Ide Bio Log Fs Cons.
From S2P Require Import Kern KernSpec ProcMem Pipe Filetab Procs ForkSpec WaitSpec.

(** ** Handing over the children *)

Definition adopt (i ini : nat) (p : proc) : proc :=
  if decide (p_parent p = Some i) then set_parent (Some ini) p else p.
Definition wake_if (b : bool) (c : chan) (p : proc) : proc := if b then wake c p else p.

#[global] Instance exited_dec i p : Decision (exited i p).
Proof. unfold exited, child. apply _. Defined.

(** Some process of [l] is an exited child of [i]. *)
Definition has_zombie (i : nat) (l : list proc) : bool := existsb (λ p, bool_decide (exited i p)) l.

(** A wakeup changes neither parents nor which processes have exited. *)
Lemma parent_wake c p : p_parent (wake c p) = p_parent p.
Proof. unfold wake. by case_decide. Qed.
Lemma exited_wake i c p : exited i (wake c p) ↔ exited i p.
Proof.
  unfold exited, child. rewrite parent_wake. unfold wake. case_decide as E; [|done]. cbn. destruct E as [-> _].
  split; by intros [].
Qed.
Lemma adopt_wake i ini c p : adopt i ini (wake c p) = wake c (adopt i ini p).
Proof.
  unfold adopt. rewrite parent_wake. case_decide; [|done]. unfold wake at 1 2. cbn. by case_decide.
Qed.

Lemma has_zombie_wake i c l : has_zombie i (wake c <$> l) = has_zombie i l.
Proof.
  unfold has_zombie. induction l as [|p l IH]; [done|]. cbn. rewrite IH. f_equal. apply bool_decide_ext, exited_wake.
Qed.

Lemma wake_if_or b z c p : wake_if b c (wake_if z c p) = wake_if (z || b) c p.
Proof. destruct b, z; cbn; [apply wake_wake|done..]. Qed.
Lemma adopt_wake_if i ini b c p : adopt i ini (wake_if b c p) = wake_if b c (adopt i ini p).
Proof. destruct b; [apply adopt_wake|done]. Qed.

(** One slot: the child [p] gets a new parent, which is woken if [p] has
    exited. *)
Lemma reparent_step i ini k p mc ps fl fs s Q :
  ps !! k = Some p →
  Q tt (upd mc (wake_if (bool_decide (exited i p)) (ChProc ini) <$> <[k := adopt i ini p]> ps) fl fs s) →
  wp (if decide (p_parent p = Some i) then
        mod_slot k (set_parent (Some ini));;
        if decide (p_state p = ZOMBIE) then in_p (wakeup1 (ChProc ini)) else mret tt
      else mret tt) Q (upd mc ps fl fs s).
Proof.
  intros Hp HQ. unfold adopt in HQ. case_decide as Ep.
  - apply wp_bind, mod_slot_upd. rewrite (alter_insert _ _ _ _ Hp). case_decide as Ez.
    + rewrite bool_decide_eq_true_2 in HQ by done. unfold wakeup1, in_p. by apply wp_zoom, wp_modify.
    + rewrite bool_decide_eq_false_2 in HQ by (unfold exited; tauto). cbn [wake_if] in HQ. rewrite list_fmap_id in HQ.
      by apply wp_ret.
  - rewrite bool_decide_eq_false_2 in HQ by (unfold exited, child; tauto). cbn [wake_if] in HQ.
    rewrite list_fmap_id, list_insert_id in HQ by done. by apply wp_ret.
Qed.

(** The slots from [k] on. *)
Definition reparented (i ini k : nat) (ps : list proc) (m : nat) (p : proc) : proc :=
  wake_if (has_zombie i (list.drop k ps)) (ChProc ini) (if decide (k ≤ m)%nat then adopt i ini p else p).

Lemma reparent_upd i ini n k mc ps fl fs s Q :
  (k + n = length ps)%nat → Q tt (upd mc (imap (reparented i ini k ps) ps) fl fs s) →
  wp (reparent i ini k n) Q (upd mc ps fl fs s).
Proof.
  revert k ps. induction n as [|n IH]; intros k ps Hl HQ; cbn [reparent].
  { apply wp_ret. replace (imap _ ps) with ps in HQ; [done|]. apply list_eq. intros m. rewrite list_lookup_imap.
    destruct (ps !! m) as [p|] eqn:E; [|done]. apply lookup_lt_Some in E. cbn. unfold reparented.
    rewrite drop_ge by lia. cbn. by rewrite decide_False by lia. }
  destruct (lookup_lt_is_Some_2 ps k ltac:(lia)) as [p Hp]. apply wp_bind. eapply slot_of_wp; [exact Hp|].
  apply wp_bind, reparent_step; [done|]. set (z := bool_decide (exited i p)). apply IH.
  { rewrite length_fmap, length_insert. lia. }
  match goal with |- Q _ (upd _ ?l _ _ _) => replace l with (imap (reparented i ini k ps) ps) end; [exact HQ|].
  assert (has_zombie i (list.drop k ps) = z || has_zombie i (list.drop (S k) ps)) as Ez by (by rewrite (drop_S _ _ _ Hp)).
  apply list_eq. intros m. rewrite !list_lookup_imap, list_lookup_fmap. unfold reparented. rewrite Ez.
  rewrite <- fmap_drop, drop_insert_lt by lia.
  assert (has_zombie i (wake_if z (ChProc ini) <$> list.drop (S k) ps) = has_zombie i (list.drop (S k) ps)) as ->.
  { destruct z; [apply has_zombie_wake|]. cbn [wake_if]. by rewrite list_fmap_id. }
  destruct (decide (m = k)) as [->|Hm].
  - rewrite Hp, list_lookup_insert_eq by lia. cbn. rewrite decide_True, decide_False by lia. by rewrite wake_if_or.
  - rewrite list_lookup_insert_ne by done. destruct (ps !! m) as [q|]; [|done]. cbn. f_equal.
    destruct (decide (k ≤ m)%nat).
    + rewrite decide_True by lia. by rewrite adopt_wake_if, wake_if_or.
    + rewrite decide_False by lia. by rewrite wake_if_or.
Qed.

(** ** exit *)

(** What exit of process [j], whose parent is [par], does to the others. *)
Definition after_exit (j ini : nat) (par : option nat) (zs : bool) (p : proc) : proc :=
  wake_if zs (ChProc ini) (adopt j ini (match par with Some q => wake (ChProc q) p | None => p end)).

Definition zombie (p : proc) : proc := park (set_state ZOMBIE p).

Lemma imap_all {A B} (f : A → B) (l : list A) : imap (λ _, f) l = f <$> l.
Proof. apply list_eq. intros i. rewrite list_lookup_imap, list_lookup_fmap. by destruct (l !! i). Qed.

Lemma exit_leave_wp s mc0 i j pr ini Q :
  in_section s LkPtable mc0 i j pr → initproc (s_p s) = Some ini →
  (∀ mc, mc ≡ acquired i LkPtable mc0 →
     Q tt (upd mc (alter zombie j (after_exit j ini (p_parent pr) (has_zombie j (procs (s_p s))) <$> procs (s_p s)))
             (s_files s) (s_f s) s)) →
  wp (exit_leave j) Q s.
Proof.
  intros [R Hp Hl Hm Hj Hr] Hini HQ. unfold exit_leave. apply wp_bind. eapply slot_of_wp; [done|].
  apply wp_bind, wp_gets. rewrite Hini. rewrite <- (upd_id s) at 1. set (ps := procs (s_p s)) in *.
  set (ps1 := (λ p, match p_parent pr with Some q => wake (ChProc q) p | None => p end) <$> ps).
  assert (has_zombie j ps1 = has_zombie j ps) as Ez.
  { unfold ps1. destruct (p_parent pr); [apply has_zombie_wake|by rewrite list_fmap_id]. }
  apply wp_bind. apply (wp_mono _ (λ _ s', s' = upd (p_mach (s_p s)) ps1 (s_files s) (s_f s) s)).
  { unfold ps1. destruct (p_parent pr) as [q|].
    - unfold wakeup1, in_p. by apply wp_zoom, wp_modify.
    - apply wp_ret. by rewrite list_fmap_id. }
  intros [] ? ->. apply wp_bind, wp_gets. cbn [procs s_p upd with_mach set_v set_procs].
  apply wp_bind, reparent_upd; [done|]. apply wp_bind, mod_slot_upd, wp_bind. unfold in_p. apply wp_zoom.
  assert (imap (reparented j ini 0 ps1) ps1 = after_exit j ini (p_parent pr) (has_zombie j ps) <$> ps) as ->.
  { unfold ps1 at 2. rewrite <- imap_all. apply list_eq. intros m. rewrite !list_lookup_imap, list_lookup_fmap.
    destruct (ps !! m); [|done]. cbn. unfold reparented. rewrite decide_True by lia. by rewrite drop_0, Ez. }
  eapply (sched_enter_wp _ mc0 i j); [apply R|apply R|apply R|exact Hm|..].
  { cbn. rewrite list_lookup_alter_eq, list_lookup_fmap, Hj. reflexivity. }
  { done. }
  intros mc Hmc. apply wp_ret. specialize (HQ mc Hmc). cbn [procs set_procs s_p upd with_mach set_v].
  rewrite list_alter_alter_eq. exact HQ.
Qed.

(** The fields of the others. *)
Section after_exit.
Context (j ini : nat) (par : option nat) (zs : bool) (p : proc).
Let p' := after_exit j ini par zs p.

Lemma after_exit_parent : p_parent p' = if decide (p_parent p = Some j) then Some ini else p_parent p.
Proof.
  unfold p', after_exit, wake_if, adopt. destruct zs, par; rewrite ?parent_wake; repeat case_decide; rewrite ?parent_wake; done.
Qed.

Lemma after_exit_woken :
  p_state p = SLEEPING →
  ((∃ q, par = Some q ∧ p_chan p = Some (ChProc q)) ∨ zs = true ∧ p_chan p = Some (ChProc ini)) → p_state p' = RUNNABLE.
Proof.
  unfold p', after_exit, wake_if, adopt, wake. intros Hs [(q & -> & Hc)|[-> Hc]].
  - destruct zs; repeat (case_decide; cbn in *); naive_solver.
  - destruct par; repeat (case_decide; cbn in *); naive_solver.
Qed.

Lemma after_exit_state : p_state p ≠ SLEEPING → p_state p' = p_state p.
Proof.
  unfold p', after_exit, wake_if, adopt, wake. intros Hs.
  destruct zs, par; repeat (case_decide; cbn in *); naive_solver.
Qed.

Lemma after_exit_rest : p_pid p' = p_pid p ∧ p_kstack p' = p_kstack p ∧ p_pgdir p' = p_pgdir p.
Proof. unfold p', after_exit, wake_if, adopt, wake. destruct zs, par; repeat (case_decide; cbn in *); done. Qed.
End after_exit.

(** C27. exit, once it holds [ptable.lock]: the process becomes a ZOMBIE that
    keeps its pid, kernel stack and address space for its parent to reap; no
    process is left with it as parent, its children are now init's; its
    parent, if it sleeps in wait, is made RUNNABLE, and so is init if it
    inherits a child that has already exited; the CPU goes to the scheduler
    with [ptable.lock] as the only lock held. *)
Theorem exit_leave_correct s mc0 i j pr ini :
  in_section s LkPtable mc0 i j pr → initproc (s_p s) = Some ini → ini ≠ j →
  wp (exit_leave j) (λ _ s', p_mach (s_p s') ≡ acquired i LkPtable mc0 ∧ kmem_of s' = kmem_of s ∧
    length (procs (s_p s')) = length (procs (s_p s)) ∧
    (∀ k p, procs (s_p s') !! k = Some p → p_parent p ≠ Some j) ∧
    (∃ z, procs (s_p s') !! j = Some z ∧ p_state z = ZOMBIE ∧ p_pid z = p_pid pr ∧
       p_kstack z = p_kstack pr ∧ p_pgdir z = p_pgdir pr ∧ (p_parent pr ≠ Some j → p_parent z = p_parent pr)) ∧
    (∀ k p, k ≠ j → procs (s_p s) !! k = Some p → ∃ p', procs (s_p s') !! k = Some p' ∧
       (child j p → p_parent p' = Some ini) ∧ (¬ child j p → p_parent p' = p_parent p) ∧
       (p_parent pr = Some k → p_state p = SLEEPING → p_chan p = Some (ChProc k) → p_state p' = RUNNABLE) ∧
       (k = ini → (∃ z, z ∈ procs (s_p s) ∧ exited j z) → p_state p = SLEEPING → p_chan p = Some (ChProc ini) →
          p_state p' = RUNNABLE) ∧
       (p_state p ≠ SLEEPING → p_state p' = p_state p))) s.
Proof.
  intros S Hini Hne. eapply exit_leave_wp; [done|done|]. intros mc Hmc. set (ps := procs (s_p s)) in *.
  set (f := after_exit _ _ _ _). split; [done|]. split; [done|]. cbn [procs s_p upd with_mach set_v set_procs].
  split; [by rewrite length_alter, length_fmap|]. split; [|split].
  - intros k p Hk Hpar. assert (∃ q, p_parent p = p_parent (f q)) as [q Eq].
    { apply lookup_alter_cases in Hk as [(-> & q & Hq & ->)|[_ Hk]].
      - apply list_lookup_fmap_Some in Hq as (q' & -> & _). by exists q'.
      - apply list_lookup_fmap_Some in Hk as (q' & -> & _). by exists q'. }
    rewrite Eq in Hpar. unfold f in Hpar. rewrite after_exit_parent in Hpar. case_decide; congruence.
  - pose proof (is_proc _ _ _ _ _ _ S) as Hj. fold ps in Hj. rewrite list_lookup_alter_eq, list_lookup_fmap, Hj. eexists. split; [reflexivity|].
    split; [done|]. destruct (after_exit_rest j ini (p_parent pr) (has_zombie j ps) pr) as (E1 & E2 & E3).
    do 3 (split; [done|]). intros Hs. cbn. unfold f. rewrite after_exit_parent. by rewrite decide_False.
  - intros k p Hk Hp. rewrite list_lookup_alter_ne, list_lookup_fmap, Hp by done. eexists. split; [reflexivity|].
    unfold f. rewrite after_exit_parent. split; [by intros ?; rewrite decide_True|].
    split; [by intros ?; rewrite decide_False|]. split; [|split].
    + intros Epar Es Ec. apply after_exit_woken; [done|]. left. by exists k.
    + intros -> (z & Hz & Ez) Es Ec. apply after_exit_woken; [done|]. right. split; [|done].
      apply existsb_exists. exists z. split; [by apply list_elem_of_In|by apply bool_decide_eq_true].
    + apply after_exit_state.
Qed.
