(* ===== verification/LifeDemo.v ===== *)
(** Small kernels on which fork, exit and wait run: the witnesses of their
    theorems. *)

From S2P Require Import Prelude Memory Kstring Spinlock Mmu Kalloc Vm VmInv VmWalk VmMap VmFree VmKern VmUser VmCopy.
From S2P Require Import VmDemo Proc ProcSpec Block Ide Bio Log Fs FsWrite Cons Kern KernSpec PipeSpec ProcMem Pipe.
From S2P Require Import Filetab Procs ForkSpec WaitSpec ExitSpec.

(** ** fork *)

(** The process has two pages, one open file twice, and a directory. *)
Definition parent : proc :=
  Proc 0x2000 dm_dir dm_own RUNNING 1 None tf_zero (Ctx 0 0 0 0 AtForkret) None false
    (Some 0%nat :: Some 0%nat :: replicate 14 None) (Some 0%nat) [115; 104].
Definition fork_sys : sys :=
  Sys (Pst (Vst (set_mach run_mach dm_k3) (V2P dm_dir) dm_dir) [parent; free_slot] (Some 0%nat) 2)
    img_start [File FD_INODE 2 true true 0 0 0] ∅ 0 demo_cons.

Lemma fork_calm : calm fork_sys 0 0 parent.
Proof. split; [split; [apply run_cpu|done..]|done..]. Qed.

Lemma dm_mapped3 vb : in_pages 0 0x2000 vb → flag_set (pte (k_mem dm_k3) dm_dir vb) PTE_P = true.
Proof.
  intros Hin. destruct (in_pages_index 0 0x2000 vb) as [Hvb Hi]; [done..|].
  change (0 / PGSIZE) with 0 in Hi. change (0x2000 / PGSIZE) with 2 in Hi. rewrite pte_page by done.
  assert (vb / PGSIZE = 0 ∨ vb / PGSIZE = 1) as [-> | ->] by lia; vm_compute; reflexivity.
Qed.

Lemma fork_mem : proc_mem dm_end [] (λ _, 0) (v_k (p_v (s_p fork_sys))) (procs (s_p fork_sys)).
Proof.
  split.
  - exists dm_pool. eapply vinv_ext; [|by eapply vinv_mach, dm_inv3]. intros v. unfold hold, kuse. cbn [count procs s_p fork_sys].
    change (has_stack v parent) with (dm_own =? v). change (has_stack v free_slot) with false.
    destruct (dm_own =? v); reflexivity.
  - intros [|[|k]] p [=]; subst; [|done]. intros _. apply dm_ok. auto.
  - done.
  - cbn. lia.
  - cbn. unfold NPROC. lia.
Qed.

Lemma fork_is_ready : fork_ready dm_end [] (λ _, 0) fork_sys 0 0 parent 0.
Proof.
  split; [apply fork_calm|apply fork_mem|vm_compute; split; congruence|apply dm_mapped3|..].
  - split; cbn.
    + intros [|[|k]] p [=]; subst; simpl; lia.
    + intros [|[|k]] p [=]; subst; simpl; done.
    + intros [|[|k]] [|[|m]] p q [=] [=]; subst; simpl; done.
    + intros [|[|k]] p [=]; subst; simpl; done.
  - cbn. lia.
  - intros f Hf. assert (f = 0%nat) as ->.
    { cbn in Hf. rewrite !elem_of_cons in Hf. set_solver. }
    eexists. split; [reflexivity|]. cbn. lia.
  - done.
  - intros q [->|[->|Hq%elem_of_nil]%elem_of_cons]%elem_of_cons Hs; done.
Qed.

Lemma fork_correct_witness :
  wp (fork dm_end (KERNLINK + PGSIZE)) (λ r s', same_bytes [dm_dir] fork_sys s' ∧ (r = -1 ∨ r = 2)) fork_sys.
Proof.
  eapply wp_mono.
  - apply (fork_correct dm_end (KERNLINK + PGSIZE) dm_end_ok ltac:(vm_compute; intuition congruence)
      [] (λ _, 0) fork_sys 0 0 parent 0 fork_is_ready).
  - intros r s' (_ & _ & _ & B & Hr). split; [exact B|].
    destruct Hr as [[-> _]|(np & q & v & pgdir & -> & _)]; [by left|by right].
Defined.

(** ** wait *)

(** Two empty address spaces; the second process has exited. *)
Definition waiter : proc :=
  Proc 0 dm_tab dm_own RUNNING 1 None tf_zero (Ctx 0 0 0 0 AtForkret) None false (replicate 16 None) None [].
Definition corpse : proc :=
  Proc 0 dm_dir dm_shared ZOMBIE 2 (Some 0%nat) tf_zero (Ctx 0 0 0 0 AtSched) None false (replicate 16 None) None [].
Definition wait_sys : sys :=
  Sys (Pst (Vst (set_mach run_mach dm_k0) (V2P dm_tab) dm_tab) [waiter; corpse] (Some 0%nat) 3)
    img_start [] ∅ 0 demo_cons.
Definition wait_other (v : Z) : Z := if dm_shared =? v then 1 else 0.

Lemma wait_calm : calm wait_sys 0 0 waiter.
Proof. split; [split; [apply run_cpu|done..]|done..]. Qed.

Lemma wait_inv : vinv dm_end dm_k0 dm_pool [dm_tab; dm_dir] (hold dm_shared (hold dm_shared (hold dm_own (λ _, 0)))).
Proof.
  destruct (all_held _ _ _ _ dm_dir dm_inv0) as [T0 U0]; [apply dm_ok; auto|reflexivity|].
  destruct (vinv_adopt dm_end dm_k0 dm_pool []
    (hold dm_tab (hold dm_shared (hold dm_shared (hold dm_own (λ _, 0))))) dm_dir dm_inv0) as [_ I1];
    [apply dm_ok; auto|reflexivity|exact T0|exact U0|intros x _; reflexivity|].
  destruct (all_held _ _ _ _ dm_tab I1) as [T1 U1]; [apply dm_ok; auto|reflexivity|].
  apply (vinv_adopt dm_end dm_k0 dm_pool [dm_dir] _ dm_tab I1);
    [apply dm_ok; auto|reflexivity|exact T1|exact U1|intros x _; reflexivity].
Qed.

Lemma wait_mem : proc_mem dm_end [] wait_other (v_k (p_v (s_p wait_sys))) (procs (s_p wait_sys)).
Proof.
  split.
  - exists dm_pool. eapply vinv_ext; [|by eapply vinv_mach, wait_inv]. intros v. unfold hold, kuse, wait_other.
    cbn [count procs s_p wait_sys]. change (has_stack v waiter) with (dm_own =? v).
    change (has_stack v corpse) with (dm_shared =? v). destruct (dm_own =? v), (dm_shared =? v); reflexivity.
  - intros [|[|k]] p [=]; subst; intros _; apply dm_ok; auto.
  - intros v. unfold wait_other. destruct (_ =? _); lia.
  - cbn. lia.
  - cbn. unfold NPROC. lia.
Qed.

Lemma wait_table : table_ok (procs (s_p wait_sys)) (nextpid (s_p wait_sys)).
Proof.
  split; cbn.
  - intros [|[|k]] p [=]; subst; simpl; lia.
  - intros [|[|k]] p [=]; subst; simpl; done.
  - intros [|[|k]] [|[|m]] p q [=] [=]; subst; simpl; done.
  - intros [|[|k]] p [=]; subst; simpl; done.
Qed.

Lemma wait_correct_witness :
  wp (wait dm_end) (λ r s', r = WaitRet 2 ∧ procs (s_p s') = [waiter; freed corpse]) wait_sys.
Proof.
  eapply wp_mono; [apply (wait_correct dm_end dm_end_ok [] wait_other wait_sys 0 0 waiter wait_calm wait_mem wait_table)|].
  assert (exited 0 corpse) as Hc by done. assert (corpse ∈ procs (s_p wait_sys)) as Hin by (right; by left).
  intros [pid|b] s' (_ & _ & Hr).
  - destruct Hr as (_ & _ & _ & [(k & z & Hz & [Hch Hs] & -> & -> & _)|(_ & Hno & _)]); [|by destruct (Hno _ Hin)].
    destruct k as [|[|k]]; [by injection Hz as <-| |done]. by injection Hz as <-.
  - destruct Hr as (_ & _ & _ & Hno & _). by destruct (Hno _ Hin).
Defined.

(** ** exit *)

Definition exit_mach : mach := acquired 0 LkPtable run_mach.
Definition exit_sys : sys :=
  Sys (Pst (Vst (set_mach exit_mach dm_k) (V2P dm_dir) dm_dir) [demo_proc; corpse; waiter] (Some 2%nat) 3)
    img_start [] ∅ 0 demo_cons.

Lemma exit_leave_correct_witness :
  wp (exit_leave 0) (λ _ s', ∃ z, procs (s_p s') !! 0%nat = Some z ∧ p_state z = ZOMBIE) exit_sys.
Proof.
  eapply wp_mono.
  - apply (exit_leave_correct exit_sys run_mach 0 0 demo_proc 2); [|done|done].
    split; [split; [apply run_cpu|done..]|done..].
  - intros _ s' (_ & _ & _ & _ & (z & Hz & Es & _) & _). by exists z.
Defined.
