(* ===== verification/Kbd.v ===== *)
(** The keyboard driver (kbd.c, kbd.h): scan codes to characters. *)

From S2P Require Import Prelude.

(** ** Tables *)

Definition SHIFT : Z := 1.
Definition CTL : Z := 2.
Definition ALT : Z := 4.
Definition CAPSLOCK : Z := 8.
Definition NUMLOCK : Z := 16.
Definition SCROLLLOCK : Z := 32.
Definition E0ESC : Z := 64.

(** A table of 256 entries: the first ones in order, and single ones. *)
Definition keymap (l : list Z) (sp : list (Z * Z)) (d : Z) : Z :=
  match list_find (λ x, x.1 = d) sp with
  | Some (_, x) => x.2
  | None => nth (Z.to_nat d) l 0
  end.

Definition shiftcode : Z → Z :=
  keymap [] [(0x1d, CTL); (0x2a, SHIFT); (0x36, SHIFT); (0x38, ALT); (0x9d, CTL); (0xb8, ALT)].
Definition togglecode : Z → Z := keymap [] [(0x3a, CAPSLOCK); (0x45, NUMLOCK); (0x46, SCROLLLOCK)].

Definition normalmap : Z → Z := keymap
  [0; 27; 49; 50; 51; 52; 53; 54; 55; 56; 57; 48; 45; 61; 8; 9;
   113; 119; 101; 114; 116; 121; 117; 105; 111; 112; 91; 93; 10; 0; 97; 115;
   100; 102; 103; 104; 106; 107; 108; 59; 39; 96; 0; 92; 122; 120; 99; 118;
   98; 110; 109; 44; 46; 47; 0; 42; 0; 32; 0; 0; 0; 0; 0; 0;
   0; 0; 0; 0; 0; 0; 0; 55; 56; 57; 45; 52; 53; 54; 43; 49;
   50; 51; 48; 46; 0; 0; 0; 0]
  [(0x9c, 0xa); (0xb5, 0x2f); (0xc8, 0xe2); (0xd0, 0xe3); (0xc9, 0xe6); (0xd1, 0xe7); (0xcb, 0xe4); (0xcd, 0xe5); (0x97, 0xe0); (0xcf, 0xe1); (0xd2, 0xe8); (0xd3, 0xe9)].

Definition shiftmap : Z → Z := keymap
  [0; 27; 33; 64; 35; 36; 37; 94; 38; 42; 40; 41; 95; 43; 8; 9;
   81; 87; 69; 82; 84; 89; 85; 73; 79; 80; 123; 125; 10; 0; 65; 83;
   68; 70; 71; 72; 74; 75; 76; 58; 34; 126; 0; 124; 90; 88; 67; 86;
   66; 78; 77; 60; 62; 63; 0; 42; 0; 32; 0; 0; 0; 0; 0; 0;
   0; 0; 0; 0; 0; 0; 0; 55; 56; 57; 45; 52; 53; 54; 43; 49;
   50; 51; 48; 46; 0; 0; 0; 0]
  [(0x9c, 0xa); (0xb5, 0x2f); (0xc8, 0xe2); (0xd0, 0xe3); (0xc9, 0xe6); (0xd1, 0xe7); (0xcb, 0xe4); (0xcd, 0xe5); (0x97, 0xe0); (0xcf, 0xe1); (0xd2, 0xe8); (0xd3, 0xe9)].

Definition ctlmap : Z → Z := keymap
  [0; 0; 0; 0; 0; 0; 0; 0; 0; 0; 0; 0; 0; 0; 0; 0;
   17; 23; 5; 18; 20; 25; 21; 9; 15; 16; 0; 0; 13; 0; 1; 19;
   4; 6; 7; 8; 10; 11; 12; 0; 0; 0; 0; 28; 26; 24; 3; 22;
   2; 14; 13; 0; 0; 239; 0; 0]
  [(0x9c, 0xd); (0xb5, 0xef); (0xc8, 0xe2); (0xd0, 0xe3); (0xc9, 0xe6); (0xd1, 0xe7); (0xcb, 0xe4); (0xcd, 0xe5); (0x97, 0xe0); (0xcf, 0xe1); (0xd2, 0xe8); (0xd3, 0xe9)].

(** ** The driver *)

(** [charcode[shift & (CTL | SHIFT)]] *)
Definition charcode (k : Z) : Z → Z := nth (Z.to_nat k) [normalmap; shiftmap; ctlmap; ctlmap] (λ _, 0).

Definition caps (c : Z) : Z :=
  if (97 <=? c) && (c <=? 122) then c - 32 else
  if (65 <=? c) && (c <=? 90) then c + 32 else c.

(** One byte from the data port: the result and the new [shift]. *)
Definition kbdgetc (shift data : Z) : Z * Z :=
  if data =? 0xe0 then (0, Z.lor shift E0ESC) else
  if negb (Z.land data 0x80 =? 0) then
    let data := if negb (Z.land shift E0ESC =? 0) then data else Z.land data 0x7f in
    (0, Z.ldiff shift (Z.lor (shiftcode data) E0ESC))
  else
    let esc := negb (Z.land shift E0ESC =? 0) in
    let data := if esc then Z.lor data 0x80 else data in
    let shift := if esc then Z.ldiff shift E0ESC else shift in
    let shift := Z.lxor (Z.lor shift (shiftcode data)) (togglecode data) in
    let c := charcode (Z.land shift (Z.lor CTL SHIFT)) data in
    (if negb (Z.land shift CAPSLOCK =? 0) then caps c else c, shift).

(** The characters for the bytes that the controller has: [kbdgetc] is
    called until there are no more. *)
Fixpoint kbd_chars (shift : Z) (codes : list Z) : list Z * Z :=
  match codes with
  | [] => ([], shift)
  | d :: codes' => let r := kbdgetc shift d in let r' := kbd_chars r.2 codes' in (r.1 :: r'.1, r'.2)
  end.
