(* ===== verification/Console.v ===== *)
(** The console device (console.c): the keyboard interrupt with its line
    editing, the device's read and write, and the process listing of proc.c
    that ^P prints. *)

From S2P Require Import Prelude Memory Kstring Spinlock Mmu Kalloc Vm Proc Block Ide Bio Log Fs Cons Kern Pipe Procs.
From S2P Require Import Kbd.

(** [C(x)] *)
Definition ctrl (c : Z) : Z := c - 64.
Definition ctrl_P : Z := ctrl 80.
Definition ctrl_U : Z := ctrl 85.
Definition ctrl_H : Z := ctrl 72.
Definition ctrl_D : Z := ctrl 68.

Definition in_cell (i : Z) : nat := Z.to_nat (i mod INPUT_BUF).

(** [cprintf]; [cons.locking] says whether it locks. *)
Definition cprintf (fmt : list Z) (args : list carg) : M sys () :=
  locking ← gets (λ s, cn_locking (s_cons s));
  (if (locking : bool) then lock LkCons else mret tt);;
  in_cons (cprint fmt args);;
  if (locking : bool) then unlock LkCons else mret tt.

(** ** Input *)

(** [case C('U')]: every round erases one character. *)
Fixpoint kill_line (fuel : nat) : M console () :=
  s ← gets id;
  if (cn_e s =? cn_w s) || (nth (in_cell (u32 (cn_e s - 1))) (cn_buf s) 0 =? 10) then mret tt else
  match fuel with
  | O => fault "kill line"
  | S fuel =>
    modify (λ s, set_input (cn_buf s) (cn_r s) (cn_w s) (u32 (cn_e s - 1)) s);;
    consputc BACKSPACE;;
    kill_line fuel
  end.

(** One character; the result tells that a line is complete. *)
Definition key (c : Z) : M console bool :=
  if c =? ctrl_P then mret false else
  if c =? ctrl_U then kill_line (Z.to_nat INPUT_BUF);; mret false else
  s ← gets id;
  if (c =? ctrl_H) || (c =? 127) then
    (if cn_e s =? cn_w s then mret tt else
     modify (λ s, set_input (cn_buf s) (cn_r s) (cn_w s) (u32 (cn_e s - 1)) s);;
     consputc BACKSPACE);;
    mret false
  else
  if negb (c =? 0) && (u32 (cn_e s - cn_r s) <? INPUT_BUF) then
    let c := if c =? 13 then 10 else c in
    modify (λ s, set_input (<[in_cell (cn_e s) := c]> (cn_buf s)) (cn_r s) (cn_w s) (u32 (cn_e s + 1)) s);;
    consputc c;;
    s ← gets id;
    if (c =? 10) || (c =? ctrl_D) || (cn_e s =? u32 (cn_r s + INPUT_BUF)) then
      modify (λ s, set_input (cn_buf s) (cn_r s) (cn_e s) (cn_e s) s);;
      mret true
    else mret false
  else mret false.

(** The loop over the characters [getc] delivers. *)
Fixpoint consoleintr_loop (cs : list Z) : M sys () :=
  match cs with
  | [] => mret tt
  | c :: cs' =>
    b ← in_cons (key c);
    (if (b : bool) then in_p (wakeup ChInput) else mret tt);;
    consoleintr_loop cs'
  end.

(** ** The process listing *)

Definition state_text (st : procstate) : list Z :=
  match st with
  | UNUSED => [117; 110; 117; 115; 101; 100]
  | EMBRYO => [101; 109; 98; 114; 121; 111]
  | SLEEPING => [115; 108; 101; 101; 112; 32]
  | RUNNABLE => [114; 117; 110; 98; 108; 101]
  | RUNNING => [114; 117; 110; 32; 32; 32]
  | ZOMBIE => [122; 111; 109; 98; 105; 101]
  end.

Section console.
(** The return addresses [getcallerpcs] finds on the stack of a process. *)
Context (callers : proc → list Z) (iderw : nat → M bst ()).

(** ["%d %s %s"], [" %p"] and ["\n"] *)
Fixpoint print_pcs (pcs : list Z) : M sys () :=
  match pcs with
  | [] => mret tt
  | pc :: pcs' => if pc =? 0 then mret tt else cprintf [32; 37; 112] [AInt pc];; print_pcs pcs'
  end.

Definition print_proc (p : proc) : M sys () :=
  cprintf [37; 100; 32; 37; 115; 32; 37; 115]
    [AInt (p_pid p); AStr (Some (state_text (p_state p))); AStr (Some (p_name p))];;
  (if decide (p_state p = SLEEPING) then print_pcs (take 10 (callers p)) else mret tt);;
  cprintf [10] [].

Fixpoint procdump_loop (ps : list proc) : M sys () :=
  match ps with
  | [] => mret tt
  | p :: ps' =>
    (if decide (p_state p = UNUSED) then mret tt else print_proc p);;
    procdump_loop ps'
  end.

(** No lock is taken. *)
Definition procdump : M sys () := ps ← gets (λ s, procs (s_p s)); procdump_loop ps.

Definition consoleintr (cs : list Z) : M sys () :=
  lock LkCons;;
  consoleintr_loop cs;;
  unlock LkCons;;
  if bool_decide (ctrl_P ∈ cs) then procdump else mret tt.

(** The keyboard interrupt: [shift] is the state of the driver, [codes] are
    the bytes that the controller has. *)
Definition kbdintr (shift : Z) (codes : list Z) : M sys () := consoleintr (kbd_chars shift codes).1.

(** The interrupt of the serial port: the bytes it has received. *)
Definition uartintr (bytes : list Z) : M sys () := consoleintr bytes.

(** ** Reading and writing *)

(** The loop of [consoleread] with [n] characters to go, [acc] delivered. *)
Fixpoint consoleread_loop (n : nat) (acc : list Z) : M sys pipe_res :=
  match n with
  | O => unlock LkCons;; mret (PRet (Z.of_nat (length acc)) acc)
  | S n' =>
    s ← gets s_cons;
    if cn_r s =? cn_w s then
      k ← is_killed;
      if (k : bool) then unlock LkCons;; mret (PRet (-1) acc) else
      intena ← in_p (sleep_enter ChInput LkCons);
      mret (PSleep acc intena)
    else
    let c := nth (in_cell (cn_r s)) (cn_buf s) 0 in
    let next := modify (λ s, set_input (cn_buf s) (u32 (cn_r s + 1)) (cn_w s) (cn_e s) s) in
    if c =? ctrl_D then
      (if bool_decide (acc = []) then in_cons next else mret tt);;
      unlock LkCons;; mret (PRet (Z.of_nat (length acc)) acc)
    else
      in_cons next;;
      if c =? 10 then unlock LkCons;; mret (PRet (Z.of_nat (length (acc ++ [c]))) (acc ++ [c]))
      else consoleread_loop n' (acc ++ [c])
  end.

(** The inode is unlocked while the call waits for input. *)
Definition console_done (ip : nat) (r : pipe_res) : M sys pipe_res :=
  match r with
  | PRet _ _ => in_fs (ilock iderw ip);; mret r
  | PSleep _ _ => mret r
  end.

Definition consoleread (ip : nat) (n : Z) : M sys pipe_res :=
  in_fs (iunlock ip);;
  lock LkCons;;
  r ← consoleread_loop (Z.to_nat n) [];
  console_done ip r.

(** The process [i] goes on after its sleep, with [acc] delivered. *)
Definition consoleread_resume (i ip : nat) (n : Z) (acc : list Z) (intena : bool) : M sys pipe_res :=
  in_p (sleep_exit i LkCons intena);;
  r ← consoleread_loop (Z.to_nat n - length acc) acc;
  console_done ip r.

Definition consolewrite (ip : nat) (buf : list Z) : M sys Z :=
  in_fs (iunlock ip);;
  lock LkCons;;
  in_cons (consputs ((λ c, Z.land c 0xff) <$> buf));;
  unlock LkCons;;
  in_fs (ilock iderw ip);;
  mret (Z.of_nat (length buf)).

Definition consoleinit : M sys () :=
  in_p (on_mach (initlock LkCons));;
  in_cons (modify (set_locking true)).
End console.
