(* ===== verification/ConsSpec.v ===== *)
(** The console's line discipline (console.c): what the user types is an
    editable line until Enter or ^D completes it, and only complete lines
    reach the reader.  The ring buffer with its three counters implements
    two queues of characters, also when the counters wrap around, and output
    never leaves the screen. *)

From S2P Require Import Prelude Memory Kstring Spinlock Mmu Kalloc Vm Proc ProcSpec Block Ide Bio Log Fs Ring Cons.
From S2P Require Import Kern KernSpec Pipe Procs Console VmDemo Tx FsWrite PipeSpec.

(** ** The screen *)

Record screen_ok (c : console) : Prop := {
  sc_crt : length (cn_crt c) = 2000%nat;
  sc_pos : 0 ≤ cn_pos c < 24 * 80;
  sc_live : cn_panicked c = false;
}.

(** The input part of two consoles is the same. *)
Definition same_input (c c' : console) : Prop :=
  cn_buf c' = cn_buf c ∧ cn_r c' = cn_r c ∧ cn_w c' = cn_w c ∧ cn_e c' = cn_e c ∧ cn_locking c' = cn_locking c.

Lemma crt_put_wp pos x c Q :
  0 ≤ pos < Z.of_nat (length (cn_crt c)) →
  Q tt (set_screen (cn_pos c) (<[Z.to_nat pos := x]> (cn_crt c)) c) → wp (crt_put pos x) Q c.
Proof. intros H HQ. unfold wp, crt_put. by rewrite decide_True. Qed.

Lemma length_crt_scroll pos crt :
  length crt = 2000%nat → 0 ≤ pos ≤ 24 * 80 → length (crt_scroll pos crt) = 2000%nat.
Proof.
  intros Hl Hp. unfold crt_scroll. rewrite !length_app, length_replicate, !length_take, !length_drop, !length_app, !length_take, !length_drop, Hl.
  lia.
Qed.

(** The cursor stays in the first 24 rows, so that no store misses the
    screen and the check of the position never fails. *)
Lemma cgaputc_wp ch c :
  screen_ok c → wp (cgaputc ch) (λ _ c', screen_ok c' ∧ same_input c c' ∧ cn_uart c' = cn_uart c) c.
Proof.
  intros [Hl Hp Hv]. unfold cgaputc. apply wp_bind, wp_gets, wp_bind.
  apply (wp_mono _ (λ pos c', 0 ≤ pos ≤ 24 * 80 ∧ length (cn_crt c') = 2000%nat ∧ cn_panicked c' = false ∧ same_input c c' ∧ cn_uart c' = cn_uart c)).
  - destruct (ch =? 10); [|destruct (ch =? BACKSPACE)].
    + apply wp_ret. split_and!; try done; Z.div_mod_to_equations; lia.
    + apply wp_ret. destruct (Z.ltb_spec 0 (cn_pos c)); split_and!; try done; lia.
    + apply wp_bind, crt_put_wp; [lia|]. apply wp_ret. cbn. rewrite length_insert. split_and!; try done; lia.
  - intros pos c1 (Hpos & Hl1 & Hv1 & Hi1 & Hu1).
    destruct (Z.ltb_spec pos 0), (Z.ltb_spec (25 * 80) pos); try lia. cbn [orb]. apply wp_bind.
    apply (wp_mono _ (λ pos c', 0 ≤ pos < 24 * 80 ∧ length (cn_crt c') = 2000%nat ∧ cn_panicked c' = false ∧ same_input c c' ∧ cn_uart c' = cn_uart c)).
    + destruct (Z.leb_spec 24 (pos / 80)).
      * apply wp_bind, wp_modify, wp_ret. cbn.
        assert (pos = 24 * 80) as -> by (Z.div_mod_to_equations; lia).
        rewrite length_crt_scroll by lia. split_and!; try done; lia.
      * apply wp_ret. split_and!; try done; Z.div_mod_to_equations; lia.
    + intros pos2 c2 (Hp2 & Hl2 & Hv2 & Hi2 & Hu2). unfold set_pos. apply wp_bind, wp_modify. apply crt_put_wp; [cbn; lia|].
      split; [|done]. split; [cbn; by rewrite length_insert|cbn|done]. unfold u16. rewrite Z.mod_small; lia.
Qed.

(** What a character sends over the serial line. *)
Definition conschars (ch : Z) : list Z := if ch =? BACKSPACE then [8; 32; 8] else [u8 ch].
Definition sent (l : list Z) (c c' : console) : Prop := cn_uart c' = cn_uart c ++ l.

Lemma sent_nil c : sent [] c c.
Proof. unfold sent. by rewrite app_nil_r. Qed.
Lemma sent_trans l1 l2 c1 c2 c3 : sent l1 c1 c2 → sent l2 c2 c3 → sent (l1 ++ l2) c1 c3.
Proof. unfold sent. intros E1 ->. by rewrite E1, app_assoc. Qed.

Lemma same_input_trans c1 c2 c3 : same_input c1 c2 → same_input c2 c3 → same_input c1 c3.
Proof. intros (? & ? & ? & ? & ?) (? & ? & ? & ? & ?). split_and!; congruence. Qed.

Lemma consputc_wp ch c :
  screen_ok c → wp (consputc ch) (λ _ c', screen_ok c' ∧ same_input c c' ∧ sent (conschars ch) c c') c.
Proof.
  intros S. unfold consputc. apply wp_bind, wp_gets. rewrite (sc_live _ S). apply wp_bind.
  apply (wp_mono _ (λ _ c', screen_ok c' ∧ same_input c c' ∧ sent (conschars ch) c c')).
  - unfold uartputc, sent, conschars. destruct (ch =? BACKSPACE); wp_auto; (split; [by destruct S|]); (split; [done|]); cbn; by rewrite <- ?app_assoc.
  - intros [] c1 (S1 & I1 & U1). eapply wp_mono; [by apply cgaputc_wp|]. intros [] c2 (S2 & I2 & U2). split; [done|].
    split; [by eapply same_input_trans|]. unfold sent. by rewrite U2.
Qed.

Lemma consputs_wp l c :
  screen_ok c → wp (consputs l) (λ _ c', screen_ok c' ∧ same_input c c' ∧ sent (l ≫= conschars) c c') c.
Proof.
  revert c. induction l as [|ch l IH]; intros c S; cbn [consputs].
  { apply wp_ret. split_and!; [done|done|apply sent_nil]. }
  apply wp_bind. eapply wp_mono; [by apply consputc_wp|]. intros [] c1 (S1 & I1 & U1).
  eapply wp_mono; [by apply IH|]. intros [] c2 (S2 & I2 & U2).
  split_and!; [done|by eapply same_input_trans|by eapply sent_trans].
Qed.

(** ** The input queues *)

Section input.
Context (buf : list Z) (r w e : Z).

(** [r] to [w] is complete, [w] to [e] is being edited. *)
Record in_ok : Prop := {
  io_len : length buf = 128%nat;
  io_r : 0 ≤ r < 2 ^ 32;
  io_w : 0 ≤ w < 2 ^ 32;
  io_e : 0 ≤ e < 2 ^ 32;
  io_count : rcount r w ≤ rcount r e ≤ INPUT_BUF;
}.

Definition ready : list Z := ring INPUT_BUF buf r (rcount r w).
Definition line : list Z := ring INPUT_BUF buf w (rcount w e).
End input.

Lemma input_divides : (INPUT_BUF | 2 ^ 32).
Proof. by exists (2 ^ 25). Qed.
Lemma input_pos : 0 < INPUT_BUF.
Proof. done. Qed.
#[local] Hint Resolve input_divides input_pos rcount_range : core.

Lemma in_ok_lengths buf r w e : in_ok buf r w e →
  Z.of_nat (length (ready buf r w)) = rcount r w ∧ Z.of_nat (length (line buf w e)) = rcount w e ∧
  rcount w e = rcount r e - rcount r w.
Proof.
  intros O. unfold ready, line. rewrite !length_ring by apply rcount_range. split_and!; [done|done|].
  apply rcount_split. apply O.
Qed.

(** The edited line is empty. *)
Lemma line_nil buf r w e : in_ok buf r w e → e = w ↔ line buf w e = [].
Proof.
  intros O. destruct (in_ok_lengths _ _ _ _ O) as (_ & Hl & _). rewrite <- length_zero_iff_nil.
  split; intros H.
  - assert (rcount w e = 0) by (apply rcount_eq; [apply O..|done]). lia.
  - symmetry. apply rcount_eq; [apply O..|]. lia.
Qed.

Lemma in_ok_back buf r w e :
  in_ok buf r w e → e ≠ w →
  in_ok buf r w (u32 (e - 1)) ∧ line buf w e = line buf w (u32 (e - 1)) ++ [cell INPUT_BUF buf (u32 (e - 1))].
Proof.
  intros O Hne. destruct (in_ok_lengths _ _ _ _ O) as (_ & Hl & Hs). pose proof (rcount_range w e).
  assert (rcount w e ≠ 0) as H0. { intros H0. apply Hne. symmetry. apply rcount_eq; [apply O..|done]. }
  pose proof (rcount_range r w). assert (rcount r (u32 (e - 1)) = rcount r e - 1) as Er by (apply rcount_dec_w; lia).
  assert (rcount w (u32 (e - 1)) = rcount w e - 1) as Ew by (apply rcount_dec_w; lia). split.
  - destruct O as [? ? ? ? ?]. split; try done; [apply u32_range|]. rewrite Er. lia.
  - unfold line. rewrite Ew. replace (rcount w e) with (rcount w e - 1 + 1) at 1 by lia. rewrite ring_snoc by lia.
    f_equal. f_equal. rewrite <- (cell_u32 _ input_pos input_divides _ (w + _)). f_equal.
    replace (w + (rcount w e - 1)) with (w + rcount w e - 1) by lia. rewrite u32_sub_l, rcount_add by apply O. done.
Qed.

Lemma in_ok_push buf r w e b :
  in_ok buf r w e → rcount r e < INPUT_BUF →
  let buf' := <[in_cell e := b]> buf in
  in_ok buf' r w (u32 (e + 1)) ∧ rcount r (u32 (e + 1)) = rcount r e + 1 ∧
  ready buf' r w = ready buf r w ∧ line buf' w (u32 (e + 1)) = line buf w e ++ [b].
Proof.
  intros O Hlt buf'. destruct (in_ok_lengths _ _ _ _ O) as (_ & _ & Hs). pose proof (rcount_range r w).
  pose proof O as [Hl Hr Hw He Hc]. unfold INPUT_BUF in Hlt.
  assert (rcount r (u32 (e + 1)) = rcount r e + 1) as Er by (apply rcount_inc_w; lia).
  assert (rcount w (u32 (e + 1)) = rcount w e + 1) as Ew by (apply rcount_inc_w; lia). split_and!.
  - split; try done; [by unfold buf'; rewrite length_insert|apply u32_range|]. unfold INPUT_BUF. lia.
  - done.
  - apply ring_keep; auto. unfold INPUT_BUF. lia.
  - unfold line. rewrite Ew. apply ring_push_w; auto; [by rewrite Hl|]. unfold INPUT_BUF. lia.
Qed.

Lemma in_ok_commit buf r w e :
  in_ok buf r w e → in_ok buf r e e ∧ ready buf r e = ready buf r w ++ line buf w e ∧ line buf e e = [].
Proof.
  intros O. pose proof O as [Hl Hr Hw He Hc]. split_and!.
  - split; try done. lia.
  - apply ring_two; auto. lia.
  - unfold line. assert (rcount e e = 0) as -> by by apply rcount_eq. done.
Qed.

Lemma in_ok_pop buf r w e :
  in_ok buf r w e → r ≠ w →
  in_ok buf (u32 (r + 1)) w e ∧ ready buf r w = cell INPUT_BUF buf r :: ready buf (u32 (r + 1)) w.
Proof.
  intros O Hne. pose proof O as [Hl Hr Hw He Hc]. pose proof (rcount_range r w).
  assert (rcount r w ≠ 0) as H0. { intros H0. by apply Hne, rcount_eq. }
  assert (rcount (u32 (r + 1)) w = rcount r w - 1) as Ew by (apply rcount_inc_r; lia).
  assert (rcount (u32 (r + 1)) e = rcount r e - 1) as Ee by (apply rcount_inc_r; lia). split.
  - split; try done; [apply u32_range|]. lia.
  - unfold ready. rewrite Ew, ring_pop, ring_u32 by auto with lia. done.
Qed.

(** ** The line discipline *)

(** The console as two queues: complete input, and the line being edited. *)
Definition queues (c : console) : list Z * list Z :=
  (ready (cn_buf c) (cn_r c) (cn_w c), line (cn_buf c) (cn_w c) (cn_e c)).

Record cons_ok (c : console) : Prop := {
  co_screen : screen_ok c;
  co_input : in_ok (cn_buf c) (cn_r c) (cn_w c) (cn_e c);
  co_line : 10 ∉ (queues c).2;
}.

(** What one key does to the queues, and whether it completes a line. *)
Definition edit (ch : Z) (q : list Z * list Z) : (list Z * list Z) * bool :=
  if ch =? ctrl_P then (q, false) else
  if ch =? ctrl_U then ((q.1, []), false) else
  if (ch =? ctrl_H) || (ch =? 127) then ((q.1, removelast q.2), false) else
  if negb (ch =? 0) && (Z.of_nat (length q.1 + length q.2) <? INPUT_BUF) then
    let ch := if ch =? 13 then 10 else ch in
    let ln := q.2 ++ [ch] in
    if (ch =? 10) || (ch =? ctrl_D) || (Z.of_nat (length q.1 + length ln) =? INPUT_BUF)
    then ((q.1 ++ ln, []), true) else ((q.1, ln), false)
  else (q, false).

(** What the user sees of it on the serial line. *)
Definition rubout : list Z := [8; 32; 8].
Definition key_echo (ch : Z) (q : list Z * list Z) : list Z :=
  if ch =? ctrl_P then [] else
  if ch =? ctrl_U then concat (replicate (length q.2) rubout) else
  if (ch =? ctrl_H) || (ch =? 127) then (match q.2 with [] => [] | _ => rubout end) else
  if negb (ch =? 0) && (Z.of_nat (length q.1 + length q.2) <? INPUT_BUF)
  then conschars (if ch =? 13 then 10 else ch) else [].

Lemma same_queues c c' : same_input c c' → queues c' = queues c.
Proof. intros (E1 & E2 & E3 & E4 & _). unfold queues. congruence. Qed.

(** The result of a key: the console is well formed with new queues. *)
Definition edited (q : list Z * list Z) (c c' : console) : Prop :=
  cons_ok c' ∧ queues c' = q ∧ cn_locking c' = cn_locking c.

Lemma edited_screen c c1 c2 q : edited q c c1 → screen_ok c2 → same_input c1 c2 → edited q c c2.
Proof.
  intros (O & Eq & El) S I. pose proof (same_queues _ _ I) as Eq2. destruct I as (E1 & E2 & E3 & E4 & E5).
  split_and!; [|congruence|congruence]. destruct O as [_ O1 O2]. split; [done|by rewrite E1, E2, E3, E4|by rewrite Eq2].
Qed.

Lemma consputc_edited ch c c1 q l :
  edited q c c1 → sent l c c1 → wp (consputc ch) (λ _ c', edited q c c' ∧ sent (l ++ conschars ch) c c') c1.
Proof.
  intros E U. eapply wp_mono; [apply consputc_wp, E|]. intros [] c2 (S & I & U').
  split; [by eapply edited_screen|by eapply sent_trans].
Qed.

(** Erasing one character. *)
Definition erased (c : console) : console := set_input (cn_buf c) (cn_r c) (cn_w c) (u32 (cn_e c - 1)) c.

Lemma erase_ok c :
  cons_ok c → cn_e c ≠ cn_w c → edited ((queues c).1, removelast (queues c).2) c (erased c).
Proof.
  intros [S O Hn] Hne. destruct (in_ok_back _ _ _ _ O Hne) as [O' El]. unfold queues in *. cbn [fst snd] in *.
  rewrite El, removelast_last. split; [|done]. split; [by destruct S|done|]. unfold queues, erased. cbn.
  intros Hin. apply Hn. rewrite El. apply elem_of_app. by left.
Qed.

Lemma kill_line_wp fuel c c0 rd l :
  edited (rd, (queues c).2) c0 c → sent l c0 c → (length (queues c).2 ≤ fuel)%nat →
  wp (kill_line fuel) (λ _ c', edited (rd, []) c0 c' ∧ sent (l ++ concat (replicate (length (queues c).2) rubout)) c0 c') c.
Proof.
  revert c l. induction fuel as [|fuel IH]; intros c l E U Hf; cbn [kill_line]; apply wp_bind, wp_gets; pose proof E as (C & Eq & El); pose proof C as [S O Hn];
    unfold id; destruct (Z.eqb_spec (cn_e c) (cn_w c)) as [Ee|Ee]; cbn [orb];
    try (apply wp_ret; apply (line_nil _ _ _ _ O) in Ee; unfold queues in E |- *; cbn in E |- *; rewrite Ee in E |- *; cbn;
         by rewrite app_nil_r).
  - exfalso. apply Ee. apply (line_nil _ _ _ _ O), nil_length_inv. unfold queues in Hf. cbn in Hf. lia.
  - destruct (in_ok_back _ _ _ _ O Ee) as [O' Eline]. unfold queues in Hn, Hf. cbn in Hn, Hf. rewrite Eline in Hn, Hf.
    change (nth (in_cell (u32 (cn_e c - 1))) (cn_buf c) 0) with (cell INPUT_BUF (cn_buf c) (u32 (cn_e c - 1))).
    destruct (Z.eqb_spec (cell INPUT_BUF (cn_buf c) (u32 (cn_e c - 1))) 10) as [Ec|_].
    { exfalso. apply Hn. rewrite Ec. apply elem_of_app. right. by left. }
    rewrite length_app in Hf. cbn in Hf. apply wp_bind, wp_modify, wp_bind.
    assert (edited (rd, (queues (erased c)).2) c0 (erased c)) as E1.
    { destruct (erase_ok c C Ee) as (O1 & Eq1 & El1). split_and!; [done| |cbn; congruence].
      apply (f_equal fst) in Eq1. cbn [fst] in Eq1. rewrite (surjective_pairing (queues (erased c))). f_equal.
      rewrite Eq1. by rewrite Eq. }
    eapply wp_mono; [apply (consputc_edited _ c0 _ _ l E1 U)|]. intros [] c2 [E2 U2].
    assert ((queues c2).2 = (queues (erased c)).2) as Eq2 by (by rewrite (proj1 (proj2 E2))).
    assert (length (queues c).2 = Datatypes.S (length (queues c2).2)) as Elen.
    { rewrite Eq2. unfold queues, erased. cbn. rewrite Eline, length_app. cbn. lia. }
    eapply wp_mono; [apply (IH c2 (l ++ rubout)); [by rewrite Eq2|done|]|].
    + rewrite Eq2. cbn. lia.
    + intros [] c3 [E3 U3]. split; [done|]. rewrite Elen. cbn [replicate concat]. by rewrite app_assoc.
Qed.

(** Storing one character. *)
Definition stored (ch : Z) (c : console) : console :=
  set_input (<[in_cell (cn_e c) := ch]> (cn_buf c)) (cn_r c) (cn_w c) (u32 (cn_e c + 1)) c.

Definition committed (c : console) : console := set_input (cn_buf c) (cn_r c) (cn_e c) (cn_e c) c.

(** The queues after a character was stored; its line may now hold a newline. *)
Lemma store_ok ch c :
  cons_ok c → rcount (cn_r c) (cn_e c) < INPUT_BUF →
  in_ok (cn_buf (stored ch c)) (cn_r (stored ch c)) (cn_w (stored ch c)) (cn_e (stored ch c)) ∧
  screen_ok (stored ch c) ∧ queues (stored ch c) = ((queues c).1, (queues c).2 ++ [ch]).
Proof.
  intros [S O Hn] Hlt. destruct (in_ok_push _ _ _ _ ch O Hlt) as (O' & _ & Er & El).
  split_and!; [done|by destruct S|]. unfold queues. cbn. by rewrite Er, El.
Qed.

Lemma commit_ok c :
  in_ok (cn_buf c) (cn_r c) (cn_w c) (cn_e c) → screen_ok c →
  edited ((queues c).1 ++ (queues c).2, []) c (committed c).
Proof.
  intros O S. destruct (in_ok_commit _ _ _ _ O) as (O' & Er & El). split_and!; [|unfold queues; cbn; by rewrite Er, El|done].
  split; [by destruct S|done|]. unfold queues. cbn. rewrite El. apply not_elem_of_nil.
Qed.

Lemma full_line k c :
  cons_ok c → rcount (cn_r c) (cn_e c) < INPUT_BUF →
  (cn_e (stored k c) =? u32 (cn_r (stored k c) + INPUT_BUF)) = (rcount (cn_r c) (cn_e c) + 1 =? INPUT_BUF).
Proof.
  intros [S O Hn] Hlt. destruct (in_ok_push _ _ _ _ k O Hlt) as ([? Hr ? He ?] & <- & _). cbn.
  destruct (Z.eqb_spec (rcount (cn_r c) (u32 (cn_e c + 1))) INPUT_BUF) as [E|Hne].
  - apply Z.eqb_eq. rewrite <- E. by rewrite rcount_add.
  - apply Z.eqb_neq. intros E. apply Hne. rewrite E. unfold rcount, INPUT_BUF, u32. rewrite Zminus_mod_idemp_l.
    by replace (cn_r c + 128 - cn_r c) with 128 by lia.
Qed.

(** One key. *)
Lemma key_wp ch c : cons_ok c →
  wp (key ch) (λ b c', b = (edit ch (queues c)).2 ∧ edited (edit ch (queues c)).1 c c' ∧ sent (key_echo ch (queues c)) c c') c.
Proof.
  intros C. pose proof C as [S O Hn]. destruct (in_ok_lengths _ _ _ _ O) as (Hl1 & Hl2 & Hl3). unfold key, edit, key_echo.
  destruct (ch =? ctrl_P). { apply wp_ret. split_and!; [done..|apply sent_nil]. }
  destruct (ch =? ctrl_U).
  { apply wp_bind. eapply wp_mono; [eapply (kill_line_wp _ c c (queues c).1 [])|].
    - split_and!; [done|by destruct (queues c)|done].
    - apply sent_nil.
    - cbn. pose proof (io_count _ _ _ _ O). pose proof (rcount_range (cn_r c) (cn_w c)). unfold INPUT_BUF in *. lia.
    - intros [] c' [E U]. apply wp_ret. by split. }
  apply wp_bind, wp_gets. unfold id. destruct ((ch =? ctrl_H) || (ch =? 127)).
  { apply wp_bind. destruct (Z.eqb_spec (cn_e c) (cn_w c)) as [Ee|Ee].
    - apply wp_ret, wp_ret. split; [done|]. apply (line_nil _ _ _ _ O) in Ee. unfold queues. cbn. rewrite Ee. cbn.
      split; [|apply sent_nil]. split_and!; [done| |done]. unfold queues. by rewrite Ee.
    - apply wp_bind, wp_modify. eapply wp_mono; [apply (consputc_edited _ c _ _ [] (erase_ok c C Ee) (sent_nil c))|].
      intros [] c' [E U]. apply wp_ret. split; [done|]. split; [done|].
      destruct (queues c).2 eqn:Eq; [|done]. exfalso. apply Ee. by apply (line_nil _ _ _ _ O). }
  assert (Z.of_nat (length (queues c).1 + length (queues c).2) = rcount (cn_r c) (cn_e c)) as Hlen
    by (rewrite Nat2Z.inj_add; cbn; lia).
  rewrite Hlen. change (u32 (cn_e c - cn_r c)) with (rcount (cn_r c) (cn_e c)).
  assert (edited (queues c) c c ∧ sent [] c c) as Hsame by (split; [by split_and!|apply sent_nil]).
  destruct (ch =? 0); [by apply wp_ret|]. cbn [negb andb]. destruct (Z.ltb_spec (rcount (cn_r c) (cn_e c)) INPUT_BUF) as [Hlt|]; [|by apply wp_ret].
  set (k := if ch =? 13 then 10 else ch). cbv zeta. apply wp_bind, wp_modify, wp_bind. fold (stored k c).
  destruct (store_ok k c C Hlt) as (O1 & S1 & Eq1).
  eapply wp_mono; [by apply consputc_wp|]. intros [] c2 (S2 & I2 & U2). pose proof (same_queues _ _ I2) as Eq2. rewrite Eq1 in Eq2.
  destruct I2 as (Eb & Er & Ew & Ee & El). apply wp_bind, wp_gets. unfold id. rewrite Ee, Er.
  rewrite <- Eb, <- Er, <- Ew, <- Ee in O1.
  rewrite full_line by done. rewrite length_app, Nat.add_assoc, (Nat2Z.inj_add _ (length [k])), Hlen. cbn [length].
  destruct (_ || _ || _) eqn:Eb2.
  - apply wp_bind, wp_modify, wp_ret. split; [done|]. split; [|done]. pose proof (commit_ok c2 O1 S2) as E. rewrite Eq2 in E. cbn in E.
    destruct E as (? & ? & E). split_and!; [done..|]. by etrans; [apply E|].
  - apply wp_ret. split; [done|]. split; [|done]. split_and!; [|done|done]. split; [done|done|]. rewrite Eq2. cbn.
    intros [Hin|Hin%list_elem_of_singleton]%elem_of_app; [done|]. by rewrite <- Hin in Eb2.
Qed.

(** A burst of keys. *)
Fixpoint edits (cs : list Z) (q : list Z * list Z) : (list Z * list Z) * bool :=
  match cs with
  | [] => (q, false)
  | ch :: cs' => let r := edit ch q in let r' := edits cs' r.1 in (r'.1, r.2 || r'.2)
  end.

Fixpoint echoes (cs : list Z) (q : list Z * list Z) : list Z :=
  match cs with [] => [] | ch :: cs' => key_echo ch q ++ echoes cs' (edit ch q).1 end.

(** The kernel with its machine, process table and console replaced. *)
Definition upd_cons (mc : mach) (ps : list proc) (c : console) (s : sys) : sys :=
  Sys (with_mach mc (set_procs ps (s_p s))) (s_f s) (s_files s) (s_pipes s) (s_ticks s) c.

Definition wake_input (b : bool) (ps : list proc) : list proc := if b then wake ChInput <$> ps else ps.

Lemma wake_input_or b b' ps : wake_input b' (wake_input b ps) = wake_input (b || b') ps.
Proof.
  destruct b, b'; cbn; [|done..]. rewrite <- list_fmap_compose. apply list_fmap_ext. intros ? p _. apply wake_wake.
Qed.

Lemma consoleintr_loop_wp cs mc ps c s mc0 i j pr Q :
  in_section (upd_cons mc ps c s) LkCons mc0 i j pr → cons_ok c →
  (∀ mc' c', let ps' := wake_input (edits cs (queues c)).2 ps in
     in_section (upd_cons mc' ps' c' s) LkCons mc0 i j pr → edited (edits cs (queues c)).1 c c' →
     sent (echoes cs (queues c)) c c' → Q tt (upd_cons mc' ps' c' s)) →
  wp (consoleintr_loop cs) Q (upd_cons mc ps c s).
Proof.
  revert mc ps c. induction cs as [|ch cs IH]; intros mc ps c S C HQ; cbn [consoleintr_loop].
  { apply wp_ret, HQ; [done|by split_and!|apply sent_nil]. }
  apply wp_bind, wp_zoom. eapply wp_mono; [by apply key_wp|]. intros b c1 (Hb & E1 & U1). cbn [s_cons upd_cons] in Hb, E1, U1. cbn [edits echoes] in HQ. cbv zeta in HQ.
  cbn [fst snd] in HQ. rewrite <- Hb in HQ. apply wp_bind.
  assert (∀ mc1 ps1, ps1 = wake_input b ps → in_section (upd_cons mc1 ps1 c1 s) LkCons mc0 i j pr →
    wp (consoleintr_loop cs) Q (upd_cons mc1 ps1 c1 s)) as Hnext.
  { intros mc1 ps1 -> S1. pose proof E1 as (C1 & Eq1 & El1). apply IH; [done|done|]. intros mc2 c2 ps2 S2 E2 U2. subst ps2.
    rewrite Eq1, wake_input_or in *. apply HQ; [done| |by eapply sent_trans]. destruct E2 as (? & ? & ?). split_and!; [done..|congruence]. }
  destruct b; [|apply wp_ret, (Hnext mc); [done|by destruct S]].
  eapply (wakeup_in_section (upd_cons mc ps c1 s)); [by destruct S|done|]. intros mc2 s2 S2.
  apply (Hnext mc2 (wake ChInput <$> ps)); [done|apply S2].
Qed.

(** *** The process listing *)

Definition out (l : list Z) : list Z := l ≫= conschars.

(** The text that is printed for the stack and for a process. *)
Fixpoint pcs_text (pcs : list Z) : list Z :=
  match pcs with [] => [] | pc :: pcs' => if pc =? 0 then [] else [32] ++ printint pc 16 false ++ pcs_text pcs' end.
Definition proc_line (callers : proc → list Z) (p : proc) : list Z :=
  printint (p_pid p) 10 true ++ [32] ++ state_text (p_state p) ++ [32] ++ p_name p ++
  (if decide (p_state p = SLEEPING) then pcs_text (take 10 (callers p)) else []) ++ [10].

(** One line for every slot of the table that is in use. *)
Definition listing (callers : proc → list Z) (ps : list proc) : list Z :=
  ps ≫= λ p, if decide (p_state p = UNUSED) then [] else proc_line callers p.

(** The characters [l] were printed, and nothing else happened. *)
Definition prints (l : list Z) (s s' : sys) : Prop := ∃ mc c',
  s' = upd_cons mc (procs (s_p s)) c' s ∧ mc ≡ p_mach (s_p s) ∧
  edited (queues (s_cons s)) (s_cons s) c' ∧ sent (out l) (s_cons s) c'.

Lemma upd_cons_mach s c : set_cons c s = upd_cons (p_mach (s_p s)) (procs (s_p s)) c s.
Proof. destruct s as [sp f fl pp tk c0]. unfold upd_cons, set_cons. cbn. f_equal. by destruct sp as [[[] ? ?] ? ? ?]. Qed.

Lemma prints_nil s : cons_ok (s_cons s) → prints [] s s.
Proof.
  intros C. exists (p_mach (s_p s)), (s_cons s). split; [|split; [done|split; [by split_and!|apply sent_nil]]].
  rewrite <- upd_cons_mach. by destruct s.
Qed.

Lemma prints_trans l1 l2 s1 s2 s3 : prints l1 s1 s2 → prints l2 s2 s3 → prints (l1 ++ l2) s1 s3.
Proof.
  intros (mc1 & c1 & -> & M1 & (O1 & Q1 & L1) & U1) (mc2 & c2 & -> & M2 & (O2 & Q2 & L2) & U2). exists mc2, c2. cbn in *.
  split_and!; [done|by etrans|split; [done|split; congruence]|]. unfold out. rewrite bind_app. by eapply sent_trans.
Qed.

Lemma prints_calm l s s' i j pr :
  prints l s s' → calm s i j pr → calm s' i j pr ∧ cons_ok (s_cons s') ∧ procs (s_p s') = procs (s_p s).
Proof.
  intros (mc & c & -> & M & E & _) Ca. split_and!; [|apply E|done]. eapply calm_state; [done|done|]. apply Ca.
Qed.

Lemma cprintf_wp fmt args l s i j pr :
  calm s i j pr → cons_ok (s_cons s) → cprintf_text fmt args = Some l → wp (cprintf fmt args) (λ _, prints l s) s.
Proof.
  intros Ca C El. unfold cprintf, cprint. rewrite El. apply wp_bind, wp_gets. apply wp_bind.
  destruct (cn_locking (s_cons s)).
  - eapply lock_wp; [apply Ca..|]. intros mc s1 S1. apply wp_bind, wp_zoom. eapply wp_mono; [apply consputs_wp, C|].
    intros [] c1 (Sc & Ic & U). eapply (unlock_wp _ LkCons (p_mach (s_p s)) i j pr); [by destruct S1|]. intros mc2 M2.
    exists mc2, c1. split_and!; [done|done| |done].
    eapply (edited_screen _ (s_cons s)); [by split_and!|done|done].
  - apply wp_ret. apply wp_bind, wp_zoom. eapply wp_mono; [apply consputs_wp, C|]. intros [] c1 (Sc & Ic & U). apply wp_ret.
    exists (p_mach (s_p s)), c1. split_and!; [|done| |done].
    + apply upd_cons_mach.
    + eapply (edited_screen _ (s_cons s)); [by split_and!|done|done].
Qed.

Section listing.
Context (callers : proc → list Z).

Lemma print_pcs_wp pcs s i j pr :
  calm s i j pr → cons_ok (s_cons s) → wp (print_pcs pcs) (λ _, prints (pcs_text pcs) s) s.
Proof.
  revert s. induction pcs as [|pc pcs IH]; intros s Ca C; cbn [print_pcs pcs_text]; [by apply wp_ret, prints_nil|].
  destruct (pc =? 0); [by apply wp_ret, prints_nil|]. apply wp_bind.
  eapply wp_mono; [eapply (cprintf_wp _ _ ([32] ++ printint pc 16 false)); [done|done|cbn; by rewrite app_nil_r]|].
  intros [] s1 P1. destruct (prints_calm _ _ _ _ _ _ P1 Ca) as (Ca1 & C1 & _). eapply wp_mono; [by apply IH|]. intros [] s2 P2.
  rewrite app_assoc. by eapply prints_trans.
Qed.

Lemma print_proc_wp p s i j pr :
  calm s i j pr → cons_ok (s_cons s) → wp (print_proc callers p) (λ _, prints (proc_line callers p) s) s.
Proof.
  intros Ca C. unfold print_proc. apply wp_bind.
  eapply wp_mono; [eapply (cprintf_wp _ _ (printint (p_pid p) 10 true ++ [32] ++ state_text (p_state p) ++ [32] ++ p_name p));
    [done|done|cbn; by rewrite app_nil_r]|].
  intros [] s1 P1. destruct (prints_calm _ _ _ _ _ _ P1 Ca) as (Ca1 & C1 & _). apply wp_bind.
  apply (wp_mono _ (λ _, prints (if decide (p_state p = SLEEPING) then pcs_text (take 10 (callers p)) else []) s1)).
  { destruct (decide _); [by eapply print_pcs_wp|by apply wp_ret, prints_nil]. }
  intros [] s2 P2. destruct (prints_calm _ _ _ _ _ _ P2 Ca1) as (Ca2 & C2 & _).
  eapply wp_mono; [by eapply (cprintf_wp _ _ [10])|]. intros [] s3 P3.
  pose proof (prints_trans _ _ _ _ _ P1 (prints_trans _ _ _ _ _ P2 P3)) as P. by rewrite <- !app_assoc in P.
Qed.

Lemma procdump_wp s i j pr :
  calm s i j pr → cons_ok (s_cons s) → wp (procdump callers) (λ _, prints (listing callers (procs (s_p s))) s) s.
Proof.
  intros Ca C. unfold procdump. apply wp_bind, wp_gets. generalize (procs (s_p s)) as ps. intros ps. revert s Ca C.
  induction ps as [|p ps IH]; intros s Ca C; cbn [procdump_loop]; [by apply wp_ret, prints_nil|]. apply wp_bind.
  apply (wp_mono _ (λ _, prints (if decide (p_state p = UNUSED) then [] else proc_line callers p) s)).
  { destruct (decide _); [by apply wp_ret, prints_nil|by eapply print_proc_wp]. }
  intros [] s1 P1. destruct (prints_calm _ _ _ _ _ _ P1 Ca) as (Ca1 & C1 & _). eapply wp_mono; [by apply IH|]. intros [] s2 P2.
  by eapply prints_trans.
Qed.

Lemma wake_calm b s c mc i j pr :
  calm s i j pr → mc ≡ p_mach (s_p s) → calm (upd_cons mc (wake_input b (procs (s_p s))) c s) i j pr.
Proof.
  intros Ca M. eapply calm_state; [done|done|]. cbn. destruct b; [|apply Ca]. cbn. rewrite list_lookup_fmap, (ca_proc _ _ _ _ Ca). cbn. f_equal.
  unfold wake. rewrite decide_False; [done|]. rewrite (ca_state _ _ _ _ Ca). by intros [].
Qed.

Lemma consoleintr_wp cs s i j pr :
  calm s i j pr → cons_ok (s_cons s) →
  wp (consoleintr callers cs) (λ _ s', ∃ mc c',
    let r := edits cs (queues (s_cons s)) in let ps := wake_input r.2 (procs (s_p s)) in
    s' = upd_cons mc ps c' s ∧ mc ≡ p_mach (s_p s) ∧ edited r.1 (s_cons s) c' ∧
    sent (echoes cs (queues (s_cons s)) ++ if bool_decide (ctrl_P ∈ cs) then out (listing callers ps) else []) (s_cons s) c') s.
Proof.
  intros Ca C. unfold consoleintr. eapply section_calm; [done|]. intros mc s1 S1. apply wp_bind.
  apply (consoleintr_loop_wp cs mc (procs (s_p s)) (s_cons s) s (p_mach (s_p s)) i j pr); [by destruct S1|done|].
  intros mc2 c2 ps2 S2 E2 U2. apply wp_bind. eapply unlock_wp; [done|]. intros mc3 Hmc3. case_bool_decide.
  - change (set_sp _ _) with (upd_cons mc3 ps2 c2 s). eapply wp_mono; [eapply procdump_wp; [by apply wake_calm|apply E2]|].
    intros [] s3 (mc4 & c4 & -> & M4 & E4 & U4). cbn in *. exists mc4, c4. destruct E2 as (_ & Q2 & L2), E4 as (O4 & Q4 & L4).
    split_and!; [done|by etrans|split; [done|split; congruence]|by eapply sent_trans].
  - apply wp_ret. exists mc3, c2. split_and!; [done|done|done|by rewrite app_nil_r].
Qed.

End listing.

(** ** Reading *)

(** What a reader that wants [n] more characters after [acc] takes from the
    complete input [rd]: the characters delivered, the input that is left,
    and whether the call is done.  A ^D ends the call; it stays in the input
    unless it comes first. *)
Fixpoint read_line (n : nat) (acc rd : list Z) : list Z * list Z * bool :=
  match n, rd with
  | O, _ => (acc, rd, true)
  | S _, [] => (acc, [], false)
  | S n', ch :: rd' =>
    if ch =? ctrl_D then (acc, if bool_decide (acc = []) then rd' else rd, true) else
    if ch =? 10 then (acc ++ [ch], rd', true) else read_line n' (acc ++ [ch]) rd'
  end.

Definition read_done (mc0 : mach) (i j : nat) (pr : proc) (ps : list proc) (c : console) (s : sys)
    (x : list Z * list Z * bool) (r : pipe_res) (s' : sys) : Prop :=
  ∃ mc c', edited (x.1.2, (queues c).2) c c' ∧
  match r with
  | PRet r l => mc ≡ mc0 ∧ s' = upd_cons mc ps c' s ∧ l = x.1.1 ∧
      (x.2 = true ∧ r = Z.of_nat (length l) ∨ x.2 = false ∧ r = -1 ∧ p_killed pr = true)
  | PSleep l b => mc ≡ acquired i LkPtable mc0 ∧ s' = upd_cons mc (alter (asleep ChInput) j ps) c' s ∧ l = x.1.1 ∧
      x.2 = false ∧ p_killed pr = false ∧ b = hw_if mc0
  end.

Lemma edited_pop c :
  cons_ok c → cn_r c ≠ cn_w c →
  ∃ rd, (queues c).1 = cell INPUT_BUF (cn_buf c) (cn_r c) :: rd ∧
    edited (rd, (queues c).2) c (set_input (cn_buf c) (u32 (cn_r c + 1)) (cn_w c) (cn_e c) c).
Proof.
  intros [S O Hn] Hne. destruct (in_ok_pop _ _ _ _ O Hne) as [O' E]. eexists. split; [exact E|].
  split_and!; [|done|done]. by split; [destruct S|..].
Qed.

Lemma edited_trans q c1 c2 c3 : edited (queues c2) c1 c2 → edited q c2 c3 → edited q c1 c3.
Proof. intros (_ & _ & E) (? & ? & E'). split_and!; [done..|congruence]. Qed.

Lemma read_return mc ps c s mc0 i j pr l x :
  in_section (upd_cons mc ps c s) LkCons mc0 i j pr → edited (x.1.2, (queues c).2) c c → l = x.1.1 → x.2 = true →
  wp (unlock LkCons;; mret (PRet (Z.of_nat (length l)) l)) (read_done mc0 i j pr ps c s x) (upd_cons mc ps c s).
Proof.
  intros S E -> Hx. apply wp_bind. eapply unlock_wp; [done|]. intros mc' Hmc. apply wp_ret. exists mc', c.
  split; [done|]. split_and!; [done..|]. by left.
Qed.

Lemma read_done_later mc0 i j pr ps c c1 s x r s' :
  edited (queues c1) c c1 → (queues c1).2 = (queues c).2 →
  read_done mc0 i j pr ps c1 s x r s' → read_done mc0 i j pr ps c s x r s'.
Proof.
  intros E Eq (mc & c' & E' & Hr). exists mc, c'. split; [|done]. rewrite <- Eq. by eapply edited_trans.
Qed.

Lemma consoleread_loop_wp n acc mc ps c s mc0 i j pr :
  in_section (upd_cons mc ps c s) LkCons mc0 i j pr → cons_ok c →
  wp (consoleread_loop n acc) (read_done mc0 i j pr ps c s (read_line n acc (queues c).1)) (upd_cons mc ps c s).
Proof.
  revert acc mc c. induction n as [|n IH]; intros acc mc c S C; cbn [consoleread_loop read_line].
  { by apply read_return. }
  apply wp_bind, wp_gets. cbn [s_cons upd_cons]. destruct (Z.eqb_spec (cn_r c) (cn_w c)) as [Ee|Ee].
  - assert ((queues c).1 = []) as E0.
    { apply nil_length_inv. destruct C as [_ O _]. destruct (in_ok_lengths _ _ _ _ O) as (Hl & _).
      assert (rcount (cn_r c) (cn_w c) = 0) by (apply rcount_eq; [apply O..|done]). cbn. lia. }
    assert (edited ([], (queues c).2) c c) as Ed by (split_and!; [done|rewrite <- E0; by destruct (queues c)|done]).
    rewrite E0. apply wp_bind. eapply is_killed_wp; [done|]. intros mc1 s1 S1. destruct (p_killed pr) eqn:Ek.
    + apply wp_bind. eapply unlock_wp; [done|]. intros mc2 Hmc. apply wp_ret. exists mc2, c. split_and!; try done. by right.
    + apply wp_bind. eapply sleep_in_section; [done|]. intros mc2 Hmc. apply wp_ret. exists mc2, c. by split_and!.
  - destruct (edited_pop c C Ee) as (rd & Erd & E1). rewrite Erd.
    change (nth (in_cell (cn_r c)) (cn_buf c) 0) with (cell INPUT_BUF (cn_buf c) (cn_r c)).
    set (ch := cell INPUT_BUF (cn_buf c) (cn_r c)) in *.
    set (c1 := set_input _ _ _ _ c) in E1.
    assert (edited (queues c1) c c1) as E2 by (destruct E1 as (? & Eq1 & ?); by split_and!).
    assert ((queues c1).2 = (queues c).2 ∧ (queues c1).1 = rd) as [Eq1 Eq2] by (destruct E1 as (_ & -> & _); done).
    assert (edited ((queues c1).1, (queues c1).2) c1 c1) as E3 by (destruct E1 as (? & _ & _); split_and!; [done|by destruct (queues c1)|done]).
    assert (in_section (upd_cons mc ps c1 s) LkCons mc0 i j pr) as S1 by by destruct S.
    destruct (ch =? ctrl_D).
    + apply wp_bind. case_bool_decide as Ea.
      * apply wp_zoom, wp_modify. change (set_cons _ _) with (upd_cons mc ps c1 s).
        eapply wp_mono; [|intros r s'; by apply read_done_later]. by apply read_return.
      * apply wp_ret, read_return; try done. cbn [fst snd]. by rewrite <- Erd.
    + apply wp_bind, wp_zoom, wp_modify. change (set_cons _ _) with (upd_cons mc ps c1 s).
      eapply wp_mono; [|intros r s'; by apply read_done_later]. destruct (ch =? 10).
      * by apply read_return.
      * rewrite <- Eq2. apply IH; [done|apply E1].
Qed.

(** Characters that the line discipline does not interpret. *)
Definition plain (ch : Z) : bool :=
  negb (bool_decide (ch ∈ [0; 10; 13; 127; ctrl_D; ctrl_H; ctrl_P; ctrl_U])).

Lemma plain_ne ch k : plain ch = true → k ∈ [0; 10; 13; 127; ctrl_D; ctrl_H; ctrl_P; ctrl_U] → (ch =? k) = false.
Proof. intros H%negb_true_iff%bool_decide_eq_false Hk. apply Z.eqb_neq. by intros ->. Qed.

Lemma edit_plain ch q :
  plain ch = true → Z.of_nat (length q.1 + length q.2) + 1 < INPUT_BUF → edit ch q = ((q.1, q.2 ++ [ch]), false).
Proof.
  intros Hp Hl. unfold edit. rewrite !(plain_ne _ _ Hp) by set_solver. cbn [orb andb negb].
  rewrite (proj2 (Z.ltb_lt _ _)) by lia. rewrite length_app. cbn [length orb].
  by rewrite (proj2 (Z.eqb_neq _ _)) by lia.
Qed.

Lemma edits_plain cs q :
  Forall (λ ch, plain ch = true) cs → Z.of_nat (length q.1 + length q.2 + length cs) < INPUT_BUF →
  edits cs q = ((q.1, q.2 ++ cs), false).
Proof.
  intros F. revert q. induction F as [|ch cs Hp F IH]; intros q Hl; cbn [edits length] in *.
  - rewrite app_nil_r. by destruct q.
  - rewrite edit_plain by (done || lia). cbn [fst snd]. rewrite IH by (cbn; rewrite length_app; cbn; lia). cbn.
    by rewrite <- app_assoc.
Qed.

Lemma edits_app cs cs' q :
  edits (cs ++ cs') q = ((edits cs' (edits cs q).1).1, (edits cs q).2 || (edits cs' (edits cs q).1).2).
Proof.
  revert q. induction cs as [|ch cs IH]; intros q; cbn [edits app fst snd orb].
  - by destruct (edits cs' q).
  - rewrite IH. cbn. by rewrite orb_assoc.
Qed.

Lemma edit_enter q : Z.of_nat (length q.1 + length q.2) < INPUT_BUF → edit 13 q = ((q.1 ++ q.2 ++ [10], []), true).
Proof. intros H. unfold edit. cbn. by rewrite (proj2 (Z.ltb_lt _ _)) by done. Qed.

Lemma read_line_plain n acc cs rd :
  Forall (λ ch, plain ch = true) cs → (length cs < n)%nat → read_line n acc (cs ++ 10 :: rd) = (acc ++ cs ++ [10], rd, true).
Proof.
  intros F. revert n acc. induction F as [|ch cs Hp F IH]; intros [|n] acc Hn; cbn in Hn; try lia; cbn [app read_line].
  - done.
  - rewrite !(plain_ne _ _ Hp) by set_solver. rewrite IH by lia. by rewrite <- app_assoc.
Qed.

(** The process [pr] has locked the inode [ip]. *)
Definition my_inode (pr : proc) (ip : nat) (s : sys) : Prop := ∃ x, f_inodes (s_f s) !! ip = Some x ∧
  i_valid x = true ∧ 1 ≤ i_ref x ∧ i_lock x = Slk true (p_pid pr).

Section read.
Context (iderw : nat → M bst ()).

Lemma iunlock_run f ip x :
  f_inodes f !! ip = Some x → 1 ≤ i_ref x → i_lock x = Slk true (mypid (l_b (f_l f))) →
  iunlock ip f = Ok tt (set_inodes (alter (λ i, set_i_lock (releasesleep (i_lock i)) i) ip (f_inodes f)) f).
Proof.
  intros Hx Hr Hl. unfold iunlock, get_inode, gets, modify, mbind, M_bind, mret, M_ret. rewrite Hx. cbv beta iota. rewrite Hl.
  unfold holdingsleep. cbn [sl_locked sl_pid]. by rewrite Z.eqb_refl, (proj2 (Z.ltb_ge _ _)) by lia.
Qed.

Lemma ilock_run f ip x :
  f_inodes f !! ip = Some x → 1 ≤ i_ref x → i_valid x = true → sl_locked (i_lock x) = false →
  ilock iderw ip f = Ok tt (set_inodes (alter (set_i_lock (Slk true (mypid (l_b (f_l f))))) ip (f_inodes f)) f).
Proof.
  intros Hx Hr Hv Hl. unfold ilock, inode_acquire, get_inode, mod_inode, gets, modify, mbind, M_bind, mret, M_ret.
  rewrite Hx. cbv beta iota. rewrite (proj2 (Z.ltb_ge _ _)) by lia. rewrite Hx. cbv beta iota. unfold acquiresleep. rewrite Hl.
  cbn [f_inodes set_inodes]. rewrite list_lookup_alter_eq, Hx. cbn. by rewrite Hv.
Qed.

(** [consoleread] when a line, or as much as is wanted, is there. *)
Lemma consoleread_wp ip n s i j pr l rest :
  calm s i j pr → cons_ok (s_cons s) → my_inode pr ip s →
  read_line (Z.to_nat n) [] (queues (s_cons s)).1 = (l, rest, true) →
  wp (consoleread iderw ip n) (λ r s', r = PRet (Z.of_nat (length l)) l ∧ queues (s_cons s') = (rest, (queues (s_cons s)).2) ∧
    p_mach (s_p s') ≡ p_mach (s_p s) ∧ procs (s_p s') = procs (s_p s) ∧ s_f s' = enter_fs pr (s_f s)) s.
Proof.
  intros Ca C (x & Hx & Hv & Hr & Hl) El. unfold consoleread. apply wp_bind. eapply in_fs_calm; [done|]. intros mc Hmc.
  eapply wp_run; [by apply (iunlock_run _ ip x)|]. cbn beta.
  set (f1 := set_inodes _ _). set (s1 := set_sf f1 _).
  assert (calm s1 i j pr) as Ca1 by (eapply calm_state; [done|done|apply Ca]).
  eapply section_calm; [done|]. intros mc2 s2 S2. apply wp_bind.
  eapply wp_mono; [apply (consoleread_loop_wp (Z.to_nat n) [] mc2 (procs (s_p s)) (s_cons s) s1); [by destruct S2|done]|].
  rewrite El. intros [r l'|l' b] s3 (mc3 & c3 & (C3 & Eq3 & _) & Hd); [|by destruct Hd as (_ & _ & _ & [=] & _)].
  destruct Hd as (Hmc3 & -> & -> & [[_ ->]|[[=] _]]). cbn [fst snd] in *. cbn [console_done].
  set (s3 := upd_cons _ _ _ _). assert (calm s3 i j pr) as Ca3.
  { eapply calm_state; [exact Ca1|done|apply Ca1]. }
  apply wp_bind. eapply in_fs_calm; [done|]. intros mc4 Hmc4. eapply wp_run.
  { eapply (ilock_run _ ip (set_i_lock (releasesleep (i_lock x)) x)); [|done..]. cbn. by rewrite list_lookup_alter_eq, Hx. }
  apply wp_ret. split_and!; [done|done| |done|].
  - change (mc4 ≡ p_mach (s_p s)). rewrite Hmc4. change (mc3 ≡ p_mach (s_p s)). by rewrite Hmc3.
  - cbn. unfold enter_fs, set_inodes. cbn. f_equal. rewrite list_alter_alter_eq.
    rewrite <- (list_alter_id id (f_inodes (s_f s)) ip) at 2 by done. apply list_alter_ext; [|done].
    intros y Hy. rewrite Hx in Hy. injection Hy as <-. cbn. rewrite <- Hl. by destruct x.
Qed.

(** A reader gets the line that keys of any kind have left. *)
Lemma typed_read callers typed cs ip n s i j pr :
  calm s i j pr → cons_ok (s_cons s) → my_inode pr ip s → edits typed (queues (s_cons s)) = ((cs ++ [10], []), true) →
  Forall (λ ch, plain ch = true) cs → Z.of_nat (length cs) < n →
  wp (consoleintr callers typed;; consoleread iderw ip n) (λ r s',
    r = PRet (Z.of_nat (length cs) + 1) (cs ++ [10]) ∧ queues (s_cons s') = ([], []) ∧
    p_mach (s_p s') ≡ p_mach (s_p s) ∧ procs (s_p s') = wake ChInput <$> procs (s_p s) ∧ s_f s' = enter_fs pr (s_f s)) s.
Proof.
  intros Ca C Hi Ee F Hn. apply wp_bind. eapply wp_mono; [by eapply consoleintr_wp|].
  cbn beta zeta. rewrite Ee. cbn [fst snd]. intros [] s1 (mc & c1 & -> & Hmc & (C1 & Eq1 & _) & _).
  eapply wp_mono; [apply (consoleread_wp ip n _ i j pr (cs ++ [10]) []); [by apply wake_calm|done|done|]|].
  - cbn [s_cons upd_cons]. rewrite Eq1. apply (read_line_plain _ [] cs []); [done|lia].
  - cbn [s_cons upd_cons]. rewrite Eq1. cbn [snd]. intros r s' (-> & E1 & E2 & E3 & E4). split_and!; [|done| |done|done].
    + f_equal. rewrite length_app. cbn. lia.
    + by rewrite E2.
Qed.

(** A line typed is the line read.  If the user types a line of ordinary
    characters that fits the buffer, and Enter, then every process that was
    waiting for input is woken, and a [consoleread] for at least that many
    bytes gets exactly these characters and the newline, without sleeping,
    and leaves the buffer empty - wherever in the ring buffer the line
    lies. *)
Theorem typed_line_read callers cs ip n s i j pr :
  calm s i j pr → cons_ok (s_cons s) → my_inode pr ip s → queues (s_cons s) = ([], []) →
  Forall (λ ch, plain ch = true) cs → Z.of_nat (length cs) < INPUT_BUF → Z.of_nat (length cs) < n →
  wp (consoleintr callers (cs ++ [13]);; consoleread iderw ip n) (λ r s',
    r = PRet (Z.of_nat (length cs) + 1) (cs ++ [10]) ∧ queues (s_cons s') = ([], []) ∧
    p_mach (s_p s') ≡ p_mach (s_p s) ∧ procs (s_p s') = wake ChInput <$> procs (s_p s) ∧ s_f s' = enter_fs pr (s_f s)) s.
Proof.
  intros Ca C Hi Eq F Hl Hn. eapply typed_read; try done.
  rewrite edits_app, Eq, (edits_plain cs ([], []) F Hl). cbn [fst snd edits app orb]. by rewrite (edit_enter ([], cs) Hl).
Qed.
End read.

(** ** A console *)

(** The theorems about the console on a concrete kernel state whose input
    counters are about to wrap around. *)

Lemma demo_calm : calm demo_sys 0 0 demo_proc.
Proof. split; [apply demo_running|by intros []|done|done]. Qed.

Lemma demo_cons_ok : cons_ok demo_cons.
Proof.
  split.
  - by split; vm_compute.
  - by split; vm_compute.
  - change (queues demo_cons).2 with (@nil Z). apply not_elem_of_nil.
Qed.

Lemma demo_my_inode : my_inode demo_proc 0 demo_sys.
Proof. by exists img_inode. Qed.


Lemma typed_line_read_witness :
  wp (consoleintr (λ _, []) [108; 115; 13];; consoleread drv 0 100) (λ r _, r = PRet 3 [108; 115; 10]) demo_sys.
Proof.
  eapply wp_mono; [apply (typed_line_read drv (λ _, []) [108; 115] 0 100 demo_sys 0 0 demo_proc demo_calm demo_cons_ok demo_my_inode)|].
  - done.
  - by repeat constructor.
  - done.
  - cbn. lia.
  - by intros r s' [-> _].
Defined.
