(* ===== verification/KbdSpec.v ===== *)
(** The keyboard (kbd.c) and the console (console.c) together: from scan codes
    to the line a process reads. *)

From S2P Require Import Prelude Memory Kstring Spinlock Mmu Kalloc Vm Proc ProcSpec Block Ide Bio Log Fs Ring Cons.
From S2P Require Import Kern KernSpec Pipe Procs Kbd Console ConsSpec VmDemo Tx FsWrite PipeSpec.

(** The scan codes of the letters, from a to z. *)
Definition letter_codes : list Z :=
  [0x1e; 0x30; 0x2e; 0x20; 0x12; 0x21; 0x22; 0x23; 0x17; 0x24; 0x25; 0x26; 0x32;
   0x31; 0x18; 0x19; 0x10; 0x13; 0x1f; 0x14; 0x16; 0x2f; 0x11; 0x2d; 0x15; 0x2c].

(** What a letter key should give in the modifier state [shift]. *)
Definition letter_char (shift k : Z) : Z :=
  if Z.testbit shift 1 then (if Z.testbit shift 3 then caps (k + 1) else k + 1) else
  if xorb (Z.testbit shift 0) (Z.testbit shift 3) then 65 + k else 97 + k.

Lemma forallb_seqZ (f : Z → bool) m n x : forallb f (seqZ m n) = true → m ≤ x < m + n → f x = true.
Proof. intros H Hx. rewrite forallb_forall in H. apply H. by apply list_elem_of_In, elem_of_seqZ. Qed.

Lemma forallb_seqZ2 (f : Z → Z → bool) m n m' n' x y :
  forallb (λ x, forallb (f x) (seqZ m' n')) (seqZ m n) = true → m ≤ x < m + n → m' ≤ y < m' + n' → f x y = true.
Proof. intros H Hx Hy. apply (forallb_seqZ _ _ _ x) in H; [|done]. by apply (forallb_seqZ _ _ _ y) in H. Qed.

(** The bytes stay bytes. *)
Definition in_range (s d : Z) : bool :=
  let r := kbdgetc s d in (0 <=? r.1) && (r.1 <? 256) && (0 <=? r.2) && (r.2 <? 128).

Lemma all_in_range : forallb (λ s, forallb (in_range s) (seqZ 0 256)) (seqZ 0 128) = true.
Proof. by vm_compute. Qed.

Lemma kbdgetc_range shift data :
  0 ≤ shift < 128 → 0 ≤ data < 256 → 0 ≤ (kbdgetc shift data).1 < 256 ∧ 0 ≤ (kbdgetc shift data).2 < 128.
Proof.
  intros Hs Hd. pose proof (forallb_seqZ2 _ _ _ _ _ shift data all_in_range Hs Hd) as H. unfold in_range in H.
  revert H. generalize (kbdgetc shift data). intros [r s'] H. cbn in *. lia.
Qed.

Definition letter_fine (s k : Z) : bool :=
  let c := nth (Z.to_nat k) letter_codes 0 in
  bool_decide (kbdgetc s c = (letter_char s k, s)) && bool_decide (kbdgetc s (c + 0x80) = (0, s)).

Lemma all_letters_fine : forallb (λ s, forallb (letter_fine s) (seqZ 0 26)) (seqZ 0 64) = true.
Proof. by vm_compute. Qed.

Lemma kbdgetc_letter shift k code :
  0 ≤ shift < 64 → letter_codes !! Z.to_nat k = Some code → 0 ≤ k →
  kbdgetc shift code = (letter_char shift k, shift) ∧ kbdgetc shift (code + 0x80) = (0, shift).
Proof.
  intros Hs Hc Hk. assert (0 ≤ k < 26) as Hk'. { apply lookup_lt_Some in Hc. cbn in Hc. lia. }
  pose proof (forallb_seqZ2 _ _ _ _ _ shift k all_letters_fine Hs Hk') as H. unfold letter_fine in H.
  rewrite nth_lookup, Hc in H. cbn [default] in H. by apply andb_true_iff in H as [H1%bool_decide_eq_true H2%bool_decide_eq_true].
Qed.

(** The keyboard driver.  Whatever bytes the controller delivers, the
    driver's state keeps to its seven bits and every character to a byte, so
    that no table is indexed out of its bounds.  In every state of the
    modifiers, a letter key gives its control character with Ctrl held, and
    otherwise the upper-case letter exactly if one of Shift and Caps Lock is
    on, but not both; letter keys leave the modifiers as they are. *)
Theorem kbdgetc_correct shift data k code :
  0 ≤ shift < 128 → 0 ≤ data < 256 → letter_codes !! Z.to_nat k = Some code → 0 ≤ k →
  (0 ≤ (kbdgetc shift data).1 < 256 ∧ 0 ≤ (kbdgetc shift data).2 < 128) ∧
  (shift < 64 → kbdgetc shift code = (letter_char shift k, shift) ∧ kbdgetc shift (code + 0x80) = (0, shift)).
Proof. intros Hs Hd Hc Hk. split; [by apply kbdgetc_range|]. intros Hs'. apply kbdgetc_letter; [lia|done|done]. Qed.

(** Shift and A with Caps Lock on. *)
Lemma kbdgetc_correct_witness : (kbdgetc 9 0x1e).1 = 97.
Proof.
  destruct (kbdgetc_correct 9 0x1e 0 0x1e) as [_ H]; [lia|lia|done|lia|]. destruct (H ltac:(lia)) as [-> _]. done.
Defined.

(** ** A line typed on the keyboard *)








