(* ===== verification/Sysarg.v ===== *)
(** The arguments of system calls (syscall.c): integers, pointers and strings
    of the user's stack and memory, checked against the size of the process. *)

From S2P Require Import Prelude Memory Kstring Spinlock Mmu Kalloc Vm Proc Block Ide Bio Log Fs Kern Umem VmInv.
From S2P Require Import VmWalk VmMap VmFree VmKern VmUser VmDemo ProcSpec KernSpec PipeSpec LifeDemo.

(** [None] is the return value -1. *)
Definition fetchint (addr : Z) : M sys (option Z) :=
  c ← curproc;
  let sz := p_sz c.2 in
  if (sz <=? addr) || (sz <? u32 (addr + 4)) then mret None else
  v ← in_vst (uload32 addr);
  mret (Some (i32 v)).

(** [for(s = *pp; s < ep; s++)] with [n] bytes up to [ep]. *)
Fixpoint fetchstr_loop (s : Z) (n : nat) : M sys (option (list Z)) :=
  match n with
  | O => mret None
  | S n' =>
    b ← in_vst (uload8 s);
    if b =? 0 then mret (Some []) else
    r ← fetchstr_loop (u32 (s + 1)) n';
    mret (match r with Some l => Some (b :: l) | None => None end)
  end.

(** The string at [addr], without its nul. *)
Definition fetchstr (addr : Z) : M sys (option (list Z)) :=
  c ← curproc;
  let sz := p_sz c.2 in
  if sz <=? addr then mret None else fetchstr_loop addr (Z.to_nat (sz - addr)).

Definition argint (n : Z) : M sys (option Z) :=
  c ← curproc;
  fetchint (u32 (tf_esp (p_tf c.2) + 4 + 4 * n)).

(** The pointer, as an address. *)
Definition argptr (n size : Z) : M sys (option Z) :=
  c ← curproc;
  let sz := p_sz c.2 in
  i ← argint n;
  match i with
  | None => mret None
  | Some i =>
    if (size <? 0) || (sz <=? u32 i) || (sz <? u32 (u32 i + size)) then mret None
    else mret (Some (u32 i))
  end.

Definition argstr (n : Z) : M sys (option (list Z)) :=
  addr ← argint n;
  match addr with
  | None => mret None
  | Some addr => fetchstr (u32 addr)
  end.

(** ** What the process passed

    The arguments that system calls get: what the process stored, and never
    a pointer to memory that is not its own. *)

(** The bytes at [a] and the word there, as the process sees them. *)
Definition ubytes (m : memory) (d a : Z) (n : nat) : list Z :=
  (λ i, default 0 (ubyte m d (a + i))) <$> seqZ 0 (Z.of_nat n).
Definition uword (m : memory) (d a : Z) : Z := of_le (ubytes m d a 4).

(** Word [n] above the return address on the user stack, if it lies in the
    process. *)
Definition arg_word (m : memory) (pr : proc) (n : Z) : option Z :=
  let a := u32 (tf_esp (p_tf pr) + 4 + 4 * n) in
  if a + 4 <=? p_sz pr then Some (uword m (p_pgdir pr) a) else None.

(** A buffer of [size] bytes at [a] lies in the process. *)
Definition in_proc (pr : proc) (a size : Z) : bool := (0 <=? size) && (a <? p_sz pr) && (a + size <=? p_sz pr).

(** The string [l] and its nul are at [a] of the process. *)
Definition cstring (m : memory) (pr : proc) (a : Z) (l : list Z) : Prop :=
  useen m (p_pgdir pr) a (l ++ [0]) ∧ 0 ∉ l ∧ a + Z.of_nat (length l) < p_sz pr.

Lemma cstring_end m pr a l : p_sz pr ≤ a → ¬ cstring m pr a l.
Proof. intros Hle (_ & _ & H). lia. Qed.

Lemma cstring_cons m pr a b l : b ≠ 0 → ubyte m (p_pgdir pr) a = Some b →
  cstring m pr a (b :: l) ↔ cstring m pr (a + 1) l.
Proof.
  intros Hb Hu. unfold cstring. cbn [app length]. rewrite useen_cons, not_elem_of_cons.
  replace (a + Z.of_nat (S (length l))) with (a + 1 + Z.of_nat (length l)) by lia. intuition congruence.
Qed.

Lemma cstring_head m pr a b l : ubyte m (p_pgdir pr) a = Some b → cstring m pr a l →
  (b = 0 ∧ l = []) ∨ (b ≠ 0 ∧ ∃ l', l = b :: l').
Proof.
  intros Hu (H & Hn & _). destruct l as [|x l]; cbn [app] in H; apply useen_cons in H as [Hx _].
  - left. split; congruence.
  - apply not_elem_of_cons in Hn as [Hn _]. right. split; [congruence|]. exists l. congruence.
Qed.

(** Two states that differ in lock bookkeeping only. *)
Definition same (s s' : sys) : Prop := ∃ mc, mc ≡ p_mach (s_p s) ∧ s' = set_sp (with_mach mc (s_p s)) s.

Lemma same_refl s : same s s.
Proof. exists (p_mach (s_p s)). split; [done|]. by destruct s as [[[[]]]]. Qed.

Lemma same_trans s1 s2 s3 : same s1 s2 → same s2 s3 → same s1 s3.
Proof. intros (m1 & E1 & ->) (m2 & E2 & ->). exists m2. split; [by rewrite E2|done]. Qed.

Section sysarg.
Context (kend : Z) (Hkend : KERNLINK ≤ kend).
Context (i j : nat) (pr : proc) (p : pool) (ds : list Z) (kref : Z → Z).

(** Process [pr] is in a system call: its page table is loaded, and all of
    its memory is mapped. *)
Record in_call (s : sys) : Prop := {
  ic_calm : calm s i j pr;
  ic_space : in_space kend (p_v (s_p s)) i p ds kref (p_pgdir pr);
  ic_sz : p_sz pr ≤ KERNBASE;
  ic_mapped : ∀ va, 0 ≤ va < p_sz pr → is_Some (ubyte (k_mem (v_k (p_v (s_p s)))) (p_pgdir pr) va);
}.

Definition umemory (s : sys) : memory := k_mem (v_k (p_v (s_p s))).

Lemma same_memory s s' : same s s' → umemory s' = umemory s.
Proof. by intros (mc & _ & ->). Qed.

Lemma in_call_same s s' : same s s' → in_call s → in_call s'.
Proof.
  intros (mc & E & ->) [C [I P R D X] Z U]. split; [|split|done|done]; try done.
  - by apply (calm_state s), C.
  - by eapply vinv_mach, I.
  - by eapply kready_equiv, R.
Qed.

Lemma curproc_same s Q : in_call s → (∀ s', same s s' → in_call s' → Q (j, pr) s') → wp curproc Q s.
Proof.
  intros C HQ. eapply curproc_calm; [apply C|]. intros mc Hmc. apply HQ; [by exists mc|].
  eapply in_call_same; [by exists mc|done].
Qed.

Lemma in_vst_run {A} (m : M vst A) s a : m (p_v (s_p s)) = Ok a (p_v (s_p s)) → in_vst m s = Ok a s.
Proof. intros H. unfold in_vst, in_p, in_v. erewrite zoom_Ok; [|by apply zoom_Ok]. by destruct s as [[]]. Qed.

Lemma ubytes_seen s a n : in_call s → 0 ≤ a → a + Z.of_nat n ≤ p_sz pr →
  length (ubytes (umemory s) (p_pgdir pr) a n) = n ∧
  useen (umemory s) (p_pgdir pr) a (ubytes (umemory s) (p_pgdir pr) a n).
Proof.
  intros C Ha Hle. unfold ubytes. split; [rewrite length_fmap, length_seqZ; lia|].
  intros k b (x & -> & Hx)%list_lookup_fmap_Some. apply lookup_seqZ in Hx as [-> Hk].
  destruct (ic_mapped _ C (a + (0 + Z.of_nat k))) as [b Hb]; [lia|]. unfold umemory. rewrite Hb. cbn.
  by rewrite <- Hb.
Qed.

Lemma fetchint_wp s a Q : in_call s → 0 ≤ a < 2 ^ 32 →
  (∀ s', same s s' → in_call s' →
     Q (if a + 4 <=? p_sz pr then Some (i32 (uword (umemory s) (p_pgdir pr) a)) else None) s') →
  wp (fetchint a) Q s.
Proof using Hkend.
  intros C Ha HQ. unfold fetchint. apply wp_bind, curproc_same; [done|]. intros s1 S1 C1. cbn [snd].
  pose proof (ic_sz _ C) as Hsz.
  destruct (Z.leb_spec (a + 4) (p_sz pr)) as [Hle|Hgt].
  - rewrite (proj2 (Z.leb_gt _ _)), u32_small, (proj2 (Z.ltb_ge _ _)) by (unfold KERNBASE in *; lia). cbn [orb].
    destruct (ubytes_seen s1 a 4 C1) as [Hl Hs]; [lia|lia|].
    apply wp_bind. rewrite <- (same_memory _ _ S1) in HQ. eapply wp_run; [|apply wp_ret, HQ; done].
    apply in_vst_run. unfold uload32. erewrite bind_run; [reflexivity|]. rewrite <- Hl at 1.
    eapply uload_run; [done|apply C1|lia|rewrite Hl; lia|exact Hs].
  - assert ((p_sz pr <=? a) || (p_sz pr <? u32 (a + 4)) = true) as ->; [|by apply wp_ret, HQ].
    destruct (Z.leb_spec (p_sz pr) a); [done|]. rewrite u32_small by (unfold KERNBASE in *; lia).
    cbn [orb]. apply Z.ltb_lt. lia.
Qed.

Lemma argint_wp s n Q : in_call s →
  (∀ s', same s s' → in_call s' → Q (i32 <$> arg_word (umemory s) pr n) s') → wp (argint n) Q s.
Proof using Hkend.
  intros C HQ. unfold argint. apply wp_bind, curproc_same; [done|]. intros s1 S1 C1. cbn [snd].
  apply fetchint_wp; [done|apply u32_range|]. intros s2 S2 C2. rewrite (same_memory _ _ S1).
  specialize (HQ s2 (same_trans _ _ _ S1 S2) C2). unfold arg_word in HQ. by destruct (_ <=? _).
Qed.

Lemma uword_range m d a : 0 ≤ uword m d a < 2 ^ 32.
Proof.
  unfold uword. change (2 ^ 32) with (256 ^ Z.of_nat (length (ubytes m d a 4))). apply of_le_range.
  apply Forall_fmap, Forall_forall. intros k _. cbn. unfold ubyte. destruct (flag_set _ _); cbn; [|lia].
  apply rd8_range.
Qed.

Lemma arg_word_range m n a : arg_word m pr n = Some a → 0 ≤ a < 2 ^ 32.
Proof. unfold arg_word. destruct (_ <=? _); [|done]. intros [= <-]. apply uword_range. Qed.

Lemma argptr_wp s n size Q : in_call s → - 2 ^ 31 ≤ size < 2 ^ 31 →
  (∀ s', same s s' → Q (a ← arg_word (umemory s) pr n; if in_proc pr a size then Some a else None) s') →
  wp (argptr n size) Q s.
Proof using Hkend.
  intros C Hsize HQ. unfold argptr. apply wp_bind, curproc_same; [done|]. intros s1 S1 C1. cbn [snd].
  apply wp_bind, argint_wp; [done|]. intros s2 S2 C2. rewrite (same_memory _ _ S1).
  pose proof (ic_sz _ C) as Hsz. specialize (HQ s2 (same_trans _ _ _ S1 S2)).
  destruct (arg_word (umemory s) pr n) as [a|] eqn:Ea; [|by apply wp_ret]. cbn [fmap option_fmap option_map].
  apply arg_word_range in Ea. rewrite u32_i32, (u32_small a) by done. change (Q (if in_proc pr a size then Some a else None) s2) in HQ. unfold in_proc in HQ. revert HQ.
  destruct (Z.ltb_spec size 0), (Z.leb_spec 0 size); try lia; cbn [orb andb]; [intros; by apply wp_ret|].
  destruct (Z.leb_spec (p_sz pr) a), (Z.ltb_spec a (p_sz pr)); try lia; cbn [orb andb]; [intros; by apply wp_ret|].
  rewrite u32_small by (unfold KERNBASE in *; lia).
  destruct (Z.ltb_spec (p_sz pr) (a + size)), (Z.leb_spec (a + size) (p_sz pr)); try lia; cbn [orb andb]; intros; by apply wp_ret.
Qed.

(** The answer of a search for the string at [a]. *)
Definition string_at (m : memory) (a : Z) (r : option (list Z)) : Prop :=
  match r with Some l => cstring m pr a l | None => ∀ l, ¬ cstring m pr a l end.

Lemma fetchstr_loop_wp s n : in_call s → ∀ a Q,
  0 ≤ a → a + Z.of_nat n = p_sz pr → (∀ r, string_at (umemory s) a r → Q r s) → wp (fetchstr_loop a n) Q s.
Proof using Hkend.
  intros C. pose proof (ic_sz _ C) as Hsz. induction n as [|n IH]; intros a Q Ha Hn HQ; cbn [fetchstr_loop].
  { apply wp_ret, HQ. intros l. apply cstring_end. lia. }
  destruct (ic_mapped _ C a) as [b Hb]; [lia|]. fold (umemory s) in Hb.
  apply wp_bind. eapply wp_run; [apply in_vst_run; by eapply uload8_run, Hb; [|apply C]|].
  destruct (Z.eqb_spec b 0) as [->|Hb0].
  { apply wp_ret, HQ. split_and!; [by apply useen_cons|by apply not_elem_of_nil|cbn; lia]. }
  rewrite u32_small by (unfold KERNBASE in *; lia). apply wp_bind, IH; [lia|lia|].
  intros [l|] Hr; apply wp_ret, HQ; cbn in *.
  - exact (proj2 (cstring_cons _ _ _ _ _ Hb0 Hb) Hr).
  - intros l Hl. destruct (cstring_head _ _ _ _ _ Hb Hl) as [[? _]|[_ [l' ->]]]; [done|].
    apply (cstring_cons _ _ _ _ _ Hb0 Hb) in Hl. exact (Hr _ Hl).
Qed.

Lemma argstr_wp s n Q : in_call s →
  (∀ s' r, same s s' →
     match arg_word (umemory s) pr n with Some a => string_at (umemory s) a r | None => r = None end → Q r s') →
  wp (argstr n) Q s.
Proof using Hkend.
  intros C HQ. unfold argstr. apply wp_bind, argint_wp; [done|]. intros s1 S1 C1.
  destruct (arg_word (umemory s) pr n) as [a|] eqn:Ea; cbn [fmap option_fmap option_map]; [|by apply wp_ret, HQ].
  apply arg_word_range in Ea. rewrite u32_i32, (u32_small a) by done. unfold fetchstr.
  apply wp_bind, curproc_same; [done|]. intros s2 S2 C2. cbn [snd].
  pose proof (same_trans _ _ _ S1 S2) as S02. rewrite <- (same_memory _ _ S02) in HQ.
  destruct (Z.leb_spec (p_sz pr) a) as [Hge|Hlt].
  - apply wp_ret, HQ; [done|]. intros l. by apply cstring_end.
  - apply fetchstr_loop_wp; [done|lia|lia|]. intros r Hr. by apply HQ.
Qed.

(** C24. Arguments of a system call, for every stack pointer, argument number
    and size, wrap-around included: [argint] gives the word the process
    pushed, or fails if that word is not in the process; [argptr] gives a
    pointer exactly if the whole buffer is in the process; [argstr] gives the
    string the process sees there, or fails if no nul ends it inside the
    process.  They always return, change nothing but lock bookkeeping, and
    never take a page fault. *)
Theorem args_checked s n size : in_call s → - 2 ^ 31 ≤ size < 2 ^ 31 →
  let w := arg_word (umemory s) pr n in
  wp (argint n) (λ r s', same s s' ∧ r = i32 <$> w) s ∧
  wp (argptr n size) (λ r s', same s s' ∧ r = a ← w; if in_proc pr a size then Some a else None) s ∧
  wp (argstr n) (λ r s', same s s' ∧ match w with Some a => string_at (umemory s) a r | None => r = None end) s.
Proof using Hkend.
  intros C Hsize w. split; [|split].
  - by apply argint_wp.
  - by apply argptr_wp.
  - by apply argstr_wp.
Qed.
End sysarg.

(** A process of two zero pages whose stack pointer is at 0x1000: all its
    arguments are 0, the empty string and buffers at 0. *)
Definition caller : proc :=
  Proc 0x2000 dm_dir dm_own RUNNING 1 None (Tf 0 0 0 0 0 0 0 0 0 0 0 0 0 0 0 0 0 0x1000 0) (Ctx 0 0 0 0 AtForkret) None false
    (replicate 16 None) None [].
Definition call_sys : sys :=
  Sys (Pst (Vst (set_mach run_mach dm_k3) (V2P dm_dir) dm_dir) [caller] (Some 0%nat) 2) FsWrite.img_start [] ∅ 0 demo_cons.

Lemma call_ready : in_call dm_end 0 0 caller dm_pool [dm_dir] (hold dm_own (λ _, 0)) call_sys.
Proof.
  assert (calm call_sys 0 0 caller) as C by (split; [split; [apply run_cpu|done..]|done..]).
  split; [exact C|split| |].
  - by eapply vinv_mach, dm_inv3.
  - apply kpos_hold. intros v. lia.
  - eapply calm_ready, C.
  - by left.
  - reflexivity.
  - vm_compute. congruence.
  - intros va Hva. apply ubyte_present, dm_mapped3. unfold in_pages.
    change (p_sz caller) with 0x2000 in Hva. unfold PGSIZE. Z.div_mod_to_equations. lia.
Qed.

Lemma args_checked_witness :
  wp (argptr 1 0x2001) (λ r _, r = None) call_sys ∧ wp (argstr 1) (λ r _, r = Some []) call_sys.
Proof.
  destruct (args_checked dm_end dm_end_ok 0 0 caller dm_pool [dm_dir] (hold dm_own (λ _, 0)) call_sys 1 0x2001
    call_ready ltac:(lia)) as (_ & H1 & H2).
  assert (arg_word (umemory call_sys) caller 1 = Some 0) as Ea by (vm_compute; reflexivity).
  rewrite Ea in H1, H2. split.
  - eapply wp_mono; [exact H1|]. intros r s' [_ ->]. vm_compute. reflexivity.
  - eapply wp_mono; [exact H2|]. intros r s' [_ Hr].
    assert (cstring (umemory call_sys) caller 0 []) as H0.
    { split; [|split; [apply not_elem_of_nil|vm_compute; reflexivity]].
      intros [|[|k]] b [= <-]. vm_compute. reflexivity. }
    destruct r as [l|]; [|by destruct (Hr [])].
    assert (ubyte (umemory call_sys) dm_dir 0 = Some 0) as Hb by (vm_compute; reflexivity).
    destruct (cstring_head _ caller _ _ _ Hb Hr) as [[_ ->]|[[] _]]; reflexivity.
Defined.
