(* ===== verification/Exec.v ===== *)
(** exec.c, with [loaduvm] of vm.c: loading an ELF program into a new address
    space and switching the process to it. *)

From S2P Require Import Prelude Memory Kstring Spinlock Mmu Kalloc Vm Proc Block Ide Bio Log Fs Kern Umem Sysarg.
From S2P Require Import Pipe Filetab Procs.

(** ** ELF headers (elf.h) *)

Definition ELF_MAGIC : Z := 0x464C457F.
Definition ELF_PROG_LOAD : Z := 1.

(** The fields exec reads. *)
Record elfhdr := Elfhdr { eh_magic : Z; eh_entry : Z; eh_phoff : Z; eh_phnum : Z }.
Record proghdr := Proghdr { ph_type : Z; ph_off : Z; ph_vaddr : Z; ph_filesz : Z; ph_memsz : Z }.

Definition load_elfhdr (x : list Z) : elfhdr :=
  Elfhdr (get32 x 0) (get32 x 24) (get32 x 28) (get16 x 44).
Definition load_proghdr (x : list Z) : proghdr :=
  Proghdr (get32 x 0) (get32 x 4) (get32 x 8) (get32 x 16) (get32 x 20).

Definition sizeof_elfhdr : Z := 52.
Definition sizeof_proghdr : Z := 32.

Definition set_eip_esp (eip esp : Z) (t : trapframe) : trapframe :=
  Tf (tf_edi t) (tf_esi t) (tf_ebp t) (tf_oesp t) (tf_ebx t) (tf_edx t) (tf_ecx t) (tf_eax t)
    (tf_gs t) (tf_fs t) (tf_es t) (tf_ds t) (tf_trapno t) (tf_err t)
    eip (tf_cs t) (tf_eflags t) esp (tf_ss t).

Section exec.
Context (kend data : Z) (iderw : nat → M bst ()).
Context (dev_read : Z → option (nat → Z → M fsst (Z * list Z))).

(** *** loaduvm *)

Fixpoint loaduvm_loop (pgdir addr : Z) (ip : nat) (offset i sz : Z) (fuel : nat) : M sys Z :=
  if negb (i <? sz) then mret 0 else
  match fuel with
  | O => fault "loaduvm fuel"
  | S fuel' =>
      pte ← in_kst (walkpgdir pgdir (u32 (addr + i)) false);
      if pte =? 0 then panic "loaduvm: address should exist" else
      e ← in_kst (load32 pte);
      let pa := PTE_ADDR e in
      let n := if u32 (sz - i) <? PGSIZE then u32 (sz - i) else PGSIZE in
      r ← in_fs (readi iderw dev_read ip (u32 (offset + i)) n);
      in_kst (mod_mem (λ m, wr_bytes m (P2V pa) r.2));;
      if negb (r.1 =? n) then mret (-1)
      else loaduvm_loop pgdir addr ip offset (u32 (i + PGSIZE)) sz fuel'
  end.

Definition loaduvm (pgdir addr : Z) (ip : nat) (offset sz : Z) : M sys Z :=
  if negb (addr mod PGSIZE =? 0) then panic "loaduvm: addr must be page aligned" else
  loaduvm_loop pgdir addr ip offset 0 sz (Z.to_nat (sz / PGSIZE + 1)).

(** *** exec *)

(** [bad]: the new page table is freed, the inode released. *)
Definition exec_bad (pgdir : Z) (ip : option nat) : M sys Z :=
  (if pgdir =? 0 then mret tt else in_kst (freevm kend pgdir));;
  match ip with
  | Some ip => in_fs (iunlockput iderw ip);; in_fs (in_l (end_op iderw));; mret (-1)
  | None => mret (-1)
  end.

(** One program header: the new size, or [None] for [goto bad]. *)
Definition load_segment (ip : nat) (pgdir off sz : Z) : M sys (option Z) :=
  r ← in_fs (readi iderw dev_read ip (u32 off) sizeof_proghdr);
  if negb (r.1 =? sizeof_proghdr) then mret None else
  let ph := load_proghdr r.2 in
  if negb (ph_type ph =? ELF_PROG_LOAD) then mret (Some sz) else
  if ph_memsz ph <? ph_filesz ph then mret None else
  if u32 (ph_vaddr ph + ph_memsz ph) <? ph_vaddr ph then mret None else
  sz ← in_kst (allocuvm kend pgdir sz (u32 (ph_vaddr ph + ph_memsz ph)));
  if sz =? 0 then mret None else
  if negb (ph_vaddr ph mod PGSIZE =? 0) then mret None else
  l ← loaduvm pgdir (ph_vaddr ph) ip (ph_off ph) (ph_filesz ph);
  if l <? 0 then mret None else mret (Some sz).

Fixpoint load_segments (ip : nat) (pgdir off sz : Z) (phnum : nat) : M sys (option Z) :=
  match phnum with
  | O => mret (Some sz)
  | S n =>
    r ← load_segment ip pgdir off sz;
    match r with
    | None => mret None
    | Some sz => load_segments ip pgdir (i32 (off + sizeof_proghdr)) sz n
    end
  end.

(** The argument strings, pushed from [sp] down; the result is the new [sp]
    and the pointers of [ustack] from index 3 on. *)
Fixpoint push_args (pgdir sp : Z) (argv : list (list Z)) (argc : nat) : M sys (option (Z * list Z)) :=
  match argv with
  | [] => mret (Some (sp, []))
  | a :: argv' =>
    if (MAXARG <=? argc)%nat then mret None else
    let sp := Z.land (u32 (sp - (Z.of_nat (length a) + 1))) (Z.lnot 3) in
    r ← in_kst (copyout pgdir sp (a ++ [0]));
    if r <? 0 then mret None else
    x ← push_args pgdir sp argv' (S argc);
    mret (match x with Some (sp', ps) => Some (sp', sp :: ps) | None => None end)
  end.

(** The last component of the path. *)
Fixpoint last_elem (last s : list Z) : list Z :=
  match s with
  | [] => last
  | c :: s' => last_elem (if c =? slash then s' else last) s'
  end.

(** From the allocation of the stack on; [None] is [goto bad]. *)
Definition build_stack (pgdir sz : Z) (argv : list (list Z)) : M sys (option (Z * Z)) :=
  let sz := PGROUNDUP sz in
  sz ← in_kst (allocuvm kend pgdir sz (u32 (sz + 2 * PGSIZE)));
  if sz =? 0 then mret None else
  in_kst (clearpteu pgdir (u32 (sz - 2 * PGSIZE)));;
  a ← push_args pgdir sz argv 0;
  match a with
  | None => mret None
  | Some (sp, ps) =>
    let argc := Z.of_nat (length argv) in
    let ustack := [0xffffffff; argc; u32 (sp - (argc + 1) * 4)] ++ ps ++ [0] in
    let sp := u32 (sp - (3 + argc + 1) * 4) in
    r ← in_kst (copyout pgdir sp (mjoin (to_le 4 <$> ustack)));
    if r <? 0 then mret None else mret (Some (sz, sp))
  end.

(** The old address space is dropped only when the new one is complete. *)
Definition exec_commit (path : list Z) (pgdir sz sp entry : Z) : M sys Z :=
  c ← curproc;
  let p := set_tf (set_eip_esp entry sp (p_tf c.2))
             (set_sz sz (set_pgdir pgdir (set_name (proc_name (last_elem path path)) c.2))) in
  mod_slot c.1 (λ _, p);;
  in_p (switchuvm p);;
  in_kst (freevm kend (p_pgdir c.2));;
  mret 0.

Definition exec_image (path : list Z) (ip : nat) (argv : list (list Z)) : M sys Z :=
  r ← in_fs (readi iderw dev_read ip 0 sizeof_elfhdr);
  if negb (r.1 =? sizeof_elfhdr) then exec_bad 0 (Some ip) else
  let elf := load_elfhdr r.2 in
  if negb (eh_magic elf =? ELF_MAGIC) then exec_bad 0 (Some ip) else
  pgdir ← in_kst (setupkvm kend data);
  if pgdir =? 0 then exec_bad 0 (Some ip) else
  s ← load_segments ip pgdir (i32 (eh_phoff elf)) 0 (Z.to_nat (eh_phnum elf));
  match s with
  | None => exec_bad pgdir (Some ip)
  | Some sz =>
    in_fs (iunlockput iderw ip);;
    in_fs (in_l (end_op iderw));;
    st ← build_stack pgdir sz argv;
    match st with
    | None => exec_bad pgdir None
    | Some (sz, sp) => exec_commit path pgdir sz sp (eh_entry elf)
    end
  end.

(** [argv] are the strings of the array, up to its null. *)
Definition exec (path : list Z) (argv : list (list Z)) : M sys Z :=
  in_fs (in_l begin_op);;
  ip ← in_fs (namei iderw dev_read path);
  match ip with
  | None => in_fs (in_l (end_op iderw));; mret (-1)
  | Some ip => in_fs (ilock iderw ip);; exec_image path ip argv
  end.
End exec.
