(* ===== verification/Sysfile.v ===== *)
(** The file-system calls (sysfile.c). *)

From S2P Require Import Prelude Memory Kstring Spinlock Mmu Kalloc Vm Proc Block Ide Bio Log Fs Fsops Kern Umem.
From S2P Require Import Sysarg Pipe Filetab Procs Exec.

(** ** Results *)

(** What a call that sleeps will go on with. *)
Inductive pending :=
| PendRead (p n buf : Z)                  (** [piperead] into the user buffer *)
| PendWrite (p n : Z) (rest : list Z)     (** [pipewrite] *)
| PendWait
| PendTicks (ticks0 n : Z).               (** [sys_sleep] *)

(** A system call returns, sleeps, or was exit. *)
Inductive sys_res := SRet (r : Z) | SSleep (k : pending) (intena : bool) | SExit.


(** ** File descriptors *)

Definition argfd (n : Z) : M sys (option (nat * nat)) :=
  fd ← argint n;
  match fd with
  | None => mret None
  | Some fd =>
    if (fd <? 0) || (Z.of_nat NOFILE <=? fd) then mret None else
    c ← curproc;
    match p_ofile c.2 !! Z.to_nat fd with
    | Some (Some f) => mret (Some (Z.to_nat fd, f))
    | _ => mret None
    end
  end.

(** The first free descriptor. *)
Fixpoint find_fd (l : list (option nat)) (fd : nat) : option nat :=
  match l with
  | [] => None
  | None :: _ => Some fd
  | Some _ :: l' => find_fd l' (S fd)
  end.

Definition set_fd (i : nat) (fd : nat) (f : option nat) : M sys () :=
  mod_slot i (λ p, set_ofile (<[fd := f]> (p_ofile p)) p).

Definition fdalloc (f : nat) : M sys (option nat) :=
  c ← curproc;
  match find_fd (p_ofile c.2) 0 with
  | Some fd => set_fd c.1 fd (Some f);; mret (Some fd)
  | None => mret None
  end.

Section sysfile.
Context (kend data : Z) (iderw : nat → M bst ()).
Context (dev_read : Z → option (nat → Z → M fsst (Z * list Z))).
Context (dev_write : Z → option (nat → list Z → M fsst Z)).

Definition sys_dup : M sys Z :=
  a ← argfd 0;
  match a with
  | None => mret (-1)
  | Some (_, f) =>
    fd ← fdalloc f;
    match fd with
    | None => mret (-1)
    | Some fd => filedup f;; mret (Z.of_nat fd)
    end
  end.

Definition sys_read : M sys sys_res :=
  a ← argfd 0;
  match a with None => mret (SRet (-1)) | Some (_, f) =>
  n ← argint 2;
  match n with None => mret (SRet (-1)) | Some n =>
  p ← argptr 1 n;
  match p with None => mret (SRet (-1)) | Some p =>
  r ← fileread iderw dev_read f n;
  match r with
  | PRet r l => in_vst (ustore p l);; mret (SRet r)
  | PSleep _ intena => x ← get_file f; mret (SSleep (PendRead (fl_pipe x) n p) intena)
  end end end end.

Definition sys_write : M sys sys_res :=
  a ← argfd 0;
  match a with None => mret (SRet (-1)) | Some (_, f) =>
  n ← argint 2;
  match n with None => mret (SRet (-1)) | Some n =>
  p ← argptr 1 n;
  match p with None => mret (SRet (-1)) | Some p =>
  src ← in_vst (uload p (Z.to_nat n));
  r ← filewrite iderw dev_write f src;
  match r with
  | PRet r _ => mret (SRet r)
  | PSleep rest intena => x ← get_file f; mret (SSleep (PendWrite (fl_pipe x) n rest) intena)
  end end end end.

Definition sys_close : M sys Z :=
  a ← argfd 0;
  match a with
  | None => mret (-1)
  | Some (fd, f) =>
    c ← curproc;
    set_fd c.1 fd None;;
    fileclose kend iderw f;;
    mret 0
  end.

(** [struct stat] in user memory: the padding is not written. *)
Definition store_stat (p : Z) (st : stat) : M vst () :=
  ustore p (to_le 2 (u16 (st_type st)));;
  ustore (u32 (p + 4)) (to_le 4 (u32 (st_dev st)));;
  ustore (u32 (p + 8)) (to_le 4 (st_ino st));;
  ustore (u32 (p + 12)) (to_le 2 (u16 (st_nlink st)));;
  ustore (u32 (p + 16)) (to_le 4 (st_size st)).

Definition sys_fstat : M sys Z :=
  a ← argfd 0;
  match a with None => mret (-1) | Some (_, f) =>
  p ← argptr 1 20;
  match p with None => mret (-1) | Some p =>
  r ← filestat iderw f;
  match r.2 with
  | Some st => in_vst (store_stat p st);; mret r.1
  | None => mret r.1
  end end end.
Definition sys_link : M sys Z :=
  old ← argstr 0;
  match old with None => mret (-1) | Some old =>
  new ← argstr 1;
  match new with None => mret (-1) | Some new =>
  in_fs (link_op iderw dev_read dev_write old new)
  end end.

Definition sys_unlink : M sys Z :=
  path ← argstr 0;
  match path with
  | None => mret (-1)
  | Some path => in_fs (unlink_op iderw dev_read dev_write path)
  end.

(** [f] is now the open file of [ip]. *)
Definition open_file (omode : Z) (ip : nat) (x : file) : file :=
  let wronly := negb (Z.land omode O_WRONLY =? 0) in
  File FD_INODE (fl_ref x) (negb wronly) (wronly || negb (Z.land omode O_RDWR =? 0)) (fl_pipe x) ip 0.

(** The error exit after [filealloc]. *)
Definition open_bad (f : option nat) (ip : nat) : M sys Z :=
  match f with Some f => fileclose kend iderw f | None => mret tt end;;
  in_fs (iunlockput iderw ip);;
  in_fs (tx_end iderw);;
  mret (-1).

Definition sys_open : M sys Z :=
  path ← argstr 0;
  match path with None => mret (-1) | Some path =>
  omode ← argint 1;
  match omode with None => mret (-1) | Some omode =>
  in_fs tx_begin;;
  ip ← in_fs (open_inode iderw dev_read dev_write path
                (negb (Z.land omode O_CREATE =? 0)) (omode =? O_RDONLY));
  match ip with None => mret (-1) | Some ip =>
  f ← filealloc;
  match f with None => open_bad None ip | Some f =>
  fd ← fdalloc f;
  match fd with None => open_bad (Some f) ip | Some fd =>
  in_fs (iunlock ip);;
  in_fs (tx_end iderw);;
  mod_file f (open_file omode ip);;
  mret (Z.of_nat fd)
  end end end end end.

Definition sys_mkdir : M sys Z :=
  in_fs tx_begin;;
  path ← argstr 0;
  match path with
  | None => in_fs (tx_end iderw);; mret (-1)
  | Some path => in_fs (mknod_op iderw dev_read dev_write path T_DIR 0 0)
  end.

(** [major] and [minor] become shorts. *)
Definition sys_mknod : M sys Z :=
  let bad : M sys Z := in_fs (tx_end iderw);; mret (-1) in
  in_fs tx_begin;;
  path ← argstr 0;
  match path with None => bad | Some path =>
  major ← argint 1;
  match major with None => bad | Some major =>
  minor ← argint 2;
  match minor with None => bad | Some minor =>
  in_fs (mknod_op iderw dev_read dev_write path T_DEV (i16 major) (i16 minor))
  end end end.

Definition sys_chdir : M sys Z :=
  c ← curproc;
  in_fs tx_begin;;
  path ← argstr 0;
  match path with
  | None => in_fs (tx_end iderw);; mret (-1)
  | Some path =>
    match p_cwd c.2 with
    | None => fault "chdir: no directory"
    | Some cwd =>
      ip ← in_fs (chdir_op iderw dev_read path cwd);
      match ip with
      | None => mret (-1)
      | Some ip => mod_slot c.1 (set_cwd (Some ip));; mret 0
      end
    end
  end.

(** The argument vector at [uargv], from index [i] on. *)
Fixpoint fetch_argv (uargv : Z) (i : Z) (n : nat) : M sys (option (list (list Z))) :=
  match n with
  | O => mret None
  | S n' =>
    uarg ← fetchint (u32 (uargv + 4 * i));
    match uarg with
    | None => mret None
    | Some uarg =>
      if uarg =? 0 then mret (Some []) else
      a ← fetchstr (u32 uarg);
      match a with
      | None => mret None
      | Some a =>
        r ← fetch_argv uargv (i + 1) n';
        mret (match r with Some l => Some (a :: l) | None => None end)
      end
    end
  end.

Definition sys_exec : M sys Z :=
  path ← argstr 0;
  match path with None => mret (-1) | Some path =>
  uargv ← argint 1;
  match uargv with None => mret (-1) | Some uargv =>
  argv ← fetch_argv (u32 uargv) 0 MAXARG;
  match argv with None => mret (-1) | Some argv =>
  exec kend data iderw dev_read path argv
  end end end.

(** The error exit of sys_pipe; [fd0] has been allocated or not. *)
Definition pipe_bad (i : nat) (fd0 : option nat) (rf wf : nat) : M sys Z :=
  match fd0 with Some fd => set_fd i fd None | None => mret tt end;;
  fileclose kend iderw rf;;
  fileclose kend iderw wf;;
  mret (-1).

Definition sys_pipe : M sys Z :=
  fd ← argptr 0 8;
  match fd with None => mret (-1) | Some fd =>
  a ← pipealloc kend iderw;
  match a with None => mret (-1) | Some (rf, wf) =>
  c ← curproc;
  fd0 ← fdalloc rf;
  match fd0 with None => pipe_bad c.1 None rf wf | Some fd0 =>
  fd1 ← fdalloc wf;
  match fd1 with None => pipe_bad c.1 (Some fd0) rf wf | Some fd1 =>
  in_vst (ustore32 fd (Z.of_nat fd0));;
  in_vst (ustore32 (u32 (fd + 4)) (Z.of_nat fd1));;
  mret 0
  end end end end.
End sysfile.
