(* ===== verification/Syscall.v ===== *)
(** The process calls (sysproc.c), the dispatch of system calls (syscall.c)
    and of traps (trap.c).

    A call that sleeps is taken up by [resume] when the process runs again. *)

From S2P Require Import Prelude Memory Kstring Spinlock Mmu Kalloc Vm Proc Block Ide Bio Log Fs Fsops Kern Umem.
From S2P Require Import Sysarg Pipe Filetab Procs Exec Sysfile.

(** ** sysproc.c *)

Section sysproc.
Context (kend data : Z) (iderw : nat → M bst ()).

Definition sys_fork : M sys Z := fork kend data.

Definition sys_exit : M sys sys_res := exit kend iderw;; mret SExit.

Definition wait_result (r : wait_res) : sys_res :=
  match r with
  | WaitRet r => SRet r
  | WaitSleep intena => SSleep PendWait intena
  end.

Definition sys_wait : M sys sys_res := r ← wait kend; mret (wait_result r).

Definition sys_kill : M sys Z :=
  pid ← argint 0;
  match pid with
  | None => mret (-1)
  | Some pid => in_p (kill pid)
  end.

Definition sys_getpid : M sys Z := c ← curproc; mret (p_pid c.2).

Definition sys_sbrk : M sys Z :=
  n ← argint 0;
  match n with
  | None => mret (-1)
  | Some n =>
    c ← curproc;
    r ← growproc kend n;
    if r <? 0 then mret (-1) else mret (i32 (p_sz c.2))
  end.

(** One test of the loop of sys_sleep, with [tickslock] held.  [ticks - ticks0]
    is unsigned, so [n] is compared as an unsigned number. *)
Definition sleep_iter (ticks0 n : Z) : M sys sys_res :=
  t ← gets s_ticks;
  if u32 (t - ticks0) <? u32 n then
    k ← is_killed;
    if (k : bool) then unlock LkTicks;; mret (SRet (-1)) else
    intena ← in_p (sleep_enter ChTicks LkTicks);
    mret (SSleep (PendTicks ticks0 n) intena)
  else unlock LkTicks;; mret (SRet 0).

Definition sys_sleep : M sys sys_res :=
  n ← argint 0;
  match n with
  | None => mret (SRet (-1))
  | Some n =>
    lock LkTicks;;
    ticks0 ← gets s_ticks;
    sleep_iter ticks0 n
  end.

Definition sys_uptime : M sys Z :=
  lock LkTicks;;
  t ← gets s_ticks;
  unlock LkTicks;;
  mret (i32 t).

Definition sys_countfp : M sys Z := in_kst countfp.
Definition sys_countvp : M sys Z := c ← curproc; mret (countvp (p_sz c.2)).
Definition sys_countpp : M sys Z := c ← curproc; in_kst (countpp (p_pgdir c.2) (p_sz c.2)).
Definition sys_countptp : M sys Z := c ← curproc; in_kst (countptp (p_pgdir c.2)).
End sysproc.

(** ** syscall.c *)

(** syscall.h. *)
Inductive sysno :=
| SYS_fork | SYS_exit | SYS_wait | SYS_pipe | SYS_read | SYS_kill | SYS_exec | SYS_fstat | SYS_chdir
| SYS_dup | SYS_getpid | SYS_sbrk | SYS_sleep | SYS_uptime | SYS_open | SYS_write | SYS_mknod
| SYS_unlink | SYS_link | SYS_mkdir | SYS_close | SYS_countfp | SYS_countvp | SYS_countpp | SYS_countptp.

Definition sysnos : list sysno :=
  [SYS_fork; SYS_exit; SYS_wait; SYS_pipe; SYS_read; SYS_kill; SYS_exec; SYS_fstat; SYS_chdir;
   SYS_dup; SYS_getpid; SYS_sbrk; SYS_sleep; SYS_uptime; SYS_open; SYS_write; SYS_mknod;
   SYS_unlink; SYS_link; SYS_mkdir; SYS_close; SYS_countfp; SYS_countvp; SYS_countpp; SYS_countptp].

(** [num > 0 && num < NELEM(syscalls) && syscalls[num]] *)
Definition sysno_of (num : Z) : option sysno :=
  if (0 <? num) && (num <? 26) then sysnos !! Z.to_nat (num - 1) else None.

Section syscall.
Context (kend data : Z) (iderw : nat → M bst ()).
Context (dev_read : Z → option (nat → Z → M fsst (Z * list Z))).
Context (dev_write : Z → option (nat → list Z → M fsst Z)).

Definition returns (m : M sys Z) : M sys sys_res := r ← m; mret (SRet r).

Definition syscalls (n : sysno) : M sys sys_res :=
  match n with
  | SYS_fork => returns (sys_fork kend data)
  | SYS_exit => sys_exit kend iderw
  | SYS_wait => sys_wait kend
  | SYS_pipe => returns (sys_pipe kend iderw)
  | SYS_read => sys_read iderw dev_read
  | SYS_kill => returns sys_kill
  | SYS_exec => returns (sys_exec kend data iderw dev_read)
  | SYS_fstat => returns (sys_fstat iderw)
  | SYS_chdir => returns (sys_chdir iderw dev_read)
  | SYS_dup => returns sys_dup
  | SYS_getpid => returns sys_getpid
  | SYS_sbrk => returns (sys_sbrk kend)
  | SYS_sleep => sys_sleep
  | SYS_uptime => returns sys_uptime
  | SYS_open => returns (sys_open kend iderw dev_read dev_write)
  | SYS_write => sys_write iderw dev_write
  | SYS_mknod => returns (sys_mknod iderw dev_read dev_write)
  | SYS_unlink => returns (sys_unlink iderw dev_read dev_write)
  | SYS_link => returns (sys_link iderw dev_read dev_write)
  | SYS_mkdir => returns (sys_mkdir iderw dev_read dev_write)
  | SYS_close => returns (sys_close kend iderw)
  | SYS_countfp => returns sys_countfp
  | SYS_countvp => returns sys_countvp
  | SYS_countpp => returns sys_countpp
  | SYS_countptp => returns sys_countptp
  end.

(** The result goes to %eax of the process [i] that made the call. *)
Definition finish_syscall (i : nat) (r : sys_res) : M sys sys_res :=
  match r with
  | SRet v => mod_slot i (λ p, set_tf (set_eax (u32 v) (p_tf p)) p);; mret r
  | _ => mret r
  end.

Definition syscall : M sys sys_res :=
  c ← curproc;
  r ← (match sysno_of (i32 (tf_eax (p_tf c.2))) with
       | Some n => syscalls n
       | None => mret (SRet (-1))
       end);
  finish_syscall c.1 r.

(** The process [i] goes on with the call it slept in. *)
Definition resume_call (i : nat) (k : pending) (intena : bool) : M sys sys_res :=
  match k with
  | PendRead p n buf =>
    r ← piperead_resume i p n intena;
    match r with
    | PRet r l => in_vst (ustore buf l);; mret (SRet r)
    | PSleep _ intena => mret (SSleep (PendRead p n buf) intena)
    end
  | PendWrite p n rest =>
    r ← pipewrite_resume i p n rest intena;
    match r with
    | PRet r _ => mret (SRet r)
    | PSleep rest intena => mret (SSleep (PendWrite p n rest) intena)
    end
  | PendWait => r ← wait_resume kend i intena; mret (wait_result r)
  | PendTicks ticks0 n => in_p (sleep_exit i LkTicks intena);; sleep_iter ticks0 n
  end.

Definition resume (i : nat) (k : pending) (intena : bool) : M sys sys_res :=
  r ← resume_call i k intena;
  finish_syscall i r.
End syscall.
