(* ===== verification/Trap.v ===== *)
(** Traps (trap.c, traps.h): system calls, device interrupts, the page fault
    that copies a shared page, and the preemption of a process on the clock
    tick.  A process that sleeps or yields goes on at [trap_resume] or
    [trap_yielded].  Messages are not modelled; [lapiceoi] touches the
    interrupt controller only. *)

From S2P Require Import Prelude Memory Kstring Spinlock Mmu Kalloc Vm Proc Block Ide Bio Log Fs Fsops Cons Kern Umem.
From S2P Require Import Sysarg Pipe Filetab Procs Console Exec Sysfile Syscall.

Definition T_PGFLT : Z := 14.
Definition T_SYSCALL : Z := 64.
Definition T_IRQ0 : Z := 32.
Definition IRQ_TIMER : Z := 0.
Definition IRQ_KBD : Z := 1.
Definition IRQ_COM1 : Z := 4.
Definition IRQ_IDE : Z := 14.
Definition IRQ_SPURIOUS : Z := 31.

(** How the handler ends: it returns to the interrupted code, the process
    sleeps in a call, gives up the CPU, or has exited. *)
Inductive trap_res := TReturn | TSleep (k : pending) (intena : bool) | TYield (intena : bool) | TExit.

Section trap.
Context (kend data : Z) (iderw : nat → M bst ()) (callers : proc → list Z).
Context (dev_read : Z → option (nat → Z → M fsst (Z * list Z))).
Context (dev_write : Z → option (nat → list Z → M fsst Z)).

Definition exits : M sys trap_res := exit kend iderw;; mret TExit.

(** *** System calls *)

(** The check after [syscall()]. *)
Definition trap_syscall_end (r : sys_res) : M sys trap_res :=
  match r with
  | SRet _ => c ← curproc; if p_killed c.2 then exits else mret TReturn
  | SSleep k intena => mret (TSleep k intena)
  | SExit => mret TExit
  end.

Definition trap_syscall (tf : trapframe) : M sys trap_res :=
  c ← curproc;
  if p_killed c.2 then exits else
  mod_slot c.1 (set_tf tf);;
  r ← syscall kend data iderw dev_read dev_write;
  trap_syscall_end r.

(** The process [i] goes on with its call. *)
Definition trap_resume (i : nat) (k : pending) (intena : bool) : M sys trap_res :=
  r ← resume kend i k intena;
  trap_syscall_end r.

(** *** Interrupts *)

Definition timer_intr : M sys () :=
  i ← in_p (on_mach cpuid);
  if bool_decide (i = 0%nat) then
    lock LkTicks;;
    modify (λ s, set_ticks (u32 (s_ticks s + 1)) s);;
    in_p (wakeup ChTicks);;
    unlock LkTicks
  else mret tt.

(** [ideintr] with its wakeup of the process that waits for the buffer;
    [ok] is the status of the disk. *)
Definition ide_intr (ok : bool) : M sys () :=
  q ← gets (λ s, idequeue (l_b (f_l (s_f s))));
  zoom s_f set_sf (in_l (in_b (ideintr ok)));;
  match q with
  | [] => mret tt
  | i :: _ => in_p (wakeup (ChBuf i))
  end.

(** The end of [trap]: exit if killed, yield on the clock tick. *)
Definition user_mode (tf : trapframe) : bool := Z.land (tf_cs tf) 3 =? DPL_USER.

Definition exit_if_killed (tf : trapframe) (k : M sys trap_res) : M sys trap_res :=
  i ← in_p myproc;
  match i with
  | None => k
  | Some i => p ← slot_of i; if p_killed p && user_mode tf then exits else k
  end.

Definition trap_end (tf : trapframe) : M sys trap_res :=
  exit_if_killed tf (
    i ← in_p myproc;
    match i with
    | None => mret TReturn
    | Some i =>
      p ← slot_of i;
      if bool_decide (p_state p = RUNNING) && (tf_trapno tf =? T_IRQ0 + IRQ_TIMER)
      then intena ← in_p yield_enter; mret (TYield intena)
      else exit_if_killed tf (mret TReturn)
    end).

(** After the yield. *)
Definition trap_yielded (tf : trapframe) (intena : bool) : M sys trap_res :=
  in_p (yield_exit intena);;
  exit_if_killed tf (mret TReturn).

(** The default case: a fault of the kernel, or of a process. *)
Definition bad_trap (tf : trapframe) : M sys () :=
  i ← in_p myproc;
  match i with
  | None => panic "trap"
  | Some i =>
    if Z.land (tf_cs tf) 3 =? 0 then panic "trap" else mod_slot i (set_killed true)
  end.

(** [cr2] is the faulting address, [ok] the status of the disk, [keys] what
    the keyboard or serial port delivers. *)
Definition trap (tf : trapframe) (cr2 : Z) (ok : bool) (keys : list Z) : M sys trap_res :=
  let t := tf_trapno tf in
  if t =? T_SYSCALL then trap_syscall tf else
  if t =? T_IRQ0 + IRQ_TIMER then timer_intr;; trap_end tf else
  if t =? T_IRQ0 + IRQ_IDE then ide_intr ok;; trap_end tf else
  if t =? T_IRQ0 + IRQ_IDE + 1 then trap_end tf else
  if (t =? T_IRQ0 + IRQ_KBD) || (t =? T_IRQ0 + IRQ_COM1) then consoleintr callers keys;; trap_end tf else
  if (t =? T_IRQ0 + 7) || (t =? T_IRQ0 + IRQ_SPURIOUS) then trap_end tf else
  if t =? T_PGFLT then
    c ← curproc;
    r ← in_vst (CoW_handler (p_pgdir c.2) cr2);
    match r with
    | CowDone => trap_end tf
    | CowExit => exits
    end
  else bad_trap tf;; trap_end tf.
End trap.
