(* ===== verification/Boot.v ===== *)
(** The boot loader (bootmain.c): reading the kernel's ELF image from the
    disk, sector by sector, to the addresses its program headers name.
    Memory is physical memory; the drive and the times at which it is ready
    are parameters. *)

From S2P Require Import Prelude Memory Kstring Mmu Block Ide Exec.

Definition SECTSIZE : Z := 512.

(** Memory, the command in the registers of the controller, and the number
    of times its status was read. *)
Record bootst := Bootst { bt_mem : memory; bt_cmd : ide_cmd; bt_polls : nat }.

Definition set_bmem (m : memory) (s : bootst) : bootst := Bootst m (bt_cmd s) (bt_polls s).
Definition set_bcmd (c : ide_cmd) (s : bootst) : bootst := Bootst (bt_mem s) c (bt_polls s).
Definition poll (s : bootst) : bootst := Bootst (bt_mem s) (bt_cmd s) (S (bt_polls s)).

(** The fields of [struct elfhdr] and [struct proghdr] in memory. *)
Definition elf_magic (m : memory) (elf : Z) : Z := rd32 m elf.
Definition elf_entry (m : memory) (elf : Z) : Z := rd32 m (elf + 24).
Definition elf_phoff (m : memory) (elf : Z) : Z := rd32 m (elf + 28).
Definition elf_phnum (m : memory) (elf : Z) : Z := rd8 m (elf + 44) + 256 * rd8 m (elf + 45).
Definition proghdr_off (m : memory) (ph : Z) : Z := rd32 m (ph + 4).
Definition proghdr_paddr (m : memory) (ph : Z) : Z := rd32 m (ph + 12).
Definition proghdr_filesz (m : memory) (ph : Z) : Z := rd32 m (ph + 16).
Definition proghdr_memsz (m : memory) (ph : Z) : Z := rd32 m (ph + 20).

(** [insl]: the bytes of the data port go to memory. *)
Fixpoint insl_to (m : memory) (dst : Z) (l : list Z) : memory :=
  match l with [] => m | b :: l' => insl_to (wr8 m dst b) (dst + 1) l' end.

Section boot.
(** The sectors of the drives, and the status the controller returns when
    it is read for the nth time. *)
Context (drive : bkey → list Z) (status : nat → Z).

Fixpoint waitdisk (fuel : nat) : M bootst () :=
  match fuel with
  | O => spin
  | S fuel' =>
    st ← gets (λ s, status (bt_polls s));
    modify poll;;
    if negb (Z.land st 0xC0 =? 0x40) then waitdisk fuel' else mret tt
  end.

Definition boot_command (offset : Z) : ide_cmd :=
  Cmd (u8 offset) (u8 (Z.shiftr offset 8)) (u8 (Z.shiftr offset 16)) (u8 (Z.lor (Z.shiftr offset 24) 0xE0)) None.

Definition readsect (wait : nat) (dst offset : Z) : M bootst () :=
  waitdisk wait;;
  modify (set_bcmd (boot_command offset));;
  waitdisk wait;;
  modify (λ s, set_bmem (insl_to (bt_mem s) dst (drive (cmd_key (bt_cmd s)))) s).

Fixpoint readseg_loop (wait : nat) (pa epa offset : Z) (fuel : nat) : M bootst () :=
  if negb (pa <? epa) then mret tt else
  match fuel with
  | O => spin
  | S fuel' => readsect wait pa offset;; readseg_loop wait (u32 (pa + SECTSIZE)) epa (u32 (offset + 1)) fuel'
  end.

(** Each turn of the loop reads [SECTSIZE] of the [count] bytes. *)
Definition readseg (wait : nat) (pa count offset : Z) : M bootst () :=
  readseg_loop wait (u32 (pa - offset mod SECTSIZE)) (u32 (pa + count)) (offset / SECTSIZE + 1) (Z.to_nat (count / SECTSIZE) + 2).

Fixpoint load_loop (wait : nat) (ph eph : Z) (fuel : nat) : M bootst () :=
  if negb (ph <? eph) then mret tt else
  match fuel with
  | O => spin
  | S fuel' =>
    pa ← gets (λ s, proghdr_paddr (bt_mem s) ph);
    filesz ← gets (λ s, proghdr_filesz (bt_mem s) ph);
    off ← gets (λ s, proghdr_off (bt_mem s) ph);
    readseg wait pa filesz off;;
    filesz ← gets (λ s, proghdr_filesz (bt_mem s) ph);
    memsz ← gets (λ s, proghdr_memsz (bt_mem s) ph);
    when (filesz <? memsz) (modify (λ s, set_bmem (stosb (bt_mem s) (u32 (pa + filesz)) 0 (Z.to_nat (memsz - filesz))) s));;
    load_loop wait (u32 (ph + sizeof_proghdr)) eph fuel'
  end.

(** The scratch space for the headers. *)
Definition ELF : Z := 0x10000.

(** The address that is called in the end, if the image is an ELF file. *)
Definition bootmain (wait : nat) : M bootst (option Z) :=
  readseg wait ELF 4096 0;;
  magic ← gets (λ s, elf_magic (bt_mem s) ELF);
  if negb (magic =? ELF_MAGIC) then mret None else
  phoff ← gets (λ s, elf_phoff (bt_mem s) ELF);
  phnum ← gets (λ s, elf_phnum (bt_mem s) ELF);
  load_loop wait (u32 (ELF + phoff)) (u32 (ELF + phoff + phnum * sizeof_proghdr)) (Z.to_nat phnum);;
  entry ← gets (λ s, elf_entry (bt_mem s) ELF);
  mret (Some entry).

(** ** One sector *)

Lemma insl_to_rd8 m a l x :
  rd8 (insl_to m a l) x = if decide (a ≤ x < a + Z.of_nat (length l)) then u8 (nth (Z.to_nat (x - a)) l 0) else rd8 m x.
Proof.
  revert m a. induction l as [|b l IH]; intros m a; cbn [insl_to length].
  - rewrite decide_False by lia. done.
  - rewrite IH, rd8_wr8. destruct (decide (a = x)) as [->|Hne].
    + rewrite decide_False, decide_True by lia. by rewrite Z.sub_diag.
    + destruct (decide (a + 1 ≤ x < a + 1 + Z.of_nat (length l))).
      * rewrite decide_True by lia. by replace (Z.to_nat (x - a)) with (S (Z.to_nat (x - (a + 1)))) by lia.
      * by rewrite decide_False by lia.
Qed.

(** The registers name the sector of the first drive. *)
Lemma boot_command_key offset : 0 ≤ offset < 2 ^ 28 → cmd_key (boot_command offset) = (0, offset).
Proof.
  intros Ho. unfold cmd_key, boot_command. cbn [r_1f3 r_1f4 r_1f5 r_1f6]. rewrite !Z.shiftr_div_pow2 by lia.
  set (h := offset / 2 ^ 24). assert (0 ≤ h < 16) as Hh.
  { split; [apply Z.div_pos; lia|]. apply Z.div_lt_upper_bound; lia. }
  assert (Z.land (u8 (Z.lor h 0xE0) / 2 ^ 4) 1 = 0 ∧ Z.land (u8 (Z.lor h 0xE0)) 0x0f = h) as [-> ->].
  { clearbody h. assert (h ∈ seqZ 0 16) as Hin by (apply elem_of_seqZ; lia). clear Hh.
    revert h Hin. apply Forall_forall. vm_compute. repeat constructor. }
  f_equal. unfold h, u8. pose proof (Z.div_mod offset (2 ^ 8)).
  rewrite (Z.mod_eq (offset / 2 ^ 8) (2 ^ 8)), (Z.mod_eq (offset / 2 ^ 16) (2 ^ 8)) by lia.
  rewrite !Z.div_div by lia. change (2 ^ 8 * 2 ^ 8) with (2 ^ 16). change (2 ^ 16 * 2 ^ 8) with (2 ^ 24). lia.
Qed.

(** Byte [k] of the image, which starts at sector 1. *)
Definition img (k : Z) : Z := u8 (nth (Z.to_nat (k mod SECTSIZE)) (drive (0, k / SECTSIZE + 1)) 0).
Definition img32 (k : Z) : Z := img k + 2 ^ 8 * img (k + 1) + 2 ^ 16 * img (k + 2) + 2 ^ 24 * img (k + 3).

(** From [m] to [m'] the addresses from [a] to [e] got the bytes of the
    image from [k] on, and nothing else changed. *)
Definition copied (m m' : memory) (a e k : Z) : Prop :=
  ∀ x, rd8 m' x = if decide (a ≤ x < e) then img (k + (x - a)) else rd8 m x.

(** Sectors are whole, and the drive is ready before [wait] polls. *)
Context (Hdrive : ∀ k, length (drive k) = Z.to_nat SECTSIZE).
Context (wait : nat) (Hready : ∀ n, ∃ k, (k < wait)%nat ∧ Z.land (status (n + k)) 0xC0 = 0x40).

Lemma waitdisk_from k fuel s (Q : () → bootst → Prop) :
  (k < fuel)%nat → Z.land (status (bt_polls s + k)) 0xC0 = 0x40 →
  (∀ s', bt_mem s' = bt_mem s → bt_cmd s' = bt_cmd s → Q tt s') → wp (waitdisk fuel) Q s.
Proof using Type.
  revert k s. induction fuel as [|fuel IH]; intros k s Hk Hs HQ; [lia|]. cbn [waitdisk].
  apply wp_bind, wp_gets. apply wp_bind, wp_modify. destruct (Z.eqb_spec (Z.land (status (bt_polls s)) 0xC0) 0x40) as [E|E]; cbn [negb].
  - by apply wp_ret, HQ.
  - destruct k as [|k]; [by rewrite Nat.add_0_r in Hs|]. apply (IH k); [lia| |done]. cbn [poll bt_polls].
    by replace (S (bt_polls s) + k)%nat with (bt_polls s + S k)%nat by lia.
Qed.

Lemma waitdisk_wp s (Q : () → bootst → Prop) :
  (∀ s', bt_mem s' = bt_mem s → bt_cmd s' = bt_cmd s → Q tt s') → wp (waitdisk wait) Q s.
Proof using Hready. destruct (Hready (bt_polls s)) as (k & Hk & E). by apply (waitdisk_from k). Qed.

Lemma readsect_wp dst offset s (Q : () → bootst → Prop) :
  1 ≤ offset < 2 ^ 28 →
  (∀ s', copied (bt_mem s) (bt_mem s') dst (dst + SECTSIZE) (SECTSIZE * (offset - 1)) → Q tt s') →
  wp (readsect wait dst offset) Q s.
Proof using Hdrive Hready.
  intros Ho HQ. unfold readsect. apply wp_bind, waitdisk_wp. intros s1 M1 _. apply wp_bind, wp_modify.
  apply wp_bind, waitdisk_wp. intros s2 M2 C2. apply wp_modify, HQ. intros x. cbn [set_bmem bt_mem].
  rewrite C2, M2. cbn [set_bcmd bt_mem bt_cmd]. rewrite M1, boot_command_key, insl_to_rd8, Hdrive by lia.
  rewrite Z2Nat.id by done. case_decide as Hx; [|done]. unfold img. unfold SECTSIZE in *.
  rewrite <- (Z.mod_unique _ 512 (offset - 1) (x - dst)), <- (Z.div_unique _ 512 (offset - 1) (x - dst)) by lia.
  by rewrite Z.sub_add.
Qed.

Lemma readseg_loop_wp fuel pa epa offset s (Q : () → bootst → Prop) :
  0 ≤ pa ≤ epa → epa + SECTSIZE ≤ 2 ^ 32 → epa ≤ pa + SECTSIZE * Z.of_nat fuel → 1 ≤ offset → offset + Z.of_nat fuel < 2 ^ 28 →
  (∀ s' e, epa ≤ e < epa + SECTSIZE → copied (bt_mem s) (bt_mem s') pa e (SECTSIZE * (offset - 1)) → Q tt s') →
  wp (readseg_loop wait pa epa offset fuel) Q s.
Proof using Hdrive Hready.
  revert pa offset s. induction fuel as [|fuel IH]; intros pa offset s Hp He Hf Ho Hof HQ; cbn [readseg_loop];
    destruct (Z.ltb_spec pa epa) as [Hlt|Hge]; cbn [negb]; try lia.
  - apply wp_ret, (HQ _ pa); [unfold SECTSIZE; lia|]. intros x. by rewrite decide_False by lia.
  - apply wp_bind, readsect_wp; [lia|]. intros s1 C1. rewrite !u32_small by (unfold SECTSIZE in *; lia).
    destruct (decide (pa + SECTSIZE ≤ epa)) as [Hn|Hn].
    + apply IH; try (unfold SECTSIZE in *; lia). intros s' e He' C2. apply (HQ _ e He'). intros x. rewrite C2, C1.
      unfold SECTSIZE in *. repeat case_decide; try lia; done || (f_equal; lia).
    + assert (readseg_loop wait (pa + SECTSIZE) epa (offset + 1) fuel = mret tt) as ->.
      { destruct fuel; cbn [readseg_loop]; by rewrite (proj2 (Z.ltb_ge _ _)) by lia. }
      apply wp_ret, (HQ _ (pa + SECTSIZE)); [lia|done].
  - apply wp_ret, (HQ _ pa); [unfold SECTSIZE; lia|]. intros x. by rewrite decide_False by lia.
Qed.

(** The bytes asked for, and those of their sectors around them. *)
Lemma readseg_wp pa count offset s (Q : () → bootst → Prop) :
  0 ≤ count → 0 ≤ offset < 2 ^ 32 → offset mod SECTSIZE ≤ pa → pa + count + SECTSIZE ≤ 2 ^ 32 →
  (∀ s' e, pa + count ≤ e < pa + count + SECTSIZE →
    copied (bt_mem s) (bt_mem s') (pa - offset mod SECTSIZE) e (offset - offset mod SECTSIZE) → Q tt s') →
  wp (readseg wait pa count offset) Q s.
Proof using Hdrive Hready.
  intros Hc Ho Hp He HQ. unfold readseg. unfold SECTSIZE in *. pose proof (Z.mod_pos_bound offset 512). pose proof (Z.div_mod offset 512).
  pose proof (Z.mod_pos_bound count 512). pose proof (Z.div_mod count 512). rewrite !u32_small by lia.
  apply readseg_loop_wp; unfold SECTSIZE; try lia. intros s' e He'. replace (512 * (offset / 512 + 1 - 1)) with (offset - offset mod 512) by lia.
  by apply HQ.
Qed.

(** ** The segments *)

(** A program header of the image. *)
Record segment := Segment { sg_off : Z; sg_paddr : Z; sg_filesz : Z; sg_memsz : Z }.

Definition seg_at (k : Z) : segment := Segment (img32 (k + 4)) (img32 (k + 12)) (img32 (k + 16)) (img32 (k + 20)).
Definition phnum : Z := img 44 + 256 * img 45.
Definition seg (i : Z) : segment := seg_at (img32 28 + sizeof_proghdr * i).

Definition sg_start (g : segment) : Z := sg_paddr g - sg_off g mod SECTSIZE.
Definition sg_end (g : segment) : Z := sg_paddr g + Z.max (sg_filesz g) (sg_memsz g).

(** A segment in memory: the bytes of the file, and zeroes after them. *)
Definition loaded (m : memory) (g : segment) : Prop :=
  (∀ k, 0 ≤ k < sg_filesz g → rd8 m (sg_paddr g + k) = img (sg_off g + k)) ∧
  (∀ k, sg_filesz g ≤ k < sg_memsz g → rd8 m (sg_paddr g + k) = 0).

(** The image can be loaded: its headers are in the first page, and the
    segments, extended down to whole sectors, lie above the headers' scratch
    space and in increasing order: none reaches down into an earlier one. *)
Record loadable : Prop := {
  ld_headers : img32 28 + sizeof_proghdr * phnum ≤ 4096;
  ld_above i : 0 ≤ i < phnum → ELF + 4096 ≤ sg_start (seg i);
  ld_below i : 0 ≤ i < phnum → sg_end (seg i) + SECTSIZE ≤ 2 ^ 32;
  ld_order i j : 0 ≤ i < j → j < phnum → sg_end (seg i) ≤ sg_start (seg j);
}.

(** The headers are in the scratch space. *)
Definition headers (m : memory) : Prop := ∀ k, 0 ≤ k < 4096 → rd8 m (ELF + k) = img k.

Lemma img_range k : 0 ≤ img k < 256.
Proof using Type. apply u8_range. Qed.

Lemma img32_range k : 0 ≤ img32 k < 2 ^ 32.
Proof using Type.
  unfold img32. pose proof (img_range k). pose proof (img_range (k + 1)). pose proof (img_range (k + 2)).
  pose proof (img_range (k + 3)). lia.
Qed.

Lemma phnum_range : 0 ≤ phnum < 2 ^ 16.
Proof using Type. unfold phnum. pose proof (img_range 44). pose proof (img_range 45). lia. Qed.

Lemma headers_32 m k : headers m → 0 ≤ k → k + 4 ≤ 4096 → rd32 m (ELF + k) = img32 k.
Proof using Type. intros H0 Hk Hk4. unfold rd32, img32. rewrite <- !Z.add_assoc, !H0 by lia. by rewrite !Z.add_assoc. Qed.

Lemma headers_seg m k :
  headers m → 0 ≤ k → k + sizeof_proghdr ≤ 4096 →
  proghdr_off m (ELF + k) = sg_off (seg_at k) ∧ proghdr_paddr m (ELF + k) = sg_paddr (seg_at k) ∧
  proghdr_filesz m (ELF + k) = sg_filesz (seg_at k) ∧ proghdr_memsz m (ELF + k) = sg_memsz (seg_at k).
Proof using Type.
  intros H0 Hk Hk4. unfold sizeof_proghdr in *. unfold proghdr_off, proghdr_paddr, proghdr_filesz, proghdr_memsz.
  rewrite <- !Z.add_assoc, !(headers_32 m) by (done || lia). done.
Qed.

(** Memory below an address is unchanged. *)
Definition same_below (a : Z) (m m' : memory) : Prop := ∀ x, x < a → rd8 m' x = rd8 m x.

Lemma headers_same m m' a : headers m → same_below a m m' → ELF + 4096 ≤ a → headers m'.
Proof using Type. intros H0 Hs Ha k Hk. rewrite Hs by lia. by apply H0. Qed.

Lemma loaded_same m m' g : loaded m g → same_below (sg_end g) m m' → loaded m' g.
Proof using Type.
  unfold sg_end. intros [L1 L2] Hs. split; intros k Hk; rewrite Hs by lia; [by apply L1|by apply L2].
Qed.

(** One turn of the loop: the copy and the clearing of the rest. *)
Definition bss (g : segment) (m : memory) : memory :=
  if sg_filesz g <? sg_memsz g then stosb m (sg_paddr g + sg_filesz g) 0 (Z.to_nat (sg_memsz g - sg_filesz g)) else m.

Lemma bss_rd8 g m x :
  rd8 (bss g m) x = if decide (sg_paddr g + sg_filesz g ≤ x < sg_paddr g + sg_memsz g) then 0 else rd8 m x.
Proof using Type.
  unfold bss. destruct (Z.ltb_spec (sg_filesz g) (sg_memsz g)).
  - rewrite stosb_rd8. replace (_ + Z.of_nat _) with (sg_paddr g + sg_memsz g) by lia. done.
  - by rewrite decide_False by lia.
Qed.

Lemma load_one g m m1 e :
  0 ≤ sg_filesz g → sg_paddr g + sg_filesz g ≤ e → copied m m1 (sg_start g) e (sg_off g - sg_off g mod SECTSIZE) →
  same_below (sg_start g) m m1 ∧ same_below (sg_start g) m (bss g m1) ∧ loaded (bss g m1) g.
Proof using Type.
  intros Hf He C. pose proof (Z.mod_pos_bound (sg_off g) SECTSIZE eq_refl) as Hmod.
  assert (same_below (sg_start g) m m1) as S1 by (intros x Hx; rewrite C, decide_False by lia; done).
  unfold sg_start in *. split; [done|]. split; [|split].
  - intros x Hx. rewrite bss_rd8, decide_False by lia. by apply S1.
  - intros k Hk. rewrite bss_rd8, decide_False, C, decide_True by lia. f_equal. lia.
  - intros k Hk. by rewrite bss_rd8, decide_True by lia.
Qed.

Lemma seg_range i : 0 ≤ sg_off (seg i) < 2 ^ 32 ∧ 0 ≤ sg_filesz (seg i) ∧ 0 ≤ sg_memsz (seg i).
Proof using Type. split_and!; apply img32_range. Qed.

Lemma load_loop_wp n i s (Q : () → bootst → Prop) :
  loadable → 0 ≤ i → i + Z.of_nat n = phnum → headers (bt_mem s) → (∀ j, 0 ≤ j < i → loaded (bt_mem s) (seg j)) →
  (∀ s', headers (bt_mem s') → (∀ j, 0 ≤ j < phnum → loaded (bt_mem s') (seg j)) →
    same_below (ELF + 4096) (bt_mem s) (bt_mem s') → Q tt s') →
  wp (load_loop wait (ELF + img32 28 + sizeof_proghdr * i) (ELF + img32 28 + sizeof_proghdr * phnum) n) Q s.
Proof using Hdrive Hready.
  intros L. revert i s. induction n as [|n IH]; intros i s Hi Hn Hh Hl HQ; cbn [load_loop].
  { rewrite (proj2 (Z.ltb_ge _ _)) by (unfold sizeof_proghdr; lia). apply wp_ret, HQ; [done| |by intros x _].
    intros j Hj. apply Hl. lia. }
  pose proof (ld_headers L) as Hph. pose proof (img32_range 28) as Hoff. rewrite (proj2 (Z.ltb_lt _ _)) by (unfold sizeof_proghdr; lia).
  cbn [negb]. set (k := img32 28 + sizeof_proghdr * i). replace (ELF + img32 28 + sizeof_proghdr * i) with (ELF + k) by (subst k; lia).
  assert (0 ≤ k ∧ k + sizeof_proghdr ≤ 4096) as [Hk0 Hk] by (subst k; unfold sizeof_proghdr in *; lia).
  destruct (headers_seg _ k Hh Hk0 Hk) as (E1 & E2 & E3 & _). change (seg_at k) with (seg i) in E1, E2, E3.
  destruct (seg_range i) as (Ro & Rf & Rm). pose proof (ld_above L i ltac:(lia)) as Ha. pose proof (ld_below L i ltac:(lia)) as Hb.
  apply wp_bind, wp_gets. apply wp_bind, wp_gets. apply wp_bind, wp_gets. rewrite E1, E2, E3.
  pose proof (Z.mod_pos_bound (sg_off (seg i)) SECTSIZE eq_refl) as Hm. unfold sg_start, sg_end, ELF in Ha, Hb.
  apply wp_bind, readseg_wp; [lia..|]. intros s1 e [He _] C. destruct (load_one _ _ _ _ Rf He C) as (S1 & S2 & L2).
  pose proof (headers_same _ _ _ Hh S1 (ld_above L i ltac:(lia))) as Hh1. destruct (headers_seg _ k Hh1 Hk0 Hk) as (_ & _ & E5 & E6).
  apply wp_bind, wp_gets. apply wp_bind, wp_gets. rewrite E5, E6. change (seg_at k) with (seg i). rewrite (u32_small (sg_paddr (seg i) + sg_filesz (seg i))) by lia.
  apply wp_bind. apply (wp_mono _ (λ _ s', bt_mem s' = bss (seg i) (bt_mem s1))).
  { unfold bss. apply wp_when; intros ->; done. }
  intros _ s2 E. rewrite <- E in S2, L2. rewrite u32_small by (unfold sizeof_proghdr, ELF in *; lia).
  replace (ELF + k + sizeof_proghdr) with (ELF + img32 28 + sizeof_proghdr * (i + 1)) by (subst k; lia).
  apply IH; [lia|lia| | |].
  - exact (headers_same _ _ _ Hh S2 (ld_above L i ltac:(lia))).
  - intros j Hj. destruct (decide (j = i)) as [->|]; [done|]. apply (loaded_same (bt_mem s)); [apply Hl; lia|].
    intros x Hx. apply S2. pose proof (ld_order L j i ltac:(lia) ltac:(lia)). lia.
  - intros s' Hh' Hl' Hs'. apply HQ; [done|done|]. intros x Hx. rewrite Hs' by done. apply S2.
    pose proof (ld_above L i ltac:(lia)). lia.
Qed.

(** C34. The boot loader puts the kernel where its program headers say.  The
    image that starts at sector 1 is an ELF file whose headers are in its
    first page.  Each segment, extended down by the bytes that precede it in
    the first of its sectors, begins above the page of scratch space and not
    before the end of any earlier segment, and ends a sector or more below
    2^32.  Then the loader ends, however long the drive takes for each
    sector, with a jump to the entry point, and has every segment's bytes in
    place and its rest cleared; what the last sector of a segment brings in
    past its end does not spoil a later one.  Nothing below the scratch
    space (the loader itself and its stack) is touched.  If the image is no
    ELF file, the loader returns. *)
Theorem bootmain_loads s :
  (img32 0 = ELF_MAGIC → loadable) →
  wp (bootmain wait) (λ r s',
    (∀ x, x < ELF → rd8 (bt_mem s') x = rd8 (bt_mem s) x) ∧
    (img32 0 ≠ ELF_MAGIC → r = None) ∧
    (img32 0 = ELF_MAGIC → r = Some (img32 24) ∧ ∀ i, 0 ≤ i < phnum → loaded (bt_mem s') (seg i))) s.
Proof using Hdrive Hready.
  intros L. unfold bootmain. apply wp_bind, readseg_wp; [done..|]. intros s1 e He C.
  rewrite Z.mod_0_l, !Z.sub_0_r in C by done.
  assert (∀ x, x < ELF → rd8 (bt_mem s1) x = rd8 (bt_mem s) x) as B1 by (intros x Hx; by rewrite C, decide_False by lia).
  assert (headers (bt_mem s1)) as Hh.
  { intros k Hk. rewrite C, decide_True by lia. f_equal. lia. }
  assert (∀ m k, headers m → 0 ≤ k ≤ 28 → rd32 m (ELF + k) = img32 k) as H32 by (intros; apply headers_32; lia || done).
  apply wp_bind, wp_gets. unfold elf_magic. rewrite <- (Z.add_0_r ELF), (H32 _ 0) by (done || lia).
  destruct (Z.eqb_spec (img32 0) ELF_MAGIC) as [E|E]; cbn [negb]; [|by apply wp_ret].
  specialize (L E). apply wp_bind, wp_gets. apply wp_bind, wp_gets. unfold elf_phoff, elf_phnum.
  rewrite (H32 _ 28), !Hh by (done || lia). fold phnum. pose proof phnum_range. pose proof (img32_range 28). pose proof (ld_headers L).
  unfold ELF, sizeof_proghdr in *. rewrite !u32_small by lia. apply wp_bind.
  pose proof (load_loop_wp (Z.to_nat phnum) 0 s1) as W. unfold ELF, sizeof_proghdr in W.
  rewrite Z.mul_0_r, Z.add_0_r, (Z.mul_comm 32) in W. apply W; [done|done|lia|done|intros; lia|]. clear W.
  intros s2 Hh2 Hl2 S2. apply wp_bind, wp_gets, wp_ret. unfold elf_entry, ELF. rewrite (H32 _ 24) by (done || lia).
  split_and!; [|done|done]. intros x Hx. rewrite S2 by (unfold ELF; lia). by apply B1.
Qed.
End boot.

(** ** The first page table (main.c) *)

Definition entrypgdir (i : Z) : Z :=
  if i =? 0 then Z.lor (Z.lor (Z.lor 0 PTE_P) PTE_W) PTE_PS
  else if i =? Z.shiftr KERNBASE PDXSHIFT then Z.lor (Z.lor (Z.lor 0 PTE_P) PTE_W) PTE_PS
  else 0.

(** The processor's translation through a page of 4 megabytes. *)
Definition big_translate (dir : Z → Z) (va : Z) : option Z :=
  let e := dir (PDX va) in
  if negb (Z.land e PTE_P =? 0) && negb (Z.land e PTE_PS =? 0) then Some (Z.land e 0xFFC00000 + va mod 2 ^ 22) else None.

(** While it boots, the kernel finds the first 4 megabytes both where they
    are and at [KERNBASE], and nothing elsewhere. *)
Lemma entrypgdir_maps va :
  0 ≤ va < 2 ^ 32 →
  big_translate entrypgdir va =
    if decide (va < 2 ^ 22) then Some va
    else if decide (KERNBASE ≤ va < KERNBASE + 2 ^ 22) then Some (V2P va) else None.
Proof.
  intros Hva. unfold big_translate. rewrite PDX_eq by done. pose proof (Z.div_mod va (2 ^ 22) ltac:(lia)) as Dm.
  pose proof (Z.mod_pos_bound va (2 ^ 22) ltac:(lia)) as Hm. unfold entrypgdir. change (Z.shiftr KERNBASE PDXSHIFT) with 512.
  unfold V2P, KERNBASE. destruct (Z.eqb_spec (va / 2 ^ 22) 0) as [E|E]; [|destruct (Z.eqb_spec (va / 2 ^ 22) 512) as [E'|E']].
  - rewrite decide_True by lia. cbv zeta. change (_ && _) with true. cbv iota. f_equal. change (Z.land _ 0xFFC00000) with 0. lia.
  - rewrite decide_False, decide_True by lia. cbv zeta. change (_ && _) with true. cbv iota. f_equal.
    change (Z.land _ 0xFFC00000) with 0. unfold KERNBASE. rewrite u32_small; lia.
  - by rewrite !decide_False by lia.
Qed.

(** ** A kernel of one segment *)

Definition sector_of (l : list Z) : list Z := take 512 (l ++ replicate 512 0).

(** The header, and one program header: 4 bytes at offset 0x210 go to
    0x100010, and 4 bytes after them are cleared. *)
Definition demo_header : list Z :=
  to_le 4 ELF_MAGIC ++ replicate 20 0 ++ to_le 4 0x100010 ++ to_le 4 52 ++ replicate 12 0 ++ to_le 2 1 ++ replicate 6 0 ++
  to_le 4 1 ++ to_le 4 0x210 ++ to_le 4 0x100010 ++ to_le 4 0x100010 ++ to_le 4 4 ++ to_le 4 8 ++ replicate 8 0.
Definition demo_drive (k : bkey) : list Z :=
  sector_of (if k.2 =? 1 then demo_header else if k.2 =? 2 then replicate 16 1 ++ [10; 20; 30; 40; 50] else []).

(** Busy at every other poll. *)
Definition demo_status (n : nat) : Z := if Nat.even n then 0x80 else 0x50.

Lemma demo_loadable : loadable demo_drive.
Proof.
  assert (phnum demo_drive = 1) as En by (vm_compute; reflexivity).
  assert (seg demo_drive 0 = Segment 0x210 0x100010 4 8) as E0 by (vm_compute; reflexivity).
  split; rewrite ?En.
  - vm_compute. discriminate.
  - intros i Hi. replace i with 0 by lia. rewrite E0. vm_compute. discriminate.
  - intros i Hi. replace i with 0 by lia. rewrite E0. vm_compute. discriminate.
  - lia.
Qed.

Lemma bootmain_loads_witness :
  wp (bootmain demo_drive demo_status 2)
    (λ r s', r = Some 0x100010 ∧ rd8 (bt_mem s') 0x100012 = 30 ∧ rd8 (bt_mem s') 0x100014 = 0)
    (Bootst ∅ (Cmd 0 0 0 0 None) 0).
Proof.
  eapply wp_mono; [apply (bootmain_loads demo_drive demo_status)|].
  - intros k. unfold demo_drive, sector_of. rewrite length_take, length_app, length_replicate. change (Z.to_nat SECTSIZE) with 512%nat. lia.
  - intros n. destruct (Nat.even n) eqn:E.
    + exists 1%nat. split; [lia|]. unfold demo_status. rewrite Nat.add_1_r, Nat.even_succ, <- Nat.negb_even, E. reflexivity.
    + exists 0%nat. split; [lia|]. unfold demo_status. rewrite Nat.add_0_r, E. reflexivity.
  - intros _. apply demo_loadable.
  - intros r s' (_ & _ & H). destruct H as [-> L]; [vm_compute; reflexivity|]. specialize (L 0).
    assert (seg demo_drive 0 = Segment 0x210 0x100010 4 8) as E0 by (vm_compute; reflexivity). rewrite E0 in L.
    destruct L as [L1 L2]; [assert (phnum demo_drive = 1) as -> by (vm_compute; reflexivity); lia|].
    split; [vm_compute; reflexivity|]. split; [|apply (L2 4); cbn; lia].
    transitivity (img demo_drive (0x210 + 2)); [apply (L1 2); cbn; lia|vm_compute; reflexivity].
Defined.
