(* ===== verification/Protect.v ===== *)
(** Protection: the segment, gate and task-state descriptors that vm.c and
    trap.c build from the layouts of mmu.h, and what the processor makes of
    them when a user program executes [int] or an I/O instruction. *)

From S2P Require Import Prelude Mmu Vm Proc Procs Trap.

(** ** Bit fields

    The fields of a C structure from the least significant bit on, each with
    its width; storing into a bit field keeps the low bits. *)
Fixpoint pack (l : list (Z * Z)) : Z :=
  match l with
  | [] => 0
  | (w, x) :: l' => x mod 2 ^ w + 2 ^ w * pack l'
  end.

Definition width (l : list (Z * Z)) : Z := foldr (λ p n, p.1 + n) 0 l.

(** ** Layouts (mmu.h) *)

Definition SEG_KCODE : Z := 1.
Definition SEG_KDATA : Z := 2.
Definition SEG_TSS : Z := 5.
Definition NSEGS : Z := 6.
Definition STA_X : Z := 0x8.
Definition STA_W : Z := 0x2.
Definition STA_R : Z := 0x2.
Definition STS_T32A : Z := 0x9.
Definition STS_IG32 : Z := 0xE.
Definition STS_TG32 : Z := 0xF.

Record segdesc := Segdesc {
  lim_15_0 : Z; base_15_0 : Z; base_23_16 : Z; sd_type : Z; sd_s : Z; sd_dpl : Z; sd_p : Z;
  lim_19_16 : Z; sd_avl : Z; sd_rsv1 : Z; sd_db : Z; sd_g : Z; base_31_24 : Z;
}.

Definition segdesc_fields (d : segdesc) : list (Z * Z) :=
  [(16, lim_15_0 d); (16, base_15_0 d); (8, base_23_16 d); (4, sd_type d); (1, sd_s d); (2, sd_dpl d); (1, sd_p d);
   (4, lim_19_16 d); (1, sd_avl d); (1, sd_rsv1 d); (1, sd_db d); (1, sd_g d); (8, base_31_24 d)].

Definition SEG (type base lim dpl : Z) : segdesc :=
  Segdesc (Z.land (Z.shiftr lim 12) 0xffff) (Z.land base 0xffff) (Z.land (Z.shiftr base 16) 0xff) type 1 dpl 1
    (Z.shiftr lim 28) 0 0 1 1 (Z.shiftr base 24).
Definition SEG16 (type base lim dpl : Z) : segdesc :=
  Segdesc (Z.land lim 0xffff) (Z.land base 0xffff) (Z.land (Z.shiftr base 16) 0xff) type 1 dpl 1
    (Z.shiftr lim 16) 0 0 1 0 (Z.shiftr base 24).

Definition set_sd_s (x : Z) (d : segdesc) : segdesc :=
  Segdesc (lim_15_0 d) (base_15_0 d) (base_23_16 d) (sd_type d) x (sd_dpl d) (sd_p d) (lim_19_16 d) (sd_avl d)
    (sd_rsv1 d) (sd_db d) (sd_g d) (base_31_24 d).

Record gatedesc := Gatedesc {
  off_15_0 : Z; gd_cs : Z; gd_args : Z; gd_rsv1 : Z; gd_type : Z; gd_s : Z; gd_dpl : Z; gd_p : Z; off_31_16 : Z;
}.

Definition gatedesc_fields (g : gatedesc) : list (Z * Z) :=
  [(16, off_15_0 g); (16, gd_cs g); (5, gd_args g); (3, gd_rsv1 g); (4, gd_type g); (1, gd_s g); (2, gd_dpl g);
   (1, gd_p g); (16, off_31_16 g)].

Definition SETGATE (istrap : bool) (sel off d : Z) : gatedesc :=
  Gatedesc (Z.land off 0xffff) sel 0 0 (if istrap then STS_TG32 else STS_IG32) 0 d 1 (Z.shiftr off 16).

Record taskstate := Taskstate {
  ts_link : Z; ts_esp0 : Z; ts_ss0 : Z; ts_padding1 : Z; ts_esp1 : Z; ts_ss1 : Z; ts_padding2 : Z; ts_esp2 : Z;
  ts_ss2 : Z; ts_padding3 : Z; ts_cr3 : Z; ts_eip : Z; ts_eflags : Z; ts_eax : Z; ts_ecx : Z; ts_edx : Z; ts_ebx : Z;
  ts_esp : Z; ts_ebp : Z; ts_esi : Z; ts_edi : Z; ts_es : Z; ts_padding4 : Z; ts_cs : Z; ts_padding5 : Z; ts_ss : Z;
  ts_padding6 : Z; ts_ds : Z; ts_padding7 : Z; ts_fs : Z; ts_padding8 : Z; ts_gs : Z; ts_padding9 : Z; ts_ldt : Z;
  ts_padding10 : Z; ts_t : Z; ts_iomb : Z;
}.

Definition taskstate_fields (t : taskstate) : list (Z * Z) :=
  [(32, ts_link t); (32, ts_esp0 t); (16, ts_ss0 t); (16, ts_padding1 t); (32, ts_esp1 t); (16, ts_ss1 t);
   (16, ts_padding2 t); (32, ts_esp2 t); (16, ts_ss2 t); (16, ts_padding3 t); (32, ts_cr3 t); (32, ts_eip t);
   (32, ts_eflags t); (32, ts_eax t); (32, ts_ecx t); (32, ts_edx t); (32, ts_ebx t); (32, ts_esp t); (32, ts_ebp t);
   (32, ts_esi t); (32, ts_edi t); (16, ts_es t); (16, ts_padding4 t); (16, ts_cs t); (16, ts_padding5 t);
   (16, ts_ss t); (16, ts_padding6 t); (16, ts_ds t); (16, ts_padding7 t); (16, ts_fs t); (16, ts_padding8 t);
   (16, ts_gs t); (16, ts_padding9 t); (16, ts_ldt t); (16, ts_padding10 t); (16, ts_t t); (16, ts_iomb t)].

(** [ts.ss0], [ts.esp0] and [ts.iomb] assigned. *)
Definition set_ts (ss0 esp0 iomb : Z) (t : taskstate) : taskstate :=
  Taskstate (ts_link t) esp0 ss0 (ts_padding1 t) (ts_esp1 t) (ts_ss1 t) (ts_padding2 t) (ts_esp2 t) (ts_ss2 t)
    (ts_padding3 t) (ts_cr3 t) (ts_eip t) (ts_eflags t) (ts_eax t) (ts_ecx t) (ts_edx t) (ts_ebx t) (ts_esp t)
    (ts_ebp t) (ts_esi t) (ts_edi t) (ts_es t) (ts_padding4 t) (ts_cs t) (ts_padding5 t) (ts_ss t) (ts_padding6 t)
    (ts_ds t) (ts_padding7 t) (ts_fs t) (ts_padding8 t) (ts_gs t) (ts_padding9 t) (ts_ldt t) (ts_padding10 t)
    (ts_t t) iomb.

Definition sizeof_taskstate : Z := 104.

(** ** The tables (vm.c, trap.c) *)

(** The descriptors of a CPU: its table of segments and its task state. *)
Record cpudesc := Cpudesc { c_gdt : list segdesc; c_ts : taskstate }.

Definition set_seg (i : Z) (d : segdesc) (c : cpudesc) : cpudesc := Cpudesc (<[Z.to_nat i := d]> (c_gdt c)) (c_ts c).

Definition seginit (c : cpudesc) : cpudesc :=
  let c := set_seg SEG_KCODE (SEG (Z.lor STA_X STA_R) 0 0xffffffff 0) c in
  let c := set_seg SEG_KDATA (SEG STA_W 0 0xffffffff 0) c in
  let c := set_seg SEG_UCODE (SEG (Z.lor STA_X STA_R) 0 0xffffffff DPL_USER) c in
  set_seg SEG_UDATA (SEG STA_W 0 0xffffffff DPL_USER) c.

(** The part of [switchuvm] between [pushcli] and [lcr3]; [ts] is the address
    of the CPU's task state. *)
Definition switch_ts (ts kstack : Z) (c : cpudesc) : cpudesc :=
  let c := set_seg SEG_TSS (set_sd_s 0 (SEG16 STS_T32A ts (sizeof_taskstate - 1) 0)) c in
  Cpudesc (c_gdt c) (set_ts (Z.shiftl SEG_KDATA 3) (u32 (kstack + KSTACKSIZE)) 0xFFFF (c_ts c)).

(** The entry points [vectors] are generated assembly. *)
Definition tvinit (vectors : list Z) : list gatedesc :=
  <[Z.to_nat T_SYSCALL := SETGATE true (Z.shiftl SEG_KCODE 3) (nth (Z.to_nat T_SYSCALL) vectors 0) DPL_USER]>
    ((λ i, SETGATE false (Z.shiftl SEG_KCODE 3) (nth i vectors 0) 0) <$> seq 0 256).

(** ** The processor

    Descriptors and the task state as the Intel manual lays them out, by bit
    positions. *)
Definition field (v off len : Z) : Z := (v / 2 ^ off) mod 2 ^ len.

Definition hw_base (v : Z) : Z := field v 16 24 + 2 ^ 24 * field v 56 8.
Definition hw_limit (v : Z) : Z :=
  let l := field v 0 16 + 2 ^ 16 * field v 48 4 in if field v 55 1 =? 1 then l * 4096 + 4095 else l.
Definition hw_dpl (v : Z) : Z := field v 45 2.
Definition hw_present (v : Z) : bool := field v 47 1 =? 1.
(** Code segment: an application segment with the executable bit. *)
Definition hw_code (v : Z) : bool := (field v 44 1 =? 1) && (field v 43 1 =? 1).
Definition hw_target (v : Z) : Z := field v 0 16 + 2 ^ 16 * field v 48 16.

(** Where a gate leads: the selector and address of the code, the stack, and
    whether interrupts stay as they are. *)
Record entry := Entry { e_cs : Z; e_eip : Z; e_ss : Z; e_esp : Z; e_keeps_if : bool }.

(** An interrupt at privilege level [cpl].  [soft]: it comes from an [int]
    instruction, for which the gate's privilege level is checked.  [None] is
    a general protection fault. *)
Definition interrupt (gdt idt : list Z) (ts : Z) (soft : bool) (cpl n : Z) : option entry :=
  g ← idt !! Z.to_nat n;
  if negb (hw_present g) || negb ((field g 40 5 =? 14) || (field g 40 5 =? 15)) then None else
  if soft && (hw_dpl g <? cpl) then None else
  let cs := field g 16 16 in
  s ← gdt !! Z.to_nat (cs / 8);
  if negb (hw_present s) || negb (hw_code s) || (cpl <? hw_dpl s) then None else
  if hw_dpl s <? cpl then
    Some (Entry cs (hw_base s + hw_target g) (field ts 64 16) (field ts 32 32) (field g 40 4 =? 15))
  else None. (* without a change of privilege the stack stays *)

(** An [in] or [out] of one byte above I/O privilege level [iopl]: the
    permission bit of the port must lie in the task state. *)
Definition io_allowed (tss ts : Z) (cpl iopl port : Z) (bit_clear : bool) : bool :=
  (cpl <=? iopl) || ((field ts 816 16 + port / 8 + 1 <=? hw_limit tss) && bit_clear).

(** ** What the bit fields hold *)

Lemma taskstate_size t : width (taskstate_fields t) = 8 * sizeof_taskstate.
Proof. done. Qed.

Lemma pack_range l : Forall (λ p, 0 ≤ p.1) l → 0 ≤ width l ∧ 0 ≤ pack l < 2 ^ width l.
Proof.
  induction l as [|[w x] l IH]; intros H; cbn; [lia|]. apply Forall_cons in H as [Hw H]. cbn in Hw.
  destruct (IH H) as [Hn Hp]. fold (width l). split; [lia|]. rewrite Z.pow_add_r by lia.
  pose proof (Z.mod_pos_bound x (2 ^ w) ltac:(lia)). nia.
Qed.

Lemma pack_app a b : Forall (λ p, 0 ≤ p.1) a → pack (a ++ b) = pack a + 2 ^ width a * pack b.
Proof.
  induction a as [|[w x] a IH]; intros H; cbn [app pack]; [cbn; lia|]. apply Forall_cons in H as [Hw H]. cbn in Hw.
  rewrite IH by done. cbn. fold (width a). destruct (pack_range a H) as [Hn _]. rewrite Z.pow_add_r by lia. lia.
Qed.

(** The fields [m] in the middle of a structure, read by their position. *)
Lemma field_pack a m b off len :
  Forall (λ p, 0 ≤ p.1) (a ++ m) → off = width a → len = width m → field (pack (a ++ m ++ b)) off len = pack m.
Proof.
  intros [Ha Hm]%Forall_app -> ->. destruct (pack_range a Ha) as [Hwa Hpa]. destruct (pack_range m Hm) as [Hwm Hpm].
  unfold field. rewrite !pack_app by done. rewrite (Z.mul_comm (2 ^ width a)), Z.div_add, Z.div_small by lia.
  rewrite Z.add_0_l, (Z.mul_comm (2 ^ width m)), Z.mod_add, Z.mod_small by lia. done.
Qed.

(** Reading the fields [n] to [n + k] of the structure. *)
Lemma field_fields l n k off len :
  Forall (λ p, 0 ≤ p.1) l → off = width (take n l) → len = width (take k (drop n l)) →
  field (pack l) off len = pack (take k (drop n l)).
Proof.
  intros Hl Ho Hn. rewrite <- (take_drop n l) at 1. rewrite <- (take_drop k (drop n l)) at 1.
  apply field_pack; [|done|done]. apply Forall_app. split; [by apply Forall_take|by apply Forall_take, Forall_drop].
Qed.

(** Fields [n] to [n + k] of a concrete layout. *)
Local Ltac read_fields n k :=
  rewrite (field_fields _ n k) by (repeat constructor; cbn; lia).
Local Ltac fields_simpl :=
  cbn [take drop pack gatedesc_fields SETGATE segdesc_fields set_sd_s SEG16 taskstate_fields set_ts
    off_15_0 gd_cs gd_type gd_s gd_dpl gd_p off_31_16 lim_15_0 base_15_0 base_23_16 lim_19_16 sd_g base_31_24
    ts_esp0 ts_ss0 ts_iomb]; rewrite ?Z.mul_0_r, ?Z.add_0_r.

Definition gate (g : gatedesc) : Z := pack (gatedesc_fields g).
Definition seg (d : segdesc) : Z := pack (segdesc_fields d).
Definition tss (t : taskstate) : Z := pack (taskstate_fields t).

Lemma halves x : 0 ≤ x < 2 ^ 32 → Z.land x 0xffff mod 2 ^ 16 + 2 ^ 16 * (Z.shiftr x 16 mod 2 ^ 16) = x.
Proof.
  intros Hx. change 0xffff with (Z.ones 16). rewrite Z.land_ones, Z.shiftr_div_pow2 by lia.
  rewrite Z.mod_mod by lia. rewrite (Z.mod_small (x / 2 ^ 16)); [|split; [apply Z.div_pos|apply Z.div_lt_upper_bound]; lia].
  pose proof (Z.div_mod x (2 ^ 16)). lia.
Qed.

Lemma gate_read istrap sel off d :
  0 ≤ sel < 2 ^ 16 → 0 ≤ off < 2 ^ 32 → 0 ≤ d < 4 →
  let g := gate (SETGATE istrap sel off d) in
  hw_present g = true ∧ field g 40 5 = (if istrap then 15 else 14) ∧ field g 40 4 = (if istrap then 15 else 14) ∧
  hw_dpl g = d ∧ field g 16 16 = sel ∧ hw_target g = off.
Proof.
  intros Hs Ho Hd g. unfold hw_present, hw_dpl, hw_target, g, gate. split_and!.
  - read_fields 7%nat 1%nat. by fields_simpl.
  - read_fields 4%nat 2%nat. fields_simpl. by destruct istrap.
  - read_fields 4%nat 1%nat. fields_simpl. by destruct istrap.
  - read_fields 6%nat 1%nat. fields_simpl. by apply Z.mod_small.
  - read_fields 1%nat 1%nat. fields_simpl. by apply Z.mod_small.
  - read_fields 0%nat 1%nat. read_fields 8%nat 1%nat. fields_simpl. by apply halves.
Qed.

Lemma tss_read ss0 esp0 iomb t :
  0 ≤ ss0 < 2 ^ 16 → 0 ≤ esp0 < 2 ^ 32 → 0 ≤ iomb < 2 ^ 16 →
  let v := tss (set_ts ss0 esp0 iomb t) in field v 64 16 = ss0 ∧ field v 32 32 = esp0 ∧ field v 816 16 = iomb.
Proof.
  intros H1 H2 H3 v. unfold v, tss. split_and!.
  - read_fields 2%nat 1%nat. fields_simpl. by apply Z.mod_small.
  - read_fields 1%nat 1%nat. fields_simpl. by apply Z.mod_small.
  - read_fields 36%nat 1%nat. fields_simpl. by apply Z.mod_small.
Qed.

Lemma tss_seg_read ts lim : 0 ≤ ts < 2 ^ 32 → 0 ≤ lim < 2 ^ 16 →
  let d := seg (set_sd_s 0 (SEG16 STS_T32A ts lim 0)) in hw_base d = ts ∧ hw_limit d = lim.
Proof.
  intros Ht Hl d. unfold hw_base, hw_limit, d, seg. split.
  - read_fields 1%nat 2%nat. read_fields 12%nat 1%nat. fields_simpl.
    change 0xffff with (Z.ones 16). change 0xff with (Z.ones 8). rewrite !Z.land_ones, !Z.shiftr_div_pow2 by lia.
    change (2 ^ 16) with 65536. change (2 ^ 8) with 256. change (2 ^ 24) with 16777216. Z.div_mod_to_equations. lia.
  - cbv zeta. read_fields 11%nat 1%nat. read_fields 0%nat 1%nat. read_fields 7%nat 1%nat. fields_simpl.
    change (0 mod 2 ^ 1 =? 1) with false. cbv iota.
    change 0xffff with (Z.ones 16). rewrite !Z.land_ones, !Z.shiftr_div_pow2 by lia. rewrite (Z.div_small lim) by lia.
    rewrite Z.mod_mod, Z.mod_small by lia. change (0 mod 2 ^ 4) with 0. lia.
Qed.

(** ** Protection *)

Lemma tvinit_lookup vectors n : 0 ≤ n < 256 →
  tvinit vectors !! Z.to_nat n =
    Some (SETGATE (n =? T_SYSCALL) (Z.shiftl SEG_KCODE 3) (nth (Z.to_nat n) vectors 0) (if n =? T_SYSCALL then DPL_USER else 0)).
Proof.
  intros Hn. unfold tvinit. destruct (Z.eqb_spec n T_SYSCALL) as [->|Hne].
  - apply list_lookup_insert_eq. rewrite length_fmap, length_seq. unfold T_SYSCALL; lia.
  - rewrite list_lookup_insert_ne by (unfold T_SYSCALL in *; lia). rewrite list_lookup_fmap, lookup_seq_lt by lia. done.
Qed.

Lemma gdt_lookup c ts kstack : length (c_gdt c) = 6%nat →
  let gdt := c_gdt (switch_ts ts kstack (seginit c)) in
  gdt !! 1%nat = Some (SEG (Z.lor STA_X STA_R) 0 0xffffffff 0) ∧
  gdt !! 5%nat = Some (set_sd_s 0 (SEG16 STS_T32A ts (sizeof_taskstate - 1) 0)).
Proof.
  destruct c as [gdt t]. cbn [c_gdt]. intros Hl. do 6 (destruct gdt as [|? gdt]; [done|]). by destruct gdt.
Qed.

(** The gate of vector [n] leads into the kernel. *)
Lemma interrupt_user c ts kstack vectors soft n :
  length (c_gdt c) = 6%nat → Forall (λ v, 0 ≤ v < 2 ^ 32) vectors →
  0 ≤ kstack → kstack + KSTACKSIZE < 2 ^ 32 → 0 ≤ n < 256 →
  let c' := switch_ts ts kstack (seginit c) in
  interrupt (seg <$> c_gdt c') (gate <$> tvinit vectors) (tss (c_ts c')) soft 3 n =
    if soft && negb (n =? T_SYSCALL) then None
    else Some (Entry 8 (nth (Z.to_nat n) vectors 0) 16 (kstack + KSTACKSIZE) (n =? T_SYSCALL)).
Proof.
  intros Hl Hv Hk0 Hk Hn c'. unfold interrupt, mbind, option_bind. rewrite list_lookup_fmap, tvinit_lookup by done.
  cbn [fmap option_fmap option_map].
  destruct (gate_read (n =? T_SYSCALL) (Z.shiftl SEG_KCODE 3) (nth (Z.to_nat n) vectors 0) (if n =? T_SYSCALL then DPL_USER else 0))
    as (G1 & G2 & G3 & G4 & G5 & G6).
  { by vm_compute. }
  { rewrite nth_lookup. destruct (vectors !! Z.to_nat n) eqn:E; [by eapply (Forall_lookup_1 _ _ _ _ Hv E)|cbn; lia]. }
  { by destruct (n =? T_SYSCALL). }
  set (g := gate _) in *. rewrite G1, G2, G3, G4, G5, G6. destruct (gdt_lookup c ts kstack Hl) as [S1 _]. fold c' in S1.
  destruct (tss_read (Z.shiftl SEG_KDATA 3) (u32 (kstack + KSTACKSIZE)) 0xFFFF (c_ts (seginit c))) as (T1 & T2 & _);
    [by vm_compute|apply u32_range|by vm_compute|]. fold (tss (c_ts c')) in T1, T2.
  change (c_ts c') with (set_ts (Z.shiftl SEG_KDATA 3) (u32 (kstack + KSTACKSIZE)) 0xFFFF (c_ts (seginit c))).
  rewrite T1, T2, u32_small by (unfold KSTACKSIZE in *; lia).
  change (Z.to_nat (Z.shiftl SEG_KCODE 3 / 8)) with 1%nat. rewrite list_lookup_fmap, S1. cbn [fmap option_fmap option_map].
  destruct (n =? T_SYSCALL), soft; cbn [negb andb orb]; try done.
Qed.

(** C9. After [seginit], [tvinit] and [switchuvm], whatever the tables held
    before, a user program can enter the kernel with an [int] instruction at
    one place only: vector 64, the system call, with interrupts left on.
    Every other [int] faults.  Interrupts and exceptions of the hardware
    reach the handler of their vector with interrupts off.  The kernel
    always starts on the kernel stack of the process that [switchuvm] chose,
    in the kernel's segments, and no I/O port is open to user programs. *)
Theorem protection c vectors ts kstack n port bit_clear :
  length (c_gdt c) = 6%nat → Forall (λ v, 0 ≤ v < 2 ^ 32) vectors → 0 ≤ ts < 2 ^ 32 →
  0 ≤ kstack → kstack + KSTACKSIZE < 2 ^ 32 → 0 ≤ n < 256 → 0 ≤ port →
  let c' := switch_ts ts kstack (seginit c) in
  let gdt := seg <$> c_gdt c' in let idt := gate <$> tvinit vectors in let t := tss (c_ts c') in
  let enter := Entry (Z.shiftl SEG_KCODE 3) (nth (Z.to_nat n) vectors 0) (Z.shiftl SEG_KDATA 3) (kstack + KSTACKSIZE) in
  interrupt gdt idt t true 3 n = (if n =? T_SYSCALL then Some (enter true) else None) ∧
  interrupt gdt idt t false 3 n = Some (enter (n =? T_SYSCALL)) ∧
  ∃ d, gdt !! Z.to_nat SEG_TSS = Some d ∧ hw_base d = ts ∧ hw_limit d = sizeof_taskstate - 1 ∧
    io_allowed d t 3 0 port bit_clear = false.
Proof.
  intros Hl Hv Ht Hk0 Hk Hn Hp c' gdt idt t enter. split; [|split].
  - unfold gdt, idt, t, c'. rewrite interrupt_user by done. by destruct (n =? T_SYSCALL).
  - unfold gdt, idt, t, c'. rewrite interrupt_user by done. done.
  - destruct (gdt_lookup c ts kstack Hl) as [_ S5]. destruct (tss_seg_read ts (sizeof_taskstate - 1) Ht ltac:(by vm_compute)) as [B L].
    eexists. split; [unfold gdt; rewrite list_lookup_fmap; unfold c'; change (Z.to_nat SEG_TSS) with 5%nat; by rewrite S5|].
    split; [exact B|]. split; [exact L|]. unfold io_allowed. rewrite L.
    destruct (tss_read (Z.shiftl SEG_KDATA 3) (u32 (kstack + KSTACKSIZE)) 0xFFFF (c_ts (seginit c))) as (_ & _ & T3);
      [by vm_compute|apply u32_range|by vm_compute|]. 
    change t with (tss (set_ts (Z.shiftl SEG_KDATA 3) (u32 (kstack + KSTACKSIZE)) 0xFFFF (c_ts (seginit c)))). rewrite T3.
    assert (0 ≤ port / 8) by (apply Z.div_pos; lia). change (3 <=? 0) with false. cbn [orb]. unfold sizeof_taskstate.
    by rewrite (proj2 (Z.leb_gt _ _)) by lia.
Qed.

Definition zero_ts : taskstate := Taskstate 0 0 0 0 0 0 0 0 0 0 0 0 0 0 0 0 0 0 0 0 0 0 0 0 0 0 0 0 0 0 0 0 0 0 0 0 0.

Lemma protection_witness :
  let c := Cpudesc (replicate 6 (SEG 0 0 0 0)) zero_ts in
  let c' := switch_ts 0x80112000 0x8DFFF000 (seginit c) in let vectors := replicate 256 0x80106000 in
  interrupt (seg <$> c_gdt c') (gate <$> tvinit vectors) (tss (c_ts c')) true 3 14 = None ∧
  interrupt (seg <$> c_gdt c') (gate <$> tvinit vectors) (tss (c_ts c')) false 3 14 = Some (Entry 8 0x80106000 16 0x8E000000 false).
Proof.
  intros c c' vectors.
  destruct (protection c vectors 0x80112000 0x8DFFF000 14 0x1f0 true) as (H1 & H2 & _).
  - reflexivity.
  - apply Forall_replicate. lia.
  - lia.
  - lia.
  - vm_compute. reflexivity.
  - lia.
  - lia.
  - split; [exact H1|]. etrans; [exact H2|]. vm_compute. reflexivity.
Defined.
