(* ===== verification/Apic.v ===== *)
(** The interrupt controllers (ioapic.c, lapic.c, picirq.c) and the
    real-time clock (the second half of lapic.c).  The devices are modelled
    by their registers; what they do on their own (the clock that advances,
    the delivery of an interrupt between processors) is a parameter. *)

From S2P Require Import Prelude Mmu Trap.

(** ** ioapic.c *)

Definition REG_ID : Z := 0x00.
Definition REG_VER : Z := 0x01.
Definition REG_TABLE : Z := 0x10.
Definition INT_DISABLED : Z := 0x00010000.

(** The register that is selected, and the registers behind the window;
    [io_warned] tells whether the message about the id was printed. *)
Record ioapicst := Ioapicst { io_reg : Z; io_regs : gmap Z Z; io_warned : bool }.

(** [ioapic->reg] and [ioapic->data]. *)
Definition io_select (reg : Z) (s : ioapicst) : ioapicst := Ioapicst reg (io_regs s) (io_warned s).
Definition io_data (s : ioapicst) : Z := default 0 (io_regs s !! u8 (io_reg s)).
Definition io_put (x : Z) (s : ioapicst) : ioapicst := Ioapicst (io_reg s) (<[u8 (io_reg s) := u32 x]> (io_regs s)) (io_warned s).
Definition io_warn (s : ioapicst) : ioapicst := Ioapicst (io_reg s) (io_regs s) true.

Definition ioapicread (reg : Z) : M ioapicst Z := modify (io_select reg);; gets io_data.
Definition ioapicwrite (reg data : Z) : M ioapicst () := modify (io_select reg);; modify (io_put data).

Fixpoint ioapicinit_loop (i : Z) (n : nat) : M ioapicst () :=
  match n with
  | O => mret tt
  | S n' =>
    ioapicwrite (REG_TABLE + 2 * i) (Z.lor INT_DISABLED (T_IRQ0 + i));;
    ioapicwrite (REG_TABLE + 2 * i + 1) 0;;
    ioapicinit_loop (i + 1) n'
  end.

Definition ioapicinit (ioapicid : Z) : M ioapicst () :=
  ver ← ioapicread REG_VER;
  let maxintr := Z.land (Z.shiftr ver 16) 0xFF in
  v ← ioapicread REG_ID;
  let id := Z.shiftr v 24 in
  when (negb (id =? ioapicid)) (modify io_warn);;
  ioapicinit_loop 0 (Z.to_nat (maxintr + 1)).

Definition ioapicenable (irq cpunum : Z) : M ioapicst () :=
  ioapicwrite (REG_TABLE + 2 * irq) (T_IRQ0 + irq);;
  ioapicwrite (REG_TABLE + 2 * irq + 1) (Z.shiftl cpunum 24).

(** ** picirq.c *)

Definition IO_PIC1 : Z := 0x20.
Definition IO_PIC2 : Z := 0xA0.

(** ** lapic.c: the local controller *)

(** An access that a device sees: a register of the local APIC is written
    or read, a byte goes to a port, a 16-bit word to memory. *)
Inductive access := Lapic (index value : Z) | Read (index : Z) | Out (port value : Z) | Mem16 (addr value : Z).

(** [picinit] masks every interrupt of the two old controllers. *)
Definition picinit : list access := [Out (IO_PIC1 + 1) 0xFF; Out (IO_PIC2 + 1) 0xFF].

Definition ID : Z := 0x0020 / 4.
Definition VER : Z := 0x0030 / 4.
Definition TPR : Z := 0x0080 / 4.
Definition EOI : Z := 0x00B0 / 4.
Definition SVR : Z := 0x00F0 / 4.
Definition ENABLE : Z := 0x00000100.
Definition ESR : Z := 0x0280 / 4.
Definition ICRLO : Z := 0x0300 / 4.
Definition INIT : Z := 0x00000500.
Definition STARTUP : Z := 0x00000600.
Definition DELIVS : Z := 0x00001000.
Definition ASSERT : Z := 0x00004000.
Definition LEVEL : Z := 0x00008000.
Definition BCAST : Z := 0x00080000.
Definition ICRHI : Z := 0x0310 / 4.
Definition TIMER : Z := 0x0320 / 4.
Definition X1 : Z := 0x0000000B.
Definition PERIODIC : Z := 0x00020000.
Definition PCINT : Z := 0x0340 / 4.
Definition LINT0 : Z := 0x0350 / 4.
Definition LINT1 : Z := 0x0360 / 4.
Definition ERROR : Z := 0x0370 / 4.
Definition MASKED : Z := 0x00010000.
Definition TICR : Z := 0x0380 / 4.
Definition TDCR : Z := 0x03E0 / 4.
Definition IRQ_ERROR : Z := 19.

Section lapic.
(** [lapic] tells whether the pointer is set; [rd log index] is what a
    register reads as after the accesses in [log]. *)
Context (lapic : bool) (rd : list access → Z → Z).

Definition emit (a : access) : M (list access) () := modify (λ l, l ++ [a]).

Definition lapicr (index : Z) : M (list access) Z :=
  v ← gets (λ l, rd l index);
  emit (Read index);;
  mret v.

Definition lapicw (index value : Z) : M (list access) () := emit (Lapic index (u32 value));; emit (Read ID).

(** [while(lapic[ICRLO] & DELIVS)] *)
Fixpoint wait_delivs (fuel : nat) : M (list access) () :=
  match fuel with
  | O => spin
  | S fuel' => v ← lapicr ICRLO; if negb (Z.land v DELIVS =? 0) then wait_delivs fuel' else mret tt
  end.

Definition lapicinit (fuel : nat) : M (list access) () :=
  if negb lapic then mret tt else
  lapicw SVR (Z.lor ENABLE (T_IRQ0 + IRQ_SPURIOUS));;
  lapicw TDCR X1;;
  lapicw TIMER (Z.lor PERIODIC (T_IRQ0 + IRQ_TIMER));;
  lapicw TICR 10000000;;
  lapicw LINT0 MASKED;;
  lapicw LINT1 MASKED;;
  ver ← lapicr VER;
  when (4 <=? Z.land (Z.shiftr ver 16) 0xFF) (lapicw PCINT MASKED);;
  lapicw ERROR (T_IRQ0 + IRQ_ERROR);;
  lapicw ESR 0;;
  lapicw ESR 0;;
  lapicw EOI 0;;
  lapicw ICRHI 0;;
  lapicw ICRLO (Z.lor (Z.lor BCAST INIT) LEVEL);;
  wait_delivs fuel;;
  lapicw TPR 0.

Definition lapicid : M (list access) Z := if negb lapic then mret 0 else v ← lapicr ID; mret (Z.shiftr v 24).

Definition lapiceoi : M (list access) () := when lapic (lapicw EOI 0).

Definition CMOS_PORT : Z := 0x70.
Definition CMOS_RETURN : Z := 0x71.

Definition startup_ipi (apicid addr : Z) : M (list access) () :=
  lapicw ICRHI (Z.shiftl apicid 24);;
  lapicw ICRLO (Z.lor STARTUP (Z.shiftr addr 12)).

Definition lapicstartap (apicid addr : Z) : M (list access) () :=
  emit (Out CMOS_PORT 0xF);;
  emit (Out (CMOS_PORT + 1) 0x0A);;
  let wrv := P2V (Z.lor (Z.shiftl 0x40 4) 0x67) in
  emit (Mem16 wrv 0);;
  emit (Mem16 (wrv + 2) (u16 (Z.shiftr addr 4)));;
  lapicw ICRHI (Z.shiftl apicid 24);;
  lapicw ICRLO (Z.lor (Z.lor INIT LEVEL) ASSERT);;
  lapicw ICRLO (Z.lor INIT LEVEL);;
  startup_ipi apicid addr;;
  startup_ipi apicid addr.
End lapic.

(** ** lapic.c: the real-time clock *)

Definition CMOS_STATA : Z := 0x0a.
Definition CMOS_STATB : Z := 0x0b.
Definition CMOS_UIP : Z := Z.shiftl 1 7.
Definition SECS : Z := 0x00.
Definition MINS : Z := 0x02.
Definition HOURS : Z := 0x04.
Definition DAY : Z := 0x07.
Definition MONTH : Z := 0x08.
Definition YEAR : Z := 0x09.

Record rtcdate := Rtcdate { second : Z; minute : Z; hour : Z; day : Z; month : Z; year : Z }.

#[export] Instance rtcdate_eq_dec : EqDecision rtcdate.
Proof. solve_decision. Defined.

(** The register that is selected, and the number of accesses to the ports
    so far, which is the time. *)
Record cmos := Cmos { cm_reg : Z; cm_time : nat }.

Definition out_cmos (reg : Z) (s : cmos) : cmos := Cmos reg (S (cm_time s)).
Definition tick (s : cmos) : cmos := Cmos (cm_reg s) (S (cm_time s)).

Definition CONV (x : Z) : Z := Z.shiftr x 4 * 10 + Z.land x 0xf.

Definition conv_date (t : rtcdate) : rtcdate :=
  Rtcdate (CONV (second t)) (CONV (minute t)) (CONV (hour t)) (CONV (day t)) (CONV (month t)) (CONV (year t)).

Section cmos.
(** What a register holds at a time. *)
Context (clock : nat → Z → Z).

Definition cmos_read (reg : Z) : M cmos Z :=
  modify (out_cmos reg);;
  v ← gets (λ s, clock (cm_time s) (cm_reg s));
  modify tick;;
  mret v.

Definition fill_rtcdate : M cmos rtcdate :=
  s ← cmos_read SECS;
  m ← cmos_read MINS;
  h ← cmos_read HOURS;
  d ← cmos_read DAY;
  mo ← cmos_read MONTH;
  y ← cmos_read YEAR;
  mret (Rtcdate s m h d mo y).

Fixpoint cmostime_loop (fuel : nat) : M cmos rtcdate :=
  match fuel with
  | O => spin
  | S fuel' =>
    t1 ← fill_rtcdate;
    a ← cmos_read CMOS_STATA;
    if negb (Z.land a CMOS_UIP =? 0) then cmostime_loop fuel' else
    t2 ← fill_rtcdate;
    if decide (t1 = t2) then mret t1 else cmostime_loop fuel'
  end.

Definition cmostime (fuel : nat) : M cmos rtcdate :=
  sb ← cmos_read CMOS_STATB;
  let bcd := Z.land sb (Z.shiftl 1 2) =? 0 in
  t1 ← cmostime_loop fuel;
  let t1 := if bcd then conv_date t1 else t1 in
  mret (Rtcdate (second t1) (minute t1) (hour t1) (day t1) (month t1) (u32 (year t1 + 2000))).
End cmos.

(** ** The I/O controller routes what was enabled *)

(** What an entry of the redirection table makes of an interrupt: nothing if
    it is masked, otherwise the vector, the other configuration bits and the
    processor. *)
Record route := Route { rt_vector : Z; rt_config : Z; rt_cpu : Z }.

Definition io_get (s : ioapicst) (r : Z) : Z := default 0 (io_regs s !! r).

Definition redirect (s : ioapicst) (i : Z) : option route :=
  let lo := io_get s (REG_TABLE + 2 * i) in
  let hi := io_get s (REG_TABLE + 2 * i + 1) in
  if Z.testbit lo 16 then None else Some (Route (Z.land lo 0xff) (Z.shiftr lo 8) (Z.shiftr hi 24)).

(** The interrupts below [n] are routed as [f] says, each to its vector,
    edge-triggered and active high. *)
Definition routes (s : ioapicst) (n : Z) (f : Z → option Z) : Prop :=
  ∀ i, 0 ≤ i < n → redirect s i = Route (T_IRQ0 + i) 0 <$> f i.

(** The registers of entry [i] hold [lo] and [hi], and the others what they
    held before. *)
Definition set_entry (i lo hi : Z) (s s' : ioapicst) : Prop :=
  io_get s' (REG_TABLE + 2 * i) = lo ∧ io_get s' (REG_TABLE + 2 * i + 1) = hi ∧
  ∀ r, r ≠ REG_TABLE + 2 * i → r ≠ REG_TABLE + 2 * i + 1 → io_get s' r = io_get s r.

Lemma entry_write i lo hi s (Q : () → ioapicst → Prop) :
  0 ≤ i < 120 → (∀ s', set_entry i (u32 lo) (u32 hi) s s' → Q tt s') →
  wp (ioapicwrite (REG_TABLE + 2 * i) lo;; ioapicwrite (REG_TABLE + 2 * i + 1) hi) Q s.
Proof.
  intros Hi HQ. refine (HQ _ _). unfold set_entry, io_get. cbn.
  assert (∀ x, 0 ≤ x < 256 → u8 x = x) as U by (intros; by apply Z.mod_small). unfold REG_TABLE.
  rewrite !U by lia. split_and!; [by rewrite lookup_insert_ne, lookup_insert_eq by lia|by rewrite lookup_insert_eq|].
  intros r H1 H2. by rewrite !lookup_insert_ne by lia.
Qed.

Lemma redirect_entry i lo hi s s' j :
  set_entry i lo hi s s' →
  redirect s' j = if decide (j = i) then if Z.testbit lo 16 then None else Some (Route (Z.land lo 0xff) (Z.shiftr lo 8) (Z.shiftr hi 24))
    else redirect s j.
Proof.
  intros (L & H & O). unfold redirect. destruct (decide (j = i)) as [->|E]; [by rewrite L, H|]. by rewrite !O by lia.
Qed.

Lemma masked_entry i : Z.testbit (u32 (Z.lor INT_DISABLED (T_IRQ0 + i))) 16 = true.
Proof. unfold u32. by rewrite Z.mod_pow2_bits_low, Z.lor_spec by lia. Qed.

Lemma ioapicinit_loop_wp n i s (Q : () → ioapicst → Prop) :
  0 ≤ i → i + Z.of_nat n ≤ 120 → routes s i (λ _, None) →
  (∀ s', routes s' (i + Z.of_nat n) (λ _, None) → Q tt s') → wp (ioapicinit_loop i n) Q s.
Proof.
  revert i s. induction n as [|n IH]; intros i s Hi Hn R HQ; cbn [ioapicinit_loop].
  - apply wp_ret, HQ. by rewrite Z.add_0_r.
  - apply wp_bind_assoc, wp_bind, entry_write; [lia|]. intros s1 E1. apply IH; [lia|lia| |].
    + intros j Hj. rewrite (redirect_entry _ _ _ _ _ j E1), masked_entry. case_decide; [done|]. apply R. lia.
    + intros s' R'. apply HQ. by replace (i + Z.of_nat (S n)) with (i + 1 + Z.of_nat n) by lia.
Qed.

Lemma ioapicenable_wp irq cpu n f s (Q : () → ioapicst → Prop) :
  0 ≤ irq < n → n ≤ 120 → 0 ≤ cpu < 256 → routes s n f →
  (∀ s', routes s' n (λ i, if irq =? i then Some cpu else f i) → Q tt s') → wp (ioapicenable irq cpu) Q s.
Proof.
  intros Hi Hn Hc R HQ. apply entry_write; [lia|]. intros s' E. apply HQ. intros j Hj. rewrite (redirect_entry _ _ _ _ _ j E).
  rewrite Z.shiftl_mul_pow2, !u32_small by (unfold T_IRQ0; lia). destruct (decide (j = irq)) as [->|Hne].
  - rewrite Z.eqb_refl. assert (Z.testbit (T_IRQ0 + irq) 16 = false) as ->.
    { apply Z.testbit_false; [lia|]. rewrite Z.div_small by (unfold T_IRQ0; lia). done. }
    rewrite (Z.land_ones _ 8), !Z.shiftr_div_pow2, Z.mod_small, (Z.div_small (T_IRQ0 + irq)), Z.div_mul by (unfold T_IRQ0; lia). done.
  - rewrite (proj2 (Z.eqb_neq irq j)) by done. by apply R.
Qed.

(** The processor an interrupt goes to after a sequence of calls. *)
Definition routed (l : list (Z * Z)) (i : Z) : option Z := foldl (λ r x, if x.1 =? i then Some x.2 else r) None l.

Fixpoint enable_all (l : list (Z * Z)) : M ioapicst () :=
  match l with [] => mret tt | (irq, cpu) :: l' => ioapicenable irq cpu;; enable_all l' end.

Lemma enable_all_wp l n f s (Q : () → ioapicst → Prop) :
  Forall (λ x, 0 ≤ x.1 < n ∧ 0 ≤ x.2 < 256) l → n ≤ 120 → routes s n f →
  (∀ s', routes s' n (λ i, foldl (λ r x, if x.1 =? i then Some x.2 else r) (f i) l) → Q tt s') → wp (enable_all l) Q s.
Proof.
  intros F Hn. revert f s. induction F as [|[irq cpu] l [Hi Hc] F IH]; intros f s R HQ; cbn [enable_all]; [by apply wp_ret, HQ|].
  apply wp_bind. by apply (ioapicenable_wp irq cpu n f); [..|intros s1 R1; eapply IH].
Qed.

(** The number of interrupts the controller says it has. *)
Definition intrs (s : ioapicst) : Z := Z.land (Z.shiftr (io_get s REG_VER) 16) 0xFF + 1.

(** The interrupts a device can raise are the ones its driver enabled:
    after [ioapicinit] and any sequence of calls of [ioapicenable], an
    interrupt that was enabled is delivered to the processor named last,
    edge-triggered and active high, under the vector [T_IRQ0] plus its
    number, which is the one [trap] tells it by; every other interrupt is
    masked, whatever the table held before. *)
Theorem ioapic_routes ioapicid l s :
  intrs s ≤ 120 → Forall (λ x, 0 ≤ x.1 < intrs s ∧ 0 ≤ x.2 < 256) l →
  wp (ioapicinit ioapicid;; enable_all l) (λ _ s', ∀ i, 0 ≤ i < intrs s →
    redirect s' i = match routed l i with Some cpu => Some (Route (T_IRQ0 + i) 0 cpu) | None => None end) s.
Proof.
  intros Hn F. assert (0 ≤ Z.land (Z.shiftr (io_get s REG_VER) 16) 0xFF) as H0 by (apply Z.land_nonneg; lia).
  apply wp_bind. unfold ioapicinit, ioapicread. apply wp_bind, wp_bind, wp_modify, wp_gets. apply wp_bind, wp_bind, wp_modify, wp_gets.
  apply wp_bind, (wp_mono _ (λ _ _, True)); [by apply wp_when|]. intros _ s1 _.
  change (Z.land (Z.shiftr (io_data _) 16) 0xFF + 1) with (intrs s). fold (intrs s) in H0.
  apply ioapicinit_loop_wp; [done|unfold intrs in *; lia|intros i Hi; lia|]. intros s2 R2. rewrite Z.add_0_l, Z2Nat.id in R2 by (unfold intrs; lia).
  apply (enable_all_wp l (intrs s) (λ _, None)); [done|done|done|]. intros s3 R3 i Hi. by rewrite R3.
Qed.

(** The drivers of the console and the disk, on two processors. *)
Lemma ioapic_routes_witness :
  wp (ioapicinit 2;; enable_all [(IRQ_KBD, 0); (IRQ_COM1, 0); (IRQ_IDE, 1)])
    (λ _ s', redirect s' IRQ_IDE = Some (Route 46 0 1) ∧ redirect s' 5 = None)
    (Ioapicst 0 {[ REG_VER := 0x00170011; REG_ID := 0x02000000 ]} false).
Proof.
  eapply wp_mono; [apply ioapic_routes; [vm_compute; discriminate|repeat constructor; vm_compute; (reflexivity || discriminate)]|].
  intros ? s' H. split; [apply (H IRQ_IDE)|apply (H 5)]; split; vm_compute; (reflexivity || discriminate).
Defined.

(** ** Starting a processor *)

(** The commands a processor with the given id receives: what is written to
    [ICRLO] while it is the destination in [ICRHI]. *)
Fixpoint commands (dest apicid : Z) (l : list access) : list Z :=
  match l with
  | [] => []
  | Lapic index v :: l' =>
    if index =? ICRHI then commands (Z.shiftr v 24) apicid l'
    else if (index =? ICRLO) && (dest =? apicid) then v :: commands dest apicid l'
    else commands dest apicid l'
  | _ :: l' => commands dest apicid l'
  end.

(** Only the processor that is meant receives the commands: a reset, its
    end, and twice the start at the page of [addr], which is also the
    real-mode address (segment and offset) in the warm reset vector. *)
Lemma lapicstartap_commands apicid id addr l dest :
  0 ≤ apicid < 256 → 0 ≤ addr < 2 ^ 20 → addr mod 4096 = 0 →
  ∃ l', lapicstartap apicid addr l = Ok tt (l ++ l') ∧
    commands dest id l' =
      (if decide (id = apicid) then [0xC500; 0x8500; 0x600 + addr / 4096; 0x600 + addr / 4096] else []) ∧
    Mem16 (P2V 0x467) 0 ∈ l' ∧ ∃ seg, Mem16 (P2V 0x467 + 2) seg ∈ l' ∧ 16 * seg + 0 = addr.
Proof.
  intros Ha Hd Hm. eexists. split.
  { unfold lapicstartap, startup_ipi, lapicw, emit, modify, mbind, M_bind. cbv beta iota zeta. by rewrite <- !app_assoc. }
  assert (u32 (Z.lor STARTUP (Z.shiftr addr 12)) = 0x600 + addr / 4096) as E.
  { rewrite Z.shiftr_div_pow2 by lia. change (2 ^ 12) with 4096. assert (0 ≤ addr / 4096 < 256) as Hp.
    { split; [apply Z.div_pos; lia|apply Z.div_lt_upper_bound; lia]. }
    rewrite (lor_high 8) by done. unfold STARTUP. rewrite u32_small; lia. }
  assert (Z.shiftr (u32 (Z.shiftl apicid 24)) 24 = apicid) as Ei.
  { rewrite Z.shiftl_mul_pow2, u32_small, Z.shiftr_div_pow2, Z.div_mul by lia. done. }
  rewrite E. cbn [app commands]. change (ICRHI =? ICRHI) with true. change (ICRLO =? ICRHI) with false. change (ICRLO =? ICRLO) with true.
  cbn [andb]. rewrite Ei. split; [|split].
  - destruct (decide (id = apicid)) as [->|Hne]; [by rewrite Z.eqb_refl|by rewrite (proj2 (Z.eqb_neq apicid id)) by done].
  - change (Z.lor _ 0x67) with 0x467. right. right. left.
  - exists (addr / 16). change (Z.lor _ 0x67) with 0x467. rewrite Z.shiftr_div_pow2 by lia. change (2 ^ 4) with 16.
    assert (u16 (addr / 16) = addr / 16) as ->.
    { apply Z.mod_small. split; [apply Z.div_pos; lia|apply Z.div_lt_upper_bound; lia]. }
    split; [right; right; right; left|]. pose proof (Z.div_mod addr 16 ltac:(lia)) as Dm.
    pose proof (Z.div_mod addr 4096 ltac:(lia)). enough (addr mod 16 = 0) by lia.
    rewrite H, Hm, Z.add_0_r. change 4096 with (256 * 16). rewrite Z.mul_comm, Z.mul_assoc. apply Z.mod_mul. lia.
Qed.

(** ** The local controller after lapicinit *)

(** What was last written to a register. *)
Definition setting (l : list access) (index : Z) : option Z :=
  foldl (λ r a, match a with Lapic i v => if i =? index then Some v else r | _ => r end) None l.

Lemma setting_app l1 l2 i : setting (l1 ++ l2) i = match setting l2 i with Some v => Some v | None => setting l1 i end.
Proof.
  unfold setting. rewrite foldl_app. set (step := λ _ _, _). generalize (foldl step None l1) as r.
  induction l2 as [|a l2 IH]; intros r; [done|]. cbn [foldl]. rewrite (IH (step r a)), (IH (step None a)).
  destruct (foldl step None l2); [done|]. subst step. cbn. destruct a as [j v| | |]; [by destruct (j =? i)|done..].
Qed.

Lemma wait_delivs_reads rd k fuel l :
  (k < fuel)%nat → Z.land (rd (l ++ repeat (Read ICRLO) k) ICRLO) DELIVS = 0 →
  ∃ n, wait_delivs rd fuel l = Ok tt (l ++ repeat (Read ICRLO) n).
Proof.
  revert k l. induction fuel as [|fuel IH]; intros k l Hk E; [lia|]. cbn [wait_delivs].
  unfold lapicr, emit, gets, modify, mret, M_ret, mbind, M_bind. cbv beta iota.
  destruct (Z.eqb_spec (Z.land (rd l ICRLO) DELIVS) 0) as [E0|E0]; cbn [negb]; [exists 1%nat; reflexivity|].
  destruct k as [|k]; [cbn [repeat] in E; rewrite app_nil_r in E; congruence|]. destruct (IH k (l ++ [Read ICRLO])) as [n Hn]; [lia| |].
  - by rewrite <- app_assoc.
  - exists (S n). rewrite Hn, <- app_assoc. done.
Qed.

Lemma setting_reads n i : setting (repeat (Read ICRLO) n) i = None.
Proof. induction n as [|n IH]; [done|exact IH]. Qed.

(** If the broadcast is delivered in the end, whatever the version, the
    controller is enabled, the clock ticks periodically under the vector
    that [trap] takes for it, the lines of the old controllers are masked,
    and no interrupt is held back by its priority. *)
Lemma lapicinit_settings rd fuel l :
  (∀ l, ∃ k, (k < fuel)%nat ∧ Z.land (rd (l ++ repeat (Read ICRLO) k) ICRLO) DELIVS = 0) →
  ∃ l', lapicinit true rd fuel l = Ok tt l' ∧
    setting l' SVR = Some (0x100 + (T_IRQ0 + IRQ_SPURIOUS)) ∧ setting l' TIMER = Some (0x20000 + (T_IRQ0 + IRQ_TIMER)) ∧
    setting l' TICR = Some 10000000 ∧ setting l' LINT0 = Some MASKED ∧ setting l' LINT1 = Some MASKED ∧ setting l' TPR = Some 0.
Proof.
  intros Hd. unfold lapicinit, lapicw, lapicr, emit, when, gets, modify, mret, M_ret, mbind, M_bind. cbn [negb]. cbv beta iota zeta.
  match goal with |- context [4 <=? ?v] => destruct (4 <=? v) end; unfold mret, M_ret; cbv beta iota;
    match goal with |- context [wait_delivs rd fuel ?l0] =>
      destruct (Hd l0) as (k & Hk & E); destruct (wait_delivs_reads rd k fuel l0 Hk E) as [n ->] end;
    eexists; (split; [reflexivity|]); rewrite !setting_app, !setting_reads; split_and!; reflexivity.
Qed.

(** ** The time of day *)

Section time.
(** The date the clock keeps at every time, and the registers that show it,
    in binary or in BCD, with the hour from 0 to 23; the mode does not change. *)
Context (clock : nat → Z → Z) (now : nat → rtcdate) (binary : bool).

Definition shown_as (v : Z) : Z := if binary then v else 16 * (v / 10) + v mod 10.

Definition raw (d : rtcdate) : rtcdate :=
  Rtcdate (shown_as (second d)) (shown_as (minute d)) (shown_as (hour d)) (shown_as (day d)) (shown_as (month d))
    (shown_as (year d - 2000)).

(** The clock announces that it changes its registers. *)
Definition updating (t : nat) : bool := negb (Z.land (clock t CMOS_STATA) CMOS_UIP =? 0).

Record rtc : Prop := {
  rtc_mode t : (Z.land (clock t CMOS_STATB) 4 =? 0) = negb binary;
  (** the registers hold the date except during an update, when they hold anything *)
  rtc_regs t : updating t = false →
    Rtcdate (clock t SECS) (clock t MINS) (clock t HOURS) (clock t DAY) (clock t MONTH) (clock t YEAR) = raw (now t);
  rtc_fields t : Forall (λ v, 0 ≤ v < 100) [second (now t); minute (now t); hour (now t); day (now t); month (now t); year (now t) - 2000];
  (** during two readings of the date there is at most one update, from [a] to [b] *)
  rtc_slow t : ∃ a b, ∀ k, (t ≤ k < t + 26)%nat →
    ((k < a)%nat → updating k = false ∧ now k = now t) ∧ ((a ≤ k < b)%nat → updating k = true) ∧
    ((a ≤ k)%nat → (b ≤ k)%nat → updating k = false ∧ now k = now (t + 25)%nat);
}.

(** The clock is left alone from [T] on, long enough for two readings. *)
Definition quiet_at (T : nat) : Prop :=
  ∀ k, (T ≤ k < T + 52)%nat → now k = now T ∧ updating k = false.

Context (R : rtc).

(** What [fill_rtcdate] reads, register by register. *)
Definition reading (t : nat) : rtcdate :=
  Rtcdate (clock (1 + t) SECS) (clock (3 + t) MINS) (clock (5 + t) HOURS) (clock (7 + t) DAY) (clock (9 + t) MONTH)
    (clock (11 + t) YEAR).

Lemma fill_run r t : fill_rtcdate clock (Cmos r t) = Ok (reading t) (Cmos YEAR (12 + t)).
Proof using Type. reflexivity. Qed.

(** A reading outside of any update is the date. *)
Lemma reading_date t d :
  (∀ k, (1 + t ≤ k ≤ 11 + t)%nat → updating k = false ∧ now k = d) → reading t = raw d.
Proof using R.
  intros H. assert (∀ k, (1 + t ≤ k ≤ 11 + t)%nat →
    Rtcdate (clock k SECS) (clock k MINS) (clock k HOURS) (clock k DAY) (clock k MONTH) (clock k YEAR) = raw d) as A.
  { intros k Hk. destruct (H k Hk) as [U <-]. by apply R. }
  pose proof (A (1 + t)%nat ltac:(lia)) as [= E1 _ _ _ _ _]. pose proof (A (3 + t)%nat ltac:(lia)) as [= _ E2 _ _ _ _].
  pose proof (A (5 + t)%nat ltac:(lia)) as [= _ _ E3 _ _ _]. pose proof (A (7 + t)%nat ltac:(lia)) as [= _ _ _ E4 _ _].
  pose proof (A (9 + t)%nat ltac:(lia)) as [= _ _ _ _ E5 _]. pose proof (A (11 + t)%nat ltac:(lia)) as [= _ _ _ _ _ E6].
  unfold reading, raw. simpl in *. congruence.
Qed.

(** Two readings that agree, with no update announced between them, are the
    date at one moment. *)
Lemma readings_agree t : updating (13 + t) = false → reading t = reading (14 + t) →
  ∃ k, (t ≤ k < 26 + t)%nat ∧ reading t = raw (now k).
Proof using R.
  intros U E. destruct (rtc_slow R t) as (a & b & H). destruct (decide (13 + t < a)%nat) as [Ha|Ha].
  - exists t. split; [lia|]. apply reading_date. intros k Hk. apply (H k); lia.
  - exists (t + 25)%nat. split; [lia|]. rewrite E. apply reading_date.
    destruct (decide (13 + t < b)%nat) as [Hb|Hb].
    { destruct (H (13 + t)%nat ltac:(lia)) as (_ & C & _). rewrite C in U by lia. done. }
    intros k Hk. apply (H k); lia.
Qed.

Lemma cmostime_loop_wp T fuel r t (Q : rtcdate → cmos → Prop) :
  quiet_at T → (t ≤ T + 26)%nat → (T - t < fuel)%nat →
  (∀ k s', (t ≤ k < cm_time s')%nat → Q (raw (now k)) s') → wp (cmostime_loop clock fuel) Q (Cmos r t).
Proof using R.
  intros HT. revert r t. induction fuel as [|fuel IH]; intros r t Ht Hf HQ; [lia|]. cbn [cmostime_loop].
  apply wp_bind. eapply wp_run; [apply fill_run|]. apply wp_bind. eapply wp_run; [reflexivity|].
  cbn [out_cmos cm_time cm_reg]. change (negb (Z.land (clock (S (12 + t)) CMOS_STATA) CMOS_UIP =? 0)) with (updating (13 + t)).
  destruct (updating (13 + t)) eqn:Eu.
  - destruct (decide (T ≤ t)%nat) as [Hq|Hq]; [destruct (HT (13 + t)%nat) as [_ U]; [lia|congruence]|].
    apply IH; [cbn; lia|cbn; lia|]. intros k s' Hk. apply HQ. cbn in Hk. lia.
  - apply wp_bind. eapply wp_run; [apply fill_run|]. destruct (decide _) as [E|E].
    + destruct (readings_agree t Eu E) as (k & Hk & ->). apply wp_ret, HQ. cbn. lia.
    + destruct (decide (T ≤ t)%nat) as [Hq|Hq].
      * exfalso. apply E. cbn [tick out_cmos cm_time].
        rewrite (reading_date t (now T)), (reading_date (S (S (12 + t))) (now T)); [done|..];
          intros k Hk; destruct (HT k); lia || done.
      * apply IH; [cbn; lia|cbn; lia|]. intros k s' Hk. apply HQ. cbn in Hk. lia.
Qed.

Lemma CONV_bcd v : 0 ≤ v < 100 → CONV (16 * (v / 10) + v mod 10) = v.
Proof using Type.
  intros Hv. unfold CONV. rewrite Z.shiftr_div_pow2, (Z.land_ones _ 4) by lia. change (2 ^ 4) with 16.
  pose proof (Z.mod_pos_bound v 10 ltac:(lia)). pose proof (Z.div_mod v 10 ltac:(lia)).
  rewrite <- (Z.div_unique (16 * (v / 10) + v mod 10) 16 (v / 10) (v mod 10)), <- (Z.mod_unique (16 * (v / 10) + v mod 10) 16 (v / 10) (v mod 10)) by lia.
  lia.
Qed.

(** C36. The date read from the real-time clock is the date at one moment of
    the call, never a mixture of two and never what the registers hold
    while the clock changes them, although the clock goes on between the
    reads: if there is at most one update during two readings, the clock
    announces it in status register A as long as it lasts, the hour counts
    from 0 to 23 and the year from 2000, and the clock is left alone for
    long enough at some time, the loop ends and [cmostime] returns the date
    of a moment between its start and its end, whether the registers are in
    binary or in BCD. *)
Theorem cmostime_consistent T fuel r t :
  quiet_at T → (t ≤ T)%nat → (T - t < fuel)%nat →
  wp (cmostime clock fuel) (λ d s', ∃ k, (t ≤ k < cm_time s')%nat ∧ d = now k) (Cmos r t).
Proof using R.
  intros HT Ht Hf. unfold cmostime. apply wp_bind. eapply wp_run; [reflexivity|]. cbn [out_cmos cm_time cm_reg].
  apply wp_bind, (cmostime_loop_wp T); [done|cbn; lia|cbn; lia|]. intros k s' Hk. apply wp_ret. exists k. split; [cbn in Hk; lia|].
  change (Z.shiftl 1 2) with 4. rewrite (rtc_mode R). pose proof (rtc_fields R k) as F. rewrite !Forall_cons in F.
  destruct F as (F1 & F2 & F3 & F4 & F5 & F6 & _). unfold raw, conv_date, shown_as. destruct binary; cbn [negb].
  - destruct (now k). cbn in *. rewrite u32_small by lia. f_equal. lia.
  - cbn [second minute hour day month year]. rewrite !CONV_bcd by done. destruct (now k). cbn in *. rewrite u32_small by lia. f_equal. lia.
Qed.
End time.

(** New year during the first reading, with an update that lasts until the
    status is read and shows nonsense meanwhile. *)
Definition demo_now (t : nat) : rtcdate :=
  if decide (t < 6)%nat then Rtcdate 59 59 23 31 12 2025 else Rtcdate 0 0 0 1 1 2026.
Definition demo_clock (t : nat) (reg : Z) : Z :=
  let d := raw false (demo_now t) in
  let busy := bool_decide (6 ≤ t < 16)%nat in
  if reg =? CMOS_STATB then 2 else if reg =? CMOS_STATA then (if busy then 0xa6 else 0x26) else
  if busy then 0xff else
  if reg =? SECS then second d else if reg =? MINS then minute d else if reg =? HOURS then hour d
  else if reg =? DAY then day d else if reg =? MONTH then month d else year d.

Lemma demo_updating t : updating demo_clock t = bool_decide (6 ≤ t < 16)%nat.
Proof. unfold updating, demo_clock. cbn [Z.eqb]. by destruct (bool_decide _). Qed.

Lemma demo_rtc : rtc demo_clock demo_now false.
Proof.
  split.
  - done.
  - intros t. rewrite demo_updating. unfold demo_clock. intros ->. cbn [Z.eqb]. by destruct (raw false (demo_now t)).
  - intros t. unfold demo_now. destruct (decide _); repeat constructor; vm_compute; done.
  - intros t. exists 6%nat, 16%nat. intros k Hk. rewrite demo_updating. unfold demo_now.
    split_and!; intros; repeat case_decide; try lia; try (split; [|done]);
      (apply bool_decide_eq_true || apply bool_decide_eq_false); lia.
Qed.

Lemma cmostime_consistent_witness :
  wp (cmostime demo_clock 18) (λ d s', (d = Rtcdate 59 59 23 31 12 2025 ∨ d = Rtcdate 0 0 0 1 1 2026) ∧ (40 < cm_time s')%nat) (Cmos 0 0).
Proof.
  assert (wp (cmostime demo_clock 18) (λ _ s', (40 < cm_time s')%nat) (Cmos 0 0)) as W by (vm_compute; lia).
  pose proof (cmostime_consistent demo_clock demo_now false demo_rtc 16 18 0 0) as H. unfold wp in *.
  destruct (cmostime demo_clock 18 (Cmos 0 0)) as [d s'| | | |]; try done. split; [|done].
  destruct H as (k & _ & ->); [|lia|lia|unfold demo_now; case_decide; auto].
  intros k Hk. rewrite demo_updating. unfold demo_now. rewrite !decide_False by lia.
  split; [done|]. apply bool_decide_eq_false. lia.
Defined.
