(* ===== verification/Mp.v ===== *)
(** Finding the processors (mp.c): the search for the BIOS's MP tables in
    memory and the walk over their entries. *)

From S2P Require Import Prelude Memory Mmu.

(** ** Layouts (mp.h, param.h) *)

Definition NCPU : Z := 8.

Definition MPPROC : Z := 0x00.
Definition MPBUS : Z := 0x01.
Definition MPIOAPIC : Z := 0x02.
Definition MPIOINTR : Z := 0x03.
Definition MPLINTR : Z := 0x04.

Definition rd16 (m : memory) (a : Z) : Z := rd8 m a + 256 * rd8 m (a + 1).

(** [struct mp] *)
Definition sizeof_mp : Z := 16.
Definition mp_physaddr (m : memory) (mp : Z) : Z := rd32 m (mp + 4).
Definition mp_imcrp (m : memory) (mp : Z) : Z := rd8 m (mp + 12).

(** [struct mpconf] *)
Definition sizeof_mpconf : Z := 44.
Definition mpconf_length (m : memory) (conf : Z) : Z := rd16 m (conf + 4).
Definition mpconf_version (m : memory) (conf : Z) : Z := rd8 m (conf + 6).
Definition mpconf_lapicaddr (m : memory) (conf : Z) : Z := rd32 m (conf + 36).

(** [struct mpproc], [struct mpioapic] *)
Definition sizeof_mpproc : Z := 20.
Definition mpproc_apicid (m : memory) (p : Z) : Z := rd8 m (p + 1).
Definition sizeof_mpioapic : Z := 8.
Definition mpioapic_apicno (m : memory) (p : Z) : Z := rd8 m (p + 1).

(** ** The search *)

(** [memcmp(p, s, 4) == 0] for a literal [s]. *)
Definition has_sig (m : memory) (p : Z) (s : list Z) : bool :=
  forallb (λ x : Z * Z, rd8 m (p + x.1) =? x.2) (zip (seqZ 0 4) s).

Definition sig_mp : list Z := [95; 77; 80; 95].
Definition sig_pcmp : list Z := [80; 67; 77; 80].

Definition sum (m : memory) (addr len : Z) : Z := u8 (foldr (λ i s, rd8 m (addr + i) + s) 0 (seqZ 0 len)).

Definition is_mp (m : memory) (p : Z) : bool := has_sig m p sig_mp && (sum m p sizeof_mp =? 0).

(** A null pointer is 0. *)
Fixpoint mpsearch1_loop (m : memory) (p e : Z) (fuel : nat) : Z :=
  match fuel with
  | O => 0
  | S fuel => if p <? e then if is_mp m p then p else mpsearch1_loop m (p + sizeof_mp) e fuel else 0
  end.

Definition mpsearch1 (m : memory) (a len : Z) : Z :=
  let addr := P2V a in
  mpsearch1_loop m addr (addr + len) (Z.to_nat (len / sizeof_mp) + 1).

Definition mpsearch (m : memory) : Z :=
  let bda := P2V 0x400 in
  let p := Z.shiftl (Z.lor (Z.shiftl (rd8 m (bda + 0x0F)) 8) (rd8 m (bda + 0x0E))) 4 in
  let mp := if negb (p =? 0) then mpsearch1 m p 1024
            else mpsearch1 m (u32 (Z.lor (Z.shiftl (rd8 m (bda + 0x14)) 8) (rd8 m (bda + 0x13)) * 1024 - 1024)) 1024 in
  if negb (mp =? 0) then mp else mpsearch1 m 0xF0000 0x10000.

(** The structure and the table, or nothing. *)
Definition mpconfig (m : memory) : option (Z * Z) :=
  let mp := mpsearch m in
  if (mp =? 0) || (mp_physaddr m mp =? 0) then None else
  let conf := P2V (mp_physaddr m mp) in
  if negb (has_sig m conf sig_pcmp) then None else
  if negb (mpconf_version m conf =? 1) && negb (mpconf_version m conf =? 4) then None else
  if negb (sum m conf (mpconf_length m conf) =? 0) then None else
  Some (mp, conf).

(** ** mpinit *)

(** The globals it sets, and what it writes to I/O ports. *)
Record mpst := Mpst { ncpu : Z; apicids : list Z; ioapicid : Z; lapic : Z; outs : list (Z * Z) }.

Definition add_cpu (apicid : Z) (s : mpst) : mpst :=
  if ncpu s <? NCPU
  then Mpst (ncpu s + 1) (<[Z.to_nat (ncpu s) := apicid]> (apicids s)) (ioapicid s) (lapic s) (outs s) else s.
Definition set_ioapicid (x : Z) (s : mpst) : mpst := Mpst (ncpu s) (apicids s) x (lapic s) (outs s).
Definition set_lapic (x : Z) (s : mpst) : mpst := Mpst (ncpu s) (apicids s) (ioapicid s) x (outs s).
Definition outb (port x : Z) (s : mpst) : mpst := Mpst (ncpu s) (apicids s) (ioapicid s) (lapic s) (outs s ++ [(port, x)]).

(** The loop over the entries; the result is [ismp].  Nothing advances [p]
    at an entry of another type: the [break] there only leaves the switch. *)
Fixpoint mpinit_loop (m : memory) (p e : Z) (ismp : bool) (fuel : nat) : M mpst bool :=
  if negb (p <? e) then mret ismp else
  match fuel with
  | O => spin
  | S fuel =>
    let t := rd8 m p in
    if t =? MPPROC then modify (add_cpu (mpproc_apicid m p));; mpinit_loop m (p + sizeof_mpproc) e ismp fuel
    else if t =? MPIOAPIC then modify (set_ioapicid (mpioapic_apicno m p));; mpinit_loop m (p + sizeof_mpioapic) e ismp fuel
    else if (t =? MPBUS) || (t =? MPIOINTR) || (t =? MPLINTR) then mpinit_loop m (p + 8) e ismp fuel
    else mpinit_loop m p e false fuel
  end.

(** [in23] is what the port 0x23 reads. *)
Definition mpinit (m : memory) (in23 : Z) (fuel : nat) : M mpst () :=
  match mpconfig m with
  | None => panic "Expect to run on an SMP"
  | Some (mp, conf) =>
    modify (set_lapic (mpconf_lapicaddr m conf));;
    ismp ← mpinit_loop m (conf + sizeof_mpconf) (conf + mpconf_length m conf) true fuel;
    if negb ismp then panic "Didn't find a suitable machine" else
    when (negb (mp_imcrp m mp =? 0)) (
      modify (outb 0x22 0x70);;
      modify (outb 0x23 (Z.lor in23 1)))
  end.

(** ** The search finds the first structure *)

Lemma mpsearch1_loop_spec m p e n : e ≤ p + sizeof_mp * Z.of_nat n →
  let r := mpsearch1_loop m p e n in
  (∃ k, 0 ≤ k ∧ r = p + sizeof_mp * k ∧ r < e ∧ is_mp m r = true ∧ ∀ j, 0 ≤ j < k → is_mp m (p + sizeof_mp * j) = false) ∨
  (r = 0 ∧ ∀ j, 0 ≤ j → p + sizeof_mp * j < e → is_mp m (p + sizeof_mp * j) = false).
Proof.
  unfold sizeof_mp. revert p. induction n as [|n IH]; intros p Hn; cbn [mpsearch1_loop].
  { right. split; [done|]. intros j Hj Hlt. lia. }
  destruct (Z.ltb_spec p e) as [Hp|Hp]; [|right; split; [done|]; intros j Hj Hlt; lia].
  destruct (is_mp m p) eqn:Ev.
  - left. exists 0. split_and!; [lia|lia|lia|done|]. intros j Hj. lia.
  - assert (∀ j, 0 < j → p + 16 * j = p + sizeof_mp + 16 * (j - 1)) as Hs by (unfold sizeof_mp; lia).
    destruct (IH (p + sizeof_mp)) as [(k & Hk & E & He & Hv & Hno)|[E Hno]]; [unfold sizeof_mp; lia| |].
    + left. exists (k + 1). rewrite E in *. rewrite (Hs (k + 1)), Z.add_simpl_r by lia. split_and!; [lia|done|done|done|].
      intros j Hj. destruct (decide (j = 0)) as [->|]; [by rewrite Z.mul_0_r, Z.add_0_r|]. rewrite Hs by lia. apply Hno. lia.
    + right. split; [done|]. intros j Hj Hlt. destruct (decide (j = 0)) as [->|]; [by rewrite Z.mul_0_r, Z.add_0_r|].
      rewrite Hs in * by lia. apply Hno; [lia|done].
Qed.

(** [mpsearch1] returns the first valid structure at a multiple of 16 bytes
    from the start of the area, or null if there is none. *)
Theorem mpsearch1_first m a len : 0 ≤ len →
  let addr := P2V a in let r := mpsearch1 m a len in
  (∃ k, 0 ≤ k ∧ r = addr + sizeof_mp * k ∧ r < addr + len ∧ is_mp m r = true ∧
     ∀ j, 0 ≤ j < k → is_mp m (addr + sizeof_mp * j) = false) ∨
  (r = 0 ∧ ∀ j, 0 ≤ j → addr + sizeof_mp * j < addr + len → is_mp m (addr + sizeof_mp * j) = false).
Proof.
  intros Hl addr r. apply mpsearch1_loop_spec. unfold sizeof_mp. rewrite Nat2Z.inj_add, Z2Nat.id by (apply Z.div_pos; lia).
  pose proof (Z.div_mod len 16). pose proof (Z.mod_pos_bound len 16). lia.
Qed.

(** ** The entries of a table *)

Inductive mpentry :=
| MProc (apicid : Z) (rest : list Z)
| MIoapic (apicno : Z) (rest : list Z)
| MOther (type : Z) (rest : list Z).

Definition entry_bytes (x : mpentry) : list Z :=
  match x with
  | MProc a r => MPPROC :: a :: r
  | MIoapic a r => MPIOAPIC :: a :: r
  | MOther t r => t :: r
  end.
Definition entry_ok (x : mpentry) : Prop :=
  match x with
  | MProc _ r => length r = 18%nat
  | MIoapic _ r => length r = 6%nat
  | MOther t r => t ∈ [MPBUS; MPIOINTR; MPLINTR] ∧ length r = 7%nat
  end.

(** The processors and the I/O APICs of a table, in order. *)
Definition procs_of (es : list mpentry) : list Z := omap (λ x, match x with MProc a _ => Some a | _ => None end) es.
Definition ioapics_of (es : list mpentry) : list Z := omap (λ x, match x with MIoapic a _ => Some a | _ => None end) es.

(** The bytes [l] are at [a]. *)
Definition held (m : memory) (a : Z) (l : list Z) : Prop := ∀ k b, l !! k = Some b → rd8 m (a + Z.of_nat k) = b.

Lemma held_app m a l1 l2 : held m a (l1 ++ l2) → held m a l1 ∧ held m (a + Z.of_nat (length l1)) l2.
Proof.
  intros H. split; intros k b Hk.
  - apply H. by apply lookup_app_l_Some.
  - rewrite <- Z.add_assoc, <- Nat2Z.inj_add. apply H. by rewrite lookup_app_r, Nat.add_comm, Nat.add_sub by lia.
Qed.

(** What one entry does to the globals. *)
Definition run_entry (s : mpst) (x : mpentry) : mpst :=
  match x with MProc a _ => add_cpu a s | MIoapic a _ => set_ioapicid a s | MOther _ _ => s end.

Lemma mpinit_loop_run m es rest : ∀ p e ismp fuel s,
  Forall entry_ok es → held m p (concat (entry_bytes <$> es)) →
  p + Z.of_nat (length (concat (entry_bytes <$> es))) + rest = e → 0 ≤ rest →
  mpinit_loop m p e ismp (length es + fuel) s =
    mpinit_loop m (p + Z.of_nat (length (concat (entry_bytes <$> es)))) e ismp fuel (foldl run_entry s es).
Proof.
  induction es as [|x es IH]; intros p e ismp fuel s Hes Hh He Hr; [by rewrite Z.add_0_r|].
  apply Forall_cons in Hes as [Hx Hes]. cbn [fmap list_fmap concat] in *. apply held_app in Hh as [Hh1 Hh2].
  rewrite length_app, Nat2Z.inj_add, Z.add_assoc in *. cbn [length Nat.add foldl].
  assert (entry_bytes x !! 0%nat = Some (rd8 m p) ∧ (0 < length (entry_bytes x))%nat) as [H0 Hlen].
  { destruct x as [a r|a r|t r]; (split; [|cbn; lia]); pose proof (Hh1 0%nat _ eq_refl) as E; rewrite Z.add_0_r in E; by rewrite E. }
  cbn [mpinit_loop]. rewrite (proj2 (Z.ltb_lt p e)) by lia. cbn [negb].
  destruct x as [a r|a r|t r]; cbn [entry_bytes entry_ok run_entry] in *; injection H0 as H0; rewrite <- H0.
  - change (MPPROC =? MPPROC) with true. cbv iota. unfold mpproc_apicid. pose proof (Hh1 1%nat a eq_refl) as Ha. change (Z.of_nat 1) with 1 in Ha. rewrite Ha.
    erewrite bind_run; [|reflexivity]. cbn [length] in *. rewrite Hx in *. change (Z.of_nat 20) with sizeof_mpproc in *. by apply IH.
  - change (MPIOAPIC =? MPPROC) with false. change (MPIOAPIC =? MPIOAPIC) with true. cbv iota. unfold mpioapic_apicno.
    pose proof (Hh1 1%nat a eq_refl) as Ha. change (Z.of_nat 1) with 1 in Ha. rewrite Ha.
    erewrite bind_run; [|reflexivity]. cbn [length] in *. rewrite Hx in *. change (Z.of_nat 8) with sizeof_mpioapic in *. by apply IH.
  - destruct Hx as [Ht Hx]. cbn [length] in *. rewrite Hx in *. change (Z.of_nat 8) with 8 in *.
    rewrite !elem_of_cons in Ht. destruct Ht as [->|[->|[->|Ht%elem_of_nil]]]; [..|done]; cbn; by apply IH.
Qed.

(** ** What mpinit finds *)

(** The globals after the entries [es], starting from no processors. *)
Record found (es : list mpentry) (s0 s : mpst) : Prop := {
  fo_ncpu : ncpu s = NCPU `min` Z.of_nat (length (procs_of es));
  fo_len : length (apicids s) = Z.to_nat NCPU;
  fo_ids : take (Z.to_nat (ncpu s)) (apicids s) = take (Z.to_nat NCPU) (procs_of es);
  fo_ioapic : ioapicid s = default (ioapicid s0) (last (ioapics_of es));
  fo_lapic : lapic s = lapic s0;
  fo_outs : outs s = outs s0;
}.

Lemma found_nil s0 : ncpu s0 = 0 → length (apicids s0) = Z.to_nat NCPU → found [] s0 s0.
Proof. intros H1 H2. split; try done. by rewrite H1. Qed.

Lemma found_cpu es s0 s a r : found es s0 s → found (es ++ [MProc a r]) s0 (add_cpu a s).
Proof.
  intros [F1 F2 F3 F4 F5 F6].
  assert (procs_of (es ++ [MProc a r]) = procs_of es ++ [a]) as Ep by (unfold procs_of; by rewrite omap_app).
  assert (ioapics_of (es ++ [MProc a r]) = ioapics_of es) as Ei by (unfold ioapics_of; rewrite omap_app; by rewrite app_nil_r).
  unfold add_cpu. change NCPU with 8 in *. change (Z.to_nat 8) with 8%nat in *.
  destruct (Z.ltb_spec (ncpu s) 8) as [Hlt|Hge]; split; rewrite ?Ep, ?Ei, ?length_app;
    cbn [ncpu apicids ioapicid lapic outs length]; change NCPU with 8; change (Z.to_nat 8) with 8%nat; try done.
  - lia.
  - by rewrite length_insert.
  - assert (ncpu s = Z.of_nat (length (procs_of es))) as En by lia. rewrite En in *. clear En.
    assert (length (procs_of es) < 8)%nat as Hn by lia.
    replace (Z.to_nat (Z.of_nat (length (procs_of es)) + 1)) with (S (length (procs_of es))) by lia.
    rewrite Nat2Z.id in *. rewrite (take_ge (procs_of es)) in F3 by lia.
    rewrite (take_ge (_ ++ _)) by (rewrite length_app; cbn; lia).
    rewrite (take_S_r _ _ a) by (apply list_lookup_insert_eq; lia). by rewrite take_insert_ge, F3 by lia.
  - lia.
  - assert (8 ≤ length (procs_of es))%nat by lia. rewrite take_app_le by lia. done.
Qed.

Lemma found_run es s0 : ncpu s0 = 0 → length (apicids s0) = Z.to_nat NCPU → found es s0 (foldl run_entry s0 es).
Proof.
  intros H1 H2. induction es as [|x es IH] using rev_ind; [by apply found_nil|]. rewrite foldl_app. cbn [foldl].
  destruct x as [a r|a r|t r]; cbn [run_entry]; [by apply found_cpu|..]; destruct IH as [F1 F2 F3 F4 F5 F6];
    split; unfold procs_of, ioapics_of in *; rewrite ?omap_app, ?app_nil_r; cbn [ncpu apicids ioapicid lapic outs set_ioapicid]; try done.
  cbn. by rewrite last_snoc.
Qed.

(** C35. With a table that [mpconfig] accepts, made of entries of the five
    types, [mpinit] ends after the last of them: it knows the first [NCPU]
    processors in the order of the table, the I/O APIC named last and the
    address of the local APIC, and it writes to the two ports of the
    interrupt mode register exactly if the structure says that there is
    one. *)
Theorem mpinit_correct m in23 mp conf es fuel s0 :
  mpconfig m = Some (mp, conf) → Forall entry_ok es →
  mpconf_length m conf = sizeof_mpconf + Z.of_nat (length (concat (entry_bytes <$> es))) →
  held m (conf + sizeof_mpconf) (concat (entry_bytes <$> es)) → (length es ≤ fuel)%nat →
  ncpu s0 = 0 → length (apicids s0) = Z.to_nat NCPU →
  wp (mpinit m in23 fuel) (λ _ s,
    ncpu s = NCPU `min` Z.of_nat (length (procs_of es)) ∧
    take (Z.to_nat (ncpu s)) (apicids s) = take (Z.to_nat NCPU) (procs_of es) ∧
    ioapicid s = default (ioapicid s0) (last (ioapics_of es)) ∧ lapic s = mpconf_lapicaddr m conf ∧
    outs s = outs s0 ++ (if mp_imcrp m mp =? 0 then [] else [(0x22, 0x70); (0x23, Z.lor in23 1)])) s0.
Proof.
  intros Hc Hes Hlen Hh Hf H1 H2. unfold mpinit. rewrite Hc. apply wp_bind, wp_modify.
  set (s1 := set_lapic _ s0). pose proof (found_run es s1 H1 H2) as [F1 F2 F3 F4 F5 F6]. apply wp_bind.
  replace fuel with (length es + (fuel - length es))%nat by lia.
  eapply wp_run; [rewrite (mpinit_loop_run m es 0); [|done|done|rewrite Hlen; lia|lia]|].
  { rewrite Hlen. destruct (fuel - length es)%nat; cbn [mpinit_loop];
      by rewrite Z.add_assoc, Z.ltb_irrefl. }
  cbn [negb]. destruct (mp_imcrp m mp =? 0); cbn [negb when]; wp_auto; split_and!; try done;
    cbn [outs outb]; rewrite F6; [by rewrite app_nil_r|by rewrite <- app_assoc].
Qed.

(** An entry of another type is never passed: however long it runs,
    [mpinit] stays in the loop. *)
Theorem mpinit_unknown_entry m in23 mp conf es fuel s0 :
  mpconfig m = Some (mp, conf) → Forall entry_ok es →
  held m (conf + sizeof_mpconf) (concat (entry_bytes <$> es)) →
  let n := Z.of_nat (length (concat (entry_bytes <$> es))) in
  sizeof_mpconf + n < mpconf_length m conf →
  rd8 m (conf + sizeof_mpconf + n) ∉ [MPPROC; MPBUS; MPIOAPIC; MPIOINTR; MPLINTR] → (length es ≤ fuel)%nat →
  ∃ s, mpinit m in23 fuel s0 = Spin s.
Proof.
  intros Hc Hes Hh n Hlen Ht Hf. exists (foldl run_entry (set_lapic (mpconf_lapicaddr m conf) s0) es).
  assert (∀ k b s, mpinit_loop m (conf + sizeof_mpconf + n) (conf + mpconf_length m conf) b k s = Spin s) as Hs.
  { rewrite !not_elem_of_cons in Ht. destruct Ht as (T1 & T2 & T3 & T4 & T5 & _).
    induction k as [|k IH]; intros b s; cbn [mpinit_loop]; rewrite (proj2 (Z.ltb_lt _ _)) by lia; cbn [negb]; [done|].
    rewrite !(proj2 (Z.eqb_neq _ _)) by done. cbn [orb]. apply IH. }
  unfold mpinit. rewrite Hc. erewrite bind_run; [|reflexivity].
  replace fuel with (length es + (fuel - length es))%nat by lia. unfold mbind, M_bind.
  rewrite (mpinit_loop_run m es (mpconf_length m conf - sizeof_mpconf - n)); [|done|done|fold n; lia|lia]. fold n. by rewrite Hs.
Qed.

(** ** Two processors *)

Definition demo_entries : list mpentry :=
  [MProc 0 (replicate 18 20); MProc 1 (replicate 18 20); MOther MPBUS (replicate 7 0); MIoapic 2 (replicate 6 0)].
Definition demo_mp : list Z := [95; 77; 80; 95; 0; 16; 15; 0; 1; 4; 1; 0; 128; 0; 0; 0].
Definition demo_conf : list Z :=
  [80; 67; 77; 80; 100; 0; 4; 176; 0; 0; 0; 0; 0; 0; 0; 0] ++ replicate 16 0 ++
  [0; 0; 4; 0; 0; 0; 224; 254; 0; 0; 0; 0].
Definition put_list (m : memory) (a : Z) (l : list Z) : memory :=
  foldr (λ x m, wr8 m (a + x.1) x.2) m (zip (seqZ 0 (Z.of_nat (length l))) l).
Definition demo_memory : memory :=
  put_list (put_list ∅ (P2V 0xF0010) demo_mp) (P2V 0xF1000) (demo_conf ++ concat (entry_bytes <$> demo_entries)).

Lemma held_dec m a l : bool_decide (imap (λ k _, rd8 m (a + Z.of_nat k)) l = l) = true → held m a l.
Proof.
  intros E%bool_decide_eq_true k b Hk. apply (f_equal (λ x, x !! k)) in E. rewrite list_lookup_imap, Hk in E. by injection E.
Qed.

Lemma demo_mpconfig : mpconfig demo_memory = Some (P2V 0xF0010, P2V 0xF1000).
Proof. vm_compute. reflexivity. Qed.

Lemma demo_entries_ok : Forall entry_ok demo_entries.
Proof. repeat (apply Forall_cons; split; [done || (split; [by left|done])|]). done. Qed.

Lemma mpinit_correct_witness :
  wp (mpinit demo_memory 0 10) (λ _ s, ncpu s = 2 ∧ take 2 (apicids s) = [0; 1] ∧ ioapicid s = 2 ∧ lapic s = 0xFEE00000 ∧
    outs s = [(0x22, 0x70); (0x23, 1)]) (Mpst 0 (replicate 8 0) 0 0 []).
Proof.
  eapply wp_mono; [apply (mpinit_correct demo_memory 0 _ _ demo_entries 10 _ demo_mpconfig demo_entries_ok)|].
  - vm_compute. reflexivity.
  - apply held_dec. vm_compute. reflexivity.
  - cbn. lia.
  - reflexivity.
  - reflexivity.
  - intros [] s (H1 & H2 & H3 & H4 & H5). change (ncpu s = 2) in H1. rewrite H1 in H2. split; [exact H1|]. split; [exact H2|].
    split; [exact H3|]. split; [etrans; [exact H4|vm_compute; reflexivity]|etrans; [exact H5|vm_compute; reflexivity]].
Defined.
