(* ===== verification/Grep.v ===== *)
(** The user program grep (grep.c): its regular-expression matcher and the
    loop that cuts its input into lines.  A C string is the list of its bytes
    before the terminating zero; what [read] returns is a list of chunks. *)

From S2P Require Import Prelude.

(** ** The matcher *)

(** [matchstar(c, re, text)], where [mh] is [matchhere] of [re]. *)
Fixpoint matchstar (mh : list Z → bool) (c : Z) (text : list Z) : bool :=
  mh text ||
  match text with
  | t :: text' => ((t =? c) || (c =? 46)) && matchstar mh c text'
  | [] => false
  end.

Fixpoint matchhere (re text : list Z) : bool :=
  match re with
  | [] => true
  | c :: re1 =>
    let one :=
      if (c =? 36) && bool_decide (re1 = []) then bool_decide (text = []) else
      match text with
      | t :: text' => ((c =? 46) || (c =? t)) && matchhere re1 text'
      | [] => false
      end in
    match re1 with
    | d :: re2 => if d =? 42 then matchstar (matchhere re2) c text else one
    | [] => one
    end
  end.

(** The loop of [match] over the suffixes of the text. *)
Fixpoint match_loop (re text : list Z) : bool :=
  matchhere re text ||
  match text with
  | _ :: text' => match_loop re text'
  | [] => false
  end.

Definition match_re (re text : list Z) : bool :=
  match re with
  | c :: re' => if c =? 94 then matchhere re' text else match_loop re text
  | [] => match_loop re text
  end.

(** ** The lines of the input *)

(** [strchr(p, '\n')] in the buffer: the text before the newline and what
    comes after it, unless a zero byte comes first. *)
Fixpoint strchr_nl (p : list Z) : option (list Z * list Z) :=
  match p with
  | [] => None
  | c :: p' =>
    if c =? 0 then None else
    if c =? 10 then Some ([], p') else
    match strchr_nl p' with Some (l, rest) => Some (c :: l, rest) | None => None end
  end.

(** The inner loop: the lines written, and the text from [p] on at its end. *)
Fixpoint grep_lines (fuel : nat) (re p : list Z) : list Z * list Z :=
  match fuel, strchr_nl p with
  | S fuel, Some (l, rest) =>
    let r := grep_lines fuel re rest in
    ((if match_re re l then l ++ [10] else []) ++ r.1, r.2)
  | _, _ => ([], p)
  end.

Definition GREP_BUF : Z := 1024.

(** One round of the outer loop, for the [m] bytes [pend] kept and the bytes
    [chunk] read: the bytes written and the bytes kept. *)
Definition grep_round (re pend chunk : list Z) : list Z * list Z :=
  let buf := pend ++ chunk in
  let r := grep_lines (length buf) re buf in
  (r.1, if (length r.2 =? length buf)%nat then [] else r.2).

Fixpoint grep (re pend : list Z) (reads : list (list Z)) : list Z :=
  match reads with
  | [] => []
  | chunk :: reads' => let r := grep_round re pend chunk in r.1 ++ grep re r.2 reads'
  end.

(** ** What an expression means *)

Inductive item := Chr (c : Z) | Rep (c : Z) | Eol.

Definition admits (c t : Z) : Prop := c = 46 ∨ c = t.

(** The items of an expression without its leading [^]. *)
Fixpoint items (re : list Z) : list item :=
  match re with
  | [] => []
  | c :: re1 =>
    match re1 with
    | [] => [if c =? 36 then Eol else Chr c]
    | d :: re2 => if d =? 42 then Rep c :: items re2 else Chr c :: items re1
    end
  end.

(** [accepts l u v]: the items match [u], when [v] follows it in the text. *)
Inductive accepts : list item → list Z → list Z → Prop :=
  | acc_nil v : accepts [] [] v
  | acc_eol : accepts [Eol] [] []
  | acc_chr c l t u v : admits c t → accepts l u v → accepts (Chr c :: l) (t :: u) v
  | acc_rep c l us u v : Forall (admits c) us → accepts l u v → accepts (Rep c :: l) (us ++ u) v.

(** The items match a prefix of the text. *)
Definition starts (l : list item) (text : list Z) : Prop := ∃ u v, text = u ++ v ∧ accepts l u v.

Lemma starts_chr c l text : starts (Chr c :: l) text ↔ ∃ t text', text = t :: text' ∧ admits c t ∧ starts l text'.
Proof.
  split.
  - intros (u & v & -> & A). inversion A as [| |? ? t u' ? Ha A'|]; subst. exists t, (u' ++ v). split_and!; [done..|].
    by exists u', v.
  - intros (t & text' & -> & Ha & u & v & -> & A). exists (t :: u), v. split; [done|]. by constructor.
Qed.

Lemma starts_rep c l text :
  starts (Rep c :: l) text ↔ ∃ us text', text = us ++ text' ∧ Forall (admits c) us ∧ starts l text'.
Proof.
  split.
  - intros (u & v & -> & A). inversion A as [| | |? ? us u' ? Ha A']; subst. exists us, (u' ++ v).
    rewrite <- app_assoc. split_and!; [done..|]. by exists u', v.
  - intros (us & text' & -> & Ha & u & v & -> & A). exists (us ++ u), v. rewrite <- app_assoc. split; [done|]. by constructor.
Qed.

Lemma starts_eol text : starts [Eol] text ↔ text = [].
Proof.
  split; [|intros ->; exists [], []; split; [done|constructor]].
  intros (u & v & -> & A). by inversion A.
Qed.

Lemma admits_true c t : (c =? 46) || (c =? t) = true ↔ admits c t.
Proof. unfold admits. by rewrite orb_true_iff, !Z.eqb_eq. Qed.

Lemma matchstar_spec mh c text :
  matchstar mh c text = true ↔ ∃ us text', text = us ++ text' ∧ Forall (admits c) us ∧ mh text' = true.
Proof.
  induction text as [|t text IH]; cbn [matchstar]; rewrite orb_true_iff.
  - split; [intros [H|[=]]; by exists [], []|]. intros (us & text' & E & _ & H). symmetry in E.
    apply app_nil in E as [-> ->]. by left.
  - rewrite andb_true_iff, IH, orb_comm, (Z.eqb_sym t), admits_true. split.
    + intros [H|[Ha (us & text' & -> & F & H)]]; [by exists [], (t :: text)|]. exists (t :: us), text'. by split_and!; [|constructor|].
    + intros ([|t' us] & text' & E & F & H); cbn in E; [left; by rewrite E|right]. injection E as <- ->. inversion F; subst.
      split; [done|]. by exists us, text'.
Qed.

(** One ordinary character of an expression. *)
Lemma match_one_spec (mh : list Z → bool) l c text :
  (∀ text', mh text' = true ↔ starts l text') →
  match text with t :: text' => ((c =? 46) || (c =? t)) && mh text' | [] => false end = true ↔ starts (Chr c :: l) text.
Proof.
  intros H. rewrite starts_chr. destruct text as [|t text].
  - split; [done|]. by intros (t & text' & [=] & _).
  - rewrite andb_true_iff, admits_true, H. split.
    + intros [Ha Hs]. by exists t, text.
    + by intros (t' & text' & [= <- <-] & Ha & Hs).
Qed.

Lemma matchhere_spec re text : matchhere re text = true ↔ starts (items re) text.
Proof.
  revert text. induction re as [re IH] using (induction_ltof1 _ (@length Z)). unfold ltof in IH. intros text.
  destruct re as [|c [|d re2]]; cbn [matchhere items].
  - split; [|done]. intros _. exists [], text. split; [done|constructor].
  - destruct (c =? 36); cbn [andb].
    + rewrite bool_decide_true by done. by rewrite starts_eol, bool_decide_eq_true.
    + apply match_one_spec. intros text'. split; [|done]. intros _. exists [], text'. split; [done|constructor].
  - destruct (d =? 42).
    + rewrite matchstar_spec, starts_rep. split; intros (us & text' & E & F & H); exists us, text'; (split_and!; [done..|]);
        apply (IH re2); cbn; (lia || done).
    + rewrite (bool_decide_false (d :: re2 = [])), andb_false_r by done.
      apply (match_one_spec (matchhere (d :: re2))). intros text'. apply IH. cbn. lia.
Qed.

Lemma match_loop_spec re text : match_loop re text = true ↔ ∃ u w, text = u ++ w ∧ starts (items re) w.
Proof.
  induction text as [|t text IH]; cbn [match_loop]; rewrite orb_true_iff, matchhere_spec.
  - split; [intros [H|[=]]; by exists [], []|]. intros (u & w & E & H). symmetry in E. apply app_nil in E as [-> ->]. by left.
  - rewrite IH. split.
    + intros [H|(u & w & -> & H)]; [by exists [], (t :: text)|by exists (t :: u), w].
    + intros ([|t' u] & w & E & H); cbn in E; [left; by rewrite E|right]. injection E as <- ->. by exists u, w.
Qed.

(** C40. grep's matcher is correct: [match] accepts a text if and only if the
    text has a part that the expression describes - ordinary characters,
    [.], repetitions with [*], and [$] at the end of the text - and, for an
    expression that begins with [^], a part at the start of the text. *)
Theorem match_correct re text :
  match_re re text = true ↔
  ∃ u v w, text = u ++ v ++ w ∧
    if bool_decide (head re = Some 94) then u = [] ∧ accepts (items (tail re)) v w else accepts (items re) v w.
Proof.
  assert (match_loop re text = true ↔ ∃ u v w, text = u ++ v ++ w ∧ accepts (items re) v w) as Hl.
  { rewrite match_loop_spec. split; [intros (u & x & -> & v & w & -> & A); by exists u, v, w|].
    intros (u & v & w & -> & A). exists u, (v ++ w). split; [done|]. by exists v, w. }
  destruct re as [|c re]; [exact Hl|]. cbn [match_re head tail]. destruct (Z.eqb_spec c 94) as [->|Hc].
  - rewrite bool_decide_true, matchhere_spec by done. split; [intros (v & w & -> & A); by exists [], v, w|].
    intros (u & v & w & -> & -> & A). by exists v, w.
  - rewrite bool_decide_false by congruence. exact Hl.
Qed.

(** ** Lines *)

(** The complete lines of a text. *)
Fixpoint lines (cur text : list Z) : list (list Z) :=
  match text with
  | [] => []
  | c :: text' => if c =? 10 then cur :: lines [] text' else lines (cur ++ [c]) text'
  end.

Definition selected (re : list Z) (ls : list (list Z)) : list Z :=
  concat ((λ l, l ++ [10]) <$> filter (λ l, match_re re l = true) ls).

Lemma selected_cons re l ls : selected re (l :: ls) = (if match_re re l then l ++ [10] else []) ++ selected re ls.
Proof. unfold selected. rewrite filter_cons. destruct (match_re re l); [by rewrite decide_True|by rewrite decide_False]. Qed.

Lemma selected_app re ls ls' : selected re (ls ++ ls') = selected re ls ++ selected re ls'.
Proof. unfold selected. by rewrite filter_app, fmap_app, concat_app. Qed.

Lemma strchr_nl_some p l rest : strchr_nl p = Some (l, rest) → p = l ++ 10 :: rest ∧ 10 ∉ l.
Proof.
  revert l. induction p as [|c p IH]; intros l; cbn [strchr_nl]; [done|]. destruct (c =? 0); [done|].
  destruct (Z.eqb_spec c 10) as [->|Hc]; [intros [= <- <-]; split; [done|apply not_elem_of_nil]|].
  destruct (strchr_nl p) as [[l' r']|]; [|done]. intros [= <- <-]. destruct (IH l' eq_refl) as [-> Hn]. split; [done|].
  apply not_elem_of_cons. by split.
Qed.

Lemma strchr_nl_none p : 0 ∉ p → strchr_nl p = None → 10 ∉ p.
Proof.
  induction p as [|c p IH]; cbn [strchr_nl]; [intros _ _; apply not_elem_of_nil|]. intros [Hc Hp]%not_elem_of_cons.
  rewrite (proj2 (Z.eqb_neq _ _)) by done. destruct (Z.eqb_spec c 10) as [->|Hc10]; [done|].
  destruct (strchr_nl p) as [[]|] eqn:E; [done|]. intros _. apply not_elem_of_cons. by split; [|apply IH].
Qed.

Lemma lines_end cur text : 10 ∉ text → lines cur text = [].
Proof.
  revert cur. induction text as [|c text IH]; intros cur; cbn; [done|]. intros [Hc Ht]%not_elem_of_cons.
  rewrite (proj2 (Z.eqb_neq _ _)) by congruence. by apply IH.
Qed.

Lemma lines_first cur l rest : 10 ∉ l → lines cur (l ++ 10 :: rest) = (cur ++ l) :: lines [] rest.
Proof.
  revert cur. induction l as [|c l IH]; intros cur; cbn; [by rewrite app_nil_r|]. intros [Hc Ht]%not_elem_of_cons.
  rewrite (proj2 (Z.eqb_neq _ _)), IH by congruence. by rewrite <- app_assoc.
Qed.

(** The inner loop writes the lines selected and keeps the text after the
    last newline. *)
Lemma grep_lines_spec fuel re p more :
  0 ∉ p → (length p ≤ fuel)%nat → let r := grep_lines fuel re p in
  selected re (lines [] (p ++ more)) = r.1 ++ selected re (lines [] (r.2 ++ more)) ∧ 10 ∉ r.2 ∧ r.2 `suffix_of` p ∧
  (10 ∈ p → (length r.2 < length p)%nat).
Proof.
  revert p. induction fuel as [|fuel IH]; intros p H0 Hf; cbn [grep_lines].
  { destruct p; [|cbn in Hf; lia]. cbn. split_and!; [done|apply not_elem_of_nil|done|by intros ?%elem_of_nil]. }
  destruct (strchr_nl p) as [[l rest]|] eqn:E; cbn [fst snd].
  - apply strchr_nl_some in E as [-> Hl]. rewrite length_app in Hf |- *. cbn in Hf |- *.
    destruct (IH rest) as (E1 & E2 & E3 & _); [set_solver|lia|]. split_and!; [|done| |].
    + rewrite <- app_assoc. cbn. rewrite lines_first, selected_cons, E1 by done. cbn. by rewrite app_assoc.
    + etrans; [exact E3|]. exists (l ++ [10]). by rewrite <- app_assoc.
    + intros _. apply suffix_length in E3. lia.
  - apply strchr_nl_none in E; [|done]. by split_and!.
Qed.

(** A sequence of reads that [grep]'s buffer admits: each returns at least
    one byte and no more than there is room for after the [m] bytes kept. *)
Fixpoint reads_ok (re pend : list Z) (reads : list (list Z)) : Prop :=
  match reads with
  | [] => True
  | chunk :: reads' =>
    chunk ≠ [] ∧ Z.of_nat (length chunk) ≤ GREP_BUF - Z.of_nat (length pend) - 1 ∧
    reads_ok re (grep_round re pend chunk).2 reads'
  end.

(** grep prints the lines that match.  If the input has no zero bytes and
    every [read] returns some newline, then however the reads cut the input
    into chunks that fit the buffer, [grep] writes exactly the complete
    lines of the input that match the expression, in order; and the buffer
    always has room for another read. *)
Theorem grep_correct re pend reads :
  0 ∉ pend ++ concat reads → Forall (λ chunk, 10 ∈ chunk) reads → 10 ∉ pend →
  Z.of_nat (length pend) < GREP_BUF - 1 → reads_ok re pend reads →
  grep re pend reads = selected re (lines [] (pend ++ concat reads)).
Proof.
  intros H0 F Hp Hl R. revert pend H0 Hp Hl R. induction F as [|chunk reads Hc F IH]; intros pend H0 Hp Hl R.
  { cbn. by rewrite app_nil_r, lines_end. }
  destruct R as (Hne & Hroom & R). cbn [grep concat] in *. rewrite app_assoc in H0 |- *.
  destruct (grep_lines_spec (length (pend ++ chunk)) re (pend ++ chunk) (concat reads)) as (E1 & E2 & E3 & E4);
    [set_solver|done|]. specialize (E4 ltac:(set_solver)).
  unfold grep_round in *. rewrite (proj2 (Nat.eqb_neq _ _)) in * by lia. cbn [fst snd] in *. rewrite E1. f_equal. apply IH; [|done| |done].
  - destruct E3 as [x E3]. rewrite E3 in H0. set_solver.
  - pose proof (length_app pend chunk). lia.
Qed.

(** A line whose beginning arrives in a read of its own is lost. *)
Lemma grep_loses_split_line : grep [97; 98] [] [[97]; [98; 10]] = [] ∧ selected [97; 98] (lines [] [97; 98; 10]) = [97; 98; 10].
Proof. done. Qed.

(** "1.*3$" selects the first of two lines. *)
Lemma grep_correct_witness : grep [49; 46; 42; 51; 36] [] [[49; 50; 51; 10; 52; 49]; [51; 52; 10]] = [49; 50; 51; 10].
Proof.
  rewrite (grep_correct [49; 46; 42; 51; 36] [] [[49; 50; 51; 10; 52; 49]; [51; 52; 10]]).
  - by vm_compute.
  - by apply (bool_decide_unpack _).
  - by apply (bool_decide_unpack _).
  - apply not_elem_of_nil.
  - by vm_compute.
  - by vm_compute.
Defined.
