(* ===== verification/Ulib.v ===== *)
(** The user library (ulib.c, printf.c): strings, numbers and formatted
    output.  A C string is the list of its bytes before the terminating
    zero. *)

From S2P Require Import Prelude Cons.

(** ** Strings *)

Fixpoint strcmp (p q : list Z) : Z :=
  match p, q with
  | c :: p', d :: q' => if c =? d then strcmp p' q' else u8 c - u8 d
  | c :: _, [] => u8 c
  | [], d :: _ => - u8 d
  | [], [] => 0
  end.

Fixpoint ustrlen (s : list Z) : nat := match s with [] => 0 | _ :: s' => S (ustrlen s') end.

(** The rest of the string from the first [c] on. *)
Fixpoint strchr (s : list Z) (c : Z) : option (list Z) :=
  match s with
  | [] => None
  | x :: s' => if x =? c then Some s else strchr s' c
  end.

(** The characters of the input that [gets] stores, and the input left: at
    most [max - 1], up to the end of the line. *)
Fixpoint gets_loop (max : nat) (input : list Z) : list Z * list Z :=
  match max, input with
  | S (S _ as max'), c :: input' =>
    if (c =? 10) || (c =? 13) then ([c], input')
    else let r := gets_loop max' input' in (c :: r.1, r.2)
  | _, _ => ([], input)
  end.

(** ** Numbers *)

Fixpoint atoi_loop (n : Z) (s : list Z) : Z :=
  match s with
  | [] => n
  | c :: s' => if (48 <=? c) && (c <=? 57) then atoi_loop (i32 (n * 10 + c - 48)) s' else n
  end.
Definition atoi (s : list Z) : Z := atoi_loop 0 s.

(** ["0123456789ABCDEF"] *)
Definition udigit (d : Z) : Z := if d <? 10 then 48 + d else 65 + (d - 10).

Definition uprintint (xx base : Z) (sgn : bool) : list Z :=
  let neg := sgn && (i32 xx <? 0) in
  let x := if neg then u32 (- i32 xx) else u32 xx in
  reverse (digits udigit 32 x base ++ if neg then [45] else []).

(** The argument of [%c] is printed as one byte. *)
Fixpoint printf (pct : bool) (fmt : list Z) (args : list carg) : option (list Z) :=
  match fmt with
  | [] => Some []
  | c :: fmt' =>
    if negb pct then
      if c =? 37 then printf true fmt' args else cons c <$> printf false fmt' args
    else if c =? 100 then
      match args with
      | AInt x :: args' => app (uprintint x 10 true) <$> printf false fmt' args'
      | _ => None
      end
    else if (c =? 120) || (c =? 112) then
      match args with
      | AInt x :: args' => app (uprintint x 16 false) <$> printf false fmt' args'
      | _ => None
      end
    else if c =? 115 then
      match args with
      | AStr s :: args' => app (default null_text s) <$> printf false fmt' args'
      | _ => None
      end
    else if c =? 99 then
      match args with
      | AInt x :: args' => cons (u8 x) <$> printf false fmt' args'
      | _ => None
      end
    else if c =? 37 then cons c <$> printf false fmt' args
    else app [37; c] <$> printf false fmt' args
  end.

(** ** Strings: what is found *)

Lemma strchr_elem l c : (∃ r, strchr l c = Some r) ↔ c ∈ l.
Proof.
  induction l as [|x l IH]; cbn.
  - split; [by intros [? ?]|by intros ?%elem_of_nil].
  - rewrite elem_of_cons, <- IH. destruct (Z.eqb_spec x c) as [->|Hne].
    + split; [by left|]. intros _. by eexists.
    + split; [by right|]. intros [->|?]; done.
Qed.

(** ** What is printed *)

(** The value of digits, least significant first. *)
Fixpoint value (base : Z) (ds : list Z) : Z :=
  match ds with [] => 0 | d :: ds' => d + base * value base ds' end.

Lemma digits_value dig fuel x base :
  2 ≤ base → 0 ≤ x < base ^ Z.of_nat (S fuel) →
  ∃ ds, digits dig fuel x base = dig <$> ds ∧ Forall (λ d, 0 ≤ d < base) ds ∧ value base ds = x ∧
    ∀ n, 1 ≤ n → x < base ^ n → Z.of_nat (length ds) ≤ n.
Proof.
  intros Hb. revert x. induction fuel as [|fuel IH]; intros x Hx; cbn [digits].
  - change (Z.of_nat 1) with 1 in Hx. rewrite Z.pow_1_r in Hx. exists [x]. rewrite Z.mod_small by lia.
    split_and!; [done|apply Forall_singleton; lia|cbn; lia|cbn; lia].
  - pose proof (Z.mod_pos_bound x base) as Hm. pose proof (Z.div_mod x base) as Ed. destruct (Z.eqb_spec (x / base) 0) as [E|E].
    + exists [x mod base]. split_and!; [done|apply Forall_singleton; lia|cbn; lia|cbn; lia].
    + assert (0 ≤ x / base < base ^ Z.of_nat (S fuel)) as Hq.
      { split; [apply Z.div_pos; lia|]. apply Z.div_lt_upper_bound; [lia|]. rewrite Nat2Z.inj_succ, Z.pow_succ_r in Hx by lia. lia. }
      destruct (IH _ Hq) as (ds & -> & F & V & L). exists (x mod base :: ds).
      split_and!; [done|by constructor; [lia|]|cbn; lia|]. intros n Hn Hxn.
      destruct (Z.eq_dec n 1) as [->|Hn1]; [rewrite Z.pow_1_r in Hxn; rewrite Z.div_small in E; lia|].
      cbn [length]. rewrite Nat2Z.inj_succ. enough (Z.of_nat (length ds) ≤ n - 1) by lia. apply L; [lia|].
      apply Z.div_lt_upper_bound; [lia|]. rewrite <- Z.pow_succ_r by lia. by replace (Z.succ (n - 1)) with n by lia.
Qed.

(** The number a call of [uprintint] prints: a sign and the digits of the
    magnitude. *)
Lemma uprintint_value xx base sgn :
  2 ≤ base →
  ∃ ds, uprintint xx base sgn = (if sgn && (i32 xx <? 0) then [45] else []) ++ (udigit <$> reverse ds) ∧
    Forall (λ d, 0 ≤ d < base) ds ∧ value base ds = (if sgn && (i32 xx <? 0) then - i32 xx else u32 xx) ∧
    ∀ n, 1 ≤ n → 2 ^ 32 ≤ base ^ n → Z.of_nat (length ds) ≤ n.
Proof.
  intros Hb. unfold uprintint. set (neg := sgn && (i32 xx <? 0)). set (x := if neg then _ else _).
  assert (x = if neg then - i32 xx else u32 xx) as Ex.
  { subst x neg. destruct sgn; cbn [andb]; [|done]. destruct (Z.ltb_spec (i32 xx) 0); [|done]. pose proof (i32_range xx).
    apply u32_small. lia. }
  assert (0 ≤ x < 2 ^ 32) as Hx by (subst x; destruct neg; apply u32_range).
  destruct (digits_value udigit 32 x base Hb) as (ds & -> & F & V & L).
  { split; [lia|]. apply (Z.lt_le_trans _ (2 ^ 33)); [lia|]. by apply Z.pow_le_mono_l. }
  exists ds. rewrite reverse_app, fmap_reverse. split_and!; [by destruct neg|done|by rewrite V|].
  intros n Hn Hp. apply L; [done|lia].
Qed.

Lemma i32_step n d : i32 (i32 n * 10 + d) = i32 (n * 10 + d).
Proof.
  unfold i32. f_equal. replace (((n + 2 ^ 31) mod 2 ^ 32 - 2 ^ 31) * 10 + d + 2 ^ 31)
    with (((n + 2 ^ 31) mod 2 ^ 32) * 10 + (d + 2 ^ 31 - 2 ^ 31 * 10)) by lia.
  rewrite Z.add_mod, Z.mul_mod_idemp_l, <- Z.add_mod by done. f_equal. lia.
Qed.

Lemma atoi_digits ds n rest :
  Forall (λ d, 0 ≤ d < 10) ds →
  atoi_loop (i32 n) ((udigit <$> reverse ds) ++ rest) = atoi_loop (i32 (n * 10 ^ Z.of_nat (length ds) + value 10 ds)) rest.
Proof.
  intros F. revert rest. induction F as [|d ds Hd F IH]; intros rest.
  - cbn. f_equal. f_equal. lia.
  - rewrite reverse_cons, fmap_app, <- app_assoc, IH. cbn [fmap list_fmap app atoi_loop].
    unfold udigit. rewrite (proj2 (Z.ltb_lt _ _)), (proj2 (Z.leb_le _ _)), (proj2 (Z.leb_le _ _)) by lia. cbn [andb].
    f_equal. replace (_ * 10 + (48 + d) - 48) with (i32 (n * 10 ^ Z.of_nat (length ds) + value 10 ds) * 10 + d) by lia.
    rewrite i32_step. f_equal. cbn [length value]. rewrite Nat2Z.inj_succ, Z.pow_succ_r by lia. lia.
Qed.

(** Numbers survive printing: for every [int], [printf]'s [%d] prints an
    optional minus sign followed by digits that [atoi] reads back as the
    magnitude, also for the least [int]; and whatever is printed in base 10
    or 16 fits the 16 bytes of the buffer on the stack. *)
Theorem printint_atoi n base sgn :
  - 2 ^ 31 ≤ n < 2 ^ 31 → base = 10 ∨ base = 16 →
  (length (uprintint n base sgn) ≤ 16)%nat ∧
  ∃ ds, uprintint n 10 true = (if n <? 0 then [45] else []) ++ ds ∧ atoi ds = i32 (Z.abs n).
Proof.
  intros Hn Hb. split.
  - destruct (uprintint_value n base sgn ltac:(lia)) as (ds & -> & _ & _ & L).
    assert (Z.of_nat (length ds) ≤ 10) by (apply L; [lia|destruct Hb as [-> | ->]; lia]).
    rewrite length_app, length_fmap, length_reverse. destruct (sgn && _); cbn; lia.
  - destruct (uprintint_value n 10 true ltac:(lia)) as (ds & E & F & V & _). rewrite i32_small in E, V by done. cbn [andb] in E, V.
    exists (udigit <$> reverse ds). split; [done|]. unfold atoi.
    rewrite <- (app_nil_r (udigit <$> _)), <- (i32_small 0), atoi_digits by done. cbn [atoi_loop]. f_equal.
    rewrite V. destruct (Z.ltb_spec n 0); [lia|]. rewrite u32_small; lia.
Qed.

Lemma printint_atoi_witness : ∃ ds, uprintint (-2147483648) 10 true = [45] ++ ds ∧ atoi ds = -2147483648.
Proof. destruct (printint_atoi (-2147483648) 10 true) as [_ H]; [lia|by left|exact H]. Defined.
