(* ===== verification/Uprogs.v ===== *)
(** The small user programs: cat.c, wc.c, echo.c, ls.c, kill.c, ln.c,
    mkdir.c, rm.c, init.c, zombie.c, [stat] and [gets] of ulib.c, and the
    prompt of the shell (sh.c).

    A program is written against the class [unix], the system calls of
    user.h as the calling process sees them: each takes the state of the
    system to the result and the next state.  The theorems are proved
    against [stdio], which states what [cat] and [wc] rely on: reads deliver
    the rest of a file in pieces of any size or fail, a write appends what
    there is room for, and a process has a limited number of descriptors.
    [desk] is a small system that satisfies it.  C strings are the
    lists of their bytes. *)

From Stdlib Require Import Ascii String.
From S2P Require Import Prelude Block Fs Cons Ulib.

(** ** System calls *)

(** The calls, from the side of the process: [exec] returns only if it
    fails, [read] gives the bytes or fails. *)
Class unix (S : Type) := {
  u_read : Z → Z → S → option (list Z) * S;
  u_write : Z → list Z → S → Z * S;
  u_open : list Z → Z → S → Z * S;
  u_close : Z → S → Z * S;
  u_fstat : Z → S → option stat * S;
  u_dup : Z → S → Z * S;
  u_mknod : list Z → Z → Z → S → Z * S;
  u_link : list Z → list Z → S → Z * S;
  u_unlink : list Z → S → Z * S;
  u_mkdir : list Z → S → Z * S;
  u_chdir : list Z → S → Z * S;
  u_kill : Z → S → Z * S;
  u_fork : S → Z * S;
  u_wait : S → Z * S;
  u_sleep : Z → S → Z * S;
  u_exec : list Z → list (list Z) → S → option Z * S
}.

(** How a piece of a program ends: it goes on with a value, the process is
    gone ([uexit], a successful [exec]), or it is still running when the
    fuel of its loops is used up. *)
Inductive ures (S A : Type) := UDone (a : A) (s : S) | UExit (s : S) | URuns (s : S).
Arguments UDone {_ _} _ _.
Arguments UExit {_ _} _.
Arguments URuns {_ _} _.

Definition U (S A : Type) : Type := S → ures S A.
Definition uret {S A} (a : A) : U S A := UDone a.
Definition ubind {S A B} (m : U S A) (f : A → U S B) : U S B := λ s,
  match m s with UDone a s' => f a s' | UExit s' => UExit s' | URuns s' => URuns s' end.
Definition ucall {S A} (c : S → A * S) : U S A := λ s, let r := c s in UDone r.1 r.2.
Definition uexit {S A} : U S A := UExit.
Definition uruns {S A} : U S A := URuns.

Declare Scope user_scope.
Delimit Scope user_scope with user.
Notation "x <~ m ; k" := (ubind m (λ x, k)) (at level 100, m at next level, right associativity) : user_scope.
Notation "m ;~ k" := (ubind m (λ _, k)) (at level 100, right associativity) : user_scope.
Open Scope user_scope.

(** The bytes of a string literal. *)
Definition cstr (s : string) : list Z := (λ c, Z.of_N (N_of_ascii c)) <$> String.list_ascii_of_string s.
Definition line (s : string) : list Z := cstr s ++ [10].

Section programs.
Context {S : Type} `{unix S}.

(** [printf(fd, ...)]: [putc] writes each byte by a call of its own and
    does not look at the result. *)
Fixpoint uputs (fd : Z) (l : list Z) : U S () :=
  match l with [] => uret () | c :: l' => ucall (u_write fd [c]) ;~ uputs fd l' end.
Definition uprintf (fd : Z) (fmt : list Z) (args : list carg) : U S () :=
  match printf false fmt args with Some l => uputs fd l | None => uruns end.

(** ** cat.c *)

Fixpoint cat (fuel : nat) (fd : Z) : U S () :=
  match fuel with
  | O => uruns
  | Datatypes.S fuel' =>
    n <~ ucall (u_read fd 512);
    match n with
    | None => uprintf 1 (line "cat: read error") [] ;~ uexit
    | Some [] => uret ()
    | Some buf =>
      r <~ ucall (u_write 1 buf);
      if negb (r =? Z.of_nat (List.length buf)) then uprintf 1 (line "cat: write error") [] ;~ uexit
      else cat fuel' fd
    end
  end.

Fixpoint cat_files (fuel : nat) (argv : list (list Z)) : U S () :=
  match argv with
  | [] => uexit
  | a :: argv' =>
    fd <~ ucall (u_open a 0);
    if fd <? 0 then uprintf 1 (line "cat: cannot open %s") [AStr (Some a)] ;~ uexit
    else cat fuel fd ;~ ucall (u_close fd) ;~ cat_files fuel argv'
  end.

(** [argv] is the arguments after the name of the program. *)
Definition cat_main (fuel : nat) (argv : list (list Z)) : U S () :=
  match argv with [] => cat fuel 0 ;~ uexit | _ => cat_files fuel argv end.

(** ** wc.c *)

(** [l], [w], [c] and [inword]. *)
Record counts := Counts { wc_l : Z; wc_w : Z; wc_c : Z; wc_in : bool }.

(** [" \r\t\n\v"] *)
Definition wc_spaces : list Z := [32; 13; 9; 10; 11].

Definition wc_byte (k : counts) (b : Z) : counts :=
  let c := i32 (wc_c k + 1) in
  let l := if b =? 10 then i32 (wc_l k + 1) else wc_l k in
  match strchr wc_spaces b with
  | Some _ => Counts l (wc_w k) c false
  | None => if negb (wc_in k) then Counts l (i32 (wc_w k + 1)) c true else Counts l (wc_w k) c (wc_in k)
  end.

Fixpoint wc_buf (k : counts) (buf : list Z) : counts :=
  match buf with [] => k | b :: buf' => wc_buf (wc_byte k b) buf' end.

Fixpoint wc_loop (fuel : nat) (fd : Z) (k : counts) : U S counts :=
  match fuel with
  | O => uruns
  | Datatypes.S fuel' =>
    n <~ ucall (u_read fd 512);
    match n with
    | None => uprintf 1 (line "wc: read error") [] ;~ uexit
    | Some [] => uret k
    | Some buf => wc_loop fuel' fd (wc_buf k buf)
    end
  end.

Definition wc (fuel : nat) (fd : Z) (name : list Z) : U S () :=
  k <~ wc_loop fuel fd (Counts 0 0 0 false);
  uprintf 1 (line "%d %d %d %s") [AInt (wc_l k); AInt (wc_w k); AInt (wc_c k); AStr (Some name)].

Fixpoint wc_files (fuel : nat) (argv : list (list Z)) : U S () :=
  match argv with
  | [] => uexit
  | a :: argv' =>
    fd <~ ucall (u_open a 0);
    if fd <? 0 then uprintf 1 (line "wc: cannot open %s") [AStr (Some a)] ;~ uexit
    else wc fuel fd a ;~ ucall (u_close fd) ;~ wc_files fuel argv'
  end.

Definition wc_main (fuel : nat) (argv : list (list Z)) : U S () :=
  match argv with [] => wc fuel 0 [] ;~ uexit | _ => wc_files fuel argv end.

(** ** echo.c *)

Fixpoint echo (argv : list (list Z)) : U S () :=
  match argv with
  | [] => uexit
  | a :: argv' =>
    uprintf 1 (cstr "%s%s") [AStr (Some a); AStr (Some (match argv' with [] => [10] | _ => [32] end))] ;~ echo argv'
  end.

(** ** kill.c, ln.c, mkdir.c, rm.c *)

Fixpoint kill_all (argv : list (list Z)) : U S () :=
  match argv with [] => uexit | a :: argv' => ucall (u_kill (atoi a)) ;~ kill_all argv' end.
Definition kill_main (argv : list (list Z)) : U S () :=
  match argv with [] => uprintf 2 (line "usage: kill pid...") [] ;~ uexit | _ => kill_all argv end.

Definition ln_main (argv : list (list Z)) : U S () :=
  match argv with
  | [old; new] =>
    r <~ ucall (u_link old new);
    (if r <? 0 then uprintf 2 (line "link %s %s: failed") [AStr (Some old); AStr (Some new)] else uret ()) ;~ uexit
  | _ => uprintf 2 (line "Usage: ln old new") [] ;~ uexit
  end.

(** The loop of mkdir.c and rm.c: it stops at the first failure. *)
Fixpoint each (f : list Z → S → Z * S) (msg : list Z) (argv : list (list Z)) : U S () :=
  match argv with
  | [] => uexit
  | a :: argv' =>
    r <~ ucall (f a);
    if r <? 0 then uprintf 2 msg [AStr (Some a)] ;~ uexit else each f msg argv'
  end.
Definition mkdir_main (argv : list (list Z)) : U S () :=
  match argv with
  | [] => uprintf 2 (line "Usage: mkdir files...") [] ;~ uexit
  | _ => each u_mkdir (line "mkdir: %s failed to create") argv
  end.
Definition rm_main (argv : list (list Z)) : U S () :=
  match argv with
  | [] => uprintf 2 (line "Usage: rm files...") [] ;~ uexit
  | _ => each u_unlink (line "rm: %s failed to delete") argv
  end.

(** ** ls.c *)

(** The index after the last slash, looked for backwards from [n]. *)
Fixpoint after_slash (path : list Z) (n : nat) : nat :=
  if nth n path 0 =? 47 then Datatypes.S n
  else match n with O => O | Datatypes.S n' => after_slash path n' end.

Definition fmtname (path : list Z) : list Z :=
  let p := List.skipn (after_slash path (ustrlen path)) path in
  if (DIRSIZ <=? ustrlen p)%nat then p else p ++ repeat 32 (DIRSIZ - ustrlen p).

(** [stat] of ulib.c. *)
Definition ustat (n : list Z) : U S (option stat) :=
  fd <~ ucall (u_open n O_RDONLY);
  if fd <? 0 then uret None else
  r <~ ucall (u_fstat fd);
  ucall (u_close fd) ;~
  uret r.

Definition ls_line (name : list Z) (st : stat) : U S () :=
  uprintf 1 (line "%s %d %d %d") [AStr (Some (fmtname name)); AInt (st_type st); AInt (st_ino st); AInt (st_size st)].

(** The C string in a field of bytes that a zero follows. *)
Fixpoint before_nul (l : list Z) : list Z :=
  match l with [] => [] | c :: l' => if c =? 0 then [] else c :: before_nul l' end.

Fixpoint ls_dir (fuel : nat) (fd : Z) (path : list Z) : U S () :=
  match fuel with
  | O => uruns
  | Datatypes.S fuel' =>
    n <~ ucall (u_read fd 16);
    let bytes := default [] n in
    if negb (List.length bytes =? 16)%nat then uret () else
    let de := load_dirent bytes in
    if de_inum de =? 0 then ls_dir fuel' fd path else
    let buf := path ++ 47 :: before_nul (de_name de) in
    st <~ ustat buf;
    match st with
    | None => uprintf 1 (line "ls: cannot stat %s") [AStr (Some buf)] ;~ ls_dir fuel' fd path
    | Some st => ls_line buf st ;~ ls_dir fuel' fd path
    end
  end.

Definition ls (fuel : nat) (path : list Z) : U S () :=
  fd <~ ucall (u_open path 0);
  if fd <? 0 then uprintf 2 (line "ls: cannot open %s") [AStr (Some path)] else
  r <~ ucall (u_fstat fd);
  match r with
  | None => uprintf 2 (line "ls: cannot stat %s") [AStr (Some path)] ;~ ucall (u_close fd) ;~ uret ()
  | Some st =>
    (if st_type st =? T_FILE then ls_line path st
     else if st_type st =? T_DIR then
       if (512 <? ustrlen path + 1 + DIRSIZ + 1)%nat then uprintf 1 (line "ls: path too long") []
       else ls_dir fuel fd path
     else uret ()) ;~
    ucall (u_close fd) ;~ uret ()
  end.

Fixpoint ls_all (fuel : nat) (argv : list (list Z)) : U S () :=
  match argv with [] => uexit | a :: argv' => ls fuel a ;~ ls_all fuel argv' end.
Definition ls_main (fuel : nat) (argv : list (list Z)) : U S () :=
  match argv with [] => ls fuel [46] ;~ uexit | _ => ls_all fuel argv end.

(** ** init.c, zombie.c *)

Fixpoint init_wait (fuel : nat) (pid : Z) : U S () :=
  match fuel with
  | O => uruns
  | Datatypes.S fuel' =>
    wpid <~ ucall u_wait;
    if (0 <=? wpid) && negb (wpid =? pid) then uprintf 1 (line "zombie!") [] ;~ init_wait fuel' pid else uret ()
  end.

Definition uexec (path : list Z) (argv : list (list Z)) : U S Z := λ s,
  match u_exec path argv s with (Some r, s') => UDone r s' | (None, s') => UExit s' end.

Fixpoint init_loop (fuel : nat) : U S () :=
  match fuel with
  | O => uruns
  | Datatypes.S fuel' =>
    uprintf 1 (line "init: starting sh") [] ;~
    pid <~ ucall u_fork;
    if pid <? 0 then uprintf 1 (line "init: fork failed") [] ;~ uexit
    else if pid =? 0 then uexec (cstr "sh") [cstr "sh"] ;~ uprintf 1 (line "init: exec sh failed") [] ;~ uexit
    else init_wait fuel' pid ;~ init_loop fuel'
  end.

Definition init_main (fuel : nat) : U S () :=
  r <~ ucall (u_open (cstr "console") O_RDWR);
  (if r <? 0 then ucall (u_mknod (cstr "console") 1 1) ;~ ucall (u_open (cstr "console") O_RDWR) ;~ uret () else uret ()) ;~
  ucall (u_dup 0) ;~
  ucall (u_dup 0) ;~
  init_loop fuel.

Definition zombie_main : U S () :=
  r <~ ucall u_fork;
  (if 0 <? r then ucall (u_sleep 5) ;~ uret () else uret ()) ;~ uexit.

(** ** The prompt of the shell *)

(** The loop of [gets]: at most [n] bytes of the standard input, up to the
    end of the line. *)
Fixpoint ugets_loop (n : nat) : U S (list Z) :=
  match n with
  | O => uret []
  | Datatypes.S n' =>
    cc <~ ucall (u_read 0 1);
    match cc with
    | Some (c :: _) => if (c =? 10) || (c =? 13) then uret [c] else l <~ ugets_loop n'; uret (c :: l)
    | _ => uret []
    end
  end.

(** [gets(buf, max)]: the C string in the buffer afterwards. *)
Definition ugets (max : nat) : U S (list Z) := l <~ ugets_loop (max - 1); uret (before_nul l).

(** The line, or nothing at the end of the input. *)
Definition getcmd (nbuf : nat) : U S (option (list Z)) :=
  uprintf 2 (cstr "$ ") [] ;~
  buf <~ ugets nbuf;
  match buf with [] => uret None | _ => uret (Some buf) end.

Fixpoint three_fds (fuel : nat) : U S () :=
  match fuel with
  | O => uruns
  | Datatypes.S fuel' =>
    fd <~ ucall (u_open (cstr "console") O_RDWR);
    if 0 <=? fd then if 3 <=? fd then ucall (u_close fd) ;~ uret () else three_fds fuel' else uret ()
  end.

(** [buf+3] of a line that starts with "cd ", if it does. *)
Definition cd_arg (buf : list Z) : option (list Z) :=
  match buf with
  | 99 :: 100 :: 32 :: _ => Some (List.skipn 3 (List.removelast buf))
  | _ => None
  end.

(** [runcmd] is what the child runs, [runcmd(parsecmd(buf))], which does not
    return; it is modelled on the descriptors of a process in ShRun. *)
Fixpoint sh_loop (runcmd : list Z → U S ()) (fuel : nat) : U S () :=
  match fuel with
  | O => uruns
  | Datatypes.S fuel' =>
    b <~ getcmd 100;
    match b with
    | None => uexit
    | Some buf =>
      match cd_arg buf with
      | Some path =>
        r <~ ucall (u_chdir path);
        (if r <? 0 then uprintf 2 (line "cannot cd %s") [AStr (Some path)] else uret ()) ;~ sh_loop runcmd fuel'
      | None =>
        pid <~ ucall u_fork;
        if pid =? -1 then uprintf 2 (line "%s") [AStr (Some (cstr "fork"))] ;~ uexit
        else (if pid =? 0 then runcmd buf else uret ()) ;~ ucall u_wait ;~ sh_loop runcmd fuel'
      end
    end
  end.

Definition sh_main (runcmd : list Z → U S ()) (fuel : nat) : U S () := three_fds fuel ;~ sh_loop runcmd fuel.

End programs.

(** ** What the programs rely on *)

(** The room there is for output: [None] if it is unlimited.  [clip]: what
    arrives if the bytes are written one by one. *)
Definition fits (r : option nat) (n : nat) : Prop := match r with None => True | Some k => (n ≤ k)%nat end.
Definition less (r : option nat) (n : nat) : option nat := option_map (λ k, (k - n)%nat) r.
Definition clip (r : option nat) (l : list Z) : list Z := match r with None => l | Some k => List.firstn k l end.

#[export] Instance fits_dec r n : Decision (fits r n).
Proof. destruct r; simpl; apply _. Defined.

(** [pending s fd]: what the calls of [read] will give of what [fd] refers
    to, piece by piece, [None] for a call that fails.  [printed s fd]: what
    was written to [fd], and [room s fd]: how much more can be.  [in_use]:
    the open descriptors; [avail]: how many more can be opened.  [files]: the
    pieces of the files that can be opened, which the programs do not write. *)
Class stdio (S : Type) `{unix S} := {
  pending : S → Z → list (option (list Z));
  printed : S → Z → list Z;
  room : S → Z → option nat;
  in_use : S → Z → bool;
  avail : S → nat;
  files : list Z → option (list (option (list Z)));
  pending_pieces s fd : Some [] ∉ pending s fd;
  closed_room s fd : in_use s fd = false → room s fd = Some 0%nat;
  read_next s fd :
    match pending s fd with
    | [] => (u_read fd 512 s).1 = Some []
    | None :: _ => (u_read fd 512 s).1 = None
    | Some p :: ps => (u_read fd 512 s).1 = Some p ∧ pending (u_read fd 512 s).2 fd = ps
    end ∧
    avail (u_read fd 512 s).2 = avail s ∧
    ∀ fd', printed (u_read fd 512 s).2 fd' = printed s fd' ∧ room (u_read fd 512 s).2 fd' = room s fd' ∧
      in_use (u_read fd 512 s).2 fd' = in_use s fd';
  (** a write that there is room for is complete, another is reported *)
  write_some s fd l : ∃ q, q `prefix_of` l ∧ fits (room s fd) (List.length q) ∧
    (fits (room s fd) (List.length l) → q = l ∧ (u_write fd l s).1 = Z.of_nat (List.length l)) ∧
    (¬ fits (room s fd) (List.length l) → (u_write fd l s).1 ≠ Z.of_nat (List.length l)) ∧
    avail (u_write fd l s).2 = avail s ∧
    ∀ fd', printed (u_write fd l s).2 fd' = printed s fd' ++ (if fd' =? fd then q else []) ∧
      room (u_write fd l s).2 fd' = (if fd' =? fd then less (room s fd) (List.length q) else room s fd') ∧
      in_use (u_write fd l s).2 fd' = in_use s fd' ∧ pending (u_write fd l s).2 fd' = pending s fd';
  open_file s a :
    (∀ fd', printed (u_open a 0 s).2 fd' = printed s fd' ∧ room (u_open a 0 s).2 fd' = room s fd') ∧
    match files a, avail s with
    | Some ps, Datatypes.S n =>
        0 ≤ (u_open a 0 s).1 ∧ in_use s (u_open a 0 s).1 = false ∧ in_use (u_open a 0 s).2 (u_open a 0 s).1 = true ∧
        pending (u_open a 0 s).2 (u_open a 0 s).1 = ps ∧ avail (u_open a 0 s).2 = n
    | _, _ => (u_open a 0 s).1 < 0
    end;
  close_file s fd :
    (∀ fd', printed (u_close fd s).2 fd' = printed s fd' ∧ (fd' ≠ fd → room (u_close fd s).2 fd' = room s fd')) ∧
    (in_use s fd = true → in_use (u_close fd s).2 fd = false ∧ avail (u_close fd s).2 = Datatypes.S (avail s))
}.

(** ** Words *)

Definition is_space (b : Z) : bool := bool_decide (b ∈ wc_spaces).

(** The text cut at every space, and its pieces that are not empty. *)
Fixpoint cut (t : list Z) : list (list Z) :=
  match t with
  | [] => [[]]
  | b :: t' =>
    if is_space b then [] :: cut t'
    else match cut t' with [] => [[b]] | f :: fs => (b :: f) :: fs end
  end.
Definition words (t : list Z) : list (list Z) := filter (λ f, f ≠ []) (cut t).

(** Whether the text starts inside a word. *)
Definition starts (t : list Z) : bool := match t with b :: _ => negb (is_space b) | [] => false end.

Lemma strchr_space b : match strchr wc_spaces b with Some _ => true | None => false end = is_space b.
Proof.
  symmetry. unfold is_space. pose proof (strchr_elem wc_spaces b) as Hb. destruct (strchr wc_spaces b) as [r|].
  - apply bool_decide_eq_true, Hb. by eexists.
  - apply bool_decide_eq_false. rewrite <- Hb. by intros [? ?].
Qed.

Lemma cut_head t : ∃ f fs, cut t = f :: fs ∧ (f = [] ↔ starts t = false).
Proof.
  destruct t as [|b t]; cbn [cut starts]; [by exists [], []|]. destruct (is_space b); cbn [negb].
  - by exists [], (cut t).
  - destruct (cut t) as [|f fs]; eexists _, _; by (split; [|split]).
Qed.

Lemma words_space b t : is_space b = true → words (b :: t) = words t.
Proof. intros E. unfold words. cbn [cut]. rewrite E. rewrite filter_cons_False; [done|by intros []]. Qed.

Lemma words_char b t :
  is_space b = false → (List.length (words (b :: t)) + (if starts t then 1 else 0) = Datatypes.S (List.length (words t)))%nat.
Proof.
  intros E. unfold words. cbn [cut]. rewrite E. destruct (cut_head t) as (f & fs & -> & Hf).
  rewrite filter_cons_True by done. destruct (starts t).
  - rewrite filter_cons_True by naive_solver. cbn. lia.
  - rewrite filter_cons_False by naive_solver. cbn. lia.
Qed.

Lemma wc_buf_app k a b : wc_buf k (a ++ b) = wc_buf (wc_buf k a) b.
Proof. revert k. induction a as [|x a IH]; intros k; [done|apply IH]. Qed.

(** The counters after a text, from any state of the scan, as long as they
    do not overflow: a word that was begun before is not counted again. *)
Lemma wc_buf_counts t l w c inw :
  0 ≤ l ≤ c → 0 ≤ w ≤ c → c + Z.of_nat (List.length t) < 2 ^ 31 →
  ∃ inw', wc_buf (Counts l w c inw) t =
    Counts (l + Z.of_nat (count_occ Z.eq_dec t 10)) (w + Z.of_nat (List.length (words t)) - (if inw && starts t then 1 else 0))
      (c + Z.of_nat (List.length t)) inw'.
Proof.
  revert l w c inw. induction t as [|b t IH]; intros l w c inw Hl Hw Hc.
  { exists inw. change (words []) with (@nil (list Z)). cbn. rewrite andb_false_r. f_equal; lia. }
  cbn [List.length] in Hc. cbn [wc_buf count_occ starts]. unfold wc_byte. cbn [wc_l wc_w wc_c wc_in].
  rewrite (i32_small (c + 1)), (i32_small (l + 1)), (i32_small (w + 1)) by lia.
  pose proof (strchr_space b) as Hs. set (l' := if b =? 10 then l + 1 else l).
  assert (0 ≤ l' ≤ c + 1 ∧ l' + Z.of_nat (count_occ Z.eq_dec t 10) =
    l + Z.of_nat (if Z.eq_dec b 10 then Datatypes.S (count_occ Z.eq_dec t 10) else count_occ Z.eq_dec t 10)) as [Hl' El].
  { subst l'. destruct (Z.eqb_spec b 10), (Z.eq_dec b 10); lia. }
  rewrite <- El. destruct (strchr wc_spaces b); rewrite <- Hs; cbn [negb].
  - destruct (IH l' w (c + 1) false) as [inw' ->]; [lia..|]. exists inw'. rewrite words_space, andb_false_r by done.
    cbn [andb List.length]. f_equal; lia.
  - pose proof (words_char b t (eq_sym Hs)) as Hn. rewrite andb_true_r. destruct inw; cbn [negb].
    + destruct (IH l' w (c + 1) true) as [inw' ->]; [lia..|]. exists inw'. cbn [andb List.length]. destruct (starts t); f_equal; lia.
    + destruct (IH l' (w + 1) (c + 1) true) as [inw' ->]; [lia..|]. exists inw'. cbn [andb List.length]. destruct (starts t); f_equal; lia.
Qed.

(** ** Correctness of cat and wc *)

(** The pieces before the first failing read, and whether there is one. *)
Fixpoint good (ps : list (option (list Z))) : list (list Z) :=
  match ps with Some p :: ps' => p :: good ps' | _ => [] end.
Fixpoint bad (ps : list (option (list Z))) : bool :=
  match ps with [] => false | None :: _ => true | Some _ :: ps' => bad ps' end.

Lemma less_less r m n : less (less r m) n = less r (m + n).
Proof. destruct r; simpl; [f_equal; lia|done]. Qed.
Lemma fits_less r m n : fits r m → fits (less r m) n ↔ fits r (m + n).
Proof. destruct r; simpl; lia || done. Qed.

Lemma clip_fits r l : fits r (List.length (clip r l)).
Proof. destruct r; simpl; [|done]. rewrite length_take. lia. Qed.
Lemma clip_app r a b : clip r (a ++ b) = clip r a ++ clip (less r (List.length (clip r a))) b.
Proof.
  destruct r as [n|]; simpl; [|done]. rewrite length_take, firstn_app. f_equal.
  destruct (decide (n ≤ List.length a)%nat).
  - by replace (n - min n (List.length a))%nat with (n - List.length a)%nat by lia.
  - by replace (n - min n (List.length a))%nat with (n - List.length a)%nat by lia.
Qed.

(** A write into a descriptor without enough room for the pieces [ps]: the
    pieces that fit arrived, then a part of the next one and the message. *)
Definition stopped (r : option nat) (ps : list (list Z)) (l : list Z) : Prop :=
  ∃ ps1 p ps2 q, ps = ps1 ++ p :: ps2 ∧ q `prefix_of` p ∧ fits r (List.length (concat ps1 ++ q)) ∧
    ¬ fits r (List.length (concat ps1 ++ p)) ∧
    l = concat ps1 ++ q ++ clip (less r (List.length (concat ps1 ++ q))) (line "cat: write error").

(** What arrives of the pieces [ps] and of the last message [msg]. *)
Definition cat_shows (r : option nat) (ps : list (list Z)) (msg l : list Z) : Prop :=
  (fits r (List.length (concat ps)) ∧ l = clip r (concat ps ++ msg)) ∨ stopped r ps l.

Lemma stopped_cons r p ps l : fits r (List.length p) → stopped (less r (List.length p)) ps l → stopped r (p :: ps) (p ++ l).
Proof.
  intros F (ps1 & p1 & ps2 & q & -> & Hq & F1 & F2 & ->). exists (p :: ps1), p1, ps2, q. cbn [concat].
  rewrite <- !app_assoc, fits_less, less_less in * by done. rewrite !(length_app p) in *. done.
Qed.

Lemma stopped_more r ps ps' l : stopped r ps l → stopped r (ps ++ ps') l.
Proof.
  intros (ps1 & p1 & ps2 & q & -> & H). exists ps1, p1, (ps2 ++ ps'), q. split; [|done]. by rewrite <- app_assoc.
Qed.

Lemma clip_all r l : fits r (List.length l) → clip r l = l.
Proof. destruct r; simpl; [|done]. intros. by apply firstn_all2. Qed.

Lemma cat_shows_cons r p ps msg l :
  fits r (List.length p) → cat_shows (less r (List.length p)) ps msg l → cat_shows r (p :: ps) msg (p ++ l).
Proof.
  intros F [[F1 ->]|St]; [left|right; by apply stopped_cons]. cbn [concat].
  rewrite length_app, <- fits_less by done. split; [done|]. by rewrite <- app_assoc, (clip_app _ p), (clip_all r p) by done.
Qed.

Lemma cat_shows_app r ps0 ps msg l :
  fits r (List.length (concat ps0)) → cat_shows (less r (List.length (concat ps0))) ps msg l →
  cat_shows r (ps0 ++ ps) msg (concat ps0 ++ l).
Proof.
  revert r. induction ps0 as [|p ps0 IH]; intros r F C; cbn [concat app] in *.
  - destruct r as [n|]; simpl in C; [by rewrite Nat.sub_0_r in C|done].
  - rewrite length_app in F, C. assert (fits r (List.length p)) as Fp by (destruct r; simpl in *; [lia|done]).
    rewrite <- app_assoc. apply cat_shows_cons; [done|]. apply IH; [by apply fits_less|]. by rewrite less_less.
Qed.

Section stdio.
Context {S : Type} `{stdio S}.

(** From [s] to [s'] the bytes [l] were written to the standard output,
    and nothing to another descriptor. *)
Definition shown (s s' : S) (l : list Z) : Prop := ∀ fd, printed s' fd = printed s fd ++ if fd =? 1 then l else [].

(** Moreover the room for more is what is left. *)
Definition output (s s' : S) (l : list Z) : Prop := shown s s' l ∧ room s' 1 = less (room s 1) (List.length l).

(** No descriptor was opened or closed. *)
Definition same_fds (s s' : S) : Prop := avail s' = avail s ∧ ∀ fd, in_use s' fd = in_use s fd.

Lemma less_0 r : less r 0 = r.
Proof. destruct r; simpl; [|done]. by rewrite Nat.sub_0_r. Qed.

Lemma output_none s s' : (∀ fd, printed s' fd = printed s fd) → room s' 1 = room s 1 → output s s' [].
Proof.
  intros E R. split; [|by rewrite less_0]. intros fd. rewrite E. destruct (fd =? 1); by rewrite app_nil_r.
Qed.

Lemma output_trans s1 s2 s3 a b : output s1 s2 a → output s2 s3 b → output s1 s3 (a ++ b).
Proof.
  intros [A RA] [B RB]. split; [|by rewrite RB, RA, less_less, length_app].
  intros fd. rewrite B, A, <- app_assoc. by destruct (fd =? 1).
Qed.

Lemma same_fds_trans s1 s2 s3 : same_fds s1 s2 → same_fds s2 s3 → same_fds s1 s3.
Proof. intros [A1 A2] [B1 B2]. split; [congruence|]. intros fd. by rewrite B2. Qed.

Lemma write_output l s : ∃ q, q `prefix_of` l ∧ fits (room s 1) (List.length q) ∧
  (fits (room s 1) (List.length l) → q = l) ∧
  ((u_write 1 l s).1 = Z.of_nat (List.length l) ↔ fits (room s 1) (List.length l)) ∧
  output s (u_write 1 l s).2 q ∧ same_fds s (u_write 1 l s).2 ∧
  ∀ fd, pending (u_write 1 l s).2 fd = pending s fd.
Proof.
  destruct (write_some s 1 l) as (q & Hq & Fq & F1 & F2 & Ha & R). exists q.
  split; [done|]. split; [done|]. split; [intros F; by apply F1|]. split; [|split; [|split]].
  - split; [|intros F; by apply F1]. intros E. destruct (decide (fits (room s 1) (List.length l))); [done|]. by destruct F2.
  - split; [|apply (R 1)]. intros fd. apply (R fd).
  - split; [done|]. intros fd. apply (R fd).
  - intros fd. apply (R fd).
Qed.

Lemma uputs_output l s :
  ∃ s', uputs 1 l s = UDone () s' ∧ output s s' (clip (room s 1) l) ∧ same_fds s s'.
Proof.
  revert s. induction l as [|c l IH]; intros s; cbn [uputs].
  - exists s. assert (clip (room s 1) [] = []) as -> by (destruct (room s 1) as [[]|]; done).
    split_and!; [done|by apply output_none|done].
  - destruct (write_output [c] s) as (q & Hq & Fq & F1 & _ & O & K & _).
    destruct (IH (u_write 1 [c] s).2) as (s' & E & Hs & K'). exists s'. split; [exact E|].
    split; [|by eapply same_fds_trans].
    assert (q = clip (room s 1) [c]) as Eq.
    { destruct (room s 1) as [[|n]|]; simpl in *; [|rewrite F1 by lia; by destruct n|by apply F1].
      by destruct q; [|simpl in Fq; lia]. }
    change (c :: l) with ([c] ++ l). rewrite clip_app, <- Eq. rewrite (proj2 O) in Hs. by eapply output_trans.
Qed.

Lemma uprintf_output fmt args l s : printf false fmt args = Some l →
  ∃ s', uprintf 1 fmt args s = UDone () s' ∧ output s s' (clip (room s 1) l) ∧ same_fds s s'.
Proof. intros E. unfold uprintf. rewrite E. apply uputs_output. Qed.

Lemma ubind_done {A B} (m : U S A) (f : A → U S B) s a s' : m s = UDone a s' → ubind m f s = f a s'.
Proof. intros E. unfold ubind. by rewrite E. Qed.
Lemma ubind_exit {A B} (m : U S A) (f : A → U S B) s s' : m s = UExit s' → ubind m f s = UExit s'.
Proof. intros E. unfold ubind. by rewrite E. Qed.

(** What one call of [read] gives, as the loops of the programs test it. *)
Lemma read_piece s fd :
  match pending s fd with
  | [] => (u_read fd 512 s).1 = Some []
  | None :: _ => (u_read fd 512 s).1 = None
  | Some p :: ps => ∃ b p', p = b :: p' ∧ (u_read fd 512 s).1 = Some (b :: p') ∧ pending (u_read fd 512 s).2 fd = ps
  end ∧ output s (u_read fd 512 s).2 [] ∧ same_fds s (u_read fd 512 s).2.
Proof.
  destruct (read_next s fd) as (R & A & E). split.
  - pose proof (pending_pieces s fd) as Hp. destruct (pending s fd) as [|[p|] ps]; [done| |done].
    apply not_elem_of_cons in Hp as [Hp _]. destruct p as [|b p']; [done|by exists b, p'].
  - split; [apply output_none; [intros fd'; apply (E fd')|apply (E 1)]|]. split; [done|]. intros fd'. apply (E fd').
Qed.

(** [printf] as the last act of a program. *)
Lemma last_words {A} fmt args l s : printf false fmt args = Some l →
  ∃ s', (uprintf 1 fmt args ;~ @uexit S A) s = UExit s' ∧ output s s' (clip (room s 1) l).
Proof.
  intros E. destruct (uprintf_output fmt args l s E) as (s' & E' & O & _). exists s'.
  by rewrite (ubind_done _ _ _ _ _ E').
Qed.

(** [cat] copies one descriptor, or the program ends. *)
Lemma cat_copies fuel fd s : (List.length (pending s fd) < fuel)%nat →
  ∃ s' l, output s s' l ∧
    ((cat fuel fd s = UDone () s' ∧ bad (pending s fd) = false ∧ same_fds s s' ∧
      fits (room s 1) (List.length (concat (good (pending s fd)))) ∧ l = concat (good (pending s fd))) ∨
     (cat fuel fd s = UExit s' ∧
      if bad (pending s fd) then cat_shows (room s 1) (good (pending s fd)) (line "cat: read error") l
      else stopped (room s 1) (good (pending s fd)) l)).
Proof.
  revert s. induction fuel as [|fuel IH]; intros s Hf; [lia|].
  remember (cat (Datatypes.S fuel) fd s) as run eqn:Er. cbn [cat] in Er. unfold ubind at 1, ucall at 1 in Er. cbv beta zeta iota in Er.
  destruct (read_piece s fd) as (R & O & K). set (s1 := (u_read fd 512 s).2) in *.
  pose proof (proj2 O) as R1. cbn [List.length] in R1. rewrite less_0 in R1.
  destruct (pending s fd) as [|[p|] ps]; cbn [good bad].
  - rewrite R in Er. exists s1, []. split; [done|]. left. split_and!; try done. by destruct (room s 1); simpl; [lia|].
  - destruct R as (b & p' & -> & Eb & P). rewrite Eb in Er. unfold ubind at 1, ucall at 1 in Er. cbv beta zeta iota in Er.
    destruct (write_output (b :: p') s1) as (q & Hq & Fq & F1 & F2 & Ow & Kw & Pw).
    set (s2 := (u_write 1 (b :: p') s1).2) in *. rewrite R1 in *.
    destruct (decide (fits (room s 1) (List.length (b :: p')))) as [Fp|Fp].
    + rewrite (proj2 F2 Fp), Z.eqb_refl in Er. cbn [negb] in Er. rewrite (F1 Fp) in *.
      pose proof (output_trans _ _ _ _ _ O Ow) as O2. cbn [app] in O2.
      destruct (IH s2) as (s' & l & O3 & C). { rewrite Pw, P. cbn in Hf. lia. }
      exists s', ((b :: p') ++ l). split; [by eapply output_trans|]. rewrite Pw, P, (proj2 O2) in C.
      destruct C as [(E & Hb & K3 & F3 & ->)|(E & C)]; [left|right].
      * split; [congruence|]. split_and!; [done|by eapply same_fds_trans; [|eapply same_fds_trans]| |done].
        cbn [concat]. rewrite length_app. by apply fits_less.
      * split; [congruence|]. destruct (bad ps); [by apply cat_shows_cons|by apply stopped_cons].
    + destruct (Z.eqb_spec (u_write 1 (b :: p') s1).1 (Z.of_nat (List.length (b :: p')))) as [E|_]; [by apply F2 in E|].
      cbn [negb] in Er. destruct (last_words (A := ()) (line "cat: write error") [] (line "cat: write error") s2) as (s' & E & O3); [done|].
      exists s'. eexists. split; [by eapply output_trans; [|eapply output_trans]|]. right. split; [by rewrite Er|].
      assert (stopped (room s 1) ((b :: p') :: good ps) ([] ++ q ++ clip (room s2 1) (line "cat: write error"))) as St.
      { exists [], (b :: p'), (good ps), q. rewrite (proj2 Ow), R1. done. }
      destruct (bad ps); [right|]; done.
  - rewrite R in Er. destruct (last_words (A := ()) (line "cat: read error") [] (line "cat: read error") s1) as (s' & E & O2); [done|].
    exists s'. eexists. split; [by eapply output_trans|]. right. split; [by rewrite Er|]. left.
    rewrite R1. split; [by destruct (room s 1); simpl; [lia|]|done].
Qed.

(** [wc_loop] counts one descriptor, or the program ends. *)
Lemma wc_counts fuel fd k s : (List.length (pending s fd) < fuel)%nat →
  ∃ s', if bad (pending s fd)
        then wc_loop fuel fd k s = UExit s' ∧ output s s' (clip (room s 1) (line "wc: read error"))
        else wc_loop fuel fd k s = UDone (wc_buf k (concat (good (pending s fd)))) s' ∧ output s s' [] ∧ same_fds s s'.
Proof.
  revert k s. induction fuel as [|fuel IH]; intros k s Hf; [lia|].
  remember (wc_loop (Datatypes.S fuel) fd k s) as run eqn:Er. cbn [wc_loop] in Er. unfold ubind at 1, ucall at 1 in Er.
  cbv beta zeta iota in Er.
  destruct (read_piece s fd) as (R & O & K). set (s1 := (u_read fd 512 s).2) in *.
  pose proof (proj2 O) as R1. cbn [List.length] in R1. rewrite less_0 in R1.
  destruct (pending s fd) as [|[p|] ps]; cbn [good bad].
  - rewrite R in Er. by exists s1.
  - destruct R as (b & p' & -> & Eb & P). rewrite Eb in Er. destruct (IH (wc_buf k (b :: p')) s1) as (s' & C).
    { rewrite P. cbn in Hf. lia. }
    exists s'. rewrite P in C. cbn [concat]. rewrite wc_buf_app. destruct (bad ps).
    + destruct C as [E O']. rewrite R1 in O'. split; [congruence|]. exact (output_trans _ _ _ [] _ O O').
    + destruct C as (E & O' & K'). split; [congruence|]. split; [exact (output_trans _ _ _ [] [] O O')|by eapply same_fds_trans].
  - rewrite R in Er. destruct (last_words (A := counts) (line "wc: read error") [] (line "wc: read error") s1) as (s' & E & O'); [done|].
    exists s'. rewrite R1 in O'. split; [by rewrite Er|exact (output_trans _ _ _ [] _ O O')].
Qed.

(** The line [wc] prints for a text: the number of newlines, of words and
    of bytes, and the name. *)
Definition wc_report (t name : list Z) : list Z :=
  uprintint (Z.of_nat (count_occ Z.eq_dec t 10)) 10 true ++ [32] ++
  uprintint (Z.of_nat (List.length (words t))) 10 true ++ [32] ++
  uprintint (Z.of_nat (List.length t)) 10 true ++ [32] ++ name ++ [10].

(** What it prints for the pieces of one descriptor. *)
Definition wc_line (ps : list (option (list Z))) (name : list Z) : list Z :=
  if bad ps then line "wc: read error" else wc_report (concat (good ps)) name.

Lemma wc_reports fuel fd name s :
  (List.length (pending s fd) < fuel)%nat → Z.of_nat (List.length (concat (good (pending s fd)))) < 2 ^ 31 →
  ∃ s', output s s' (clip (room s 1) (wc_line (pending s fd) name)) ∧
    if bad (pending s fd) then wc fuel fd name s = UExit s' else wc fuel fd name s = UDone () s' ∧ same_fds s s'.
Proof.
  intros Hf Hl. destruct (wc_counts fuel fd (Counts 0 0 0 false) s Hf) as (s1 & C). unfold wc, wc_line.
  destruct (bad (pending s fd)).
  { destruct C as [E O]. exists s1. split; [done|]. by rewrite (ubind_exit _ _ _ _ E). }
  destruct C as (E & O & K). rewrite (ubind_done _ _ _ _ _ E). set (t := concat (good (pending s fd))) in *.
  destruct (wc_buf_counts t 0 0 0 false) as [inw ->]; [lia..|]. cbn [wc_l wc_w wc_c andb].
  rewrite !Z.add_0_l, Z.sub_0_r. destruct (uprintf_output (line "%d %d %d %s") [AInt (Z.of_nat (count_occ Z.eq_dec t 10));
    AInt (Z.of_nat (List.length (words t))); AInt (Z.of_nat (List.length t)); AStr (Some name)]
    (wc_report t name) s1) as (s' & E' & O' & K'); [done|].
  rewrite (proj2 O) in O'. cbn [List.length] in O'. rewrite less_0 in O'.
  exists s'. split; [exact (output_trans _ _ _ [] _ O O')|]. split; [exact E'|by eapply same_fds_trans].
Qed.

(** The files a process with a free descriptor can open. *)
Definition can_open (n : nat) (a : list Z) : option (list (option (list Z))) :=
  match n with O => None | _ => files a end.

Definition no_file (prog a : list Z) : list Z := prog ++ cstr ": cannot open " ++ a ++ [10].

(** What [cat] has to print for its arguments: the pieces and, if it stops
    early, the message. *)
Fixpoint cat_plan (n : nat) (argv : list (list Z)) : list (list Z) * list Z :=
  match argv with
  | [] => ([], [])
  | a :: argv' =>
    match can_open n a with
    | None => ([], no_file (cstr "cat") a)
    | Some ps =>
      if bad ps then (good ps, line "cat: read error")
      else (good ps ++ (cat_plan n argv').1, (cat_plan n argv').2)
    end
  end.

(** What [wc] has to print for its arguments. *)
Fixpoint wc_plan (n : nat) (argv : list (list Z)) : list Z :=
  match argv with
  | [] => []
  | a :: argv' =>
    match can_open n a with
    | None => no_file (cstr "wc") a
    | Some ps => wc_line ps a ++ if bad ps then [] else wc_plan n argv'
    end
  end.

(** The open and the close of one argument, for both loops. *)
Lemma open_arg a s :
  ∃ fd s', ucall (u_open a 0) s = UDone fd s' ∧ output s s' [] ∧
    match can_open (avail s) a with
    | Some ps => (fd <? 0) = false ∧ pending s' fd = ps ∧ in_use s' fd = true ∧ Datatypes.S (avail s') = avail s ∧
        (fd = 1 → room s' 1 = Some 0%nat)
    | None => (fd <? 0) = true
    end.
Proof.
  destruct (open_file s a) as [P F]. exists (u_open a 0 s).1, (u_open a 0 s).2. split; [done|].
  split; [apply output_none; [intros fd; apply (P fd)|apply (P 1)]|]. unfold can_open.
  destruct (avail s), (files a); try (by apply Z.ltb_lt). destruct F as (F1 & F2 & F3 & F4 & F5).
  split_and!; [by apply Z.ltb_ge|done|done|by rewrite F5|]. intros E. rewrite (proj2 (P 1)). apply closed_room. by rewrite <- E.
Qed.

Lemma close_arg fd s : in_use s fd = true → (fd = 1 → room s 1 = Some 0%nat) →
  ∃ r s', ucall (u_close fd) s = UDone r s' ∧ output s s' [] ∧ avail s' = Datatypes.S (avail s).
Proof.
  intros Hu H1. destruct (close_file s fd) as [P F]. exists (u_close fd s).1, (u_close fd s).2. split; [done|].
  destruct (F Hu) as [Hc Ha]. split; [|done]. apply output_none; [intros fd'; apply (P fd')|].
  destruct (decide (fd = 1)) as [->|Hn]; [|by apply (P 1)]. by rewrite (closed_room _ _ Hc), H1.
Qed.

(** One argument that could be processed: its descriptor is closed again. *)
Lemma close_done fd s s1 s2 l :
  in_use s1 fd = true → (fd = 1 → room s1 1 = Some 0%nat) → Datatypes.S (avail s1) = avail s →
  output s s1 [] → output s1 s2 l → same_fds s1 s2 →
  ∃ r s3, ucall (u_close fd) s2 = UDone r s3 ∧ output s s3 l ∧ avail s3 = avail s.
Proof.
  intros Hu H1 Ha O1 O2 [K1 K2]. destruct (close_arg fd s2) as (r & s3 & E & O3 & A3).
  - by rewrite K2.
  - intros E. rewrite (proj2 O2), (H1 E). done.
  - exists r, s3. split_and!; [done| |congruence]. pose proof (output_trans _ _ _ _ _ (output_trans _ _ _ _ _ O1 O2) O3) as O.
    by rewrite app_nil_r in O.
Qed.

Lemma cat_files_output fuel argv s :
  (∀ a ps, a ∈ argv → files a = Some ps → (List.length ps < fuel)%nat) →
  ∃ s' l, cat_files fuel argv s = UExit s' ∧ output s s' l ∧
    cat_shows (room s 1) (cat_plan (avail s) argv).1 (cat_plan (avail s) argv).2 l.
Proof.
  revert s. induction argv as [|a argv IH]; intros s Hf; cbn [cat_files cat_plan].
  { exists s, []. split_and!; [done|by apply output_none|]. left. cbn. destruct (room s 1) as [[]|]; simpl; split; lia || done. }
  destruct (open_arg a s) as (fd & s1 & E1 & O1 & F). rewrite (ubind_done _ _ _ _ _ E1).
  pose proof (proj2 O1) as R1. cbn [List.length] in R1. rewrite less_0 in R1.
  destruct (can_open (avail s) a) as [ps|] eqn:Ea.
  - destruct F as (-> & P & Hu & Ha & H1). assert (files a = Some ps) as Ef by (unfold can_open in Ea; by destruct (avail s)).
    destruct (cat_copies fuel fd s1) as (s2 & l & O2 & C); [rewrite P; eapply Hf; [left|done]|]. rewrite P, R1 in C.
    destruct C as [(E2 & -> & K2 & F2 & ->)|(E2 & C)].
    + rewrite (ubind_done _ _ _ _ _ E2). destruct (close_done fd s s1 s2 _ Hu H1 Ha O1 O2 K2) as (r & s3 & E3 & O3 & A3).
      rewrite (ubind_done _ _ _ _ _ E3). destruct (IH s3) as (s' & l & E & O4 & C); [intros; eapply Hf; [by right|done]|].
      rewrite A3, (proj2 O3) in C. exists s', (concat (good ps) ++ l). cbn [fst snd].
      split_and!; [exact E|by eapply output_trans|by apply cat_shows_app].
    + rewrite (ubind_exit _ _ _ _ E2). exists s2, l. split_and!; [done|exact (output_trans _ _ _ [] _ O1 O2)|].
      destruct (bad ps); [done|]. right. by apply stopped_more.
  - rewrite F. destruct (last_words (A := ()) (line "cat: cannot open %s") [AStr (Some a)] (no_file (cstr "cat") a) s1)
      as (s' & E & O2); [done|]. rewrite R1 in O2. exists s'. eexists. split_and!; [exact E|exact (output_trans _ _ _ [] _ O1 O2)|].
    left. cbn. by destruct (room s 1); simpl; split; lia || done.
Qed.

Lemma wc_files_output fuel argv s :
  (∀ a ps, a ∈ argv → files a = Some ps → (List.length ps < fuel)%nat ∧ Z.of_nat (List.length (concat (good ps))) < 2 ^ 31) →
  ∃ s', wc_files fuel argv s = UExit s' ∧ output s s' (clip (room s 1) (wc_plan (avail s) argv)).
Proof.
  revert s. induction argv as [|a argv IH]; intros s Hf; cbn [wc_files wc_plan].
  { exists s. split; [done|]. destruct (room s 1) as [[]|]; by apply output_none. }
  destruct (open_arg a s) as (fd & s1 & E1 & O1 & F). rewrite (ubind_done _ _ _ _ _ E1).
  pose proof (proj2 O1) as R1. cbn [List.length] in R1. rewrite less_0 in R1.
  destruct (can_open (avail s) a) as [ps|] eqn:Ea.
  - destruct F as (-> & P & Hu & Ha & H1). assert (files a = Some ps) as Ef by (unfold can_open in Ea; by destruct (avail s)).
    destruct (wc_reports fuel fd a s1) as (s2 & O2 & C); [rewrite P; eapply Hf; [left|done]..|]. rewrite P, R1 in O2. rewrite P in C.
    destruct (bad ps).
    + rewrite (ubind_exit _ _ _ _ C), app_nil_r. exists s2. split; [done|exact (output_trans _ _ _ [] _ O1 O2)].
    + destruct C as [E2 K2]. rewrite (ubind_done _ _ _ _ _ E2).
      destruct (close_done fd s s1 s2 _ Hu H1 Ha O1 O2 K2) as (r & s3 & E3 & O3 & A3). rewrite (ubind_done _ _ _ _ _ E3).
      destruct (IH s3) as (s' & E & O4); [intros; eapply Hf; [by right|done]|]. exists s'. split; [exact E|].
      rewrite A3, (proj2 O3) in O4. rewrite clip_app. by eapply output_trans.
  - rewrite F. destruct (last_words (A := ()) (line "wc: cannot open %s") [AStr (Some a)] (no_file (cstr "wc") a) s1)
      as (s' & E & O2); [done|]. rewrite R1 in O2. exists s'. split; [exact E|exact (output_trans _ _ _ [] _ O1 O2)].
Qed.

(** C37. cat and wc terminate and print what they should, whatever the
    pieces in which the reads deliver the files: cat the contents of its
    arguments one after the other, wc for every argument the number of
    newlines, of maximal runs of non-space bytes, also those that straddle
    two reads, and of bytes; without arguments they do so for the standard
    input.  A read that fails and an argument that cannot be opened are
    reported and end the program; one free descriptor is enough for any
    number of arguments.  If the output does not take a piece, cat stops
    there and says so if it can; wc loses what does not fit.  Nothing is
    written to another descriptor.  The texts have fewer than 2^31 bytes. *)
Theorem cat_wc_correct fuel argv s :
  (∀ ps, ps = pending s 0 ∨ (∃ a, a ∈ argv ∧ files a = Some ps) →
    (List.length ps < fuel)%nat ∧ Z.of_nat (List.length (concat (good ps))) < 2 ^ 31) →
  (∃ s' l, cat_main fuel argv s = UExit s' ∧ shown s s' l ∧
    match argv with
    | [] => cat_shows (room s 1) (good (pending s 0)) (if bad (pending s 0) then line "cat: read error" else []) l
    | _ => cat_shows (room s 1) (cat_plan (avail s) argv).1 (cat_plan (avail s) argv).2 l
    end) ∧
  (∃ s', wc_main fuel argv s = UExit s' ∧
    shown s s' (clip (room s 1) (match argv with [] => wc_line (pending s 0) [] | _ => wc_plan (avail s) argv end))).
Proof.
  intros Hf. destruct argv as [|a argv]; cbn [cat_main wc_main].
  - destruct (Hf _ (or_introl eq_refl)) as [Hn Hl]. split.
    + destruct (cat_copies fuel 0 s Hn) as (s' & l & O & [(E & -> & _ & F & ->)|(E & C)]).
      * rewrite (ubind_done _ _ _ _ _ E). exists s'. eexists. split_and!; [done|apply O|]. left. by rewrite app_nil_r, clip_all.
      * rewrite (ubind_exit _ _ _ _ E). exists s', l. split_and!; [done|apply O|]. destruct (bad (pending s 0)); [done|by right].
    + destruct (wc_reports fuel 0 [] s Hn Hl) as (s' & O & C). exists s'. split; [|apply O]. destruct (bad (pending s 0)).
      * by rewrite (ubind_exit _ _ _ _ C).
      * by rewrite (ubind_done _ _ _ _ _ (proj1 C)).
  - split.
    + destruct (cat_files_output fuel (a :: argv) s) as (s' & l & E & O & C); [intros; apply Hf; eauto|].
      exists s', l. split_and!; [done|apply O|done].
    + destruct (wc_files_output fuel (a :: argv) s) as (s' & E & O); [intros; apply Hf; eauto|]. exists s'. split; [done|apply O].
Qed.

End stdio.

(** ** Names in ls *)

Lemma nth_no_slash dir name k : 47 ∉ name → (nth (List.length dir + k) (dir ++ name) 0 =? 47) = false.
Proof.
  intros Hn. apply Z.eqb_neq. rewrite app_nth2_plus. intros E. apply Hn. destruct (decide (k < List.length name)%nat).
  - rewrite <- E. by apply list_elem_of_In, nth_In.
  - rewrite nth_overflow in E; [done|lia].
Qed.

Lemma after_slash_base dir name k :
  47 ∉ name → dir = [] ∨ (∃ d, dir = d ++ [47]) → after_slash (dir ++ name) (List.length dir + k) = List.length dir.
Proof.
  intros Hn Hd. induction k as [|k IH].
  - pose proof (nth_no_slash dir name 0 Hn) as E. rewrite Nat.add_0_r in E |- *. destruct Hd as [-> | [d ->]].
    + cbn [after_slash List.length] in E |- *. by rewrite E.
    + rewrite length_app, Nat.add_1_r in E |- *. cbn [after_slash]. rewrite E.
      rewrite <- app_assoc. pose proof (nth_middle d name 47 0) as Em.
      destruct (List.length d); cbn [after_slash app] in Em |- *; by rewrite Em.
  - pose proof (nth_no_slash dir name (Datatypes.S k) Hn) as E. rewrite Nat.add_succ_r in E |- *.
    cbn [after_slash]. by rewrite E.
Qed.

(** A line of [ls] shows what follows the last slash, padded with blanks to
    the width of a directory entry. *)
Lemma fmtname_base dir name :
  47 ∉ name → dir = [] ∨ (∃ d, dir = d ++ [47]) → fmtname (dir ++ name) = name ++ repeat 32 (DIRSIZ - List.length name).
Proof.
  intros Hn Hd. assert (∀ l, ustrlen l = List.length l) as El by (induction l; cbn; congruence).
  unfold fmtname. rewrite (El (dir ++ name)), length_app, after_slash_base, skipn_app, skipn_all, Nat.sub_diag by done.
  cbv zeta. rewrite drop_0. cbn [app]. rewrite !El.
  destruct (Nat.leb_spec DIRSIZ (List.length name)); [|done].
  replace (DIRSIZ - List.length name)%nat with 0%nat by lia. by rewrite app_nil_r.
Qed.

(** ** The cd command *)

(** The last character of the line is dropped, whatever it is. *)
Lemma cd_arg_chops path c : cd_arg (cstr "cd " ++ path ++ [c]) = Some path.
Proof. change (cstr "cd ") with [99; 100; 32]. cbn [app cd_arg]. rewrite !app_comm_cons, removelast_last. done. Qed.

(** ** A small system *)

(** Its files are three notes, delivered in pieces, the last of which cannot
    be read to its end.  An open descriptor has the pieces that are left and
    the room for writing; a number of descriptors can still be opened.  The
    directories that are changed to are recorded under the descriptor -1. *)
Record desk := Desk {
  dk_fds : gmap Z (list (option (list Z)) * option nat);
  dk_avail : nat;
  dk_out : list (Z * list Z)
}.

Definition pieces (ps : list (option (list Z))) : list (option (list Z)) := filter (λ c, c ≠ Some []) ps.

Definition desk_pending (s : desk) (fd : Z) : list (option (list Z)) :=
  match dk_fds s !! fd with Some x => pieces x.1 | None => [None] end.
Definition desk_room (s : desk) (fd : Z) : option nat :=
  match dk_fds s !! fd with Some x => x.2 | None => Some 0%nat end.
Definition desk_in_use (s : desk) (fd : Z) : bool := bool_decide (is_Some (dk_fds s !! fd)).
Definition desk_files (a : list Z) : option (list (option (list Z))) :=
  if bool_decide (a = cstr "a") then Some [Some (cstr "one t"); Some (cstr "wo" ++ [10])]
  else if bool_decide (a = cstr "b") then Some [Some (cstr "three")]
  else if bool_decide (a = cstr "torn") then Some [Some (cstr "four"); None] else None.
Definition desk_printed (s : desk) (fd : Z) : list Z :=
  concat ((λ x, if fd =? x.1 then x.2 else []) <$> dk_out s).

Definition desk_put (fd : Z) (q : list Z) (s : desk) : desk :=
  Desk (alter (λ x, (x.1, less x.2 (List.length q))) fd (dk_fds s)) (dk_avail s) (dk_out s ++ [(fd, q)]).
Definition desk_fd (s : desk) : Z := 1 + foldr Z.max 2 (map_to_list (dk_fds s)).*1.

#[export] Instance desk_unix : unix desk := {
  u_read fd _ s :=
    (default (Some []) (head (desk_pending s fd)),
     Desk (alter (λ x, (tail (pieces x.1), x.2)) fd (dk_fds s)) (dk_avail s) (dk_out s));
  u_write fd l s :=
    if decide (fits (desk_room s fd) (List.length l)) then (Z.of_nat (List.length l), desk_put fd l s)
    else (-1, desk_put fd (clip (desk_room s fd) l) s);
  u_open a _ s :=
    match desk_files a, dk_avail s with
    | Some ps, S n => (desk_fd s, Desk (<[desk_fd s := (ps, Some 0%nat)]> (dk_fds s)) n (dk_out s))
    | _, _ => (-1, s)
    end;
  u_close fd s :=
    match dk_fds s !! fd with
    | Some _ => (0, Desk (delete fd (dk_fds s)) (S (dk_avail s)) (dk_out s))
    | None => (-1, s)
    end;
  u_fstat _ s := (None, s);
  u_dup _ s := (-1, s);
  u_mknod _ _ _ s := (-1, s);
  u_link _ _ s := (-1, s);
  u_unlink _ s := (-1, s);
  u_mkdir _ s := (-1, s);
  u_chdir a s := (0, desk_put (-1) a s);
  u_kill _ s := (-1, s);
  u_fork s := (-1, s);
  u_wait s := (-1, s);
  u_sleep _ s := (0, s);
  u_exec _ _ s := (Some (-1), s)
}.

Lemma pieces_tail l : pieces (tail (pieces l)) = tail (pieces l).
Proof.
  assert (∀ k, Forall (λ c, c ≠ Some []) k → pieces k = k) as Hk.
  { induction 1; [done|]. unfold pieces in *. by rewrite filter_cons_True, IHForall by done. }
  apply Hk. assert (Forall (λ c, c ≠ Some []) (pieces l)) as F.
  { apply Forall_forall. intros x Hx. by apply list_elem_of_filter in Hx as [? _]. }
  by destruct F.
Qed.

Lemma clip_prefix r l : clip r l `prefix_of` l.
Proof. destruct r as [n|]; [|done]. exists (List.skipn n l). simpl. by rewrite firstn_skipn. Qed.

Lemma desk_put_spec fd q s fd' :
  desk_printed (desk_put fd q s) fd' = desk_printed s fd' ++ (if fd' =? fd then q else []) ∧
  (desk_room (desk_put fd q s) fd' =
     if fd' =? fd then less (desk_room s fd) (List.length q) else desk_room s fd') ∧
  desk_in_use (desk_put fd q s) fd' = desk_in_use s fd' ∧ desk_pending (desk_put fd q s) fd' = desk_pending s fd'.
Proof.
  split.
  - unfold desk_printed, desk_put. cbn [dk_out]. rewrite fmap_app, concat_app. cbn. by rewrite app_nil_r.
  - unfold desk_room, desk_in_use, desk_pending, desk_put. cbn [dk_fds].
    destruct (Z.eqb_spec fd' fd) as [->|N]; [rewrite lookup_alter_eq|rewrite lookup_alter_ne by done; done].
    by destruct (dk_fds s !! fd).
Qed.

Lemma desk_fd_fresh s : 0 ≤ desk_fd s ∧ dk_fds s !! desk_fd s = None.
Proof.
  unfold desk_fd. set (l := (map_to_list (dk_fds s)).*1).
  assert (∀ k, 2 ≤ foldr Z.max 2 k ∧ ∀ z, z ∈ k → z ≤ foldr Z.max 2 k) as Hm.
  { induction k as [|z k [IH1 IH2]]; cbn [foldr]; [split; [lia|]; intros z Hz; by apply elem_of_nil in Hz|].
    split; [lia|]. intros w [->|Hw]%elem_of_cons; [lia|]. specialize (IH2 w Hw). lia. }
  destruct (Hm l) as [H1 H2]. split; [lia|]. destruct (dk_fds s !! _) as [x|] eqn:E; [|done].
  apply elem_of_map_to_list in E. apply (list_elem_of_fmap_2 fst) in E. apply H2 in E. simpl in E. lia.
Qed.

#[export] Program Instance desk_stdio : stdio desk := {
  pending := desk_pending; printed := desk_printed; room := desk_room; in_use := desk_in_use;
  avail := dk_avail; files := desk_files }.
Next Obligation.
  intros s fd. unfold desk_pending, pieces. destruct (dk_fds s !! fd); [by intros [? _]%list_elem_of_filter|].
  intros Hn. by apply list_elem_of_singleton in Hn.
Qed.
Next Obligation. intros s fd. unfold desk_in_use, desk_room. by destruct (dk_fds s !! fd). Qed.
Next Obligation.
  intros s fd. cbn [u_read desk_unix fst snd]. split_and!; [|done|].
  - unfold desk_pending. cbn [dk_fds]. rewrite lookup_alter_eq. destruct (dk_fds s !! fd) as [x|]; [|done].
    cbn. rewrite pieces_tail. by destruct (pieces x.1) as [|[p|] ps].
  - intros fd'. split; [done|]. unfold desk_room, desk_in_use. cbn [dk_fds].
    destruct (decide (fd' = fd)) as [->|N]; [rewrite lookup_alter_eq|by rewrite lookup_alter_ne by done].
    by destruct (dk_fds s !! fd).
Qed.
Next Obligation.
  intros s fd l. cbn [u_write desk_unix]. destruct (decide (fits (desk_room s fd) (List.length l))) as [F|F]; cbn [fst snd].
  - exists l. split_and!; [done|done|done|done|done|]. apply desk_put_spec.
  - exists (clip (desk_room s fd) l). split_and!; [apply clip_prefix|apply clip_fits|done|intros _; lia|done|]. apply desk_put_spec.
Qed.
Next Obligation.
  intros s a. cbn [u_open desk_unix]. destruct (desk_fd_fresh s) as [F0 F1].
  destruct (desk_files a) as [ps|] eqn:E, (dk_avail s) as [|n]; cbn [fst snd]; try (split; [done|lia]).
  unfold desk_room, desk_in_use, desk_pending. cbn [dk_fds dk_avail]. rewrite lookup_insert_eq, F1. split.
  - intros fd'. split; [done|]. destruct (decide (fd' = desk_fd s)) as [->|N]; [by rewrite lookup_insert_eq, F1|].
    by rewrite lookup_insert_ne by done.
  - split_and!; [done|done|done| |done]. cbn. revert E. unfold desk_files.
    repeat (destruct (bool_decide _); [by intros [= <-]|]). done.
Qed.
Next Obligation.
  intros s fd. cbn [u_close desk_unix]. unfold desk_in_use, desk_room.
  destruct (dk_fds s !! fd) as [x|] eqn:E; cbn [fst snd dk_fds]; [|by split].
  rewrite lookup_delete_eq. split; [|done]. intros fd'. split; [done|]. intros N. by rewrite lookup_delete_ne by done.
Qed.

(** The standard descriptors, with the room [r] on the output. *)
Definition desk_start (stdin : list (option (list Z))) (r : option nat) (n : nat) : desk :=
  Desk (<[0 := (stdin, Some 0%nat)]> (<[1 := ([None], r)]> (<[2 := ([None], None)]> ∅))) n [].

(** The word cut by the end of a read is counted once, one descriptor is
    enough for four files, and the read error ends the output. *)
Lemma cat_wc_correct_witness :
  ∃ s', wc_main 3 [cstr "a"; cstr "b"; cstr "torn"; cstr "a"] (desk_start [] (Some 30%nat) 1) = UExit s' ∧
    desk_printed s' 1 = line "1 2 8 a" ++ line "0 1 5 b" ++ cstr "wc: read error".
Proof.
  destruct (cat_wc_correct (S := desk) 3 [cstr "a"; cstr "b"; cstr "torn"; cstr "a"] (desk_start [] (Some 30%nat) 1))
    as [_ (s' & E & Hs)].
  - intros ps [->|(a & Ha & E)]; [split; [apply Nat.ltb_lt|apply Z.ltb_lt]; vm_compute; reflexivity|]. revert E. cbn [files desk_stdio]. unfold desk_files.
    repeat (destruct (bool_decide _); [intros [= <-]; cbn; lia|]). done.
  - exists s'. split; [exact E|]. change (desk_printed s' 1) with (printed s' 1). rewrite (Hs 1). vm_compute. reflexivity.
Defined.

(** The input "cd ab" without a newline at its end changes to "a". *)
Lemma cd_loses_character :
  ∃ s', sh_loop (λ _, uret ()) 3 (desk_start ((λ c, Some [c]) <$> cstr "cd ab") None 1) = UExit s' ∧ desk_printed s' (-1) = cstr "a".
Proof. eexists. split; vm_compute; reflexivity. Qed.
