(* ===== verification/Umalloc.v ===== *)
(** The user-level memory allocator (umalloc.c): a circular list of free
    blocks in address order, each block starting with its header.  The state
    is the headers in the memory of the program, the variable [freep], the
    size of the process, and the bytes the program keeps in its memory. *)

From S2P Require Import Prelude Mmu.

(** A header: [s.ptr] and [s.size], the size in units of 8 bytes. *)
Record header := Header { h_ptr : Z; h_size : Z }.

Record heap := Heap { hp_mem : gmap Z header; hp_freep : Z; hp_brk : Z; hp_data : gmap Z Z }.

Definition set_freep (f : Z) (s : heap) : heap := Heap (hp_mem s) f (hp_brk s) (hp_data s).
Definition set_brk (b : Z) (s : heap) : heap := Heap (hp_mem s) (hp_freep s) b (hp_data s).

(** A header that is stored overwrites what the program had at its bytes. *)
Definition clobber (a : Z) (d : gmap Z Z) : gmap Z Z := filter (λ p, p.1 < a ∨ a + 8 ≤ p.1) d.
Definition set_hdr (a : Z) (h : header) (s : heap) : heap :=
  Heap (<[a := h]> (hp_mem s)) (hp_freep s) (hp_brk s) (clobber a (hp_data s)).

Section umalloc.
(** The address of the static variable [base], and whether the kernel finds
    the pages to grow a process of a size by a number of bytes. *)
Context (base : Z) (grow : Z → Z → bool).

(** *** Memory *)

Definition hdr (a : Z) : M heap header :=
  h ← gets (λ s, hp_mem s !! a);
  match h with Some h => mret h | None => fault "no header" end.

(** A store to a header has to be to memory of the program. *)
Definition upd_hdr (a : Z) (f : header → header) : M heap () :=
  b ← gets hp_brk;
  if (a =? base) || (a + 8 <=? b)
  then modify (λ s, set_hdr a (f (default (Header 0 0) (hp_mem s !! a))) s)
  else fault "store beyond the break".
Definition put_ptr (a v : Z) : M heap () := upd_hdr a (λ h, Header v (h_size h)).
Definition put_size (a v : Z) : M heap () := upd_hdr a (λ h, Header (h_ptr h) v).

(** The [sbrk] system call as the program sees it. *)
Definition sbrk (n : Z) : M heap Z :=
  b ← gets hp_brk;
  let n := i32 n in
  if 0 <? n then
    let new := u32 (b + n) in
    if KERNBASE <=? new then mret (2 ^ 32 - 1) else
    if new <? b then mret b else
    if grow b n then modify (set_brk new);; mret b else mret (2 ^ 32 - 1)
  else if n <? 0 then
    let new := u32 (b + n) in
    let new := if b <=? new then b else new in
    if new =? 0 then mret (2 ^ 32 - 1) else modify (set_brk new);; mret b
  else mret b.

(** *** free *)

Definition free_here (bp p nx : Z) : bool :=
  ((p <? bp) && (bp <? nx)) || ((nx <=? p) && ((p <? bp) || (bp <? nx))).

Fixpoint free_loop (fuel : nat) (bp p : Z) : M heap Z :=
  h ← hdr p;
  if free_here bp p (h_ptr h) then mret p else
  match fuel with
  | O => fault "free: no place"
  | S fuel => free_loop fuel bp (h_ptr h)
  end.

Definition free_link (bp p : Z) : M heap () :=
  hb ← hdr bp;
  hp ← hdr p;
  (if u32 (bp + 8 * h_size hb) =? h_ptr hp then
     hn ← hdr (h_ptr hp);
     put_size bp (u32 (h_size hb + h_size hn));;
     put_ptr bp (h_ptr hn)
   else put_ptr bp (h_ptr hp));;
  hb ← hdr bp;
  hp ← hdr p;
  (if u32 (p + 8 * h_size hp) =? bp then
     put_size p (u32 (h_size hp + h_size hb));;
     put_ptr p (h_ptr hb)
   else put_ptr p bp);;
  modify (set_freep p).

(** The list has no more nodes than there are headers. *)
Definition free (ap : Z) : M heap () :=
  let bp := u32 (ap - 8) in
  s ← get;
  p ← free_loop (size (hp_mem s)) bp (hp_freep s);
  free_link bp p.

(** *** malloc *)

Definition morecore (nu : Z) : M heap Z :=
  let nu := if nu <? 4096 then 4096 else nu in
  p ← sbrk (u32 (nu * 8));
  if p =? 2 ^ 32 - 1 then mret 0 else
  put_size p nu;;
  free (u32 (p + 8));;
  gets hp_freep.

(** The block [p] after [prevp] is large enough. *)
Definition malloc_take (nunits prevp p : Z) (h : header) : M heap Z :=
  if h_size h =? nunits then
    put_ptr prevp (h_ptr h);;
    modify (set_freep prevp);;
    mret (u32 (p + 8))
  else
    put_size p (h_size h - nunits);;
    let p := u32 (p + 8 * (h_size h - nunits)) in
    put_size p nunits;;
    modify (set_freep prevp);;
    mret (u32 (p + 8)).

Fixpoint malloc_loop (fuel : nat) (nunits prevp p : Z) : M heap Z :=
  h ← hdr p;
  if nunits <=? h_size h then malloc_take nunits prevp p h else
  f ← gets hp_freep;
  match fuel with
  | O => fault "malloc: no block"
  | S fuel =>
    if p =? f then
      p ← morecore nunits;
      if p =? 0 then mret 0 else
      h ← hdr p;
      malloc_loop fuel nunits p (h_ptr h)
    else malloc_loop fuel nunits p (h_ptr h)
  end.

Definition malloc_init : M heap () :=
  put_ptr base base;;
  modify (set_freep base);;
  put_size base 0.

(** Two rounds through the list, and the blocks that [morecore] adds. *)
Definition malloc (nbytes : Z) : M heap Z :=
  let nunits := u32 (nbytes + 8 - 1) / 8 + 1 in
  f ← gets hp_freep;
  (if f =? 0 then malloc_init else mret tt);;
  s ← get;
  h ← hdr (hp_freep s);
  malloc_loop (2 * size (hp_mem s) + 2) nunits (hp_freep s) (h_ptr h).
End umalloc.
