(* ===== verification/UmallocSpec.v ===== *)
(** malloc and free (umalloc.c): the blocks in use never overlap each other
    or a free block, no memory is lost, and every search ends. *)

From S2P Require Import Prelude Mmu Umalloc.

(** ** Blocks *)

(** A block: its address and its size in units. *)
Notation block := (Z * Z)%type.

Definition covers (b : block) (x : Z) : Prop := b.1 ≤ x < b.1 + 8 * b.2.
Definition cov (N : list block) (x : Z) : Prop := Exists (λ b, covers b x) N.

(** The last byte of a block; [base] is a bare header. *)
Definition fin (b : block) : Z := Z.max (b.1 + 8 * b.2) (b.1 + 7).

Section spec.
Context (base : Z) (Hbase : 0 < base).

(** The address after the nodes of a list: that of the next node. *)
Definition hd_addr (N : list block) (e : Z) : Z := match N with b :: _ => b.1 | [] => e end.

(** The headers in memory link the nodes [N], the last one to [e]. *)
Fixpoint seg (m : gmap Z header) (N : list block) (e : Z) : Prop :=
  match N with
  | [] => True
  | b :: N' => m !! b.1 = Some (Header (hd_addr N' e) b.2) ∧ seg m N' e
  end.

(** The blocks come in address order, no two adjacent, and only [base] is
    empty. *)
Fixpoint apart (lo : Z) (N : list block) : Prop :=
  match N with
  | [] => True
  | b :: N' => lo < b.1 ∧ 0 ≤ b.2 ∧ (b.2 = 0 ↔ b.1 = base) ∧ apart (fin b) N'
  end.

Fixpoint ends (lo : Z) (N : list block) : Z :=
  match N with [] => lo | b :: N' => ends (fin b) N' end.

Record ring_ok (N : list block) (s : heap) : Prop := {
  ro_head : head N = Some (base, 0);
  ro_seg : seg (hp_mem s) N base;
  ro_apart : apart (base - 1) N;
  ro_ends : ends (base - 1) N ≤ hp_brk s;
  ro_brk : base + 8 ≤ hp_brk s ≤ KERNBASE;
  ro_freep : hp_freep s ∈ N.*1;
}.

(** *** Lists of blocks *)

Lemma hd_addr_app N1 N2 e : hd_addr (N1 ++ N2) e = hd_addr N1 (hd_addr N2 e).
Proof. by destruct N1. Qed.

Lemma seg_app m N1 N2 e : seg m (N1 ++ N2) e ↔ seg m N1 (hd_addr N2 e) ∧ seg m N2 e.
Proof. induction N1 as [|b N1 IH]; cbn; [tauto|]. rewrite IH, hd_addr_app. tauto. Qed.

Lemma seg_frame m m' N e : (∀ a, a ∈ N.*1 → m' !! a = m !! a) → seg m N e → seg m' N e.
Proof.
  induction N as [|b N IH]; intros H; [done|]. intros [E S]. split; [rewrite H; [done|by left]|].
  apply IH; [|done]. intros a Ha. apply H. by right.
Qed.

Lemma apart_app lo N1 N2 : apart lo (N1 ++ N2) ↔ apart lo N1 ∧ apart (ends lo N1) N2.
Proof. revert lo. induction N1 as [|b N1 IH]; intros lo; cbn; [tauto|]. rewrite IH. tauto. Qed.

Lemma ends_app lo N1 N2 : ends lo (N1 ++ N2) = ends (ends lo N1) N2.
Proof. revert lo. induction N1 as [|b N1 IH]; intros lo; cbn; [done|]. apply IH. Qed.

Lemma fin_ge b : b.1 < fin b ∧ b.1 + 8 * b.2 ≤ fin b.
Proof. unfold fin. lia. Qed.

Lemma ends_ge lo N : apart lo N → lo ≤ ends lo N.
Proof.
  revert lo. induction N as [|b N IH]; intros lo; cbn; [lia|]. intros (H1 & _ & _ & H2). apply IH in H2. pose proof (fin_ge b). lia.
Qed.

Lemma apart_mem lo N b : apart lo N → b ∈ N → lo < b.1 ∧ fin b ≤ ends lo N ∧ 0 ≤ b.2 ∧ (b.2 = 0 ↔ b.1 = base).
Proof.
  revert lo. induction N as [|c N IH]; intros lo; cbn; [by intros _ ?%elem_of_nil|]. intros (H1 & H2 & H3 & H4).
  intros [->|Hin]%elem_of_cons.
  - split; [done|]. split; [by apply ends_ge|done].
  - destruct (IH _ H4 Hin) as (? & ? & ?). pose proof (fin_ge c). split; [lia|done].
Qed.

Lemma apart_addr lo N a : apart lo N → a ∈ N.*1 → lo < a < ends lo N.
Proof.
  intros H (b & -> & Hb)%list_elem_of_fmap. destruct (apart_mem _ _ _ H Hb) as (? & ? & _). pose proof (fin_ge b). lia.
Qed.

Lemma apart_weaken lo lo' N : lo' ≤ lo → apart lo N → apart lo' N.
Proof. destruct N as [|b N]; [done|]. cbn. intros ? (? & ?). split; [lia|done]. Qed.

Lemma cov_app N1 N2 x : cov (N1 ++ N2) x ↔ cov N1 x ∨ cov N2 x.
Proof. apply Exists_app. Qed.
Lemma cov_cons b N x : cov (b :: N) x ↔ covers b x ∨ cov N x.
Proof. apply Exists_cons. Qed.
Lemma cov_nil x : cov [] x ↔ False.
Proof. apply Exists_nil. Qed.

(** A node other than [base] covers its header. *)
Lemma cov_node lo N b : apart lo N → b ∈ N → b.1 ≠ base → cov N b.1.
Proof.
  intros H Hb Hne. apply Exists_exists. exists b. split; [done|]. destruct (apart_mem _ _ _ H Hb) as (_ & _ & ? & ?).
  unfold covers. lia.
Qed.

Lemma off_node lo N b y : apart lo N → b ∈ N → y < base ∨ base + 8 ≤ y → ¬ cov N y → y < b.1 ∨ b.1 + 8 ≤ y.
Proof.
  intros H Hb Hy Hc. destruct (apart_mem _ _ _ H Hb) as (_ & _ & ? & ?). destruct (decide (b.1 ≤ y < b.1 + 8)); [|lia].
  exfalso. apply Hc, Exists_exists. exists b. split; [done|]. unfold covers. lia.
Qed.

Lemma cov_range lo N x : apart lo N → cov N x → lo < x < ends lo N.
Proof.
  intros H (b & Hb & Hc)%Exists_exists. destruct (apart_mem _ _ _ H Hb) as (? & ? & _). pose proof (fin_ge b). unfold covers in Hc. lia.
Qed.

(** *** Steps *)

Lemma hdr_wp a h Q s : hp_mem s !! a = Some h → Q h s → wp (hdr a) Q s.
Proof. intros E HQ. unfold hdr. wp_auto. rewrite E. by wp_auto. Qed.

Lemma upd_hdr_wp a f Q s :
  a = base ∨ a + 8 ≤ hp_brk s →
  Q tt (set_hdr a (f (default (Header 0 0) (hp_mem s !! a))) s) → wp (upd_hdr base a f) Q s.
Proof.
  intros Ha HQ. unfold upd_hdr. wp_auto. rewrite (proj2 (orb_true_iff _ _)); [by wp_auto|].
  destruct Ha as [->|Ha]; [left; apply Z.eqb_refl|right; by apply Z.leb_le].
Qed.

(** ** The search of free *)

Definition next_addr (N : list block) (k : nat) : Z := match N !! S k with Some b => b.1 | None => base end.

Lemma seg_lookup m N k b : seg m N base → N !! k = Some b → m !! b.1 = Some (Header (next_addr N k) b.2).
Proof.
  intros H Hk. apply list_elem_of_split_length in Hk as (N1 & N2 & -> & ->). apply seg_app in H as [_ [H _]].
  rewrite H. f_equal. f_equal. unfold next_addr. rewrite lookup_app_r by lia. replace (S (length N1) - length N1)%nat with 1%nat by lia.
  cbn. by destruct N2.
Qed.

(** The number of steps from node [k] to node [t] around the list. *)
Definition dist (N : list block) (k t : nat) : nat := if decide (k ≤ t)%nat then t - k else length N - k + t.

(** The node after node [k]. *)
Definition succ_ix (N : list block) (k : nat) : nat := if decide (S k < length N)%nat then S k else 0%nat.

Lemma succ_ix_lookup N k b0 : head N = Some b0 → b0.1 = base → ∃ b, N !! succ_ix N k = Some b ∧ b.1 = next_addr N k.
Proof.
  intros Hh Hb. unfold succ_ix, next_addr. case_decide as Hlt.
  - destruct (lookup_lt_is_Some_2 N (S k) Hlt) as [b E]. exists b. by rewrite E.
  - rewrite (lookup_ge_None_2 N (S k)) by lia. exists b0. destruct N; [done|by split].
Qed.

Lemma dist_succ N k t : (k < length N)%nat → (t < length N)%nat → k ≠ t → dist N k t = S (dist N (succ_ix N k) t).
Proof. intros Hk Ht Hne. unfold dist, succ_ix. repeat case_decide; lia. Qed.

Lemma free_loop_wp fuel N bp s k b t bt Q :
  head N = Some (base, 0) → seg (hp_mem s) N base → N !! k = Some b → N !! t = Some bt →
  free_here bp bt.1 (next_addr N t) = true → (dist N k t ≤ fuel)%nat →
  (∀ i c, N !! i = Some c → free_here bp c.1 (next_addr N i) = true → Q c.1 s) → wp (free_loop fuel bp b.1) Q s.
Proof.
  intros Hh S Hk Ht Hst Hf HQ. revert k b Hk Hf. induction fuel as [|fuel IH]; intros k b Hk Hf; cbn [free_loop]; apply wp_bind;
    (eapply hdr_wp; [by eapply seg_lookup|]); cbn [h_ptr]; destruct (free_here bp b.1 (next_addr N k)) eqn:E;
    try (apply wp_ret; by eapply HQ).
  - exfalso. assert (k = t) as ->; [|congruence]. apply lookup_lt_Some in Hk, Ht. unfold dist in Hf. case_decide; lia.
  - assert (k ≠ t) as Hne by (intros ->; congruence).
    destruct (succ_ix_lookup N k (base, 0) Hh eq_refl) as (b' & Hk' & <-). apply (IH (succ_ix N k)); [done|].
    apply lookup_lt_Some in Hk, Ht. rewrite dist_succ in Hf by done. lia.
Qed.

(** A place for [bp] right after a node. *)
Lemma free_here_split N lo bp i c :
  head N = Some (base, 0) → apart lo N → base < bp → N !! i = Some c → free_here bp c.1 (next_addr N i) = true →
  ∃ N1 N2, N = N1 ++ c :: N2 ∧ c.1 < bp ∧ (N2 = [] ∨ bp < hd_addr N2 0).
Proof.
  intros Hh Ha Hb Hi E. apply list_elem_of_split_length in Hi as (N1 & N2 & -> & ->). exists N1, N2. split; [done|].
  unfold free_here, next_addr in E. rewrite lookup_app_r in E by lia.
  replace (S (length N1) - length N1)%nat with 1%nat in E by lia. cbn in E.
  apply apart_app in Ha as [_ Ha]. cbn in Ha. destruct Ha as (_ & _ & _ & Ha). pose proof (fin_ge c).
  rewrite orb_true_iff, !andb_true_iff, orb_true_iff, !Z.ltb_lt, Z.leb_le in E.
  destruct N2 as [|d N2]; cbn in E, Ha |- *; [split; [|by left]|split; [|right]]; lia.
Qed.

Lemma free_place N lo bp :
  head N = Some (base, 0) → apart lo N → base < bp → bp ∉ N.*1 →
  ∃ t bt, N !! t = Some bt ∧ free_here bp bt.1 (next_addr N t) = true.
Proof.
  intros Hh Ha Hb Hn.
  assert (∃ N1 c N2, N = N1 ++ c :: N2 ∧ c.1 < bp ∧ (N2 = [] ∨ bp < hd_addr N2 0)) as (N1 & c & N2 & -> & Hc & H2).
  { destruct N as [|c N]; [done|]. injection Hh as ->. clear Ha. assert ((base, 0).1 < bp) as Hlt by done. revert Hlt Hn. generalize (base, 0).
    induction N as [|d N IH]; intros c Hc Hn; [exists [], c, []; auto|].
    destruct (Z.lt_total bp d.1) as [Hd|[->|Hd]]; [exists [], c, (d :: N); auto|set_solver|].
    destruct (IH d Hd ltac:(set_solver)) as (N1 & c' & N2 & E & ?). exists (c :: N1), c', N2. by rewrite E. }
  exists (length N1), c. split; [by rewrite lookup_app_r, Nat.sub_diag by lia|]. unfold free_here, next_addr.
  rewrite lookup_app_r by lia. replace (S (length N1) - length N1)%nat with 1%nat by lia. cbn.
  rewrite orb_true_iff, !andb_true_iff, orb_true_iff, !Z.ltb_lt, Z.leb_le.
  destruct N2 as [|d N2]; cbn in *; [right|left; destruct H2; [done|lia]].
  assert (base ≤ c.1) as Hge.
  { destruct N1 as [|a N1]; cbn in Hh; injection Hh as ->; [done|]. cbn in Ha. destruct Ha as (_ & _ & _ & Ha).
    apply (apart_addr _ _ c.1) in Ha; [|set_solver]. pose proof (fin_ge (base, 0)). cbn in *. lia. }
  lia.
Qed.

(** ** The insertion of free *)

(** The size of the block [b] and the nodes after it, once [b] has been
    joined with a block that begins where it ends. *)
Definition join (b : block) (N2 : list block) : Z * list block :=
  match N2 with
  | d :: N2' => if b.1 + 8 * b.2 =? d.1 then (b.2 + d.2, N2') else (b.2, N2)
  | [] => (b.2, [])
  end.

(** The nodes from [c] on, once [b] has been put after [c]. *)
Definition place (c b : block) (N2 : list block) : list block :=
  let j := join b N2 in
  if c.1 + 8 * c.2 =? b.1 then (c.1, c.2 + j.1) :: j.2 else c :: (b.1, j.1) :: j.2.

(** [b] fits between [c] and the nodes [N2]. *)
Record fits (c b : block) (N2 : list block) : Prop := {
  fi_size : 0 < b.2;
  fi_left : c.1 + 8 * c.2 ≤ b.1;
  fi_base : fin c ≤ b.1 ∧ (c.2 = 0 → fin c < b.1);
  fi_not_base : base < b.1;
  fi_right : N2 = [] ∨ b.1 + 8 * b.2 ≤ hd_addr N2 0;
}.

Lemma join_apart lo c b N2 :
  apart lo (c :: N2) → fits c b N2 →
  apart (b.1 - 1) ((b.1, (join b N2).1) :: (join b N2).2) ∧ b.2 ≤ (join b N2).1.
Proof.
  intros (_ & Hc & _ & Ha) [F1 F2 F3 F4 F5]. unfold join. destruct N2 as [|d N2]; cbn in *.
  - split_and!; try done; lia.
  - destruct F5 as [[=]|F5]. destruct Ha as (H1 & H2 & H3 & H4). destruct (Z.eqb_spec (b.1 + 8 * b.2) d.1) as [E|E]; cbn.
    + split; [|lia]. split; [lia|]. split; [lia|]. split; [lia|]. replace (fin (b.1, b.2 + d.2)) with (fin d); [done|].
      unfold fin in *. cbn. lia.
    + split; [|lia]. split; [lia|]. split; [lia|]. split; [lia|]. split; [|done]. unfold fin. cbn. lia.
Qed.

Lemma place_apart lo c b N2 : apart lo (c :: N2) → fits c b N2 → apart lo (place c b N2).
Proof.
  intros Ha F. pose proof Ha as (H1 & H2 & H3 & H4). pose proof F as [F1 F2 [F3 F3'] F4 F5]. unfold place.
  destruct (Z.eqb_spec (c.1 + 8 * c.2) b.1) as [E|E].
  - destruct (join_apart lo c b N2 Ha F) as ((J1 & J2 & J3 & J4) & J5). cbn in *.
    assert (c.2 ≠ 0) by (intros ?; specialize (F3' ltac:(done)); unfold fin in F3'; lia).
    split_and!; cbn; try lia. replace (fin (c.1, c.2 + (join b N2).1)) with (fin (b.1, (join b N2).1)); [done|]. unfold fin. cbn. lia.
  - assert (fin c < b.1) as Hlt by (unfold fin in *; lia).
    destruct (join_apart lo c b N2 Ha F) as ((J1 & J2 & J3 & J4) & J5). cbn in *. by split_and!.
Qed.

Lemma join_cov b N2 x : 0 ≤ b.2 → Forall (λ d, 0 ≤ d.2) N2 → cov ((b.1, (join b N2).1) :: (join b N2).2) x ↔ covers b x ∨ cov N2 x.
Proof.
  intros Hb F. unfold join. destruct N2 as [|d N2]; cbn; [by rewrite cov_cons|]. inversion F; subst.
  destruct (Z.eqb_spec (b.1 + 8 * b.2) d.1) as [E|E]; cbn; [|by rewrite !cov_cons].
  rewrite !cov_cons. unfold covers. cbn. rewrite <- E. assert ((b.1 ≤ x < b.1 + 8 * (b.2 + d.2)) ↔
    (b.1 ≤ x < b.1 + 8 * b.2 ∨ b.1 + 8 * b.2 ≤ x < b.1 + 8 * b.2 + 8 * d.2)) as -> by lia. tauto.
Qed.

Lemma apart_nonneg lo N : apart lo N → Forall (λ d, 0 ≤ d.2) N.
Proof. intros H. apply Forall_forall. intros d Hd. by apply (apart_mem _ _ _ H Hd). Qed.

Lemma place_cov lo c b N2 x :
  apart lo (c :: N2) → fits c b N2 → cov (place c b N2) x ↔ cov (c :: N2) x ∨ covers b x.
Proof.
  intros Ha F. pose proof (apart_nonneg _ _ Ha) as Hn. inversion Hn as [|? ? Hc Hn2]; subst.
  pose proof (join_cov b N2 x ltac:(pose proof (fi_size _ _ _ F); lia) Hn2) as J. rewrite cov_cons in J.
  pose proof (join_apart lo c b N2 Ha F) as [_ JA].
  unfold place. destruct (Z.eqb_spec (c.1 + 8 * c.2) b.1) as [E|E]; rewrite !cov_cons; [|rewrite J; tauto].
  pose proof (fi_size _ _ _ F).
  assert (covers (c.1, c.2 + (join b N2).1) x ↔ covers c x ∨ covers (b.1, (join b N2).1) x) as ->.
  { unfold covers. cbn. lia. }
  tauto.
Qed.

Lemma place_ends lo c b N2 : apart lo (c :: N2) → fits c b N2 → ends lo (place c b N2) = ends (fin b) N2.
Proof.
  intros (_ & Hc & _ & Ha) [F1 F2 [F3 F3'] F4 F5]. unfold place, join.
  destruct N2 as [|d N2].
  - destruct (Z.eqb_spec (c.1 + 8 * c.2) b.1) as [E|E]; cbn; [|done]. unfold fin. cbn. lia.
  - cbn in Ha. destruct Ha as (H1 & H2 & H3 & _). destruct F5 as [[=]|F5]. cbn in F5.
    destruct (Z.eqb_spec (c.1 + 8 * c.2) b.1) as [E|E], (Z.eqb_spec (b.1 + 8 * b.2) d.1) as [E'|E']; cbn; try done;
      f_equal; unfold fin; cbn; lia.
Qed.

Lemma put_ptr_wp a v h Q s :
  a = base ∨ a + 8 ≤ hp_brk s → hp_mem s !! a = Some h →
  Q tt (set_hdr a (Header v (h_size h)) s) → wp (put_ptr base a v) Q s.
Proof. intros Ha E HQ. apply upd_hdr_wp; [done|]. by rewrite E. Qed.

Lemma set_hdr_twice a h h' s : set_hdr a h (set_hdr a h' s) = set_hdr a h s.
Proof.
  unfold set_hdr, clobber. cbn. rewrite insert_insert_eq, map_filter_filter. f_equal. apply map_filter_ext. cbn. tauto.
Qed.

Lemma put_both_wp a x y Q s :
  a = base ∨ a + 8 ≤ hp_brk s → Q tt (set_hdr a (Header y x) s) →
  wp (put_size base a x;; put_ptr base a y) Q s.
Proof.
  intros Ha HQ. apply wp_bind, upd_hdr_wp; [done|]. eapply put_ptr_wp; [done|apply lookup_insert_eq|]. by rewrite set_hdr_twice.
Qed.

(** The program's data outside a header that is stored. *)
Lemma clobber_lookup a d y : y < a ∨ a + 8 ≤ y → clobber a d !! y = d !! y.
Proof.
  intros Hy. unfold clobber. destruct (d !! y) as [v|] eqn:E.
  - by apply map_lookup_filter_Some_2.
  - apply map_lookup_filter_None_2. by left.
Qed.

Definition off_hdr (a y : Z) : Prop := y < a ∨ a + 8 ≤ y.

(** The header of [b] after the first half of [free_link]. *)
Lemma link_next_wp lo c b N2 x Q s :
  apart lo (c :: N2) → fits c b N2 → seg (hp_mem s) N2 base → hp_mem s !! b.1 = Some (Header x b.2) →
  b.1 + 8 * b.2 ≤ hp_brk s → ends lo (c :: N2) ≤ hp_brk s → hp_brk s ≤ KERNBASE →
  Q tt (set_hdr b.1 (Header (hd_addr (join b N2).2 base) (join b N2).1) s) →
  wp (if u32 (b.1 + 8 * b.2) =? hd_addr N2 base then
        hn ← hdr (hd_addr N2 base);
        put_size base b.1 (u32 (b.2 + h_size hn));; put_ptr base b.1 (h_ptr hn)
      else put_ptr base b.1 (hd_addr N2 base)) Q s.
Proof.
  intros Ha [F1 F2 F3 F4 F5] S E Hb He Hk HQ. unfold KERNBASE in Hk. rewrite u32_small by lia.
  assert (b.1 = base ∨ b.1 + 8 ≤ hp_brk s) as Hv by lia. destruct N2 as [|d N2]; cbn in *.
  - rewrite (proj2 (Z.eqb_neq _ _)) by lia. by eapply put_ptr_wp.
  - destruct Ha as (_ & _ & _ & Hd & Hd0 & Hdb & Ha). destruct S as [Ed S].
    pose proof (ends_ge _ _ Ha). unfold fin in *.
    destruct (Z.eqb_spec (b.1 + 8 * b.2) d.1) as [E'|E']; cbn in HQ; [|by eapply put_ptr_wp].
    apply wp_bind. eapply hdr_wp; [done|]. apply put_both_wp; [done|]. cbn. by rewrite u32_small by lia.
Qed.

(** The header of [c] after the second half. *)
Definition linked (c b : block) (N2 : list block) : header :=
  if c.1 + 8 * c.2 =? b.1 then Header (hd_addr (join b N2).2 base) (c.2 + (join b N2).1) else Header b.1 c.2.

Lemma join_bound lo c b N2 top :
  apart lo (c :: N2) → fits c b N2 → b.1 + 8 * b.2 ≤ top → ends lo (c :: N2) ≤ top → b.1 + 8 * (join b N2).1 ≤ top ∧ 0 < (join b N2).1.
Proof.
  intros (_ & _ & _ & Ha) [F1 _ _ _ _] Hb He. unfold join. destruct N2 as [|d N2]; cbn in *; [lia|].
  destruct Ha as (Hd & Hd0 & Hdb & Ha). pose proof (ends_ge _ _ Ha). unfold fin in *.
  destruct (Z.eqb_spec (b.1 + 8 * b.2) d.1); cbn; lia.
Qed.

Lemma link_prev_wp lo c b N2 x Q s :
  apart lo (c :: N2) → fits c b N2 → 0 < c.1 → hp_mem s !! c.1 = Some (Header x c.2) →
  c.1 = base ∨ c.1 + 8 ≤ hp_brk s → b.1 + 8 * (join b N2).1 ≤ KERNBASE → 0 < (join b N2).1 →
  Q tt (set_hdr c.1 (linked c b N2) s) →
  wp (if u32 (c.1 + 8 * c.2) =? b.1 then
        put_size base c.1 (u32 (c.2 + (join b N2).1));; put_ptr base c.1 (hd_addr (join b N2).2 base)
      else put_ptr base c.1 b.1) Q s.
Proof.
  intros (_ & Hc0 & _) [F1 F2 F3 F4 F5] Hp E Hv Hk Hk0 HQ. unfold KERNBASE in Hk. rewrite u32_small by lia. unfold linked in HQ.
  destruct (Z.eqb_spec (c.1 + 8 * c.2) b.1) as [E'|E']; [|by eapply put_ptr_wp].
  apply put_both_wp; [done|]. by rewrite u32_small by lia.
Qed.

(** The two headers written link the new list. *)
Lemma seg_place m lo N1 c b N2 :
  seg m (N1 ++ c :: N2) base → apart lo (N1 ++ c :: N2) → b.1 ∉ (N1 ++ c :: N2).*1 →
  seg (<[c.1 := linked c b N2]> (<[b.1 := Header (hd_addr (join b N2).2 base) (join b N2).1]> m)) (N1 ++ place c b N2) base.
Proof.
  intros [S1 [Ec S2]]%seg_app [Ha1 Ha2]%apart_app Hn. set (m' := <[c.1 := _]> _).
  rewrite fmap_app, fmap_cons in Hn. apply not_elem_of_app in Hn as [Hn1 [Hnc Hn2]%not_elem_of_cons].
  assert (∀ a, a ≠ b.1 → a ≠ c.1 → m' !! a = m !! a) as Hm by (intros a ? ?; unfold m'; by rewrite !lookup_insert_ne).
  assert (hd_addr (place c b N2) base = c.1) as Hpl by (unfold place; by destruct (_ =? _)).
  apply seg_app. rewrite Hpl. split.
  { eapply seg_frame, S1. intros a Hin. apply Hm; [by intros ->|]. apply (apart_addr _ _ _ Ha1) in Hin. destruct Ha2 as (? & _). lia. }
  assert (seg m' (join b N2).2 base) as SR.
  { assert (seg m' N2 base) as S2'.
    { eapply seg_frame, S2. intros a Hin. apply Hm; [by intros ->|]. destruct Ha2 as (_ & _ & _ & Ha2).
      apply (apart_addr _ _ _ Ha2) in Hin. pose proof (fin_ge c). lia. }
    unfold join. destruct N2 as [|d N2]; [done|]. destruct (_ =? _); [apply S2'|done]. }
  assert (m' !! c.1 = Some (linked c b N2)) as Ec' by apply lookup_insert_eq.
  assert (m' !! b.1 = Some (Header (hd_addr (join b N2).2 base) (join b N2).1)) as Eb'
    by (unfold m'; by rewrite lookup_insert_ne, lookup_insert_eq).
  unfold place, linked in *. by destruct (_ =? _).
Qed.

Lemma free_link_wp N1 c b N2 x Q s :
  ring_ok (N1 ++ c :: N2) s → fits c b N2 → b.1 ∉ (N1 ++ c :: N2).*1 → hp_mem s !! b.1 = Some (Header x b.2) →
  b.1 + 8 * b.2 ≤ hp_brk s →
  (∀ s', hp_brk s' = hp_brk s → hp_freep s' = c.1 → seg (hp_mem s') (N1 ++ place c b N2) base →
     (∀ a, a ≠ b.1 → a ≠ c.1 → hp_mem s' !! a = hp_mem s !! a) →
     (∀ y, off_hdr b.1 y → off_hdr c.1 y → hp_data s' !! y = hp_data s !! y) → Q tt s') →
  wp (free_link base b.1 c.1) Q s.
Proof.
  intros [Hh S Ha He Hk Hf] F Hn E Hb HQ. pose proof (seg_place _ _ _ _ _ _ S Ha Hn) as SP.
  pose proof S as [_ [Ec S2]]%seg_app. pose proof Ha as [Ha1 Ha2]%apart_app. rewrite ends_app in He.
  assert (c.1 ≠ b.1) as Hne by (intros Ee; apply Hn; rewrite <- Ee, fmap_app, fmap_cons; set_solver).
  destruct (join_bound _ _ _ _ _ Ha2 F Hb He) as [Hj1 Hj2]. pose proof (ends_ge _ _ Ha1) as Hge.
  unfold free_link. apply wp_bind. eapply hdr_wp; [done|]. apply wp_bind. eapply hdr_wp; [done|]. cbn [h_ptr h_size]. apply wp_bind.
  eapply link_next_wp; [done..|lia|]. apply wp_bind. eapply hdr_wp; [apply lookup_insert_eq|]. apply wp_bind.
  eapply hdr_wp; [by cbn; rewrite lookup_insert_ne by done|]. cbn [h_ptr h_size]. apply wp_bind.
  eapply link_prev_wp; [done|done| |by cbn; rewrite lookup_insert_ne by done| |lia|done|].
  - destruct Ha2 as (? & _). lia.
  - destruct Ha2 as (_ & ? & ? & Ha2'). pose proof (ends_ge _ _ Ha2'). cbn in He |- *. unfold fin in *. lia.
  - apply wp_modify, HQ; [done..| |].
    + intros a ? ?. cbn. by rewrite !lookup_insert_ne.
    + intros y ? ?. cbn. by rewrite !clobber_lookup.
Qed.

Lemma apart_nodup lo (N : list block) : apart lo N → NoDup N.*1.
Proof.
  revert lo. induction N as [|b N IH]; intros lo; cbn; [constructor|]. intros (_ & _ & _ & H). constructor; [|by eapply IH].
  intros Hin. apply (apart_addr _ _ _ H) in Hin. pose proof (fin_ge b). lia.
Qed.

(** A list has no more nodes than there are headers. *)
Lemma seg_size m lo N e : seg m N e → apart lo N → (length N ≤ size m)%nat.
Proof.
  intros S Ha%apart_nodup. rewrite <- size_dom, <- (length_fmap (fst : block → Z) N), <- (size_list_to_set (C := gset Z) (N.*1 : list Z)) by done.
  apply subseteq_size. intros a Hin%elem_of_list_to_set. clear Ha. induction N as [|b N IH]; [by apply elem_of_nil in Hin|].
  destruct S as [E S]. apply elem_of_cons in Hin as [->|Hin]; [by eapply elem_of_dom_2|by apply IH].
Qed.

Lemma dist_le N k t : (t < length N)%nat → (dist N k t ≤ length N)%nat.
Proof. unfold dist. case_decide; lia. Qed.

(** The result of giving back the block [b]: it is free, nothing else
    changes, and only headers of free blocks have been written. *)
Record freed (N : list block) (b : block) (s : heap) (N' : list block) (s' : heap) : Prop := {
  fr_ring : ring_ok N' s';
  fr_cov x : cov N' x ↔ cov N x ∨ covers b x;
  fr_brk : hp_brk s' = hp_brk s;
  fr_len : (length N' ≤ S (length N))%nat;
  fr_frame a : a ≠ b.1 → a ≠ base → ¬ cov N a → hp_mem s' !! a = hp_mem s !! a;
  fr_data y : off_hdr base y → ¬ covers b y → ¬ cov N y → hp_data s' !! y = hp_data s !! y;
}.

Lemma node_addr (N : list block) (b : block) s : ring_ok N s → base + 8 ≤ b.1 → ¬ cov N b.1 → b.1 ∉ N.*1.
Proof.
  intros R Hb Hc (d & Ed & Hd)%list_elem_of_fmap. apply Hc. rewrite Ed. eapply cov_node; [apply R|done|]. lia.
Qed.

Lemma fits_split N1 c N2 (b : block) s :
  ring_ok (N1 ++ c :: N2) s → 0 < b.2 → base + 8 ≤ b.1 → (∀ x, covers b x → ¬ cov (N1 ++ c :: N2) x) →
  c.1 < b.1 → N2 = [] ∨ b.1 < hd_addr N2 0 → fits c b N2.
Proof.
  intros R Hb0 Hb Hc Hlt Hn. pose proof (ro_apart _ _ R) as [_ Ha]%apart_app. destruct Ha as (_ & Hc0 & Hcb & Ha).
  assert (c.1 + 8 * c.2 ≤ b.1) as Hle.
  { destruct (Z.le_gt_cases (c.1 + 8 * c.2) b.1) as [|Hgt]; [done|]. exfalso. apply (Hc b.1); [unfold covers; lia|].
    rewrite cov_app, cov_cons. right. left. unfold covers. lia. }
  split; [done|done| |lia|].
  - unfold fin. lia.
  - destruct N2 as [|d N2]; [by left|right]. destruct Hn as [[=]|Hn]. cbn in Hn |- *. destruct Ha as (Hd & Hd0 & Hdb & _).
    destruct (Z.le_gt_cases (b.1 + 8 * b.2) d.1) as [|Hgt]; [done|]. exfalso. apply (Hc d.1); [unfold covers; lia|].
    rewrite cov_app, !cov_cons. right. right. left. unfold covers. lia.
Qed.

Lemma place_freed N1 c N2 b s s' :
  ring_ok (N1 ++ c :: N2) s → fits c b N2 → b.1 + 8 * b.2 ≤ hp_brk s →
  hp_brk s' = hp_brk s → hp_freep s' = c.1 → seg (hp_mem s') (N1 ++ place c b N2) base →
  (∀ a, a ≠ b.1 → a ≠ c.1 → hp_mem s' !! a = hp_mem s !! a) →
  (∀ y, off_hdr b.1 y → off_hdr c.1 y → hp_data s' !! y = hp_data s !! y) →
  freed (N1 ++ c :: N2) b s (N1 ++ place c b N2) s'.
Proof.
  intros R F Hb Eb Ef Sg Hm Hd. pose proof R as [Hh S Ha He Hk Hf]. pose proof Ha as [Ha1 Ha2]%apart_app. pose proof F as [F1 F2 F3 F4 F5].
  split.
  - split; [|done| | |by rewrite Eb|].
    + destruct N1 as [|a N1]; [|done]. injection Hh as ->. unfold place. cbn in *. by rewrite (proj2 (Z.eqb_neq _ _)) by lia.
    + apply apart_app. split; [done|]. by apply place_apart.
    + rewrite Eb. rewrite ends_app in He |- *. erewrite place_ends by done. destruct N2; [|done]. cbn. unfold fin. lia.
    + rewrite Ef, fmap_app. apply elem_of_app. right. unfold place. destruct (_ =? _); by left.
  - intros x. rewrite !cov_app. erewrite place_cov by done. tauto.
  - done.
  - rewrite !length_app. cbn. enough (length (place c b N2) ≤ 2 + length N2)%nat by lia. unfold place, join.
    destruct N2 as [|d N2]; [|destruct (_ =? d.1)]; destruct (_ =? b.1); cbn; lia.
  - intros a Hab Hnb Hcov. apply Hm; [done|]. intros ->. apply Hcov. eapply cov_node; [done| |done]. apply elem_of_app. right. by left.
  - intros y Hy Hcb Hcov. apply Hd; [unfold covers, off_hdr in *; lia|]. eapply off_node; [exact Ha| |exact Hy|exact Hcov]. apply elem_of_app. right. by left.
Qed.

Lemma free_wp N (b : block) x s Q :
  ring_ok N s → hp_mem s !! b.1 = Some (Header x b.2) → 0 < b.2 → base + 8 ≤ b.1 → b.1 + 8 * b.2 ≤ hp_brk s →
  (∀ y, covers b y → ¬ cov N y) →
  (∀ N' s', freed N b s N' s' → (∃ d, d ∈ N' ∧ b.2 ≤ d.2) → Q tt s') → wp (free base (b.1 + 8)) Q s.
Proof.
  intros R E Hb0 Hb Hbrk Hc HQ. pose proof R as [Hh S Ha He Hk Hf]. unfold KERNBASE in Hk.
  unfold free. replace (b.1 + 8 - 8) with b.1 by lia. rewrite u32_small by lia. apply wp_bind, wp_get, wp_bind.
  assert (b.1 ∉ N.*1) as Hn by (eapply node_addr; [done|done|]; apply Hc; unfold covers; lia).
  destruct (free_place N _ b.1 Hh Ha ltac:(lia) Hn) as (t & bt & Ht & Hst).
  pose proof Hf as (f & Ef & [k Hk']%list_elem_of_lookup)%list_elem_of_fmap. rewrite Ef.
  eapply (free_loop_wp _ N _ s k f t bt); [done..| |].
  { etrans; [apply dist_le; by eapply lookup_lt_Some|]. by eapply seg_size. }
  intros i c Hi Hst'. destruct (free_here_split N _ b.1 i c Hh Ha ltac:(lia) Hi Hst') as (N1 & N2 & -> & Hlt & Hn2).
  pose proof (fits_split _ _ _ _ _ R Hb0 Hb Hc Hlt Hn2) as F.
  eapply free_link_wp; [done..|]. intros s' Eb Ef' Sg Hm Hdt. apply (HQ (N1 ++ place c b N2)).
  - by eapply place_freed.
  - destruct (join_apart _ c b N2 (proj2 (proj1 (apart_app _ _ _) Ha)) F) as [_ Hj].
    pose proof (ro_apart _ _ R) as [_ (_ & Hc0 & _)]%apart_app. unfold place. destruct (_ =? _).
    + exists (c.1, c.2 + (join b N2).1). split; [apply elem_of_app; right; by left|cbn; lia].
    + exists (b.1, (join b N2).1). split; [apply elem_of_app; right; right; by left|done].
Qed.

(** ** Taking a block *)

(** The block [(q, n)] has been taken out of the free blocks. *)
Record taken (N : list block) (n : Z) (s : heap) (q : Z) (N' : list block) (s' : heap) : Prop := {
  tk_ring : ring_ok N' s';
  tk_was x : covers (q, n) x → cov N x;
  tk_cov x : cov N' x ↔ cov N x ∧ ¬ covers (q, n) x;
  tk_brk : hp_brk s' = hp_brk s;
  tk_hdr : ∃ x, hp_mem s' !! q = Some (Header x n);
  tk_frame a : a ≠ base → ¬ cov N a → hp_mem s' !! a = hp_mem s !! a;
  tk_data y : off_hdr base y → ¬ cov N y → hp_data s' !! y = hp_data s !! y;
}.

Lemma apart_disjoint lo N1 d N2 x : apart lo (N1 ++ d :: N2) → covers d x → ¬ cov N1 x ∧ ¬ cov N2 x.
Proof.
  intros [H1 (Hlo & _ & _ & H2)]%apart_app Hd. unfold covers in Hd. pose proof (fin_ge d). split; intros Hc.
  - apply (cov_range _ _ _ H1) in Hc. lia.
  - apply (cov_range _ _ _ H2) in Hc. lia.
Qed.

(** The whole block. *)
Lemma take_whole N1 c d N2 s :
  ring_ok (N1 ++ c :: d :: N2) s → d.1 ≠ base →
  taken (N1 ++ c :: d :: N2) d.2 s d.1 (N1 ++ c :: N2) (set_freep c.1 (set_hdr c.1 (Header (hd_addr N2 base) c.2) s)).
Proof.
  intros R Hd. pose proof R as [Hh S Ha He Hk Hf]. pose proof S as [S1 [Ec [Ed S2]]]%seg_app. pose proof Ha as [Ha1 Ha2]%apart_app.
  cbn in Ha2. destruct Ha2 as (Hc & Hc0 & Hcb & Hdl & Hd0 & Hdb & Ha2). pose proof (fin_ge c). pose proof (fin_ge d).
  assert (∀ x, covers d x → ¬ cov (N1 ++ c :: N2) x) as Hdis.
  { intros x Hx. change (N1 ++ c :: d :: N2) with (N1 ++ [c] ++ d :: N2) in Ha. rewrite app_assoc in Ha.
    destruct (apart_disjoint _ _ _ _ _ Ha Hx) as [H1 H2]. rewrite cov_app, cov_cons, cov_nil in H1. rewrite cov_app, cov_cons. tauto. }
  split.
  - split; cbn; [by destruct N1| | | |done|rewrite fmap_app; set_solver].
    + apply seg_app. split; [|split; [by rewrite lookup_insert_eq|]].
      * eapply seg_frame, S1. intros a Hin. apply (apart_addr _ _ _ Ha1) in Hin. by rewrite lookup_insert_ne by lia.
      * eapply seg_frame, S2. intros a Hin. apply (apart_addr _ _ _ Ha2) in Hin. by rewrite lookup_insert_ne by lia.
    + apply apart_app. split; [done|]. split; [done|]. split; [done|]. split; [done|]. eapply apart_weaken, Ha2. lia.
    + rewrite ends_app in He |- *. cbn in He |- *. destruct N2; [cbn in *; lia|done].
  - intros x Hx. rewrite cov_app, !cov_cons. right. right. left. by destruct d.
  - intros x. specialize (Hdis x). rewrite <- (surjective_pairing d). rewrite cov_app, cov_cons in Hdis. rewrite !cov_app, !cov_cons. tauto.
  - done.
  - exists (hd_addr N2 base). cbn. by rewrite lookup_insert_ne by lia.
  - intros a Hab Hcov. cbn. rewrite lookup_insert_ne; [done|]. intros <-. apply Hcov. eapply cov_node; [done| |done]. set_solver.
  - intros y Hy Hcov. cbn. apply clobber_lookup. eapply off_node; [exact Ha| |exact Hy|exact Hcov]. set_solver.
Qed.

(** The end of a larger block. *)
Lemma take_end N1 d N2 n s m' f dt :
  ring_ok (N1 ++ d :: N2) s → 0 < n < d.2 → f ∈ (N1 ++ d :: N2).*1 → let q := d.1 + 8 * (d.2 - n) in
  (∀ a, a ≠ d.1 → a ≠ q → m' !! a = hp_mem s !! a) → m' !! d.1 = Some (Header (hd_addr N2 base) (d.2 - n)) →
  (∃ x, m' !! q = Some (Header x n)) →
  (∀ y, off_hdr d.1 y → off_hdr q y → dt !! y = hp_data s !! y) →
  taken (N1 ++ d :: N2) n s q (N1 ++ (d.1, d.2 - n) :: N2) (Heap m' f (hp_brk s) dt).
Proof.
  intros R Hn Hf' q Hm Ed' Eq Hdt. pose proof R as [Hh S Ha He Hk Hf]. pose proof S as [S1 [Ed S2]]%seg_app. pose proof Ha as [Ha1 Ha2]%apart_app.
  cbn in Ha2. destruct Ha2 as (Hdl & Hd0 & Hdb & Ha2). pose proof (fin_ge d).
  assert (fin (d.1, d.2 - n) ≤ fin d) as Hfin by (unfold fin; cbn; lia).
  assert (∀ x, covers d x ↔ covers (d.1, d.2 - n) x ∨ covers (q, n) x) as Hsp by (intros x; unfold covers, q; cbn; lia).
  split.
  - split; cbn; [| | | |done|by rewrite fmap_app in *].
    + destruct N1; [|done]. injection Hh as Hh. rewrite Hh in *. cbn in *. lia.
    + apply seg_app. split; [|split; [done|]].
      * eapply seg_frame, S1. intros a Hin. apply (apart_addr _ _ _ Ha1) in Hin. apply Hm; unfold q; lia.
      * eapply seg_frame, S2. intros a Hin. apply (apart_addr _ _ _ Ha2) in Hin. apply Hm; unfold q; lia.
    + apply apart_app. split; [done|]. cbn. split; [done|]. split; [lia|]. split; [lia|]. by eapply apart_weaken.
    + rewrite ends_app in He |- *. cbn in He |- *. destruct N2; [cbn in *; lia|done].
  - intros x Hx. rewrite cov_app, cov_cons, Hsp. tauto.
  - intros x. pose proof (apart_disjoint _ _ _ _ x Ha) as Hdis. rewrite Hsp in Hdis. rewrite !cov_app, !cov_cons, Hsp.
    assert (covers (q, n) x → ¬ covers (d.1, d.2 - n) x) by (unfold covers, q; cbn; lia). tauto.
  - done.
  - done.
  - intros a Hab Hcov. apply Hm; intros ->; apply Hcov; rewrite cov_app, cov_cons; right; left; unfold covers, q; lia.
  - intros y Hy Hcov. rewrite cov_app, cov_cons in Hcov. assert (¬ covers d y) as Hnc by tauto. unfold covers in Hnc.
    cbn. apply Hdt; unfold off_hdr, q; lia.
Qed.

(** The address of a node is in the memory of the program. *)
Lemma node_range N s b : ring_ok N s → b ∈ N → base ≤ b.1 ∧ b.1 + 8 * b.2 ≤ hp_brk s ∧ 0 ≤ b.2 ∧ (b.1 = base ∨ 0 < b.2) ∧ (b.1 = base → b.2 = 0).
Proof.
  intros [Hh S Ha He Hk Hf] Hb. destruct (apart_mem _ _ _ Ha Hb) as (H1 & H2 & H3 & H4). pose proof (fin_ge b).
  split_and!; lia.
Qed.

Lemma malloc_take_wp N1 c d N2 n Q s :
  ring_ok (N1 ++ c :: d :: N2) s → 0 < n ≤ d.2 →
  (∀ q N' s', taken (N1 ++ c :: d :: N2) n s q N' s' → base + 8 ≤ q → Q (q + 8) s') →
  wp (malloc_take base n c.1 d.1 (Header (hd_addr N2 base) d.2)) Q s.
Proof.
  intros R Hn HQ. pose proof R as [Hh S Ha He Hk Hf]. unfold KERNBASE in Hk.
  destruct (node_range _ _ c R ltac:(set_solver)) as (Hc1 & Hc2 & Hc3 & Hc4 & _).
  destruct (node_range _ _ d R ltac:(set_solver)) as (Hd1 & Hd2 & Hd3 & Hd4 & Hd5).
  assert (base + 8 ≤ d.1) as Hdb.
  { pose proof Ha as [_ (_ & _ & _ & Hlt & _)]%apart_app. unfold fin in Hlt. lia. }
  pose proof S as [S1 [Ec [Ed S2]]]%seg_app. unfold malloc_take. cbn [h_size h_ptr]. destruct (Z.eqb_spec d.2 n) as [E|E].
  - apply wp_bind. eapply put_ptr_wp; [lia|done|]. apply wp_bind, wp_modify, wp_ret. rewrite u32_small by lia.
    eapply HQ; [|done]. rewrite <- E. eapply take_whole; [done|lia].
  - apply wp_bind. apply upd_hdr_wp; [lia|]. rewrite Ed. cbn [default h_ptr h_size]. rewrite (u32_small (d.1 + _)) by lia.
    apply wp_bind. apply upd_hdr_wp; [cbn; lia|]. apply wp_bind, wp_modify, wp_ret. rewrite u32_small by lia.
    unfold set_freep, set_hdr. cbn. eapply HQ; [|lia]. change (N1 ++ c :: d :: N2) with (N1 ++ [c] ++ d :: N2) in *. rewrite app_assoc in *. eapply take_end; [done|lia| | | | |].
    + rewrite !fmap_app. set_solver.
    + intros a H1 H2. cbn. by rewrite !lookup_insert_ne by done.
    + cbn. rewrite lookup_insert_ne by lia. by rewrite lookup_insert_eq.
    + cbn. eexists. by rewrite lookup_insert_eq.
    + intros y H1 H2. by rewrite !clobber_lookup.
Qed.

(** A node that is large enough is not [base], so it has a node before it. *)
Lemma succ_split N s i c d n :
  ring_ok N s → N !! i = Some c → N !! succ_ix N i = Some d → 0 < n ≤ d.2 → ∃ N1 N2, N = N1 ++ c :: d :: N2.
Proof.
  intros R Hi Hd Hn. unfold succ_ix in Hd. case_decide as Hlt.
  - apply list_elem_of_split_length in Hi as (N1 & N2 & -> & ->). rewrite lookup_app_r in Hd by lia.
    replace (S (length N1) - length N1)%nat with 1%nat in Hd by lia. destruct N2 as [|d' N2]; [done|]. injection Hd as ->. by exists N1, N2.
  - destruct N as [|b N]; [done|]. pose proof (ro_head _ _ R) as [= ->]. injection Hd as <-. cbn in Hn. lia.
Qed.

Lemma take_here_wp N s i c d n Q :
  ring_ok N s → N !! i = Some c → N !! succ_ix N i = Some d → 0 < n ≤ d.2 →
  (∀ q N' s', taken N n s q N' s' → base + 8 ≤ q → Q (q + 8) s') →
  wp (malloc_take base n c.1 d.1 (Header (next_addr N (succ_ix N i)) d.2)) Q s.
Proof.
  intros R Hi Hd Hn HQ. pose proof (seg_lookup _ _ _ _ (ro_seg _ _ R) Hd) as E.
  destruct (succ_split _ _ _ _ _ n R Hi Hd Hn) as (N1 & N2 & ->). pose proof (ro_seg _ _ R) as [_ [_ [E' _]]]%seg_app.
  rewrite E in E'. injection E' as ->. by apply malloc_take_wp with (N1 := N1).
Qed.

Lemma node_inj N s k f (d bf : block) : ring_ok N s → N !! k = Some d → N !! f = Some bf → d.1 = bf.1 → k = f.
Proof.
  intros R Hk Hf E. eapply (NoDup_lookup N.*1); [eapply apart_nodup, R| |]; rewrite list_lookup_fmap; [by rewrite Hk|rewrite Hf; cbn; by rewrite E].
Qed.

Context (grow : Z → Z → bool).

(** A block that is large enough is found before the search is back at
    [freep]. *)
Lemma malloc_find_wp fuel N n i c t bt f bf Q s :
  ring_ok N s → 0 < n → N !! i = Some c → N !! t = Some bt → n ≤ bt.2 → N !! f = Some bf → hp_freep s = bf.1 →
  (dist N (succ_ix N i) t ≤ dist N (succ_ix N i) f)%nat → (dist N (succ_ix N i) t ≤ fuel)%nat →
  (∀ q N' s', taken N n s q N' s' → base + 8 ≤ q → Q (q + 8) s') →
  wp (malloc_loop base grow fuel n c.1 (next_addr N i)) Q s.
Proof.
  intros R Hn Hi Ht Hbt Hf Ef Hd Hfu HQ. revert i c Hi Hd Hfu. induction fuel as [|fuel IH]; intros i c Hi Hd Hfu; cbn [malloc_loop];
    destruct (succ_ix_lookup N i (base, 0) (ro_head _ _ R) eq_refl) as (d & Hk & Ed); rewrite <- Ed;
    apply wp_bind; (eapply hdr_wp; [eapply seg_lookup; [apply R|done]|]); cbn [h_size h_ptr];
    pose proof (lookup_lt_Some _ _ _ Hk); pose proof (lookup_lt_Some _ _ _ Ht); pose proof (lookup_lt_Some _ _ _ Hf);
    (destruct (Z.leb_spec n d.2) as [Hle|Hgt]; [by apply (take_here_wp N)|]);
    (assert (succ_ix N i ≠ t) as Hnt by (intros Heq; rewrite Heq in Hk; rewrite Hk in Ht; injection Ht as ->; lia));
    rewrite dist_succ in Hfu, Hd by done; [lia|].
  apply wp_bind, wp_gets. rewrite Ef. destruct (Z.eqb_spec d.1 bf.1) as [E|E].
  - rewrite (node_inj _ _ _ _ _ _ R Hk Hf E) in Hd at 2. unfold dist at 2 in Hd. rewrite decide_True in Hd by lia. lia.
  - apply (IH (succ_ix N i)); [done| |lia]. rewrite (dist_succ N (succ_ix N i) f) in Hd; [lia|done|done|].
    intros Heq. rewrite Heq in Hk. rewrite Hk in Hf. injection Hf as ->. done.
Qed.

(** ** More memory *)

(** The heap has grown to a new break, and the new memory is free. *)
Record grown (N : list block) (s : heap) (N' : list block) (s' : heap) : Prop := {
  gr_ring : ring_ok N' s';
  gr_cov x : cov N' x ↔ cov N x ∨ hp_brk s ≤ x < hp_brk s';
  gr_brk : hp_brk s ≤ hp_brk s';
  gr_len : (length N' ≤ S (length N))%nat;
  gr_frame a : a ≠ base → a < hp_brk s → ¬ cov N a → hp_mem s' !! a = hp_mem s !! a;
  gr_data y : off_hdr base y → y < hp_brk s → ¬ cov N y → hp_data s' !! y = hp_data s !! y;
}.

Lemma sbrk_wp n s Q :
  0 < n < 2 ^ 31 → 0 ≤ hp_brk s ≤ KERNBASE →
  (KERNBASE ≤ hp_brk s + n ∨ grow (hp_brk s) n = false → Q (2 ^ 32 - 1) s) →
  (hp_brk s + n < KERNBASE → Q (hp_brk s) (set_brk (hp_brk s + n) s)) → wp (sbrk grow n) Q s.
Proof.
  intros Hn Hb HF HQ. unfold sbrk, KERNBASE in *. apply wp_bind, wp_gets. rewrite i32_small, (proj2 (Z.ltb_lt _ _)) by lia.
  rewrite u32_small by lia. destruct (Z.leb_spec 0x80000000 (hp_brk s + n)); [by apply wp_ret, HF; left|].
  rewrite (proj2 (Z.ltb_ge _ _)) by lia. destruct (grow (hp_brk s) n); [|by apply wp_ret, HF; right].
  apply wp_bind, wp_modify, wp_ret, HQ. lia.
Qed.

(** The kernel does not give the memory [morecore] asks for. *)
Definition refused (s : heap) (n : Z) : Prop :=
  KERNBASE ≤ hp_brk s + 8 * Z.max n 4096 ∨ grow (hp_brk s) (8 * Z.max n 4096) = false.

(** The new block before it is freed. *)
Lemma ring_fresh N s m' b dt :
  ring_ok N s → hp_brk s ≤ b ≤ KERNBASE → (∀ a, a ≠ hp_brk s → m' !! a = hp_mem s !! a) →
  ring_ok N (Heap m' (hp_freep s) b dt).
Proof.
  intros [Hh S Ha He Hk Hf] Hb Hm. split; cbn; try done; [|lia|lia].
  eapply seg_frame, S. intros a Hin. apply Hm. apply (apart_addr _ _ _ Ha) in Hin. lia.
Qed.

Lemma morecore_wp N n s Q :
  ring_ok N s → 0 < n ≤ 2 ^ 27 → (refused s n → Q 0 s) →
  (∀ N' s' f bf t bt, grown N s N' s' → N' !! f = Some bf → hp_freep s' = bf.1 → N' !! t = Some bt → n ≤ bt.2 → Q bf.1 s') →
  wp (morecore base grow n) Q s.
Proof.
  intros R Hn HF HQ. pose proof R as [Hh S Ha He Hk Hf]. unfold morecore. set (nu := if n <? 4096 then 4096 else n).
  assert (n ≤ nu ≤ 2 ^ 27 ∧ 0 < nu) as [Hnu Hnu0] by (subst nu; destruct (Z.ltb_spec n 4096); lia).
  assert (nu * 8 = 8 * Z.max n 4096) as En by (subst nu; destruct (Z.ltb_spec n 4096); lia).
  apply wp_bind, sbrk_wp; [rewrite u32_small by lia; lia|lia| |]; rewrite u32_small by lia.
  { intros Hr. apply wp_ret, HF. unfold refused. by rewrite <- En. }
  intros Hb. unfold KERNBASE in *. rewrite (proj2 (Z.eqb_neq _ _)) by lia. apply wp_bind, upd_hdr_wp; [cbn; lia|]. apply wp_bind.
  set (s1 := set_hdr _ _ _). rewrite u32_small by lia.
  assert (ring_ok N s1) as R1.
  { apply (ring_fresh N s (hp_mem s1) (hp_brk s + nu * 8) (hp_data s1)); [done|unfold KERNBASE; lia|].
    intros a Hab. cbn. by rewrite lookup_insert_ne. }
  eapply (free_wp N (hp_brk s, nu) _ s1); [done|by cbn; rewrite lookup_insert_eq|done|cbn; lia|cbn; lia| |].
  - intros y Hy Hc. apply (cov_range _ _ _ Ha) in Hc. unfold covers in Hy. cbn in Hy. lia.
  - intros N' s' [G1 G2 G3 G4 G5 G6] (d & [t Ht]%list_elem_of_lookup & Hd). cbn in G3. apply wp_gets.
    pose proof (ro_freep _ _ G1) as (bf & Ef & [f Hbf]%list_elem_of_lookup)%list_elem_of_fmap. rewrite Ef.
    eapply (HQ N' s' f bf t d); [|done|done|done|cbn in Hd; lia]. split; [done| |lia|done| |].
    + intros x. rewrite G2, G3. unfold covers. cbn. by replace (hp_brk s + 8 * nu) with (hp_brk s + nu * 8) by lia.
    + intros a Hab Hlt Hc. rewrite G5 by (cbn; (done || lia)). cbn. by rewrite lookup_insert_ne by lia.
    + intros y Hy Hlt Hc. rewrite G6; [|done|unfold covers; cbn; lia|done]. cbn. rewrite clobber_lookup by lia. done.
Qed.

(** ** malloc *)

(** The block [(q, n)] has been taken from the free memory, after the heap
    may have grown. *)
Record allocated (N : list block) (n : Z) (s : heap) (q : Z) (N' : list block) (s' : heap) : Prop := {
  al_ring : ring_ok N' s';
  al_brk : hp_brk s ≤ hp_brk s';
  al_low : base + 8 ≤ q;
  al_was x : covers (q, n) x → cov N x ∨ hp_brk s ≤ x < hp_brk s';
  al_cov x : cov N' x ↔ (cov N x ∨ hp_brk s ≤ x < hp_brk s') ∧ ¬ covers (q, n) x;
  al_hdr : ∃ x, hp_mem s' !! q = Some (Header x n);
  al_frame a : a ≠ base → a < hp_brk s → ¬ cov N a → hp_mem s' !! a = hp_mem s !! a;
  al_data y : off_hdr base y → y < hp_brk s → ¬ cov N y → hp_data s' !! y = hp_data s !! y;
}.

Lemma taken_allocated N n s q N' s' : taken N n s q N' s' → base + 8 ≤ q → allocated N n s q N' s'.
Proof.
  intros [T1 T2 T3 T4 T5 T6 T7] Hq. assert (∀ x, (cov N x ∨ hp_brk s ≤ x < hp_brk s') ↔ cov N x) as Hx.
  { intros x. rewrite T4. split; [intros [?|?]; [done|lia]|by left]. }
  split; [done|lia|done|intros x; rewrite Hx; apply T2|intros x; rewrite Hx; apply T3|done|auto|auto].
Qed.

Lemma grown_taken N n s N1 s1 q N' s' : grown N s N1 s1 → taken N1 n s1 q N' s' → base + 8 ≤ q → allocated N n s q N' s'.
Proof.
  intros [G1 G2 G3 G4 G5 G6] [T1 T2 T3 T4 T5 T6 T7] Hq. split; [done|lia|done| | |done| |].
  - intros x Hx%T2. rewrite G2 in Hx. by rewrite T4.
  - intros x. rewrite T3, G2, T4. done.
  - intros a Hab Hlt Hc. rewrite T6, G5; [done..|]. rewrite G2. intros [?|?]; [done|lia].
  - intros y Hy Hlt Hc. rewrite T7, G6; [done..|]. rewrite G2. intros [?|?]; [done|lia].
Qed.

(** The nodes on the way around the list to node [f]. *)
Lemma dist_lt N k f : (k < length N)%nat → (f < length N)%nat → (dist N k f < length N)%nat.
Proof. unfold dist. case_decide; lia. Qed.

Lemma dist_from N f : (f < length N)%nat → dist N (succ_ix N f) f = pred (length N).
Proof. intros Hf. unfold dist, succ_ix. repeat case_decide; lia. Qed.

Lemma dist_inj N k k' f : (k < length N)%nat → (k' < length N)%nat → (f < length N)%nat → dist N k f = dist N k' f → k = k'.
Proof. unfold dist. repeat case_decide; lia. Qed.

(** Every node that is farther from [f] than node [k] is too small. *)
Definition seen (N : list block) (n : Z) (f k : nat) : Prop :=
  ∀ j b, N !! j = Some b → (dist N k f < dist N j f)%nat → b.2 < n.
Definition small (N : list block) (n : Z) : Prop := ∀ b, b ∈ N → b.2 < n.

Lemma seen_start N n f : (f < length N)%nat → seen N n f (succ_ix N f).
Proof.
  intros Hf j b Hj Hd. apply lookup_lt_Some in Hj. rewrite dist_from in Hd by done. pose proof (dist_lt N j f Hj Hf). lia.
Qed.

Lemma seen_next N n f k d :
  (f < length N)%nat → N !! k = Some d → d.2 < n → k ≠ f → seen N n f k → seen N n f (succ_ix N k).
Proof.
  intros Hf Hk Hd Hne Hs j b Hj Hlt. pose proof (lookup_lt_Some _ _ _ Hk). pose proof (lookup_lt_Some _ _ _ Hj).
  destruct (decide (j = k)) as [->|Hjk]; [congruence|]. apply (Hs j b Hj).
  pose proof (dist_succ N k f) as E. assert (dist N k f ≠ dist N j f) by (intros ?%dist_inj; done || congruence). lia.
Qed.

Lemma seen_all N n f d : N !! f = Some d → d.2 < n → seen N n f f → small N n.
Proof.
  intros Hf Hd Hs b [j Hj]%list_elem_of_lookup. destruct (decide (j = f)) as [->|Hne]; [congruence|]. apply (Hs j b Hj).
  pose proof (lookup_lt_Some _ _ _ Hf). pose proof (lookup_lt_Some _ _ _ Hj). unfold dist. repeat case_decide; lia.
Qed.

Lemma malloc_loop_wp fuel N n i c f bf Q s :
  ring_ok N s → 0 < n ≤ 2 ^ 27 → N !! i = Some c → N !! f = Some bf → hp_freep s = bf.1 → seen N n f (succ_ix N i) →
  (dist N (succ_ix N i) f + length N + 2 ≤ fuel)%nat → (refused s n → small N n → Q 0 s) →
  (∀ q N' s', allocated N n s q N' s' → hp_brk s' = hp_brk s ∨ small N n → Q (q + 8) s') →
  wp (malloc_loop base grow fuel n c.1 (next_addr N i)) Q s.
Proof.
  intros R Hn Hi Hf Ef Hse Hfu HF HQ. revert i c Hi Hse Hfu. induction fuel as [|fuel IH]; intros i c Hi Hse Hfu; [lia|]. cbn [malloc_loop].
  destruct (succ_ix_lookup N i (base, 0) (ro_head _ _ R) eq_refl) as (d & Hk & Ed). rewrite <- Ed.
  apply wp_bind. eapply hdr_wp; [eapply seg_lookup; [apply R|done]|]. cbn [h_size h_ptr].
  destruct (Z.leb_spec n d.2) as [Hle|Hgt].
  { apply (take_here_wp N); [done|done|done|lia|]. intros q N' s' T Hq. eapply HQ; [by eapply taken_allocated|]. left. apply T. }
  apply wp_bind, wp_gets. rewrite Ef. pose proof (lookup_lt_Some _ _ _ Hk). pose proof (lookup_lt_Some _ _ _ Hf).
  destruct (Z.eqb_spec d.1 bf.1) as [E|E].
  - assert (small N n) as Hsm.
    { pose proof (node_inj _ _ _ _ _ _ R Hk Hf E) as Eq. rewrite Eq in Hse, Hk. by apply (seen_all N n f d). }
    apply wp_bind. eapply morecore_wp; [done|done|intros; by apply wp_ret, HF|]. intros N1 s1 f1 bf1 t bt G Hf1 Ef1 Ht Hbt.
    pose proof (list_elem_of_lookup_2 _ _ _ Hf1) as Hin.
    destruct (node_range _ _ _ (gr_ring _ _ _ _ G) Hin) as (Hb1 & _). rewrite (proj2 (Z.eqb_neq _ _)) by lia.
    apply wp_bind. eapply hdr_wp; [eapply seg_lookup; [apply G|done]|]. cbn [h_ptr].
    pose proof (lookup_lt_Some _ _ _ Ht) as Hlt. pose proof (lookup_lt_Some _ _ _ Hf1). pose proof (gr_len _ _ _ _ G).
    eapply (malloc_find_wp fuel N1 n f1 bf1 t bt f1 bf1); [apply G|lia|done..| | |].
    + pose proof (dist_from N1 f1). pose proof (dist_lt N1 (succ_ix N1 f1) t).
      destruct (succ_ix_lookup N1 f1 (base, 0) (ro_head _ _ (gr_ring _ _ _ _ G)) eq_refl) as (? & ?%lookup_lt_Some & _). lia.
    + pose proof (dist_le N1 (succ_ix N1 f1) t Hlt). lia.
    + intros q N' s' T Hq. eapply HQ; [by eapply grown_taken|]. by right.
  - assert (succ_ix N i ≠ f) as Hne by (intros Heq; rewrite Heq in Hk; congruence).
    apply (IH (succ_ix N i)); [done|by apply (seen_next N n f _ d)|]. rewrite dist_succ in Hfu by done. lia.
Qed.

Lemma malloc_list_wp N n Q s :
  ring_ok N s → 0 < n ≤ 2 ^ 27 → (refused s n → small N n → Q 0 s) →
  (∀ q N' s', allocated N n s q N' s' → hp_brk s' = hp_brk s ∨ small N n → Q (q + 8) s') →
  wp (h ← hdr (hp_freep s); malloc_loop base grow (2 * size (hp_mem s) + 2) n (hp_freep s) (h_ptr h)) Q s.
Proof.
  intros R Hn HF HQ. pose proof (ro_freep _ _ R) as (bf & Ef & [f Hf]%list_elem_of_lookup)%list_elem_of_fmap.
  apply wp_bind. rewrite Ef. eapply hdr_wp; [eapply seg_lookup; [apply R|done]|]. cbn [h_ptr].
  pose proof (seg_size _ _ _ _ (ro_seg _ _ R) (ro_apart _ _ R)).
  eapply (malloc_loop_wp _ N n f bf f bf); [done..| | |done|done].
  - eapply seen_start, lookup_lt_Some, Hf.
  - pose proof (dist_le N (succ_ix N f) f (lookup_lt_Some _ _ _ Hf)). lia.
Qed.

(** ** The heap *)

(** The blocks [A] in use (the size of each by its address) and the free
    blocks share out the memory from [start] to the break: every block in use
    has its header, no two blocks overlap, and no byte is lost. *)
Record shared (start : Z) (A : gmap Z Z) (N : list block) (s : heap) : Prop := {
  sh_ring : ring_ok N s;
  sh_start : base + 8 ≤ start ≤ hp_brk s;
  sh_used a n : A !! a = Some n →
    0 < n ∧ base + 8 ≤ a ∧ a + 8 * n ≤ hp_brk s ∧ (∃ x, hp_mem s !! a = Some (Header x n)) ∧ ∀ y, covers (a, n) y → ¬ cov N y;
  sh_apart a n a' n' y : A !! a = Some n → A !! a' = Some n' → a ≠ a' → covers (a, n) y → ¬ covers (a', n') y;
  sh_all x : start ≤ x < hp_brk s → cov N x ∨ ∃ a n, A !! a = Some n ∧ covers (a, n) x;
}.

(** Before the first call of [malloc] there is no list yet. *)
Definition heap_ok (start : Z) (A : gmap Z Z) (s : heap) : Prop :=
  (∃ N, shared start A N s) ∨ hp_freep s = 0 ∧ A = ∅ ∧ hp_brk s = start ∧ base + 8 ≤ start ≤ KERNBASE.

Lemma shared_add start A N s n q N' s' :
  shared start A N s → 0 < n → allocated N n s q N' s' → A !! q = None ∧ shared start (<[q := n]> A) N' s'.
Proof.
  intros [R St U D Al] Hn [R' Br Lo W C H F _]. assert (covers (q, n) q) as Hq by (unfold covers; cbn; lia).
  assert (∀ a m, A !! a = Some m → ∀ y, covers (a, m) y → ¬ covers (q, n) y) as Hdis.
  { intros a m Ha y Hy Hy'. destruct (U a m Ha) as (_ & _ & ? & _ & Hc). apply W in Hy' as [?|?]; [by eapply Hc|].
    unfold covers in Hy. cbn in Hy. lia. }
  assert (A !! q = None) as Hnone.
  { destruct (A !! q) as [m|] eqn:E; [|done]. exfalso. eapply (Hdis q m E q); [|done]. destruct (U q m E) as (? & _). unfold covers. cbn. lia. }
  split; [done|]. split; [done|lia| | |].
  - intros a m [[<- <-]|[Hne Ha]]%lookup_insert_Some.
    + split; [done|]. split; [done|]. split; [|split; [done|]].
      * destruct (W (q + 8 * n - 1)) as [Hc|?]; [unfold covers; cbn; lia| |lia]. apply (cov_range _ _ _ (ro_apart _ _ R)) in Hc.
        pose proof (ro_ends _ _ R). lia.
      * intros y Hy [_ Hc]%C. done.
    + destruct (U a m Ha) as (Hm & Hlo & Hhi & [x Hx] & Hc). split_and!; [done|done|lia| |].
      * exists x. rewrite F; [done|lia|lia|]. apply Hc. unfold covers. cbn. lia.
      * intros y Hy [[?|?] _]%C; [by eapply Hc|]. unfold covers in Hy. cbn in Hy. lia.
  - intros a m a' m' y [[<- <-]|[Hne Ha]]%lookup_insert_Some [[<- <-]|[Hne' Ha']]%lookup_insert_Some Hd Hy Hy'; [done|by eapply Hdis|by eapply Hdis|by eapply (D a m a' m')].
  - intros x Hx. destruct (decide (covers (q, n) x)) as [Hc|Hc]; [right; exists q, n; by rewrite lookup_insert_eq|].
    assert (cov N x ∨ hp_brk s ≤ x < hp_brk s' ∨ ∃ a m, A !! a = Some m ∧ covers (a, m) x) as [H1|[H1|(a & m & Ha & H1)]].
    { destruct (Z.lt_ge_cases x (hp_brk s)); [destruct (Al x); auto; lia|auto with lia]. }
    + left. apply C. auto.
    + left. apply C. auto.
    + right. exists a, m. split; [|done]. rewrite lookup_insert_ne; [done|]. intros <-. by rewrite Hnone in Ha.
Qed.

Lemma shared_del start A N s n q N' s' :
  shared start A N s → A !! q = Some n → freed N (q, n) s N' s' → shared start (delete q A) N' s'.
Proof using Hbase.
  intros [R St U D Al] Hq [R' C Br Le F _]. split; [done|lia| | |].
  - intros a m [Hne Ha]%lookup_delete_Some. destruct (U a m Ha) as (Hm & Hlo & Hhi & [x Hx] & Hc). split_and!; [done|done|lia| |].
    + exists x. rewrite F; [done|done|lia|]. apply Hc. unfold covers. cbn. lia.
    + intros y Hy [?|?]%C; [by eapply Hc|]. by eapply (D a m q n).
  - intros a m a' m' y [_ Ha]%lookup_delete_Some [_ Ha']%lookup_delete_Some. by apply D.
  - intros x Hx. rewrite C. destruct (Al x) as [?|(a & m & Ha & Hc)]; [lia|by left; left|].
    destruct (decide (a = q)) as [->|Hne]; [left; right; congruence|]. right. exists a, m. by rewrite lookup_delete_ne.
Qed.

(** Every run of [n] units of the memory the program got touches a block
    in use. *)
Definition tight (start : Z) (A : gmap Z Z) (n : Z) (s : heap) : Prop :=
  ∀ a, start ≤ a → a + 8 * n ≤ hp_brk s → ∃ y b m, a ≤ y < a + 8 * n ∧ A !! b = Some m ∧ covers (b, m) y.

(** Free blocks are not adjacent. *)
Lemma cov_end lo N b : apart lo N → b ∈ N → 0 < b.2 → ¬ cov N (b.1 + 8 * b.2).
Proof.
  intros Ha Hb Hp. apply list_elem_of_split in Hb as (N1 & N2 & ->). apply apart_app in Ha as [H1 (Hlo & _ & _ & H2)].
  rewrite cov_app, cov_cons. intros [Hc|[Hc|Hc]].
  - apply (cov_range _ _ _ H1) in Hc. lia.
  - unfold covers in Hc. lia.
  - apply (cov_range _ _ _ H2) in Hc. unfold fin in Hc. lia.
Qed.

Lemma small_tight start A N n s : shared start A N s → 0 < n → small N n → tight start A n s.
Proof.
  intros [R St U D Al] Hn Hs a Ha Hb. destruct (Al a) as [Hc|(b & m & Hbm & Hc)]; [lia| |].
  - apply Exists_exists in Hc as (b & Hb' & Hc). unfold covers in Hc. pose proof (Hs b Hb').
    destruct (Al (b.1 + 8 * b.2)) as [Hc'|(b' & m & Hbm & Hc')]; [lia| |].
    + exfalso. eapply cov_end; [apply (ro_apart _ _ R)|exact Hb'|lia|exact Hc'].
    + exists (b.1 + 8 * b.2), b', m. split_and!; [lia|lia|done|done].
  - exists a, b, m. split_and!; [lia|lia|done|done].
Qed.

(** The list after the first call has set it up. *)
Lemma malloc_init_wp start s Q :
  hp_freep s = 0 → hp_brk s = start → base + 8 ≤ start ≤ KERNBASE →
  (∀ s', shared start ∅ [(base, 0)] s' → hp_brk s' = hp_brk s → Q tt s') → wp (malloc_init base) Q s.
Proof.
  intros Hf Hb Hs HQ. unfold malloc_init. apply wp_bind, upd_hdr_wp; [by left|]. apply wp_bind, wp_modify.
  apply upd_hdr_wp; [by left|]. apply HQ; [|done]. cbn [set_freep set_hdr hp_mem]. rewrite lookup_insert_eq. cbn [default h_ptr]. split.
  - split; cbn; [done|by rewrite lookup_insert_eq| |unfold fin; cbn; lia|lia|by left]. by split_and!; try lia.
  - cbn. lia.
  - by intros a n E%lookup_empty_Some.
  - by intros a n a' n' y E%lookup_empty_Some.
  - cbn. lia.
Qed.

(** The outcome of [malloc] for [n] units: nothing, because the kernel
    refuses and no gap is large enough, or a block. *)
Definition outcome_ok (start : Z) (A : gmap Z Z) (n : Z) (s : heap) (r : Z) (s' : heap) : Prop :=
  (∀ b m y, A !! b = Some m → covers (b, m) y → hp_data s' !! y = hp_data s !! y) ∧
  (hp_brk s' = hp_brk s ∨ tight start A n s) ∧
  (r = 0 ∧ refused s n ∧ tight start A n s ∧ heap_ok start A s' ∧ hp_brk s' = hp_brk s ∧ (hp_freep s ≠ 0 → s' = s) ∨
   ∃ q, r = q + 8 ∧ A !! q = None ∧ heap_ok start (<[q := n]> A) s').

Lemma malloc_shared_wp start A N n s s0 :
  shared start A N s → 0 < n ≤ 2 ^ 27 → hp_brk s = hp_brk s0 → (hp_freep s0 ≠ 0 → s = s0) → (s = s0 ∨ A = ∅) →
  wp (s ← get; h ← hdr (hp_freep s); malloc_loop base grow (2 * size (hp_mem s) + 2) n (hp_freep s) (h_ptr h))
    (outcome_ok start A n s0) s.
Proof.
  intros Sh Hn Eb Hs Hd. assert (small N n → tight start A n s0) as Ht.
  { intros Hsm a. rewrite <- Eb. exact (small_tight start A N n s Sh (proj1 Hn) Hsm a). }
  apply wp_bind, wp_get. eapply malloc_list_wp; [apply Sh|done| |].
  - intros Hr Hsm. split; [|split; [by left|]].
    + intros b m y Hb _. destruct Hd as [->| ->]; [done|by apply lookup_empty_Some in Hb].
    + left. unfold refused in *. rewrite <- Eb. split_and!; [done|done|by apply Ht|left; by exists N|done|done].
  - intros q N' s' Al Hbr. destruct (shared_add _ _ _ _ _ _ _ _ Sh (proj1 Hn) Al) as [Hq Sh']. split; [|split].
    + intros b m y Hb Hy. destruct Hd as [->| ->]; [|by apply lookup_empty_Some in Hb].
      destruct (sh_used _ _ _ _ Sh b m Hb) as (Hm & Hlo & Hhi & _ & Hc). unfold covers in Hy. cbn in Hy.
      apply Al; [right; lia|lia|]. apply Hc. unfold covers. cbn. lia.
    + destruct Hbr as [?|?]; [left; congruence|right; auto].
    + right. exists q. split_and!; [done..|]. left. by exists N'.
Qed.

(** C38. [malloc] is safe, and fails only for lack of memory.  In any
    well-formed heap, for any size up to 2^29 bytes, with the units rounded
    up from the bytes asked for and one for the header: [malloc] ends.
    Either it returns a block of that many units that overlaps no block in
    use, or it returns 0 and leaves the heap as it was (the first call still
    sets the list up); this happens only if every run of that many units
    touches a block in use and the kernel refuses to grow the process.  It
    asks the kernel only if there is no such run.  No byte of a block in use
    changes, and free and used blocks still share out all memory the program
    got. *)
Theorem malloc_correct start A nbytes s :
  heap_ok start A s → 0 ≤ nbytes ≤ 2 ^ 29 →
  let n := (nbytes + 7) / 8 + 1 in
  nbytes ≤ 8 * (n - 1) ∧
  wp (malloc base grow nbytes) (λ r s',
    (∀ b m y, A !! b = Some m → covers (b, m) y → hp_data s' !! y = hp_data s !! y) ∧
    (hp_brk s' = hp_brk s ∨ tight start A n s) ∧
    (r = 0 ∧ refused s n ∧ tight start A n s ∧ heap_ok start A s' ∧ hp_brk s' = hp_brk s ∧ (hp_freep s ≠ 0 → s' = s) ∨
     ∃ q, r = q + 8 ∧ A !! q = None ∧ heap_ok start (<[q := n]> A) s')) s.
Proof.
  intros H Hn n. assert (0 < n ≤ 2 ^ 27 ∧ nbytes ≤ 8 * (n - 1)) as [Hn1 Hn2] by (subst n; Z.div_mod_to_equations; lia).
  split; [done|]. change (wp (malloc base grow nbytes) (outcome_ok start A n s) s).
  unfold malloc. apply wp_bind, wp_gets, wp_bind. rewrite u32_small by lia. replace (nbytes + 8 - 1) with (nbytes + 7) by lia. fold n.
  destruct H as [[N Sh]|(Hf & -> & Hb & Hs)].
  - rewrite (proj2 (Z.eqb_neq _ _)); [apply wp_ret; eapply malloc_shared_wp; try done; by left|].
    pose proof (sh_ring _ _ _ _ Sh) as R. pose proof (apart_addr _ _ _ (ro_apart _ _ R) (ro_freep _ _ R)). lia.
  - rewrite Hf, Z.eqb_refl. eapply malloc_init_wp; [done..|]. intros s1 Sh Eb. eapply malloc_shared_wp; try done; by right.
Qed.

(** C39. [free] gives a block back: for a block that is in use, the search for
    its place in the circular list ends, and afterwards exactly that block
    is no longer in use, while no byte of the other blocks changes and no
    memory is lost, whichever neighbours it is joined with. *)
Theorem free_correct start A q n s :
  heap_ok start A s → A !! q = Some n →
  wp (free base (q + 8)) (λ _ s', heap_ok start (delete q A) s' ∧
    ∀ b m y, A !! b = Some m → b ≠ q → covers (b, m) y → hp_data s' !! y = hp_data s !! y) s.
Proof using Hbase.
  intros [[N Sh]|(_ & -> & _)] Hq; [|done]. destruct (sh_used _ _ _ _ Sh q n Hq) as (Hn & Hlo & Hhi & [x Hx] & Hc).
  eapply (free_wp N (q, n)); [apply Sh|done..|]. intros N' s' F _. split; [left; exists N'; by eapply shared_del|].
  intros b m y Hb Hne Hy. destruct (sh_used _ _ _ _ Sh b m Hb) as (_ & ? & _ & _ & Hcb). apply F; [|by eapply (sh_apart _ _ _ _ Sh b m q n)|by apply Hcb].
  unfold covers in Hy. cbn in Hy. right. lia.
Qed.
End spec.

(** ** A run *)

Definition demo_grow (b n : Z) : bool := true.
Definition demo_heap : heap := Heap ∅ 0 0x4000 ∅.

(** 32 bytes: a free block and a block in use. *)
Definition demo_heap2 : heap :=
  Heap {[ 0x3000 := Header 0x4000 0; 0x4000 := Header 0x3000 2; 0x4010 := Header 0 2 ]} 0x3000 0x4020 {[ 0x4018 := 7 ]}.

Lemma demo_heap_ok : heap_ok 0x3000 0x4000 ∅ demo_heap.
Proof. right. split_and!; done. Qed.

Lemma demo_heap2_ok : heap_ok 0x3000 0x4000 {[ 0x4010 := 2 ]} demo_heap2.
Proof.
  left. exists [(0x3000, 0); (0x4000, 2)]. split.
  - split; [done|done| |by vm_compute|done|by left]. cbn. unfold fin. cbn. split_and!; lia.
  - done.
  - intros a n [<- <-]%lookup_singleton_Some. split_and!; [done..|by exists 0|]. intros y Hy.
    rewrite !cov_cons, cov_nil. unfold covers in *. cbn in *. lia.
  - intros a n a' n' y [<- <-]%lookup_singleton_Some [<- <-]%lookup_singleton_Some. done.
  - intros x Hx. cbn in Hx. destruct (Z.lt_ge_cases x 0x4010).
    + left. rewrite !cov_cons. right. left. unfold covers. cbn. lia.
    + right. exists 0x4010, 2. split; [done|]. unfold covers. cbn. lia.
Qed.

(** The block in use keeps its byte, and the heap grows for the new one. *)
Lemma malloc_correct_witness :
  wp (malloc 0x3000 demo_grow 16) (λ r s', r = 0xc010 ∧ hp_data s' !! 0x4018 = Some 7 ∧ ∃ A, heap_ok 0x3000 0x4000 A s') demo_heap2.
Proof.
  pose proof (malloc_correct 0x3000 ltac:(lia) demo_grow 0x4000 {[ 0x4010 := 2 ]} 16 demo_heap2 demo_heap2_ok ltac:(lia)) as [_ H].
  apply wp_Ok in H as (r & s' & E & Hd & _ & H). eapply wp_run; [exact E|]. split_and!.
  - vm_compute in E. by injection E as <- _.
  - rewrite (Hd 0x4010 2 0x4018); [done|done|unfold covers; cbn; lia].
  - destruct H as [(_ & _ & _ & H & _)|(q & _ & _ & H)]; by eexists.
Defined.

(** The two blocks are joined. *)
Lemma free_correct_witness :
  wp (free 0x3000 0x4018) (λ _ s', heap_ok 0x3000 0x4000 ∅ s' ∧ hp_mem s' !! 0x4000 = Some (Header 0x3000 4)) demo_heap2.
Proof.
  pose proof (free_correct 0x3000 ltac:(lia) 0x4000 {[ 0x4010 := 2 ]} 0x4010 2 demo_heap2 demo_heap2_ok eq_refl) as H.
  apply wp_Ok in H as ([] & s' & E & H & _). eapply wp_run; [exact E|]. rewrite delete_singleton_eq in H. split; [done|].
  vm_compute in E. by injection E as <-.
Defined.

(** A request close to 2^32 wraps around: a block without room for a single
    byte is returned. *)
Lemma malloc_wraps : wp (malloc 0x3000 demo_grow (2 ^ 32 - 1)) (λ r s', r = 0xc000 ∧ hp_mem s' !! 0xbff8 = Some (Header 0 1)) demo_heap.
Proof. by vm_compute. Qed.
