(* ===== verification/Sh.v ===== *)
(** The shell's parser (sh.c).  The line is a buffer whose first [es] bytes
    are not zero; a pointer into it is a position, and the parser's state is
    the position [*ps].  A syntax error ends the shell's child: [panic]. *)

From S2P Require Import Prelude Ulib.

(** ** Commands *)


(** A word of the line: where it begins and where it ends. *)
Notation word := (nat * nat)%type.

(** Commands over words of type [W]: positions in the line, or their text. *)
Inductive cmd_of (W : Type) :=
  | EXEC (argv : list W)
  | REDIR (c : cmd_of W) (file : W) (mode fd : Z)
  | PIPE (left right : cmd_of W)
  | LIST (left right : cmd_of W)
  | BACK (c : cmd_of W).
Arguments EXEC {W} argv.
Arguments REDIR {W} c file mode fd.
Arguments PIPE {W} left right.
Arguments LIST {W} left right.
Arguments BACK {W} c.

Notation cmd := (cmd_of word).

Definition MAXARGS : nat := 10.

(** [" \t\r\n\v"] and ["<|>&;()"] *)
Definition whitespace : list Z := [32; 9; 13; 10; 11].
Definition symbols : list Z := [60; 124; 62; 38; 59; 40; 41].

Definition in_chars (l : list Z) (c : Z) : bool := match strchr l c with Some _ => true | None => false end.
Definition word_char (c : Z) : bool := negb (in_chars whitespace c) && negb (in_chars symbols c).

(** The number of characters that a loop of [s++] passes. *)
Fixpoint lead (f : Z → bool) (l : list Z) : nat :=
  match l with
  | c :: l' => if f c then S (lead f l') else O
  | [] => O
  end.

Section parser.
(** The line without its terminating zero. *)
Context (buf : list Z).

(** [*s] *)
Definition char_at (s : nat) : Z := nth s buf 0.
Definition skip_ws (s : nat) : nat := (s + lead (in_chars whitespace) (drop s buf))%nat.

(** ** Tokens *)

(** The code of the token, its word, and the position after it and the white
    space that follows. *)
Definition token (s0 : nat) : Z * word * nat :=
  let q := skip_ws s0 in
  let c := char_at q in
  let rs :=
    if c =? 0 then (0, q) else
    if in_chars [124; 40; 41; 59; 38; 60] c then (c, S q) else
    if c =? 62 then (if char_at (S q) =? 62 then (43, S (S q)) else (c, S q)) else
    (97, (q + lead word_char (drop q buf))%nat) in
  (rs.1, (q, rs.2), skip_ws rs.2).

Definition gettoken : M nat (Z * word) :=
  s ← get;
  let t := token s in
  put t.2;;
  mret t.1.

Definition peek (toks : list Z) : M nat bool :=
  s ← get;
  let s := skip_ws s in
  put s;;
  mret (negb (char_at s =? 0) && in_chars toks (char_at s)).

(** ** The grammar *)

Definition redir (c : cmd) (tok : Z) (w : word) : cmd :=
  if tok =? 60 then REDIR c w O_RDONLY 0 else
  if tok =? 62 then REDIR c w (Z.lor O_WRONLY O_CREATE) 1 else
  if tok =? 43 then REDIR c w (Z.lor O_WRONLY O_CREATE) 1 else c.

Fixpoint parseredirs (fuel : nat) (c : cmd) : M nat cmd :=
  b ← peek [60; 62];
  if negb b then mret c else
  match fuel with
  | O => fault "parseredirs"
  | S fuel =>
    t ← gettoken;
    w ← gettoken;
    if negb (w.1 =? 97) then panic "missing file for redirection" else
    parseredirs fuel (redir c t.1 w.2)
  end.

(** One more argument for the [execcmd] at the bottom of the redirections. *)
Fixpoint add_arg {W} (c : cmd_of W) (w : W) : cmd_of W :=
  match c with
  | EXEC l => EXEC (l ++ [w])
  | REDIR c f m d => REDIR (add_arg c w) f m d
  | _ => c
  end.

(** The loop of [parseexec] with [argc] arguments so far. *)
Fixpoint parseargs (fuel argc : nat) (ret : cmd) : M nat cmd :=
  b ← peek [124; 41; 38; 59];
  if (b : bool) then mret ret else
  match fuel with
  | O => fault "parseargs"
  | S fuel =>
    t ← gettoken;
    if t.1 =? 0 then mret ret else
    if negb (t.1 =? 97) then panic "syntax" else
    if (MAXARGS <=? S argc)%nat then panic "too many args" else
    ret ← parseredirs (length buf) (add_arg ret t.2);
    parseargs fuel (S argc) ret
  end.

(** The loop of [parseline] over ['&']. *)
Fixpoint parsebacks (fuel : nat) (c : cmd) : M nat cmd :=
  b ← peek [38];
  if negb b then mret c else
  match fuel with
  | O => fault "parsebacks"
  | S fuel => gettoken;; parsebacks fuel (BACK c)
  end.

Fixpoint parseline (fuel : nat) : M nat cmd :=
  match fuel with
  | O => fault "parseline"
  | S fuel =>
    c ← parsepipe fuel;
    c ← parsebacks (length buf) c;
    b ← peek [59];
    if (b : bool) then gettoken;; r ← parseline fuel; mret (LIST c r) else mret c
  end
with parsepipe (fuel : nat) : M nat cmd :=
  match fuel with
  | O => fault "parsepipe"
  | S fuel =>
    c ← parseexec fuel;
    b ← peek [124];
    if (b : bool) then gettoken;; r ← parsepipe fuel; mret (PIPE c r) else mret c
  end
with parseexec (fuel : nat) : M nat cmd :=
  match fuel with
  | O => fault "parseexec"
  | S fuel =>
    b ← peek [40];
    if (b : bool) then parseblock fuel else
    ret ← parseredirs (length buf) (EXEC []);
    parseargs (S (length buf)) 0 ret
  end
with parseblock (fuel : nat) : M nat cmd :=
  match fuel with
  | O => fault "parseblock"
  | S fuel =>
    b ← peek [40];
    if negb b then panic "parseblock" else
    gettoken;;
    c ← parseline fuel;
    b ← peek [41];
    if negb b then panic "syntax - missing )" else
    gettoken;;
    parseredirs (length buf) c
  end.

(** ** Terminating the words *)

(** The bytes of the buffer, the terminating zero included, after a zero has
    been stored at the end of every word. *)
Fixpoint nulterminate (c : cmd) (b : list Z) : list Z :=
  match c with
  | EXEC l => foldl (λ b w, <[w.2 := 0]> b) b l
  | REDIR c w _ _ => <[w.2 := 0]> (nulterminate c b)
  | PIPE l r | LIST l r => nulterminate r (nulterminate l b)
  | BACK c => nulterminate c b
  end.

(** Four calls lead from [parseline] to itself past a character. *)
Definition parsecmd : M nat (cmd * list Z) :=
  put 0%nat;;
  c ← parseline (4 * length buf + 4);
  peek [];;
  s ← get;
  if negb (s =? length buf)%nat then panic "syntax" else
  mret (c, nulterminate c (buf ++ [0])).
End parser.

(** The string that begins at a position of the buffer. *)
Definition cstring (b : list Z) (q : nat) : list Z :=
  let l := drop q b in take (lead (λ c, negb (c =? 0)) l) l.
