(* ===== verification/ShSpec.v ===== *)
(** The shell's parser (sh.c): parsing always ends, within the buffer; the
    words of the command are strings of their own once the parser is done;
    and a command that is written out is parsed back. *)

From S2P Require Import Prelude Ulib Sh.

(** [safe m Q s]: run from [s], [m] returns with [Q] or panics; it does not
    run out of fuel. *)
Definition safe {S A} (m : M S A) (Q : A → S → Prop) (s : S) : Prop :=
  match m s with Ok a s' => Q a s' | Panic _ => True | _ => False end.

Lemma safe_ret {S A} (a : A) (Q : A → S → Prop) s : Q a s → safe (mret a) Q s.
Proof. done. Qed.
Lemma safe_panic {S A} msg (Q : A → S → Prop) s : safe (panic msg) Q s.
Proof. done. Qed.
Lemma safe_bind {S A B} (m : M S A) (k : A → M S B) Q s : safe m (λ a, safe (k a) Q) s → safe (m ≫= k) Q s.
Proof. unfold safe, mbind, M_bind. by destruct (m s). Qed.
Lemma safe_mono {S A} (m : M S A) (P Q : A → S → Prop) s : safe m P s → (∀ a s', P a s' → Q a s') → safe m Q s.
Proof. unfold safe. destruct (m s); auto. Qed.

(** ** Characters *)

Lemma in_chars_true l c : in_chars l c = true ↔ c ∈ l.
Proof.
  rewrite <- strchr_elem. unfold in_chars. destruct (strchr l c) as [r|]; split; try done; [by eexists|by intros [? ?]].
Qed.

Lemma lead_le f l : (lead f l ≤ length l)%nat.
Proof. induction l as [|c l IH]; cbn; [done|]. destruct (f c); lia. Qed.

Lemma lead_all f l i c : (i < lead f l)%nat → l !! i = Some c → f c = true.
Proof.
  revert i. induction l as [|x l IH]; intros i Hi E; [done|]. cbn in Hi. destruct (f x) eqn:Ef; [|lia].
  destruct i; [by injection E as <-|]. apply (IH i); [lia|done].
Qed.

Lemma lead_end f l c : l !! lead f l = Some c → f c = false.
Proof. induction l as [|x l IH]; cbn; [done|]. destruct (f x) eqn:Ef; [done|]. by intros [= <-]. Qed.

Lemma lead_app f l l' : Forall (λ c, f c = true) l → lead f (l ++ l') = (length l + lead f l')%nat.
Proof. induction 1 as [|c l E F IH]; cbn; [done|]. by rewrite E, IH. Qed.

Lemma lead_zero f l : (∀ c, head l = Some c → f c = false) → lead f l = 0%nat.
Proof. destruct l as [|c l]; [done|]. intros H. cbn. by rewrite (H c). Qed.

Section spec.
Context (buf : list Z) (Hbuf : 0 ∉ buf).

(** ** Words *)

(** A word of the buffer: not empty, of word characters, up to a character
    that is not one or the end. *)
Record word_ok (w : word) : Prop := {
  wo_range : (w.1 < w.2 ≤ length buf)%nat;
  wo_chars i : (w.1 ≤ i < w.2)%nat → word_char (char_at buf i) = true;
  wo_end : (w.2 < length buf)%nat → word_char (char_at buf w.2) = false;
}.

Fixpoint words (c : cmd) : list word :=
  match c with
  | EXEC l => l
  | REDIR c w _ _ => words c ++ [w]
  | PIPE l r | LIST l r => words l ++ words r
  | BACK c => words c
  end.

Definition cmd_ok (c : cmd) : Prop := Forall word_ok (words c).

Lemma char_at_drop q i : nth i (drop q buf) 0 = char_at buf (q + i).
Proof. unfold char_at. rewrite !nth_lookup, lookup_drop. done. Qed.

Lemma char_at_some i : (i < length buf)%nat → buf !! i = Some (char_at buf i).
Proof. intros H. unfold char_at. rewrite nth_lookup. by destruct (lookup_lt_is_Some_2 buf i H) as [c ->]. Qed.

Lemma char_at_zero i : char_at buf i = 0 ↔ (length buf ≤ i)%nat.
Proof using Hbuf.
  split; intros H.
  - destruct (decide (length buf ≤ i)%nat) as [|Hlt]; [done|]. exfalso. apply Hbuf.
    rewrite <- H. eapply list_elem_of_lookup_2, char_at_some. lia.
  - unfold char_at. by rewrite nth_overflow.
Qed.

Lemma skip_ws_range i : (i ≤ length buf)%nat → (i ≤ skip_ws buf i ≤ length buf)%nat.
Proof. intros H. unfold skip_ws. pose proof (lead_le (in_chars whitespace) (drop i buf)). rewrite length_drop in *. lia. Qed.

(** ** Tokens *)

(** A token moves forward unless the line is at its end; only the code
    ['a'] comes with a word. *)
Lemma word_run q :
  (q < length buf)%nat → word_char (char_at buf q) = true →
  let e := (q + lead word_char (drop q buf))%nat in (q < e ≤ length buf)%nat ∧ word_ok (q, e).
Proof.
  intros Hq Hc e. pose proof (lead_le word_char (drop q buf)) as Hle. rewrite length_drop in Hle.
  assert (0 < lead word_char (drop q buf))%nat as Hpos.
  { rewrite (drop_S _ _ _ (char_at_some q Hq)). cbn. rewrite Hc. lia. }
  split; [subst e; lia|]. split; cbn; [subst e; lia| |].
  - intros i Hi. apply (lead_all word_char (drop q buf) (i - q)); [subst e; lia|]. rewrite lookup_drop.
    replace (q + (i - q))%nat with i by lia. apply char_at_some. subst e. lia.
  - intros He. apply (lead_end word_char (drop q buf)). rewrite lookup_drop. by apply char_at_some.
Qed.

Lemma word_char_other c : in_chars whitespace c = false → in_chars [124; 40; 41; 59; 38; 60] c = false → c ≠ 62 → word_char c = true.
Proof.
  intros Hw Hs Hg. unfold word_char. rewrite Hw. cbn [negb andb]. apply negb_true_iff. apply not_true_iff_false in Hs.
  apply not_true_iff_false. rewrite in_chars_true in *. unfold symbols. set_solver.
Qed.

Lemma skip_ws_end i : (skip_ws buf i < length buf)%nat → in_chars whitespace (char_at buf (skip_ws buf i)) = false.
Proof.
  intros H. unfold skip_ws in *. apply (lead_end (in_chars whitespace) (drop i buf)). rewrite lookup_drop. by apply char_at_some.
Qed.

(** Where a token that begins at [q] ends. *)
Definition token_end (q : nat) : Z * nat :=
  let c := char_at buf q in
  if c =? 0 then (0, q) else
  if in_chars [124; 40; 41; 59; 38; 60] c then (c, S q) else
  if c =? 62 then (if char_at buf (S q) =? 62 then (43, S (S q)) else (c, S q)) else
  (97, (q + lead word_char (drop q buf))%nat).

Lemma token_end_ok q :
  (q ≤ length buf)%nat → ((q < length buf)%nat → in_chars whitespace (char_at buf q) = false) →
  (q ≤ (token_end q).2 ≤ length buf)%nat ∧ ((token_end q).1 = 97 → word_ok (q, (token_end q).2)) ∧
  ((q < length buf)%nat → (q < (token_end q).2)%nat ∧ (token_end q).1 ≠ 0).
Proof using Hbuf.
  intros Hq Hw. unfold token_end. destruct (Z.eqb_spec (char_at buf q) 0) as [Ez|Ez]; cbn.
  { apply char_at_zero in Ez. split; [lia|]. split; [done|]. lia. }
  rewrite char_at_zero in Ez. destruct (in_chars [124; 40; 41; 59; 38; 60] (char_at buf q)) eqn:Es; cbn.
  { split; [lia|]. split; [|rewrite char_at_zero; lia]. intros E. by rewrite E in Es. }
  destruct (Z.eqb_spec (char_at buf q) 62) as [Eg|Eg].
  { destruct (Z.eqb_spec (char_at buf (S q)) 62) as [Eg2|Eg2]; cbn; [|rewrite Eg; lia].
    assert (¬ length buf ≤ S q)%nat by (rewrite <- char_at_zero, Eg2; done). lia. }
  destruct (word_run q) as [H1 H2]; [lia|apply word_char_other; auto with lia|]. cbn. split; [lia|]. split; [done|lia].
Qed.

Lemma token_ok i :
  (i ≤ length buf)%nat → let t := token buf i in
  (i ≤ t.2 ≤ length buf)%nat ∧ (t.1.1 = 97 → word_ok t.1.2) ∧ (t.1.1 ≠ 0 → (i < t.2)%nat) ∧
  (t.1.1 = 0 → skip_ws buf i = length buf).
Proof using Hbuf.
  intros Hi. pose proof (skip_ws_range i Hi) as Hq. destruct (token_end_ok (skip_ws buf i)) as (H1 & H2 & H3); [lia|apply skip_ws_end|].
  assert ((token_end (skip_ws buf i)).1 ≠ 0 → (skip_ws buf i < length buf)%nat) as H4.
  { intros H. destruct (decide (skip_ws buf i < length buf)%nat); [done|]. exfalso. apply H. unfold token_end.
    by rewrite (proj2 (char_at_zero _)) by lia. }
  change (token buf i) with ((token_end (skip_ws buf i)).1, (skip_ws buf i, (token_end (skip_ws buf i)).2), skip_ws buf (token_end (skip_ws buf i)).2).
  cbn [fst snd]. pose proof (skip_ws_range (token_end (skip_ws buf i)).2 ltac:(lia)). split; [lia|]. split; [done|]. split.
  - intros H'. specialize (H3 (H4 H')). lia.
  - intros H'. destruct (decide (skip_ws buf i < length buf)%nat) as [Hlt|]; [|lia]. by destruct (H3 Hlt).
Qed.

Lemma gettoken_safe Q i :
  (i ≤ length buf)%nat →
  (∀ t j, (i ≤ j ≤ length buf)%nat → (t.1 = 97 → word_ok t.2) → (t.1 ≠ 0 → (i < j)%nat) → (t.1 = 0 → skip_ws buf i = length buf) → Q t j) →
  safe (gettoken buf) Q i.
Proof using Hbuf. intros Hi HQ. destruct (token_ok i Hi) as (H1 & H2 & H3 & H4). by apply HQ. Qed.

Lemma skip_ws_idem i : (i ≤ length buf)%nat → skip_ws buf (skip_ws buf i) = skip_ws buf i.
Proof.
  intros Hi. unfold skip_ws at 1. rewrite lead_zero; [lia|]. intros c Hc. pose proof (skip_ws_range i Hi).
  destruct (decide (skip_ws buf i < length buf)%nat) as [Hlt|].
  - rewrite (drop_S _ _ _ (char_at_some _ Hlt)) in Hc. injection Hc as <-. by apply skip_ws_end.
  - rewrite drop_ge in Hc by lia. done.
Qed.

Lemma peek_safe toks Q i :
  (i ≤ length buf)%nat →
  (∀ b j, (i ≤ j ≤ length buf)%nat → skip_ws buf j = j → (b = true → (j < length buf)%nat) → Q b j) → safe (peek buf toks) Q i.
Proof using Hbuf.
  intros Hi HQ. pose proof (skip_ws_range i Hi). unfold peek. apply HQ; [done|by apply skip_ws_idem|].
  intros [Hz%negb_true_iff%Z.eqb_neq _]%andb_true_iff. rewrite char_at_zero in Hz. lia.
Qed.

(** The token that [peek] has seen. *)
Lemma peeked_safe Q i :
  (i < length buf)%nat → skip_ws buf i = i →
  (∀ t j, (i < j ≤ length buf)%nat → (t.1 = 97 → word_ok t.2) → Q t j) → safe (gettoken buf) Q i.
Proof using Hbuf.
  intros Hi Hs HQ. apply gettoken_safe; [lia|]. intros t j Hj Hw Hn Hz. apply HQ; [|done]. rewrite Hs in Hz.
  destruct (decide (t.1 = 0)) as [E|E]; [specialize (Hz E); lia|specialize (Hn E); lia].
Qed.

(** ** The grammar *)

(** What every part of the parser guarantees, from position [i]. *)
Definition parsed (i : nat) (c : cmd) (j : nat) : Prop := (i ≤ j ≤ length buf)%nat ∧ cmd_ok c.

Lemma parsed_later i i' c j : (i ≤ i')%nat → parsed i' c j → parsed i c j.
Proof. intros H [? ?]. split; [lia|done]. Qed.

Lemma redir_ok c t w : cmd_ok c → word_ok w → cmd_ok (redir c t w).
Proof.
  intros Hc Hw. unfold redir. destruct (t =? 60), (t =? 62), (t =? 43); try done; by apply Forall_app_2, Forall_singleton.
Qed.

Lemma parseredirs_safe fuel c i : (i ≤ length buf)%nat → (length buf - i ≤ fuel)%nat → cmd_ok c → safe (parseredirs buf fuel c) (parsed i) i.
Proof using Hbuf.
  revert c i. induction fuel as [|fuel IH]; intros c i Hi Hf Hc; cbn [parseredirs]; apply safe_bind, peek_safe; [done| |done|];
    intros b j Hj Hs Hb; (destruct b; cbn [negb]; [specialize (Hb eq_refl)|apply safe_ret; by split]); [lia|].
  apply safe_bind, peeked_safe; [done..|]. intros t j1 Hj1 _. apply safe_bind, gettoken_safe; [lia|]. intros w j2 Hj2 Hw _ _.
  destruct (Z.eqb_spec w.1 97) as [E|]; [|apply safe_panic]. cbn [negb].
  eapply safe_mono; [apply IH; [lia|lia|apply redir_ok; auto]|]. intros c' j'. apply parsed_later. lia.
Qed.

Lemma add_arg_ok c w : cmd_ok c → word_ok w → cmd_ok (add_arg c w).
Proof.
  unfold cmd_ok. intros Hc Hw. induction c as [l|c IH f m d| | |]; cbn in *; try done.
  - by apply Forall_app_2, Forall_singleton.
  - apply Forall_app in Hc as [? ?]. apply Forall_app_2; auto.
Qed.

Lemma parseargs_safe fuel argc ret i :
  (i ≤ length buf)%nat → (length buf - i < fuel)%nat → cmd_ok ret → safe (parseargs buf fuel argc ret) (parsed i) i.
Proof using Hbuf.
  revert argc ret i. induction fuel as [|fuel IH]; intros argc ret i Hi Hf Hc; [lia|]. cbn [parseargs]. apply safe_bind, peek_safe; [done|].
  intros b j Hj Hs Hb. destruct b; [apply safe_ret; by split|].
  apply safe_bind, gettoken_safe; [lia|]. intros t j1 Hj1 Hw Hn Hz.
  destruct (Z.eqb_spec t.1 0) as [E0|E0]; [apply safe_ret; split; [lia|done]|]. specialize (Hn E0).
  destruct (Z.eqb_spec t.1 97) as [E|]; [|apply safe_panic]. cbn [negb]. destruct (_ <=? _)%nat; [apply safe_panic|].
  apply safe_bind. eapply safe_mono; [apply parseredirs_safe; [lia|lia|apply add_arg_ok; auto]|]. intros c' j2 [Hj2 Hc'].
  eapply safe_mono; [apply IH; [lia|lia|done]|]. intros c'' j'. apply parsed_later. lia.
Qed.

Lemma parsebacks_safe fuel c i : (i ≤ length buf)%nat → (length buf - i ≤ fuel)%nat → cmd_ok c → safe (parsebacks buf fuel c) (parsed i) i.
Proof using Hbuf.
  revert c i. induction fuel as [|fuel IH]; intros c i Hi Hf Hc; cbn [parsebacks]; apply safe_bind, peek_safe; [done| |done|];
    intros b j Hj Hs Hb; (destruct b; cbn [negb]; [specialize (Hb eq_refl)|apply safe_ret; by split]); [lia|].
  apply safe_bind, peeked_safe; [done..|]. intros t j1 Hj1 _.
  eapply safe_mono; [apply IH; [lia|lia|done]|]. intros c' j'. apply parsed_later. lia.
Qed.

(** The four mutually recursive functions end, given four units of fuel for
    each character left. *)
Lemma parse_safe fuel i :
  (i ≤ length buf)%nat → let need := (4 * (length buf - i))%nat in
  ((need + 4 ≤ fuel)%nat → safe (parseline buf fuel) (parsed i) i) ∧
  ((need + 3 ≤ fuel)%nat → safe (parsepipe buf fuel) (parsed i) i) ∧
  ((need + 2 ≤ fuel)%nat → safe (parseexec buf fuel) (parsed i) i) ∧
  ((need + 1 ≤ fuel)%nat → safe (parseblock buf fuel) (parsed i) i).
Proof using Hbuf.
  revert i. induction fuel as [|fuel IH]; intros i Hi need; [lia|].
  split; [|split; [|split]]; intros Hf; cbn [parseline parsepipe parseexec parseblock].
  - destruct (IH i Hi) as (_ & IHp & _). apply safe_bind. eapply safe_mono; [apply IHp; lia|]. intros c j [Hj Hc].
    apply safe_bind. eapply safe_mono; [apply parsebacks_safe; [lia|lia|done]|]. intros c1 j1 [Hj1 Hc1].
    apply safe_bind, peek_safe; [lia|]. intros b j2 Hj2 Hs Hb. destruct b; [specialize (Hb eq_refl)|apply safe_ret; split; [lia|done]].
    apply safe_bind, peeked_safe; [done..|]. intros t j3 Hj3 _. apply safe_bind. destruct (IH j3 ltac:(lia)) as (IHl & _).
    eapply safe_mono; [apply IHl; lia|]. intros r j4 [Hj4 Hr]. apply safe_ret. split; [lia|]. by apply Forall_app_2.
  - destruct (IH i Hi) as (_ & _ & IHe & _). apply safe_bind. eapply safe_mono; [apply IHe; lia|]. intros c j [Hj Hc].
    apply safe_bind, peek_safe; [lia|]. intros b j2 Hj2 Hs Hb. destruct b; [specialize (Hb eq_refl)|apply safe_ret; split; [lia|done]].
    apply safe_bind, peeked_safe; [done..|]. intros t j3 Hj3 _. apply safe_bind. destruct (IH j3 ltac:(lia)) as (_ & IHp & _).
    eapply safe_mono; [apply IHp; lia|]. intros r j4 [Hj4 Hr]. apply safe_ret. split; [lia|]. by apply Forall_app_2.
  - apply safe_bind, peek_safe; [lia|]. intros b j Hj Hs Hb. destruct b.
    + destruct (IH j ltac:(lia)) as (_ & _ & _ & IHb). eapply safe_mono; [apply IHb; lia|]. intros c' j'. apply parsed_later. lia.
    + apply safe_bind. eapply safe_mono; [apply parseredirs_safe; [lia|lia|constructor]|]. intros c j1 [Hj1 Hc].
      eapply safe_mono; [apply parseargs_safe; [lia|lia|done]|]. intros c' j'. apply parsed_later. lia.
  - apply safe_bind, peek_safe; [lia|]. intros b j Hj Hs Hb. destruct b; [specialize (Hb eq_refl)|apply safe_panic]. cbn [negb].
    apply safe_bind, peeked_safe; [done..|]. intros t j1 Hj1 _. apply safe_bind. destruct (IH j1 ltac:(lia)) as (IHl & _).
    eapply safe_mono; [apply IHl; lia|]. intros c j2 [Hj2 Hc]. apply safe_bind, peek_safe; [lia|]. intros b j3 Hj3 Hs3 Hb3.
    destruct b; [specialize (Hb3 eq_refl)|apply safe_panic]. cbn [negb]. apply safe_bind, peeked_safe; [done..|]. intros t' j4 Hj4 _.
    eapply safe_mono; [apply parseredirs_safe; [lia|lia|done]|]. intros c' j'. apply parsed_later. lia.
Qed.

(** ** The strings *)

(** The text of a word. *)
Definition text (w : word) : list Z := take (w.2 - w.1) (drop w.1 buf).

Lemma nulterminate_words c b : nulterminate c b = foldl (λ b w, <[w.2 := 0]> b) b (words c).
Proof.
  revert b. induction c as [l|c IH w m d|l IHl r IHr|l IHl r IHr|c IH]; intros b; cbn; [done| | | |done].
  - by rewrite foldl_app, IH.
  - by rewrite foldl_app, IHl, IHr.
  - by rewrite foldl_app, IHl, IHr.
Qed.

(** Zeroes at the ends of the words, and no other change. *)
Lemma zeroed_lookup (ws : list word) b i :
  (i < length b)%nat →
  foldl (λ b w, <[w.2 := 0]> b) b ws !! i = if decide (i ∈ ws.*2) then Some 0 else b !! i.
Proof.
  revert b. induction ws as [|w ws IH]; intros b Hi; cbn [foldl fmap list_fmap].
  - by rewrite decide_False by apply not_elem_of_nil.
  - rewrite IH by by rewrite length_insert. destruct (decide (i ∈ ws.*2)) as [Hin|Hin].
    + rewrite decide_True; [done|]. by right.
    + destruct (decide (i = w.2)) as [->|Hne].
      * rewrite list_lookup_insert_eq by done. rewrite decide_True; [done|]. by left.
      * rewrite list_lookup_insert_ne by done. rewrite decide_False; [done|]. by intros [?|?]%elem_of_cons.
Qed.

Lemma length_zeroed (ws : list word) b : length (foldl (λ b w, <[w.2 := 0]> b) b ws) = length b.
Proof. revert b. induction ws as [|w ws IH]; intros b; cbn; [done|]. by rewrite IH, length_insert. Qed.

(** The end of a word lies in no word. *)
Lemma word_end_out w w' i : word_ok w → word_ok w' → w'.2 = i → ¬ (w.1 ≤ i < w.2)%nat.
Proof.
  intros [H1 H2 H3] [H1' H2' H3'] <- Hi. specialize (H2 _ Hi). rewrite H3' in H2; [done|lia].
Qed.

Lemma nulterminate_string c w :
  cmd_ok c → w ∈ words c → cstring (nulterminate c (buf ++ [0])) w.1 = text w.
Proof using Hbuf.
  intros Hc Hw. rewrite nulterminate_words. set (b := foldl _ _ _).
  pose proof (proj1 (Forall_forall _ _) Hc w Hw) as Ow. pose proof (wo_range _ Ow) as Hr.
  assert (∀ i, (i ≤ length buf)%nat → b !! i = if decide (i ∈ (words c).*2) then Some 0 else (buf ++ [0]) !! i) as Hb.
  { intros i Hi. apply zeroed_lookup. rewrite length_app. cbn. lia. }
  assert (take (w.2 - w.1) (drop w.1 b) = text w) as Et.
  { apply list_eq. intros k. unfold text. destruct (decide (k < w.2 - w.1)%nat) as [Hk|Hk]; [|by rewrite !lookup_take_ge by lia].
    rewrite !lookup_take_lt, !lookup_drop, Hb by lia. rewrite decide_False; [by rewrite lookup_app_l by lia|].
    intros (w' & E & Hw')%list_elem_of_fmap. pose proof (proj1 (Forall_forall _ _) Hc w' Hw') as Ow'.
    eapply (word_end_out w w'); [done..|symmetry; exact E|lia]. }
  assert (b !! w.2 = Some 0) as E0.
  { rewrite Hb by lia. rewrite decide_True; [done|]. by apply list_elem_of_fmap_2. }
  unfold cstring. rewrite <- (take_drop (w.2 - w.1) (drop w.1 b)), Et, drop_drop.
  replace (w.1 + (w.2 - w.1))%nat with w.2 by lia. rewrite (drop_S _ _ _ E0), lead_app.
  - cbn. rewrite Nat.add_0_r. by rewrite take_app_length.
  - apply Forall_forall. intros x Hx. apply negb_true_iff, Z.eqb_neq. intros ->. apply Hbuf.
    unfold text in Hx. apply elem_of_take in Hx as (k & Hx & _). rewrite lookup_drop in Hx. by eapply list_elem_of_lookup_2.
Qed.

Lemma parsecmd_safe s0 :
  safe (parsecmd buf) (λ r _, cmd_ok r.1 ∧ r.2 = nulterminate r.1 (buf ++ [0])) s0.
Proof using Hbuf.
  unfold parsecmd. apply safe_bind. unfold safe, put at 1. fold (@safe nat (cmd * list Z)). apply safe_bind.
  destruct (parse_safe (4 * length buf + 4) 0 ltac:(lia)) as (H & _). eapply safe_mono; [apply H; lia|]. intros c j [Hj Hc].
  apply safe_bind, peek_safe; [lia|]. intros b j1 _ _ _. apply safe_bind. cbn. destruct (negb _); [apply safe_panic|by apply safe_ret].
Qed.
End spec.

(** C32. The shell's parser is safe on any line.  For every line of non-zero
    bytes, [parsecmd] ends, with a command or a syntax error.  Every word of
    a command it returns lies within the line, and once [nulterminate] has
    stored its zeroes - all of them inside the buffer - every argument and
    file name is a C string that reads exactly as the word did in the line,
    whatever the words are separated by. *)
Theorem parsecmd_words buf s0 :
  0 ∉ buf →
  safe (parsecmd buf) (λ r _, length r.2 = S (length buf) ∧
    ∀ w, w ∈ words r.1 → (w.1 < w.2 ≤ length buf)%nat ∧ cstring r.2 w.1 = text buf w) s0.
Proof.
  intros H0. eapply safe_mono; [by apply parsecmd_safe|]. intros [c b] s' [Hc Hb]. cbn [fst snd] in *. subst b. split.
  - rewrite nulterminate_words, length_zeroed, length_app. cbn. lia.
  - intros w Hw. split; [by eapply wo_range, (proj1 (Forall_forall _ _) Hc)|by apply nulterminate_string].
Qed.

(** ["ls>f;x"] *)
Definition demo_line : list Z := [108; 115; 62; 102; 59; 120].

Lemma parsecmd_words_witness :
  safe (parsecmd demo_line) (λ r _, (λ w, cstring r.2 w.1) <$> words r.1 = [[108; 115]; [102]; [120]]) 0%nat.
Proof.
  assert (safe (parsecmd demo_line) (λ r _, words r.1 = [(0, 2); (3, 4); (5, 6)]%nat) 0%nat) as E by by vm_compute.
  pose proof (parsecmd_words demo_line 0%nat ltac:(by apply (bool_decide_unpack _))) as H.
  revert E H. unfold safe. generalize (parsecmd demo_line 0%nat). intros [[c b] s'| | | |]; try done. cbn [fst snd]. intros E [_ H].
  rewrite (list_fmap_ext _ (text demo_line) (words c)); [by rewrite E|].
  intros i w Hw. apply H. by eapply list_elem_of_lookup_2.
Defined.
