(* ===== verification/ShPrint.v ===== *)
(** Commands of the shell written out, and their parsing back (sh.c). *)

From S2P Require Import Prelude Ulib Sh ShSpec.

(** ** Writing a command *)

Fixpoint cmd_map {V W} (f : V → W) (c : cmd_of V) : cmd_of W :=
  match c with
  | EXEC l => EXEC (f <$> l)
  | REDIR c w m d => REDIR (cmd_map f c) (f w) m d
  | PIPE l r => PIPE (cmd_map f l) (cmd_map f r)
  | LIST l r => LIST (cmd_map f l) (cmd_map f r)
  | BACK c => BACK (cmd_map f c)
  end.

Notation tree := (cmd_of (list Z)).

Inductive tok := Sym (c : Z) | Word (w : list Z).

Definition tok_text (t : tok) : list Z := match t with Sym c => [c] | Word w => w end.

(** Every token is followed by a blank. *)
Definition render (ts : list tok) : list Z := concat ((λ t, tok_text t ++ [32]) <$> ts).

(** How tightly the operators bind. *)
Definition lv {W} (t : cmd_of W) : nat :=
  match t with LIST _ _ => 0 | BACK _ => 1 | PIPE _ _ => 2 | EXEC _ | REDIR _ _ _ _ => 3 end.

Definition parens (b : bool) (ts : list tok) : list tok := if b then Sym 40 :: ts ++ [Sym 41] else ts.

Definition redir_sym (d : Z) : Z := if d =? 0 then 60 else 62.

Fixpoint toks (t : tree) : list tok :=
  match t with
  | EXEC l => Word <$> l
  | REDIR c f m d => parens (lv c <? 3)%nat (toks c) ++ [Sym (redir_sym d); Word f]
  | PIPE l r => parens (lv l <? 3)%nat (toks l) ++ Sym 124 :: parens (lv r <? 2)%nat (toks r)
  | LIST l r => parens (lv l <? 1)%nat (toks l) ++ Sym 59 :: toks r
  | BACK c => parens (lv c <? 1)%nat (toks c) ++ [Sym 38]
  end.

Definition wrap (n : nat) (t : tree) : list tok := parens (lv t <? n)%nat (toks t).

(** Words that need no quoting (the shell has none), at most nine arguments,
    and the two kinds of redirection. *)
Definition word_fine (w : list Z) : Prop := w ≠ [] ∧ Forall (λ c, word_char c = true ∧ c ≠ 0) w.
Definition redir_fine (m d : Z) : Prop := m = O_RDONLY ∧ d = 0 ∨ m = Z.lor O_WRONLY O_CREATE ∧ d = 1.

Fixpoint tree_fine (t : tree) : Prop :=
  match t with
  | EXEC l => Forall word_fine l ∧ (length l < MAXARGS)%nat
  | REDIR c f m d => tree_fine c ∧ word_fine f ∧ redir_fine m d
  | PIPE l r | LIST l r => tree_fine l ∧ tree_fine r
  | BACK c => tree_fine c
  end.

Definition tok_fine (t : tok) : Prop := match t with Sym c => c ∈ symbols | Word w => word_fine w end.

Lemma parens_fine b ts : Forall tok_fine ts → Forall tok_fine (parens b ts).
Proof.
  intros F. destruct b; [|done]. constructor; [by apply in_chars_true|]. apply Forall_app_2; [done|]. apply Forall_singleton.
  by apply in_chars_true.
Qed.

Lemma toks_fine t : tree_fine t → Forall tok_fine (toks t).
Proof.
  induction t as [l|c IH f m d|l IHl r IHr|l IHl r IHr|c IH]; cbn [tree_fine toks].
  - intros [F _]. by apply Forall_fmap.
  - intros (Hc & Hf & Hm). apply Forall_app_2; [by apply parens_fine, IH|]. constructor; [|by apply Forall_singleton].
    apply in_chars_true. unfold redir_sym. by destruct (d =? 0).
  - intros [Hl Hr]. apply Forall_app_2; [by apply parens_fine, IHl|]. constructor; [by apply in_chars_true|by apply parens_fine, IHr].
  - intros [Hl Hr]. apply Forall_app_2; [by apply parens_fine, IHl|]. constructor; [by apply in_chars_true|by apply IHr].
  - intros Hc. apply Forall_app_2; [by apply parens_fine, IH|]. apply Forall_singleton. by apply in_chars_true.
Qed.

Lemma word_char_space c : word_char c = true → in_chars whitespace c = false ∧ in_chars symbols c = false.
Proof. intros [H1%negb_true_iff H2%negb_true_iff]%andb_true_iff. done. Qed.

Lemma symbol_space c : c ∈ symbols → in_chars whitespace c = false ∧ c ≠ 0 ∧ in_chars symbols c = true.
Proof.
  intros H. split; [|split; [by intros ->; apply in_chars_true in H|by apply in_chars_true]].
  apply not_true_iff_false. rewrite in_chars_true. intros Hw. unfold symbols, whitespace in *. set_solver by lia.
Qed.

Section print.
Context (buf : list Z).

(** The tokens [ts] are what is left of the line at position [i]. *)
Definition here (i : nat) (ts : list tok) : Prop := (i ≤ length buf)%nat ∧ drop i buf = render ts ∧ Forall tok_fine ts.

Lemma here_nil i : here i [] → i = length buf.
Proof.
  intros (Hi & E & _). apply (f_equal length) in E. rewrite length_drop in E. cbn in E. lia.
Qed.

Lemma here_char i t ts : here i (t :: ts) → ∃ c l, tok_text t = c :: l ∧ char_at buf i = c ∧ c ≠ 0 ∧ in_chars whitespace c = false ∧ (i < length buf)%nat.
Proof.
  intros (Hi & E & F). inversion F as [|? ? Ft _]; subst.
  assert (∃ c l, tok_text t = c :: l ∧ c ≠ 0 ∧ in_chars whitespace c = false) as (c & l & Et & Hc & Hw).
  { destruct t as [c|w]; cbn in *.
    - destruct (symbol_space c Ft) as (? & ? & _). by exists c, [].
    - destruct Ft as [Hne Fw]. destruct w as [|c w]; [done|]. inversion Fw as [|? ? [Hc H0] _]; subst.
      apply word_char_space in Hc as [? _]. by exists c, w. }
  exists c, l. assert (i < length buf)%nat as Hlt.
  { apply (f_equal length) in E. rewrite length_drop in E. cbn in E. rewrite !length_app, Et in E. cbn in E. lia. }
  split_and!; try done. unfold render in E. cbn in E. rewrite Et in E. rewrite (drop_S _ _ _ (char_at_some buf i Hlt)) in E. by injection E.
Qed.

Lemma here_skip i ts : here i ts → skip_ws buf i = i.
Proof.
  intros H. unfold skip_ws. rewrite lead_zero; [lia|]. intros c Hc. destruct ts as [|t ts].
  - apply here_nil in H. subst i. by rewrite drop_ge in Hc.
  - apply here_char in H as (c' & l & _ & Ec & _ & Hw & Hlt). rewrite (drop_S _ _ _ (char_at_some buf i Hlt)) in Hc.
    injection Hc as <-. by rewrite Ec.
Qed.

(** The symbol that comes next, if a symbol does. *)
Definition next_sym (ts : list tok) : option Z := match ts with Sym c :: _ => Some c | _ => None end.

Definition sees (l : list Z) (ts : list tok) : bool := match next_sym ts with Some c => in_chars l c | None => false end.

Lemma peek_here l i ts Q : l ⊆ symbols → here i ts → Q (sees l ts) i → wp (peek buf l) Q i.
Proof.
  intros Hl H HQ. unfold peek. apply wp_bind, wp_get. rewrite (here_skip _ _ H). apply wp_bind, wp_put, wp_ret.
  replace (negb _ && _) with (sees l ts); [done|]. unfold sees, next_sym. destruct ts as [|t ts].
  - apply here_nil in H. subst i. unfold char_at. by rewrite nth_overflow.
  - pose proof H as (_ & _ & F). apply here_char in H as (c & w & Et & -> & Hc & _). rewrite (proj2 (Z.eqb_neq _ _)) by done. cbn [negb andb].
    destruct t as [c'|w']; cbn in Et; [by injection Et as ->|]. apply Forall_cons in F as [[_ Fw] _]. subst w'.
    inversion Fw as [|? ? [Hw _] _]; subst. apply word_char_space in Hw as [_ Hw]. symmetry. apply not_true_iff_false in Hw.
    apply not_true_iff_false. rewrite in_chars_true in *. set_solver.
Qed.

Definition code (t : tok) : Z := match t with Sym c => c | Word _ => 97 end.

Lemma here_next i t ts : here i (t :: ts) → here (i + length (tok_text t) + 1) ts ∧ take (length (tok_text t)) (drop i buf) = tok_text t.
Proof.
  intros (Hi & E & F). unfold render in E. cbn in E. rewrite <- app_assoc in E. cbn in E. split.
  - split_and!.
    + apply (f_equal length) in E. rewrite length_drop, length_app in E. cbn in E. lia.
    + rewrite <- Nat.add_assoc, <- drop_drop, E. rewrite drop_app_ge by lia.
      by replace (length (tok_text t) + 1 - length (tok_text t))%nat with 1%nat by lia.
    + by inversion F.
  - rewrite E. by rewrite take_app_length.
Qed.

Lemma here_blank i t ts : here i (t :: ts) → let e := (i + length (tok_text t))%nat in
  drop i buf = tok_text t ++ 32 :: render ts ∧ skip_ws buf e = (e + 1)%nat.
Proof.
  intros H e. pose proof (here_next _ _ _ H) as [Hn _]. pose proof H as (Hi & E & F). unfold render in E. cbn in E. rewrite <- app_assoc in E.
  split; [done|]. unfold skip_ws, e. rewrite <- drop_drop, E, drop_app_length. cbn. apply here_skip in Hn.
  unfold skip_ws in Hn. rewrite <- !drop_drop, E, drop_app_length in Hn. cbn in Hn. fold (render ts) in Hn |- *. rewrite drop_0 in Hn. lia.
Qed.

Lemma gettoken_here i t ts Q :
  here i (t :: ts) → (∀ w j, text buf w = tok_text t → here j ts → (i < j)%nat → Q (code t, w) j) → wp (gettoken buf) Q i.
Proof.
  intros H HQ. pose proof (here_next _ _ _ H) as [Hn Ht]. pose proof (here_blank _ _ _ H) as [Ed Es]. pose proof H as (_ & _ & F).
  apply Forall_cons in F as [F _]. pose proof (here_char _ _ _ H) as (c & l & Ec & Ech & Hc & Hw & Hlt).
  assert (token buf i = (code t, (i, (i + length (tok_text t))%nat), (i + length (tok_text t) + 1)%nat)) as Etok.
  { unfold token. rewrite (here_skip _ _ H), Ech, (proj2 (Z.eqb_neq _ _)) by done. destruct t as [c'|w]; cbn in Ec, F, Es |- *.
    - injection Ec as -> <-. replace (i + 1)%nat with (S i) in Es by lia.
      assert (char_at buf (S i) = 32) as E2.
      { replace (S i) with (i + 1)%nat by lia. rewrite <- char_at_drop, Ed. done. }
      rewrite E2. unfold symbols in F. destruct (in_chars [124; 40; 41; 59; 38; 60] c) eqn:Ei; cbn [fst snd].
      + rewrite Es. f_equal; [f_equal; f_equal; lia|lia].
      + assert (c = 62) as -> by (apply not_true_iff_false in Ei; rewrite in_chars_true in Ei; set_solver).
        change (62 =? 62) with true. change (32 =? 62) with false. cbn [fst snd]. rewrite Es.
        f_equal; [f_equal; f_equal; lia|lia].
    - destruct F as [_ Fw]. rewrite Ec in Fw. inversion Fw as [|? ? [Hwc _] _]; subst.
      destruct (word_char_space _ Hwc) as [_ Hsy]. apply not_true_iff_false in Hsy. rewrite in_chars_true in Hsy.
      destruct (in_chars [124; 40; 41; 59; 38; 60] (char_at buf i)) eqn:Ei.
      { apply in_chars_true in Ei. exfalso. apply Hsy. unfold symbols. set_solver. }
      rewrite (proj2 (Z.eqb_neq _ 62)) by (intros E; apply Hsy; rewrite E; unfold symbols; set_solver). cbn [fst snd].
      assert (lead word_char (drop i buf) = length (char_at buf i :: l)) as ->.
      { rewrite Ed. cbn [tok_text]. rewrite lead_app; [cbn; lia|]. eapply Forall_impl; [exact Fw|]. by intros x [? _]. }
      by rewrite Es. }
  unfold gettoken. apply wp_bind, wp_get. rewrite Etok. apply wp_bind, wp_put, wp_ret. apply HQ; [|done|rewrite Ec; cbn; lia].
  unfold text. cbn [fst snd]. by replace (i + length (tok_text t) - i)%nat with (length (tok_text t)) by lia.
Qed.

(** ** Parsing back *)

Notation view := (cmd_map (text buf)).

(** A chain of redirections: file, mode and descriptor. *)
Definition rtoks (rs : list (list Z * Z * Z)) : list tok := concat ((λ r, [Sym (redir_sym r.2); Word r.1.1]) <$> rs).
Definition redirs (c : tree) (rs : list (list Z * Z * Z)) : tree := foldl (λ c r, REDIR c r.1.1 r.1.2 r.2) c rs.
Definition redirs_fine (rs : list (list Z * Z * Z)) : Prop := Forall (λ r, redir_fine r.1.2 r.2) rs.

Lemma view_redir c r w : redir_fine r.1.2 r.2 → text buf w = r.1.1 → view (redir c (redir_sym r.2) w) = REDIR (view c) r.1.1 r.1.2 r.2.
Proof. destruct r as [[f m] d]. cbn. intros [[-> ->]|[-> ->]] <-; done. Qed.

Lemma parseredirs_here fuel c i rs ts Q :
  here i (rtoks rs ++ ts) → redirs_fine rs → sees [60; 62] ts = false → (length buf - i ≤ fuel)%nat →
  (∀ c' j, view c' = redirs (view c) rs → here j ts → (i ≤ j)%nat → Q c' j) → wp (parseredirs buf fuel c) Q i.
Proof.
  revert c i fuel. induction rs as [|r rs IH]; intros c i fuel H Hrs Hs Hf HQ.
  - destruct fuel; cbn [parseredirs]; apply wp_bind; (eapply peek_here; [set_solver|exact H|]); cbn [rtoks app fmap list_fmap concat];
      rewrite Hs; apply wp_ret; by apply HQ.
  - pose proof (here_char _ _ _ H) as (_ & _ & _ & _ & _ & _ & Hlt). destruct fuel as [|fuel]; [lia|].
    apply Forall_cons in Hrs as [Hr Hrs]. cbn [parseredirs]. apply wp_bind. eapply peek_here; [set_solver|exact H|].
    assert (sees [60; 62] (rtoks (r :: rs) ++ ts) = true) as -> by (unfold sees, redir_sym; cbn; unfold redir_sym; by destruct (r.2 =? 0)).
    cbn [negb]. apply wp_bind. eapply gettoken_here; [exact H|]. intros w j _ H1 Hj. apply wp_bind. eapply gettoken_here; [exact H1|].
    intros w2 j2 Ew H2 Hj2. cbn [code fst snd Z.eqb negb]. apply (IH _ j2); [done|done|done|lia|]. intros c' j' Ec Hj' Hle.
    apply HQ; [|done|lia]. rewrite Ec. unfold redirs. cbn. by rewrite view_redir.
Qed.

Lemma view_add_arg c w : view (add_arg c w) = add_arg (view c) (text buf w).
Proof. induction c as [l|c IH f m d| | |]; cbn; try done; [by rewrite fmap_app|by rewrite IH]. Qed.

(** The arguments of a command end here. *)
Definition ends_args (ts : list tok) : Prop := ts = [] ∨ sees [124; 41; 38; 59] ts = true.

Lemma ends_args_redir ts : ends_args ts → sees [60; 62] ts = false.
Proof.
  intros [->|H]; [done|]. unfold sees in *. destruct (next_sym ts) as [c|]; [|done]. apply in_chars_true in H. apply not_true_iff_false.
  rewrite in_chars_true. set_solver by lia.
Qed.

Lemma parseargs_end fuel argc ret i ts Q :
  here i ts → ends_args ts → (0 < fuel)%nat → (∀ j, here j ts → (i ≤ j)%nat → Q ret j) → wp (parseargs buf fuel argc ret) Q i.
Proof.
  intros H He Hf HQ. destruct fuel as [|fuel]; [lia|]. cbn [parseargs]. apply wp_bind. eapply peek_here; [set_solver|exact H|].
  destruct He as [->|He]; [|rewrite He; by apply wp_ret, HQ]. cbn. apply wp_bind. unfold gettoken. apply wp_bind, wp_get.
  pose proof (here_nil _ H) as ->. assert (token buf (length buf) = (0, (length buf, length buf), length buf)) as ->.
  { unfold token. rewrite (here_skip _ _ H). assert (char_at buf (length buf) = 0) as -> by by apply nth_overflow.
    change (0 =? 0) with true. cbn [fst snd]. by rewrite (here_skip _ _ H). }
  apply wp_bind, wp_put, wp_ret. cbn. by apply wp_ret, HQ.
Qed.

Lemma parseargs_here fuel done ret i args rs ts Q :
  here i ((Word <$> args) ++ rtoks rs ++ ts) → args ≠ [] → redirs_fine rs → ends_args ts →
  view ret = EXEC done → (length done + length args < MAXARGS)%nat → (length buf - i < fuel)%nat →
  (∀ c j, view c = redirs (EXEC (done ++ args)) rs → here j ts → (i ≤ j)%nat → Q c j) →
  wp (parseargs buf fuel (length done) ret) Q i.
Proof.
  revert fuel done ret i. induction args as [|a args IH]; intros fuel dn ret i H Hne Hrs He Er Hn Hf HQ; [done|].
  destruct fuel as [|fuel]; [lia|]. cbn [parseargs]. apply wp_bind. eapply peek_here; [set_solver|exact H|]. cbn [sees next_sym fmap list_fmap app].
  apply wp_bind. eapply gettoken_here; [exact H|]. intros w j Ew H1 Hj. cbn [code fst snd Z.eqb negb].
  rewrite (proj2 (Nat.leb_gt _ _)) by (cbn in Hn; lia). apply wp_bind.
  assert (view (add_arg ret w) = EXEC (dn ++ [a])) as Ea by (rewrite view_add_arg, Er, Ew; done).
  pose proof (proj1 H1) as Hj1. destruct args as [|a' args].
  - eapply parseredirs_here; [exact H1|done|by apply ends_args_redir|lia|]. intros c' j' Ec H2 Hle.
    eapply parseargs_end; [done|done|lia|]. intros j2 H3 Hle2. apply HQ; [by rewrite Ec, Ea|done|lia].
  - eapply (parseredirs_here _ _ _ []); [exact H1|constructor|done|lia|]. intros c' j' Ec H2 Hle.
    replace (S (length dn)) with (length (dn ++ [a])) by (rewrite length_app; cbn; lia).
    apply (IH fuel (dn ++ [a]) c' j'); [done|done|done|done|by rewrite Ec, Ea|rewrite length_app; cbn in *; lia|lia|].
    intros c j2 Ec2 H3 Hle2. apply HQ; [|done|lia]. by rewrite Ec2, <- app_assoc.
Qed.

(** A command at the bottom of its redirections. *)
Fixpoint spine (t : tree) : tree * list (list Z * Z * Z) :=
  match t with
  | REDIR c f m d => ((spine c).1, (spine c).2 ++ [(f, m, d)])
  | _ => (t, [])
  end.

(** A command under its ['&']s. *)
Fixpoint backs (t : tree) : tree * nat :=
  match t with BACK c => ((backs c).1, S (backs c).2) | _ => (t, 0%nat) end.

Fixpoint tree_size (t : tree) : nat :=
  match t with
  | EXEC _ => 0
  | REDIR c _ _ _ | BACK c => S (tree_size c)
  | PIPE l r | LIST l r => S (tree_size l + tree_size r)
  end.

Lemma rtoks_app rs rs' : rtoks (rs ++ rs') = rtoks rs ++ rtoks rs'.
Proof. unfold rtoks. by rewrite fmap_app, concat_app. Qed.

Lemma spine_spec t :
  wrap 3 t = wrap 3 (spine t).1 ++ rtoks (spine t).2 ∧ redirs (spine t).1 (spine t).2 = t ∧
  (tree_fine t → tree_fine (spine t).1 ∧ redirs_fine (spine t).2) ∧ (tree_size (spine t).1 ≤ tree_size t)%nat ∧
  (lv t = 3%nat → (lv (spine t).1 < 3)%nat → (tree_size (spine t).1 < tree_size t)%nat) ∧
  ((∃ l, (spine t).1 = EXEC l) ∨ (lv (spine t).1 < 3)%nat).
Proof.
  induction t as [l|c IH f m d|l IHl r IHr|l IHl r IHr|c IH]; cbn [spine fst snd];
    try (rewrite app_nil_r; split_and!; try done; [intros; split; [done|constructor]|right; cbn; lia]).
  - rewrite app_nil_r. split_and!; try done; [intros; split; [done|constructor]|cbn; lia|left; by eexists].
  - destruct IH as (E & Er & F & Hs & Hs' & Hl). unfold wrap at 1. cbn [lv toks]. change (3 <? 3)%nat with false. cbn [parens].
    change (parens (lv c <? 3)%nat (toks c)) with (wrap 3 c). rewrite E, rtoks_app, app_assoc. split; [done|].
    split; [unfold redirs in *; rewrite foldl_app, Er; done|]. split; [|split; [cbn; lia|split; [cbn; lia|done]]].
    cbn. intros (Hc & _ & Hm). destruct (F Hc) as [? ?]. split; [done|]. apply Forall_app_2; [done|]. by apply Forall_singleton.
Qed.

Lemma backs_spec t :
  wrap 1 t = wrap 2 (backs t).1 ++ replicate (backs t).2 (Sym 38) ∧ Nat.iter (backs t).2 BACK (backs t).1 = t ∧
  (tree_fine t → tree_fine (backs t).1) ∧ (tree_size (backs t).1 ≤ tree_size t)%nat ∧ (lv t = 1%nat → (tree_size (backs t).1 < tree_size t)%nat).
Proof.
  induction t as [l|c IH f m d|l IHl r IHr|l IHl r IHr|c IH]; cbn [backs fst snd];
    try (rewrite app_nil_r; split_and!; done).
  destruct IH as (E & Er & F & Hs & Hs'). unfold wrap at 1. cbn [lv toks]. change (1 <? 1)%nat with false. cbn [parens].
  change (parens (lv c <? 1)%nat (toks c)) with (wrap 1 c). rewrite E, <- app_assoc. cbn [replicate]. rewrite replicate_cons_app.
  split; [done|]. split; [by rewrite Nat.iter_succ, Er|]. split; [done|]. cbn. lia.
Qed.

Lemma parsebacks_here fuel c i k ts Q :
  here i (replicate k (Sym 38) ++ ts) → sees [38] ts = false → (length buf - i ≤ fuel)%nat →
  (∀ c' j, view c' = Nat.iter k BACK (view c) → here j ts → (i ≤ j)%nat → Q c' j) → wp (parsebacks buf fuel c) Q i.
Proof.
  revert c i fuel. induction k as [|k IH]; intros c i fuel H Hs Hf HQ.
  - destruct fuel; cbn [parsebacks]; apply wp_bind; (eapply peek_here; [set_solver|exact H|]); cbn [replicate app];
      rewrite Hs; apply wp_ret; by apply HQ.
  - pose proof (here_char _ _ _ H) as (_ & _ & _ & _ & _ & _ & Hlt). destruct fuel as [|fuel]; [lia|].
    cbn [parsebacks]. apply wp_bind. eapply peek_here; [set_solver|exact H|]. cbn [sees next_sym replicate app].
    change (negb (in_chars [38] 38)) with false. cbn iota. apply wp_bind. eapply gettoken_here; [exact H|]. intros w j _ H1 Hj.
    apply (IH _ j); [done|done|lia|]. intros c' j' Ec H2 Hle. apply HQ; [|done|lia]. by rewrite Ec, Nat.iter_succ_r.
Qed.

(** The tokens that may follow a command on each level. *)
Definition follows (l : list Z) (ts : list tok) : Prop := ts = [] ∨ sees l ts = true.

Lemma follows_not l l' ts : follows l ts → (∀ c, c ∈ l → c ∉ l') → sees l' ts = false.
Proof.
  intros [->|H] Hd; [done|]. unfold sees in *. destruct (next_sym ts) as [c|]; [|done]. apply in_chars_true in H.
  apply not_true_iff_false. rewrite in_chars_true. by apply Hd.
Qed.

Lemma follows_weaken l l' ts : follows l ts → l ⊆ l' → follows l' ts.
Proof.
  intros [->|H] Hd; [by left|right]. unfold sees in *. destruct (next_sym ts) as [c|]; [|done]. apply in_chars_true in H.
  apply in_chars_true. by apply Hd.
Qed.

(** The tree is parsed back on each of the three levels. *)
Definition back_with (t : tree) (ts : list tok) (i : nat) (Q : cmd → nat → Prop) : Prop :=
  ∀ c j, view c = t → here j ts → (i ≤ j)%nat → Q c j.
Definition exec_back (t : tree) : Prop := ∀ fuel i ts Q,
  here i (wrap 3 t ++ ts) → tree_fine t → ends_args ts → (4 * (length buf - i) + 2 ≤ fuel)%nat → back_with t ts i Q →
  wp (parseexec buf fuel) Q i.
Definition pipe_back (t : tree) : Prop := ∀ fuel i ts Q,
  here i (wrap 2 t ++ ts) → tree_fine t → follows [41; 38; 59] ts → (4 * (length buf - i) + 3 ≤ fuel)%nat → back_with t ts i Q →
  wp (parsepipe buf fuel) Q i.
Definition line_back (t : tree) : Prop := ∀ fuel i ts Q,
  here i (toks t ++ ts) → tree_fine t → follows [41] ts → (4 * (length buf - i) + 4 ≤ fuel)%nat → back_with t ts i Q →
  wp (parseline buf fuel) Q i.

(** A command in parentheses, with redirections. *)
Lemma block_here u rs fuel i ts Q :
  line_back u → tree_fine u → redirs_fine rs → here i (Sym 40 :: toks u ++ Sym 41 :: rtoks rs ++ ts) → ends_args ts →
  (4 * (length buf - i) + 2 ≤ fuel)%nat → back_with (redirs u rs) ts i Q → wp (parseexec buf fuel) Q i.
Proof.
  intros L Hu Hrs H He Hf HQ. destruct fuel as [|[|fuel]]; [lia..|]. cbn [parseexec]. apply wp_bind.
  eapply peek_here; [set_solver|exact H|]. change (sees _ _) with true. cbn iota. cbn [parseblock]. apply wp_bind.
  eapply peek_here; [set_solver|exact H|]. change (negb (sees _ _)) with false. cbn iota. apply wp_bind.
  pose proof (proj1 H) as Hle. eapply gettoken_here; [exact H|]. intros w j _ H1 Hj. pose proof (proj1 H1) as Hle1. apply wp_bind.
  eapply (L fuel j (Sym 41 :: rtoks rs ++ ts)); [done|done|by right|lia|]. intros c j2 Ec H2 Hj2. apply wp_bind.
  eapply peek_here; [set_solver|exact H2|]. change (negb (sees _ _)) with false. cbn iota. apply wp_bind.
  eapply gettoken_here; [exact H2|]. intros w3 j3 _ H3 Hj3. eapply parseredirs_here; [exact H3|done|by apply ends_args_redir|lia|].
  intros c' j4 Ec' H4 Hj4. apply HQ; [by rewrite Ec', Ec|done|lia].
Qed.

(** A simple command. *)
Lemma simple_here args rs fuel i ts Q :
  Forall word_fine args ∧ (length args < MAXARGS)%nat → redirs_fine rs → here i ((Word <$> args) ++ rtoks rs ++ ts) → ends_args ts →
  (0 < fuel)%nat → back_with (redirs (EXEC args) rs) ts i Q → wp (parseexec buf fuel) Q i.
Proof.
  intros [_ Ha] Hrs H He Hf HQ. destruct fuel as [|fuel]; [lia|]. cbn [parseexec]. apply wp_bind. eapply peek_here; [set_solver|exact H|].
  assert (sees [40] ((Word <$> args) ++ rtoks rs ++ ts) = false) as ->.
  { destruct args; [|done]. destruct rs as [|r rs]; [|unfold sees, rtoks, redir_sym; cbn; unfold redir_sym; by destruct (r.2 =? 0)].
    eapply (follows_not [124; 41; 38; 59]); [exact He|]. intros c. set_solver by lia. }
  apply wp_bind. destruct args as [|a args].
  - eapply parseredirs_here; [exact H|done|by apply ends_args_redir|lia|]. intros c j Ec H1 Hj.
    eapply parseargs_end; [done|done|lia|]. intros j2 H2 Hj2. apply HQ; [by rewrite Ec|done|lia].
  - eapply (parseredirs_here _ _ _ []); [exact H|constructor|done|lia|]. intros c j Ec H1 Hj.
    eapply (parseargs_here _ []); [exact H1|done|done|done|by rewrite Ec|done|lia|]. intros c' j2 Ec' H2 Hj2. apply HQ; [done|done|lia].
Qed.

Lemma exec_level t : lv t = 3%nat → (∀ u, (tree_size u < tree_size t)%nat → line_back u) → exec_back t.
Proof.
  intros Hl IH fuel i ts Q H Ft He Hf HQ. destruct (spine_spec t) as (E & Er & F & _ & Hs & Hc). destruct (F Ft) as [Fu Frs].
  rewrite E, <- app_assoc in H. destruct Hc as [[l El]|Hlt].
  - rewrite El in *. eapply (simple_here l (spine t).2); [exact Fu|done|exact H|done|lia|]. by rewrite Er.
  - unfold wrap in H. rewrite (proj2 (Nat.ltb_lt _ _)) in H by done. cbn [parens] in H. rewrite <- !app_comm_cons, <- app_assoc in H.
    eapply (block_here (spine t).1 (spine t).2); [by apply IH, Hs|done|done|exact H|done|done|]. by rewrite Er.
Qed.

Lemma wrap_same n n' t : ((lv t <? n) = (lv t <? n'))%nat → wrap n t = wrap n' t.
Proof. unfold wrap. by intros ->. Qed.

(** A command that is no pipe. *)
Lemma pipe_of_exec t : lv t ≠ 2%nat → exec_back t → pipe_back t.
Proof.
  intros Hl E fuel i ts Q H Ft He Hf HQ. destruct fuel as [|fuel]; [lia|]. cbn [parsepipe]. apply wp_bind.
  rewrite (wrap_same 2 3) in H by (destruct t; cbn in *; done).
  eapply E; [exact H|done|eapply follows_weaken; [exact He|set_solver]|lia|]. intros c j Ec H1 Hj. apply wp_bind.
  eapply peek_here; [set_solver|exact H1|]. rewrite (follows_not [41; 38; 59]) by (done || (intros c'; set_solver by lia)).
  by apply wp_ret, HQ.
Qed.

Lemma pipe_level l r : exec_back l → pipe_back r → pipe_back (PIPE l r).
Proof.
  intros E P fuel i ts Q H [Fl Fr] He Hf HQ. destruct fuel as [|fuel]; [lia|]. cbn [parsepipe]. apply wp_bind.
  unfold wrap in H. cbn [lv toks] in H. change (2 <? 2)%nat with false in H. cbn [parens] in H. rewrite <- app_assoc in H.
  eapply E; [exact H|done|by right|lia|]. intros c j Ec H1 Hj. apply wp_bind. eapply peek_here; [set_solver|exact H1|].
  change (sees _ _) with true. cbn iota. apply wp_bind. pose proof (proj1 H1) as Hle. eapply gettoken_here; [exact H1|]. intros w j2 _ H2 Hj2.
  pose proof (proj1 H2) as Hle2. apply wp_bind. eapply P; [exact H2|done|done|lia|]. intros c' j3 Ec' H3 Hj3. apply wp_ret, HQ; [|done|lia].
  cbn. by rewrite Ec, Ec'.
Qed.

(** A pipe and its ['&']s. *)
Lemma backs_here t fuel i ts Q :
  pipe_back (backs t).1 → here i (wrap 1 t ++ ts) → tree_fine t → follows [41; 59] ts → (4 * (length buf - i) + 3 ≤ fuel)%nat →
  back_with t ts i Q → wp (c ← parsepipe buf fuel; parsebacks buf (length buf) c) Q i.
Proof.
  intros P H Ft He Hf HQ. destruct (backs_spec t) as (E & Er & F & _). rewrite E, <- app_assoc in H. apply wp_bind.
  eapply P; [exact H|by apply F| |done|].
  - destruct ((backs t).2); [eapply follows_weaken; [exact He|set_solver]|by right].
  - intros c j Ec H1 Hj. eapply parsebacks_here; [exact H1| |lia|].
    + eapply follows_not; [exact He|]. intros c'. set_solver by lia.
    + intros c' j2 Ec' H2 Hj2. apply HQ; [|done|lia]. by rewrite Ec', Ec, Er.
Qed.

(** The last command of a line. *)
Lemma line_last t : lv t ≠ 0%nat → pipe_back (backs t).1 → line_back t.
Proof.
  intros Hl P fuel i ts Q H Ft He Hf HQ. destruct fuel as [|fuel]; [lia|]. cbn [parseline]. apply wp_bind_assoc, wp_bind.
  eapply (backs_here t); [done| |done|eapply follows_weaken; [exact He|set_solver]|lia|].
  - unfold wrap. rewrite (proj2 (Nat.ltb_ge _ _)) by lia. exact H.
  - intros c j Ec H1 Hj. apply wp_bind. eapply peek_here; [set_solver|exact H1|].
    rewrite (follows_not [41]) by (done || (intros c'; set_solver by lia)). by apply wp_ret, HQ.
Qed.

Lemma line_list l r : pipe_back (backs l).1 → line_back r → line_back (LIST l r).
Proof.
  intros P L fuel i ts Q H [Fl Fr] He Hf HQ. destruct fuel as [|fuel]; [lia|]. cbn [parseline]. apply wp_bind_assoc, wp_bind.
  cbn [toks] in H. rewrite <- app_assoc in H. eapply (backs_here l); [done|exact H|done|by right|lia|].
  intros c j Ec H1 Hj. apply wp_bind. eapply peek_here; [set_solver|exact H1|]. change (sees _ _) with true. cbn iota. apply wp_bind.
  pose proof (proj1 H1) as Hle. eapply gettoken_here; [exact H1|]. intros w j2 _ H2 Hj2. pose proof (proj1 H2) as Hle2. apply wp_bind.
  eapply L; [exact H2|done|done|lia|]. intros c' j3 Ec' H3 Hj3. apply wp_ret, HQ; [|done|lia]. cbn. by rewrite Ec, Ec'.
Qed.

Lemma exec_of_line t : (lv t < 3)%nat → line_back t → exec_back t.
Proof.
  intros Hl L fuel i ts Q H Ft He Hf HQ. unfold wrap in H. rewrite (proj2 (Nat.ltb_lt _ _)) in H by done. cbn [parens] in H.
  rewrite <- !app_comm_cons, <- app_assoc in H. by eapply (block_here t []); [|done|constructor|exact H|..].
Qed.

Lemma all_back t : exec_back t ∧ pipe_back t ∧ line_back t.
Proof.
  induction t as [t IH] using (induction_ltof1 _ tree_size). unfold ltof in IH.
  assert (∀ u, (tree_size u < tree_size t)%nat → line_back u) as IHl by (intros u Hu; by apply IH).
  assert (lv t = 3%nat → exec_back t) as E3 by (intros; by apply exec_level).
  assert (2 ≤ lv t → pipe_back t)%nat as P2.
  { intros Hl. destruct (decide (lv t = 2%nat)) as [E|E].
    - destruct t; try done. apply pipe_level; apply IH; cbn; lia.
    - apply pipe_of_exec; [done|]. apply E3. destruct t; cbn in *; lia. }
  assert (line_back t) as L.
  { destruct (decide (lv t = 0%nat)) as [E|E].
    - destruct t as [| | |l r|]; try done. apply line_list; [|apply IHl; cbn; lia]. destruct (backs_spec l) as (_ & _ & _ & Hs & _).
      apply IH. cbn. lia.
    - apply line_last; [done|]. destruct (decide (lv t = 1%nat)) as [E1|E1].
      + apply IH. by apply (backs_spec t).
      + destruct t; cbn in *; try done; apply P2; lia. }
  assert (exec_back t) as Ex.
  { destruct (decide (lv t = 3%nat)) as [E|E]; [auto|]. apply exec_of_line; [destruct t; cbn in *; lia|done]. }
  split; [done|]. split; [|done]. destruct (decide (lv t = 2%nat)) as [E|E]; [apply P2; lia|by apply pipe_of_exec].
Qed.
End print.

Lemma cmd_map_ext {W} (f g : word → W) c : (∀ w, w ∈ words c → f w = g w) → cmd_map f c = cmd_map g c.
Proof.
  induction c as [l|c IH w m d|l IHl r IHr|l IHl r IHr|c IH]; cbn; intros Hw.
  - f_equal. apply list_fmap_ext. intros i w Hi. apply Hw. by eapply list_elem_of_lookup_2.
  - rewrite IH, Hw by set_solver. done.
  - rewrite IHl, IHr by set_solver. done.
  - rewrite IHl, IHr by set_solver. done.
  - by rewrite IH.
Qed.

Lemma render_nonzero ts : Forall tok_fine ts → 0 ∉ render ts.
Proof.
  induction 1 as [|t ts F _ IH]; [apply not_elem_of_nil|]. unfold render. cbn. rewrite !not_elem_of_app. split_and!; [|set_solver by lia|done].
  destruct t as [c|w]; cbn in *.
  - destruct (symbol_space c F) as (_ & ? & _). set_solver.
  - destruct F as [_ F]. intros Hin. eapply Forall_forall in F as [_ F]; [|exact Hin]. done.
Qed.

(** C31. The shell parses back what is written out.  Any command - pipes,
    lists, background commands, redirections and simple commands nested to
    any depth, with parentheses only where the grammar needs them, at most
    nine words to a simple command and words of ordinary characters - is
    parsed to the same command, and after [nulterminate] its words are the
    C strings that were written. *)
Theorem parse_print t s0 :
  tree_fine t → wp (parsecmd (render (toks t))) (λ r _, cmd_map (λ w, cstring r.2 w.1) r.1 = t) s0.
Proof.
  intros Ft. set (buf := render (toks t)). assert (0 ∉ buf) as H0 by by apply render_nonzero, toks_fine.
  assert (here buf 0 (toks t ++ [])) as H. { rewrite app_nil_r. split_and!; [lia|done|by apply toks_fine]. }
  assert (wp (parsecmd buf) (λ r _, cmd_map (text buf) r.1 = t) s0) as W.
  { unfold parsecmd. apply wp_bind, wp_put, wp_bind. eapply (all_back buf t); [exact H|done|by left|lia|]. intros c j Ec H1 _.
    apply wp_bind. eapply peek_here; [set_solver|exact H1|]. apply wp_bind, wp_get. apply here_nil in H1. rewrite H1, Nat.eqb_refl.
    by apply wp_ret. }
  pose proof (parsecmd_safe buf H0 s0) as Sf. unfold wp, safe in *. destruct (parsecmd buf s0) as [[c b] s'| | | |]; try done.
  cbn [fst snd] in *. destruct Sf as [Hc ->]. etrans; [|exact W].
  apply cmd_map_ext. intros w Hw. by apply nulterminate_string.
Qed.

(** ["(a;b&)|c<d"] *)
Lemma parse_print_witness :
  wp (parsecmd [40; 32; 97; 32; 59; 32; 98; 32; 38; 32; 41; 32; 124; 32; 99; 32; 60; 32; 100; 32])
    (λ r _, cmd_map (λ w, cstring r.2 w.1) r.1 =
      PIPE (LIST (EXEC [[97]]) (BACK (EXEC [[98]]))) (REDIR (EXEC [[99]]) [100] O_RDONLY 0)) 0%nat.
Proof.
  apply (parse_print (PIPE (LIST (EXEC [[97]]) (BACK (EXEC [[98]]))) (REDIR (EXEC [[99]]) [100] O_RDONLY 0)) 0%nat).
  assert (∀ c, word_char c = true → c ≠ 0 → word_fine [c]) as Hw by (intros c ? ?; split; [done|by apply Forall_singleton]).
  cbn. unfold MAXARGS. split_and!; first [lia|by left|by apply Hw|apply Forall_singleton; by apply Hw].
Defined.
