(* ===== verification/ShRun.v ===== *)
(** Running a parsed command (sh.c, [runcmd]): the processes the shell
    starts, their descriptors, and who waits for whom.

    [runcmd] gives what the process that calls it does from there on, a
    [shproc]: the programs it becomes, the children it forks, the calls of
    [wait], each with the table of descriptors at that moment.  [run] lets
    such processes go on side by side, in any order.  A program that reads
    from a pipe is only sure to end when no process holds the other end any
    more, which is what the calls of [close] in [runcmd] are for. *)

From Stdlib Require Import String.
From S2P Require Import Prelude Ulib Sh ShSpec ShPrint.

(** What a descriptor refers to. *)
Inductive obj := Dev | File (name : list Z) (mode : Z) | PipeR (n : nat) | PipeW (n : nat).

#[global] Instance obj_eq_dec : EqDecision obj.
Proof. solve_decision. Defined.

Notation fdtab := (list (option obj)).

(** What a process does: it becomes a program, forks, waits for a child,
    prints a message on descriptor 2, and has exited; a process that was
    waited for is gone. *)
Inductive shproc :=
  | PExec (argv : list (list Z)) (t : fdtab)
  | PFork (t : fdtab) (child parent : shproc)
  | PWait (t : fdtab) (next : shproc)
  | PPrint (t : fdtab) (fmt : string) (arg : list Z) (next : shproc)
  | PExit
  | PGone.

#[global] Instance shproc_eq_dec : EqDecision shproc.
Proof. solve_decision. Defined.

(** The numbers of pipes and forks made. *)
Record world := World { w_pipes : nat; w_forks : nat }.

(** ** System calls on the table *)

Definition fd_close (fd : nat) (t : fdtab) : fdtab := <[fd := None]> t.

(** The lowest free descriptor. *)
Fixpoint fd_free (t : fdtab) : option nat :=
  match t with
  | [] => None
  | None :: _ => Some 0%nat
  | Some _ :: t' => match fd_free t' with Some k => Some (S k) | None => None end
  end.

Definition fd_add (o : obj) (t : fdtab) : option (nat * fdtab) :=
  match fd_free t with Some k => Some (k, <[k := Some o]> t) | None => None end.

Definition fd_dup (fd : nat) (t : fdtab) : fdtab :=
  match t !! fd with
  | Some (Some o) => match fd_add o t with Some r => r.2 | None => t end
  | _ => t
  end.

Section runcmd.
(** Which programs can be run and which files opened, and which forks and
    pipes succeed. *)
Context (can_exec : list (list Z) → bool) (can_open : list Z → Z → bool) (can_fork can_pipe : nat → bool).

(** [panic] *)
Definition sh_panic (t : fdtab) (s : string) : M world shproc := mret (PPrint t s [] PExit).

(** [fork1]: the child runs [child] and does not come back; a failed fork
    ends the caller. *)
Definition fork1 (t : fdtab) (child parent : M world shproc) : M world shproc :=
  n ← gets w_forks;
  modify (λ w, World (w_pipes w) (S n));;
  if can_fork n then
    c ← child;
    p ← parent;
    mret (PFork t c p)
  else sh_panic t "fork".

(** [pipe]: two descriptors, or an error that ends the caller. *)
Definition make_pipe (t : fdtab) (k : nat → nat → fdtab → M world shproc) : M world shproc :=
  n ← gets w_pipes;
  modify (λ w, World (S n) (w_forks w));;
  if negb (can_pipe n) then sh_panic t "pipe" else
  match fd_add (PipeR n) t with
  | None => sh_panic t "pipe"
  | Some (p0, t1) =>
    match fd_add (PipeW n) t1 with
    | None => sh_panic t "pipe"
    | Some (p1, t2) => k p0 p1 t2
    end
  end.

Fixpoint runcmd (c : tree) (t : fdtab) : M world shproc :=
  match c with
  | EXEC argv =>
    match argv with
    | [] => mret PExit
    | arg0 :: _ => mret (if can_exec argv then PExec argv t else PPrint t "exec %s failed" arg0 PExit)
    end
  | REDIR c f m d =>
    let t := fd_close (Z.to_nat d) t in
    match (if can_open f m then fd_add (File f m) t else None) with
    | Some (_, t) => runcmd c t
    | None => mret (PPrint t "open %s failed" f PExit)
    end
  | LIST l r =>
    fork1 t (runcmd l t)
      (p ← runcmd r t; mret (PWait t p))
  | PIPE l r =>
    make_pipe t (λ p0 p1 t,
      fork1 t (runcmd l (fd_close p1 (fd_close p0 (fd_dup p1 (fd_close 1 t)))))
        (fork1 t (runcmd r (fd_close p1 (fd_close p0 (fd_dup p0 (fd_close 0 t)))))
          (let t := fd_close p1 (fd_close p0 t) in mret (PWait t (PWait t PExit)))))
  | BACK c => fork1 t (runcmd c t) (mret PExit)
  end.
End runcmd.

(** ** The processes side by side *)

(** A process and the children it forked so far, those that it waited for
    included. *)
Inductive sys := Sys (p : shproc) (kids : list sys).

Definition self (x : sys) : shproc := match x with Sys p _ => p end.

(** The table a process has at this moment. *)
Definition table (p : shproc) : list fdtab :=
  match p with PExec _ t | PFork t _ _ | PWait t _ | PPrint t _ _ _ => [t] | PExit | PGone => [] end.

(** The tables of all processes, children before their parents. *)
Fixpoint open_tabs (x : sys) : list fdtab := match x with Sys p ks => concat (open_tabs <$> ks) ++ table p end.

Definition held (x : sys) (ob : obj) : Prop := ∃ t, t ∈ open_tabs x ∧ Some ob ∈ t.

(** One step of one process; [W] says which objects are open somewhere.
    [wait] needs a child that has exited, or no children. *)
Inductive step (W : obj → Prop) : sys → sys → Prop :=
  | step_fork t c p ks : step W (Sys (PFork t c p) ks) (Sys p (ks ++ [Sys c []]))
  | step_print t m a p ks : step W (Sys (PPrint t m a p) ks) (Sys p ks)
  | step_wait t p k1 k2 ks : step W (Sys (PWait t p) (k1 ++ Sys PExit ks :: k2)) (Sys p (k1 ++ Sys PGone ks :: k2))
  | step_childless t p ks : Forall (λ k, self k = PGone) ks → step W (Sys (PWait t p) ks) (Sys p ks)
  | step_program argv t ks : (∀ n, Some (PipeR n) ∈ t → ¬ W (PipeW n)) → step W (Sys (PExec argv t) ks) (Sys PExit ks)
  | step_kid p k1 k k' k2 : step W k k' → step W (Sys p (k1 ++ k :: k2)) (Sys p (k1 ++ k' :: k2)).

Definition run (x x' : sys) : Prop := step (held x) x x'.

(** All processes have exited. *)
Fixpoint finished (x : sys) : bool :=
  match x with Sys p ks => match p with PExit | PGone => forallb finished ks | _ => false end end.

Lemma sys_ind' (P : sys → Prop) : (∀ p ks, Forall P ks → P (Sys p ks)) → ∀ x, P x.
Proof.
  intros H. fix IH 1. intros [p ks]. apply H. induction ks as [|k ks IHks]; constructor; [apply IH|exact IHks].
Qed.

(** ** Nobody waits for ever *)

(** The tables a process and those it will start are going to read and
    write with, when the ends of pipes it need not keep are closed. *)
Fixpoint settled (p : shproc) : list fdtab :=
  match p with
  | PExec _ t => [t]
  | PFork _ c p => settled c ++ settled p
  | PWait t p => settled p ++ [t]
  | PPrint _ _ _ p => settled p
  | PExit | PGone => []
  end.
Fixpoint settled_all (x : sys) : list fdtab := match x with Sys p ks => concat (settled_all <$> ks) ++ settled p end.

(** Who reads from a pipe comes after all who can write to it. *)
Definition reads (t : fdtab) (n : nat) : Prop := Some (PipeR n) ∈ t.
Definition writes (t : fdtab) (n : nat) : Prop := Some (PipeW n) ∈ t.
Definition before (l1 l2 : list fdtab) : Prop := ∀ s t n, s ∈ l1 → t ∈ l2 → reads s n → ¬ writes t n.
Fixpoint ordered (l : list fdtab) : Prop :=
  match l with [] => True | s :: l' => before [s] (s :: l') ∧ ordered l' end.

Lemma before_sub l1 l2 l1' l2' : l1' ⊆ l1 → l2' ⊆ l2 → before l1 l2 → before l1' l2'.
Proof. intros H1 H2 B s t n Hs Ht. apply B; auto. Qed.

Lemma ordered_app l1 l2 : ordered (l1 ++ l2) ↔ ordered l1 ∧ ordered l2 ∧ before l1 l2.
Proof.
  induction l1 as [|s l1 IH]; cbn [ordered app].
  - split; [|naive_solver]. intros Ho. split_and!; [done|done|]. intros s t n Hs. by apply elem_of_nil in Hs.
  - rewrite IH. split.
    + intros (B & O1 & O2 & B2). split_and!; [|done|done|].
      * eapply before_sub; [done| |exact B]. set_solver.
      * intros r t n [->|Hr]%elem_of_cons Ht; [|by apply B2]. apply B; set_solver.
    + intros ((B & O1) & O2 & B2). split_and!; [|done|done|].
      * intros r t n Hr Ht. apply list_elem_of_singleton in Hr as ->.
        rewrite app_comm_cons in Ht. apply elem_of_app in Ht as [Ht|Ht]; [by apply B; [left|]|by apply B2; [left|]].
      * eapply before_sub; [|done|exact B2]. set_solver.
Qed.

Lemma before_app l1 l2 l3 : before l1 (l2 ++ l3) ↔ before l1 l2 ∧ before l1 l3.
Proof.
  split.
  - intros B. split; (eapply before_sub; [done| |exact B]); set_solver.
  - intros [B1 B2] s t n Hs [Ht|Ht]%elem_of_app; [by apply B1|by apply B2].
Qed.

Lemma ordered_sublist l l' : l' `sublist_of` l → ordered l → ordered l'.
Proof.
  induction 1 as [|s l' l Hs IH|s l' l Hs IH]; cbn [ordered]; [done| |naive_solver].
  intros [B O]. split; [|by apply IH]. eapply before_sub; [done| |exact B].
  intros t [->|Ht]%elem_of_cons; [left|right]. eapply elem_of_submseteq; [exact Ht|by apply sublist_submseteq].
Qed.

(** Steps only give up descriptors. *)
Lemma step_settled W x x' : step W x x' → settled_all x' `sublist_of` settled_all x.
Proof.
  induction 1; cbn [settled_all settled]; rewrite ?fmap_app, ?concat_app; cbn [fmap list_fmap concat settled_all settled].
  - by rewrite !app_nil_l, app_nil_r, <- app_assoc.
  - done.
  - rewrite !app_nil_r. apply sublist_app; [done|]. by apply sublist_inserts_r.
  - apply sublist_app; [done|]. by apply sublist_inserts_r.
  - rewrite app_nil_r. by apply sublist_inserts_r.
  - apply sublist_app; [|done]. apply sublist_app; [done|]. by apply sublist_app.
Qed.

(** A process that forks or prints goes on by itself. *)
Definition busy (p : shproc) : bool := match p with PFork _ _ _ | PPrint _ _ _ _ => true | _ => false end.

Lemma busy_step p ks W : busy p = true → ∃ x', step W (Sys p ks) x'.
Proof. destruct p; try done; intros _; eexists; constructor. Qed.

Lemma quiet_or_step x : (∀ W, ∃ x', step W x x') ∨ open_tabs x `sublist_of` settled_all x.
Proof.
  induction x as [p ks IH] using sys_ind'. destruct (busy p) eqn:Eb; [left; intros W; by apply busy_step|].
  assert ((∀ W, ∃ k1 k k' k2, ks = k1 ++ k :: k2 ∧ step W k k') ∨
    concat (open_tabs <$> ks) `sublist_of` concat (settled_all <$> ks)) as [Hk|Hk].
  { clear Eb. induction IH as [|k ks Hk _ IHks]; [right; done|]. destruct Hk as [Hk|Hk].
    - left. intros W. destruct (Hk W) as [k' E]. exists [], k, k', ks. done.
    - destruct IHks as [Hs|Hs]; [left|right; by apply sublist_app].
      intros W. destruct (Hs W) as (k1 & k0 & k' & k2 & -> & E). exists (k :: k1), k0, k', k2. done. }
  - left. intros W. destruct (Hk W) as (k1 & k & k' & k2 & -> & E). eexists. by constructor.
  - right. cbn [open_tabs settled_all]. apply sublist_app; [done|]. destruct p; try done. cbn. by apply sublist_inserts_l.
Qed.

Lemma no_tabs x : open_tabs x = [] → finished x = true ∧ (self x = PExit ∨ self x = PGone).
Proof.
  induction x as [p ks IH] using sys_ind'. cbn [open_tabs finished self]. intros [Ek Ep]%app_nil.
  assert (forallb finished ks = true) as ->.
  { clear Ep. induction IH as [|k ks Hk _ IHks]; [done|]. cbn in *. apply app_nil in Ek as [Ek1 Ek2].
    rewrite (proj1 (Hk Ek1)). by apply IHks. }
  destruct p; try done; auto.
Qed.

(** The first process that has not exited can go on, if it need not wait for
    the end of its input. *)
Lemma first_steps W x t l : open_tabs x = t :: l → (∀ n, reads t n → ¬ W (PipeW n)) → ∃ x', step W x x'.
Proof.
  revert l. induction x as [p ks IH] using sys_ind'. intros l E Ht. cbn [open_tabs] in E.
  destruct (concat (open_tabs <$> ks)) as [|t' l'] eqn:Ek.
  - assert (Forall (λ k, self k = PExit ∨ self k = PGone) ks) as Hz.
    { clear IH E. induction ks as [|k ks IHks]; [done|]. cbn in Ek. apply app_nil in Ek as [Ek1 Ek2].
      constructor; [by apply no_tabs|by apply IHks]. }
    destruct p; try done; [|eexists; by constructor..| |eexists; by constructor].
    + cbn in E. simplify_eq. eexists. by constructor.
    + destruct (decide (Forall (λ k, self k = PGone) ks)) as [Hg|Hg]; [eexists; by apply step_childless|].
      apply not_Forall_Exists, Exists_exists in Hg as (k & Hk & Hg); [|intros ?; apply _].
      apply list_elem_of_split in Hk as (k1 & k2 & ->). rewrite Forall_app, Forall_cons in Hz.
      destruct Hz as (_ & [Hk|Hk] & _); [|done]. destruct k as [q ks]. simpl in Hk. subst. eexists. by apply step_wait.
  - cbn in E. simplify_eq. assert (∃ k1 k k2 l, ks = k1 ++ k :: k2 ∧ k ∈ ks ∧ open_tabs k = t :: l) as (k1 & k & k2 & l & -> & Hin & Hk).
    { clear IH. induction ks as [|k ks IHks]; [done|]. cbn in Ek. destruct (open_tabs k) as [|t1 l1] eqn:E1.
      - destruct (IHks Ek) as (k1 & k0 & k2 & l & -> & Hin & Hk). exists (k :: k1), k0, k2, l. split_and!; [done|by right|done].
      - cbn in Ek. simplify_eq. exists [], k, ks, l1. split_and!; [done|by left|done]. }
    rewrite Forall_forall in IH. destruct (IH k Hin l Hk Ht) as [k' E]. eexists. by constructor.
Qed.

(** So a state in which no process can go on is the end. *)
Lemma ordered_progress x : ordered (settled_all x) → (∀ x', ¬ run x x') → finished x = true.
Proof.
  intros Ho Hs. destruct (quiet_or_step x) as [Hq|Hq]; [destruct (Hq (held x)) as [x' E]; by destruct (Hs x')|].
  destruct (open_tabs x) as [|t l] eqn:E; [by apply no_tabs|]. exfalso.
  destruct (first_steps (held x) x t l E) as [x' E']; [|by apply (Hs x')].
  intros n Hn (t' & Ht' & Hw). rewrite E in Ht'. apply (ordered_sublist _ _ Hq) in Ho as [B _].
  by apply (B t t' n); [left|..].
Qed.

Lemma ordered_run x x' : rtc run x x' → ordered (settled_all x) → ordered (settled_all x').
Proof. induction 1 as [|x y z E _ IH]; [done|]. intros Ho. apply IH. eapply ordered_sublist; [by eapply step_settled|done]. Qed.

(** Every step uses something up. *)
Fixpoint psize (p : shproc) : nat :=
  match p with
  | PExec _ _ => 1 | PFork _ c p => S (psize c + psize p) | PWait _ p | PPrint _ _ _ p => S (psize p) | PExit | PGone => 0
  end.
Fixpoint size (x : sys) : nat := match x with Sys p ks => psize p + sum_list_with size ks end.

Lemma step_size W x x' : step W x x' → (size x' < size x)%nat.
Proof. induction 1; cbn [size]; rewrite ?sum_list_with_app; cbn [sum_list_with size psize] in *; lia. Qed.

Lemma run_length n x x' : nsteps run n x x' → (n + size x' ≤ size x)%nat.
Proof. induction 1 as [|n x y z E _ IH]; [lia|]. apply step_size in E. lia. Qed.

(** ** Children that are waited for *)

(** [n] children have not been waited for, and all are before the process
    ends or becomes a program. *)
Fixpoint balanced (n : nat) (p : shproc) : Prop :=
  match p with
  | PFork _ c p => balanced 0 c ∧ balanced (S n) p
  | PWait _ p => match n with O => False | S n => balanced n p end
  | PPrint _ _ _ p => balanced n p
  | PExec _ _ | PExit => n = 0%nat
  | PGone => False
  end.

Definition unwaited (ks : list sys) : nat := List.length (filter (λ k, self k ≠ PGone) ks).
Fixpoint balanced_all (x : sys) : Prop :=
  match x with
  | Sys p ks =>
    match p with PGone => unwaited ks = 0%nat | _ => balanced (unwaited ks) p end ∧
    foldr (λ k P, balanced_all k ∧ P) True ks
  end.

Lemma balanced_kids ks : foldr (λ k P, balanced_all k ∧ P) True ks ↔ Forall balanced_all ks.
Proof. induction ks as [|k ks IH]; cbn; [done|]. by rewrite Forall_cons, IH. Qed.

Lemma balanced_intro n p ks : balanced n p → unwaited ks = n → Forall balanced_all ks → balanced_all (Sys p ks).
Proof. intros B <- F. cbn [balanced_all]. rewrite balanced_kids. split; [by destruct p|done]. Qed.

Lemma unwaited_app k1 k2 : unwaited (k1 ++ k2) = (unwaited k1 + unwaited k2)%nat.
Proof. unfold unwaited. by rewrite filter_app, length_app. Qed.
Lemma unwaited_cons k ks : unwaited (k :: ks) = ((if decide (self k = PGone) then 0 else 1) + unwaited ks)%nat.
Proof. unfold unwaited. rewrite filter_cons. repeat case_decide; done. Qed.

Lemma balanced_not_gone n p : balanced n p → p ≠ PGone.
Proof. by intros B ->. Qed.

Lemma step_balanced W x x' : step W x x' → balanced_all x → balanced_all x' ∧ (self x' = PGone ↔ self x = PGone).
Proof.
  induction 1 as [t c p ks|t m a p ks|t p k1 k2 ks|t p ks Hg|argv t ks|p k1 k k' k2 E IH]; intros B0;
    cbn [balanced_all] in B0; rewrite balanced_kids in B0; destruct B0 as [B F]; cbn [self].
  - destruct B as [Bc Bp]. pose proof (balanced_not_gone _ _ Bp). pose proof (balanced_not_gone _ _ Bc).
    split; [|by split]. apply (balanced_intro _ _ _ Bp).
    + rewrite unwaited_app, unwaited_cons. cbn [self]. rewrite decide_False by done. cbn. lia.
    + apply Forall_app. split; [done|]. apply Forall_singleton. by apply (balanced_intro 0).
  - pose proof (balanced_not_gone _ p B). split; [|by split]. by apply (balanced_intro _ p _ B).
  - rewrite unwaited_app, unwaited_cons in B. cbn [self] in B. rewrite decide_False, Nat.add_succ_r in B by done. cbn in B.
    pose proof (balanced_not_gone _ _ B). split; [|by split]. apply (balanced_intro _ _ _ B).
    + rewrite unwaited_app, unwaited_cons. cbn [self]. by rewrite decide_True.
    + rewrite Forall_app, Forall_cons in F |- *. destruct F as (F1 & F2 & F3). split_and!; [done| |done]. exact F2.
  - assert (unwaited ks = 0%nat) as Eu.
    { clear -Hg. induction Hg as [|k ks Hk _ IH]; [done|]. rewrite unwaited_cons. by rewrite decide_True. }
    rewrite Eu in B. done.
  - split; [|by split]. by apply (balanced_intro 0).
  - rewrite Forall_app, Forall_cons in F. destruct F as (F1 & F2 & F3). destruct (IH F2) as [F2' Eg].
    split; [|done]. cbn [balanced_all]. rewrite balanced_kids.
    assert (unwaited (k1 ++ k' :: k2) = unwaited (k1 ++ k :: k2)) as ->.
    { rewrite !unwaited_app, !unwaited_cons. repeat case_decide; tauto || lia. }
    split; [done|]. rewrite Forall_app, Forall_cons. done.
Qed.

Lemma balanced_run x x' : rtc run x x' → balanced_all x → balanced_all x'.
Proof. induction 1 as [|x y z E _ IH]; [done|]. intros B. apply IH. by eapply step_balanced. Qed.

Lemma no_unwaited ks : unwaited ks = 0%nat → Forall (λ k, self k = PGone) ks.
Proof.
  induction ks as [|k ks IH]; [done|]. rewrite unwaited_cons. case_decide; [|done]. intros E. constructor; [done|by apply IH].
Qed.

(** Nothing is left behind by a process that ends or becomes a program. *)
Lemma balanced_end x : balanced_all x →
  match self x with PExec _ _ | PExit | PGone => forallb finished (match x with Sys _ ks => ks end) = true | _ => True end.
Proof.
  induction x as [p ks IH] using sys_ind'. cbn [self balanced_all]. rewrite balanced_kids. intros [B F].
  assert (unwaited ks = 0%nat → forallb finished ks = true) as Hf.
  { intros Hg%no_unwaited. clear B. induction IH as [|k ks Hk _ IHks]; [done|].
    rewrite Forall_cons in F, Hg. destruct F as [Fk F], Hg as [Gk Hg]. cbn. rewrite (IHks F Hg), andb_true_r.
    specialize (Hk Fk). rewrite Gk in Hk. destruct k as [q l]. simpl in Gk. by subst. }
  destruct p; try done; by apply Hf.
Qed.

(** ** What the operators mean *)

(** The table of a process with standard input [i], output [o], error [e]
    and nothing else. *)
Definition std (i o e : obj) (rest : nat) : fdtab := [Some i; Some o; Some e] ++ replicate rest None.

(** The simple commands of [c] with the input and output of each; [n] is
    the number of the next pipe. *)
Fixpoint wiring (c : tree) (i o : obj) (n : nat) : list (list (list Z) * obj * obj) * nat :=
  match c with
  | EXEC argv => (if bool_decide (argv = []) then [] else [(argv, i, o)], n)
  | REDIR c f m d => if d =? 0 then wiring c (File f m) o n else wiring c i (File f m) n
  | PIPE l r =>
    let a := wiring l i (PipeW n) (S n) in
    let b := wiring r (PipeR n) o a.2 in (a.1 ++ b.1, b.2)
  | LIST l r =>
    let a := wiring l i o n in
    let b := wiring r i o a.2 in (a.1 ++ b.1, b.2)
  | BACK c => wiring c i o n
  end.

Definition tables (e : obj) (rest : nat) (l : list (list (list Z) * obj * obj)) : list (list (list Z) * fdtab) :=
  (λ x, (x.1.1, std x.1.2 x.2 e rest)) <$> l.

(** The programs a process and its children become. *)
Fixpoint execs (p : shproc) : list (list (list Z) * fdtab) :=
  match p with
  | PExec argv t => [(argv, t)]
  | PFork _ c p => execs c ++ execs p
  | PWait _ p | PPrint _ _ _ p => execs p
  | PExit | PGone => []
  end.

(** No part of the command is put in the background. *)
Fixpoint foreground (c : tree) : bool :=
  match c with
  | EXEC _ => true | REDIR c _ _ _ => foreground c | PIPE l r | LIST l r => foreground l && foreground r | BACK _ => false
  end.

(** The ends of pipes in [t] are among [old] or have numbers from [lo] to [hi]. *)
Definition within (old : list obj) (lo hi : nat) (t : fdtab) : Prop := ∀ n,
  (reads t n → PipeR n ∈ old ∨ (lo ≤ n < hi)%nat) ∧ (writes t n → PipeW n ∈ old ∨ (lo ≤ n < hi)%nat).

(** [old] has at most one end of a pipe, and only of pipes made before. *)
Definition one_end (old : list obj) (lo : nat) : Prop := ∀ n,
  (PipeR n ∈ old → (n < lo)%nat ∧ PipeW n ∉ old) ∧ (PipeW n ∈ old → (n < lo)%nat).

Lemma std_elem i o e rest ob : Some ob ∈ std i o e rest → ob ∈ [i; o; e].
Proof.
  unfold std. rewrite elem_of_app. intros [H|[H _]%elem_of_replicate]; [|done]. set_solver.
Qed.

Lemma std_within i o e rest lo hi : within [i; o; e] lo hi (std i o e rest).
Proof. intros n. unfold reads, writes. split; intros H%std_elem; by left. Qed.

Lemma within_before old1 lo1 hi1 old2 lo2 hi2 l1 l2 :
  Forall (within old1 lo1 hi1) l1 → Forall (within old2 lo2 hi2) l2 →
  (∀ n, PipeR n ∈ old1 ∨ (lo1 ≤ n < hi1)%nat → ¬ (PipeW n ∈ old2 ∨ (lo2 ≤ n < hi2)%nat)) → before l1 l2.
Proof.
  rewrite !Forall_forall. intros H1 H2 Hd s t n Hs Ht Hr Hw. apply (Hd n); [by apply (H1 s)|by apply (H2 t)].
Qed.

Lemma within_mono old lo hi old' lo' hi' l :
  Forall (within old lo hi) l → (lo' ≤ lo)%nat → (hi ≤ hi')%nat →
  (∀ n, (PipeR n ∈ old → PipeR n ∈ old' ∨ (lo' ≤ n < hi')%nat) ∧ (PipeW n ∈ old → PipeW n ∈ old' ∨ (lo' ≤ n < hi')%nat)) →
  Forall (within old' lo' hi') l.
Proof.
  intros F Hlo Hhi Hold. eapply Forall_impl; [exact F|]. intros t Ht n. destruct (Ht n) as [H1 H2], (Hold n) as [O1 O2]. split.
  - intros [H|H]%H1; [auto|right; lia].
  - intros [H|H]%H2; [auto|right; lia].
Qed.

Lemma std_before i o e rest lo : one_end [i; o; e] lo → before [std i o e rest] [std i o e rest].
Proof.
  intros O. eapply within_before; [apply Forall_singleton, (std_within _ _ _ _ 0 0)..|].
  intros n [H|H] [H'|H']; try lia. by apply (O n).
Qed.

(** Processes that come before one with the standard table. *)
Lemma before_std old lo hi l i o e rest : Forall (within old lo hi) l →
  (∀ n, PipeR n ∈ old ∨ (lo ≤ n < hi)%nat → PipeW n ∉ [i; o; e]) → before l [std i o e rest].
Proof.
  intros F H. eapply within_before; [exact F|apply Forall_singleton, (std_within _ _ _ _ 0 0)|].
  intros n Hn [Hw|Hw]; [by apply (H n)|lia].
Qed.

Lemma wp_and_if {S A} (b : Prop) (m : M S A) (P Q : A → S → Prop) s :
  (b → wp m Q s) → wp m P s → wp m (λ a s', (b → Q a s') ∧ P a s') s.
Proof. unfold wp. destruct (m s); naive_solver. Qed.

Section wiring.
Context (can_exec : list (list Z) → bool) (can_open : list Z → Z → bool) (can_fork can_pipe : nat → bool).
Local Notation runcmd := (runcmd can_exec can_open can_fork can_pipe).

Lemma fork1_wp t child parent (Q : shproc → world → Prop) w :
  (can_fork (w_forks w) = true → wp child (λ c w1, wp parent (λ p w2, Q (PFork t c p) w2) w1) (World (w_pipes w) (S (w_forks w)))) →
  Q (PPrint t "fork" [] PExit) (World (w_pipes w) (S (w_forks w))) → wp (fork1 can_fork t child parent) Q w.
Proof.
  intros H1 H2. unfold fork1. wp_auto. destruct (can_fork (w_forks w)).
  - apply wp_bind. eapply wp_mono; [by apply H1|]. intros c w1 W. apply wp_bind. eapply wp_mono; [exact W|]. intros p w2 HQ. by apply wp_ret.
  - by apply wp_ret.
Qed.

(** What [pipe] does to the table of a process. *)
Lemma make_pipe_wp i o e rest k (Q : shproc → world → Prop) w :
  (wp (k 3%nat 4%nat ([Some i; Some o; Some e; Some (PipeR (w_pipes w)); Some (PipeW (w_pipes w))] ++ replicate rest None)) Q
     (World (S (w_pipes w)) (w_forks w))) →
  Q (PPrint (std i o e (S (S rest))) "pipe" [] PExit) (World (S (w_pipes w)) (w_forks w)) →
  wp (make_pipe can_pipe (std i o e (S (S rest))) k) Q w.
Proof. intros H1 H2. unfold make_pipe. wp_auto. destruct (can_pipe (w_pipes w)); cbn [negb]; [exact H1|by apply wp_ret]. Qed.

(** Whatever fails, who reads from a pipe comes after those who write. *)
Lemma runcmd_ordered c i o e rest w : (2 ≤ rest)%nat → tree_fine c → one_end [i; o; e] (w_pipes w) →
  wp (runcmd c (std i o e rest)) (λ p w', (w_pipes w ≤ w_pipes w')%nat ∧ ordered (settled p) ∧
    Forall (within [i; o; e] (w_pipes w) (w_pipes w')) (settled p)) w.
Proof.
  intros Hr. destruct rest as [|[|rest]]; [lia..|]. clear Hr.
  revert i o w. induction c as [argv|c IH f m d|l IHl r IHr|l IHl r IHr|c IH]; intros i o w Fc O; cbn [runcmd tree_fine] in *.
  - destruct argv as [|a argv]; [by apply wp_ret|]. apply wp_ret. destruct (can_exec _); [|done]. cbn [settled ordered].
    split_and!; [done|by eapply std_before|done|apply Forall_singleton, std_within].
  - destruct Fc as (Fc & _ & Fm). destruct (can_open f m); [|by apply wp_ret].
    destruct Fm as [[-> ->]|[-> ->]]; (eapply wp_mono; [apply IH; [done|]|]).
    1,3: intros n; destruct (O n); split; set_solver.
    all: cbn beta; intros p w' (Hw & Ho & F); split_and!; [done|done|]; eapply within_mono; [exact F|done|done|set_solver].
  - apply make_pipe_wp; [|cbn; auto with lia]. cbn -[wp fork1 within settled]. apply fork1_wp; [|cbn; auto with lia]. intros _. cbn [w_pipes w_forks].
    change (Some i :: Some (PipeW (w_pipes w)) :: Some e :: None :: None :: replicate rest None) with (std i (PipeW (w_pipes w)) e (S (S rest))).
    change (Some (PipeR (w_pipes w)) :: Some o :: Some e :: None :: None :: replicate rest None) with (std (PipeR (w_pipes w)) o e (S (S rest))).
    change (Some i :: Some o :: Some e :: None :: None :: replicate rest None) with (std i o e (S (S rest))).
    eapply wp_mono; [apply IHl; [apply Fc|]|].
    { intros n. pose proof (O n). pose proof (O (w_pipes w)). cbn [w_pipes]. set_solver by lia. }
    cbn [w_pipes]. intros p1 w1 (H1 & O1 & F1). apply fork1_wp; [intros _|cbn [settled w_pipes app]].
    2: { rewrite app_nil_r. split_and!; [lia|done|]. eapply within_mono; [exact F1|lia|lia|]. set_solver by lia. }
    eapply wp_mono; [apply IHr; [apply Fc|]|]; cbn [w_pipes].
    { intros n. pose proof (O n). pose proof (O (w_pipes w)). set_solver by lia. }
    intros p2 w2 (H2 & O2 & F2). apply wp_ret. cbn [settled app].
    assert (before (settled p1) (settled p2)) as B.
    { eapply within_before; [exact F1|exact F2|]. intros n. pose proof (O n). pose proof (O (w_pipes w)). set_solver by lia. }
    assert (before (settled p1) [std i o e (S (S rest))]) as B1.
    { eapply before_std; [exact F1|]. intros n. pose proof (O n). set_solver by lia. }
    assert (before (settled p2) [std i o e (S (S rest))]) as B2.
    { eapply before_std; [exact F2|]. intros n. pose proof (O n). pose proof (O (w_pipes w)). set_solver by lia. }
    pose proof (std_before _ _ _ (S (S rest)) _ O) as B3. set (T := std i o e (S (S rest))) in *.
    split; [lia|]. split.
    + change [T; T] with ([T] ++ [T]). rewrite !ordered_app, !before_app. by split_and!.
    + rewrite !Forall_app, !Forall_cons. split_and!; try apply Forall_nil_2; try apply std_within.
      * eapply within_mono; [exact F1|lia|lia|]. set_solver by lia.
      * eapply within_mono; [exact F2|lia|lia|]. set_solver by lia.
  - apply fork1_wp; [|cbn; auto with lia]. intros _. cbn [w_pipes w_forks].
    eapply wp_mono; [by apply IHl; [apply Fc|]|]. cbn [w_pipes]. intros p1 w1 (H1 & O1 & F1).
    apply wp_bind. eapply wp_mono; [apply IHr; [apply Fc|]|].
    { intros n. pose proof (O n). set_solver by lia. }
    intros p2 w2 (H2 & O2 & F2). apply wp_ret. cbn [settled].
    assert (before (settled p1) (settled p2)) as B.
    { eapply within_before; [exact F1|exact F2|]. intros n. pose proof (O n). set_solver by lia. }
    split; [lia|]. split.
    + rewrite !ordered_app, !before_app. cbn [ordered]. split_and!; try done; [by eapply std_before|..];
        (eapply before_std; [done|]); intros n; pose proof (O n); set_solver by lia.
    + rewrite !Forall_app, !Forall_cons. split_and!; try apply Forall_nil_2; try apply std_within.
      * eapply within_mono; [exact F1|lia|lia|]. set_solver by lia.
      * eapply within_mono; [exact F2|lia|lia|]. set_solver by lia.
  - apply fork1_wp; [|cbn; auto with lia]. intros _. eapply wp_mono; [by apply IH|]. intros p w' H. apply wp_ret. cbn [settled].
    by rewrite app_nil_r.
Qed.

(** When everything succeeds, the programs are those of the command. *)
Lemma runcmd_execs c i o e rest w :
  (∀ argv, can_exec argv = true) → (∀ f m, can_open f m = true) → (∀ n, can_fork n = true) → (∀ n, can_pipe n = true) →
  (2 ≤ rest)%nat → tree_fine c →
  wp (runcmd c (std i o e rest)) (λ p w',
    execs p = tables e rest (wiring c i o (w_pipes w)).1 ∧ w_pipes w' = (wiring c i o (w_pipes w)).2) w.
Proof.
  intros He Ho Hf Hp Hr. destruct rest as [|[|rest]]; [lia..|]. clear Hr.
  revert i o w. induction c as [argv|c IH f m d|l IHl r IHr|l IHl r IHr|c IH]; intros i o w Fc; cbn [runcmd wiring tree_fine] in *.
  - destruct argv; wp_auto; [done|]. by rewrite He.
  - destruct Fc as (Fc & _ & Fm). rewrite Ho. destruct Fm as [[-> ->]|[-> ->]]; apply IH; done.
  - unfold make_pipe, fork1. wp_auto. rewrite Hp. cbn [negb fd_add fd_free std app replicate insert list_insert]. wp_auto. rewrite Hf.
    apply wp_bind. cbn -[wiring tables wp]. eapply wp_mono; [apply (IHl i (PipeW (w_pipes w))); apply Fc|]. cbn [w_pipes].
    intros p1 w1 [E1 P1]. wp_auto. rewrite Hf. apply wp_bind.
    eapply wp_mono; [apply (IHr (PipeR (w_pipes w)) o); apply Fc|]. cbn [w_pipes]. intros p2 w2 [E2 P2]. wp_auto.
    cbn [execs]. rewrite app_nil_r, E2, E1, P2, P1. unfold tables. cbn [fst snd]. by rewrite fmap_app.
  - unfold fork1. wp_auto. rewrite Hf. apply wp_bind. eapply wp_mono; [apply (IHl i o); apply Fc|]. cbn [w_pipes]. intros p1 w1 [E1 P1].
    wp_auto. eapply wp_mono; [apply (IHr i o); apply Fc|]. intros p2 w2 [E2 P2]. wp_auto. cbn [execs]. rewrite E2, E1, P2, P1.
    unfold tables. cbn [fst snd]. by rewrite fmap_app.
  - unfold fork1. wp_auto. rewrite Hf. apply wp_bind. eapply wp_mono; [by apply (IH i o)|]. cbn [w_pipes]. intros p1 w1 [E1 P1]. wp_auto.
    cbn [execs]. by rewrite app_nil_r.
Qed.

(** In the foreground, everything that is started is waited for. *)
Lemma runcmd_balanced c t w : (∀ n, can_fork n = true) → foreground c = true → wp (runcmd c t) (λ p _, balanced 0 p) w.
Proof.
  intros Hf. revert t w. induction c as [argv|c IH f m d|l IHl r IHr|l IHl r IHr|c IH]; intros t w Fc; cbn [runcmd foreground] in *.
  - destruct argv; apply wp_ret; [done|]. by destruct (can_exec _).
  - destruct (if can_open f m then _ else _) as [[k t']|]; [by apply IH|by apply wp_ret].
  - apply andb_true_iff in Fc as [Fl Fr]. unfold make_pipe. wp_auto. destruct (can_pipe _); cbn [negb]; [|by apply wp_ret].
    destruct (fd_add _ t) as [[p0 t1]|]; [|by apply wp_ret]. destruct (fd_add _ t1) as [[p1 t2]|]; [|by apply wp_ret].
    unfold fork1. wp_auto. rewrite Hf. apply wp_bind. eapply wp_mono; [by apply IHl|]. intros c1 w1 B1. wp_auto. rewrite Hf.
    apply wp_bind. eapply wp_mono; [by apply IHr|]. intros c2 w2 B2. wp_auto. done.
  - apply andb_true_iff in Fc as [Fl Fr]. unfold fork1. wp_auto. rewrite Hf. apply wp_bind. eapply wp_mono; [by apply IHl|].
    intros c1 w1 B1. wp_auto. eapply wp_mono; [by apply IHr|]. intros c2 w2 B2. wp_auto. done.
  - done.
Qed.

(** C33. The shell connects its processes as the command says, and waits for
    them.  Take any command, run by a process whose table has three open
    descriptors, with at most one end of any pipe among them, and room for
    two more.  (1) If every exec, open, fork and pipe succeeds, the programs
    started are exactly the simple commands of the line, each with the
    input and output that the redirections and pipes around it give it, and
    no other descriptor than its three.  (2) Whatever fails, and in
    whatever order the processes run: they make at most as many steps as
    there are calls, and they only stop when all have exited - although a
    program that reads from a pipe does not end before every process, the
    waiting ones included, has closed the other end.  (3) If forks succeed
    and nothing is put in the background, then whenever the process has
    exited or become a program, all it started has ended. *)
Theorem runcmd_wiring c i o e rest w :
  (2 ≤ rest)%nat → tree_fine c → one_end [i; o; e] (w_pipes w) →
  wp (runcmd c (std i o e rest)) (λ p _,
    ((∀ argv, can_exec argv = true) → (∀ f m, can_open f m = true) → (∀ n, can_fork n = true) → (∀ n, can_pipe n = true) →
     execs p = tables e rest (wiring c i o (w_pipes w)).1) ∧
    (∀ x, rtc run (Sys p []) x → (∀ x', ¬ run x x') → finished x = true) ∧
    (∀ x n, nsteps run n (Sys p []) x → (n ≤ psize p)%nat) ∧
    ((∀ n, can_fork n = true) → foreground c = true →
     ∀ q ks, rtc run (Sys p []) (Sys q ks) → q = PExit ∨ (∃ argv t, q = PExec argv t) → forallb finished ks = true)) w.
Proof.
  intros Hr Fc O. pose proof (runcmd_ordered c i o e rest w Hr Fc O) as H1.
  eapply (wp_and_if (_ ∧ _)) in H1; [|intros [A B]; exact (runcmd_balanced c (std i o e rest) w A B)].
  eapply (wp_and_if (_ ∧ _ ∧ _ ∧ _)) in H1; [|intros (A & B & C & D); exact (runcmd_execs c i o e rest w A B C D Hr Fc)].
  eapply wp_mono; [exact H1|]. cbn beta. intros p w' (He & Hb & _ & Ho & _). split_and!.
  - intros. by apply He.
  - intros x Hx. apply ordered_progress. eapply ordered_run; [exact Hx|done].
  - intros x n Hx. apply run_length in Hx. cbn in Hx. lia.
  - intros A B q ks Hx Hq. pose proof (balanced_end (Sys q ks)) as E. cbn [self] in E.
    destruct Hq as [->|(argv & t & ->)]; apply E; (eapply balanced_run; [exact Hx|]); (apply (balanced_intro 0); [by apply Hb|done|done]).
Qed.
End wiring.

(** "a|b>f" *)
Lemma runcmd_wiring_witness :
  wp (runcmd (λ _, true) (λ _ _, true) (λ _, true) (λ _, true) (PIPE (EXEC [[97]]) (REDIR (EXEC [[98]]) [102] 0x201 1))
      (std Dev Dev Dev 13))
    (λ p _, execs p = [([[97]], std Dev (PipeW 0) Dev 13); ([[98]], std (PipeR 0) (File [102] 0x201) Dev 13)] ∧
       (∀ x, rtc run (Sys p []) x → (∀ x', ¬ run x x') → finished x = true)) (World 0 0).
Proof.
  eapply wp_mono; [apply (runcmd_wiring (λ _, true) (λ _ _, true) (λ _, true) (λ _, true)
    (PIPE (EXEC [[97]]) (REDIR (EXEC [[98]]) [102] 0x201 1)) Dev Dev Dev 13 (World 0 0)); [lia| |]|].
  - assert (∀ c, word_char c = true → c ≠ 0 → word_fine [c]) as Hw by (intros c ? ?; split; [done|by apply Forall_singleton]).
    cbn. unfold MAXARGS. split_and!; first [lia|by right|by apply Hw|apply Forall_singleton; by apply Hw].
  - intros n. split; intros Hn; set_solver.
  - intros p w' (-> & Hf & _); [split; [reflexivity|exact Hf]|done..].
Defined.
