(* ===== verification/Mkfs.v ===== *)
(** The file system builder (mkfs.c), a program of the host that writes the
    first image of the disk.  Its state is the image, sector by sector, and
    the counters of inodes and blocks handed out.  The host's files are a
    parameter: the pieces in which [read] delivers a file, or nothing if the
    file cannot be opened.  A failed assertion or [exit(1)] is a panic. *)

From S2P Require Import Prelude Mmu Block Log Fs.

(** ** Data *)

Record image := Image { im_disk : gmap Z block; freeinode : Z; freeblock : Z }.

Definition set_disk (x : gmap Z block) (s : image) : image := Image x (freeinode s) (freeblock s).
Definition set_freeinode (x : Z) (s : image) : image := Image (im_disk s) x (freeblock s).
Definition set_freeblock (x : Z) (s : image) : image := Image (im_disk s) (freeinode s) x.

(** Intel byte order, on a host of that byte order: the number whose bytes
    are stored one by one. *)
Definition xshort (x : Z) : Z := of_le [u8 x; u8 (Z.shiftr x 8)].
Definition xint (x : Z) : Z := of_le [u8 x; u8 (Z.shiftr x 8); u8 (Z.shiftr x 16); u8 (Z.shiftr x 24)].

Definition NINODES : Z := 200.
Definition nbitmap : Z := FSSIZE / (BSIZE * 8) + 1.
Definition ninodeblocks : Z := NINODES / IPB + 1.
Definition nlog : Z := LOGSIZE.
Definition nmeta : Z := 2 + nlog + ninodeblocks + nbitmap.
Definition mk_sb : superblock :=
  Sb (xint FSSIZE) (xint (FSSIZE - nmeta)) (xint NINODES) (xint nlog) (xint 2) (xint (2 + nlog))
    (xint (2 + nlog + ninodeblocks)).

(** The bytes of [struct superblock], followed by zeroes. *)
Definition sb_block : block :=
  put_bytes zero_block 0 (concat (to_le 4 <$>
    [sb_size mk_sb; sb_nblocks mk_sb; sb_ninodes mk_sb; sb_nlog mk_sb;
     sb_logstart mk_sb; sb_inodestart mk_sb; sb_bmapstart mk_sb])).

(** ** Sectors *)

(** The offset [sec * BSIZE] is a [uint]. *)
Definition sector (sec : Z) : Z := u32 (sec * BSIZE) / BSIZE.

Definition wsect (sec : Z) (buf : block) : M image () :=
  modify (λ s, set_disk (<[sector sec := buf]> (im_disk s)) s).

(** Reading past the end of the image is short. *)
Definition rsect (sec : Z) : M image block :=
  d ← gets im_disk;
  match d !! sector sec with Some x => mret x | None => panic "read" end.

(** [freeblock++]. *)
Definition next_block : M image Z :=
  b ← gets freeblock;
  modify (set_freeblock (u32 (b + 1)));;
  mret b.

(** ** Inodes *)

Definition winode (inum : Z) (d : dinode) : M image () :=
  let bn := IBLOCK inum mk_sb in
  buf ← rsect bn;
  wsect bn (store_dinode buf (inode_off inum) d).

Definition rinode (inum : Z) : M image dinode :=
  buf ← rsect (IBLOCK inum mk_sb);
  mret (load_dinode buf (inode_off inum)).

Definition ialloc (type : Z) : M image Z :=
  inum ← gets freeinode;
  modify (set_freeinode (u32 (inum + 1)));;
  winode inum (Din (i16 (xshort type)) 0 0 (i16 (xshort 1)) (xint 0) (replicate 13 0));;
  mret inum.

Definition balloc (used : Z) : M image () :=
  if negb (used <? BSIZE * 8) then panic "assert: used" else
  wsect (sb_bmapstart mk_sb) (foldl set_bit zero_block (seqZ 0 used)).

(** The block of the file that holds byte [fbn * BSIZE], mapped if it is
    not. *)
Definition iappend_block (din : dinode) (fbn : Z) : M image (dinode * Z) :=
  if fbn <? NDIRECT then
    din ← (if xint (addr_of din fbn) =? 0 then
             b ← next_block;
             mret (set_addr fbn (xint b) din)
           else mret din);
    mret (din, xint (addr_of din fbn))
  else
    din ← (if xint (addr_of din NDIRECT) =? 0 then
             b ← next_block;
             mret (set_addr NDIRECT (xint b) din)
           else mret din);
    let o := Z.to_nat (4 * (fbn - NDIRECT)) in
    indirect ← rsect (xint (addr_of din NDIRECT));
    indirect ← (if get32 indirect o =? 0 then
                  b ← next_block;
                  let indirect := put32 indirect o (xint b) in
                  wsect (xint (addr_of din NDIRECT)) indirect;;
                  mret indirect
                else mret indirect);
    mret (din, xint (get32 indirect o)).

(** [while(n > 0)] of [iappend]: the [n] bytes left are [p]. *)
Fixpoint iappend_loop (fuel : nat) (din : dinode) (off : Z) (p : list Z) : M image (dinode * Z) :=
  if bool_decide (p = []) then mret (din, off) else
  match fuel with
  | O => fault "iappend loop"
  | S fuel =>
    let fbn := off / BSIZE in
    if negb (fbn <? MAXFILE) then panic "assert: fbn" else
    r ← iappend_block din fbn;
    let n1 := Z.to_nat (Z.min (Z.of_nat (length p)) ((fbn + 1) * BSIZE - off)) in
    buf ← rsect r.2;
    wsect r.2 (put_bytes buf (Z.to_nat (off - fbn * BSIZE)) (take n1 p));;
    iappend_loop fuel r.1 (off + Z.of_nat n1) (drop n1 p)
  end.

Definition iappend (inum : Z) (p : list Z) : M image () :=
  din ← rinode inum;
  r ← iappend_loop (length p) din (xint (d_size din)) p;
  winode inum (set_size (xint r.2) r.1).

(** ** main *)

Definition new_dirent (name : list Z) (inum : Z) : list Z := store_dirent (Dirent (xshort inum) (name_field name)).

Fixpoint append_all (inum : Z) (chunks : list (list Z)) : M image () :=
  match chunks with
  | [] => mret tt
  | buf :: l => iappend inum buf;; append_all inum l
  end.

(** Skip leading _ in name when writing to file system. *)
Definition skip_underscore (name : list Z) : list Z :=
  match name with c :: l => if c =? 95 then l else name | [] => [] end.

Section host.
Context (host : list Z → option (list (list Z))).

Definition add_file (rootino : Z) (arg : list Z) : M image () :=
  if bool_decide (47 ∈ arg) then panic "assert: index" else
  match host arg with
  | None => panic "open"
  | Some chunks =>
    inum ← ialloc T_FILE;
    iappend rootino (new_dirent (skip_underscore arg) inum);;
    append_all inum chunks
  end.

Fixpoint add_files (rootino : Z) (args : list (list Z)) : M image () :=
  match args with
  | [] => mret tt
  | arg :: l => add_file rootino arg;; add_files rootino l
  end.

(** fix size of root inode dir *)
Definition fix_root (rootino : Z) : M image () :=
  din ← rinode rootino;
  let off := xint (d_size din) in
  let off := u32 ((off / BSIZE + 1) * BSIZE) in
  winode rootino (set_size (xint off) din).

(** The arguments after the name of the image. *)
Definition main (args : list (list Z)) : M image () :=
  modify (set_freeblock nmeta);;
  for_each (seqZ 0 FSSIZE) (λ i, wsect i zero_block);;
  wsect 1 sb_block;;
  rootino ← ialloc T_DIR;
  if negb (rootino =? ROOTINO) then panic "assert: rootino" else
  iappend rootino (new_dirent [46] rootino);;
  iappend rootino (new_dirent [46; 46] rootino);;
  add_files rootino args;;
  fix_root rootino;;
  used ← gets freeblock;
  balloc used.

End host.

(** The variables of the program before [main]. *)
Definition blank : image := Image ∅ 1 0.
