(* ===== verification/MkfsSpec.v ===== *)
(** The image that mkfs.c builds: every file of the host is in it byte for
    byte, under its name in the root directory, in a file system that is
    well-formed in the kernel's sense. *)

From S2P Require Import Prelude Mmu Block Log Fs FsAlloc FsData FsRw FsInode Mkfs.

(** ** Lists *)

Definition pad (n : nat) (l : list Z) : list Z := l ++ replicate (n - length l) 0.

Lemma length_pad n l : (length l ≤ n)%nat → length (pad n l) = n.
Proof. intros H. unfold pad. rewrite length_app, length_replicate. lia. Qed.

Lemma insert_pad n l x : (length l < n)%nat → <[length l := x]> (pad n l) = pad n (l ++ [x]).
Proof.
  intros H. unfold pad. rewrite insert_app_r_alt, Nat.sub_diag by lia. rewrite length_app. cbn [length].
  replace (n - length l)%nat with (S (n - (length l + 1))) by lia. cbn. by rewrite <- app_assoc.
Qed.

Lemma nth_pad n l i : nth i (pad n l) 0 = nth i l 0.
Proof.
  unfold pad. destruct (decide (i < length l)%nat); [by rewrite app_nth1|].
  rewrite app_nth2, (nth_overflow l) by lia.
  rewrite nth_lookup. destruct (_ !! _) eqn:E; [by apply lookup_replicate in E as [-> _]|done].
Qed.

Lemma pad_grow n m l : (length l ≤ n)%nat → pad n l ++ replicate m 0 = pad (n + m) l.
Proof. intros H. unfold pad. rewrite <- app_assoc, <- replicate_add. do 2 f_equal. lia. Qed.

(** The addresses of a block of pointers. *)
Lemma encode_addrs_app l1 l2 : encode_addrs (l1 ++ l2) = encode_addrs l1 ++ encode_addrs l2.
Proof. induction l1 as [|a l1 IH]; [done|]. cbn [encode_addrs app]. by rewrite IH, app_assoc. Qed.

Lemma encode_addrs_zero n : encode_addrs (replicate n 0) = replicate (4 * n) 0.
Proof. induction n as [|n IH]; [done|]. replace (4 * S n)%nat with (4 + 4 * n)%nat by lia. cbn [replicate encode_addrs]. by rewrite IH. Qed.

Lemma encode_addrs_bytes l : Forall (λ x, 0 ≤ x < 256) (encode_addrs l).
Proof. induction l; [done|]. cbn [encode_addrs]. apply Forall_app. split; [apply to_le_bytes|done]. Qed.

Lemma put32_addrs l i x : (i < length l)%nat → put32 (encode_addrs l) (4 * i) x = encode_addrs (<[i := x]> l).
Proof.
  intros Hi. destruct (lookup_lt_is_Some_2 l i Hi) as [y Hy]. rewrite <- (take_drop_middle l i y Hy) at 1.
  rewrite (insert_take_drop l i x) by done. rewrite !encode_addrs_app. cbn [encode_addrs]. unfold put32, put_bytes.
  assert (length (encode_addrs (take i l)) = 4 * i)%nat as E by (rewrite length_encode_addrs, length_take; lia).
  rewrite length_to_le, take_app_length' by done. do 2 f_equal.
  rewrite drop_app_ge by lia. rewrite E, drop_app_length' by (rewrite length_to_le; lia). done.
Qed.

Lemma get32_addrs l i : Forall (λ a, 0 ≤ a < 2 ^ 32) l → (i < length l)%nat → get32 (encode_addrs l) (4 * i) = nth i l 0.
Proof.
  intros Hl Hi. destruct (lookup_lt_is_Some_2 l i Hi) as [y Hy]. rewrite nth_lookup, Hy. cbn.
  rewrite <- (take_drop_middle l i y Hy) at 1. rewrite encode_addrs_app. cbn [encode_addrs].
  apply get32_app; [rewrite length_encode_addrs, length_take; lia|].
  apply (Forall_lookup_1 _ _ _ _ Hl Hy).
Qed.

(** ** The files of an image *)

(** A file with the blocks it has: those of its bytes in order, and the
    block of pointers or 0. *)
Record mfile := Mf { m_type : Z; m_bytes : list Z; m_bl : list Z; m_ind : Z }.

Definition m_din (f : mfile) (sz : Z) : dinode :=
  Din (m_type f) 0 0 1 sz (pad 12 (take 12 (m_bl f)) ++ [m_ind f]).
Definition owned (f : mfile) : list Z := m_bl f ++ (if m_ind f =? 0 then [] else [m_ind f]).
Definition owns (fl : list mfile) : list Z := mjoin (owned <$> fl).

Definition view (s : image) (b : Z) : block := default zero_block (im_disk s !! b).

Record on_disk (v : Z → block) (f : mfile) : Prop := {
  od_max : (length (m_bl f) ≤ 140)%nat;
  od_dir : m_ind f = 0 → (length (m_bl f) ≤ 12)%nat;
  od_ind : m_ind f ≠ 0 → v (m_ind f) = encode_addrs (pad 128 (drop 12 (m_bl f)));
  od_len : (length (m_bytes f) ≤ 512 * length (m_bl f))%nat;
  od_data : concat (v <$> m_bl f) = pad (512 * length (m_bl f)) (m_bytes f);
}.

(** The blocks handed out are those of the files, each once; the others are
    still zero. *)
Record inv (s : image) (fl : list mfile) : Prop := {
  iv_sect b : 0 ≤ b < 1000 → ∃ x, im_disk s !! b = Some x ∧ block_ok x;
  iv_next : 59 ≤ freeblock s ≤ 1000;
  iv_zero b : freeblock s ≤ b < 1000 → view s b = zero_block;
  iv_own : owns fl ≡ₚ seqZ 59 (freeblock s - 59);
  iv_on : Forall (on_disk (view s)) fl;
}.

Lemma owns_split fl k f : fl !! k = Some f → owns fl ≡ₚ owned f ++ owns (delete k fl).
Proof.
  intros Hk. rewrite <- (take_drop_middle fl k f Hk) at 1. rewrite delete_take_drop. unfold owns.
  rewrite !fmap_app, fmap_cons, !join_app. cbn. rewrite !app_assoc. by rewrite (Permutation_app_comm (mjoin _)).
Qed.

Lemma delete_insert_file (fl : list mfile) (k : nat) f : delete k (<[k := f]> fl) = delete k fl.
Proof.
  rewrite !delete_take_drop. by rewrite take_insert_ge, drop_insert_lt by lia.
Qed.

Lemma on_disk_same v v' f : (∀ b, b ∈ owned f → v' b = v b) → on_disk v f → on_disk v' f.
Proof.
  unfold owned. intros H [H1 H2 H3 H4 H5]. split; try done.
  - intros Hi. rewrite H; [by apply H3|]. apply elem_of_app. right. rewrite (proj2 (Z.eqb_neq _ _) Hi). by left.
  - rewrite <- H5. f_equal. apply list_fmap_ext. intros i b Hb. apply H, elem_of_app. left. by eapply list_elem_of_lookup_2.
Qed.

Lemma owned_range s fl k f b : inv s fl → fl !! k = Some f → b ∈ owned f → 59 ≤ b < freeblock s.
Proof.
  intros I Hk Hb. assert (b ∈ seqZ 59 (freeblock s - 59)) as H%elem_of_seqZ; [|lia].
  rewrite <- (iv_own _ _ I), (owns_split _ _ _ Hk). apply elem_of_app. by left.
Qed.

Lemma other_owned s fl k f k' f' b : inv s fl → fl !! k = Some f → fl !! k' = Some f' → k ≠ k' → b ∈ owned f → b ∉ owned f'.
Proof.
  intros I Hk Hk' Hne Hb Hb'. pose proof (NoDup_seqZ 59 (freeblock s - 59)) as N.
  rewrite <- (iv_own _ _ I), (owns_split _ _ _ Hk) in N. apply NoDup_app in N as (_ & N & _).
  apply (N _ Hb). apply list_elem_of_join. exists (owned f'). split; [done|]. apply list_elem_of_fmap. exists f'. split; [done|].
  destruct (decide (k' < k)%nat).
  - apply (list_elem_of_lookup_2 _ k'). by rewrite list_lookup_delete_lt.
  - apply (list_elem_of_lookup_2 _ (k' - 1)%nat). rewrite list_lookup_delete_ge by lia. by replace (S (k' - 1)) with k' by lia.
Qed.

Lemma owned_nodup s fl k f : inv s fl → fl !! k = Some f → NoDup (owned f).
Proof.
  intros I Hk. pose proof (NoDup_seqZ 59 (freeblock s - 59)) as N. rewrite <- (iv_own _ _ I), (owns_split _ _ _ Hk) in N.
  by apply NoDup_app in N as (N & _ & _).
Qed.

(** One file changes: it may take the next blocks, and only its own blocks
    are written. *)
Lemma inv_update s fl k f s' f' n :
  inv s fl → fl !! k = Some f → freeblock s' = freeblock s + n → 0 ≤ n → freeblock s + n ≤ 1000 →
  owned f' ≡ₚ owned f ++ seqZ (freeblock s) n →
  (∀ b, b ∉ owned f' → im_disk s' !! b = im_disk s !! b) →
  (∀ b, b ∈ owned f' → ∃ x, im_disk s' !! b = Some x ∧ block_ok x) →
  on_disk (view s') f' → inv s' (<[k := f']> fl).
Proof.
  intros I Hk En Hn Hmax Hown Hout Hin Hon. pose proof (iv_next _ _ I).
  assert (owns (<[k := f']> fl) ≡ₚ seqZ 59 (freeblock s' - 59)) as Ho.
  { rewrite (owns_split _ k f') by (apply list_lookup_insert_eq; by eapply lookup_lt_Some).
    rewrite delete_insert_file, Hown, (Permutation_app_comm (owned f)), <- app_assoc, <- (owns_split _ _ _ Hk), (iv_own _ _ I).
    rewrite Permutation_app_comm. replace (freeblock s' - 59) with ((freeblock s - 59) + n) by lia.
    rewrite seqZ_app by lia. by replace (59 + (freeblock s - 59)) with (freeblock s) by lia. }
  assert (∀ b, b ∈ owned f' → b < freeblock s') as Hr.
  { intros b Hb. assert (b ∈ seqZ 59 (freeblock s' - 59)) as H'%elem_of_seqZ; [|lia]. rewrite <- Ho.
    rewrite (owns_split _ k f') by (apply list_lookup_insert_eq; by eapply lookup_lt_Some). apply elem_of_app. by left. }
  split; [| |  |done|].
  - intros b Hb. destruct (decide (b ∈ owned f')); [by apply Hin|]. rewrite Hout by done. by apply (iv_sect _ _ I).
  - lia.
  - intros b Hb. unfold view. rewrite Hout by (intros ?%Hr; lia). apply (iv_zero _ _ I). lia.
  - apply Forall_lookup. intros k' g Hg. destruct (decide (k = k')) as [<-|Hne].
    + rewrite list_lookup_insert_eq in Hg by by eapply lookup_lt_Some. by injection Hg as <-.
    + rewrite list_lookup_insert_ne in Hg by done. apply (on_disk_same (view s)); [|by eapply Forall_lookup_1; [apply I|]].
      intros b Hb. unfold view. rewrite Hout; [done|]. rewrite Hown, elem_of_app, elem_of_seqZ. intros [Hb'|Hb'].
      * by apply (other_owned s fl k f k' g b).
      * pose proof (owned_range s fl k' g b I Hg Hb). lia.
Qed.

(** ** Numbers and sectors *)

Lemma xint_id x : 0 ≤ x < 2 ^ 32 → xint x = x.
Proof.
  intros H. unfold xint, u8. cbn [of_le]. rewrite !Z.shiftr_div_pow2 by lia.
  change (2 ^ 16) with (2 ^ 8 * 2 ^ 8). change (2 ^ 24) with (2 ^ 8 * 2 ^ 8 * 2 ^ 8). rewrite <- !Z.div_div by lia.
  change (2 ^ 8) with 256. pose proof (Z.div_mod x 256). pose proof (Z.div_mod (x / 256) 256).
  pose proof (Z.div_mod (x / 256 / 256) 256). 
  assert (x / 256 / 256 / 256 < 256) by (rewrite !Z.div_div by lia; apply Z.div_lt_upper_bound; lia).
  rewrite (Z.mod_small (x / 256 / 256 / 256)) by (split; [repeat (apply Z.div_pos; [|lia])|]; lia). lia.
Qed.

Lemma sector_id b : 0 ≤ b < 1000 → sector b = b.
Proof. intros H. unfold sector, BSIZE. rewrite u32_small by lia. apply Z.div_mul. lia. Qed.

Lemma rsect_wp s b Q :
  0 ≤ b < 1000 → (∃ x, im_disk s !! b = Some x ∧ block_ok x) → (block_ok (view s b) → Q (view s b) s) → wp (rsect b) Q s.
Proof.
  intros Hb (x & Hx & Ok) HQ. unfold rsect. apply wp_bind, wp_gets. rewrite sector_id, Hx by done. apply wp_ret.
  unfold view in HQ. rewrite Hx in HQ. by apply HQ.
Qed.

Definition write_sect (b : Z) (x : block) (s : image) : image := set_disk (<[b := x]> (im_disk s)) s.

Lemma wsect_wp s b x Q : 0 ≤ b < 1000 → Q tt (write_sect b x s) → wp (wsect b x) Q s.
Proof. intros Hb HQ. apply wp_modify. by rewrite sector_id. Qed.

Lemma view_write b x s b' : view (write_sect b x s) b' = if decide (b = b') then x else view s b'.
Proof.
  unfold view. cbn [im_disk write_sect set_disk]. case_decide as E; [subst b'; by rewrite lookup_insert_eq|by rewrite lookup_insert_ne].
Qed.

Lemma next_block_wp s Q : 0 ≤ freeblock s < 1000 → Q (freeblock s) (set_freeblock (freeblock s + 1) s) → wp next_block Q s.
Proof. intros H HQ. apply wp_bind, wp_gets, wp_bind, wp_modify, wp_ret. by rewrite u32_small by lia. Qed.

(** ** The addresses in an inode *)

Lemma addr_direct f sz (m : nat) : (m < 12)%nat → addr_of (m_din f sz) (Z.of_nat m) = nth m (m_bl f) 0.
Proof.
  intros H. unfold addr_of, m_din. cbn [d_addrs]. rewrite Nat2Z.id.
  rewrite app_nth1 by (rewrite length_pad; rewrite ?length_take; lia). rewrite nth_pad, !nth_lookup. by rewrite lookup_take_lt.
Qed.

Lemma addr_ind f sz : addr_of (m_din f sz) NDIRECT = m_ind f.
Proof.
  unfold addr_of, m_din. cbn [d_addrs]. change (Z.to_nat NDIRECT) with 12%nat.
  by rewrite app_nth2, length_pad; rewrite ?length_pad; rewrite ?length_take; try lia.
Qed.

Definition add_block (b : Z) (f : mfile) : mfile := Mf (m_type f) (m_bytes f) (m_bl f ++ [b]) (m_ind f).
Definition add_ind (b : Z) (f : mfile) : mfile := Mf (m_type f) (m_bytes f) (m_bl f) b.

Lemma set_addr_direct f sz b :
  (length (m_bl f) < 12)%nat → set_addr (Z.of_nat (length (m_bl f))) b (m_din f sz) = m_din (add_block b f) sz.
Proof.
  intros H. unfold set_addr, m_din, add_block. cbn. f_equal. rewrite Nat2Z.id.
  rewrite insert_app_l by (rewrite length_pad; rewrite ?length_take; lia). f_equal.
  rewrite !take_ge by (rewrite ?length_app; cbn; lia). by apply insert_pad.
Qed.

Lemma set_addr_ind f sz b : set_addr NDIRECT b (m_din f sz) = m_din (add_ind b f) sz.
Proof.
  unfold set_addr, m_din, add_ind. cbn. f_equal. change (Z.to_nat NDIRECT) with 12%nat.
  assert (length (pad 12 (take 12 (m_bl f))) = 12%nat) as E by (apply length_pad; rewrite length_take; lia).
  by rewrite insert_app_r_alt, E by lia.
Qed.

(** ** Taking a block *)

Definition took (s : image) : image := set_freeblock (freeblock s + 1) s.

Section take_block.
Context (s : image) (fl : list mfile) (k : nat) (f : mfile).
Context (I : inv s fl) (Hk : fl !! k = Some f) (Hroom : freeblock s < 1000).
Let b := freeblock s.

Lemma file_on : on_disk (view s) f.
Proof using I Hk. by eapply Forall_lookup_1; [apply I|]. Qed.

Lemma fresh_nonzero : (b =? 0) = false.
Proof using I. pose proof (iv_next _ _ I). unfold b. lia. Qed.

Lemma owned_add_block : owned (add_block b f) ≡ₚ owned f ++ seqZ b 1.
Proof using. unfold owned, add_block. cbn. rewrite <- !app_assoc. f_equiv. apply Permutation_app_comm. Qed.

Lemma owned_add_ind : m_ind f = 0 → owned (add_ind b f) ≡ₚ owned f ++ seqZ b 1.
Proof using I. intros E. unfold owned, add_ind. cbn. rewrite fresh_nonzero, E. cbn. by rewrite app_nil_r. Qed.

Lemma owned_sect f' x : owned f' ≡ₚ owned f ++ seqZ b 1 → x ∈ owned f' → ∃ y, im_disk s !! x = Some y ∧ block_ok y.
Proof using I Hk Hroom.
  intros ->. rewrite elem_of_app, elem_of_seqZ. pose proof (iv_next _ _ I). unfold b. intros [Hx|Hx].
  - pose proof (owned_range _ _ _ _ _ I Hk Hx). apply I. lia.
  - apply I. lia.
Qed.

(** A new last block of zeroes. *)
Lemma data_add v : v b = zero_block → (∀ x, x ∈ m_bl f → v x = view s x) →
  concat (v <$> m_bl f ++ [b]) = pad (512 * length (m_bl f ++ [b])) (m_bytes f).
Proof using I Hk.
  intros E Hv. destruct file_on as [_ _ _ Hl Hd]. rewrite fmap_app, concat_app. cbn. rewrite E, app_nil_r.
  assert (v <$> m_bl f = view s <$> m_bl f) as ->.
  { apply list_fmap_ext. intros i x Hx. apply Hv. by eapply list_elem_of_lookup_2. }
  rewrite Hd, length_app. cbn [length]. unfold zero_block. rewrite pad_grow by done. f_equal. lia.
Qed.

Lemma take_direct : (length (m_bl f) < 12)%nat → inv (took s) (<[k := add_block b f]> fl).
Proof using I Hk Hroom.
  intros Hl. pose proof file_on as [H1 H2 H3 H4 H5]. pose proof (iv_next _ _ I).
  apply (inv_update s fl k f _ _ 1); [done..|lia|lia|apply owned_add_block|done|intros x; apply owned_sect, owned_add_block|].
  split; cbn [add_block m_bl m_ind m_bytes]; rewrite ?length_app; cbn [length].
  - lia.
  - lia.
  - intros Hi. specialize (H3 Hi). rewrite drop_ge in H3 by lia. rewrite drop_ge by (rewrite length_app; cbn; lia). done.
  - lia.
  - rewrite <- length_app with (l' := [b]). apply data_add; [|done]. apply (iv_zero _ _ I). unfold b. lia.
Qed.

Lemma take_ind : m_ind f = 0 → inv (took s) (<[k := add_ind b f]> fl).
Proof using I Hk Hroom.
  intros Ei. pose proof file_on as [H1 H2 H3 H4 H5]. pose proof (iv_next _ _ I).
  apply (inv_update s fl k f _ _ 1); [done..|lia|lia|by apply owned_add_ind|done|intros x; by apply owned_sect, owned_add_ind|].
  split; cbn [add_ind m_bl m_ind m_bytes]; try done.
  - intros _. by apply H2.
  - intros _. rewrite drop_ge by by apply H2. etrans; [apply (iv_zero _ _ I); unfold b; lia|]. symmetry. apply (encode_addrs_zero 128).
Qed.

(** The new block is entered into the block of pointers. *)
Lemma take_entry : m_ind f ≠ 0 → (12 ≤ length (m_bl f) < 140)%nat →
  inv (write_sect (m_ind f) (put32 (view s (m_ind f)) (4 * (length (m_bl f) - 12)) b) (took s)) (<[k := add_block b f]> fl).
Proof using I Hk Hroom.
  intros Hi Hl. pose proof file_on as [H1 H2 H3 H4 H5]. pose proof (iv_next _ _ I). rewrite (H3 Hi).
  assert (m_ind f ∈ owned f) as Hin by (apply elem_of_app; right; rewrite (proj2 (Z.eqb_neq _ _) Hi); by left).
  pose proof (owned_range _ _ _ _ _ I Hk Hin) as Hr.
  assert (length (drop 12 (m_bl f)) = length (m_bl f) - 12)%nat as Ed by apply length_drop.
  rewrite put32_addrs by (rewrite length_pad; lia). rewrite <- Ed at 1. rewrite insert_pad by lia.
  apply (inv_update s fl k f _ _ 1); [done..|lia|lia|apply owned_add_block| | |].
  - intros x Hx. cbn. rewrite lookup_insert_ne; [done|]. intros <-. apply Hx. rewrite owned_add_block. apply elem_of_app. by left.
  - intros x Hx. cbn. destruct (decide (m_ind f = x)) as [<-|]; [|rewrite lookup_insert_ne by done; by eapply owned_sect, Hx; apply owned_add_block].
    rewrite lookup_insert_eq. eexists. split; [done|]. split; [|apply encode_addrs_bytes].
    rewrite length_encode_addrs, length_pad; [done|]. rewrite length_app, Ed. cbn. lia.
  - assert (∀ x, x ∈ m_bl f → x ≠ m_ind f) as Hne.
    { intros x Hx ->. pose proof (owned_nodup s fl k f I Hk) as N. unfold owned in N. rewrite (proj2 (Z.eqb_neq _ _) Hi) in N.
      apply NoDup_app in N as (_ & N & _). apply (N _ Hx). by left. }
    split; cbn [add_block m_bl m_ind m_bytes]; rewrite ?length_app; cbn [length]; try lia.
    + intros _. rewrite view_write, decide_True by done. by rewrite drop_app_le by lia.
    + rewrite <- length_app with (l' := [b]). apply data_add.
      * rewrite view_write, decide_False by (unfold b; lia). apply (iv_zero _ _ I). unfold b. lia.
      * intros x Hx. rewrite view_write, decide_False; [done|]. intros E. by apply (Hne x Hx).
Qed.
End take_block.

(** ** Appending *)

(** What appending to a file leaves alone. *)
Record kept (s s' : image) : Prop := {
  kp_ino : freeinode s' = freeinode s;
  kp_meta b : b < 59 → im_disk s' !! b = im_disk s !! b;
}.

#[global] Instance kept_preorder : PreOrder kept.
Proof. split; [done|]. intros s1 s2 s3 [E1 H1] [E2 H2]. split; [congruence|]. intros b Hb. by rewrite H2, H1. Qed.

Lemma kept_took s : kept s (took s).
Proof. done. Qed.

Lemma kept_write s b x : 59 ≤ b → kept s (write_sect b x s).
Proof. intros Hb. split; [done|]. intros b' Hb'. cbn. by rewrite lookup_insert_ne by lia. Qed.

(** The blocks that mapping block [m] of a file takes. *)
Definition need (f : mfile) (m : nat) : Z :=
  if (m <? length (m_bl f))%nat then 0 else if (m_ind f =? 0) && negb (m <? 12)%nat then 2 else 1.

(** [f'] is [f] with block [m] mapped, to [x]. *)
Record mapped (f f' : mfile) (m : nat) (x : Z) : Prop := {
  mp_type : m_type f' = m_type f;
  mp_bytes : m_bytes f' = m_bytes f;
  mp_at : m_bl f' !! m = Some x;
  mp_len : length (m_bl f') = Nat.max (length (m_bl f)) (S m);
  mp_ind : (m_ind f' =? 0) = (m_ind f =? 0) && (m <? 12)%nat;
}.

Lemma mapped_old f m x : (m_ind f = 0 → (length (m_bl f) ≤ 12)%nat) → m_bl f !! m = Some x → mapped f f m x.
Proof.
  intros H Hx. pose proof (lookup_lt_Some _ _ _ Hx). split; [done..|lia|].
  destruct (Z.eqb_spec (m_ind f) 0) as [E|]; [|done]. symmetry. apply Nat.ltb_lt. specialize (H E). lia.
Qed.

Lemma mapped_new f f' x :
  m_type f' = m_type f → m_bytes f' = m_bytes f → m_bl f' = m_bl f ++ [x] →
  (m_ind f' =? 0) = (m_ind f =? 0) && (length (m_bl f) <? 12)%nat → mapped f f' (length (m_bl f)) x.
Proof.
  intros H1 H2 H3 H4. split; [done|done| | |done]; rewrite H3; [by apply list_lookup_middle|rewrite length_app; cbn; lia].
Qed.

Section append.
Context (fl : list mfile) (k : nat).

Lemma block_range s f (m : nat) x : inv s fl → fl !! k = Some f → m_bl f !! m = Some x → 59 ≤ x < freeblock s.
Proof. intros I Hk Hx. apply (owned_range s fl k f); [done..|]. apply elem_of_app. left. by eapply list_elem_of_lookup_2. Qed.

Lemma block_nth s f (m : nat) :
  inv s fl → fl !! k = Some f → xint (nth m (m_bl f) 0) = nth m (m_bl f) 0 ∧
  (nth m (m_bl f) 0 =? 0) = negb (m <? length (m_bl f))%nat.
Proof.
  intros I Hk. pose proof (iv_next _ _ I). rewrite nth_lookup. destruct (m_bl f !! m) as [x|] eqn:E.
  - change (default 0 (Some x)) with x. pose proof (block_range s f m x I Hk E). apply lookup_lt_Some in E. apply Nat.ltb_lt in E. rewrite E.
    split; [apply xint_id; lia|]. apply Z.eqb_neq. lia.
  - apply lookup_ge_None in E. apply Nat.ltb_ge in E. by rewrite E.
Qed.

Lemma block_direct_wp s f sz m Q :
  inv s fl → fl !! k = Some f → (m ≤ length (m_bl f))%nat → (m < 12)%nat → freeblock s + need f m ≤ 1000 →
  (∀ s' f' x, inv s' (<[k := f']> fl) → kept s s' → mapped f f' m x → Q (m_din f' sz, x) s') →
  wp (iappend_block (m_din f sz) (Z.of_nat m)) Q s.
Proof.
  intros I Hk Hm H12 Hn HQ. unfold iappend_block. change NDIRECT with 12. rewrite (proj2 (Z.ltb_lt _ _)) by lia.
  destruct (block_nth s f m I Hk) as [E1 E2]. pose proof (file_on s fl k f I Hk) as On. pose proof (iv_next _ _ I).
  rewrite addr_direct, E1, E2 by done. unfold need in Hn. apply wp_bind.
  destruct (Nat.ltb_spec m (length (m_bl f))) as [Hlt|Hge]; cbn [negb].
  - apply wp_ret, wp_ret. rewrite addr_direct, E1 by done. apply (HQ s f).
    + by rewrite list_insert_id.
    + done.
    + apply mapped_old; [apply On|]. rewrite nth_lookup. destruct (lookup_lt_is_Some_2 _ _ Hlt) as [x Ex]. by rewrite Ex.
  - assert (m = length (m_bl f)) as -> by lia. rewrite (proj2 (Nat.ltb_lt _ _) H12), andb_false_r in Hn.
    apply wp_bind, next_block_wp; [lia|]. rewrite xint_id by lia. rewrite set_addr_direct by done. apply wp_ret, wp_ret.
    rewrite addr_direct by done. cbn [add_block m_bl]. rewrite nth_lookup, list_lookup_middle by done. change (default 0 (Some ?x)) with x.
    rewrite xint_id by lia. eapply HQ; [apply take_direct; [done|done|lia|done]|apply kept_took|].
    apply mapped_new; [done..|]. by rewrite (proj2 (Nat.ltb_lt _ _) H12), andb_true_r.
Qed.

(** The entry of block [m] in the block of pointers. *)
Lemma entry_nth s f (m : nat) :
  inv s fl → fl !! k = Some f → m_ind f ≠ 0 → (12 ≤ m < 140)%nat →
  get32 (view s (m_ind f)) (4 * (m - 12)) = nth m (m_bl f) 0.
Proof.
  intros I Hk Hi Hm. pose proof (file_on s fl k f I Hk) as On. rewrite (od_ind _ _ On Hi). pose proof (od_max _ _ On). pose proof (iv_next _ _ I).
  assert (length (pad 128 (drop 12 (m_bl f))) = 128%nat) as E by (apply length_pad; rewrite length_drop; lia).
  rewrite get32_addrs; [|apply Forall_app; split|lia].
  - rewrite nth_pad, !nth_lookup, lookup_drop. do 2 f_equal. lia.
  - apply Forall_drop, Forall_lookup. intros j x Hx. pose proof (block_range s f j x I Hk Hx). lia.
  - apply Forall_replicate. lia.
Qed.

Lemma ind_range s f : inv s fl → fl !! k = Some f → m_ind f ≠ 0 → 59 ≤ m_ind f < freeblock s.
Proof.
  intros I Hk Hi. apply (owned_range s fl k f); [done..|]. apply elem_of_app. right. rewrite (proj2 (Z.eqb_neq _ _) Hi). by left.
Qed.

(** The part of [iappend_block] after the block of pointers is there. *)
Lemma block_entry_wp s f sz m Q :
  inv s fl → fl !! k = Some f → m_ind f ≠ 0 → (m ≤ length (m_bl f))%nat → (12 ≤ m < 140)%nat →
  freeblock s + need f m ≤ 1000 →
  (∀ s' f' x, inv s' (<[k := f']> fl) → kept s s' → mapped f f' m x → Q (m_din f' sz, x) s') →
  wp (let o := Z.to_nat (4 * (Z.of_nat m - NDIRECT)) in
      indirect ← rsect (xint (addr_of (m_din f sz) NDIRECT));
      indirect ← (if get32 indirect o =? 0 then
                    b ← next_block;
                    let indirect := put32 indirect o (xint b) in
                    wsect (xint (addr_of (m_din f sz) NDIRECT)) indirect;;
                    mret indirect
                  else mret indirect);
      mret (m_din f sz, xint (get32 indirect o))) Q s.
Proof.
  intros I Hk Hi Hm Hr Hn HQ. pose proof (file_on s fl k f I Hk) as On. pose proof (iv_next _ _ I). pose proof (ind_range s f I Hk Hi).
  rewrite addr_ind, xint_id by lia. cbv zeta. replace (Z.to_nat (4 * (Z.of_nat m - NDIRECT))) with (4 * (m - 12))%nat by (unfold NDIRECT; lia).
  apply wp_bind, rsect_wp; [lia|apply I; lia|]. intros Bk. destruct (block_nth s f m I Hk) as [E1 E2].
  rewrite (entry_nth s f m), E2 by done. unfold need in Hn. apply wp_bind.
  destruct (Nat.ltb_spec m (length (m_bl f))) as [Hlt|Hge]; cbn [negb].
  - apply wp_ret, wp_ret. rewrite (entry_nth s f m), E1 by done. apply (HQ s f).
    + by rewrite list_insert_id.
    + done.
    + apply mapped_old; [apply On|]. rewrite nth_lookup. destruct (lookup_lt_is_Some_2 _ _ Hlt) as [x Ex]. by rewrite Ex.
  - assert (m = length (m_bl f)) as -> by lia. rewrite (proj2 (Z.eqb_neq _ _) Hi) in Hn. cbn [andb] in Hn.
    apply wp_bind, next_block_wp; [lia|]. apply wp_bind, wsect_wp; [lia|]. rewrite xint_id by lia. apply wp_ret, wp_ret.
    rewrite get_put32 by (rewrite ?(proj1 Bk); lia). rewrite xint_id by lia.
    replace (m_din f sz) with (m_din (add_block (freeblock s) f) sz); cycle 1.
    { unfold m_din, add_block. cbn. by rewrite take_app_le by lia. }
    eapply HQ; [by apply take_entry; [done|done|lia|done|lia]|etrans; [apply kept_took|apply kept_write; lia]|].
    apply mapped_new; [done..|]. change (m_ind (add_block _ f)) with (m_ind f). by rewrite (proj2 (Z.eqb_neq _ _) Hi).
Qed.

End append.

Lemma iappend_block_wp s fl k f sz m Q :
  inv s fl → fl !! k = Some f → (m ≤ length (m_bl f))%nat → (m < 140)%nat → freeblock s + need f m ≤ 1000 →
  (∀ s' f' x, inv s' (<[k := f']> fl) → kept s s' → mapped f f' m x → Q (m_din f' sz, x) s') →
  wp (iappend_block (m_din f sz) (Z.of_nat m)) Q s.
Proof.
  intros I Hk Hm H140 Hn HQ. destruct (decide (m < 12)%nat) as [H12|H12]; [by eapply block_direct_wp|].
  unfold iappend_block. change (Z.of_nat m <? NDIRECT) with (Z.of_nat m <? 12). rewrite (proj2 (Z.ltb_ge _ _)) by lia.
  pose proof (iv_next _ _ I). pose proof (file_on s fl k f I Hk) as On. apply wp_bind. rewrite addr_ind.
  destruct (decide (m_ind f = 0)) as [E|E].
  - rewrite E. change (xint 0 =? 0) with true. pose proof (od_dir _ _ On E). unfold need in Hn.
    rewrite E, (proj2 (Nat.ltb_ge _ _)), (proj2 (Nat.ltb_ge m 12)) in Hn by lia. cbn [andb negb Z.eqb] in Hn.
    apply wp_bind, next_block_wp; [lia|]. rewrite xint_id, set_addr_ind by lia. apply wp_ret.
    assert (<[k := add_ind (freeblock s) f]> fl !! k = Some (add_ind (freeblock s) f)) as Hk'
      by (apply list_lookup_insert_eq; by eapply lookup_lt_Some).
    eapply (block_entry_wp _ k (took s) (add_ind (freeblock s) f)); [apply take_ind; [done|done|lia|done]|exact Hk'|cbn; lia|exact Hm|lia| |].
    + unfold need. cbn [add_ind m_bl m_ind took freeblock set_freeblock]. rewrite (fresh_nonzero s fl I). cbn [andb].
      rewrite (proj2 (Nat.ltb_ge _ _)) by lia. lia.
    + intros s' f' x I' Kp [M1 M2 M3 M4 M5]. rewrite list_insert_insert_eq in I'. apply (HQ s' f' x); [done|etrans; [apply kept_took|done]|].
      split; [done..|]. rewrite M5, E. cbn [add_ind m_ind]. rewrite (fresh_nonzero s fl I).
      symmetry. apply Nat.ltb_ge. lia.
  - pose proof (ind_range fl k s f I Hk E). rewrite xint_id, (proj2 (Z.eqb_neq _ _)) by lia. apply wp_ret.
    eapply block_entry_wp; [done..|lia|done|done].
Qed.

(** ** Writing bytes into the last block *)

Lemma put_bytes_pad n l p : (length l + length p ≤ n)%nat → put_bytes (pad n l) (length l) p = pad n (l ++ p).
Proof.
  intros H. unfold put_bytes, pad. rewrite take_app_length, <- app_assoc. do 2 f_equal.
  rewrite drop_app_ge by lia. rewrite drop_replicate, length_app. f_equal. lia.
Qed.

Lemma put_bytes_app_r l1 l2 o p : put_bytes (l1 ++ l2) (length l1 + o) p = l1 ++ put_bytes l2 o p.
Proof.
  unfold put_bytes. rewrite take_app_add. rewrite <- app_assoc. do 3 f_equal.
  rewrite <- Nat.add_assoc. apply drop_app_add.
Qed.

Lemma length_blocks (v : Z → block) l : (∀ b, b ∈ l → length (v b) = 512%nat) → length (concat (v <$> l)) = (512 * length l)%nat.
Proof.
  induction l as [|b l IH]; intros H; [done|]. cbn [fmap list_fmap concat length]. rewrite length_app, H, IH by (set_solver).
  lia.
Qed.

Lemma write_last s fl k f x p :
  inv s fl → fl !! k = Some f → m_bl f !! (length (m_bytes f) / 512)%nat = Some x →
  length (m_bl f) = S (length (m_bytes f) / 512) → (length (m_bytes f) mod 512 + length p ≤ 512)%nat →
  Forall (λ x, 0 ≤ x < 256) p →
  inv (write_sect x (put_bytes (view s x) (length (m_bytes f) mod 512) p) s)
    (<[k := Mf (m_type f) (m_bytes f ++ p) (m_bl f) (m_ind f)]> fl).
Proof.
  intros I Hk Hx Hl Hp Hb. pose proof (iv_next _ _ I). pose proof (file_on s fl k f I Hk) as [H1 H2 H3 H4 H5].
  pose proof (Nat.div_mod_eq (length (m_bytes f)) 512) as Hdm. set (m := (length (m_bytes f) / 512)%nat) in *.
  set (r := (length (m_bytes f) mod 512)%nat) in *. pose proof (block_range fl k s f m x I Hk Hx) as Hr.
  assert (∀ b, b ∈ owned f → ∃ y, im_disk s !! b = Some y ∧ block_ok y) as Hok
    by (intros b Hbo; apply I; pose proof (owned_range _ _ _ _ _ I Hk Hbo); lia).
  assert (∀ b, b ∈ m_bl f → block_ok (view s b)) as Hok'.
  { intros b Hbo. destruct (Hok b) as (y & Hy & Ok); [by apply elem_of_app; left|]. unfold view. by rewrite Hy. }
  assert (x ∈ m_bl f) as Hin by by eapply list_elem_of_lookup_2.
  assert (block_ok (put_bytes (view s x) r p)) as Okx by (apply block_ok_put; [by apply Hok'|lia|done]).
  pose proof (owned_nodup s fl k f I Hk) as (N & Ni & _)%NoDup_app.
  pose proof (take_drop_middle _ _ _ Hx) as El. rewrite drop_ge in El by lia.
  apply (inv_update s fl k f _ _ 0); [done..|cbn; lia|lia|lia|cbn; by rewrite app_nil_r| | |].
  - intros b Hbo. cbn. rewrite lookup_insert_ne; [done|]. intros <-. apply Hbo, elem_of_app. by left.
  - intros b Hbo. cbn. destruct (decide (x = b)) as [<-|]; [rewrite lookup_insert_eq; by eexists|rewrite lookup_insert_ne by done; by apply Hok].
  - split; cbn [m_bl m_ind m_bytes]; rewrite ?length_app; [done|done| |lia|].
    + intros Hi. rewrite view_write, decide_False; [by apply H3|]. intros E. apply (Ni x Hin). rewrite (proj2 (Z.eqb_neq _ _) Hi), E. by left.
    + rewrite <- El in N. apply NoDup_app in N as (_ & N & _). set (s' := write_sect _ _ _).
      assert (concat (view s' <$> take m (m_bl f) ++ [x]) =
              put_bytes (concat (view s <$> take m (m_bl f) ++ [x])) (length (m_bytes f)) p) as E'.
      { rewrite !fmap_app, !concat_app. cbn [fmap list_fmap concat]. rewrite !app_nil_r. unfold s' at 2. rewrite view_write, decide_True by done.
        replace (view s' <$> take m (m_bl f)) with (view s <$> take m (m_bl f)); cycle 1.
        { apply list_fmap_ext. intros i b Hbo. unfold s'. rewrite view_write, decide_False; [done|]. intros <-.
          apply (N x); [by eapply list_elem_of_lookup_2|by left]. }
        rewrite <- put_bytes_app_r. f_equal. rewrite length_blocks; [rewrite length_take; lia|].
        intros b Hbo. apply Hok'. by eapply subseteq_take. }
      rewrite El in E'. by rewrite E', H5, put_bytes_pad by lia.
Qed.

(** ** Counting blocks *)

(** The blocks of [n] bytes, and those a file of [n] bytes takes. *)
Definition ceil (n : nat) : nat := ((n + 511) / 512)%nat.
Definition nblk (n : nat) : nat := if (12 <? ceil n)%nat then S (ceil n) else ceil n.

(** The file has the blocks it needs and no more. *)
Definition tight (f : mfile) : Prop :=
  length (m_bl f) = ceil (length (m_bytes f)) ∧ (m_ind f =? 0) = negb (12 <? length (m_bl f))%nat.

Lemma length_owned f : tight f → length (owned f) = nblk (length (m_bytes f)).
Proof.
  intros [H1 H2]. unfold owned, nblk. rewrite length_app, H1, H2, H1. destruct (12 <? ceil _)%nat; cbn [negb length]; lia.
Qed.

Lemma next_eq s fl k f :
  inv s fl → fl !! k = Some f → tight f →
  freeblock s = 59 + Z.of_nat (nblk (length (m_bytes f)) + length (owns (delete k fl))).
Proof.
  intros I Hk T. rewrite <- (length_owned f T), <- length_app, <- (owns_split _ _ _ Hk), (iv_own _ _ I), length_seqZ.
  pose proof (iv_next _ _ I). lia.
Qed.

Lemma ceil_mono n m : (n ≤ m)%nat → (ceil n ≤ ceil m)%nat.
Proof. intros H. unfold ceil. apply Nat.Div0.div_le_mono. lia. Qed.

Lemma nblk_mono n m : (n ≤ m)%nat → (nblk n ≤ nblk m)%nat.
Proof. intros H%ceil_mono. unfold nblk. destruct (Nat.ltb_spec 12 (ceil n)), (Nat.ltb_spec 12 (ceil m)); lia. Qed.

(** Bytes that stay within the block the last byte lies in, or the next. *)
Lemma ceil_step n n1 : (1 ≤ n1)%nat → (n mod 512 + n1 ≤ 512)%nat → ceil (n + n1) = S (n / 512).
Proof.
  intros H1 H2. unfold ceil. pose proof (Nat.div_mod_eq n 512). 
  symmetry. apply (Nat.div_unique _ _ _ (n mod 512 + n1 - 1)); lia.
Qed.

Lemma ceil_cases n : ceil n = (n / 512)%nat ∨ ceil n = S (n / 512).
Proof.
  unfold ceil. pose proof (Nat.div_mod_eq n 512). pose proof (Nat.mod_upper_bound n 512). destruct (decide (n mod 512 = 0)%nat).
  - left. symmetry. apply (Nat.div_unique _ _ _ 511); lia.
  - right. symmetry. apply (Nat.div_unique _ _ _ (n mod 512 - 1)); lia.
Qed.

Lemma need_bound f n1 :
  tight f → (1 ≤ n1)%nat → (length (m_bytes f) mod 512 + n1 ≤ 512)%nat →
  Z.of_nat (nblk (length (m_bytes f))) + need f (length (m_bytes f) / 512) ≤ Z.of_nat (nblk (length (m_bytes f) + n1)).
Proof.
  intros [T1 T2] H1 H2. unfold need, nblk. rewrite T2, T1. rewrite (ceil_step _ _ H1 H2).
  destruct (ceil_cases (length (m_bytes f))) as [->| ->]; set (m := (length (m_bytes f) / 512)%nat).
  - rewrite Nat.ltb_irrefl. destruct (Nat.ltb_spec 12 m), (Nat.ltb_spec m 12), (Nat.ltb_spec 12 (S m)); cbn [negb andb]; lia.
  - rewrite (proj2 (Nat.ltb_lt m (S m))) by lia. destruct (Nat.ltb_spec 12 (S m)); lia.
Qed.

Lemma tight_step f f1 x n1 p :
  tight f → mapped f f1 (length (m_bytes f) / 512) x → length p = n1 → (1 ≤ n1)%nat → (length (m_bytes f) mod 512 + n1 ≤ 512)%nat →
  length (m_bl f1) = S (length (m_bytes f) / 512) ∧ tight (Mf (m_type f1) (m_bytes f1 ++ p) (m_bl f1) (m_ind f1)).
Proof.
  intros [T1 T2] [_ M2 _ M4 M5] Hp H1 H2. assert (length (m_bl f1) = S (length (m_bytes f) / 512)) as E.
  { rewrite M4, T1. destruct (ceil_cases (length (m_bytes f))) as [->| ->]; lia. }
  split; [done|]. split; cbn [m_bl m_bytes m_ind]; rewrite ?length_app, ?M2, ?Hp.
  - by rewrite E, ceil_step.
  - rewrite M5, T2, T1, E. destruct (ceil_cases (length (m_bytes f))) as [->| ->]; set (m := (length (m_bytes f) / 512)%nat);
      destruct (Nat.ltb_spec 12 m), (Nat.ltb_spec 12 (S m)), (Nat.ltb_spec m 12); try lia; done.
Qed.

(** ** iappend *)

Definition fits_in (fl : list mfile) (k : nat) (n : nat) : Prop :=
  (n ≤ 140 * 512 ∧ 59 + nblk n + length (owns (delete k fl)) ≤ 1000)%nat.

Lemma iappend_loop_wp fuel s fl k f sz p Q :
  inv s fl → fl !! k = Some f → tight f → (length p ≤ fuel)%nat → Forall (λ x, 0 ≤ x < 256) p →
  fits_in fl k (length (m_bytes f) + length p) →
  (∀ s' f', inv s' (<[k := f']> fl) → kept s s' → tight f' → m_type f' = m_type f → m_bytes f' = m_bytes f ++ p →
     Q (m_din f' sz, Z.of_nat (length (m_bytes f'))) s') →
  wp (iappend_loop fuel (m_din f sz) (Z.of_nat (length (m_bytes f))) p) Q s.
Proof.
  revert s fl f p. induction fuel as [|fuel IH]; intros s fl f p I Hk T Hf Hp [R1 R2] HQ; cbn [iappend_loop];
    (destruct (decide (p = [])) as [->|Hne]; [rewrite bool_decide_true by done; apply wp_ret; apply (HQ s f);
      [by rewrite list_insert_id|done..|by rewrite app_nil_r]|rewrite bool_decide_false by done]).
  { destruct p; [done|cbn in Hf; lia]. }
  set (len := length (m_bytes f)) in *. pose proof (Nat.div_mod_eq len 512) as Hdm. pose proof (Nat.mod_upper_bound len 512).
  assert (1 ≤ length p)%nat by (destruct p; [done|cbn; lia]).
  unfold BSIZE, MAXFILE, NDIRECT, NINDIRECT. change (Z.of_nat len / 512) with (Z.of_nat len / Z.of_nat 512). rewrite <- Nat2Z.inj_div.
  rewrite (proj2 (Z.ltb_lt _ _)) by (change (12 + BSIZE / 4) with 140; lia). cbn [negb].
  set (n1 := Nat.min (length p) (512 - len mod 512)).
  replace (Z.to_nat (Z.min _ _)) with n1 by lia.
  replace (Z.to_nat (Z.of_nat len - Z.of_nat (len / 512) * 512)) with (len mod 512)%nat by lia.
  assert (1 ≤ n1 ∧ len mod 512 + n1 ≤ 512)%nat as [Hn1 Hn2] by lia.
  pose proof (next_eq s fl k f I Hk T). pose proof (need_bound f n1 T Hn1 Hn2). pose proof (nblk_mono (len + n1) (len + length p) ltac:(lia)).
  apply wp_bind. eapply (iappend_block_wp s fl k f); [done..| | | |].
  { rewrite (proj1 T). fold len. destruct (ceil_cases len) as [->| ->]; lia. }
  { lia. }
  { unfold len in *. lia. }
  intros s1 f1 x I1 K1 M. cbn [fst snd].
  assert (length (take n1 p) = n1) as Et by (rewrite length_take; lia).
  assert (<[k := f1]> fl !! k = Some f1) as Hk1 by (apply list_lookup_insert_eq; by eapply lookup_lt_Some).
  destruct (tight_step f f1 x n1 (take n1 p) T M Et Hn1 Hn2) as [El T2]. pose proof (mp_at _ _ _ _ M) as Hx. pose proof (mp_bytes _ _ _ _ M) as Eb.
  pose proof (block_range _ _ _ _ _ _ I1 Hk1 Hx). pose proof (iv_next _ _ I1).
  apply wp_bind, rsect_wp; [lia|apply I1; lia|]. intros _. apply wp_bind, wsect_wp; [lia|].
  set (f2 := Mf (m_type f1) (m_bytes f1 ++ take n1 p) (m_bl f1) (m_ind f1)) in *.
  set (s2 := write_sect _ _ _). assert (inv s2 (<[k := f2]> fl)) as I2.
  { rewrite <- (list_insert_insert_eq fl k f2 f1). unfold s2. fold len in Eb. replace (len mod 512)%nat with (length (m_bytes f1) mod 512)%nat by by rewrite Eb.
    apply write_last; [done..| | | |by apply Forall_take]; rewrite Eb; [done..|rewrite Et; done]. }
  assert (length (m_bytes f2) = len + n1)%nat as E2 by (cbn; by rewrite length_app, Eb, Et).
  replace (Z.of_nat len + Z.of_nat n1) with (Z.of_nat (length (m_bytes f2))) by lia.
  assert (kept s s2) as K2 by (etrans; [exact K1|apply kept_write; lia]).
  apply (IH s2 (<[k := f2]> fl) f2); [exact I2|apply list_lookup_insert_eq; by eapply lookup_lt_Some|exact T2|rewrite length_drop; lia|by apply Forall_drop| |].
  - rewrite E2, length_drop. replace (len + n1 + (length p - n1))%nat with (len + length p)%nat by lia. split; [done|by rewrite delete_insert_file].
  - intros s' f' I' K' T' Et' Eb'. rewrite list_insert_insert_eq in I'. apply HQ; [done|by etrans|done| |].
    + rewrite Et'. apply M.
    + rewrite Eb'. cbn. by rewrite Eb, <- app_assoc, take_drop.
Qed.

(** ** The inodes *)

Notation inode_of s inum := (disk_inode mk_sb (view s) inum).

Lemma IBLOCK_mk inum : 0 ≤ inum < 200 → IBLOCK inum mk_sb = inum / 8 + 32.
Proof.
  intros H. unfold IBLOCK. change IPB with 8. change (sb_inodestart mk_sb) with 32. apply u32_small.
  pose proof (Z.div_pos inum 8). pose proof (Z.div_lt_upper_bound inum 8 200). lia.
Qed.

Lemma IBLOCK_mk_range inum : 0 ≤ inum < 200 → 32 ≤ IBLOCK inum mk_sb < 58.
Proof.
  intros H. rewrite IBLOCK_mk by done. pose proof (Z.div_pos inum 8). pose proof (Z.div_lt_upper_bound inum 8 25). lia.
Qed.

Lemma same_inode (v v' : Z → block) inum :
  0 ≤ inum < 200 → (∀ b, 32 ≤ b < 58 → v' b = v b) → disk_inode mk_sb v' inum = disk_inode mk_sb v inum.
Proof. intros H Hv. unfold disk_inode. rewrite Hv; [done|]. by apply IBLOCK_mk_range. Qed.

(** The image after [winode]. *)
Definition wrote_inode (inum : Z) (d : dinode) (s : image) : image :=
  write_sect (IBLOCK inum mk_sb) (store_dinode (view s (IBLOCK inum mk_sb)) (inode_off inum) d) s.

Section winode.
Context (s : image) (fl : list mfile) (I : inv s fl) (inum : Z) (Hi : 0 ≤ inum < 200).

Lemma iblock_sect : ∃ x, im_disk s !! IBLOCK inum mk_sb = Some x ∧ block_ok x.
Proof using I Hi. apply I. pose proof (IBLOCK_mk_range inum Hi). lia. Qed.

Lemma iblock_len : block_ok (view s (IBLOCK inum mk_sb)).
Proof using I Hi. destruct iblock_sect as (x & Hx & Ok). unfold view. by rewrite Hx. Qed.

Lemma rinode_wp Q : Q (inode_of s inum) s → wp (rinode inum) Q s.
Proof using I Hi.
  intros HQ. pose proof (IBLOCK_mk_range inum Hi). apply wp_bind, rsect_wp; [lia|apply iblock_sect|]. intros _. by apply wp_ret.
Qed.

Lemma winode_wp d Q : Q tt (wrote_inode inum d s) → wp (winode inum d) Q s.
Proof using I Hi.
  intros HQ. pose proof (IBLOCK_mk_range inum Hi). apply wp_bind, rsect_wp; [lia|apply iblock_sect|]. intros _. apply wsect_wp; [lia|done].
Qed.

Lemma view_wrote d b : ¬ 32 ≤ b < 58 → view (wrote_inode inum d s) b = view s b.
Proof using Hi. intros Hb. unfold wrote_inode. rewrite view_write, decide_False; [done|]. pose proof (IBLOCK_mk_range inum Hi). lia. Qed.

Context (d : dinode) (Hd : dinode_ok d).

Lemma inode_wrote : inode_of (wrote_inode inum d s) inum = d.
Proof using I Hi Hd.
  unfold disk_inode, wrote_inode. rewrite view_write, decide_True by done. apply load_store_dinode; [done|].
  rewrite (proj1 iblock_len). apply inode_off_range.
Qed.

Lemma inode_wrote_ne inum' : 0 ≤ inum' < 200 → inum' ≠ inum → inode_of (wrote_inode inum d s) inum' = inode_of s inum'.
Proof using I Hi Hd.
  intros Hi' Hne. unfold disk_inode, wrote_inode. rewrite view_write. case_decide as E; [|done]. rewrite E.
  apply load_store_other; [done|rewrite <- E, (proj1 iblock_len); apply inode_off_range..|].
  rewrite !IBLOCK_mk in E by done. unfold inode_off. change IPB with 8. pose proof (Z.div_mod inum 8). pose proof (Z.div_mod inum' 8).
  pose proof (Z.mod_pos_bound inum 8). pose proof (Z.mod_pos_bound inum' 8). lia.
Qed.

Lemma inv_wrote : inv (wrote_inode inum d s) fl.
Proof using I Hi Hd.
  pose proof (IBLOCK_mk_range inum Hi) as Hr. pose proof (iv_next _ _ I). split.
  - intros b Hb. destruct (decide (b = IBLOCK inum mk_sb)) as [->|].
    + eexists. split; [apply lookup_insert_eq|]. rewrite store_dinode_put by (apply Hd || (rewrite (proj1 iblock_len); apply inode_off_range)).
      apply block_ok_put; [apply iblock_len|rewrite length_encode by apply Hd; apply inode_off_range|apply encode_bytes].
    + cbn. rewrite lookup_insert_ne by done. by apply I.
  - done.
  - intros b Hb. cbn in Hb. rewrite view_wrote by lia. by apply I.
  - apply I.
  - apply Forall_lookup. intros k f Hf. apply (on_disk_same (view s)); [|by apply (file_on s fl k)].
    intros b Hb. apply view_wrote. pose proof (owned_range _ _ _ _ _ I Hf Hb). lia.
Qed.
End winode.
