(* ===== verification/MkfsImage.v ===== *)
(** mkfs.c as a whole: the image is the list of its files, [ialloc] adds one
    and [iappend] extends one; [main] puts every file of the host into it,
    and the kernel's predicates hold of the result. *)

From S2P Require Import Prelude Mmu Block Log Fs FsAlloc FsData FsRw FsInode Mkfs MkfsSpec.

(** ** The abstract image: the type and the bytes of inodes 1, 2, ... *)

Notation afile := (Z * list Z)%type.

Definition abs (f : mfile) : afile := (m_type f, m_bytes f).
Definition no_inode : dinode := Din 0 0 0 0 0 (replicate 13 0).

Record img (s : image) (fl : list mfile) : Prop := {
  im_inv : inv s fl;
  im_tight : Forall tight fl;
  im_ino : freeinode s = Z.of_nat (S (length fl));
  im_inode k f : fl !! k = Some f → inode_of s (Z.of_nat (S k)) = m_din f (Z.of_nat (length (m_bytes f)));
  im_none inum : Z.of_nat (length fl) < inum < 200 → inode_of s inum = no_inode;
  im_sb : view s 1 = sb_block;
  im_log b : 2 ≤ b < 32 → view s b = zero_block;
}.

Definition holds (s : image) (fs : list afile) : Prop := ∃ fl, img s fl ∧ abs <$> fl = fs.

(** The blocks of all files, and what the disk has room for. *)
Definition total (fs : list afile) : nat := sum_list ((λ x, nblk (length x.2)) <$> fs).
Definition fits (fs : list afile) : Prop :=
  (length fs ≤ 199)%nat ∧ (59 + total fs ≤ 1000)%nat ∧
  Forall (λ x : afile, (x.1 = T_DIR ∨ x.1 = T_FILE) ∧ (length x.2 ≤ 140 * 512)%nat) fs.

Lemma length_owns fl : Forall tight fl → length (owns fl) = total (abs <$> fl).
Proof.
  induction 1 as [|f fl Hf _ IH]; [done|]. unfold total in *. cbn [fmap list_fmap sum_list]. rewrite <- IH.
  unfold owns. cbn. by rewrite length_app, length_owned.
Qed.

Lemma total_cons x fs : total (x :: fs) = (nblk (length x.2) + total fs)%nat.
Proof. done. Qed.

Lemma total_insert (fs : list afile) k x y :
  fs !! k = Some x → (total (<[k := y]> fs) + nblk (length x.2) = total fs + nblk (length y.2))%nat.
Proof.
  revert k. induction fs as [|z fs IH]; intros [|k] Hk; [done..| |].
  - injection Hk as ->. change (<[0%nat := y]> (x :: fs)) with (y :: fs). rewrite !total_cons. lia.
  - change (<[S k := y]> (z :: fs)) with (z :: <[k := y]> fs). rewrite !total_cons. specialize (IH k Hk). lia.
Qed.

Lemma fits_in_total fl k f n :
  Forall tight fl → fl !! k = Some f → (n ≤ 140 * 512)%nat →
  (59 + total (abs <$> fl) + nblk n ≤ 1000 + nblk (length (m_bytes f)))%nat → fits_in fl k n.
Proof.
  intros T Hk Hn Ht. split; [done|]. rewrite <- length_owns, (owns_split _ _ _ Hk), length_app in Ht by done.
  rewrite length_owned in Ht by by eapply Forall_lookup_1. lia.
Qed.

(** ** The operations *)

Lemma img_kept s s' b : kept s s' → b < 59 → view s' b = view s b.
Proof. intros [_ H] Hb. unfold view. by rewrite H. Qed.

Lemma din_ok s fl k f :
  inv s fl → fl !! k = Some f → (m_type f = T_DIR ∨ m_type f = T_FILE) → (length (m_bytes f) ≤ 140 * 512)%nat →
  dinode_ok (m_din f (Z.of_nat (length (m_bytes f)))).
Proof.
  intros I Hk Ht Hl. pose proof (iv_next _ _ I). unfold T_DIR, T_FILE in Ht. split; cbn [d_type d_major d_minor d_nlink d_size m_din d_addrs].
  1-4: unfold short; lia.
  - lia.
  - rewrite length_app, length_pad; [done|]. rewrite length_take. lia.
  - apply Forall_app. split; [apply Forall_app; split|].
    + apply Forall_take, Forall_lookup. intros j x Hx. pose proof (block_range _ _ _ _ _ _ I Hk Hx). lia.
    + apply Forall_replicate. lia.
    + apply Forall_singleton. destruct (decide (m_ind f = 0)) as [->|E]; [lia|]. pose proof (ind_range _ _ _ _ I Hk E). lia.
Qed.

(** The inode of file [k] is written, after blocks and files have changed. *)
Lemma img_wrote s fl s' fl' k f :
  img s fl → inv s' fl' → (∀ b, b < 59 → view s' b = view s b) → freeinode s' = Z.of_nat (S (length fl')) →
  (length fl ≤ length fl' ≤ 199)%nat → Forall tight fl' → fl' !! k = Some f → (∀ j, j ≠ k → fl' !! j = fl !! j) →
  (m_type f = T_DIR ∨ m_type f = T_FILE) → (length (m_bytes f) ≤ 140 * 512)%nat →
  img (wrote_inode (Z.of_nat (S k)) (m_din f (Z.of_nat (length (m_bytes f)))) s') fl'.
Proof.
  intros [I T Ei In Nn Hsb Hlog] I' Hv Ei' Hlen T' Hf Hj Ht Hl. pose proof (lookup_lt_Some _ _ _ Hf).
  pose proof (din_ok _ _ _ _ I' Hf Ht Hl) as Ok. assert (0 ≤ Z.of_nat (S k) < 200) as Hk by lia.
  assert (∀ inum, 0 ≤ inum < 200 → inode_of s' inum = inode_of s inum) as Hsame
    by (intros; apply same_inode; [done|intros; apply Hv; lia]).
  split.
  - by apply inv_wrote.
  - done.
  - done.
  - intros j g Hg. destruct (decide (j = k)) as [->|Hne].
    + rewrite Hf in Hg. injection Hg as <-. by eapply inode_wrote.
    + pose proof (lookup_lt_Some _ _ _ Hg). rewrite (inode_wrote_ne _ _ I'), Hsame by (done || lia). apply In. by rewrite <- Hj.
  - intros inum Hin. rewrite (inode_wrote_ne _ _ I'), Hsame by (done || lia). apply Nn. lia.
  - rewrite view_wrote, Hv by lia. done.
  - intros b Hb. rewrite view_wrote, Hv by lia. by apply Hlog.
Qed.

Lemma iappend_holds s fs k x p Q :
  holds s fs → fs !! k = Some x → Forall (λ x, 0 ≤ x < 256) p → fits (<[k := (x.1, x.2 ++ p)]> fs) →
  (∀ s', holds s' (<[k := (x.1, x.2 ++ p)]> fs) → Q tt s') → wp (iappend (Z.of_nat (S k)) p) Q s.
Proof.
  intros (fl & Im & <-) Hk Hp (F1 & F2 & F3) HQ. pose proof Im as [I T Ei In _ _ _]. rewrite list_lookup_fmap in Hk.
  destruct (fl !! k) as [f|] eqn:Hf; [|done]. injection Hk as <-. cbn [abs fst snd] in *.
  rewrite length_insert, length_fmap in F1. pose proof (lookup_lt_Some _ _ _ Hf).
  apply (Forall_lookup_1 _ _ k (m_type f, m_bytes f ++ p)) in F3 as [Ft Fl]; [|apply list_lookup_insert_eq; by rewrite length_fmap].
  pose proof (total_insert (abs <$> fl) k (abs f) (m_type f, m_bytes f ++ p) ltac:(by rewrite list_lookup_fmap, Hf)) as Et.
  cbn [abs fst snd] in *. rewrite length_app in *. assert (0 ≤ Z.of_nat (S k) < 200) as Hki by lia.
  apply wp_bind, (rinode_wp _ _ I); [done|]. rewrite (In _ _ Hf). cbn [d_size m_din]. rewrite xint_id by lia. apply wp_bind.
  eapply (iappend_loop_wp _ s fl k f); [done..|by eapply Forall_lookup_1|lia|done|apply (fits_in_total fl k f); [done..|lia]|].
  intros s' f' I' K T' Ety Eb. cbn [fst snd]. assert (length (m_bytes f') ≤ 140 * 512)%nat by (rewrite Eb, length_app; lia).
  rewrite xint_id by lia. change (set_size ?n (m_din f' _)) with (m_din f' n). apply (winode_wp _ _ I'); [done|].
  apply HQ. exists (<[k := f']> fl). split; [apply (img_wrote s fl)|].
  - done.
  - done.
  - intros b Hb. unfold view. by rewrite (kp_meta _ _ K).
  - by rewrite length_insert, (kp_ino _ _ K).
  - rewrite length_insert. lia.
  - by apply Forall_insert.
  - by apply list_lookup_insert_eq.
  - intros j Hj. by apply list_lookup_insert_ne.
  - by rewrite Ety.
  - done.
  - rewrite list_fmap_insert. f_equal. unfold abs. by rewrite Ety, Eb.
Qed.

Lemma ialloc_holds s fs ty Q :
  holds s fs → (length fs < 199)%nat → ty = T_DIR ∨ ty = T_FILE →
  (∀ s', holds s' (fs ++ [(ty, [])]) → Q (Z.of_nat (S (length fs))) s') → wp (ialloc ty) Q s.
Proof.
  intros (fl & Im & <-) Hl Ht HQ. pose proof Im as [I T Ei _ _ _ _]. rewrite length_fmap in *. set (f := Mf ty [] [] 0).
  assert (inv (set_freeinode (Z.of_nat (S (S (length fl)))) s) (fl ++ [f])) as I'.
  { destruct I as [I1 I2 I3 I4 I5]. split; [done..| |].
    - unfold owns. rewrite fmap_app, join_app. cbn. by rewrite app_nil_r.
    - apply Forall_app. split; [done|]. apply Forall_singleton. split; cbn; try done; lia. }
  apply wp_bind, wp_gets. rewrite Ei. apply wp_bind, wp_modify. rewrite u32_small by lia.
  replace (Z.of_nat (S (length fl)) + 1) with (Z.of_nat (S (S (length fl)))) by lia.
  apply wp_bind, (winode_wp _ _ I'); [lia|]. apply wp_ret, HQ. exists (fl ++ [f]). split; [|by rewrite fmap_app].
  replace (Din _ _ _ _ _ _) with (m_din f 0) by by destruct Ht as [->| ->].
  apply (img_wrote s fl _ _ _ f Im I').
  - done.
  - rewrite length_app. cbn. lia.
  - rewrite length_app. cbn. lia.
  - apply Forall_app. split; [done|]. by apply Forall_singleton.
  - by apply list_lookup_middle.
  - intros j Hj. destruct (decide (j < length fl)%nat); [by apply lookup_app_l|].
    rewrite !lookup_ge_None_2; [done|lia|rewrite length_app; cbn; lia].
  - done.
  - apply Nat.le_0_l.
Qed.

(** ** The files of the host *)

Section host.
Context (host : list Z → option (list (list Z))).

Definition content (arg : list Z) : list Z := concat (default [] (host arg)).

(** The entries of the root directory for the arguments. *)
Definition entries (args : list (list Z)) : list (list Z) :=
  imap (λ i arg, new_dirent (skip_underscore arg) (Z.of_nat (S (S i)))) args.
Definition root_dir (args : list (list Z)) : list Z :=
  new_dirent [46] 1 ++ new_dirent [46; 46] 1 ++ concat (entries args).
Definition image_of (args : list (list Z)) : list afile :=
  (T_DIR, root_dir args) :: ((λ a, (T_FILE, content a)) <$> args).

(** An argument that [mkfs] accepts: a name without slashes of a file that
    opens and that [read] delivers in pieces of bytes. *)
Definition arg_ok (arg : list Z) : Prop :=
  (47 ∉ arg) ∧ Forall (λ x, 0 ≤ x < 256) arg ∧ ∃ chunks, host arg = Some chunks ∧ Forall (Forall (λ x, 0 ≤ x < 256)) chunks.

Lemma length_image args : length (image_of args) = S (length args).
Proof. cbn. by rewrite length_fmap. Qed.

Lemma image_file args k arg : args !! k = Some arg → image_of args !! S k = Some (T_FILE, content arg).
Proof.
  intros Hk. change (image_of args !! S k) with (((λ a, (T_FILE, content a)) <$> args) !! k). by rewrite list_lookup_fmap, Hk.
Qed.

(** *** Smaller images fit, too *)

Definition smaller (fs fs' : list afile) : Prop :=
  ∀ k x, fs !! k = Some x → ∃ x', fs' !! k = Some x' ∧ x.1 = x'.1 ∧ (length x.2 ≤ length x'.2)%nat.

Lemma smaller_length fs fs' : smaller fs fs' → (length fs ≤ length fs')%nat.
Proof.
  intros H. destruct (decide (length fs ≤ length fs')%nat) as [|Hn]; [done|].
  destruct (lookup_lt_is_Some_2 fs (length fs')) as [x Hx]; [lia|]. destruct (H _ _ Hx) as (x' & Hx' & _). apply lookup_lt_Some in Hx'. lia.
Qed.

Lemma smaller_total fs fs' : smaller fs fs' → (total fs ≤ total fs')%nat.
Proof.
  revert fs'. induction fs as [|x fs IH]; intros fs' H; [apply Nat.le_0_l|]. destruct (H 0%nat x eq_refl) as (x' & Hx' & _ & Hl).
  destruct fs' as [|y fs']; [done|]. injection Hx' as ->. rewrite !total_cons. apply Nat.add_le_mono; [by apply nblk_mono|].
  apply IH. intros k z Hz. exact (H (S k) z Hz).
Qed.

Lemma smaller_fits fs fs' : smaller fs fs' → fits fs' → fits fs.
Proof.
  intros H (F1 & F2 & F3). pose proof (smaller_length _ _ H). pose proof (smaller_total _ _ H). split; [lia|]. split; [lia|].
  apply Forall_lookup. intros k x Hx. destruct (H k x Hx) as (x' & Hx' & E & Hl).
  destruct (Forall_lookup_1 _ _ _ _ F3 Hx') as [Ht Hl']. rewrite E. split; [done|lia].
Qed.

Lemma smaller_image args args' t bs :
  t = T_DIR → (length bs ≤ length (root_dir (args ++ args')))%nat →
  smaller ((t, bs) :: ((λ a, (T_FILE, content a)) <$> args)) (image_of (args ++ args')).
Proof.
  intros -> Hl [|k] x Hx.
  - injection Hx as <-. eexists. by split.
  - exists x. split; [|done]. cbn in *. rewrite fmap_app. by apply lookup_app_l_Some.
Qed.

Lemma smaller_insert fs k t bs bs' :
  (length bs ≤ length bs')%nat → smaller (<[k := (t, bs)]> fs) (<[k := (t, bs')]> fs).
Proof.
  intros Hl j x Hx. destruct (decide (j = k)) as [->|Hne].
  - assert (k < length fs)%nat by (apply lookup_lt_Some in Hx; by rewrite length_insert in Hx).
    rewrite list_lookup_insert_eq in Hx by done. injection Hx as <-. exists (t, bs'). by rewrite list_lookup_insert_eq.
  - rewrite list_lookup_insert_ne in Hx by done. exists x. by rewrite list_lookup_insert_ne.
Qed.

(** *** [main], step by step *)

Lemma append_all_holds s fs k x chunks Q :
  holds s fs → fs !! k = Some x → Forall (Forall (λ x, 0 ≤ x < 256)) chunks →
  fits (<[k := (x.1, x.2 ++ concat chunks)]> fs) →
  (∀ s', holds s' (<[k := (x.1, x.2 ++ concat chunks)]> fs) → Q tt s') → wp (append_all (Z.of_nat (S k)) chunks) Q s.
Proof.
  revert s fs x. induction chunks as [|p chunks IH]; intros s fs x H Hk Hb F HQ; cbn [append_all].
  - apply wp_ret, HQ. cbn. rewrite app_nil_r, list_insert_id; [done|]. by destruct x.
  - apply Forall_cons in Hb as [Hp Hb]. cbn [concat] in *. pose proof (lookup_lt_Some _ _ _ Hk).
    apply wp_bind, (iappend_holds s fs k x p); [done..| |].
    { eapply smaller_fits, F. apply smaller_insert. rewrite !length_app. lia. }
    intros s' H'. apply (IH s' (<[k := (x.1, x.2 ++ p)]> fs) (x.1, x.2 ++ p)); [done|by apply list_lookup_insert_eq|done|..];
      cbn [fst snd]; rewrite list_insert_insert_eq, <- app_assoc; done.
Qed.

Lemma dirent_bytes name inum : Forall (λ x, 0 ≤ x < 256) name → Forall (λ x, 0 ≤ x < 256) (new_dirent name inum).
Proof.
  intros H. apply Forall_app. split; [apply to_le_bytes|]. apply Forall_app. split; [by apply Forall_take|].
  apply Forall_replicate. lia.
Qed.

Lemma skip_bytes (P : Z → Prop) name : Forall P name → Forall P (skip_underscore name).
Proof. destruct name as [|c l]; [done|]. cbn. case_match; [|done]. by intros [_ ?]%Forall_cons. Qed.

Lemma root_dir_snoc args arg :
  root_dir (args ++ [arg]) = root_dir args ++ new_dirent (skip_underscore arg) (Z.of_nat (S (S (length args)))).
Proof.
  unfold root_dir, entries. rewrite imap_app, concat_app. cbn [imap concat]. rewrite !app_nil_r, Nat.add_0_r. by rewrite !app_assoc.
Qed.

Lemma length_dirent name inum : length (new_dirent name inum) = 16%nat.
Proof.
  unfold new_dirent, store_dirent, name_field. cbn [de_inum de_name]. rewrite !length_app, length_to_le, length_take, length_replicate.
  unfold DIRSIZ. lia.
Qed.

Lemma length_root_dir args : length (root_dir args) = (16 * (2 + length args))%nat.
Proof.
  induction args as [|arg args IH] using rev_ind; [done|]. rewrite root_dir_snoc, !length_app, IH, length_dirent. cbn [length]. lia.
Qed.

Lemma add_file_holds s args arg Q :
  holds s (image_of args) → arg_ok arg → fits (image_of (args ++ [arg])) →
  (∀ s', holds s' (image_of (args ++ [arg])) → Q tt s') → wp (add_file host 1 arg) Q s.
Proof.
  intros H (Hs & Hn & chunks & Eh & Hc) F HQ. unfold add_file. rewrite bool_decide_false, Eh by done.
  pose proof F as (F1 & _ & _). rewrite length_image, length_app in F1. cbn [length] in F1.
  apply wp_bind, (ialloc_holds s (image_of args) T_FILE); [done|rewrite length_image; lia|by right|]. intros s1 H1. rewrite length_image.
  assert (image_of (args ++ [arg]) = <[S (length args) := (T_FILE, content arg)]> (<[0%nat := (T_DIR, root_dir (args ++ [arg]))]>
    (image_of args ++ [(T_FILE, [])]))) as E.
  { trans ((T_DIR, root_dir (args ++ [arg])) ::
      <[length args := (T_FILE, content arg)]> (((λ a, (T_FILE, content a)) <$> args) ++ [(T_FILE, [])])); [|done].
    unfold image_of. f_equal. rewrite fmap_app, insert_app_r_alt by by rewrite length_fmap. by rewrite length_fmap, Nat.sub_diag. }
  assert (length (image_of args ++ [(T_FILE, [])]) = S (S (length args))) as El by (rewrite length_app, length_image; cbn; lia).
  apply wp_bind, (iappend_holds s1 (image_of args ++ [(T_FILE, [])]) 0 (T_DIR, root_dir args)); [done|done|by apply dirent_bytes, skip_bytes|..]; cbn [fst snd]; rewrite <- root_dir_snoc.
  { eapply smaller_fits, F. rewrite E. rewrite <- (list_insert_id (<[0%nat := _]> _) (S (length args)) (T_FILE, [])) at 1.
    - apply smaller_insert. apply Nat.le_0_l.
    - rewrite list_lookup_insert_ne by done. rewrite <- (length_image args). by apply list_lookup_middle. }
  intros s2 H2. apply (append_all_holds s2 (<[0%nat := (T_DIR, root_dir (args ++ [arg]))]> (image_of args ++ [(T_FILE, [])])) (S (length args)) (T_FILE, [])).
  - done.
  - rewrite list_lookup_insert_ne by done. rewrite <- (length_image args). by apply list_lookup_middle.
  - done.
  - cbn [fst snd app]. unfold content in E. rewrite Eh in E. cbn [default from_option] in E. unfold id in E. by rewrite E in F.
  - cbn [fst snd app]. intros s3 H3. apply HQ. rewrite E. unfold content. by rewrite Eh.
Qed.

Lemma add_files_holds s args rest Q :
  holds s (image_of args) → Forall arg_ok rest → fits (image_of (args ++ rest)) →
  (∀ s', holds s' (image_of (args ++ rest)) → Q tt s') → wp (add_files host 1 rest) Q s.
Proof.
  revert s args. induction rest as [|arg rest IH]; intros s args H Ha F HQ; cbn [add_files].
  - apply wp_ret, HQ. by rewrite app_nil_r.
  - apply Forall_cons in Ha as [Ha Hr]. replace (args ++ arg :: rest) with ((args ++ [arg]) ++ rest) in * by by rewrite <- app_assoc.
    apply wp_bind, (add_file_holds s args arg); [done..| |].
    + eapply smaller_fits, F. apply smaller_image; [done|]. rewrite !length_root_dir, !length_app. lia.
    + intros s' H'. by apply (IH s' (args ++ [arg])).
Qed.
End host.

(** *** The empty image *)

Lemma zero_disk l s Q :
  (∀ b, b ∈ l → 0 ≤ b < 1000) →
  (∀ s', freeinode s' = freeinode s → freeblock s' = freeblock s →
     (∀ b, im_disk s' !! b = if decide (b ∈ l) then Some zero_block else im_disk s !! b) → Q tt s') →
  wp (for_each l (λ i, wsect i zero_block)) Q s.
Proof.
  revert s. induction l as [|i l IH]; intros s Hl HQ; cbn [for_each].
  - by apply wp_ret, HQ.
  - apply wp_bind, wsect_wp; [apply Hl; by left|]. apply IH; [intros b Hb; apply Hl; by right|].
    intros s' E1 E2 Hd. apply HQ; [done..|]. intros b. rewrite Hd. cbn [im_disk write_sect set_disk].
    destruct (decide (b ∈ l)); [rewrite decide_True; [done|by right]|]. destruct (decide (i = b)) as [<-|].
    + rewrite lookup_insert_eq, decide_True; [done|by left].
    + rewrite lookup_insert_ne, decide_False by (done || (rewrite elem_of_cons; intuition congruence)). done.
Qed.

Lemma sb_block_ok : block_ok sb_block.
Proof. split; [done|]. by apply (bool_decide_unpack _); vm_compute. Qed.

Lemma empty_holds s :
  freeinode s = 1 → freeblock s = nmeta → (∀ b, 0 ≤ b < 1000 → im_disk s !! b = Some zero_block) →
  holds (write_sect 1 sb_block s) [].
Proof.
  intros E1 E2 Hd. exists []. split; [|done].
  assert (∀ b, 0 ≤ b < 1000 → b ≠ 1 → view (write_sect 1 sb_block s) b = zero_block) as Hv.
  { intros b Hb Hne. rewrite view_write, decide_False by done. unfold view. by rewrite Hd. }
  split; [split| | | | | |]; cbn [freeblock freeinode write_sect set_disk]; rewrite ?E2; try done.
  - intros b Hb. cbn. destruct (decide (1 = b)) as [<-|].
    + rewrite lookup_insert_eq. eexists. split; [done|apply sb_block_ok].
    + rewrite lookup_insert_ne, Hd by done. eexists. split; [done|apply zero_block_ok].
  - intros b Hb. change nmeta with 59 in Hb. apply Hv; lia.
  - intros inum Hi. cbn in Hi. unfold disk_inode. pose proof (IBLOCK_mk_range inum). rewrite Hv by lia.
    assert (∀ n, (n < 8)%nat → load_dinode zero_block (64 * n) = no_inode) as Hz.
    { intros n Hn. do 8 (destruct n as [|n]; [by vm_compute|]). lia. }
    unfold inode_off. change IPB with 8. pose proof (Z.mod_pos_bound inum 8).
    replace (Z.to_nat (inum mod 8 * 64)) with (64 * Z.to_nat (inum mod 8))%nat by lia. apply Hz. lia.
  - by rewrite view_write, decide_True.
  - intros b Hb. apply Hv; lia.
Qed.

(** ** What the kernel sees *)

Lemma nth_in i (l : list Z) : nth i l 0 ≠ 0 → nth i l 0 ∈ l.
Proof. rewrite nth_lookup. destruct (l !! i) eqn:E; [|done]. intros _. apply (list_elem_of_lookup_2 _ _ _ E). Qed.

Definition entry (f : mfile) (k : Z) : Z :=
  if k <? 12 then nth (Z.to_nat k) (m_bl f) 0 else if k =? 12 then m_ind f else nth (Z.to_nat (k - 1)) (m_bl f) 0.

Lemma entry_bslot f bn : 0 ≤ bn → entry f (bslot bn) = nth (Z.to_nat bn) (m_bl f) 0.
Proof.
  intros Hb. unfold entry, bslot, NDIRECT. destruct (Z.ltb_spec bn 12); [by rewrite (proj2 (Z.ltb_lt _ _))|].
  rewrite (proj2 (Z.ltb_ge _ _)), (proj2 (Z.eqb_neq _ _)) by lia. f_equal. lia.
Qed.

(** Byte [j] of a sequence of blocks. *)
Lemma nth_blocks (v : Z → block) l j :
  (∀ b, b ∈ l → length (v b) = 512%nat) → (j < 512 * length l)%nat →
  nth j (concat (v <$> l)) 0 = nth (j mod 512) (v (nth (j / 512) l 0)) 0.
Proof.
  revert j. induction l as [|b l IH]; intros j Hl Hj; [cbn in Hj; lia|]. cbn [fmap list_fmap concat length] in *.
  assert (length (v b) = 512%nat) as Eb by (apply Hl; by left). destruct (decide (j < 512)%nat) as [H|H].
  - rewrite app_nth1, Nat.mod_small, Nat.div_small by lia. done.
  - rewrite app_nth2, Eb by lia. rewrite IH; [|intros; apply Hl; by right|lia]. replace j with (j - 512 + 1 * 512)%nat at 3 4 by lia.
    rewrite Nat.Div0.mod_add, Nat.div_add by lia. by rewrite Nat.add_1_r.
Qed.

Section seen.
Context (s : image) (fl : list mfile) (k : nat) (f : mfile) (I : inv s fl) (Hf : fl !! k = Some f).
Context (v : Z → block) (Hv : ∀ b, b ∈ owned f → v b = view s b).
Context (sz : Z).
Notation d := (m_din f sz).

Lemma slot_entry j : 0 ≤ j < NSLOT → slot v d j = entry f j.
Proof using I Hf Hv.
  intros Hj. change NSLOT with 141 in Hj. pose proof (file_on s fl k f I Hf) as On. unfold slot, entry. rewrite addr_ind.
  destruct (Z.ltb_spec j 13), (Z.ltb_spec j 12); try lia.
  - rewrite <- (Z2Nat.id j) at 1 by lia. apply addr_direct. lia.
  - assert (j = 12) as -> by lia. apply addr_ind.
  - rewrite (proj2 (Z.eqb_neq j 12)) by lia. destruct (Z.eqb_spec (m_ind f) 0) as [E|E].
    + rewrite nth_overflow; [done|]. pose proof (od_dir _ _ On E). lia.
    + rewrite Hv by (apply elem_of_app; right; rewrite (proj2 (Z.eqb_neq _ _) E); by left).
      replace (Z.to_nat (4 * (j - 13))) with (4 * (Z.to_nat (j - 1) - 12))%nat by lia. apply (entry_nth fl k); [done..|lia].
Qed.

Lemma slot_file bn : 0 ≤ bn < 140 → slot v d (bslot bn) = nth (Z.to_nat bn) (m_bl f) 0.
Proof using I Hf Hv. intros Hb. pose proof (bslot_range bn Hb) as [Hr _]. rewrite slot_entry by done. apply entry_bslot. lia. Qed.

(** Block pointers that are not zero are blocks of the file, each once. *)
Lemma entry_owned j : entry f j ≠ 0 → entry f j ∈ owned f.
Proof using.
  unfold entry, owned. rewrite elem_of_app. destruct (j <? 12); [|destruct (j =? 12)]; intros Hn.
  - left. by apply nth_in.
  - right. rewrite (proj2 (Z.eqb_neq _ _) Hn). by left.
  - left. by apply nth_in.
Qed.

Lemma nth_bl_inj i j : NoDup (m_bl f) → nth i (m_bl f) 0 ≠ 0 → nth i (m_bl f) 0 = nth j (m_bl f) 0 → i = j.
Proof using.
  intros N. rewrite !nth_lookup. destruct (m_bl f !! i) as [x|] eqn:Ei; [|done]. cbn. intros Hn.
  destruct (m_bl f !! j) as [y|] eqn:Ej; cbn; [|done]. intros <-. by eapply NoDup_lookup.
Qed.

Lemma entry_inj i j : 0 ≤ i → 0 ≤ j → entry f i ≠ 0 → entry f i = entry f j → i = j.
Proof using I Hf.
  intros Hi Hj. pose proof (owned_nodup s fl k f I Hf) as (N & Ni & _)%NoDup_app.
  assert (∀ i, nth i (m_bl f) 0 ≠ 0 → nth i (m_bl f) 0 ≠ m_ind f) as Hx.
  { intros i0 Hn E. apply (Ni (nth i0 (m_bl f) 0)); [by apply nth_in|]. rewrite <- E, (proj2 (Z.eqb_neq _ _) Hn). by left. }
  unfold entry. destruct (Z.ltb_spec i 12), (Z.eqb_spec i 12), (Z.ltb_spec j 12), (Z.eqb_spec j 12); try lia; intros Hn E.
  all: try by apply Hx in E. all: try (rewrite E in Hn; symmetry in E; by apply Hx in E).
  all: apply (nth_bl_inj _ _ N Hn) in E; lia.
Qed.

Context (Hsz : 0 ≤ sz ≤ 512 * Z.of_nat (length (m_bl f))).

Lemma block_len b : b ∈ m_bl f → length (v b) = 512%nat.
Proof using I Hf Hv.
  intros Hb. assert (b ∈ owned f) as Ho by (apply elem_of_app; by left). pose proof (owned_range _ _ _ _ _ I Hf Ho). pose proof (iv_next _ _ I).
  rewrite Hv by done. destruct (iv_sect _ _ I b) as (x & Hx & Ok); [lia|]. unfold view. rewrite Hx. apply Ok.
Qed.

Lemma seen_wf : (∀ b, b ∈ owned f → used mk_sb v b) → inode_wf mk_sb v d.
Proof using I Hf Hv Hsz.
  intros Hu. pose proof (file_on s fl k f I Hf) as On. pose proof (iv_next _ _ I). pose proof (od_max _ _ On). split.
  - cbn. rewrite length_app, length_pad; [done|]. rewrite length_take. lia.
  - intros i j Hi Hj. rewrite !slot_entry by done. apply entry_inj; lia.
  - intros j Hj. rewrite slot_entry by done. intros Hn%entry_owned. pose proof (owned_range _ _ _ _ _ I Hf Hn).
    split; [change (dstart mk_sb) with 59; change (sb_size mk_sb) with 1000; lia|by apply Hu].
  - cbn [d_size m_din]. change (MAXFILE * BSIZE) with (140 * 512). lia.
  - intros bn Hb Hl. cbn [d_size m_din] in Hl. unfold BSIZE in Hl. rewrite slot_file by lia. rewrite nth_lookup.
    destruct (lookup_lt_is_Some_2 (m_bl f) (Z.to_nat bn)) as [x Hx]; [lia|]. rewrite Hx. pose proof (block_range _ _ _ _ _ _ I Hf Hx). cbn. lia.
Qed.

Lemma seen_bytes : file_bytes v d 0 sz = take (Z.to_nat sz) (pad (512 * length (m_bl f)) (m_bytes f)).
Proof using I Hf Hv Hsz.
  pose proof (file_on s fl k f I Hf) as On. rewrite <- (od_data _ _ On).
  replace (view s <$> m_bl f) with (v <$> m_bl f) by (apply list_fmap_ext; intros i b Hb; apply Hv, elem_of_app; left; by eapply list_elem_of_lookup_2).
  pose proof (length_blocks v (m_bl f) block_len) as El. unfold file_bytes.
  apply (nth_ext _ _ 0 0); [rewrite length_fmap, length_seqZ, length_take, El; lia|]. intros j Hj. rewrite length_fmap, length_seqZ in Hj.
  rewrite !nth_lookup, list_lookup_fmap, lookup_seqZ_lt by lia. cbn [fmap option_fmap option_map]. rewrite lookup_take_lt by lia.
  rewrite <- nth_lookup. rewrite (nth_blocks v) by (apply block_len || lia). unfold fbyte. rewrite Z.add_0_l.
  change BSIZE with (Z.of_nat 512). rewrite <- Nat2Z.inj_div, <- Nat2Z.inj_mod, Nat2Z.id.
  assert (j / 512 < length (m_bl f))%nat by (apply Nat.Div0.div_lt_upper_bound; lia). pose proof (od_max _ _ On).
  by rewrite slot_file, Nat2Z.id by lia.
Qed.
End seen.

(** ** The free map *)

Lemma map_bits used b :
  0 ≤ b < BPB → 0 ≤ used ≤ BPB →
  block_ok (foldl set_bit zero_block (seqZ 0 used)) ∧ bit (foldl set_bit zero_block (seqZ 0 used)) b = bool_decide (b < used).
Proof.
  intros Hb [H0 Hu]. revert Hu. pattern used. apply natlike_ind; [| |done].
  - intros _. split; [apply zero_block_ok|]. cbn [seqZ foldl]. rewrite bool_decide_false by lia. unfold bit, byte_at.
    replace (nth _ zero_block 0) with 0; [apply Z.bits_0|]. symmetry. rewrite nth_lookup.
    destruct (_ !! _) eqn:E; [by apply lookup_replicate in E as [-> _]|done].
  - intros n Hn IH Hu. destruct IH as [Ok IH]; [lia|]. unfold Z.succ. rewrite seqZ_app by lia. rewrite foldl_app.
    replace (seqZ (0 + n) 1) with [n] by (unfold seqZ; cbn; f_equal; lia). cbn [foldl]. split; [by apply set_bit_ok|].
    rewrite bit_set, IH by (done || lia). apply Bool.eq_true_iff_eq. rewrite orb_true_iff, !bool_decide_eq_true. lia.
Qed.

(** ** The result of [main] *)

Lemma ceil_round n : (n mod 512 ≠ 0)%nat → (512 * ceil n = (n / 512 + 1) * 512)%nat.
Proof.
  intros H. destruct (ceil_cases n) as [E| ->]; [|lia]. exfalso. apply H. unfold ceil in E.
  pose proof (Nat.div_mod_eq n 512). pose proof (Nat.div_mod_eq (n + 511) 512). pose proof (Nat.mod_upper_bound (n + 511) 512). lia.
Qed.

Lemma ceil_exact n : (n mod 512 = 0)%nat → ceil n = (n / 512)%nat.
Proof.
  intros H. unfold ceil. pose proof (Nat.div_mod_eq n 512). symmetry. apply (Nat.div_unique _ _ _ 511); lia.
Qed.

(** The size [fix_root] gives the root directory. *)
Definition root_size (args : list (list Z)) : Z := Z.of_nat ((length (root_dir args) / 512 + 1) * 512).

Lemma fix_root_wp s fl f Q :
  img s fl → fl !! 0%nat = Some f → (length (m_bytes f) ≤ 140 * 512)%nat →
  Q tt (wrote_inode 1 (m_din f (Z.of_nat ((length (m_bytes f) / 512 + 1) * 512))) s) → wp (fix_root 1) Q s.
Proof.
  intros [I _ _ In _ _ _] Hf Hlen HQ. apply wp_bind, (rinode_wp _ _ I); [lia|].
  change (inode_of s 1) with (inode_of s (Z.of_nat 1)). rewrite (In 0%nat f Hf). cbn [d_size m_din].
  pose proof (Nat.Div0.div_le_upper_bound (length (m_bytes f)) 512 140 ltac:(lia)). rewrite (xint_id (Z.of_nat (length (m_bytes f)))) by lia. change BSIZE with (Z.of_nat 512).
  rewrite <- Nat2Z.inj_div, u32_small, xint_id by lia. change (set_size ?n (m_din f _)) with (m_din f n).
  apply (winode_wp _ _ I); [lia|]. by replace ((Z.of_nat (length (m_bytes f) / 512) + 1) * Z.of_nat 512)
    with (Z.of_nat ((length (m_bytes f) / 512 + 1) * 512)) by lia.
Qed.

Lemma main_wp host args Q :
  Forall (arg_ok host) args → fits (image_of host args) →
  (∀ s fl f, img s fl → abs <$> fl = image_of host args → fl !! 0%nat = Some f → m_bytes f = root_dir args →
     let s' := wrote_inode 1 (m_din f (root_size args)) s in
     Q tt (write_sect 58 (foldl set_bit zero_block (seqZ 0 (freeblock s))) s')) →
  wp (main host args) Q blank.
Proof.
  intros Ha F HQ. pose proof F as (F1 & _ & F3). rewrite length_image in F1. unfold main. apply wp_bind, wp_modify, wp_bind.
  apply zero_disk; [intros b Hb%elem_of_seqZ; unfold FSSIZE in Hb; lia|]. intros s0 E1 E2 Hd.
  apply wp_bind, wsect_wp; [lia|]. assert (holds (write_sect 1 sb_block s0) []) as H0.
  { apply empty_holds; [done..|]. intros b Hb. rewrite Hd, decide_True; [done|]. apply elem_of_seqZ. unfold FSSIZE. lia. }
  assert (∀ bs, (length bs ≤ 32)%nat → fits [(T_DIR, bs)]) as Hfit.
  { intros bs Hn. eapply smaller_fits, F. apply (smaller_image host [] args); [done|]. rewrite length_root_dir. lia. }
  assert (∀ l, l = [46] ∨ l = [46; 46] → Forall (λ x, 0 ≤ x < 256) (new_dirent l 1)) as Hbytes
    by (intros l [->| ->]; apply dirent_bytes; repeat constructor; lia).
  apply wp_bind, (ialloc_holds _ [] T_DIR); [done|cbn; lia|by left|]. intros s1 H1. cbn [length app] in *.
  change (negb (Z.of_nat 1 =? ROOTINO)) with false. cbv iota. change (Z.of_nat 1) with 1.
  apply wp_bind, (iappend_holds s1 [(T_DIR, [])] 0 (T_DIR, [])); [done|done|apply Hbytes; by left| |].
  { apply Hfit. cbn [snd app]. rewrite length_dirent. lia. }
  intros s2 H2. change (<[0%nat := _]> _) with [(T_DIR, new_dirent [46] 1)] in H2.
  apply wp_bind, (iappend_holds s2 [(T_DIR, new_dirent [46] 1)] 0 (T_DIR, new_dirent [46] 1)); [done|done|apply Hbytes; by right| |].
  { apply Hfit. cbn [snd]. rewrite length_app, !length_dirent. lia. }
  intros s3 H3. change (<[0%nat := _]> _) with (image_of host []) in H3.
  apply wp_bind, (add_files_holds host s3 [] args); [done..|]. intros s4 (fl & Im & Efl). cbn [app] in Efl.
  pose proof Im as [I T _ In _ _ _]. destruct fl as [|f fl]; [done|]. injection Efl as Et Eb Efl.
  assert (length (root_dir args) ≤ 140 * 512)%nat as Hlen by by apply Forall_cons in F3 as [[_ ?] _].
  apply wp_bind, (fix_root_wp _ (f :: fl) f); [done|done|by rewrite Eb|]. rewrite Eb.
  apply wp_bind, wp_gets. unfold balloc. pose proof (iv_next _ _ I).
  change (freeblock (wrote_inode _ _ s4)) with (freeblock s4). change (BSIZE * 8) with 4096.
  rewrite (proj2 (Z.ltb_lt _ _)) by lia. cbn [negb]. apply wsect_wp; [done|]. apply (HQ s4 (f :: fl) f); [done| |done|done].
  unfold image_of. rewrite fmap_cons, <- Et, <- Eb. f_equal. exact Efl.
Qed.

(** Inode [inum] is a file of type [x.1] with one link that holds the bytes
    [x.2], well-formed in the sense of the kernel. *)
Definition stores (v : Z → block) (inum : Z) (x : afile) : Prop :=
  let d := disk_inode mk_sb v inum in
  d_type d = x.1 ∧ d_nlink d = 1 ∧ d_size d = Z.of_nat (length x.2) ∧ inode_wf mk_sb v d ∧ file_bytes v d 0 (d_size d) = x.2.

Section final.
Context (s : image) (fl : list mfile) (f0 : mfile) (Im : img s fl) (Hf0 : fl !! 0%nat = Some f0) (sz : Z).
Context (Hsz : 0 ≤ sz < 2 ^ 31).
Context (Hfs : Forall (λ f, (m_type f = T_DIR ∨ m_type f = T_FILE) ∧ (length (m_bytes f) ≤ 140 * 512)%nat) fl).
Let I := im_inv _ _ Im.
Let s' := write_sect 58 (foldl set_bit zero_block (seqZ 0 (freeblock s))) (wrote_inode 1 (m_din f0 sz) s).
Notation v := (view s').

Lemma root_ok : dinode_ok (m_din f0 sz).
Proof using Im Hf0 Hsz Hfs.
  destruct (Forall_lookup_1 _ _ _ _ Hfs Hf0) as [Ht Hl]. destruct (din_ok _ _ _ _ I Hf0 Ht Hl). split; try done. cbn. lia.
Qed.

Lemma view_final b : ¬ 32 ≤ b < 59 → v b = view s b.
Proof using. intros Hb. unfold s'. rewrite view_write, decide_False, view_wrote by lia. done. Qed.

Lemma inode_final inum : 0 ≤ inum < 200 → inode_of s' inum = if decide (inum = 1) then m_din f0 sz else inode_of s inum.
Proof using Im Hf0 Hsz Hfs.
  intros Hi. trans (inode_of (wrote_inode 1 (m_din f0 sz) s) inum).
  - apply same_inode; [done|]. intros b Hb. unfold s'. by rewrite view_write, decide_False by lia.
  - pose proof root_ok. case_decide as E; [subst inum; by eapply inode_wrote|by eapply inode_wrote_ne].
Qed.

Lemma inv_final : ∀ b, 0 ≤ b < 1000 → block_ok (v b).
Proof using Im Hf0 Hsz Hfs.
  intros b Hb. pose proof (iv_next _ _ I). unfold s'. rewrite view_write. case_decide.
  - change BPB with 4096 in *. apply (map_bits (freeblock s) 0); change BPB with 4096; lia.
  - pose proof (inv_wrote s fl I 1 ltac:(lia) _ root_ok) as I'. destruct (iv_sect _ _ I' b Hb) as (x & Hx & Ok). unfold view. by rewrite Hx.
Qed.

Lemma used_final b : 0 ≤ b < 1000 → used mk_sb v b ↔ b < freeblock s.
Proof using Im.
  intros Hb. pose proof (iv_next _ _ I). unfold used, BBLOCK. change (sb_bmapstart mk_sb) with 58. change BPB with 4096.
  rewrite Z.div_small, Z.mod_small by lia. change (u32 (0 + 58)) with 58. unfold s'. rewrite view_write, decide_True by done.
  rewrite (proj2 (map_bits (freeblock s) b ltac:(change BPB with 4096; lia) ltac:(change BPB with 4096; lia))). apply bool_decide_eq_true.
Qed.

Lemma fs_wf_final : fs_wf mk_sb v.
Proof using Im Hf0 Hsz Hfs.
  pose proof (iv_next _ _ I). split.
  - intros b Hb. apply inv_final. change (sb_inodestart mk_sb) with 32 in Hb. change (sb_size mk_sb) with 1000 in Hb. lia.
  - intros b Hb. change (dstart mk_sb) with 59 in Hb. apply used_final; lia.
Qed.

Lemma owned_final k f b : fl !! k = Some f → b ∈ owned f → v b = view s b ∧ used mk_sb v b.
Proof using Im.
  intros Hk Hb. pose proof (owned_range _ _ _ _ _ I Hk Hb). pose proof (iv_next _ _ I).
  split; [apply view_final; lia|]. apply used_final; lia.
Qed.

(** Inode [k + 1], with a size within its blocks. *)
Lemma stores_final k f n :
  fl !! k = Some f → disk_inode mk_sb v (Z.of_nat (S k)) = m_din f (Z.of_nat n) →
  (length (m_bytes f) ≤ n ≤ 512 * length (m_bl f))%nat → stores v (Z.of_nat (S k)) (m_type f, pad n (m_bytes f)).
Proof using Im.
  intros Hk Ed Hn'. unfold stores. cbv zeta. rewrite Ed. cbn [d_type d_nlink d_size m_din fst snd]. rewrite length_pad by lia.
  assert (∀ b, b ∈ owned f → v b = view s b) as Hv by (intros b Hb; by apply (owned_final k f)).
  split; [done|]. split; [done|]. split; [done|]. split.
  - apply (seen_wf s fl k f I Hk v Hv); [lia|]. intros b Hb. by apply (owned_final k f).
  - rewrite (seen_bytes s fl k f I Hk v Hv (Z.of_nat n) ltac:(lia)), Nat2Z.id. unfold pad. rewrite take_app_ge by lia. f_equal.
    rewrite take_replicate. f_equal. lia.
Qed.

Lemma din_final k f :
  fl !! k = Some f → (k < 199)%nat →
  disk_inode mk_sb v (Z.of_nat (S k)) = m_din f (if decide (k = 0%nat) then sz else Z.of_nat (length (m_bytes f))).
Proof using Im Hf0 Hsz Hfs.
  intros Hk Hl. rewrite inode_final by lia. destruct (decide (k = 0%nat)) as [->|].
  - rewrite decide_True by done. rewrite Hf0 in Hk. by injection Hk as ->.
  - rewrite decide_False by lia. by apply Im.
Qed.

Lemma slot_final k f p :
  fl !! k = Some f → (k < 199)%nat → 0 ≤ p < NSLOT → slot v (disk_inode mk_sb v (Z.of_nat (S k))) p = entry f p.
Proof using Im Hf0 Hsz Hfs.
  intros Hk Hl Hp. rewrite (din_final k f) by done. apply (slot_entry s fl k f I Hk); [|done]. intros b Hb. by apply (owned_final k f).
Qed.

Lemma disjoint_final k k' f f' p q :
  fl !! k = Some f → fl !! k' = Some f' → k ≠ k' → entry f p ≠ 0 → entry f p ≠ entry f' q.
Proof using Im.
  intros Hk Hk' Hne Hn E. pose proof (entry_owned f p Hn) as Hp. rewrite E in Hn, Hp.
  by apply (other_owned s fl k f k' f' _ I Hk Hk' Hne Hp), entry_owned.
Qed.

(** The bytes of the root directory, whatever its size is. *)
Lemma root_bytes_final : file_bytes v (disk_inode mk_sb v 1) 0 (Z.of_nat (length (m_bytes f0))) = m_bytes f0.
Proof using Im Hf0 Hsz Hfs.
  change 1 with (Z.of_nat 1) at 1. rewrite (din_final 0 f0) by (done || lia). pose proof (od_len _ _ (file_on s fl 0 f0 I Hf0)).
  change (file_bytes v (m_din f0 (Z.of_nat (length (m_bytes f0)))) 0 (Z.of_nat (length (m_bytes f0))) = m_bytes f0).
  rewrite (seen_bytes s fl 0 f0 I Hf0 v) by (lia || intros b Hb; by apply (owned_final 0 f0)).
  unfold pad. by rewrite Nat2Z.id, take_app_length.
Qed.
End final.

Lemma pad_full l : pad (length l) l = l.
Proof. unfold pad. rewrite Nat.sub_diag. apply app_nil_r. Qed.

(** The image that [main] leaves. *)
Definition formatted (host : list Z → option (list (list Z))) (args : list (list Z)) (s : image) : Prop :=
  let v := view s in let root := disk_inode mk_sb v 1 in let n := length (root_dir args) in
  parse_sb (v 1) = Sb 1000 941 200 30 2 32 58 ∧ (∀ b, 2 ≤ b < 32 → v b = zero_block) ∧
  fs_wf mk_sb v ∧ (∀ b, 0 ≤ b < 1000 → used mk_sb v b ↔ b < freeblock s) ∧
  (∀ k arg, args !! k = Some arg → stores v (Z.of_nat (k + 2)) (T_FILE, content host arg)) ∧
  (∀ i j p q, 1 ≤ i ≤ Z.of_nat (length args) + 1 → 1 ≤ j ≤ Z.of_nat (length args) + 1 → i ≠ j →
     0 ≤ p < NSLOT → 0 ≤ q < NSLOT → slot v (disk_inode mk_sb v i) p ≠ 0 →
     slot v (disk_inode mk_sb v i) p ≠ slot v (disk_inode mk_sb v j) q) ∧
  (∀ i, Z.of_nat (length args) + 1 < i < 200 → d_type (disk_inode mk_sb v i) = 0) ∧
  d_type root = T_DIR ∧ file_bytes v root 0 (Z.of_nat n) = root_dir args ∧
  ((n mod 512 ≠ 0)%nat → stores v 1 (T_DIR, pad (Z.to_nat (root_size args)) (root_dir args))) ∧
  ((n mod 512 = 0)%nat → Z.of_nat n < d_size root ∧ slot v root (bslot (Z.of_nat (n / 512))) = 0).

Lemma main_formats host args :
  Forall (arg_ok host) args → fits (image_of host args) → wp (main host args) (λ _ s, formatted host args s) blank.
Proof.
  intros Ha F. apply main_wp; [done..|]. intros s fl f Im Efl Hf Eb. cbv zeta. pose proof F as (F1 & _ & F3).
  assert (length fl = S (length args)) as El by (by rewrite <- (length_image host args), <- Efl, length_fmap). rewrite length_image in F1.
  assert (Forall (λ f, (m_type f = T_DIR ∨ m_type f = T_FILE) ∧ (length (m_bytes f) ≤ 140 * 512)%nat) fl) as Hfs
    by (rewrite <- Efl in F3; by apply Forall_fmap in F3).
  pose proof (Forall_lookup_1 _ _ _ _ Hfs Hf) as [_ Hl]. rewrite Eb in Hl. pose proof (Nat.Div0.div_le_upper_bound (length (root_dir args)) 512 140 ltac:(lia)).
  assert (0 ≤ root_size args < 2 ^ 31) as Hsz by (unfold root_size; lia).
  assert (∀ k x, image_of host args !! k = Some x → ∃ g, fl !! k = Some g ∧ abs g = x) as Hfl.
  { intros k x. rewrite <- Efl, list_lookup_fmap. destruct (fl !! k) as [g|]; [|done]. intros [= <-]. by exists g. }
  pose proof (view_final s f (root_size args)) as Hv. pose proof (used_final s fl f Im (root_size args)) as Hu.
  pose proof (fs_wf_final s fl f Im Hf _ Hsz Hfs) as Hw. pose proof (inode_final s fl f Im Hf _ Hsz Hfs) as Hin.
  pose proof (din_final s fl f Im Hf _ Hsz Hfs) as Hd. pose proof (slot_final s fl f Im Hf _ Hsz Hfs) as Hs.
  pose proof (root_bytes_final s fl f Im Hf _ Hsz Hfs) as Hr. pose proof (stores_final s fl f Im (root_size args)) as Hst.
  pose proof (Forall_lookup_1 _ _ _ _ (im_tight _ _ Im) Hf) as Tf.
  assert (m_type f = T_DIR) as Et by (destruct (Hfl 0%nat _ eq_refl) as (g & Hg & Eg); rewrite Hf in Hg; injection Hg as <-; by injection Eg).
  set (s' := write_sect _ _ _) in *. change (freeblock s') with (freeblock s).
  split; [rewrite Hv by lia; rewrite (im_sb _ _ Im); by vm_compute|].
  split; [intros b Hb; rewrite Hv by lia; by apply (im_log _ _ Im)|].
  split; [exact Hw|]. split; [exact Hu|]. split; [|split; [|split; [|split; [|split; [|split]]]]].
  - intros k arg Hk. destruct (Hfl (S k) (T_FILE, content host arg)) as (g & Hg & Eg); [by apply image_file|].
    injection Eg as <- <-. pose proof (lookup_lt_Some _ _ _ Hg). replace (k + 2)%nat with (S (S k)) by lia.
    rewrite <- (pad_full (m_bytes g)). apply Hst; [done|rewrite (Hd _ _ Hg), decide_False by lia; done|].
    split; [done|]. apply (file_on s fl _ _ (im_inv _ _ Im) Hg).
  - intros i j p q Hi Hj Hne Hp Hq. destruct (lookup_lt_is_Some_2 fl (Z.to_nat (i - 1))) as [g Hg]; [lia|].
    destruct (lookup_lt_is_Some_2 fl (Z.to_nat (j - 1))) as [g' Hg']; [lia|].
    replace i with (Z.of_nat (S (Z.to_nat (i - 1)))) by lia. replace j with (Z.of_nat (S (Z.to_nat (j - 1)))) by lia.
    rewrite (Hs _ _ _ Hg), (Hs _ _ _ Hg') by lia. apply (disjoint_final s fl Im _ _ _ _ _ _ Hg Hg'). lia.
  - intros i Hi. rewrite Hin by lia. rewrite decide_False by lia. rewrite (im_none _ _ Im) by lia. done.
  - change 1 with (Z.of_nat 1). rewrite (Hd _ _ Hf) by lia. exact Et.
  - by rewrite Eb in Hr.
  - intros Hm. rewrite <- Eb, <- Et. apply (Hst 0%nat f); [done|rewrite (Hd _ _ Hf) by lia; unfold root_size; by rewrite Z2Nat.id by lia|].
    unfold root_size. rewrite Nat2Z.id, Eb, (proj1 Tf), Eb, <- ceil_round by done. pose proof (Nat.div_mod_eq (length (root_dir args)) 512).
    pose proof (ceil_round _ Hm). pose proof (Nat.mod_upper_bound (length (root_dir args)) 512). lia.
  - intros Hm. pose proof (Nat.div_mod_eq (length (root_dir args)) 512). rewrite length_root_dir in *.
    assert (ceil (16 * (2 + length args)) = 16 * (2 + length args) / 512)%nat as Ec by by apply ceil_exact.
    change 1 with (Z.of_nat 1). split; [rewrite (Hd _ _ Hf) by lia; cbn [m_din d_size]; unfold root_size; rewrite decide_True, length_root_dir by done; lia|].
    rewrite (Hs _ _ _ Hf); [|lia|apply bslot_range; change MAXFILE with 140; lia]. rewrite entry_bslot by lia. apply nth_overflow.
    rewrite (proj1 Tf), Eb, length_root_dir, Ec. lia.
Qed.

(** C21. mkfs builds a file system for the kernel.  For any files of the host
    whose names have no slash and that fit on the disk (at most 198 of them,
    140 blocks each, 941 blocks together): [main] ends without an error; the
    superblock parses to the layout; the log is empty; the kernel's
    well-formedness of the disk holds and the free map marks exactly the
    blocks handed out.  Every file is in its inode, with one link, byte for
    byte; no two inodes share a block, and all other inodes are free.  The
    root directory lists the files under their names, followed by free
    entries; it is well-formed unless its entries fill its blocks exactly,
    in which case the size that mkfs gives it covers a block that is not
    mapped. *)
Theorem mkfs_correct host args :
  Forall (arg_ok host) args → fits (image_of host args) →
  wp (main host args) (λ _ s,
    let v := view s in let root := disk_inode mk_sb v 1 in let n := length (root_dir args) in
    parse_sb (v 1) = Sb 1000 941 200 30 2 32 58 ∧ (∀ b, 2 ≤ b < 32 → v b = zero_block) ∧
    fs_wf mk_sb v ∧ (∀ b, 0 ≤ b < 1000 → used mk_sb v b ↔ b < freeblock s) ∧
    (∀ k arg, args !! k = Some arg → stores v (Z.of_nat (k + 2)) (T_FILE, content host arg)) ∧
    (∀ i j p q, 1 ≤ i ≤ Z.of_nat (length args) + 1 → 1 ≤ j ≤ Z.of_nat (length args) + 1 → i ≠ j →
       0 ≤ p < NSLOT → 0 ≤ q < NSLOT → slot v (disk_inode mk_sb v i) p ≠ 0 →
       slot v (disk_inode mk_sb v i) p ≠ slot v (disk_inode mk_sb v j) q) ∧
    (∀ i, Z.of_nat (length args) + 1 < i < 200 → d_type (disk_inode mk_sb v i) = 0) ∧
    d_type root = T_DIR ∧ file_bytes v root 0 (Z.of_nat n) = root_dir args ∧
    ((n mod 512 ≠ 0)%nat → stores v 1 (T_DIR, pad (Z.to_nat (root_size args)) (root_dir args))) ∧
    ((n mod 512 = 0)%nat → Z.of_nat n < d_size root ∧ slot v root (bslot (Z.of_nat (n / 512))) = 0)) blank.
Proof. apply main_formats. Qed.
