(* ===== verification/MkfsBoot.v ===== *)
(** From mkfs to the running kernel: the image that mkfs.c writes, mounted by
    the kernel, has every file under its name with its bytes. *)

From S2P Require Import Prelude Mmu Block Ide Bio Log LogSpec LogCrash LogOps Tx Fs FsAlloc FsData FsRw FsInode.
From S2P Require Import FsIcache FsPath FsDir Mkfs MkfsSpec MkfsImage.

(** ** The root directory *)

Lemma xshort_id x : 0 ≤ x < 2 ^ 16 → xshort x = x.
Proof.
  intros H. unfold xshort, u8. cbn [of_le]. rewrite Z.shiftr_div_pow2 by lia. change (2 ^ 8) with 256. pose proof (Z.div_mod x 256).
  rewrite (Z.mod_small (x / 256)) by (split; [apply Z.div_pos|apply Z.div_lt_upper_bound]; lia). lia.
Qed.

Lemma load_new_dirent name inum : 0 ≤ inum < 2 ^ 16 → load_dirent (new_dirent name inum) = Dirent inum (name_field name).
Proof. intros H. unfold new_dirent. rewrite xshort_id by done. by apply load_store_dirent. Qed.

(** A sequence of pieces of 16 bytes, cut again. *)
Lemma cut_pieces (es : list (list Z)) :
  Forall (λ e, length e = 16%nat) es → (λ k, take 16 (drop (Z.to_nat (k * 16)) (concat es))) <$> seqZ 0 (Z.of_nat (length es)) = es.
Proof.
  intros H. apply list_eq. intros j. rewrite list_lookup_fmap. destruct (decide (j < length es)%nat) as [Hj|Hj]; cycle 1.
  { rewrite lookup_seqZ_ge, lookup_ge_None_2 by lia. done. }
  rewrite lookup_seqZ_lt by lia. cbn [fmap option_fmap option_map]. destruct (lookup_lt_is_Some_2 es j Hj) as [e He]. rewrite He. f_equal.
  rewrite <- (take_drop_middle es j e He) at 1. rewrite concat_app. cbn [concat].
  assert (length e = 16%nat) as Ee by (apply (Forall_lookup_1 _ _ _ _ H He)).
  assert (length (concat (take j es)) = Z.to_nat ((0 + Z.of_nat j) * 16)) as El.
  { assert (∀ l : list (list Z), Forall (λ e, length e = 16%nat) l → length (concat l) = (16 * length l)%nat) as Hc.
    { induction 1 as [|x l Hx _ IH]; [done|]. cbn [concat length]. rewrite length_app, Hx, IH. lia. }
    rewrite Hc by by apply Forall_take. rewrite length_take. lia. }
  rewrite drop_app_length' by done. by rewrite take_app_length'.
Qed.

Lemma file_bytes_sub v d o n sz : 0 ≤ o → 0 ≤ n → o + n ≤ sz →
  file_bytes v d o n = take (Z.to_nat n) (drop (Z.to_nat o) (file_bytes v d 0 sz)).
Proof.
  intros Ho Hn Hs. apply list_eq. intros j. unfold file_bytes. destruct (decide (j < Z.to_nat n)%nat).
  - rewrite lookup_take_lt, lookup_drop, !list_lookup_fmap, !lookup_seqZ_lt by lia. cbn. do 2 f_equal. lia.
  - rewrite lookup_take_ge, list_lookup_fmap, lookup_seqZ_ge by lia. done.
Qed.

(** The entries of a directory that holds the pieces [es]. *)
Lemma dents_pieces v d es :
  Forall (λ e, length e = 16%nat) es → d_size d = 16 * Z.of_nat (length es) → file_bytes v d 0 (d_size d) = concat es →
  dents v d = load_dirent <$> es.
Proof.
  intros Hes Hsz Hb. unfold dents. rewrite Hsz, Z.mul_comm, Z.div_mul by lia. rewrite <- (cut_pieces es Hes) at 2. rewrite <- list_fmap_compose.
  apply list_fmap_ext. intros j k [-> Hk]%lookup_seqZ. cbn. f_equal.
  rewrite (file_bytes_sub _ _ _ _ (d_size d)) by lia. by rewrite Hb.
Qed.

Definition root_pieces (args : list (list Z)) : list (list Z) :=
  [new_dirent [46] 1; new_dirent [46; 46] 1] ++ entries args ++
  replicate (Z.to_nat (root_size args) / 16 - (2 + length args)) (replicate 16 0).

Lemma length_entries args : length (entries args) = length args.
Proof. apply length_imap. Qed.

Lemma pieces_16 args : Forall (λ e, length e = 16%nat) (root_pieces args).
Proof.
  apply Forall_app. split; [repeat constructor; apply length_dirent|]. apply Forall_app. split; [|by apply Forall_replicate].
  apply Forall_lookup. intros j e He. unfold entries in He. rewrite list_lookup_imap in He. destruct (args !! j); [|done].
  injection He as <-. apply length_dirent.
Qed.

Lemma root_size_pieces args : root_size args = 16 * Z.of_nat (length (root_pieces args)).
Proof.
  unfold root_pieces. rewrite !length_app, length_replicate, length_entries. cbn [length]. unfold root_size. rewrite Nat2Z.id, length_root_dir.
  pose proof (Nat.div_mod_eq (16 * (2 + length args)) 512). pose proof (Nat.mod_upper_bound (16 * (2 + length args)) 512).
  set (q := (16 * (2 + length args) / 512)%nat) in *. replace ((q + 1) * 512)%nat with ((q + 1) * 32 * 16)%nat by lia. rewrite Nat.div_mul by lia. lia.
Qed.

Lemma root_concat args : pad (Z.to_nat (root_size args)) (root_dir args) = concat (root_pieces args).
Proof.
  assert (∀ m, concat (replicate m (replicate 16 0)) = replicate (16 * m) 0) as Hz.
  { induction m as [|m IH]; [done|]. change (concat (replicate (S m) ?z)) with (z ++ concat (replicate m z)).
    rewrite IH, <- replicate_add. f_equal. lia. }
  pose proof (root_size_pieces args) as E. unfold root_pieces in *. rewrite !length_app, length_replicate, length_entries in E.
  rewrite !concat_app, Hz. unfold pad. rewrite length_root_dir. cbn [concat length] in *. rewrite app_nil_r. unfold root_dir. rewrite <- !app_assoc.
  do 4 f_equal. lia.
Qed.

(** ** Looking a name up *)

Lemma is_entry_new name a inum :
  plain name → plain a → 0 < inum < 2 ^ 16 →
  is_entry (take DIRSIZ name) (load_dirent (new_dirent a inum)) = bool_decide (take DIRSIZ name = take DIRSIZ a).
Proof. intros Hn Ha Hi. rewrite load_new_dirent by lia. by apply is_entry_field; [..|lia]. Qed.

(** The name under which an argument is entered is new: it is not empty, dot
    or dot-dot, and no argument before it has the same first 14 bytes. *)
Definition fresh_name (args : list (list Z)) (k : nat) (arg : list Z) : Prop :=
  skip_underscore arg ≠ [] ∧ take DIRSIZ (skip_underscore arg) ∉ [[46]; [46; 46]] ∧
  ∀ j a, (j < k)%nat → args !! j = Some a → take DIRSIZ (skip_underscore a) ≠ take DIRSIZ (skip_underscore arg).

Lemma skip_notin x a : x ∉ a → x ∉ skip_underscore a.
Proof. intros H. destruct a as [|c l]; [done|]. cbn. destruct (c =? 95); [set_solver|done]. Qed.

Lemma plain_skip a : plain a → plain (skip_underscore a).
Proof. intros [H F]. split; [by apply skip_notin|by apply skip_bytes]. Qed.

Lemma find_file args k arg :
  (length args < 1000)%nat → Forall plain args → args !! k = Some arg → fresh_name args k arg →
  dir_find (take DIRSIZ (skip_underscore arg)) (load_dirent <$> root_pieces args) = Some (Z.of_nat (k + 2)).
Proof.
  intros Hl Hp Hk (_ & Hd & Hf). pose proof (lookup_lt_Some _ _ _ Hk). assert (plain (skip_underscore arg)) as Hn by (apply plain_skip; by eapply Forall_lookup_1).
  assert (entries args !! k = Some (new_dirent (skip_underscore arg) (Z.of_nat (k + 2)))) as He.
  { unfold entries. rewrite list_lookup_imap, Hk. cbn [fmap option_fmap option_map]. by replace (S (S k)) with (k + 2)%nat by lia. }
  assert (∃ rest, root_pieces args = ([new_dirent [46] 1; new_dirent [46; 46] 1] ++ take k (entries args)) ++
    new_dirent (skip_underscore arg) (Z.of_nat (k + 2)) :: rest) as [rest ->].
  { eexists. unfold root_pieces. rewrite <- (take_drop_middle _ _ _ He) at 1. rewrite <- !app_assoc. reflexivity. }
  rewrite fmap_app, fmap_cons.
  rewrite dir_find_at; [by rewrite load_new_dirent by lia| |rewrite is_entry_new by (done || lia); by apply bool_decide_eq_true].
  intros de (e & -> & He')%list_elem_of_fmap. assert (∃ a inum, e = new_dirent a inum ∧ plain a ∧ 0 < inum < 2 ^ 16 ∧
    take DIRSIZ (skip_underscore arg) ≠ take DIRSIZ a) as (a & inum & -> & Ha & Hi & Hne); cycle 1.
  { rewrite is_entry_new by done. by apply bool_decide_eq_false. }
  apply elem_of_app in He' as [He'|He'].
  - assert (plain [46] ∧ plain [46; 46]) as [P1 P2] by (split; (split; [set_solver by lia|repeat constructor; lia])).
    apply elem_of_cons in He' as [->|[->|?%elem_of_nil]%elem_of_cons]; [| |done].
    + exists [46], 1. split; [done|]. split; [done|]. split; [lia|]. intros E. apply Hd. rewrite E. by left.
    + exists [46; 46], 1. split; [done|]. split; [done|]. split; [lia|]. intros E. apply Hd. rewrite E. right. by left.
  - apply list_elem_of_lookup in He' as [j Hj]. assert (j < k)%nat as Hjk by (apply lookup_lt_Some in Hj; rewrite length_take in Hj; lia).
    rewrite lookup_take_lt in Hj by done. unfold entries in Hj. rewrite list_lookup_imap in Hj. destruct (args !! j) as [a|] eqn:Ea; [|done].
    injection Hj as <-. exists (skip_underscore a), (Z.of_nat (S (S j))). split; [done|]. split; [apply plain_skip; by eapply Forall_lookup_1|].
    split; [lia|]. intros E. by apply (Hf j a).
Qed.

(** ** The image in the kernel's buffer cache *)

(** Contents that agree with the image outside the boot blocks and the log. *)
Section same.
Context (v v' : Z → block) (Hv : ∀ b, 32 ≤ b → v' b = v b).

Lemma used_same b : 0 ≤ b < 1000 → used mk_sb v' b ↔ used mk_sb v b.
Proof using Hv.
  intros Hb. unfold used, BBLOCK. change BPB with 4096. rewrite Z.div_small by lia. change (u32 (0 + sb_bmapstart mk_sb)) with 58. by rewrite Hv by lia.
Qed.

Lemma slot_same d k : inode_wf mk_sb v d → slot v' d k = slot v d k.
Proof using Hv.
  intros I. unfold slot. destruct (k <? 13); [done|]. destruct (Z.eqb_spec (addr_of d NDIRECT) 0) as [|Hn]; [done|]. rewrite Hv; [done|].
  destruct (iw_data _ _ _ I NDIRECT) as [Hr _]; [done|done|]. change (dstart mk_sb) with 59 in Hr.
  change (slot v d NDIRECT) with (addr_of d NDIRECT) in Hr. lia.
Qed.

Lemma inode_wf_same d : inode_wf mk_sb v d → inode_wf mk_sb v' d.
Proof using Hv.
  intros I. pose proof I as [H1 H2 H3 H4 H5]. split; [done| | |done|].
  - intros k k' Hk Hk'. rewrite !slot_same by done. by apply H2.
  - intros k Hk. rewrite slot_same by done. intros Hn. destruct (H3 k Hk Hn) as [Hr Hu]. split; [done|]. apply used_same; [|done].
    change (dstart mk_sb) with 59 in Hr. change (sb_size mk_sb) with 1000 in Hr. lia.
  - intros bn. rewrite slot_same by done. apply H5.
Qed.

Lemma file_bytes_same d : inode_wf mk_sb v d → file_bytes v' d 0 (d_size d) = file_bytes v d 0 (d_size d).
Proof using Hv.
  intros I. apply list_fmap_ext. intros i j Hj%list_elem_of_lookup_2%elem_of_seqZ. unfold fbyte. rewrite slot_same by done. f_equal. apply Hv.
  pose proof (Z.mul_div_le j BSIZE ltac:(done)). pose proof (iw_size _ _ _ I). pose proof (Z.div_pos j BSIZE ltac:(lia) ltac:(done)).
  assert (slot v d (bslot (j / BSIZE)) ≠ 0) as Hn by (apply (iw_mapped _ _ _ I); lia).
  destruct (iw_data _ _ _ I (bslot (j / BSIZE))) as [Hr _]; [|done|change (dstart mk_sb) with 59 in Hr; lia].
  apply bslot_range. split; [done|]. apply Z.div_lt_upper_bound; [done|]. lia.
Qed.

Lemma stores_same inum x : 0 ≤ inum < 200 → stores v inum x → stores v' inum x.
Proof using Hv.
  intros Hi. unfold stores. rewrite (same_inode v v') by (done || (intros; apply Hv; lia)). intros (H1 & H2 & H3 & H4 & H5).
  split; [done|]. split; [done|]. split; [done|]. split; [by apply inode_wf_same|]. by rewrite file_bytes_same.
Qed.
End same.

(** The inodes of the image form a tree. *)
Definition image_inode (args : list (list Z)) (i : Z) : Prop := 1 ≤ i ≤ Z.of_nat (length args) + 1.

Lemma root_dents v args :
  stores v 1 (T_DIR, pad (Z.to_nat (root_size args)) (root_dir args)) →
  dents v (disk_inode mk_sb v 1) = load_dirent <$> root_pieces args ∧ d_size (disk_inode mk_sb v 1) mod 16 = 0.
Proof.
  intros (_ & _ & Hs & _ & Hb). cbn [snd] in *. rewrite root_concat in *.
  assert (d_size (disk_inode mk_sb v 1) = 16 * Z.of_nat (length (root_pieces args))) as E.
  { rewrite Hs, <- root_concat, <- root_size_pieces. rewrite length_pad; [unfold root_size; lia|]. unfold root_size. rewrite Nat2Z.id.
    pose proof (Nat.div_mod_eq (length (root_dir args)) 512). pose proof (Nat.mod_upper_bound (length (root_dir args)) 512). lia. }
  split; [by apply dents_pieces; [apply pieces_16|..]|]. rewrite E, Z.mul_comm. by apply Z.mod_mul.
Qed.

Lemma image_tree host v args :
  (length args ≤ 198)%nat → (∀ k arg, args !! k = Some arg → stores v (Z.of_nat (k + 2)) (T_FILE, content host arg)) →
  stores v 1 (T_DIR, pad (Z.to_nat (root_size args)) (root_dir args)) →
  ∀ i, image_inode args i → in_tree mk_sb v (image_inode args) i.
Proof.
  intros Hl Hf Hr i Hi. unfold image_inode in Hi. destruct (root_dents v args Hr) as [Ed Em].
  assert (0 ≤ i < sb_ninodes mk_sb) as Hin by (change (sb_ninodes mk_sb) with 200; lia).
  destruct (decide (i = 1)) as [->|Hne].
  - destruct Hr as (H1 & H2 & _ & H4 & _). split; [done|by rewrite H1|by rewrite H2|done|]. intros _. split; [done|]. rewrite Ed.
    intros de (e & -> & He)%list_elem_of_fmap Hn. unfold root_pieces in He. rewrite !elem_of_app in He. destruct He as [He|[He|He]].
    + apply elem_of_cons in He as [->|[->|?%elem_of_nil]%elem_of_cons]; [| |done]; rewrite load_new_dirent by lia; unfold image_inode; cbn; lia.
    + apply list_elem_of_lookup in He as [j Hj]. unfold entries in Hj. rewrite list_lookup_imap in Hj. destruct (args !! j) as [a|] eqn:Ea; [|done].
      injection Hj as <-. apply lookup_lt_Some in Ea. rewrite load_new_dirent by lia. unfold image_inode. cbn [de_inum]. lia.
    + apply elem_of_replicate in He as [-> _]. by destruct Hn.
  - destruct (lookup_lt_is_Some_2 args (Z.to_nat (i - 2))) as [a Ha]; [lia|]. destruct (Hf _ _ Ha) as (H1 & H2 & _ & H4 & _).
    replace (Z.of_nat (Z.to_nat (i - 2) + 2)) with i in * by lia. split; [done|by rewrite H1|by rewrite H2|done|]. rewrite H1. done.
Qed.

(** ** Booting *)

(** The disk with the image on it. *)
Definition disk_of (s : image) : gmap bkey block := kmap fkey (im_disk s).

#[global] Instance fkey_inj : Inj (=) (=) fkey.
Proof. by intros x y [= ->]. Qed.

Lemma disk_of_view s b : disk_block (disk_of s) (fkey b) = view s b.
Proof. unfold disk_block, view, disk_of. by rewrite lookup_kmap by apply _. Qed.

(** The file system of a kernel that has just been loaded. *)
Definition zero_inode : inode := Ino 0 0 0 (Slk false 0) false (Din 0 0 0 0 0 (replicate 13 0)).
Definition boot_fs (d : gmap bkey block) (pid : Z) : fsst :=
  Fsst (Lst (boot_bst d pid) boot_log) (Sb 0 0 0 0 0 0 0) (replicate NINODE zero_inode) 0.

Section boot.
Context (iderw : nat → M bst ()) `{!DiskDriver iderw} (Hds : disk_size ≤ 2 ^ 31) (Hsz : 1000 ≤ disk_size).
Context (dev_read : Z → option (nat → Z → M fsst (Z * list Z))).

(** The start of the kernel as in main.c and [forkret], and the beginning of
    a transaction. *)
Definition start_up : M fsst () :=
  in_l (in_b binit);;
  iinit iderw ROOTDEV;;
  in_l (initlog iderw ROOTDEV);;
  in_l begin_op.

Definition mk_log : logst := Log 2 30 0 false 1 0 (replicate 30 0).

Lemma mk_log_place : log_place iderw mk_log.
Proof using Hsz. split; cbn; unfold LOGSIZE, MAXOPBLOCKS; lia || done. Qed.

Lemma mk_layout P : x_start P = 2 → x_size P = 30 → layout iderw P mk_sb.
Proof using Hsz.
  intros E1 E2. split; rewrite ?E1, ?E2; [by vm_compute; split_and?; congruence..|by vm_compute|]. change (sb_size mk_sb) with 1000. done.
Qed.

Lemma boot_icache v pid l : (∀ i, i ∈ l → i_ref i = 0 ∧ sl_locked (i_lock i) = false) → icache mk_sb v pid None l.
Proof using.
  intros H. assert (∀ ip i, l !! ip = Some i → i_ref i = 0 ∧ sl_locked (i_lock i) = false) as H'.
  { intros ip i Hi. apply H. by eapply list_elem_of_lookup_2. }
  split; intros; repeat match goal with E : l !! _ = Some _ |- _ => apply H' in E as [? ?] end; done || lia.
Qed.

Lemma boot_nlive l : (∀ i, i ∈ l → i_ref i = 0 ∧ sl_locked (i_lock i) = false) → nlive (counts l) = 0%nat.
Proof using.
  induction l as [|i l IH]; intros H; [done|]. destruct (H i) as [E _]; [by left|]. cbn [fmap list_fmap nlive]. rewrite E.
  apply IH. intros j Hj. apply H. by right.
Qed.

Lemma start_up_wp d pid host args s Q :
  formatted host args s → d = disk_of s →
  (∀ t c, quiet iderw (tx_of (f_l t)) mk_sb t c → layout iderw (tx_of (f_l t)) mk_sb → (∀ b, 32 ≤ b → vw c b = view s b) →
     (∀ i, i ∈ f_inodes t → i_ref i = 0 ∧ sl_locked (i_lock i) = false) → length (f_inodes t) = NINODE → Q tt t) →
  wp start_up Q (boot_fs d pid).
Proof using Hds Hsz.
  intros (Psb & Plog & Pwf & _) -> HQ. apply wp_bind, wp_zoom, wp_zoom. apply (boot_bio iderw). intros b0 B0 Hp0.
  apply wp_bind. unfold iinit. apply wp_bind, wp_modify, wp_bind, wp_zoom, wp_zoom. cbn [f_l set_inodes set_fl l_b set_lb].
  eapply (readsb_wp iderw Hds); [done|done|lia|]. intros b1 B1 _ Hp1. cbn [c_view]. rewrite disk_of_view, Psb. apply wp_modify.
  apply wp_bind, wp_zoom. cbn [f_l set_fsb set_inodes set_fl set_lb l_b l_log].
  assert (disk_block (disk_of s) (hkey mk_log) = zero_block) as Eh by (etrans; [apply disk_of_view|by apply Plog]).
  eapply (mount_wp iderw Hds b1 _ mk_log); [exact B1|exact mk_log_place|by rewrite disk_of_view, Psb|lia| |by rewrite Eh|].
  { rewrite Eh. apply (header_ok_empty iderw); [exact mk_log_place|done]. }
  intros l c L [Hh Hd] En Eo [Es Ez] Hp Hv. apply wp_zoom. eapply (begin_op_wp iderw); [exact L|cbn; rewrite En, Eo; by vm_compute|].
  cbn [f_l set_fl set_fsb set_inodes]. intros L1. set (l1 := set_log _ _) in *.
  assert (∀ b, 32 ≤ b → vw c b = view s b) as Hvw.
  { intros b Hb. unfold vw. rewrite Hv by (unfold in_log; cbn; lia). unfold rec_ws. rewrite Eh. apply disk_of_view. }
  apply (HQ _ c); cbn [f_l set_fl set_fsb set_inodes f_inodes]; [|by apply mk_layout|exact Hvw| |].
  - split; [by split|by vm_compute| |done|unfold ndirty; rewrite Hd, size_empty; by vm_compute].
    split; [intros b Hb; rewrite Hvw by apply Hb; by apply Pwf|]. intros b Hb. apply (used_same (view s) _ Hvw); [|by apply Pwf].
    change (dstart mk_sb) with 59 in Hb. lia.
  - intros i (j & -> & [-> _]%elem_of_replicate)%list_elem_of_fmap. done.
  - done.
Qed.

(** Finding a file and reading all of it, as [sys_open] and [fileread] do. *)
Definition read_path (path : list Z) : M fsst (option (list Z)) :=
  r ← namei iderw dev_read path;
  match r with
  | None => mret None
  | Some ip =>
    ilock iderw ip;;
    i ← get_inode ip;
    x ← readi iderw dev_read ip 0 (d_size (i_d i));
    mret (Some x.2)
  end.

Lemma elems_single name : slash ∉ name → name ≠ [] → elems (slash :: name) = [take DIRSIZ name].
Proof using.
  intros Hs Hn. rewrite elems_slash. assert (split_slash name = [name]) as E.
  { clear Hn. induction name as [|c name IH]; [done|]. cbn [split_slash]. rewrite (proj2 (Z.eqb_neq _ _)) by (intros ->; apply Hs; by left).
    rewrite IH; [done|]. intros H. apply Hs. by right. }
  unfold elems. rewrite E. cbn. rewrite decide_True; [done|]. unfold nonempty. by rewrite bool_decide_eq_false_2.
Qed.

(** Reading a file of the image by its path. *)
Lemma read_path_wp t c v host args k arg :
  quiet iderw (tx_of (f_l t)) mk_sb t c → layout iderw (tx_of (f_l t)) mk_sb → v = vw c →
  (∀ i, i ∈ f_inodes t → i_ref i = 0 ∧ sl_locked (i_lock i) = false) → length (f_inodes t) = NINODE →
  (length args ≤ 198)%nat → Forall plain args → slash ∉ arg →
  (∀ k arg, args !! k = Some arg → stores v (Z.of_nat (k + 2)) (T_FILE, content host arg)) →
  stores v 1 (T_DIR, pad (Z.to_nat (root_size args)) (root_dir args)) →
  args !! k = Some arg → fresh_name args k arg →
  wp (read_path (slash :: skip_underscore arg)) (λ r _, r = Some (content host arg)) t.
Proof using Hds.
  intros Qt Ly -> Hic Hlen Hl Hp Hs Hf Hr Hk Hfr. set (P := tx_of (f_l t)) in *. pose proof (lookup_lt_Some _ _ _ Hk).
  pose proof (image_tree host (vw c) args Hl Hf Hr) as HT. assert (image_inode args 1) as H1 by (unfold image_inode; lia).
  pose proof (boot_nlive _ Hic) as Hn.
  apply wp_bind. eapply wp_mono; [apply (namei_wp iderw Hds P mk_sb Ly dev_read c (image_inode args) HT t _ zero_inode Qt); [by apply boot_icache|rewrite Hn, Hlen; unfold NINODE; lia|done|done]|].
  intros r t' (Qt' & IC & Hres). unfold start in Hres. rewrite bool_decide_eq_true_2 in Hres by done.
  rewrite elems_single in Hres; [|by apply skip_notin|apply Hfr].
  cbn [resolve] in Hres. change ROOTINO with 1 in Hres. rewrite (proj1 Hr), (proj1 (root_dents _ _ Hr)) in Hres. cbn [fst] in Hres.
  rewrite Z.eqb_refl, (find_file args k arg) in Hres by (done || lia). destruct r as [ip|]; [|done].
  destruct Hres as [(i & Hi & Ei & Hri) _]. destruct (Hf k arg Hk) as (S1 & _ & S3 & S4 & S5). cbn [fst snd] in *.
  assert (0 ≤ Z.of_nat (k + 2) < sb_ninodes mk_sb) as Hin by (change (sb_ninodes mk_sb) with 200; lia). rewrite <- Ei in *.
  apply wp_bind. eapply (ilock_wp iderw Hds P mk_sb Ly); [done..|by rewrite S1|]. intros l Tl IC1.
  set (i1 := locked P mk_sb (vw c) i) in *. set (L := <[ip := i1]> (f_inodes t')) in *.
  assert (L !! ip = Some i1) as Hi1 by (apply list_lookup_insert_eq; by eapply lookup_lt_Some).
  apply wp_bind. eapply get_inode_wp; [done|]. change (i_d i1) with (disk_inode mk_sb (vw c) (i_inum i)).
  destruct Qt' as [_ Es W Hh Hd]. pose proof (iw_size _ _ _ S4) as Hmax. change (MAXFILE * BSIZE) with 71680 in Hmax. apply wp_bind.
  eapply (readi_wp iderw Hds P mk_sb Ly dev_read _ c ip i1); [by split|done|done|change (i_d i1) with (disk_inode mk_sb (vw c) (i_inum i)); by rewrite S1|lia|lia| |];
    change (i_d i1) with (disk_inode mk_sb (vw c) (i_inum i)); [lia|]. cbv zeta. intros l2 _ _ _. apply wp_ret. cbn [snd].
  rewrite Z.sub_0_r, Z.min_id, S5. done.
Qed.

(** C20. From mkfs to the kernel.  Take the image that mkfs builds from any
    files of the host that fit, and start a kernel on it: [binit], [iinit]
    and [initlog], with any disk driver.  Then looking up "/name" with
    [namei] and reading the inode with [ilock] and [readi] returns exactly
    the bytes the file had on the host, for every argument whose name (the
    leading underscore skipped) is not dot or dot-dot and differs from the
    names before it in its first 14 bytes, if the entries do not fill the
    last block of the root directory. *)
Theorem mkfs_boot_read host args k arg :
  Forall (arg_ok host) args → Forall plain args → fits (image_of host args) → ((length args + 2) mod 32 ≠ 0)%nat →
  args !! k = Some arg → fresh_name args k arg →
  wp (main host args) (λ _ s, ∀ pid,
    wp (start_up;; read_path (slash :: skip_underscore arg)) (λ r _, r = Some (content host arg)) (boot_fs (disk_of s) pid)) blank.
Proof using Hds Hsz.
  intros Ha Hp F Hm Hk Hfr. eapply wp_mono; [by apply main_formats|]. intros [] s Fm pid. apply wp_bind.
  eapply start_up_wp; [exact Fm|done|]. intros t c Qt Ly Hv Hic Hlen. destruct Fm as (_ & _ & _ & _ & Hf & _ & _ & _ & _ & Hroot & _).
  pose proof F as [F1 _]. rewrite length_image in F1.
  eapply (read_path_wp t c (vw c) host args); [done..|lia|done| | | |done|done].
  - destruct (Forall_lookup_1 _ _ _ _ Ha Hk) as [H _]. exact H.
  - intros j a Hj. apply (stores_same (view s) (vw c) Hv); [pose proof (lookup_lt_Some _ _ _ Hj); lia|by apply Hf].
  - apply (stores_same (view s) (vw c) Hv); [lia|]. apply Hroot. rewrite length_root_dir.
    change 512%nat with (16 * 32)%nat. rewrite Nat.Div0.mul_mod_distr_l. rewrite (Nat.add_comm 2). lia.
Qed.
End boot.

(** ** An image of two files *)

(** An image of two files: mkfs builds it, the kernel boots it, resolves a
    path and reads a file. *)

(** "_cat" in two pieces, "README" in one. *)
Definition demo_cat : list Z := [95; 99; 97; 116].
Definition demo_readme : list Z := [82; 69; 65; 68; 77; 69].
Definition demo_host (name : list Z) : option (list (list Z)) :=
  if bool_decide (name = demo_cat) then Some [replicate 512 65; [66; 67]]
  else if bool_decide (name = demo_readme) then Some [[72; 105; 10]] else None.
Definition demo_args : list (list Z) := [demo_cat; demo_readme].

Lemma demo_arg a chunks :
  demo_host a = Some chunks → bool_decide (47 ∉ a) = true → bool_decide (Forall (λ x, 0 ≤ x < 256) a) = true →
  bool_decide (Forall (Forall (λ x, 0 ≤ x < 256)) chunks) = true → arg_ok demo_host a.
Proof. intros H H1%bool_decide_eq_true H2%bool_decide_eq_true H3%bool_decide_eq_true. split; [done|]. split; [done|]. by exists chunks. Qed.

Lemma demo_args_ok : Forall (arg_ok demo_host) demo_args.
Proof.
  apply Forall_cons. split; [by eapply demo_arg; [reflexivity|vm_compute..]|].
  apply Forall_cons. split; [by eapply demo_arg; [reflexivity|vm_compute..]|done].
Qed.

Lemma demo_fits : fits (image_of demo_host demo_args).
Proof.
  split; [cbn; lia|]. split; [apply (bool_decide_unpack _); by vm_compute|].
  repeat (apply Forall_cons; split; [split; [by (left + right)|apply (bool_decide_unpack _); by vm_compute]|]). done.
Qed.

Lemma demo_plain : Forall plain demo_args.
Proof. repeat (apply Forall_cons; split; [split; [set_solver by lia|repeat constructor; lia]|]). done. Qed.

Lemma demo_fresh : fresh_name demo_args 0 demo_cat.
Proof. split; [done|]. split; [by apply (bool_decide_unpack _); vm_compute|]. intros j a Hj. lia. Qed.

Lemma mkfs_correct_witness :
  wp (main demo_host demo_args) (λ _ s, stores (view s) 2 (T_FILE, replicate 512 65 ++ [66; 67]) ∧
    stores (view s) 3 (T_FILE, [72; 105; 10])) blank.
Proof.
  eapply wp_mono; [exact (mkfs_correct demo_host demo_args demo_args_ok demo_fits)|].
  intros [] s (_ & _ & _ & _ & H & _). split; [exact (H 0%nat demo_cat eq_refl)|exact (H 1%nat demo_readme eq_refl)].
Defined.

(** "/cat" *)
Definition demo_path : list Z := slash :: skip_underscore demo_cat.

Lemma mkfs_boot_read_witness :
  wp (main demo_host demo_args) (λ _ s,
    wp (start_up drv;; read_path drv (λ _, None) demo_path) (λ r _, r = Some (replicate 512 65 ++ [66; 67])) (boot_fs (disk_of s) 1)) blank.
Proof.
  eapply wp_mono; [apply (mkfs_boot_read drv demo_ds ltac:(cbn; lia) (λ _, None) demo_host demo_args 0 demo_cat demo_args_ok demo_plain demo_fits);
    [done|done|exact demo_fresh]|].
  intros [] s H. exact (H 1).
Defined.

Lemma namei_resolves_witness :
  wp (main demo_host demo_args) (λ _ s,
    wp (start_up drv;; namei drv (λ _, None) demo_path) (λ r t, ∃ ip i, r = Some ip ∧ f_inodes t !! ip = Some i ∧ i_inum i = 2)
      (boot_fs (disk_of s) 1)) blank.
Proof.
  eapply wp_mono; [exact (main_formats demo_host demo_args demo_args_ok demo_fits)|]. intros [] s Fm. apply wp_bind.
  eapply (start_up_wp drv demo_ds ltac:(cbn; lia)); [exact Fm|done|]. intros t c Qt Ly Hv Hic Hlen.
  destruct Fm as (_ & _ & _ & _ & Hf & _ & _ & _ & _ & Hroot & _).
  assert (∀ k arg, demo_args !! k = Some arg → stores (vw c) (Z.of_nat (k + 2)) (T_FILE, content demo_host arg)) as Hf'.
  { intros j a Hj. apply (stores_same (view s) (vw c) Hv); [pose proof (lookup_lt_Some _ _ _ Hj) as H; cbn in H; lia|by apply Hf]. }
  assert (stores (vw c) 1 (T_DIR, pad (Z.to_nat (root_size demo_args)) (root_dir demo_args))) as Hr'
    by (apply (stores_same (view s) (vw c) Hv); [lia|]; apply Hroot; by vm_compute).
  eapply wp_mono; [apply (namei_resolves drv demo_ds (tx_of (f_l t)) mk_sb Ly (λ _, None) c (image_inode demo_args)
    (image_tree demo_host (vw c) demo_args ltac:(cbn; lia) Hf' Hr') t demo_path zero_inode Qt); [by apply boot_icache|rewrite boot_nlive, Hlen by done; unfold NINODE; lia|by vm_compute|done]|].
  intros r t' (_ & _ & H). unfold start, demo_path in H. rewrite bool_decide_eq_true_2, elems_single in H by (done || set_solver by lia).
  cbn [resolve] in H. change ROOTINO with 1 in H. rewrite (proj1 Hr'), (proj1 (root_dents _ _ Hr')) in H. cbn [fst] in H.
  rewrite Z.eqb_refl, (find_file demo_args 0 demo_cat ltac:(cbn; lia) demo_plain eq_refl demo_fresh) in H.
  destruct r as [ip|]; [|done]. destruct H as [(i & Hi & Ei & _) _]. by exists ip, i.
Defined.
